(* ===== verification/_CoqProject ===== *)
-Q . S2P
Prelude.v
Pools.v
Replay.v
Tai64n.v
Ratelimiter.v
Checksum.v
Messages.v
NoiseHelpers.v
ToyCrypto.v
Text.v
Netip.v
Cookie.v
AllowedIPs.v
TrieBits.v
Trie.v
Routing.v
RoutingSpec.v
State.v
IndexTable.v
Timers.v
Handshake.v
Session.v
Initiations.v
Send.v
Nonces.v
Staging.v
Receive.v
Device.v
Uapi.v
Transport.v
Queues.v
WellFormed.v
Safety.v
DeviceSafety.v
UapiSafety.v
Machine.v
UapiSpec.v
UapiServe.v
Delivery.v
Offload.v
GsoSpec.v
Gro.v
GroSpec.v
GroCoalesce.v
GroInvariant.v
GroLoop.v
GroAccount.v
GroWrite.v
GroRoundtrip.v
Sockets.v
BindStd.v
BindSpec.v
BindSend.v
BindRecv.v
BindDeliver.v
BindOpen.v
RouteListener.v
TunDevices.v
Resources.v
TunCreate.v
AsyncFile.v
NamedPipe.v
UapiListen.v
Encodings.v
Stun.v
Config.v
KeyUtils.v
Engine.v
EngineRuns.v
EngineSpec.v
DomainName.v
Resolver.v
ResolverSpec.v
ResolverLookup.v
Netstack.v
NetstackSpec.v
WinRing.v
WinRingSpec.v
VpnEngine.v
Frp.v
