(* ===== verification/Prelude.v ===== *)
(** Verification of orbitx: its fork of wireguard-go ([src/wireguard-go]) and
    the programs that drive it, the engine of the Android application
    ([vpnengine.go], [vpnengine/]) and the command-line tool ([z/], [cmd/orbitx]), and the
    wrapper of a reverse proxy beside them ([frp/]).

    The program is a user-space WireGuard implementation.  A device reads
    packets from a TUN interface, routes them by allowed IPs to peers, encrypts
    them with the keys that a Noise handshake has agreed on, and sends them
    through a UDP bind; what the bind receives goes the other way.  Timers,
    a cookie mechanism and a rate limiter keep the sessions alive and the
    responder from being overwhelmed, and a text protocol configures it all.
    Around the device, each of the two ends of a pair derives its keys from a
    secret, learns its public address by STUN through the device's own bind,
    publishes it in a database, reads the other end's record there, and gives the
    device a text that makes the other end its only peer.

    * Method

    Go functions are Rocq functions of the same names.  Stateless ones are pure;
    those of a device are programs of a state monad over a [World] (file
    [State]): the device, the clock, the randomness that is left, and what went
    out to the network and to the TUN interface.  Pointers between structs are
    identifiers into stores, so aliasing is as in the code.  [None] is a panic:
    of a slice bound, a nil pointer, a missing key of a store.  Errors are values
    of option, sum or inductive types.  Integers are [Z] with their wrap-around
    written out ([u16], [u32], [u64], [s64] of this file).

    * Files

    Foundations.
    - [Prelude]: integers, bytes, slices, functional record update, the state
      monad with its rules of total correctness ([runs]), tactics, lists cut into
      pieces of one size, counting in lists.
    - [Text], [Netip]: the parts of Go's strings, strconv, hex and net/netip that
      the code calls, with the print-and-parse-back lemmas.

    Cryptographic building blocks.
    - [Messages]: the structs of [device/noise-protocol.go] with marshal and
      unmarshal, behind the class of wire formats.
    - [NoiseHelpers]: [device/noise-helpers.go] and [noise-types.go], over the
      class [Crypto] of the primitives of golang.org/x/crypto and its laws
      [CryptoLaws]; [ToyCrypto] is an instance at which theorems are evaluated.
    - [Tai64n] ([tai64n/tai64n.go]), [Replay] ([replay/replay.go]),
      [Ratelimiter] ([ratelimiter/ratelimiter.go]), [Checksum]
      ([tun/checksum.go]), [Cookie] ([device/cookie.go]).

    Routing.
    - [AllowedIPs]: [device/allowedips.go] on a heap of trie nodes, pointer by
      pointer.  [TrieBits], [Trie]: tries as trees and their meaning.
      [Routing]: the heap represents a tree, and so do the results of the
      operations.  [RoutingSpec]: the contract, longest-prefix match over a map.

    The device.
    - [State] (the structs, and small devices for the witnesses),
      [IndexTable] ([device/indextable.go]), [Timers] ([device/timers.go]),
      [Handshake] and [Session] ([device/noise-protocol.go]: messages, then keys),
      [Send] ([device/send.go]), [Receive] ([device/receive.go]), [Device]
      ([device/device.go], [peer.go], [tun.go], [channels.go]), [Uapi]
      ([device/uapi.go]), [UapiServe] (its loop over a connection, [IpcHandle]).
    - [Pools]: the buffer pools and the counted queues of [device/pools.go] and
      [channels.go], as step relations among the goroutines that share them.
    - [Initiations], [Nonces], [Staging], [Transport], [Delivery]: what the flows
      guarantee.  [Queues] and [WellFormed]: the invariant of devices and the
      calculus in which [Safety], [DeviceSafety] and [UapiSafety] show that
      every operation keeps it.  [Machine]: the events of a device and its runs.
      [UapiSpec]: the configuration protocol against an abstract machine.

    The TUN devices.
    - [TunDevices]: reading, writing and listening on the other platforms and the
      listeners of Linux ([tun/tun_darwin.go], [tun_freebsd.go], [tun_openbsd.go],
      [tun_windows.go], [tun_linux.go]).  [TunCreate]: creating and closing the
      devices of all of them, with the resources each path holds; [Resources] is
      the monad of system calls that may fail at any place.
    - Linux: [Offload], [GsoSpec]: splitting large packets ([tun/offload_linux.go],
      [tun/tun_linux.go]).  [Gro]: merging small ones.  [GroSpec], [GroCoalesce],
      [GroInvariant], [GroLoop], [GroAccount], [GroWrite]: that it
      merges what belongs together, layer by layer.  [GroRoundtrip]: splitting
      undoes merging.

    The UDP bind.
    - Linux: [Sockets]: control messages ([conn/gso_linux.go], [conn/sticky_linux.go])
      over the class [Sys] of golang.org/x/sys/unix.  [BindStd]:
      [conn/bind_std.go].  [BindSpec], [BindSend]: what is sent.  [BindRecv],
      [BindDeliver]: what is received.  [BindOpen]: opening both sockets on one
      port, and closing them.
    - [RouteListener]: the messages of the kernel about routes and the cached
      source addresses they clear ([device/sticky_linux.go] and the reading of
      sources in [conn/sticky_linux.go]).
    - [WinRing]: the rings of registered I/O of [conn/bind_windows.go].
      [WinRingSpec]: which packets are in flight.

    The sockets of the configuration protocol ([ipc/]).
    - [AsyncFile]: files with asynchronous operations and deadlines
      ([ipc/namedpipe/file.go]).  [NamedPipe]: pipes of messages, dialling and the
      listener ([namedpipe.go]).
    - [UapiListen]: opening, listening and accepting on every platform
      ([ipc/uapi_*.go]), over reads that can be cancelled
      ([rwcancel/rwcancel.go]).

    The programs.
    - [Encodings]: the parts of Go's crypto/sha256 and encoding/base64
      that they call.  [Stun]: the client of [z/stun/client.go] and the parser of
      [vpnengine.go], against what a server writes.
    - [Config]: the identities and configuration texts of both
      ([vpnengine.go], [z/utils/config.go]).  [KeyUtils]: the tool
      ([z/utils/key_utils.go], [z/models/models.go]).  [Engine]: the engine's
      variables, the calls of the application and the turns of its goroutines
      ([vpnengine.go]).
    - [EngineRuns]: what holds of the engine under every interleaving.
      [EngineSpec]: the programs agree, and make two ends peers of each other.
    - [VpnEngine]: the engine as a package ([vpnengine/vpnengine.go]) and the
      program for Linux ([cmd/orbitx/main_linux.go]).
    - [Frp]: the variables of the proxy's two services, their runs and stops
      ([frp/frpwrapper.go]).

    The user-space network stack ([tun/netstack/tun.go]).
    - [DomainName]: names and which responses answer a question.  [Resolver]: the
      exchanges with name servers and the lookup of hosts, over the class
      [Dnsmessage] of golang.org/x/net/dns/dnsmessage.  [Netstack]: the device,
      ping connections and dialling by name; calls of gVisor are recorded.
    - [ResolverSpec]: the laws of DNS messages, and that lookups return.
      It has a format with these laws, for the witnesses.  [ResolverLookup]:
      what lookups find.  [NetstackSpec]: what is written and dialled.

    * What is shown

    - Safety: from a new device whose MTU is not negative, no sequence of events
      panics but for one panic after [Close], of a handshake worker that inserts
      into the closed rate limiter ([Machine.device_never_panics]); nonces of a
      keypair are never reused under any interleaving ([Nonces]); an initiation that
      is recorded is not let in again, and how far workers that check copies of it
      at once can go ([Initiations]); stopped timers stay stopped ([Timers]).
    - Correctness of the protocol: the two ends of a handshake agree on keys
      ([Session]), what one end sends the other delivers ([Delivery]), cookies
      are exchanged ([Cookie]), indices are fresh ([IndexTable]), staged packets
      become queued ones with consecutive nonces ([Staging]).
    - Refinements: the replay filter of a set of counters, the trie of a map from
      prefixes to peers, the configuration protocol of an abstract machine, and
      the text of the engine of a configuration with the other end as the peer
      ([EngineSpec.engine_configures]).
    - The programs: their ends of a pair are the same end
      ([EngineSpec.engines_agree]); the engine's status is well typed and its
      goroutines come to rest with the device configured for its peer
      ([EngineRuns]); STUN addresses are read as they were written ([Stun]); a
      proxy that is used serially is said to run exactly until its run has cleared the
      variables, shortly before a stop that waits for it returns ([Frp]).
    - The user-space stack: lookups return, with the addresses of the first answers
      to their questions ([ResolverLookup]); domain names are those of a grammar
      ([DomainName]); dialling connects to the first address that answers, with
      the time shared fairly ([NetstackSpec]).
    - Offload: merging and splitting packets of the TUN device and datagrams of
      the bind lose, reorder and change nothing.
    - The life of the bind: opening ends with both sockets on one port, or with
      nothing open ([BindOpen]); of the peers that the listener asks for, a route
      that moves clears exactly the sources that were cached for it
      ([RouteListener]); on Windows no packet that is sent is rewritten while it is in
      flight, and datagrams are taken in the order in which the system completed
      them, with their bytes as long as no more come before the copy than there
      are requests outstanding ([WinRingSpec]).
    - Resources: a pool never hands out more than its bound and loses no waiting
      goroutine, a counted queue is closed once and drained first ([Pools]);
      creating a TUN device fails with nothing left, on the platforms where it
      does ([TunCreate], which also shows where it does not); who follows the events
      of a TUN device is where the interface was last seen ([TunDevices]); a file of
      Windows is closed once, after its operations, which its closing ends, and its
      deadlines hold whatever their timers do ([AsyncFile]); a pipe of messages is
      read as the stream that was written, and a listener that hears of its closing
      ends ([NamedPipe]); of the engine's devices only the one of its variable is open
      after calls in turn, though not after two starts at once ([VpnEngine]).
    - Bounds, round trips and errors: rate limits, with the excess when calls of the
      limiter overlap ([Ratelimiter]), padding ([Send]), wire formats, timestamps,
      refused configurations and what they leave ([UapiSpec]), empty packets, an
      unwilling kernel.

    * Fuel

    Loops that are not structural have fuel that is proved to be enough or that
    cannot run out: [SendStagedLoop] 3 turns for each staged element and 6 more;
    descending a trie 130 steps, one for each bit of an address and some;
    [newIndex] the random answers that are left; [IpcSet] one line for each
    character of the text; the loop over IPv6 groups 8; decimals the digits;
    [splitLoop] the payload's length; scanning control messages their length;
    parsing STUN the length of the packet; trimming spaces the length of the text;
    the answers of a DNS message one more turn than its header can count;
    [IpcHandle] one line for each character and the end of the text; the loops
    over netlink messages and their attributes the length of the buffer (a header
    that says length zero does not end in the code; it uses up the fuel); the
    turns of a listener are one for each event that is given.

    * What the model leaves out

    - Locks and blocking channels: a step takes its locks at once and never waits,
      and channels are unbounded queues; so deadlocks are not modelled, neither that
      of [SetPrivateKey] nor that of the rate limiter, which the findings describe.
      Where the order of workers matters it is explicit: containers carry the flag
      that is their mutex; the events of [Machine] are the turns of the workers, the
      sequential routines, the timers and the calls of the application, in any
      order.  A handshake worker's turn is several steps: the admission of a message,
      each part of [Allow] under its lock, the check of an initiation or a response,
      its record, and what follows ([hsWork]); other steps come in between, [Close]
      among them.  The other turns and calls, of which some take locks more than
      once, are one step each.  [Nonces] models the atomic instructions themselves.
    - In the device, buffers are values, so pools and offsets do not appear
      ([Pools] is about the pools by themselves);
      [BindStd] models the arrays and their aliasing.  In [Offload] slices are
      bounded by length rather than capacity; in [Gro] buffers do not overlap.
    - Endpoints are copied by value; an address is its bytes followed by its zone.
    - A clock that is read several times in an operation is read once; the order
      of iteration over maps is an argument; [DelSync] of a timer is two [Del]s.
    - An AEAD object is its key.
    - In [Engine] a step is what happens between two points where the mutex, a
      channel or the device may let another goroutine in; a record that is
      published is written at once.  JSON texts, HTTP and the database are not
      modelled: an event is the map that decoding gives, a number in it a
      mantissa and an exponent; [int] of a number out of range is as on amd64.
      [EngineSpec.engine_configures] is about a device that has no peers yet, up
      or down.  Replacing a peer that runs is not in it: the operations are
      ([Uapi], [Device]), but what they leave depends on the workers of the old
      peer, which only the invariants of [Machine] speak of.
    - System calls are arguments or recorded.  So of the TUN devices the bytes of
      the requests to the system (names, flags and MTUs in ioctls) are not
      modelled; of the bind, the options of sockets ([conn/controlfns*.go]), the
      bindings of registered I/O ([conn/winrio]) and [BindSocketToInterface] on
      Windows; nor are the names and permissions of sockets and pipes, logging, the
      calls of Java and those of the sensors ([power_present/]).
    - Of the user-space stack, gVisor itself: the loops of [Resolver] meet an
      arbitrary network, in which each read ends with data or, at the deadline that
      is set on every connection, with an error.  The two lookups of a host run in
      worlds of their own and may end in either order. *)
From Stdlib Require Export ZArith Lia.
From Stdlib Require Import Ascii String.
Export StringSyntax.
From stdpp Require Export base option numbers list gmap.

(** ** Scope and notations *)

Declare Scope orbitx_scope.
Delimit Scope orbitx_scope with orbitx.
#[global] Open Scope Z_scope.

(** ** Fixed-width unsigned and signed integers, as wrap-around on [Z] *)

Definition uwrap (w x : Z) : Z := x mod 2 ^ w.
Definition u8 : Z -> Z := uwrap 8.
Definition u16 : Z -> Z := uwrap 16.
Definition u32 : Z -> Z := uwrap 32.
Definition u64 : Z -> Z := uwrap 64.

(** Two's complement reading of the low 64 bits. *)
Definition s64 (x : Z) : Z := (x + 2 ^ 63) mod 2 ^ 64 - 2 ^ 63.

(** Saturation at the bounds of an [int64], as Go's [time.Time.Sub] does. *)
Definition sat64 (x : Z) : Z := Z.max (- 2 ^ 63) (Z.min (2 ^ 63 - 1) x).

(** ** Go times: nanoseconds of the clock, [None] for the zero [time.Time] *)

Abbreviation gotime := (option Z).
Definition second : Z := 1000000000.

(** [time.Since(t)] read at [now]: saturated, and maximal for the zero time. *)
Definition since (now : Z) (t : gotime) : Z :=
  match t with None => 2 ^ 63 - 1 | Some t => sat64 (now - t) end.

(** ** Bytes and slices *)

Definition is_byte (b : Z) : Prop := 0 <= b < 256.
Abbreviation bytes := (list Z).
Abbreviation all_bytes l := (Forall is_byte l).

(** Length of a slice as a Go [int]. *)
Abbreviation zlen l := (Z.of_nat (length l)).

(** [l[lo:hi]] for [lo <= hi <= len(l)]; the callers establish the bounds. *)
Definition slice {A} (lo hi : nat) (l : list A) : list A := take (hi - lo) (drop lo l).

(** Go's [copy(dst[off:], src)]: as many bytes as fit, the rest of [dst] kept. *)
Definition copy_at {A} (dst : list A) (off : nat) (src : list A) : list A :=
  let n := Nat.min (length dst - off) (length src) in
  take off dst ++ take n src ++ drop (off + n) dst.

(** [binary.LittleEndian] and [binary.BigEndian] on [n] bytes. *)
Fixpoint le_enc (n : nat) (x : Z) : bytes :=
  match n with
  | O => []
  | S n => x mod 256 :: le_enc n (x / 256)
  end.

Fixpoint le_dec (l : bytes) : Z :=
  match l with
  | [] => 0
  | b :: l => b + 256 * le_dec l
  end.

Definition be_enc (n : nat) (x : Z) : bytes := reverse (le_enc n x).
Definition be_dec (l : bytes) : Z := le_dec (reverse l).

(** [bytes.Compare]. *)
Fixpoint bytes_compare (a b : bytes) : comparison :=
  match a, b with
  | [], [] => Eq
  | [], _ => Lt
  | _, [] => Gt
  | x :: a, y :: b =>
      match x ?= y with
      | Eq => bytes_compare a b
      | c => c
      end
  end.

(** [bytes.Equal], [hmac.Equal] and [subtle.ConstantTimeCompare] agree on the answer. *)
Definition bytes_eqb (a b : bytes) : bool := bool_decide (a = b).

(** The bytes of a Go string constant. *)
Definition of_string (s : string) : bytes :=
  (fun c => Z.of_N (N_of_ascii c)) <$> list_ascii_of_string s.
Arguments of_string s%_string.

(** ** Tactics *)

(** Split every conjunction of the context and solve the arithmetic. *)
Ltac zsolve := repeat match goal with H : _ /\ _ |- _ => destruct H end; lia.

(** Replace [Z.of_nat (Z.to_nat x)] by [x] when [lia] knows [0 <= x]. *)
Ltac znat := repeat (rewrite Z2Nat.id in * by lia); repeat (rewrite Nat2Z.id in * ).

(** Case analysis on every boolean comparison of the goal, with its meaning. *)
Ltac zbool :=
  repeat match goal with
  | |- context [?a <=? ?b] => destruct (Z.leb_spec a b)
  | |- context [?a <? ?b] => destruct (Z.ltb_spec a b)
  | |- context [?a >? ?b] => rewrite (Z.gtb_ltb a b)
  | |- context [?a >=? ?b] => rewrite (Z.geb_leb a b)
  | |- context [?a =? ?b] => destruct (Z.eqb_spec a b)
  end.

(** [all_bytes] of a literal list. *)
Ltac prove_bytes :=
  repeat (apply Forall_cons; split; [unfold is_byte; lia|]); apply Forall_nil; exact I.

(** ** Functional update of record fields: [r <| field := v |>] *)

(** The eta expansion of a record type, from which setters are derived. *)
Class Settable (R : Type) := eta : R -> R.

Class Setter {R T : Type} (f : R -> T) := set_field : (T -> T) -> R -> R.
Arguments set_field {R T} f {_} _ _ /.

(** The setter of [f] is the eta expansion with [f] replaced by its update. *)
Ltac derive_setter :=
  match goal with
  | |- @Setter ?R ?T ?f =>
      let e := eval hnf in (eta : R -> R) in
      match eval pattern f in e with
      | ?s _ => let r := eval cbv beta in (fun g : T -> T => s (fun x => g (f x))) in exact r
      end
  end.

#[export] Hint Extern 1 (@Setter _ _ _) => derive_setter : typeclass_instances.

Notation "r <| f := v |>" := (set_field f (fun _ => v) r)
  (at level 12, f at next level, left associativity).
Notation "r <| f ::= g |>" := (set_field f g r)
  (at level 12, f at next level, left associativity).

(** Compute projections of updated records. *)
Ltac rsimpl := cbv beta iota delta [set_field]; cbn beta iota.
Tactic Notation "rsimpl" "in" hyp(H) :=
  cbv beta iota delta [set_field] in H; cbn beta iota in H.

(** ** The state monad: state passing, [None] for a panic *)

Definition ST (S A : Type) : Type := S -> option (A * S).

Definition ret {S A} (a : A) : ST S A := fun s => Some (a, s).
Definition bind {S A B} (m : ST S A) (k : A -> ST S B) : ST S B := fun s =>
  match m s with Some (a, s) => k a s | None => None end.

Notation "'let*' x := m 'in' k" := (bind m (fun x => k))
  (at level 200, x name, m at level 100, k at level 200, right associativity).
Notation "'let*' ' p := m 'in' k" := (bind m (fun x => match x with p => k end))
  (at level 200, p pattern, m at level 100, k at level 200, right associativity).
Notation "m ;;; k" := (bind m (fun _ => k)) (at level 100, k at level 200, right associativity).

Definition panic {S A} : ST S A := fun _ => None.
Definition when {S} (b : bool) (m : ST S unit) : ST S unit := if b then m else ret tt.

(** [for _, x := range l] *)
Fixpoint forEach {S A} (l : list A) (f : A -> ST S unit) : ST S unit :=
  match l with [] => ret tt | x :: l => f x;;; forEach l f end.

(** Total correctness: [m] does not panic from [s] and ends in [Q]. *)
Definition runs {S A} (m : ST S A) (s : S) (Q : A -> S -> Prop) : Prop :=
  match m s with Some (a, s) => Q a s | None => False end.

(** Partial correctness: unless it panics, [m] keeps [I]. *)
Definition keeps {S A} (I : S -> S -> Prop) (m : ST S A) : Prop :=
  forall s a s', m s = Some (a, s') -> I s s'.

(** The elements of a list in an order of one's choice, as a [range] over a map
    takes them: [order] says which of those left comes next. *)
Fixpoint pickOrder {A} (n : nat) (order : list nat) (l : list A) : list A * list nat :=
  match n, l with
  | O, _ | _, [] => ([], order)
  | S n, x :: _ =>
      let i := (hd 0%nat order mod length l)%nat in
      let '(rest, order) := pickOrder n (tl order) (take i l ++ drop (S i) l) in
      (nth i l x :: rest, order)
  end.
Create HintDb orbitx.
Create Rewrite HintDb orbitx.

(** ** Lemmas on the monad *)

Lemma bind_eq {S A B} (m : ST S A) (k : A -> ST S B) s :
  bind m k s = match m s with Some (a, s) => k a s | None => None end.
Proof. done. Qed.

Lemma runs_bind {S A B} (m : ST S A) (k : A -> ST S B) s Q :
  runs m s (fun a s => runs (k a) s Q) -> runs (bind m k) s Q.
Proof. unfold runs. rewrite bind_eq. by destruct (m s) as [[]|]. Qed.

Lemma runs_mono {S A} (m : ST S A) s (Q Q' : A -> S -> Prop) :
  runs m s Q -> (forall a s, Q a s -> Q' a s) -> runs m s Q'.
Proof. unfold runs. destruct (m s) as [[]|]; auto. Qed.

Lemma runs_exists {S A} (m : ST S A) s Q :
  runs m s Q -> exists a s', m s = Some (a, s') /\ Q a s'.
Proof. unfold runs. destruct (m s) as [[a s']|]; [eauto|done]. Qed.

(** A loop whose turns each keep an invariant of what is left to do. *)
Lemma runs_forEach {S A} (I : list A -> S -> Prop) (f : A -> ST S unit) l s Q :
  I l s -> (forall x l s, I (x :: l) s -> runs (f x) s (fun _ s => I l s)) ->
  (forall s, I [] s -> Q tt s) -> runs (forEach l f) s Q.
Proof.
  intros Hi Hf HQ. revert s Hi. induction l as [|x l IH]; intros s0 Hi; cbn [forEach].
  - exact (HQ s0 Hi).
  - apply runs_bind. eapply runs_mono; [by apply Hf|]. intros [] s' Hs'. by apply IH.
Qed.

(** The lookups that follow an update of the same key. *)
Ltac wlookup := cbn; rewrite ?lookup_insert_eq; first [eassumption | reflexivity].

(** One instruction of the monad; components extend [wstep] with theirs. *)
Ltac wbase :=
  lazymatch goal with
  | |- runs (bind _ _) _ _ => apply runs_bind
  | |- runs (ret ?a) ?w ?Q => change (Q a w)
  | |- runs (when true ?m) ?w ?Q => change (runs m w Q)
  | |- runs (when false ?m) ?w ?Q => change (Q tt w)
  end; cbv beta.
Ltac wstep := wbase.

(** ** Integers *)

Lemma uwrap_range w x : 0 <= w -> 0 <= uwrap w x < 2 ^ w.
Proof. intros. apply Z.mod_pos_bound. lia. Qed.

Lemma uwrap_small w x : 0 <= x < 2 ^ w -> uwrap w x = x.
Proof. intros. by apply Z.mod_small. Qed.

Lemma u8_range x : 0 <= u8 x < 256.
Proof. by apply (uwrap_range 8). Qed.
Lemma u16_range x : 0 <= u16 x < 65536.
Proof. by apply (uwrap_range 16). Qed.
Lemma u32_range x : 0 <= u32 x < 2 ^ 32.
Proof. by apply uwrap_range. Qed.
Lemma u64_range x : 0 <= u64 x < 2 ^ 64.
Proof. by apply uwrap_range. Qed.
Lemma u8_small x : 0 <= x < 256 -> u8 x = x.
Proof. by apply (uwrap_small 8). Qed.
Lemma u16_small x : 0 <= x < 65536 -> u16 x = x.
Proof. by apply (uwrap_small 16). Qed.
Lemma u32_small x : 0 <= x < 2 ^ 32 -> u32 x = x.
Proof. by apply uwrap_small. Qed.
Lemma u64_small x : 0 <= x < 2 ^ 64 -> u64 x = x.
Proof. by apply uwrap_small. Qed.

Lemma s64_small x : - 2 ^ 63 <= x < 2 ^ 63 -> s64 x = x.
Proof. intros. unfold s64. rewrite Z.mod_small; lia. Qed.

Lemma sat64_small x : - 2 ^ 63 <= x < 2 ^ 63 -> sat64 x = x.
Proof. intros. unfold sat64. lia. Qed.

#[export] Hint Rewrite u8_small u16_small u32_small u64_small s64_small sat64_small
  using lia : orbitx.

(** Masking with [2^n - 1] is the remainder, shifting is division. *)
Lemma land_mask x n : 0 <= n -> Z.land x (2 ^ n - 1) = x mod 2 ^ n.
Proof. intros. rewrite <- Z.land_ones by lia. by rewrite Z.ones_equiv, Z.sub_1_r. Qed.

(** ** Little- and big-endian numbers *)

Lemma length_le_enc n x : length (le_enc n x) = n.
Proof. revert x. induction n; intros; simpl; auto. Qed.

Lemma length_be_enc n x : length (be_enc n x) = n.
Proof. unfold be_enc. by rewrite length_reverse, length_le_enc. Qed.

Lemma le_enc_bytes n x : all_bytes (le_enc n x).
Proof.
  revert x. induction n; intros; simpl; constructor; auto.
  unfold is_byte. pose proof (Z.mod_pos_bound x 256). lia.
Qed.

Lemma be_enc_bytes n x : all_bytes (be_enc n x).
Proof. apply Forall_reverse, le_enc_bytes. Qed.

Lemma le_dec_range l : all_bytes l -> 0 <= le_dec l < 256 ^ zlen l.
Proof.
  induction 1 as [|b l Hb _ IH]; [simpl; lia|].
  unfold is_byte in Hb. cbn [le_dec length].
  rewrite Nat2Z.inj_succ, Z.pow_succ_r by lia. lia.
Qed.

Lemma be_dec_range l : all_bytes l -> 0 <= be_dec l < 256 ^ zlen l.
Proof.
  intros. unfold be_dec. rewrite <- (length_reverse l).
  by apply le_dec_range, Forall_reverse.
Qed.

Lemma le_dec_enc n x : 0 <= x < 256 ^ Z.of_nat n -> le_dec (le_enc n x) = x.
Proof.
  revert x. induction n as [|n IH]; intros x Hx.
  - simpl in *. lia.
  - rewrite Nat2Z.inj_succ, Z.pow_succ_r in Hx by lia. cbn [le_enc le_dec].
    rewrite IH by (split; [apply Z.div_pos | apply Z.div_lt_upper_bound]; lia).
    pose proof (Z.div_mod x 256). lia.
Qed.

Lemma le_enc_dec l : all_bytes l -> le_enc (length l) (le_dec l) = l.
Proof.
  induction 1 as [|b l Hb _ IH]; simpl; [done|]. unfold is_byte in Hb. f_equal.
  - rewrite Z.mul_comm, Z.mod_add, Z.mod_small; lia.
  - rewrite Z.mul_comm, Z.div_add, Z.div_small by lia. by rewrite Z.add_0_l.
Qed.

Lemma be_dec_enc n x : 0 <= x < 256 ^ Z.of_nat n -> be_dec (be_enc n x) = x.
Proof. intros. unfold be_dec, be_enc. rewrite reverse_involutive. by apply le_dec_enc. Qed.

Lemma be_enc_dec l : all_bytes l -> be_enc (length l) (be_dec l) = l.
Proof.
  intros. unfold be_enc, be_dec. rewrite <- (length_reverse l), le_enc_dec.
  - apply reverse_involutive.
  - by apply Forall_reverse.
Qed.

Lemma le_dec_app a b : le_dec (a ++ b) = le_dec a + 256 ^ zlen a * le_dec b.
Proof.
  induction a as [|x a IH]; [change (256 ^ zlen (@nil Z)) with 1; simpl; lia|].
  cbn [app le_dec length]. rewrite IH, Nat2Z.inj_succ, Z.pow_succ_r by lia. ring.
Qed.

Lemma be_dec_app a b : be_dec (a ++ b) = 256 ^ zlen b * be_dec a + be_dec b.
Proof. unfold be_dec. rewrite reverse_app, le_dec_app, length_reverse. ring. Qed.

Lemma be_dec_cons x a : be_dec (x :: a) = 256 ^ zlen a * x + be_dec a.
Proof.
  change (x :: a) with ([x] ++ a). rewrite be_dec_app. f_equal.
  unfold be_dec. simpl. lia.
Qed.

#[export] Hint Rewrite length_le_enc length_be_enc : orbitx.
#[export] Hint Resolve le_enc_bytes be_enc_bytes : orbitx.

(** Lexicographic comparison of byte strings of one length is numeric. *)
Lemma bytes_compare_be a b :
  length a = length b -> all_bytes a -> all_bytes b ->
  bytes_compare a b = (be_dec a ?= be_dec b).
Proof.
  revert b. induction a as [|x a IH]; intros [|y b]; try done.
  intros [= Hl] Ha Hb. inversion_clear Ha. inversion_clear Hb.
  cbn [bytes_compare]. rewrite !be_dec_cons, Hl, IH by done.
  pose proof (be_dec_range a) as Ra. pose proof (be_dec_range b) as Rb.
  rewrite Hl in Ra. specialize (Ra ltac:(done)). specialize (Rb ltac:(done)).
  destruct (Z.compare_spec x y) as [->|Hlt|Hlt].
  - destruct (Z.compare_spec (be_dec a) (be_dec b)); symmetry;
      [apply Z.compare_eq_iff | apply Z.compare_lt_iff | apply Z.compare_gt_iff]; lia.
  - symmetry. apply Z.compare_lt_iff. nia.
  - symmetry. apply Z.compare_gt_iff. nia.
Qed.

(** ** Slices *)

Lemma length_slice {A} lo hi (l : list A) :
  (hi <= length l)%nat -> length (slice lo hi l) = (hi - lo)%nat.
Proof. intros. unfold slice. rewrite length_take, length_drop. lia. Qed.

Lemma slice_bytes lo hi l : all_bytes l -> all_bytes (slice lo hi l).
Proof. intros. by apply Forall_take, Forall_drop. Qed.

Lemma length_copy_at {A} (dst : list A) off src :
  (off <= length dst)%nat -> length (copy_at dst off src) = length dst.
Proof.
  intros. unfold copy_at. rewrite !length_app, !length_take, length_drop. lia.
Qed.

Lemma length_copy {A} (dst : list A) off src : length (copy_at dst off src) = length dst.
Proof. unfold copy_at. rewrite !length_app, !length_take, length_drop. lia. Qed.

#[export] Hint Resolve slice_bytes : orbitx.

Lemma copy_at_fit {A} (dst : list A) off src : (off + length src <= length dst)%nat ->
  copy_at dst off src = take off dst ++ src ++ drop (off + length src) dst.
Proof. intros. unfold copy_at. rewrite Nat.min_r by lia. by rewrite (take_ge src) by lia. Qed.

Lemma bytes_eqb_true a b : bytes_eqb a b = true <-> a = b.
Proof. apply bool_decide_eq_true. Qed.

Lemma bytes_eqb_refl a : bytes_eqb a a = true.
Proof. by apply bytes_eqb_true. Qed.

(** The piece of a concatenation that a slice cuts out. *)
Lemma slice_app_mid {A} (a b c : list A) lo hi :
  lo = length a -> hi = (lo + length b)%nat -> slice lo hi (a ++ b ++ c) = b.
Proof.
  intros -> ->. unfold slice. rewrite drop_app_length.
  replace (length a + length b - length a)%nat with (length b) by lia.
  by rewrite take_app_length.
Qed.

Lemma slice_app_last {A} (a b : list A) lo hi :
  lo = length a -> hi = (lo + length b)%nat -> slice lo hi (a ++ b) = b.
Proof. intros. rewrite <- (app_nil_r b) at 1. by apply slice_app_mid. Qed.

Lemma slice_app_first {A} (a b : list A) lo hi :
  lo = 0%nat -> hi = length a -> slice lo hi (a ++ b) = a.
Proof. intros -> ->. by apply (slice_app_mid []). Qed.

Lemma pickOrder_in {A} n order (l : list A) x : x ∈ (pickOrder n order l).1 -> x ∈ l.
Proof.
  revert order l. induction n as [|n IH]; intros order [|y l]; cbn [pickOrder fst];
    try by intros ?%elem_of_nil.
  set (i := (hd 0%nat order mod length (y :: l))%nat).
  destruct (pickOrder n (tl order) (take i (y :: l) ++ drop (S i) (y :: l))) as [rest ord] eqn:E.
  cbn [fst]. intros [->|Hx]%elem_of_cons.
  - rewrite nth_lookup. destruct ((y :: l) !! i) as [z|] eqn:Ez; [|by left].
    by apply list_elem_of_lookup_2 in Ez.
  - specialize (IH (tl order) (take i (y :: l) ++ drop (S i) (y :: l))). rewrite E in IH.
    apply IH in Hx. apply elem_of_app in Hx as [Hx|Hx];
      [apply (subseteq_take i (y :: l))|apply (subseteq_drop (S i) (y :: l))]; done.
Qed.

Lemma pickOrder_all {A} n order (l : list A) : length l = n -> (pickOrder n order l).1 ≡ₚ l.
Proof.
  revert order l. induction n as [|n IH]; intros order [|y l] Hn; try done. cbn [pickOrder].
  set (i := (hd 0%nat order mod length (y :: l))%nat).
  assert (i < length (y :: l))%nat as Hi by (apply Nat.mod_upper_bound; done).
  specialize (IH (tl order) (take i (y :: l) ++ drop (S i) (y :: l))).
  destruct (pickOrder n (tl order) _) as [rest ord]. cbn [fst] in *.
  rewrite IH by (rewrite length_app, length_take, length_drop; cbn [length] in *; lia).
  rewrite nth_lookup. destruct ((y :: l) !! i) as [z|] eqn:Ez; [|apply lookup_ge_None in Ez; lia].
  cbn [default from_option]. rewrite <- (take_drop_middle _ _ _ Ez) at 3. by rewrite Permutation_middle.
Qed.

(** A property of the numbers below [n], decided by trying them. *)
Lemma bounded_cases (n : Z) (P : Z -> bool) :
  forallb P (seqZ 0 n) = true -> forall b, 0 <= b < n -> P b = true.
Proof.
  intros HP b Hb. rewrite forallb_forall in HP. apply HP. apply list_elem_of_In, elem_of_seqZ. lia.
Qed.

(** ** Lists cut into chunks *)

(** Payload lengths that segmentation by [g] gives back: all [g], but for the
    last, which may be smaller. *)
Fixpoint chunked (g : nat) (ls : list nat) : Prop :=
  match ls with
  | [] => False
  | [x] => (1 <= x <= g)%nat
  | x :: ls => x = g /\ chunked g ls
  end.

Lemma chunked_cons g x ls : ls <> [] -> chunked g (x :: ls) <-> x = g /\ chunked g ls.
Proof. by destruct ls. Qed.

Lemma chunked_pos g ls : chunked g ls -> (1 <= g)%nat.
Proof. induction ls as [|x [|y ls] IH]; cbn; [done|lia|]. intros [_ H]. by apply IH. Qed.

(** Nothing can follow a smaller chunk. *)
Lemma chunked_snoc g ls x : chunked g ls -> (sum_list ls mod g = 0)%nat -> (1 <= x <= g)%nat -> chunked g (ls ++ [x]).
Proof.
  intros Hc Hm Hx. pose proof (chunked_pos _ _ Hc) as Hg. induction ls as [|y [|z ls] IH]; [done| |].
  - cbn in *. split; [|done]. rewrite Nat.add_0_r in Hm. apply Nat.Div0.div_exact in Hm.
    assert (y / g <= 1)%nat by (apply Nat.Div0.div_le_upper_bound; lia). destruct (y / g)%nat as [|[|]]; lia.
  - apply chunked_cons in Hc as [-> Hc]; [|done]. cbn [app]. apply chunked_cons; [by destruct ls|]. split; [done|].
    apply IH; [done|]. change (sum_list (g :: z :: ls)) with (g + sum_list (z :: ls))%nat in Hm.
    by rewrite Nat.Div0.add_mod, Nat.Div0.mod_same, Nat.add_0_l, Nat.Div0.mod_mod in Hm.
Qed.

(** The multiple of [g] up to which whole chunks go. *)
Lemma chunked_total g ls : chunked g ls -> (sum_list ls mod g = 0)%nat -> sum_list ls = (g * length ls)%nat.
Proof.
  intros Hc Hm. pose proof (chunked_pos _ _ Hc) as Hg. induction ls as [|y [|z ls] IH]; [done| |].
  - cbn in *. rewrite Nat.add_0_r in *. apply Nat.Div0.div_exact in Hm.
    assert (y / g <= 1)%nat by (apply Nat.Div0.div_le_upper_bound; lia). destruct (y / g)%nat as [|[|]]; lia.
  - apply chunked_cons in Hc as [-> Hc]; [|done]. change (sum_list (g :: z :: ls)) with (g + sum_list (z :: ls))%nat in *.
    rewrite IH; [cbn [length]; lia|done|].
    by rewrite Nat.Div0.add_mod, Nat.Div0.mod_same, Nat.add_0_l, Nat.Div0.mod_mod in Hm.
Qed.

(** A larger chunk goes before a single one; an equal one before any. *)
Lemma chunked_larger g g' x : chunked g [x] -> (g <= g')%nat -> chunked g' [g'; x].
Proof. cbn. lia. Qed.

(** ** Chunks of a list *)

Lemma chunked_bounds g ls : chunked g ls -> (g * (length ls - 1) < sum_list ls <= g * length ls)%nat.
Proof.
  intros Hc. pose proof (chunked_pos _ _ Hc) as Hg. induction ls as [|x [|y ls] IH]; [done| |].
  - cbn in *. lia.
  - apply chunked_cons in Hc as [-> Hc]; [|done]. specialize (IH Hc).
    change (sum_list (g :: y :: ls)) with (g + sum_list (y :: ls))%nat. cbn [length] in *. nia.
Qed.

Lemma chunk_at g (cs : list bytes) i c : chunked g (length <$> cs) -> cs !! i = Some c -> take g (drop (i * g) (concat cs)) = c.
Proof.
  revert i. induction cs as [|d [|e cs] IH]; intros i Hc E; [done| |].
  - destruct i; [|done]. injection E as <-. cbn in *. rewrite app_nil_r. apply take_ge. lia.
  - rewrite !fmap_cons in Hc. apply chunked_cons in Hc as [Hd Hc]; [|done]. change (concat (d :: e :: cs)) with (d ++ concat (e :: cs)).
    destruct i as [|i]; cbn [lookup list_lookup] in E.
    + injection E as <-. rewrite drop_0, <- Hd. by rewrite take_app_length.
    + rewrite <- (IH i Hc E). rewrite drop_app_ge by lia. do 2 f_equal. lia.
Qed.

Lemma length_concat_le g (cs : list bytes) : Forall (fun c => length c <= g)%nat cs -> (length (concat cs) <= g * length cs)%nat.
Proof. induction 1 as [|c cs Hc _ IH]; [cbn; lia|]. cbn [concat length]. rewrite length_app. lia. Qed.

(** A list cut every [g] elements. *)
Fixpoint cut {A} (n g : nat) (l : list A) : list (list A) :=
  match n with O => [] | S n => take g l :: cut n g (drop g l) end.
Definition pieces {A} (g : nat) (l : list A) : list (list A) := cut ((length l + g - 1) / g) g l.

Lemma length_cut {A} n g (l : list A) : length (cut n g l) = n.
Proof. revert l. induction n; intros; cbn; auto. Qed.

Lemma cut_concat {A} g (cs : list (list A)) : chunked g (length <$> cs) -> cut (length cs) g (concat cs) = cs.
Proof.
  induction cs as [|c [|d cs] IH]; intros Hc; [done| |].
  - cbn in *. rewrite app_nil_r, take_ge by lia. done.
  - rewrite !fmap_cons in Hc. apply chunked_cons in Hc as [Hd Hc]; [|done].
    change (concat (c :: d :: cs)) with (c ++ concat (d :: cs)). cbn [cut length]. f_equal.
    + rewrite <- Hd. by rewrite take_app_length.
    + rewrite drop_app_ge, Hd, Nat.sub_diag, drop_0 by lia. by apply IH.
Qed.

Lemma ceil_div a n g : (g * (n - 1) < a <= g * n)%nat -> ((a + g - 1) / g)%nat = n.
Proof.
  intros Ha. assert (g <> 0)%nat by lia. symmetry. destruct n as [|n]; [lia|].
  apply (Nat.div_unique _ _ _ (a + g - 1 - g * S n)); nia.
Qed.

Lemma length_concat {A} (cs : list (list A)) : length (concat cs) = sum_list (length <$> cs).
Proof. induction cs as [|c cs IH]; [done|]. cbn. by rewrite length_app, IH. Qed.

Lemma pieces_concat {A} g (cs : list (list A)) : chunked g (length <$> cs) -> pieces g (concat cs) = cs.
Proof.
  intros Hc. unfold pieces. rewrite length_concat. rewrite (ceil_div _ (length cs)); [by apply cut_concat|].
  pose proof (chunked_bounds _ _ Hc) as H. by rewrite length_fmap in H.
Qed.

Lemma length_pieces {A} g (l : list A) : length (pieces g l) = ((length l + g - 1) / g)%nat.
Proof. apply length_cut. Qed.

Lemma cut_chunked {A} n g (l : list A) : (0 < n)%nat -> (g * (n - 1) < length l <= g * n)%nat ->
  chunked g (length <$> cut n g l) /\ concat (cut n g l) = l.
Proof.
  revert l. induction n as [|[|n] IH]; intros l Hn Hl; [lia| |].
  - cbn. rewrite length_take, app_nil_r. split; [lia|]. apply take_ge. lia.
  - change (cut (S (S n)) g l) with (take g l :: cut (S n) g (drop g l)). rewrite fmap_cons.
    destruct (IH (drop g l)) as [Hc Hd]; [lia|rewrite length_drop; lia|]. split.
    + apply chunked_cons; [done|]. split; [rewrite length_take; lia|done].
    + change (concat (?x :: ?y)) with (x ++ concat y). rewrite Hd. apply take_drop.
Qed.

Lemma pieces_spec {A} g (l : list A) : (0 < g)%nat -> l <> [] -> chunked g (length <$> pieces g l) /\ concat (pieces g l) = l.
Proof.
  intros Hg Hl. assert (0 < length l)%nat by (by destruct l; cbn; [|lia]). unfold pieces.
  set (n := ((length l + g - 1) / g)%nat).
  pose proof (Nat.div_mod_eq (length l + g - 1) g) as E. pose proof (Nat.mod_upper_bound (length l + g - 1) g). fold n in E.
  assert (0 < n)%nat by (apply Nat.div_str_pos; lia). apply cut_chunked; [done|]. nia.
Qed.

(** *** Counting *)

Definition countBy {A} (f : A -> bool) (l : list A) : Z := foldr (fun w n => Z.b2z (f w) + n) 0 l.
#[global] Arguments countBy : simpl never.
Lemma countBy_cons {A} (f : A -> bool) w l : countBy f (w :: l) = Z.b2z (f w) + countBy f l.
Proof. done. Qed.
Lemma countBy_bounds {A} (f : A -> bool) l : 0 <= countBy f l <= zlen l.
Proof. induction l as [|w l IH]; [done|]. rewrite countBy_cons. cbn [length]. destruct (f w); cbn [Z.b2z]; lia. Qed.
Lemma countBy_insert {A} (f : A -> bool) l i w w' : l !! i = Some w -> countBy f (<[i := w']> l) = countBy f l - Z.b2z (f w) + Z.b2z (f w').
Proof.
  revert i. induction l as [|x l IH]; intros [|i] E; simplify_eq/=; rewrite !countBy_cons; [lia|]. rewrite IH by done. lia.
Qed.
Lemma countBy_le {A} (f g : A -> bool) l : (forall w, w ∈ l -> f w = true -> g w = true) -> countBy f l <= countBy g l.
Proof.
  induction l as [|x l IH]; intros Hfg; [done|]. assert (countBy f l <= countBy g l) by (apply IH; set_solver).
  rewrite !countBy_cons. specialize (Hfg x ltac:(set_solver)). destruct (f x); [rewrite Hfg by done|destruct (g x)]; cbn [Z.b2z]; lia.
Qed.
(** An element that is replaced by one that does not count. *)
Lemma countBy_done {A} (f : A -> bool) l i w' : (i < length l)%nat -> f w' = false -> countBy f (<[i := w']> l) <= zlen l - 1.
Proof.
  intros [w E]%lookup_lt_is_Some_2 Hw. revert i E. induction l as [|x l IH]; intros [|i] E; simplify_eq/=; rewrite !countBy_cons.
  - rewrite Hw. pose proof (countBy_bounds f l). cbn [Z.b2z]. lia.
  - specialize (IH i E). destruct (f x); cbn [Z.b2z]; lia.
Qed.
