(* ===== verification/Pools.v ===== *)
(** The pools of buffers and elements ([device/pools.go]) and the queues with
    counted writers ([device/channels.go]) among the goroutines that share them:
    who waits, who is woken, and who may still write. *)
From S2P Require Import Prelude.

(** ** Pools *)

(** [sync.Pool] keeps what is put into it, by identity, until it is taken or
    collected; the objects are made as they are asked for. *)
Record WaitPool := mkWaitPool { wp_idle : list nat; wp_count : Z; wp_max : Z }.
#[export] Instance WaitPool_settable : Settable WaitPool := fun p => mkWaitPool (wp_idle p) (wp_count p) (wp_max p).

Definition NewWaitPool (max : Z) : WaitPool := mkWaitPool [] 0 max.

(** [Get] up to the pool itself: one look under the lock, [None] if it must wait. *)
Definition getTurn (p : WaitPool) : option WaitPool :=
  if negb (wp_max p =? 0) then
    if wp_count p >=? wp_max p then None else Some (p <| wp_count := u32 (wp_count p + 1) |>)
  else Some p.

(** The rest of [Get] and the start of [Put]: the object is one that was idle, or
    the next new one. *)
Inductive takes (fresh : nat) : WaitPool -> nat -> WaitPool -> nat -> Prop :=
  | takes_idle p l1 x l2 : wp_idle p = l1 ++ x :: l2 -> takes fresh p x (p <| wp_idle := l1 ++ l2 |>) fresh
  | takes_new p : takes fresh p fresh p (S fresh).
Definition putBack (x : nat) (p : WaitPool) : WaitPool := p <| wp_idle ::= cons x |>.

(** The end of [Put], under the lock; the signal is in the step. *)
Definition putCount (p : WaitPool) : WaitPool := p <| wp_count := u32 (wp_count p - 1) |>.

(** ** The goroutines of a pool *)

(** How many are past the count but have no object yet, wait for the condition,
    have been woken and not looked yet, and have given their object back without
    having counted it; who holds which objects. *)
Record system := mkSys { pool : WaitPool; fresh : nat; entered : nat; waiting : nat; woken : nat; putting : nat; held : list nat }.
Definition start (max : Z) : system := mkSys (NewWaitPool max) 0 0 0 0 0 [].

(** What happens without a new call of [Get]. *)
Inductive quiet : system -> system -> Prop :=
  | q_enter s p w : woken s = S w -> getTurn (pool s) = Some p ->
      quiet s (mkSys p (fresh s) (S (entered s)) (waiting s) w (putting s) (held s))
  | q_again s w : woken s = S w -> getTurn (pool s) = None ->
      quiet s (mkSys (pool s) (fresh s) (entered s) (S (waiting s)) w (putting s) (held s))
  | q_take s e x p f : entered s = S e -> takes (fresh s) (pool s) x p f ->
      quiet s (mkSys p f e (waiting s) (woken s) (putting s) (x :: held s))
  | q_put s l1 x l2 : held s = l1 ++ x :: l2 ->
      quiet s (mkSys (putBack x (pool s)) (fresh s) (entered s) (waiting s) (woken s)
        (if wp_max (pool s) =? 0 then putting s else S (putting s)) (l1 ++ l2))
  | q_count s n : putting s = S n ->
      quiet s (mkSys (putCount (pool s)) (fresh s) (entered s) (pred (waiting s))
        (if (0 <? waiting s)%nat then S (woken s) else woken s) n (held s)).

Inductive step : system -> system -> Prop :=
  | s_quiet s s' : quiet s s' -> step s s'
  | s_enter s p : getTurn (pool s) = Some p -> 
      step s (mkSys p (fresh s) (S (entered s)) (waiting s) (woken s) (putting s) (held s))
  | s_wait s : getTurn (pool s) = None ->
      step s (mkSys (pool s) (fresh s) (entered s) (S (waiting s)) (woken s) (putting s) (held s))
  | s_collect s l1 x l2 : wp_idle (pool s) = l1 ++ x :: l2 ->
      step s (mkSys (pool s <| wp_idle := l1 ++ l2 |>) (fresh s) (entered s) (waiting s) (woken s) (putting s) (held s)).

(** ** The invariant *)

Definition inUse (s : system) : nat := (entered s + length (held s) + putting s)%nat.

Record pool_ok (max : Z) (s : system) : Prop := {
  ok_max : wp_max (pool s) = max;
  ok_free : max = 0 -> waiting s = 0%nat /\ woken s = 0%nat /\ putting s = 0%nat;
  ok_count : max <> 0 -> wp_count (pool s) = Z.of_nat (inUse s) /\ Z.of_nat (inUse s) <= max;
  ok_woken : (0 < waiting s)%nat -> max <= Z.of_nat (inUse s + woken s);
  ok_fresh : Forall (fun x => x < fresh s)%nat (held s ++ wp_idle (pool s));
  ok_single : NoDup (held s ++ wp_idle (pool s)) }.

Lemma getTurn_some max s p : 0 <= max < 2 ^ 32 -> pool_ok max s -> getTurn (pool s) = Some p ->
  wp_idle p = wp_idle (pool s) /\ wp_max p = max
  /\ (max <> 0 -> wp_count p = Z.of_nat (inUse s) + 1 /\ Z.of_nat (inUse s) + 1 <= max).
Proof.
  intros Hm [Hmax _ Hc _ _ _]. unfold getTurn. rewrite Hmax. destruct (Z.eqb_spec max 0) as [|Hne]; cbn [negb]; [intros [= <-]; by split_and!|].
  destruct (Hc Hne) as [-> Hle]. destruct (Z.geb_spec (Z.of_nat (inUse s)) max); [done|]. intros [= <-].
  cbn. rewrite u32_small by lia. by split_and!; try lia.
Qed.

Lemma getTurn_none max s : pool_ok max s -> getTurn (pool s) = None -> max <> 0 /\ Z.of_nat (inUse s) = max.
Proof.
  intros [Hmax _ Hc _ _ _]. unfold getTurn. rewrite Hmax. destruct (Z.eqb_spec max 0) as [|Hne]; [done|]. cbn [negb].
  destruct (Hc Hne) as [-> Hle]. destruct (Z.geb_spec (Z.of_nat (inUse s)) max); [|done]. intros _. split; [done|lia].
Qed.

Lemma takes_ok fr p x p' f' hs : takes fr p x p' f' -> Forall (fun x => x < fr)%nat (hs ++ wp_idle p) -> NoDup (hs ++ wp_idle p) ->
  wp_max p' = wp_max p /\ wp_count p' = wp_count p
  /\ Forall (fun x => x < f')%nat ((x :: hs) ++ wp_idle p') /\ NoDup ((x :: hs) ++ wp_idle p').
Proof.
  intros [q l1 y l2 E|q] Hf Hn.
  - assert (hs ++ wp_idle q ≡ₚ (y :: hs) ++ (l1 ++ l2)) as Hp by (rewrite E; cbn; by rewrite <-Permutation_middle, <-Permutation_middle).
    rewrite Hp in Hf, Hn. by split_and!.
  - split_and!; [done|done| |].
    + constructor; [lia|]. eapply Forall_impl; [exact Hf|]. cbn. lia.
    + cbn. constructor; [|done]. intros Hin. apply (proj1 (Forall_forall _ _) Hf) in Hin. lia.
Qed.

(** A look that succeeds, of one that comes and of one that was woken. *)
Lemma enter_ok max s p w : 0 <= max < 2 ^ 32 -> pool_ok max s -> getTurn (pool s) = Some p -> 
  w = woken s \/ woken s = S w ->
  pool_ok max (mkSys p (fresh s) (S (entered s)) (waiting s) w (putting s) (held s)).
Proof.
  intros Hm Hs Hg Hw. destruct (getTurn_some _ _ _ Hm Hs Hg) as (Hi & Hx & Hc). destruct Hs as [Hmax Hfree _ Hwk Hf Hn].
  split; cbn; rewrite ?Hi; try done.
  - intros E. destruct (Hfree E) as (H1 & H2 & H3). split_and!; try done. lia.
  - intros E. destruct (Hc E) as [-> Hle]. unfold inUse in *. cbn. lia.
  - intros H. specialize (Hwk H). unfold inUse in *. cbn. lia.
Qed.

(** A look that fails. *)
Lemma wait_ok max s w : pool_ok max s -> getTurn (pool s) = None -> 
  pool_ok max (mkSys (pool s) (fresh s) (entered s) (S (waiting s)) w (putting s) (held s)).
Proof.
  intros Hs Hg. destruct (getTurn_none _ _ Hs Hg) as [Hne Hfull]. destruct Hs as [Hmax Hfree Hc Hwk Hf Hn].
  split; cbn; try done. intros _. unfold inUse in *. cbn. lia.
Qed.

Lemma quiet_ok max s s' : 0 <= max < 2 ^ 32 -> pool_ok max s -> quiet s s' -> pool_ok max s'.
Proof.
  intros Hm Hs Hq. destruct Hq as [s p w Hw Hg|s w Hw Hg|s e x p f He Ht|s l1 x l2 Hh|s n Hn].
  - apply enter_ok; auto.
  - by apply wait_ok.
  - destruct Hs as [Hmax Hfree Hc Hwk Hf Hn]. destruct (takes_ok _ _ _ _ _ _ Ht Hf Hn) as (Hx & Hcount & Hf' & Hn').
    split; cbn -[app]; try done; [congruence|intros E; destruct (Hc E); rewrite Hcount; unfold inUse in *; cbn; lia|].
    intros H. specialize (Hwk H). unfold inUse in *. cbn. lia.
  - destruct Hs as [Hmax Hfree Hc Hwk Hf Hn]. rewrite Hmax. rewrite Hh in *.
    assert ((l1 ++ x :: l2) ++ wp_idle (pool s) ≡ₚ (l1 ++ l2) ++ x :: wp_idle (pool s)) as Hp by (by rewrite <-!Permutation_middle).
    rewrite Hp in Hf, Hn. split; cbn; try done.
    + intros E. destruct (Hfree E) as (H1 & H2 & H3). rewrite E. by split_and!.
    + intros E. destruct (Hc E) as [Hcount Hle]. unfold inUse in *. rewrite Hh in *. cbn. rewrite !length_app in *. cbn in *.
      destruct (Z.eqb_spec max 0); [done|]. lia.
    + intros H. destruct (decide (max = 0)) as [E|E]; [destruct (Hfree E); lia|]. specialize (Hwk H). unfold inUse in *. rewrite Hh in *. cbn.
      rewrite !length_app in *. cbn in *. destruct (Z.eqb_spec max 0); [done|]. lia.
  - destruct Hs as [Hmax Hfree Hc Hwk Hf Hnd]. split; cbn; try done.
    + intros E. destruct (Hfree E). lia.
    + intros E. destruct (Hc E) as [Hcount Hle]. rewrite Hcount. unfold inUse in *. cbn. rewrite u32_small by lia. lia.
    + unfold inUse in *. cbn. destruct (waiting s) as [|k]; cbn; [lia|]. intros _. specialize (Hwk ltac:(lia)). lia.
Qed.

Lemma step_ok max s s' : 0 <= max < 2 ^ 32 -> pool_ok max s -> step s s' -> pool_ok max s'.
Proof.
  intros Hm Hs Hst. destruct Hst as [s s' Hq|s p Hg|s Hg|s l1 x l2 E].
  - by eapply quiet_ok.
  - apply enter_ok; auto.
  - by apply wait_ok.
  - destruct Hs as [Hmax Hfree Hc Hwk Hf Hn]. 
    assert (held s ++ wp_idle (pool s) ≡ₚ x :: held s ++ l1 ++ l2) as Hp by (rewrite E; by rewrite <-!Permutation_middle).
    rewrite Hp in Hf, Hn. apply Forall_cons in Hf as [_ Hf]. apply NoDup_cons in Hn as [_ Hn]. by split.
Qed.

Lemma start_ok max : 0 <= max < 2 ^ 32 -> pool_ok max (start max).
Proof. intros Hm. split; cbn; try done; try lia; constructor. Qed.

Lemma reach_ok max s : 0 <= max < 2 ^ 32 -> rtc step (start max) s -> pool_ok max s.
Proof.
  intros Hm H. pose proof (start_ok max Hm) as H0. revert H0. induction H as [|s1 s2 s3 H12 _ IH]; [done|]. intros H1. apply IH. by eapply step_ok.
Qed.

(** ** Those who wait are served *)

(** Every step that is not a new call brings the calls nearer to their end. *)
Definition work (s : system) : nat :=
  (6 * woken s + 5 * waiting s + 4 * entered s + 3 * length (held s) + 2 * putting s)%nat.

Lemma quiet_works s s' : quiet s s' -> (work s' < work s)%nat.
Proof.
  intros [? p w Hw _|? w Hw _|? e x p f He _|? l1 x l2 Hh|? n Hn]; unfold work; cbn.
  - lia.
  - lia.
  - lia.
  - rewrite Hh, !length_app. cbn. destruct (_ =? 0); lia.
  - destruct (waiting s0); cbn; lia.
Qed.

Lemma quiet_bound n s s' : nsteps quiet n s s' -> (n + work s' <= work s)%nat.
Proof. induction 1 as [|n s1 s2 s3 H _ IH]; [lia|]. apply quiet_works in H. lia. Qed.

(** Where it ends no call is left. *)
Lemma stuck_served max s : pool_ok max s -> (forall s', ~ quiet s s') -> work s = 0%nat.
Proof.
  intros Hs Hst. destruct (putting s) as [|n] eqn:Ep; [|by destruct (Hst _ (q_count s n Ep))].
  destruct (held s) as [|x l] eqn:Eh; [|by destruct (Hst _ (q_put s [] x l Eh))].
  destruct (entered s) as [|e] eqn:Ee; [|by destruct (Hst _ (q_take s e _ _ _ Ee (takes_new _ _)))].
  destruct (woken s) as [|w] eqn:Ew.
  - destruct (waiting s) as [|k] eqn:Ek; [unfold work; by rewrite Ep, Eh, Ee, Ew, Ek|].
    destruct Hs as [_ Hfree Hc Hwk _ _]. unfold inUse in *. rewrite Ep, Eh, Ee, Ew, Ek in *. cbn in *.
    destruct (decide (max = 0)) as [E|E]; [destruct (Hfree E); lia|]. specialize (Hwk ltac:(lia)). destruct (Hc E). lia.
  - destruct (getTurn (pool s)) as [p|] eqn:Eg; [by destruct (Hst _ (q_enter s p w Ew Eg))|by destruct (Hst _ (q_again s w Ew Eg))].
Qed.

(** C21: whatever a pool's users do, no object is in two hands, and there are
    never more of them in use than the limit; the count is their number.  No one
    waits for a slot that is free without someone having been woken for it, and
    once no new calls come, every run ends, with every call served: none is lost
    among the signals. *)
Theorem pool_serves max s : 0 <= max < 2 ^ 32 -> rtc step (start max) s ->
  NoDup (held s ++ wp_idle (pool s))
  /\ (max <> 0 -> wp_count (pool s) = Z.of_nat (inUse s) /\ Z.of_nat (length (held s)) <= max)
  /\ ((0 < waiting s)%nat -> wp_count (pool s) < max -> (0 < woken s)%nat)
  /\ forall n s', nsteps quiet n s s' -> (n <= work s)%nat
     /\ ((forall s'', ~ quiet s' s'') -> waiting s' = 0%nat /\ woken s' = 0%nat /\ entered s' = 0%nat /\ held s' = [] /\ putting s' = 0%nat).
Proof.
  intros Hm Hr. pose proof (reach_ok _ _ Hm Hr) as Hs. pose proof Hs as [Hmax Hfree Hc Hwk _ Hn]. split_and!; [done| | |].
  - intros E. destruct (Hc E). unfold inUse in *. lia.
  - intros H1 H2. destruct (decide (max = 0)) as [E|E]; [destruct (Hfree E); lia|]. destruct (Hc E). specialize (Hwk H1). unfold inUse in *. lia.
  - intros n s' Hq. split; [apply quiet_bound in Hq; lia|]. intros Hst.
    assert (pool_ok max s') as Hs'.
    { clear -Hm Hs Hq. induction Hq as [|n s1 s2 s3 H _ IH]; [done|]. apply IH. by eapply quiet_ok. }
    pose proof (stuck_served _ _ Hs' Hst) as Hw. unfold work in Hw. destruct (held s'); cbn in Hw; split_and!; lia || done.
Qed.

(** One slot, and two that want it: the second one waits. *)
Lemma pool_serves_witness : let s := mkSys (mkWaitPool [] 1 1) 1 0 1 0 0 [0%nat] in
  NoDup (held s ++ wp_idle (pool s))
  /\ (1 <> 0 -> wp_count (pool s) = Z.of_nat (inUse s) /\ Z.of_nat (length (held s)) <= 1)
  /\ ((0 < waiting s)%nat -> wp_count (pool s) < 1 -> (0 < woken s)%nat)
  /\ forall n s', nsteps quiet n s s' -> (n <= work s)%nat
     /\ ((forall s'', ~ quiet s' s'') -> waiting s' = 0%nat /\ woken s' = 0%nat /\ entered s' = 0%nat /\ held s' = [] /\ putting s' = 0%nat).
Proof.
  apply (pool_serves 1); [lia|].
  apply (rtc_l _ _ (mkSys (mkWaitPool [] 1 1) 0 1 0 0 0 [])); [exact (s_enter (start 1) _ eq_refl)|].
  apply (rtc_l _ _ (mkSys (mkWaitPool [] 1 1) 1 0 0 0 0 [0%nat])); [apply s_quiet, (q_take (mkSys (mkWaitPool [] 1 1) 0 1 0 0 0 []) 0); [done|constructor]|].
  apply rtc_once, (s_wait (mkSys (mkWaitPool [] 1 1) 1 0 0 0 0 [0%nat])). done.
Defined.

(** ** Queues with counted writers *)

(** A channel, the counter of its WaitGroup, and whether the goroutine that waits
    for the counter has closed it. *)
Record queue (A : Type) := mkQueue { q_buf : list A; q_cap : nat; q_wg : Z; q_closed : bool }.
Arguments mkQueue {A}. Arguments q_buf {A}. Arguments q_cap {A}. Arguments q_wg {A}. Arguments q_closed {A}.
Definition newQueue {A} (size : nat) : queue A := mkQueue [] size 1 false.
Definition newOutboundQueue {A} : queue A := newQueue (Z.to_nat 1024).
Definition newInboundQueue {A} : queue A := newQueue (Z.to_nat 1024).
Definition newHandshakeQueue {A} : queue A := newQueue (Z.to_nat 1024).

(** [wg.Add] and [wg.Done]; [None] is the panic of a negative counter. *)
Definition wgAdd {A} (n : Z) (q : queue A) : option (queue A) :=
  if q_wg q + n <? 0 then None else Some (mkQueue (q_buf q) (q_cap q) (q_wg q + n) (q_closed q)).
(** A send: [None] is the panic of a closed channel, [Some None] waits for room. *)
Definition sendTo {A} (x : A) (q : queue A) : option (option (queue A)) :=
  if q_closed q then None
  else if (length (q_buf q) <? q_cap q)%nat then Some (Some (mkQueue (q_buf q ++ [x]) (q_cap q) (q_wg q) false))
  else Some None.
(** The turn of the goroutine that closes: [wg.Wait] returns at zero. *)
Definition closeTurn {A} (q : queue A) : option (queue A) :=
  if (q_wg q =? 0) && negb (q_closed q) then Some (mkQueue (q_buf q) (q_cap q) (q_wg q) true) else None.

(** A queue among those who write to it, each with a reference, and its workers. *)
Record flow (A : Type) := mkFlow { f_queue : queue A; f_writers : nat; f_workers : nat; f_sent : list A; f_got : list A }.
Arguments mkFlow {A}. Arguments f_queue {A}. Arguments f_writers {A}. Arguments f_workers {A}. Arguments f_sent {A}. Arguments f_got {A}.

(** A worker takes an element, or ends its loop; the queue is closed. *)
Inductive drains {A} : flow A -> flow A -> Prop :=
  | d_take s x b : (0 < f_workers s)%nat -> q_buf (f_queue s) = x :: b ->
      drains s (mkFlow (mkQueue b (q_cap (f_queue s)) (q_wg (f_queue s)) (q_closed (f_queue s))) (f_writers s) (f_workers s)
        (f_sent s) (f_got s ++ [x]))
  | d_end s k : f_workers s = S k -> q_buf (f_queue s) = [] -> q_closed (f_queue s) = true ->
      drains s (mkFlow (f_queue s) (f_writers s) k (f_sent s) (f_got s))
  | d_close s q : closeTurn (f_queue s) = Some q -> drains s (mkFlow q (f_writers s) (f_workers s) (f_sent s) (f_got s)).
(** A writer brings another one, leaves, or sends. *)
Inductive flows {A} : flow A -> flow A -> Prop :=
  | fl_drains s s' : drains s s' -> flows s s'
  | fl_add s q : (0 < f_writers s)%nat -> wgAdd 1 (f_queue s) = Some q ->
      flows s (mkFlow q (S (f_writers s)) (f_workers s) (f_sent s) (f_got s))
  | fl_done s n q : f_writers s = S n -> wgAdd (-1) (f_queue s) = Some q -> flows s (mkFlow q n (f_workers s) (f_sent s) (f_got s))
  | fl_send s x q : (0 < f_writers s)%nat -> sendTo x (f_queue s) = Some (Some q) ->
      flows s (mkFlow q (f_writers s) (f_workers s) (f_sent s ++ [x]) (f_got s)).
Definition startFlow {A} (size k : nat) : flow A := mkFlow (newQueue size) 1 k [] [].

Record flow_ok {A} (k : nat) (s : flow A) : Prop := {
  fo_refs : q_wg (f_queue s) = Z.of_nat (f_writers s);
  fo_open : q_closed (f_queue s) = true -> f_writers s = 0%nat;
  fo_order : f_got s ++ q_buf (f_queue s) = f_sent s;
  fo_workers : f_workers s = k \/ (q_closed (f_queue s) = true /\ q_buf (f_queue s) = []) }.

Lemma drains_ok {A} k (s s' : flow A) : flow_ok k s -> drains s s' -> flow_ok k s' /\ f_writers s' = f_writers s /\ f_sent s' = f_sent s.
Proof.
  intros Hs Hd. destruct Hd as [s0 x b Hw E|s0 j Hw E Hc|s0 q E]; destruct Hs as [Hr Ho Hf Hk]; (split; [|done]).
  - split; cbn; [done|done|by rewrite <-Hf, E, <-app_assoc|]. destruct Hk as [|[_ Hb]]; [by left|by rewrite E in Hb].
  - split; cbn; try done. by right.
  - unfold closeTurn in E. destruct (Z.eqb_spec (q_wg (f_queue s0)) 0); [|done]. destruct (q_closed (f_queue s0)) eqn:Ec; [done|]. injection E as <-.
    split; cbn; [done|lia|done|]. destruct Hk as [|[? _]]; [by left|done].
Qed.

Lemma flows_ok {A} k (s s' : flow A) : flow_ok k s -> flows s s' -> flow_ok k s'.
Proof.
  intros Hs Hst. destruct Hst as [s s' H|s q Hw E|s n q Hw E|s x q Hw E]; [by destruct (drains_ok _ _ _ Hs H)| | |]; destruct Hs as [Hr Ho Hf Hk].
  - unfold wgAdd in E. destruct (_ <? 0); [done|]. injection E as <-. split; cbn; [lia|intros Hc; specialize (Ho Hc); lia|done|done].
  - unfold wgAdd in E. destruct (_ <? 0); [done|]. injection E as <-. split; cbn; [lia|intros Hc; specialize (Ho Hc); lia|done|done].
  - unfold sendTo in E. destruct (q_closed (f_queue s)) eqn:Ec; [done|]. destruct (_ <? _)%nat; [|done]. injection E as <-.
    split; cbn; [done|done|by rewrite app_assoc, Hf|]. destruct Hk as [|[? _]]; [by left|done].
Qed.

Lemma flow_reach {A} size k (s : flow A) : rtc flows (startFlow size k) s -> flow_ok k s.
Proof.
  intros H. assert (flow_ok k (@startFlow A size k)) as H0 by (split; cbn; try done; by left).
  revert H0. induction H as [|s1 s2 s3 H _ IH]; [done|]. intros H0. apply IH. by eapply flows_ok.
Qed.

Definition remaining {A} (s : flow A) : nat := (length (q_buf (f_queue s)) + f_workers s + if q_closed (f_queue s) then 0 else 1)%nat.
Lemma drains_remaining {A} (s s' : flow A) : drains s s' -> (remaining s' < remaining s)%nat.
Proof.
  unfold remaining. intros [s0 x b _ E|s0 j E _ _|s0 q E]; cbn.
  - rewrite E. cbn. lia.
  - lia.
  - unfold closeTurn in E. destruct (q_wg _ =? 0); [|done]. destruct (q_closed (f_queue s0)); [done|]. injection E as <-. cbn. lia.
Qed.

Lemma drained {A} k (s : flow A) : (0 < k)%nat -> flow_ok k s -> f_writers s = 0%nat -> (forall s', ~ drains s s') ->
  q_closed (f_queue s) = true /\ f_workers s = 0%nat /\ f_got s = f_sent s.
Proof.
  intros Hk [Hr Ho Hf Hw] H0 Hst. rewrite H0 in Hr.
  destruct (q_closed (f_queue s)) eqn:Ec; [|destruct (Hst (mkFlow (mkQueue (q_buf (f_queue s)) (q_cap (f_queue s)) (q_wg (f_queue s)) true) (f_writers s) (f_workers s) (f_sent s) (f_got s))); constructor; unfold closeTurn; by rewrite Hr, Ec].
  destruct (q_buf (f_queue s)) as [|x b] eqn:Eb.
  - rewrite app_nil_r in Hf. destruct (f_workers s) as [|j] eqn:Ej; [done|]. by destruct (Hst _ (d_end s j Ej Eb Ec)).
  - destruct Hw as [Hw|[_ ?]]; [|done]. assert (0 < f_workers s)%nat as Hw' by lia. by destruct (Hst _ (d_take s x b Hw' Eb)).
Qed.

(** As long as a writer holds its reference, the channel to which it sends is
    open, and giving the reference back is no error.  What is sent is taken in that
    order.  Once the last writer has left, the queue is drained to the end: it is
    closed, all that has been sent has been taken, and the workers' loops end. *)
Theorem queue_drains {A} size k (s : flow A) : rtc flows (startFlow size k) s ->
  ((0 < f_writers s)%nat -> (forall x, is_Some (sendTo x (f_queue s))) /\ is_Some (wgAdd (-1) (f_queue s)))
  /\ f_got s ++ q_buf (f_queue s) = f_sent s
  /\ (f_writers s = 0%nat -> forall n s', nsteps drains n s s' -> (n <= remaining s)%nat
     /\ ((0 < k)%nat -> (forall s'', ~ drains s' s'') -> q_closed (f_queue s') = true /\ f_workers s' = 0%nat /\ f_got s' = f_sent s)).
Proof.
  intros Hs%flow_reach. pose proof Hs as [Hr Ho Hf _]. split_and!; [|done|].
  - intros Hw. unfold sendTo, wgAdd. split; [|destruct (Z.ltb_spec (q_wg (f_queue s) + -1) 0); [lia|done]].
    intros x. destruct (q_closed (f_queue s)); [specialize (Ho eq_refl); lia|]. by destruct (_ <? _)%nat.
  - intros Hw n s' Hn. assert ((n + remaining s' <= remaining s)%nat /\ flow_ok k s' /\ f_writers s' = 0%nat /\ f_sent s' = f_sent s) as (Hb & Hs' & Hw' & Ef).
    { clear Hr Ho Hf. induction Hn as [|n s1 s2 s3 H _ IH]; [done|]. pose proof (drains_remaining _ _ H). destruct (drains_ok _ _ _ Hs H) as (H2 & E & <-).
      rewrite Hw in E. destruct (IH H2 E) as (Hb & ?). split; [lia|done]. }
    split; [lia|]. intros Hk Hst. rewrite <-Ef. by apply (drained k).
Qed.

(** A writer that has sent two elements and left, before they are taken. *)
Lemma queue_drains_witness : let s := mkFlow (mkQueue [7; 8]%nat 2 0 false) 0 1 [7; 8]%nat [] in
  ((0 < f_writers s)%nat -> (forall x, is_Some (sendTo x (f_queue s))) /\ is_Some (wgAdd (-1) (f_queue s)))
  /\ f_got s ++ q_buf (f_queue s) = f_sent s
  /\ (f_writers s = 0%nat -> forall n s', nsteps drains n s s' -> (n <= remaining s)%nat
     /\ ((0 < 1)%nat -> (forall s'', ~ drains s' s'') -> q_closed (f_queue s') = true /\ f_workers s' = 0%nat /\ f_got s' = f_sent s)).
Proof.
  apply (queue_drains 2 1).
  apply (rtc_l _ _ (mkFlow (mkQueue [7]%nat 2 1 false) 1 1 [7]%nat [])); [apply (fl_send (startFlow 2 1) 7%nat); [cbn; lia|done]|].
  apply (rtc_l _ _ (mkFlow (mkQueue [7; 8]%nat 2 1 false) 1 1 [7; 8]%nat [])); [apply (fl_send (mkFlow (mkQueue [7]%nat 2 1 false) 1 1 [7]%nat []) 8%nat); [cbn; lia|done]|].
  apply rtc_once, (fl_done (mkFlow (mkQueue [7; 8]%nat 2 1 false) 1 1 [7; 8]%nat [])); done.
Defined.

(** ** Containers of elements *)

(** A mutex, and a slice of pointers: the array behind it and its length. *)
Record elemsContainer := mkElems { ec_locked : bool; ec_array : list (option nat); ec_len : nat }.
Definition newElems (batch : nat) : elemsContainer := mkElems false (replicate batch None) 0.
Definition GetElementsContainer (c : elemsContainer) : elemsContainer := mkElems false (ec_array c) (ec_len c).
Definition PutElementsContainer (c : elemsContainer) : elemsContainer :=
  mkElems (ec_locked c) (replicate (ec_len c) None ++ drop (ec_len c) (ec_array c)) 0.
(** [append]: into the array while it has room, else into a new one. *)
Definition appendElem (e : nat) (c : elemsContainer) : elemsContainer :=
  mkElems (ec_locked c) (take (ec_len c) (ec_array c) ++ Some e :: drop (S (ec_len c)) (ec_array c)) (S (ec_len c)).

(** A container that is used by appending comes back without a pointer in it. *)
Lemma container_clean es c : ec_len c = 0%nat -> Forall (eq None) (ec_array c) ->
  let c' := GetElementsContainer (PutElementsContainer (foldr appendElem c es)) in
  ec_locked c' = false /\ ec_len c' = 0%nat /\ Forall (eq None) (ec_array c').
Proof.
  intros Hl Ha. cbv zeta. cbn. split_and!; [done..|]. apply Forall_app. split; [by apply Forall_replicate|].
  induction es as [|e es IH]; cbn; [by rewrite Hl|]. 
  set (d := foldr appendElem c es) in *. rewrite drop_app. apply Forall_app. split.
  - rewrite drop_ge; [constructor|]. rewrite length_take. lia.
  - rewrite length_take. apply Forall_forall. intros x Hx. 
    destruct (S (ec_len d) - ec_len d `min` length (ec_array d))%nat as [|m] eqn:E; [lia|]. cbn in Hx.
    rewrite drop_drop in Hx. destruct (decide (S (ec_len d) + m < length (ec_array d))%nat).
    + apply (proj1 (Forall_forall _ _) IH). replace (S (ec_len d) + m)%nat with (ec_len d + S m)%nat in Hx by lia. rewrite <-drop_drop in Hx.
      eapply elem_of_submseteq; [exact Hx|]. apply sublist_submseteq, sublist_drop.
    + rewrite drop_ge in Hx by lia. by apply elem_of_nil in Hx.
Qed.
