(* ===== verification/Replay.v ===== *)
(** The anti-replay filter of [replay/replay.go] (RFC 6479): the ring of
    bitmap blocks, and its refinement of a set of accepted counters. *)
From S2P Require Import Prelude.

(** ** The code *)

Definition blockBitLog : Z := 6.
Definition blockBits : Z := Z.shiftl 1 blockBitLog.
Definition ringBlocks : Z := Z.shiftl 1 7.
Definition windowSize : Z := (ringBlocks - 1) * blockBits.
Definition blockMask : Z := ringBlocks - 1.
Definition bitMask : Z := blockBits - 1.

Record Filter := mkFilter { last : Z; ring : list Z }.

(** The zero value of the Go struct. *)
Definition zeroFilter : Filter := mkFilter 0 (replicate 128 0).

Definition Reset (f : Filter) : Filter := mkFilter 0 (<[0%nat := 0]> (ring f)).

(** [for i := current + 1; i <= current + diff; i++ { f.ring[i & blockMask] = 0 }] *)
Definition clearBlocks (current diff : Z) (r : list Z) : list Z :=
  foldl (fun r i => <[Z.to_nat (Z.land i blockMask) := 0]> r) r (seqZ (current + 1) diff).

(** The last four statements: check and set the bit of [counter]. *)
Definition setBit (f : Filter) (counter : Z) : bool * Filter :=
  let indexBlock := Z.land (Z.shiftr counter blockBitLog) blockMask in
  let indexBit := Z.land counter bitMask in
  let old := nth (Z.to_nat indexBlock) (ring f) 0 in
  let new := Z.lor old (u64 (Z.shiftl 1 indexBit)) in
  (negb (old =? new), mkFilter (last f) (<[Z.to_nat indexBlock := new]> (ring f))).

Definition ValidateCounter (f : Filter) (counter limit : Z) : bool * Filter :=
  if counter >=? limit then (false, f)
  else
    let indexBlock := Z.shiftr counter blockBitLog in
    if counter >? last f then
      let current := Z.shiftr (last f) blockBitLog in
      let diff := u64 (indexBlock - current) in
      let diff := if diff >? ringBlocks then ringBlocks else diff in
      setBit (mkFilter counter (clearBlocks current diff (ring f))) counter
    else if u64 (last f - counter) >? windowSize then (false, f)
    else setBit f counter.

(** A sequence of calls on one filter, with the answers. *)
Fixpoint runFilter (f : Filter) (calls : list (Z * Z)) : list bool * Filter :=
  match calls with
  | [] => ([], f)
  | (c, l) :: calls =>
      let '(ok, f) := ValidateCounter f c l in
      let '(oks, f) := runFilter f calls in
      (ok :: oks, f)
  end.

(** ** Specification: the set of accepted counters and the highest one *)

Module spec.
Record t := mk { top : Z; seen : gset Z }.

Definition empty : t := mk 0 ∅.

Definition validate (s : t) (counter limit : Z) : bool * t :=
  if decide (counter < limit /\ top s - counter <= 8128 /\ counter ∉ seen s)
  then (true, mk (Z.max (top s) counter) ({[counter]} ∪ seen s))
  else (false, s).

Fixpoint run (s : t) (calls : list (Z * Z)) : list bool * t :=
  match calls with
  | [] => ([], s)
  | (c, l) :: calls =>
      let '(ok, s) := validate s c l in
      let '(oks, s) := run s calls in
      (ok :: oks, s)
  end.
End spec.

(** The counters of a call are [uint64]s. *)
Definition counter_ok (call : Z * Z) : Prop := 0 <= call.1 < 2 ^ 64.

(** The counters the code answered [true] to, in order. *)
Definition accepted (calls : list (Z * Z)) (oks : list bool) : list Z :=
  omap (fun p : Z * Z * bool => if p.2 then Some p.1.1 else None) (zip calls oks).

(** Block number of a counter, and the ring's bit for it. *)
Definition blk (c : Z) : Z := c / 64.
Definition bit_of (r : list Z) (c : Z) : bool :=
  Z.testbit (nth (Z.to_nat (blk c mod 128)) r 0) (c mod 64).

(** The ring answers exactly for the 128 blocks up to the one of [last]. *)
Record repr (f : Filter) (s : spec.t) : Prop := {
  repr_last : last f = spec.top s;
  repr_range : 0 <= spec.top s < 2 ^ 64;
  repr_len : length (ring f) = 128%nat;
  repr_seen : forall c, c ∈ spec.seen s -> 0 <= c <= spec.top s;
  repr_bits : forall c, 0 <= c -> blk (spec.top s) - 128 < blk c <= blk (spec.top s) ->
    bit_of (ring f) c = bool_decide (c ∈ spec.seen s)
}.

(** ** Lemmas *)

Lemma shiftr_blk c : Z.shiftr c blockBitLog = blk c.
Proof. unfold blk, blockBitLog. by rewrite Z.shiftr_div_pow2. Qed.

Lemma land_blockMask x : Z.land x blockMask = x mod 128.
Proof. apply (land_mask x 7). lia. Qed.

Lemma land_bitMask x : Z.land x bitMask = x mod 64.
Proof. apply (land_mask x 6). lia. Qed.

Lemma blk_mono a b : a <= b -> blk a <= blk b.
Proof. intros. unfold blk. apply Z.div_le_mono; lia. Qed.

Lemma blk_bounds c : 64 * blk c <= c < 64 * blk c + 64.
Proof. unfold blk. pose proof (Z.div_mod c 64). pose proof (Z.mod_pos_bound c 64). lia. Qed.

Lemma length_clearBlocks cur d r : length (clearBlocks cur d r) = length r.
Proof.
  unfold clearBlocks. generalize (seqZ (cur + 1) d) as l.
  intros l. revert r. induction l; intros; simpl; [done|].
  by rewrite IHl, length_insert.
Qed.

Lemma nth_insert_eq (r : list Z) i v : (i < length r)%nat -> nth i (<[i := v]> r) 0 = v.
Proof. intros. by rewrite nth_lookup, list_lookup_insert_eq. Qed.

Lemma nth_insert_ne (r : list Z) i j v : i <> j -> nth j (<[i := v]> r) 0 = nth j r 0.
Proof. intros. by rewrite !nth_lookup, list_lookup_insert_ne. Qed.

(** Clearing empties every slot hit by the range and keeps the others. *)
Lemma nth_clear_list (l : list Z) r j :
  length r = 128%nat -> (j < 128)%nat ->
  nth j (foldl (fun r i => <[Z.to_nat (Z.land i blockMask) := 0]> r) r l) 0 =
  if decide (Exists (fun i => Z.to_nat (i mod 128) = j) l) then 0 else nth j r 0.
Proof.
  revert r. induction l as [|i l IH]; intros r Hr Hj; cbn [foldl].
  - rewrite decide_False; [done|]. inversion 1.
  - rewrite IH by (rewrite ?length_insert; lia). rewrite land_blockMask.
    destruct (decide (Exists _ l)) as [He|He].
    { rewrite decide_True; [done|]. by apply Exists_cons_tl. }
    destruct (decide (Z.to_nat (i mod 128) = j)) as [<-|Hne].
    + rewrite nth_insert_eq, decide_True; [done| |lia]. by apply Exists_cons_hd.
    + rewrite nth_insert_ne by done. rewrite decide_False; [done|].
      rewrite Exists_cons. tauto.
Qed.

Lemma Exists_seqZ_mod a d j :
  0 <= j < 128 -> 0 <= a -> d <= 128 ->
  Exists (fun i => Z.to_nat (i mod 128) = Z.to_nat j) (seqZ a d) <->
  exists i, a <= i < a + d /\ i mod 128 = j.
Proof.
  intros. rewrite Exists_exists. setoid_rewrite elem_of_seqZ.
  split; intros (i & Hi & He); exists i; (split; [lia|]); [|by rewrite He].
  pose proof (Z.mod_pos_bound i 128). lia.
Qed.

(** Two blocks of one window of 128 share a slot only when they are equal. *)
Lemma same_slot a b lo :
  lo < a <= lo + 128 -> lo < b <= lo + 128 -> a mod 128 = b mod 128 -> a = b.
Proof.
  intros Ha Hb He. pose proof (Z.div_mod a 128). pose proof (Z.div_mod b 128). lia.
Qed.

Lemma bit_of_set r c c' :
  length r = 128%nat ->
  let i := Z.to_nat (blk c mod 128) in
  bit_of (<[i := Z.lor (nth i r 0) (2 ^ (c mod 64))]> r) c' =
  bit_of r c' || bool_decide (blk c mod 128 = blk c' mod 128 /\ c mod 64 = c' mod 64).
Proof.
  intros Hr i. unfold bit_of.
  pose proof (Z.mod_pos_bound (blk c) 128). pose proof (Z.mod_pos_bound (blk c') 128).
  pose proof (Z.mod_pos_bound c 64). pose proof (Z.mod_pos_bound c' 64).
  destruct (decide (blk c mod 128 = blk c' mod 128)) as [He|He].
  - rewrite <- He. fold i. rewrite nth_insert_eq by lia.
    rewrite Z.lor_spec, Z.pow2_bits_eqb by lia. f_equal.
    destruct (Z.eqb_spec (c mod 64) (c' mod 64)); symmetry;
      [by apply bool_decide_eq_true_2|apply bool_decide_eq_false_2; tauto].
  - rewrite nth_insert_ne by lia. rewrite bool_decide_eq_false_2 by tauto.
    by rewrite orb_false_r.
Qed.

(** The answer of [setBit] is the negation of the bit it found. *)
Lemma setBit_spec f c :
  length (ring f) = 128%nat ->
  setBit f c = (negb (bit_of (ring f) c),
    let i := Z.to_nat (blk c mod 128) in
    mkFilter (last f) (<[i := Z.lor (nth i (ring f) 0) (2 ^ (c mod 64))]> (ring f))).
Proof.
  intros Hr. unfold setBit. rewrite shiftr_blk, land_blockMask, land_bitMask.
  pose proof (Z.mod_pos_bound c 64).
  assert (u64 (Z.shiftl 1 (c mod 64)) = 2 ^ (c mod 64)) as ->.
  { rewrite Z.shiftl_1_l. apply u64_small. split; [lia|].
    apply Z.pow_lt_mono_r; lia. }
  f_equal. f_equal. unfold bit_of. set (o := nth _ _ _).
  destruct (Z.eqb_spec o (Z.lor o (2 ^ (c mod 64)))) as [He|He].
  - rewrite He, Z.lor_spec, Z.pow2_bits_true by lia. by rewrite orb_true_r.
  - destruct (Z.testbit o (c mod 64)) eqn:Hb; [|done]. destruct He.
    apply Z.bits_inj'. intros n Hn. rewrite Z.lor_spec, Z.pow2_bits_eqb by lia.
    destruct (Z.eqb_spec (c mod 64) n) as [<-|]; [by rewrite Hb|].
    by rewrite orb_false_r.
Qed.

(** Setting the bit of a counter of the window records it. *)
Lemma repr_setBit f s c :
  repr f s -> 0 <= c <= spec.top s -> blk (spec.top s) - 128 < blk c ->
  (setBit f c).1 = bool_decide (c ∉ spec.seen s) /\
  repr (setBit f c).2 (spec.mk (spec.top s) ({[c]} ∪ spec.seen s)).
Proof.
  intros [Hl Hr Hlen Hs Hb] Hc Hw. rewrite setBit_spec by done. simpl. split.
  { rewrite Hb by (lia || (split; [done|apply blk_mono; lia])).
    destruct (decide (c ∈ spec.seen s));
      [rewrite bool_decide_eq_true_2, bool_decide_eq_false_2 by tauto
      |rewrite bool_decide_eq_false_2, bool_decide_eq_true_2 by tauto]; done. }
  split; simpl; [done|done|by rewrite length_insert|set_solver|].
  intros c' Hc' Hw'. rewrite bit_of_set, Hb by done.
  assert (blk c <= blk (spec.top s)) by (apply blk_mono; lia).
  assert (blk c mod 128 = blk c' mod 128 /\ c mod 64 = c' mod 64 <-> c = c') as Heq.
  { split; [|by intros ->]. intros [He Hm].
    apply (same_slot _ _ (blk (spec.top s) - 128)) in He; [|lia..].
    unfold blk in He. rewrite (Z.div_mod c 64), (Z.div_mod c' 64); lia. }
  apply eq_true_iff_eq. rewrite orb_true_iff, !bool_decide_eq_true, Heq. set_solver.
Qed.

(** Moving the window forward keeps the representation, with a new top. *)
Lemma repr_clear f s c :
  repr f s -> spec.top s < c < 2 ^ 64 ->
  repr (mkFilter c (clearBlocks (blk (spec.top s))
          (Z.min 128 (blk c - blk (spec.top s))) (ring f))) (spec.mk c (spec.seen s)).
Proof.
  intros [Hl Hr Hlen Hs Hb] Hc.
  assert (blk (spec.top s) <= blk c) by (apply blk_mono; lia).
  assert (0 <= blk (spec.top s)) by (unfold blk; apply Z.div_pos; lia).
  split; simpl; [done|lia|by rewrite length_clearBlocks| |].
  { intros x Hx%Hs. lia. }
  intros c' Hc' Hw. unfold bit_of, clearBlocks.
  pose proof (Z.mod_pos_bound (blk c') 128).
  rewrite nth_clear_list by lia.
  destruct (decide (Exists _ _)) as [He|He]; rewrite Exists_seqZ_mod in He by lia.
  - destruct He as (i & Hi & Hm). rewrite Z.testbit_0_l. symmetry.
    apply bool_decide_eq_false_2. intros Hin%Hs.
    assert (blk c' <= blk (spec.top s)) by (apply blk_mono; lia).
    apply (same_slot _ _ (blk c - 128)) in Hm; lia.
  - apply Hb; [done|]. split; [lia|].
    destruct (decide (blk c' <= blk (spec.top s))); [done|exfalso; apply He].
    destruct (decide (blk c - blk (spec.top s) <= 128)).
    { exists (blk c'). lia. }
    exists (blk (spec.top s) + 1 + (blk c' - (blk (spec.top s) + 1)) mod 128).
    pose proof (Z.mod_pos_bound (blk c' - (blk (spec.top s) + 1)) 128).
    split; [lia|]. rewrite Z.add_mod_idemp_r by lia. f_equal. lia.
Qed.

Lemma repr_empty f : length (ring f) = 128%nat -> repr (Reset f) spec.empty.
Proof.
  intros Hlen. split; simpl; [done|lia|by rewrite length_insert|set_solver|].
  intros c Hc Hw. assert (blk c = 0) as Hz.
  { unfold blk in *. change (0 / 64) with 0 in Hw. pose proof (Z.div_pos c 64). lia. }
  unfold bit_of. rewrite Hz. change (Z.to_nat (0 mod 128)) with 0%nat.
  rewrite nth_insert_eq by lia. rewrite Z.testbit_0_l. symmetry.
  apply bool_decide_eq_false_2. set_solver.
Qed.

(** One call of the code is one call of the specification. *)
Lemma ValidateCounter_spec f s c limit :
  repr f s -> 0 <= c < 2 ^ 64 ->
  (ValidateCounter f c limit).1 = (spec.validate s c limit).1 /\
  repr (ValidateCounter f c limit).2 (spec.validate s c limit).2.
Proof.
  intros HR Hc. pose proof HR as [Hl Hr Hlen Hs Hb].
  unfold ValidateCounter, spec.validate. rewrite Hl.
  destruct (Z.geb_spec c limit).
  { rewrite decide_False by lia. done. }
  destruct (Z.gtb_spec c (spec.top s)) as [Hgt|Hle].
  - rewrite decide_True.
    2: { split_and!; [lia..|]. intros Hin%Hs. lia. }
    assert (blk (spec.top s) <= blk c) by (apply blk_mono; lia).
    assert (0 <= blk (spec.top s) /\ blk c < 2 ^ 64) as [? ?].
    { pose proof (blk_bounds c). pose proof (blk_bounds (spec.top s)). lia. }
    rewrite !shiftr_blk, u64_small by lia. change ringBlocks with 128.
    assert ((if blk c - blk (spec.top s) >? 128 then 128 else blk c - blk (spec.top s))
            = Z.min 128 (blk c - blk (spec.top s))) as ->.
    { destruct (Z.gtb_spec (blk c - blk (spec.top s)) 128); lia. }
    pose proof (repr_clear f s c HR ltac:(lia)) as HR'.
    apply repr_setBit with (c := c) in HR'; simpl in *; [|lia..].
    destruct HR' as [-> HR']. rewrite Z.max_r by lia. split; [|done].
    rewrite bool_decide_eq_true_2; [done|]. intros Hin%Hs. lia.
  - rewrite u64_small by lia. change windowSize with 8128.
    destruct (Z.gtb_spec (spec.top s - c) 8128).
    { rewrite decide_False by lia. done. }
    apply repr_setBit with (c := c) in HR as [-> HR]; [|lia|].
    2: { pose proof (blk_bounds c). pose proof (blk_bounds (spec.top s)). lia. }
    destruct (decide (c ∈ spec.seen s)) as [Hin|Hin].
    + rewrite decide_False by tauto. simpl. split; [by apply bool_decide_eq_false_2; tauto|].
      replace ({[c]} ∪ spec.seen s) with (spec.seen s) in HR by set_solver. by destruct s.
    + rewrite decide_True by (split_and!; [lia..|done]). simpl. rewrite Z.max_l by lia.
      split; [by apply bool_decide_eq_true_2|done].
Qed.

Lemma runFilter_spec calls f s :
  repr f s -> Forall counter_ok calls ->
  (runFilter f calls).1 = (spec.run s calls).1 /\
  repr (runFilter f calls).2 (spec.run s calls).2.
Proof.
  intros HR Hc. revert f s HR. induction Hc as [|[c l] calls Hc Hcs IH]; intros f s HR; [done|].
  cbn [runFilter spec.run]. pose proof (ValidateCounter_spec f s c l HR Hc) as [He HR'].
  destruct (ValidateCounter f c l) as [ok f'], (spec.validate s c l) as [ok' s'].
  simpl in He, HR'. subst ok'. specialize (IH f' s' HR').
  destruct (runFilter f' calls), (spec.run s' calls). simpl in *. naive_solver.
Qed.

Lemma spec_run_accepted calls s :
  NoDup (accepted calls (spec.run s calls).1) /\
  forall c, c ∈ accepted calls (spec.run s calls).1 -> c ∉ spec.seen s.
Proof.
  revert s. induction calls as [|[c l] calls IH]; intros s; simpl; [split; [constructor|set_solver]|].
  unfold spec.validate. destruct (decide _) as [(Hl & Hw & Hn)|Hn].
  - specialize (IH (spec.mk (Z.max (spec.top s) c) ({[c]} ∪ spec.seen s))).
    destruct (spec.run _ calls) as [oks s']. unfold accepted in *. simpl in *.
    destruct IH as [Hd Hs]. split.
    + constructor; [|done]. intros Hin%Hs. set_solver.
    + intros x [->|Hin]%elem_of_cons; [done|]. apply Hs in Hin. set_solver.
  - specialize (IH s). destruct (spec.run s calls). unfold accepted in *. done.
Qed.

(** ** Properties *)

(** C5: on any sequence of calls, a filter that has been [Reset] (whatever its
    ring held before) answers exactly what the set-based specification
    answers: a counter is accepted iff it is below the limit, at most
    [windowSize] behind the highest accepted counter, and not accepted before. *)
Theorem filter_refines_set (f : Filter) (calls : list (Z * Z)) :
  length (ring f) = 128%nat -> Forall counter_ok calls ->
  (runFilter (Reset f) calls).1 = (spec.run spec.empty calls).1.
Proof. intros Hf Hc. by apply runFilter_spec, Hc; apply repr_empty. Qed.

(** No counter is ever accepted twice by a filter between two resets. *)
Theorem filter_rejects_replays (f : Filter) (calls : list (Z * Z)) :
  length (ring f) = 128%nat -> Forall counter_ok calls ->
  NoDup (accepted calls (runFilter (Reset f) calls).1).
Proof.
  intros Hf Hc. destruct (runFilter_spec calls (Reset f) spec.empty) as [-> _];
    [by apply repr_empty|done|]. apply spec_run_accepted.
Qed.

(** ** Witnesses *)

Definition sample_calls : list (Z * Z) :=
  [(5, 100000); (5, 100000); (9000, 100000); (10, 100000); (872, 100000);
   (872, 100000); (99999, 50); (8999, 100000)].

Lemma filter_refines_set_witness :
  (runFilter (Reset zeroFilter) sample_calls).1
    = [true; false; true; false; true; false; false; true] /\
  (runFilter (Reset zeroFilter) sample_calls).1 = (spec.run spec.empty sample_calls).1.
Proof.
  split; [vm_compute; reflexivity|].
  apply filter_refines_set; [reflexivity|].
  repeat constructor; simpl; lia.
Defined.

Lemma filter_rejects_replays_witness :
  accepted sample_calls (runFilter (Reset zeroFilter) sample_calls).1 = [5; 9000; 872; 8999] /\
  NoDup (accepted sample_calls (runFilter (Reset zeroFilter) sample_calls).1).
Proof.
  split; [vm_compute; reflexivity|].
  apply filter_rejects_replays; [reflexivity|].
  repeat constructor; simpl; lia.
Defined.
