(* ===== verification/Tai64n.v ===== *)
(** Whitened TAI64N timestamps, [tai64n/tai64n.go]. *)
From S2P Require Import Prelude.

(** ** The code *)

Definition TimestampSize : nat := 12.
Definition base : Z := 0x400000000000000a.
Definition whitenerMask : Z := 0x1000000 - 1.

(** What the code reads of a [time.Time]: [Unix()] and [Nanosecond()]. *)
Record Time := mkTime { Unix : Z; Nanosecond : Z }.

Definition Timestamp : Type := bytes.

Definition stamp (t : Time) : Timestamp :=
  let secs := u64 (base + u64 (Unix t)) in
  let nano := Z.ldiff (u32 (Nanosecond t)) whitenerMask in
  let tai64n := replicate TimestampSize 0 in
  let tai64n := copy_at tai64n 0 (be_enc 8 secs) in
  copy_at tai64n 8 (be_enc 4 nano).

Definition After (t1 t2 : Timestamp) : bool :=
  match bytes_compare t1 t2 with Gt => true | _ => false end.

(** The instant that [String] hands to [time.Unix] before formatting it. *)
Definition unixOf (t : Timestamp) : Time :=
  mkTime (s64 (be_dec (slice 0 8 t) - base)) (be_dec (slice 8 12 t)).

(** ** Lemmas *)

(** An instant whose TAI second fits the 64-bit label. *)
Definition time_ok (t : Time) : Prop :=
  - 2 ^ 62 <= Unix t < 2 ^ 62 /\ 0 <= Nanosecond t < 1000000000.

(** The position of an instant on the whitened time line. *)
Definition tick (t : Time) : Z := Unix t * 64 + Nanosecond t / 2 ^ 24.

Lemma whiten_spec n : 0 <= n < 2 ^ 32 -> Z.ldiff (u32 n) whitenerMask = 2 ^ 24 * (n / 2 ^ 24).
Proof.
  intros. rewrite u32_small by done. change whitenerMask with (Z.pred (2 ^ 24)).
  rewrite <- Z.ones_equiv, Z.ldiff_ones_r, Z.shiftl_mul_pow2, Z.shiftr_div_pow2 by lia. lia.
Qed.

Lemma secs_spec t : time_ok t -> u64 (base + u64 (Unix t)) = base + Unix t.
Proof.
  intros [[H1 H2] _]. unfold u64, uwrap, base in *.
  rewrite Z.add_mod_idemp_r by lia. apply Z.mod_small. lia.
Qed.

Lemma stamp_eq t : time_ok t ->
  stamp t = be_enc 8 (base + Unix t) ++ be_enc 4 (2 ^ 24 * (Nanosecond t / 2 ^ 24)).
Proof.
  intros Ht. unfold stamp. rewrite secs_spec by done. destruct Ht as [_ Hn].
  rewrite whiten_spec by lia.
  pose proof (length_be_enc 8 (base + Unix t)) as L1.
  pose proof (length_be_enc 4 (2 ^ 24 * (Nanosecond t / 2 ^ 24))) as L2.
  remember (be_enc 8 _) as a. remember (be_enc 4 _) as b.
  do 9 (destruct a as [|? a]; try done). do 5 (destruct b as [|? b]; try done).
Qed.

Lemma nano_bucket t : time_ok t -> 0 <= Nanosecond t / 2 ^ 24 < 60.
Proof.
  intros [_ Hn]. split; [apply Z.div_pos; lia|]. apply Z.div_lt_upper_bound; lia.
Qed.

(** A stamp read as one 96-bit number. *)
Lemma stamp_dec t : time_ok t ->
  be_dec (stamp t) = 2 ^ 32 * (base + Unix t) + 2 ^ 24 * (Nanosecond t / 2 ^ 24).
Proof.
  intros Ht. pose proof (nano_bucket t Ht). rewrite stamp_eq by done.
  destruct Ht as [Hs _]. unfold base in *.
  rewrite be_dec_app, length_be_enc, !be_dec_enc by lia. lia.
Qed.

Lemma stamp_bytes t : time_ok t -> all_bytes (stamp t) /\ length (stamp t) = TimestampSize.
Proof.
  intros Ht. rewrite stamp_eq by done. split.
  - apply Forall_app. auto with orbitx.
  - by rewrite length_app, !length_be_enc.
Qed.

(** ** Properties *)

(** Comparing two stamps is comparing the instants at the whitened
    resolution of 2^24 ns within a second; in particular stamps never run
    backwards, and two instants of one bucket are not [After] each other. *)
Theorem After_stamp (t1 t2 : Time) : time_ok t1 -> time_ok t2 ->
  After (stamp t1) (stamp t2) = (tick t2 <? tick t1).
Proof.
  intros H1 H2. pose proof (nano_bucket t1 H1). pose proof (nano_bucket t2 H2).
  destruct (stamp_bytes t1 H1) as [B1 L1], (stamp_bytes t2 H2) as [B2 L2].
  unfold After. rewrite bytes_compare_be, !stamp_dec by congruence || done.
  unfold tick. destruct H1 as [? _], H2 as [? _].
  zbool; destruct (Z.compare_spec
    (2 ^ 32 * (base + Unix t1) + 2 ^ 24 * (Nanosecond t1 / 2 ^ 24))
    (2 ^ 32 * (base + Unix t2) + 2 ^ 24 * (Nanosecond t2 / 2 ^ 24))); lia || done.
Qed.

(** Reading a stamp back gives the second exactly and the nanosecond
    rounded down to its whitening bucket. *)
Theorem unixOf_stamp (t : Time) : time_ok t ->
  unixOf (stamp t) = mkTime (Unix t) (2 ^ 24 * (Nanosecond t / 2 ^ 24)).
Proof.
  intros Ht. pose proof (nano_bucket t Ht). unfold unixOf. rewrite stamp_eq by done.
  destruct Ht as [Hs _].
  rewrite slice_app_first, slice_app_last by (by rewrite ?length_be_enc).
  rewrite !be_dec_enc by (unfold base; lia).
  f_equal. rewrite s64_small; lia.
Qed.

(** ** Witnesses *)

Lemma After_stamp_witness :
  After (stamp (mkTime 1700000000 999999999)) (stamp (mkTime 1700000000 1)) = true /\
  After (stamp (mkTime 1700000000 999999999)) (stamp (mkTime 1700000000 1))
  = (tick (mkTime 1700000000 1) <? tick (mkTime 1700000000 999999999)).
Proof.
  split; [vm_compute; reflexivity|].
  apply After_stamp; split; simpl; lia.
Defined.

Lemma unixOf_stamp_witness :
  unixOf (stamp (mkTime 1700000000 20000000)) = mkTime 1700000000 (2 ^ 24 * 1).
Proof. apply (unixOf_stamp (mkTime 1700000000 20000000)); split; simpl; lia. Defined.
