(* ===== verification/Ratelimiter.v ===== *)
(** The token buckets of [ratelimiter/ratelimiter.go]: the table of entries,
    its garbage collection and the bound on what one address may pass. *)
From S2P Require Import Prelude.

(** ** The code *)

Definition packetsPerSecond : Z := 20.
Definition packetsBurstable : Z := 5.
Definition garbageCollectTime : Z := 1000000000.
Definition packetCost : Z := 1000000000 / packetsPerSecond.
Definition maxTokens : Z := packetCost * packetsBurstable.

(** Times are nanoseconds of the monotonic clock that [timeNow] reads. *)
Record RatelimiterEntry := mkEntry { lastTime : Z; tokens : Z }.

(** The [stopReset] channel with the goroutine behind it: [nil] before [Init],
    the goroutine with its ticker stopped or running, and the closed channel. *)
Inductive gcState := gcNil | gcIdle | gcTicking | gcClosed.

#[export] Instance gcState_eq_dec : EqDecision gcState.
Proof. solve_decision. Defined.

Section Ratelimiter.
Context {Addr : Type} `{Countable Addr}.

(** Entries are pointers, which a call may hold while the table changes: every
    entry that was made, in order, and those of the table. *)
Record Ratelimiter := mkRate { entries : list RatelimiterEntry; table : gmap Addr nat; stopReset : gcState }.

Definition zeroEntry : RatelimiterEntry := mkEntry 0 0.
(** No call holds a pointer to an entry that was not made. *)
Definition entryAt (rate : Ratelimiter) (p : nat) : RatelimiterEntry := default zeroEntry (entries rate !! p).

Definition zeroRate : Ratelimiter := mkRate [] ∅ gcNil.

(** Closing a closed channel panics ([None]). *)
Definition Close (rate : Ratelimiter) : option Ratelimiter :=
  match stopReset rate with
  | gcNil => Some rate
  | gcClosed => None
  | _ => Some (mkRate (entries rate) (table rate) gcClosed)
  end.

Definition Init (rate : Ratelimiter) : option Ratelimiter :=
  match stopReset rate with
  | gcClosed => None
  | _ => Some (mkRate (entries rate) ∅ gcIdle)
  end.

Definition cleanup (now : Z) (rate : Ratelimiter) : bool * Ratelimiter :=
  let t := filter (fun p : Addr * nat =>
             ~ garbageCollectTime < sat64 (now - lastTime (entryAt rate p.2))) (table rate) in
  (bool_decide (t = ∅), mkRate (entries rate) t (stopReset rate)).

(** One tick of the goroutine's ticker, which only a running ticker has. *)
Definition tickerFired (now : Z) (rate : Ratelimiter) : Ratelimiter :=
  match stopReset rate with
  | gcTicking =>
      let '(empty, rate) := cleanup now rate in
      if empty then mkRate (entries rate) (table rate) gcIdle else rate
  | _ => rate
  end.

(** [Allow] between its locks: the lookup under the reading lock; the entry that
    is made when there is none; its insertion under the writing lock; and the
    payment under the lock of an entry that was found. *)
Definition allowLook (ip : Addr) (rate : Ratelimiter) : option nat := table rate !! ip.
Definition newEntry (now : Z) : RatelimiterEntry := mkEntry now (maxTokens - packetCost).
Definition allowInsert (ip : Addr) (entry : RatelimiterEntry) (rate : Ratelimiter) : option Ratelimiter :=
  match stopReset rate with
  | gcNil => None (* write to a nil map *)
  | gc =>
      let t := <[ip := length (entries rate)]> (table rate) in
      let es := entries rate ++ [entry] in
      if decide (size t = 1%nat) then
        match gc with
        | gcClosed => None (* send on a closed channel *)
        | _ => Some (mkRate es t gcTicking)
        end
      else Some (mkRate es t gc)
  end.
Definition allowPay (now : Z) (p : nat) (rate : Ratelimiter) : bool * Ratelimiter :=
  let entry := entryAt rate p in
  let tk := s64 (tokens entry + sat64 (now - lastTime entry)) in
  let tk := if tk >? maxTokens then maxTokens else tk in
  let ok := tk >? packetCost in
  (ok, mkRate (<[p := mkEntry now (if ok then tk - packetCost else tk)]> (entries rate)) (table rate) (stopReset rate)).

(** A call that no other one overlaps. *)
Definition Allow (now : Z) (ip : Addr) (rate : Ratelimiter) : option (bool * Ratelimiter) :=
  match allowLook ip rate with
  | None => rate ← allowInsert ip (newEntry now) rate; Some (true, rate)
  | Some p => Some (allowPay now p rate)
  end.

(** ** Traces of calls and ticks *)

Inductive event := EAllow (now : Z) (ip : Addr) | ETick (now : Z).

Definition time_of (e : event) : Z := match e with EAllow t _ | ETick t => t end.

(** The answers of the [Allow] calls, in order. *)
Fixpoint run (rate : Ratelimiter) (evs : list event) : option (list (Z * Addr * bool) * Ratelimiter) :=
  match evs with
  | [] => Some ([], rate)
  | EAllow now ip :: evs =>
      '(ok, rate) ← Allow now ip rate;
      '(oks, rate) ← run rate evs;
      Some ((now, ip, ok) :: oks, rate)
  | ETick now :: evs => run (tickerFired now rate) evs
  end.

(** The clock does not run backwards and stays below 2^62 ns (146 years). *)
Fixpoint clock_ok (lo : Z) (evs : list event) : Prop :=
  match evs with
  | [] => True
  | e :: evs => lo <= time_of e < 2 ^ 62 /\ clock_ok (time_of e) evs
  end.

Definition isAllow (e : event) : Prop := match e with EAllow _ _ => True | _ => False end.
#[export] Instance isAllow_dec e : Decision (isAllow e).
Proof. destruct e; simpl; apply _. Defined.

(** How many calls for [ip] were let through. *)
Definition passed (ip : Addr) (oks : list (Z * Addr * bool)) : Z :=
  zlen (filter (fun p : Z * Addr * bool => p.1.2 = ip /\ p.2 = true) oks).

(** ** Calls that overlap *)

(** A call between its locks: it found an entry, or missed one, or has made the
    one it inserts. *)
Inductive call := Idle | Found (ip : Addr) (p : nat) | Missed (ip : Addr) | Made (ip : Addr) (entry : RatelimiterEntry).

(** The next part of a worker's call, with its answer when it ends; an idle
    worker starts one for [ip]. *)
Definition callStep (now : Z) (ip : Addr) (w : call) (rate : Ratelimiter) : option (option (Addr * bool) * call * Ratelimiter) :=
  match w with
  | Idle => Some (None, match allowLook ip rate with Some p => Found ip p | None => Missed ip end, rate)
  | Missed ip => Some (None, Made ip (newEntry now), rate)
  | Made ip entry => rate ← allowInsert ip entry rate; Some (Some (ip, true), Idle, rate)
  | Found ip p => let '(ok, rate) := allowPay now p rate in Some (Some (ip, ok), Idle, rate)
  end.

(** The workers that share the limiter, and their steps and the collector's in
    any order. *)
Record conf := mkConf { calls : list call; limiter : Ratelimiter }.
Inductive cevent := CWorker (now : Z) (i : nat) (ip : Addr) | CTick (now : Z).
Definition ctime (e : cevent) : Z := match e with CWorker t _ _ | CTick t => t end.

Definition cstep (c : conf) (e : cevent) : option (option (Addr * bool) * conf) :=
  match e with
  | CTick now => Some (None, mkConf (calls c) (tickerFired now (limiter c)))
  | CWorker now i ip =>
      match calls c !! i with
      | None => Some (None, c)
      | Some w => '(ans, w, rate) ← callStep now ip w (limiter c); Some (ans, mkConf (<[i := w]> (calls c)) rate)
      end
  end.

Fixpoint crun (c : conf) (evs : list cevent) : option (list (Addr * bool) * conf) :=
  match evs with
  | [] => Some ([], c)
  | e :: evs =>
      '(ans, c) ← cstep c e;
      '(oks, c) ← crun c evs;
      Some (option_list ans ++ oks, c)
  end.

Fixpoint cclock_ok (lo hi : Z) (evs : list cevent) : Prop :=
  match evs with
  | [] => lo <= hi
  | e :: evs => lo <= ctime e /\ cclock_ok (ctime e) hi evs
  end.

Definition cpassed (ip : Addr) (oks : list (Addr * bool)) : Z := zlen (filter (eq (ip, true)) oks).

(** What a step does to the entry of [ip]: an insertion over an entry of the
    table, a payment on an entry that is no longer in the table, a collection. *)
Definition in_table (ip : Addr) (c : conf) : bool := bool_decide (is_Some (table (limiter c) !! ip)).
Definition inserts (ip : Addr) (w : call) : bool := match w with Made ip' _ => bool_decide (ip = ip') | _ => false end.
Definition strays (ip : Addr) (rate : Ratelimiter) (w : call) : bool :=
  match w with Found ip' p => bool_decide (ip = ip' /\ table rate !! ip <> Some p) | _ => false end.
Definition worker_is (f : call -> bool) (c : conf) (e : cevent) : Z :=
  match e with CWorker _ i _ => match calls c !! i with Some w => Z.b2z (f w) | None => 0 end | _ => 0 end.
Definition replaced (ip : Addr) (c : conf) (e : cevent) : Z := if in_table ip c then worker_is (inserts ip) c e else 0.
Definition strayed (ip : Addr) (c : conf) (e : cevent) : Z := worker_is (strays ip (limiter c)) c e.
Definition collected (ip : Addr) (c : conf) (e : cevent) : Z :=
  match e with
  | CTick now => Z.b2z (in_table ip c && negb (in_table ip (mkConf (calls c) (tickerFired now (limiter c)))))
  | _ => 0
  end.
(** How often that happens in a run. *)
Fixpoint total (f : conf -> cevent -> Z) (c : conf) (evs : list cevent) : Z :=
  match evs with
  | [] => 0
  | e :: evs => f c e + match cstep c e with Some (_, c) => total f c evs | None => 0 end
  end.

(** ** Specification: the level of every bucket at every time *)

Definition bucket (e : RatelimiterEntry) (now : Z) : Z := Z.min maxTokens (tokens e + (now - lastTime e)).
Definition level (rate : Ratelimiter) (ip : Addr) (now : Z) : Z :=
  match table rate !! ip with
  | None => maxTokens
  | Some p => bucket (entryAt rate p) now
  end.

Record inv (rate : Ratelimiter) (now : Z) : Prop := {
  inv_now : 0 <= now < 2 ^ 62;
  inv_entry : forall p e, entries rate !! p = Some e -> 0 <= tokens e <= maxTokens /\ 0 <= lastTime e <= now;
  inv_table : forall ip p, table rate !! ip = Some p -> (p < length (entries rate))%nat;
  inv_own : forall ip ip' p, table rate !! ip = Some p -> table rate !! ip' = Some p -> ip = ip';
  inv_gc : stopReset rate = gcTicking /\ table rate <> ∅ \/ stopReset rate = gcIdle /\ table rate = ∅
}.

(** ** Lemmas *)

Lemma inv_later rate t t' : inv rate t -> t <= t' < 2 ^ 62 -> inv rate t'.
Proof.
  intros [Hn He Ht Ho Hg] Hl. split; [lia| |done..]. intros p e Hp.
  destruct (He p e Hp). lia.
Qed.

Lemma entryAt_ok rate now p : inv rate now -> (p < length (entries rate))%nat ->
  0 <= tokens (entryAt rate p) <= maxTokens /\ 0 <= lastTime (entryAt rate p) <= now.
Proof. intros Hi [e E]%lookup_lt_is_Some_2. unfold entryAt. rewrite E. by apply (inv_entry _ _ Hi p). Qed.

Lemma bucket_bounds rate p t t' : inv rate t -> (p < length (entries rate))%nat -> t <= t' -> 0 <= bucket (entryAt rate p) t' <= maxTokens.
Proof. intros Hi Hp Ht. destruct (entryAt_ok _ _ _ Hi Hp). unfold bucket. lia. Qed.

Lemma level_bounds rate ip t t' : inv rate t -> t <= t' -> 0 <= level rate ip t' <= maxTokens.
Proof.
  intros Hi Ht. unfold level. destruct (table rate !! ip) as [p|] eqn:E; [|by vm_compute].
  eapply bucket_bounds; [done|by eapply inv_table|done].
Qed.

Lemma level_later rate ip t t' : t <= t' -> level rate ip t' <= level rate ip t + (t' - t).
Proof. intros. unfold level, bucket. destruct (table rate !! ip); lia. Qed.

(** *** The insertion *)

Lemma entryAt_old rate gc t e p : (p < length (entries rate))%nat -> entryAt (mkRate (entries rate ++ [e]) t gc) p = entryAt rate p.
Proof. intros Hp. unfold entryAt. cbn. by rewrite lookup_app_l. Qed.
Lemma entryAt_new rate gc t e : entryAt (mkRate (entries rate ++ [e]) t gc) (length (entries rate)) = e.
Proof. unfold entryAt. cbn. by rewrite lookup_app_r, Nat.sub_diag by lia. Qed.

Lemma allowInsert_spec rate now ip e : inv rate now -> 0 <= tokens e <= maxTokens -> 0 <= lastTime e <= now ->
  exists rate', allowInsert ip e rate = Some rate' /\ inv rate' now
    /\ entries rate' = entries rate ++ [e] /\ table rate' = <[ip := length (entries rate)]> (table rate)
    /\ forall ip' t, level rate' ip' t = if decide (ip = ip') then bucket e t else level rate ip' t.
Proof.
  intros Hi Htk Hl. set (t := <[ip := length (entries rate)]> (table rate)).
  assert (allowInsert ip e rate = Some (mkRate (entries rate ++ [e]) t gcTicking)) as ->.
  { unfold allowInsert. fold t. destruct (inv_gc _ _ Hi) as [[-> Hne]|[-> Hem]]; [by case_decide|]. rewrite decide_True; [done|].
    unfold t. rewrite Hem. by rewrite map_size_insert_None, map_size_empty. }
  eexists. split; [reflexivity|]. split_and!; [|done|done|].
  - pose proof (inv_table _ _ Hi) as Ht. split; cbn.
    + apply Hi.
    + intros p e' [[_ Hp]|[_ <-]]%lookup_snoc_Some; [by apply (inv_entry _ _ Hi p)|done].
    + intros ip' p. unfold t. rewrite lookup_insert, length_app. cbn. case_decide; [intros [= <-]; lia|]. intros Hp%Ht. lia.
    + intros ip1 ip2 p. unfold t. rewrite !lookup_insert. intros E1 E2. assert (table rate !! ip1 <> Some (length (entries rate))) by (intros ?%Ht; lia).
      assert (table rate !! ip2 <> Some (length (entries rate))) by (intros ?%Ht; lia).
      do 2 case_decide; simplify_eq; try done. by eapply inv_own.
    + left. split; [done|apply insert_non_empty].
  - intros ip' t'. unfold level. cbn. unfold t. rewrite lookup_insert. case_decide; [by rewrite entryAt_new|].
    destruct (table rate !! ip') as [p|] eqn:E; [|done]. by rewrite entryAt_old by by eapply inv_table.
Qed.

(** *** The payment *)

Lemma allowPay_spec rate now p : inv rate now -> (p < length (entries rate))%nat ->
  let l := bucket (entryAt rate p) now in
  exists rate', allowPay now p rate = (packetCost <? l, rate') /\ inv rate' now
    /\ length (entries rate') = length (entries rate) /\ table rate' = table rate
    /\ (forall q, q <> p -> entryAt rate' q = entryAt rate q)
    /\ entryAt rate' p = mkEntry now (l - if packetCost <? l then packetCost else 0).
Proof.
  intros Hi Hp l. destruct (entryAt_ok _ _ _ Hi Hp) as [Htk Hl]. pose proof (inv_now _ _ Hi) as Hn. unfold allowPay.
  assert ((if s64 (tokens (entryAt rate p) + sat64 (now - lastTime (entryAt rate p))) >? maxTokens then maxTokens
           else s64 (tokens (entryAt rate p) + sat64 (now - lastTime (entryAt rate p)))) = l) as ->.
  { unfold l, bucket. change maxTokens with 250000000 in *. rewrite sat64_small, s64_small by lia.
    destruct (Z.gtb_spec (tokens (entryAt rate p) + (now - lastTime (entryAt rate p))) 250000000); lia. }
  rewrite Z.gtb_ltb. replace (if packetCost <? l then l - packetCost else l) with (l - if packetCost <? l then packetCost else 0) by (destruct (packetCost <? l); lia).
  set (e := mkEntry now _). eexists. split; [reflexivity|].
  pose proof (bucket_bounds _ _ _ now Hi Hp ltac:(lia)) as Hb. fold l in Hb. split_and!.
  - split; cbn; rewrite ?length_insert; try apply Hi. intros q e' [(<- & <- & _)|[_ E]]%list_lookup_insert_Some; [|by apply (inv_entry _ _ Hi q)].
    cbn. change packetCost with 50000000. change maxTokens with 250000000 in *. zbool; lia.
  - cbn. by rewrite length_insert.
  - done.
  - intros q Hq. unfold entryAt. cbn. by rewrite list_lookup_insert_ne by done.
  - unfold entryAt. cbn. by rewrite list_lookup_insert_eq by done.
Qed.

(** What is paid is taken from its bucket, and no level rises. *)
Lemma paid_bucket l now t : now <= t -> 0 <= l <= maxTokens ->
  bucket (mkEntry now (l - if packetCost <? l then packetCost else 0)) t = Z.min maxTokens (l + (t - now) - if packetCost <? l then packetCost else 0).
Proof. intros. unfold bucket. cbn. f_equal. lia. Qed.

(** [Allow] on a running limiter: it answers by the level and pays from it. *)
Lemma Allow_spec rate now ip : inv rate now ->
  exists rate', Allow now ip rate = Some (packetCost <? level rate ip now, rate') /\
    inv rate' now /\
    forall ip' t, now <= t -> level rate' ip' t =
      if decide (ip = ip') then
        Z.min maxTokens (level rate ip now + (t - now) -
          if packetCost <? level rate ip now then packetCost else 0)
      else level rate ip' t.
Proof.
  intros Hi. unfold Allow, allowLook. destruct (table rate !! ip) as [p|] eqn:E.
  - pose proof (inv_table _ _ Hi _ _ E) as Hp. assert (level rate ip now = bucket (entryAt rate p) now) as -> by (unfold level; by rewrite E).
    destruct (allowPay_spec rate now p Hi Hp) as (rate' & -> & Hi' & _ & Ht & Hne & Heq). eexists. split; [reflexivity|]. split; [done|].
    intros ip' t Hnt. unfold level. rewrite Ht. case_decide as Hd; [subst ip'; rewrite E, Heq; apply paid_bucket; [done|]; by eapply bucket_bounds|].
    destruct (table rate !! ip') as [q|] eqn:Eq; [|done]. rewrite Hne; [done|]. intros ->. destruct Hd. exact (inv_own _ _ Hi _ _ _ E Eq).
  - assert (level rate ip now = maxTokens) as -> by (unfold level; by rewrite E).
    pose proof (inv_now _ _ Hi). destruct (allowInsert_spec rate now ip (newEntry now) Hi) as (rate' & -> & Hi' & _ & _ & Hl); [by vm_compute|cbn; lia|].
    cbn [mbind option_bind]. eexists. split; [reflexivity|]. split; [done|]. intros ip' t Hnt. rewrite Hl. case_decide; [|done].
    unfold bucket, newEntry. cbn [tokens lastTime]. change (packetCost <? maxTokens) with true. cbn iota. f_equal. lia.
Qed.

(** A tick never changes a level, now or later: only full buckets go. *)
Lemma tick_spec rate now : inv rate now ->
  inv (tickerFired now rate) now /\
  (forall ip t, now <= t -> level (tickerFired now rate) ip t = level rate ip t)
  /\ entries (tickerFired now rate) = entries rate
  /\ forall ip p, table (tickerFired now rate) !! ip = Some p -> table rate !! ip = Some p.
Proof.
  intros Hi. pose proof Hi as [Hn He Ht Ho Hg]. unfold tickerFired, cleanup.
  destruct Hg as [[Hg Hne]|[Hg Hem]]; rewrite Hg; [|done].
  set (t := filter _ _).
  assert (forall ip p, t !! ip = Some p -> table rate !! ip = Some p) as Hsub.
  { intros ip p Hp. by apply map_lookup_filter_Some in Hp as [? _]. }
  assert (forall gc ip t', now <= t' -> level (mkRate (entries rate) t gc) ip t' = level rate ip t') as Hlev.
  { intros gc ip t' Ht'. unfold level. simpl. destruct (t !! ip) as [p|] eqn:E.
    - by rewrite (Hsub _ _ E).
    - destruct (table rate !! ip) as [p|] eqn:E'; [|done]. destruct (entryAt_ok _ _ _ Hi (Ht _ _ E')). unfold t in E.
      rewrite map_lookup_filter_None in E. destruct E as [E|E]; [congruence|].
      specialize (E p E'). simpl in E. rewrite sat64_small in E by lia.
      apply dec_stable in E. unfold bucket.
      change garbageCollectTime with 1000000000 in E. change maxTokens with 250000000 in *. lia. }
  case_bool_decide as Hempty; cbn -[level]; (split_and!; [|by intros; apply Hlev|done|exact Hsub]); split; cbn; try done; eauto.
Qed.
End Ratelimiter.

Section RatelimiterTraces.
Context {Addr : Type} `{Countable Addr}.
Implicit Types (rate : Ratelimiter (Addr := Addr)) (evs : list (event (Addr := Addr))).

(** Two limiters with the same levels from now on. *)
Definition same_levels rate1 rate2 (now : Z) : Prop :=
  forall ip t, now <= t -> level rate1 ip t = level rate2 ip t.

Lemma Allow_same rate1 rate2 now ip : inv rate1 now -> inv rate2 now ->
  same_levels rate1 rate2 now ->
  exists ok r1 r2, Allow now ip rate1 = Some (ok, r1) /\ Allow now ip rate2 = Some (ok, r2) /\
    inv r1 now /\ inv r2 now /\ same_levels r1 r2 now.
Proof.
  intros H1 H2 Hs.
  destruct (Allow_spec rate1 now ip H1) as (r1 & E1 & I1 & L1).
  destruct (Allow_spec rate2 now ip H2) as (r2 & E2 & I2 & L2).
  rewrite (Hs ip now) in E1 by lia. eexists _, r1, r2.
  split; [exact E1|split; [exact E2|split; [done|split; [done|]]]].
  intros ip' t Ht. rewrite L1, L2, !Hs by lia. done.
Qed.

Lemma run_same rate1 rate2 now evs : inv rate1 now -> inv rate2 now ->
  same_levels rate1 rate2 now -> clock_ok now evs ->
  exists oks r1 r2, run rate1 evs = Some (oks, r1) /\
    run rate2 (filter isAllow evs) = Some (oks, r2).
Proof.
  revert rate1 rate2 now. induction evs as [|[t ip|t] evs IH];
    intros rate1 rate2 now H1 H2 Hs Hc.
  - by exists [], rate1, rate2.
  - destruct Hc as [Ht Hc]. simpl in Ht, Hc. cbn [run]. rewrite filter_cons_True by done.
    cbn [run]. destruct (Allow_same rate1 rate2 t ip) as (ok & r1 & r2 & -> & -> & I1 & I2 & Hs').
    1,2: by eapply inv_later; [|exact Ht].
    { intros ip' t' Ht'. apply Hs. lia. }
    simpl. destruct (IH r1 r2 t I1 I2 Hs' Hc) as (oks & r1' & r2' & -> & ->). simpl. eauto.
  - destruct Hc as [Ht Hc]. simpl in Ht, Hc. cbn [run]. rewrite filter_cons_False by auto.
    destruct (tick_spec rate1 t) as (I1 & L1 & _); [by eapply inv_later; [|exact Ht]|].
    apply (IH _ rate2 t); [done|by eapply inv_later; [|exact Ht]| |done].
    intros ip' t' Ht'. rewrite L1 by lia. apply Hs. lia.
Qed.

(** What has been passed is paid for by the level and the elapsed time. *)
Lemma run_paid rate now evs ip hi : inv rate now -> clock_ok now evs ->
  (forall e, e ∈ evs -> time_of e <= hi) -> now <= hi ->
  exists oks r, run rate evs = Some (oks, r) /\
    packetCost * passed ip oks <= level rate ip now + (hi - now).
Proof.
  revert rate now. induction evs as [|e evs IH]; intros rate now Hi Hc Hhi Hn.
  - exists [], rate. split; [done|]. unfold passed. simpl.
    pose proof (level_bounds rate ip now now Hi). lia.
  - destruct Hc as [Ht Hc].
    assert (time_of e <= hi) as Hte by (apply Hhi; set_solver).
    assert (inv rate (time_of e)) as Hi' by (by eapply inv_later; [|exact Ht]).
    assert (forall e', e' ∈ evs -> time_of e' <= hi) as Hhi' by (intros; apply Hhi; set_solver).
    pose proof (level_later rate ip now (time_of e) ltac:(lia)) as Hl.
    destruct e as [t ip'|t]; simpl in *.
    + destruct (Allow_spec rate t ip' Hi') as (r & -> & Ir & Lr). simpl.
      destruct (IH r t Ir Hc Hhi' Hte) as (oks & r' & -> & Hp). simpl.
      eexists _, _. split; [reflexivity|]. revert Hp. rewrite Lr by lia. unfold passed.
      change packetCost with 50000000. case_decide as Hip; subst.
      * destruct (Z.ltb_spec 50000000 (level rate ip t)).
        -- rewrite filter_cons_True by done. cbn [length]. lia.
        -- rewrite filter_cons_False by (simpl; naive_solver). lia.
      * rewrite filter_cons_False by (simpl; naive_solver). lia.
    + destruct (tick_spec rate t Hi') as (It & Lt & _).
      destruct (IH _ t It Hc Hhi' Hte) as (oks & r' & Hr & Hp).
      rewrite Hr. eexists _, _. split; [reflexivity|]. rewrite Lt in Hp by lia. lia.
Qed.

Lemma run_gc rate now evs oks r : inv rate now -> clock_ok now evs ->
  run rate evs = Some (oks, r) -> exists t, inv r t.
Proof.
  revert rate now oks. induction evs as [|e evs IH]; intros rate now oks Hi Hc Hr.
  - injection Hr as <- <-. eauto.
  - destruct Hc as [Ht Hc].
    assert (inv rate (time_of e)) as Hi' by (by eapply inv_later; [|exact Ht]).
    destruct e as [t ip'|t]; simpl in *.
    + destruct (Allow_spec rate t ip' Hi') as (r1 & E & Ir & _). rewrite E in Hr. simpl in Hr.
      destruct (run r1 evs) as [[oks' r']|] eqn:Hr'; [|done]. injection Hr as <- <-. eauto.
    + destruct (tick_spec rate t Hi') as (It & _). eauto.
Qed.

Lemma inv_Init now : 0 <= now < 2 ^ 62 -> inv (mkRate (Addr := Addr) [] ∅ gcIdle) now.
Proof. intros. split; simpl; try done; by right. Qed.
End RatelimiterTraces.

(** *** Calls that overlap *)

Section RatelimiterOverlap.
Context {Addr : Type} `{Countable Addr}.
Implicit Types (c : conf (Addr := Addr)) (rate : Ratelimiter (Addr := Addr)).

(** The parts, one after the other, are the call. *)
Lemma Allow_callSteps now ip rate :
  Allow now ip rate = match callStep now ip Idle rate with
    | Some (_, Missed ip, rate) =>
        match callStep now ip (Missed ip) rate with
        | Some (_, w, rate) => '(ans, _, rate) ← callStep now ip w rate; Some (default false (snd <$> ans), rate)
        | None => None
        end
    | Some (_, w, rate) => '(ans, _, rate) ← callStep now ip w rate; Some (default false (snd <$> ans), rate)
    | None => None
    end.
Proof.
  unfold Allow, callStep. destruct (allowLook ip rate) as [p|]; cbn -[allowPay]; [by destruct (allowPay now p rate)|].
  by destruct (allowInsert ip (newEntry now) rate).
Qed.

(** What a worker holds. *)
Definition call_ok rate (now : Z) (w : call (Addr := Addr)) : Prop :=
  match w with
  | Found ip p => (p < length (entries rate))%nat /\ forall ip', table rate !! ip' = Some p -> ip' = ip
  | Made ip e => tokens e = maxTokens - packetCost /\ 0 <= lastTime e <= now
  | _ => True
  end.
Record cinv c (now : Z) : Prop := {
  ci_rate : inv (limiter c) now;
  ci_calls : Forall (call_ok (limiter c) now) (calls c) }.

Lemma cinv_later c t t' : cinv c t -> t <= t' < 2 ^ 62 -> cinv c t'.
Proof.
  intros [Hi Hc] Ht. split; [by eapply inv_later|]. eapply Forall_impl; [exact Hc|].
  intros [|?|?|ip e]; cbn; [done..|]. lia.
Qed.

Definition missing (ip : Addr) (w : call (Addr := Addr)) : bool :=
  match w with Missed ip' | Made ip' _ => bool_decide (ip = ip') | _ => false end.

Lemma countBy_idle ip rate k : countBy (strays ip rate) (replicate k Idle) = 0.
Proof. induction k as [|k IH]; [done|]. cbn [replicate]. by rewrite countBy_cons, IH. Qed.

(** The time a call has stood between making its entry and inserting it, which
    an address without an entry has at most one packet for. *)
Definition allowed (ip : Addr) c (now A : Z) : Prop :=
  0 <= A <= packetCost /\ (table (limiter c) !! ip = None -> forall e, Made ip e ∈ calls c -> Z.min packetCost (now - lastTime e) <= A).

(** How many insertions over an entry the calls under way may still bring. *)
Definition pending (ip : Addr) c : Z := if in_table ip c then countBy (missing ip) (calls c) else zlen (calls c) - 1.

(** The accounts of one step for [ip]. *)
Record accounts (ip : Addr) (now : Z) c (A : Z) (e : cevent (Addr := Addr)) (ans : option (Addr * bool)) c' (A' : Z) : Prop := {
  ac_len : length (calls c') = length (calls c);
  ac_inv : cinv c' now;
  ac_allowed : allowed ip c' now A';
  ac_paid : packetCost * cpassed ip (option_list ans) + level (limiter c') ip now + A' <= level (limiter c) ip now + A
    + (maxTokens + packetCost) * replaced ip c e + packetCost * (strayed ip c e + collected ip c e);
  ac_replaced : replaced ip c e + pending ip c' <= pending ip c + (zlen (calls c) - 1) * collected ip c e;
  ac_strayed : strayed ip c e + countBy (strays ip (limiter c')) (calls c')
    <= countBy (strays ip (limiter c)) (calls c) + (zlen (calls c) - 1) * replaced ip c e + zlen (calls c) * collected ip c e }.

Lemma call_ok_keep rate rate' now w : (length (entries rate) <= length (entries rate'))%nat ->
  (forall ip p, table rate' !! ip = Some p -> (p < length (entries rate))%nat -> table rate !! ip = Some p) ->
  call_ok rate now w -> call_ok rate' now w.
Proof. intros Hl Ht. destruct w as [|ip p| |]; cbn; [done| |done..]. intros [Hp Ho]. split; [lia|]. intros ip' E. apply Ho. by apply Ht. Qed.

Lemma strays_same ip rate rate' l : table rate' !! ip = table rate !! ip -> countBy (strays ip rate') l = countBy (strays ip rate) l.
Proof. intros E. unfold countBy, strays. by rewrite E. Qed.

Lemma in_table_None ip c : in_table ip c = false <-> table (limiter c) !! ip = None.
Proof. unfold in_table. rewrite bool_decide_eq_false. by rewrite eq_None_not_Some. Qed.
Lemma in_table_Some ip c p : table (limiter c) !! ip = Some p -> in_table ip c = true.
Proof. intros E. unfold in_table. rewrite E. by apply bool_decide_eq_true. Qed.

Lemma tick_accounts ip c now A : cinv c now -> allowed ip c now A ->
  exists A', accounts ip now c A (CTick now) None (mkConf (calls c) (tickerFired now (limiter c))) A'.
Proof.
  intros [Hi Hc] [HA HL]. destruct (tick_spec _ _ Hi) as (Hi' & Hlev & Hes & Hsub). set (c' := mkConf _ _).
  assert (collected ip c (CTick now) = Z.b2z (in_table ip c && negb (in_table ip c'))) as Ec by done.
  assert (in_table ip c' = true -> table (limiter c') !! ip = table (limiter c) !! ip) as Hin.
  { intros [p E]%bool_decide_eq_true. rewrite E. symmetry. by apply Hsub. }
  assert (in_table ip c = false -> in_table ip c' = false) as Hout.
  { rewrite !in_table_None. intros E. apply eq_None_not_Some. intros [p E']. apply Hsub in E'. congruence. }
  exists (if in_table ip c && negb (in_table ip c') then packetCost else A).
  split; try done; rewrite ?Ec; unfold replaced, strayed, pending; cbn [worker_is].
  - split; [done|]. cbn. eapply Forall_impl; [exact Hc|]. intros w. apply call_ok_keep; [by rewrite Hes|]. intros ip' p E _. by apply Hsub.
  - destruct (in_table ip c) eqn:E1, (in_table ip c') eqn:E2; (split; [done|]); try (intros E3%in_table_None; congruence).
    + cbn. intros; lia.
    + intros _. apply HL. by apply in_table_None.
  - rewrite Hlev by lia. change (cpassed ip (option_list None)) with 0. destruct (in_table ip c), (in_table ip c'); cbn [andb negb Z.b2z]; lia.
  - pose proof (countBy_bounds (missing ip) (calls c)). destruct (in_table ip c) eqn:E1, (in_table ip c') eqn:E2; cbn [andb negb Z.b2z calls c']; lia.
  - pose proof (countBy_bounds (strays ip (limiter c)) (calls c)). pose proof (countBy_bounds (strays ip (limiter c')) (calls c)). change (calls c') with (calls c).
    destruct (in_table ip c) eqn:E1, (in_table ip c') eqn:E2; cbn [andb negb Z.b2z]; try lia.
    + rewrite (strays_same ip (limiter c)); [lia|by apply Hin].
    + rewrite (strays_same ip (limiter c)); [lia|]. apply in_table_None in E1, E2. by rewrite E1, E2.
Qed.

Lemma made_inv ip e (i : nat) w' (l : list (call (Addr := Addr))) : Made ip e ∈ <[i := w']> l -> w' = Made ip e \/ Made ip e ∈ l.
Proof. intros [j [(_ & -> & _)|[_ E]]%list_lookup_insert_Some]%list_elem_of_lookup; [by left|right]. by eapply list_elem_of_lookup_2. Qed.

(** A worker that looks, or makes an entry. *)
Lemma hold_accounts ip ip' now c A i w w' : cinv c now -> allowed ip c now A -> calls c !! i = Some w ->
  w = Idle \/ (exists ip0, w = Missed ip0) -> call_ok (limiter c) now w' ->
  (missing ip w' = true -> missing ip w = true \/ in_table ip c = false) -> strays ip (limiter c) w' = false ->
  (forall e, w' = Made ip e -> lastTime e = now) ->
  accounts ip now c A (CWorker now i ip') None (mkConf (<[i := w']> (calls c)) (limiter c)) A.
Proof.
  intros [Hi Hc] [HA HL] Hw Hw0 Hok Hm Hs Hmade. set (c' := mkConf _ _). change (limiter c') with (limiter c).
  assert (inserts ip w = false /\ strays ip (limiter c) w = false) as [Ei Es] by (destruct Hw0 as [->|[? ->]]; done).
  assert (in_table ip c' = in_table ip c) as Ein by done.
  assert (replaced ip c (CWorker now i ip') = 0) as Er by (unfold replaced; cbn; rewrite Hw, Ei; by destruct (in_table ip c)).
  assert (strayed ip c (CWorker now i ip') = 0) as Est by (unfold strayed; cbn; by rewrite Hw, Es).
  split; rewrite ?Er, ?Est; unfold collected, c'; cbn [calls limiter]; try lia.
  - by rewrite length_insert.
  - split; [done|]. by apply Forall_insert.
  - split; [done|]. cbn. intros E e [Hd|Hd]%made_inv; [|by apply HL]. rewrite (Hmade _ Hd). lia.
  - change (cpassed ip (option_list None)) with 0. lia.
  - unfold pending. fold c'. rewrite Ein. cbn [calls c']. rewrite length_insert, (countBy_insert _ _ _ _ _ Hw).
    destruct (in_table ip c) eqn:E; [|lia]. destruct (missing ip w') eqn:Em'; [destruct Hm as [->|?]; [done|cbn [Z.b2z]; lia|done]|].
    destruct (missing ip w); cbn [Z.b2z]; lia.
  - rewrite (countBy_insert _ _ _ _ _ Hw), Hs, Es. cbn [Z.b2z]. lia.
Qed.

Lemma cpassed_one (ip ip' : Addr) ok : cpassed ip (option_list (Some (ip', ok))) = Z.b2z (bool_decide (ip = ip') && ok).
Proof.
  unfold cpassed. change (option_list (Some (ip', ok))) with [(ip', ok)]. destruct (decide ((ip, true) = (ip', ok))) as [E|E].
  - rewrite filter_cons_True by done. injection E as <- <-. by rewrite bool_decide_true.
  - rewrite filter_cons_False by done. case_bool_decide; [|done]. subst. by destruct ok.
Qed.

(** A worker that inserts its entry. *)
Lemma insert_accounts ip ip' now c A i ip0 e rate' : cinv c now -> allowed ip c now A -> calls c !! i = Some (Made ip0 e) ->
  inv rate' now -> entries rate' = entries (limiter c) ++ [e] ->
  table rate' = <[ip0 := length (entries (limiter c))]> (table (limiter c)) ->
  (forall ip' t, level rate' ip' t = if decide (ip0 = ip') then bucket e t else level (limiter c) ip' t) ->
  accounts ip now c A (CWorker now i ip') (Some (ip0, true)) (mkConf (<[i := Idle]> (calls c)) rate') (if decide (ip0 = ip) then 0 else A).
Proof.
  intros [Hi Hc] [HA HL] Hw Hi' Hes Ht Hlev. set (c' := mkConf _ _).
  pose proof (Forall_lookup_1 _ _ _ _ Hc Hw) as [Htk Hlast]. pose proof (lookup_lt_Some _ _ _ Hw) as Hlt.
  assert (strayed ip c (CWorker now i ip') = 0) as Est by (unfold strayed; cbn; by rewrite Hw).
  assert (replaced ip c (CWorker now i ip') = if in_table ip c then Z.b2z (bool_decide (ip = ip0)) else 0) as Er
    by (unfold replaced; cbn; by rewrite Hw).
  assert (table (limiter c') !! ip = if decide (ip0 = ip) then Some (length (entries (limiter c))) else table (limiter c) !! ip) as Ht'
    by (cbn; by rewrite Ht, lookup_insert).
  pose proof (countBy_bounds (strays ip (limiter c)) (calls c)). pose proof (level_bounds _ ip now now Hi ltac:(lia)).
  split; rewrite ?Est, ?Er, ?cpassed_one; unfold collected; cbn [calls c'].
  - by rewrite length_insert.
  - split; [done|]. cbn. apply Forall_insert; [|done]. eapply Forall_impl; [exact Hc|]. intros w. apply call_ok_keep; [rewrite Hes, length_app; lia|].
    intros ip1 p. rewrite Ht, lookup_insert.
    destruct (decide (ip0 = ip1)); [intros [= <-] ?; lia|done].
  - unfold allowed. rewrite Ht'. case_decide; (split; [first [lia|by vm_compute]|]); [done|]. cbn. intros E e' [?|?]%made_inv; [done|by apply HL].
  - cbn. rewrite Hlev. case_decide as Hd; [subst ip0; rewrite bool_decide_true by done|rewrite bool_decide_false by done; destruct (in_table ip c); cbn; lia].
    cbn [andb Z.b2z]. unfold bucket. rewrite Htk. destruct (in_table ip c) eqn:E; cbn [Z.b2z]; [change maxTokens with 250000000 in *; lia|].
    apply in_table_None in E. specialize (HL E e (list_elem_of_lookup_2 _ _ _ Hw)). unfold level. rewrite E. lia.
  - unfold pending. cbn [calls c']. rewrite length_insert. case_decide as Hd.
    + subst ip0. rewrite (in_table_Some _ _ _ Ht'), bool_decide_true by done. destruct (in_table ip c); [|pose proof (countBy_done (missing ip) (calls c) i Idle Hlt eq_refl); lia].
      rewrite (countBy_insert _ _ _ _ _ Hw). cbn [missing]. rewrite bool_decide_true by done. cbn [Z.b2z]. lia.
    + replace (in_table ip c') with (in_table ip c) by (unfold in_table; by rewrite Ht'). rewrite bool_decide_false by congruence.
      destruct (in_table ip c); [|lia]. rewrite (countBy_insert _ _ _ _ _ Hw). cbn [missing]. rewrite bool_decide_false by congruence. cbn [Z.b2z]. lia.
  - case_decide as Hd.
    + subst ip0. rewrite bool_decide_true by done. destruct (in_table ip c) eqn:E; cbn [Z.b2z].
      * pose proof (countBy_done (strays ip (limiter c')) (calls c) i Idle Hlt eq_refl). lia.
      * apply in_table_None in E. rewrite (countBy_insert _ _ _ _ _ Hw). cbn [strays Z.b2z].
        enough (countBy (strays ip (limiter c')) (calls c) <= countBy (strays ip (limiter c)) (calls c)) by lia.
        apply countBy_le. intros [|ip1 p| |] _; cbn; rewrite ?E, ?bool_decide_eq_true; naive_solver.
    + rewrite (countBy_insert _ _ _ _ _ Hw), (strays_same ip (limiter c)) by done. rewrite bool_decide_false by congruence.
      destruct (in_table ip c); cbn [strays Z.b2z]; lia.
Qed.

(** A worker that pays from the entry it found. *)
Lemma pay_accounts ip ip' now c A i ip0 p : cinv c now -> allowed ip c now A -> calls c !! i = Some (Found ip0 p) ->
  let '(ok, rate') := allowPay now p (limiter c) in
  accounts ip now c A (CWorker now i ip') (Some (ip0, ok)) (mkConf (<[i := Idle]> (calls c)) rate') A.
Proof.
  intros [Hi Hc] [HA HL] Hw. pose proof (Forall_lookup_1 _ _ _ _ Hc Hw) as [Hp Hown].
  destruct (allowPay_spec _ _ _ Hi Hp) as (rate' & -> & Hi' & Hes & Ht & Hne & Heq). set (l := bucket _ _) in *. set (c' := mkConf _ _).
  assert (strayed ip c (CWorker now i ip') = Z.b2z (strays ip (limiter c) (Found ip0 p))) as Est by (unfold strayed; cbn; by rewrite Hw).
  assert (replaced ip c (CWorker now i ip') = 0) as Er by (unfold replaced; cbn; rewrite Hw; by destruct (in_table ip c)).
  assert (table (limiter c') !! ip = table (limiter c) !! ip) as Ht' by (cbn; by rewrite Ht).
  pose proof (bucket_bounds _ _ _ now Hi Hp ltac:(lia)) as Hb. fold l in Hb.
  split; rewrite ?Est, ?Er, ?cpassed_one; unfold collected; cbn [calls c'].
  - by rewrite length_insert.
  - split; [done|]. cbn. apply Forall_insert; [|done]. eapply Forall_impl; [exact Hc|]. intros w. apply call_ok_keep; [by rewrite Hes|]. intros ip1 q. by rewrite Ht.
  - split; [done|]. rewrite Ht'. intros E e [?|?]%made_inv; [done|by apply HL].
  - unfold level, strays. rewrite Ht'. cbn [limiter c']. destruct (decide (table (limiter c) !! ip = Some p)) as [E|E].
    + rewrite E, Heq. destruct (Hown _ E). rewrite paid_bucket, (bool_decide_true (ip = ip)), (bool_decide_false (ip = ip /\ _)) by naive_solver. fold l. cbn [andb]. destruct (packetCost <? l); cbn [Z.b2z]; lia.
    + assert (match table (limiter c) !! ip with Some q => bucket (entryAt rate' q) now | None => maxTokens end
              = match table (limiter c) !! ip with Some q => bucket (entryAt (limiter c) q) now | None => maxTokens end) as ->.
      { destruct (table (limiter c) !! ip) as [q|]; [|done]. rewrite Hne; [done|congruence]. }
      case_bool_decide; [rewrite bool_decide_true by done; destruct (packetCost <? l); cbn [andb Z.b2z]; lia|]. cbn [andb Z.b2z].
      rewrite bool_decide_false by naive_solver. cbn [Z.b2z]. lia.
  - unfold pending. cbn [calls c']. replace (in_table ip c') with (in_table ip c) by (unfold in_table; by rewrite Ht').
    rewrite length_insert, (countBy_insert _ _ _ _ _ Hw). cbn [missing Z.b2z]. destruct (in_table ip c); lia.
  - rewrite (countBy_insert _ _ _ _ _ Hw), !(strays_same ip (limiter c)) by done.
    replace (strays ip (limiter c') (Found ip0 p)) with (strays ip (limiter c) (Found ip0 p)) by (cbn [strays]; by rewrite Ht').
    change (strays ip (limiter c') Idle) with false. cbn [Z.b2z]. lia.
Qed.

Lemma cstep_accounts ip c A e : cinv c (ctime e) -> allowed ip c (ctime e) A ->
  exists ans c' A', cstep c e = Some (ans, c') /\ accounts ip (ctime e) c A e ans c' A'.
Proof.
  intros Hci HA. destruct e as [now i ip'|now]; cbn [ctime cstep] in *; [|destruct (tick_accounts _ _ _ _ Hci HA) as [A' Ha]; by eexists _, _, A'].
  destruct (calls c !! i) as [w|] eqn:Hw.
  - pose proof Hci as [Hi Hc]. pose proof (Forall_lookup_1 _ _ _ _ Hc Hw) as Hok. destruct w as [|ip0 p|ip0|ip0 e].
    + eexists _, _, A. split; [reflexivity|]. unfold allowLook. destruct (table (limiter c) !! ip') as [p|] eqn:E.
      * apply (hold_accounts _ _ _ _ _ _ Idle); try done; [by left| |].
        -- split; [by eapply inv_table|]. intros ip1 E1. by eapply inv_own.
        -- cbn. apply bool_decide_eq_false. intros [-> ?]. done.
      * apply (hold_accounts _ _ _ _ _ _ Idle); try done; [by left|]. cbn. intros ->%bool_decide_eq_true. right. by apply in_table_None.
    + pose proof (pay_accounts ip ip' now c A i ip0 p Hci HA Hw) as Ha. cbn [callStep]. destruct (allowPay now p (limiter c)) as [ok rate'].
      by eexists _, _, A.
    + eexists _, _, A. split; [reflexivity|]. apply (hold_accounts _ _ _ _ _ _ (Missed ip0)); [done..| | | | |].
      * right. by eexists.
      * cbn. pose proof (inv_now _ _ Hi). lia.
      * cbn. auto.
      * done.
      * by intros e [= -> <-].
    + cbn [callStep]. destruct Hok as [Htk Hlast]. destruct (allowInsert_spec (limiter c) now ip0 e Hi) as (rate' & -> & Hi' & Hes & Ht & Hlev); [rewrite Htk; by vm_compute|done|].
      eexists _, _, _. split; [reflexivity|]. by eapply insert_accounts.
  - exists None, c, A. split; [done|]. assert (forall f, worker_is f c (CWorker now i ip') = 0) as E by (intros f; cbn; by rewrite Hw).
    split; unfold replaced, strayed, collected; rewrite ?E; try done; destruct (in_table ip c); change (cpassed ip (option_list None)) with 0; lia.
Qed.

Lemma allowed_later ip c now t A : cinv c now -> allowed ip c now A -> now <= t ->
  exists A', allowed ip c t A' /\ level (limiter c) ip t + A' <= level (limiter c) ip now + A + (t - now).
Proof.
  intros [Hi _] [HA HL] Ht. pose proof (level_later (limiter c) ip now t Ht) as Hl. destruct (table (limiter c) !! ip) as [p|] eqn:E.
  - exists A. split; [|lia]. split; [done|]. by rewrite E.
  - exists (Z.min packetCost (A + (t - now))). unfold level. rewrite E. split; [|lia]. split; [lia|]. intros _ e He. specialize (HL eq_refl e He). lia.
Qed.

Lemma cclock_le lo hi (evs : list (cevent (Addr := Addr))) : cclock_ok lo hi evs -> lo <= hi.
Proof. revert lo. induction evs as [|e evs IH]; cbn; [done|]. intros lo [? ?%IH]. lia. Qed.

(** What has been passed is paid for by the level, the elapsed time and the
    steps of overlapping calls, which are bounded by the workers. *)
Lemma crun_paid ip hi evs : hi < 2 ^ 62 -> forall c now A, cinv c now -> allowed ip c now A -> cclock_ok now hi evs -> now <= hi ->
  let k := zlen (calls c) in
  let R := total (replaced ip) c evs in let S := total (strayed ip) c evs in let C := total (collected ip) c evs in
  exists oks c', crun c evs = Some (oks, c')
    /\ packetCost * cpassed ip oks <= level (limiter c) ip now + A + (hi - now) + (maxTokens + packetCost) * R + packetCost * (S + C)
    /\ (1 <= k -> R <= pending ip c + (k - 1) * C)
    /\ S <= countBy (strays ip (limiter c)) (calls c) + (k - 1) * R + k * C.
Proof.
  intros Hhi. induction evs as [|e evs IH]; intros c now A Hci HA Hcl Hn; cbn zeta.
  - exists [], c. split; [done|]. cbn [total]. pose proof (level_bounds _ ip now now (ci_rate _ _ Hci)). pose proof (countBy_bounds (strays ip (limiter c)) (calls c)).
    pose proof (countBy_bounds (missing ip) (calls c)). destruct HA as [HA _]. unfold cpassed. cbn. unfold pending. repeat split; [lia| |lia]. intros. case_match; lia.
  - destruct Hcl as [Ht Hcl]. pose proof (cclock_le _ _ _ Hcl) as Hle.
    assert (cinv c (ctime e)) as Hci' by (eapply cinv_later; [done|lia]).
    destruct (allowed_later _ _ _ (ctime e) _ Hci HA Ht) as (A1 & HA1 & Hlev).
    destruct (cstep_accounts ip c A1 e Hci' HA1) as (ans & c' & A' & E & [Hlen Hinv Hall Hpaid Hrep Hstr]).
    destruct (IH c' (ctime e) A' Hinv Hall Hcl Hle) as (oks & c'' & E' & Hp & HR & HS).
    cbn [crun total]. rewrite E. cbn [mbind option_bind]. rewrite E'. cbn [mbind option_bind]. eexists _, _. split; [reflexivity|].
    rewrite Hlen in HR, HS. unfold cpassed in *. rewrite filter_app, length_app. nia.
Qed.
End RatelimiterOverlap.

(** ** Properties *)

(** From [Init], on any sequence of calls and ticks with a clock that does
    not run backwards, the limiter never panics and the calls are answered as
    if no tick had ever collected an entry. *)
Theorem collection_unobservable {Addr} `{Countable Addr}
    (rate0 : Ratelimiter (Addr := Addr)) (evs : list (event (Addr := Addr))) :
  Init zeroRate = Some rate0 -> clock_ok 0 evs ->
  exists oks r1 r2, run rate0 evs = Some (oks, r1) /\
    run rate0 (filter isAllow evs) = Some (oks, r2).
Proof. intros [= <-] Hc. by apply (run_same _ _ 0); try apply inv_Init. Qed.

(** C37: what one address passes between [lo] and [hi], from [Init]. When calls
    do not overlap it is at most a burst of [packetsBurstable] packets and
    [packetsPerSecond] per second: [packetCost * n <= maxTokens + (hi - lo)]. When [k]
    workers call at once, their locked parts and the collector's ticks in any order,
    the limiter still never panics, and the bound grows by a burst and a packet for every
    insertion over an entry that another call has put in ([R]), by a packet for every
    payment on an entry that has left the table ([S]) and for every collection of
    the address's entry ([C]): at most [k - 1] insertions over an entry for the first
    packet and each collection, and [S] bounded by [R] and [C]. The excess is there: see
    [overlapping_calls_pass]. *)
Theorem Allow_rate_bound {Addr} `{Countable Addr} (rate0 : Ratelimiter (Addr := Addr)) (ip : Addr) (lo hi : Z) :
  Init zeroRate = Some rate0 -> 0 <= lo <= hi -> hi < 2 ^ 62 ->
  (forall evs : list (event (Addr := Addr)), clock_ok lo evs -> (forall e, e ∈ evs -> time_of e <= hi) ->
    exists oks r, run rate0 evs = Some (oks, r) /\ packetCost * passed ip oks <= maxTokens + (hi - lo))
  /\ (forall (k : nat) (evs : list (cevent (Addr := Addr))), cclock_ok lo hi evs ->
    let c := mkConf (replicate k Idle) rate0 in
    let R := total (replaced ip) c evs in let S := total (strayed ip) c evs in let C := total (collected ip) c evs in
    exists oks c', crun c evs = Some (oks, c')
      /\ packetCost * cpassed ip oks <= maxTokens + (hi - lo) + (maxTokens + packetCost) * R + packetCost * (S + C)
      /\ (1 <= Z.of_nat k -> R <= (Z.of_nat k - 1) * (1 + C))
      /\ S <= (Z.of_nat k - 1) * R + Z.of_nat k * C).
Proof.
  intros [= <-] Hlo Hhi. assert (inv (mkRate (Addr := Addr) [] ∅ gcIdle) lo) as Hi by (apply inv_Init; lia). split.
  - intros evs Hc He. destruct (run_paid _ lo evs ip hi Hi Hc He) as (oks & r & Hr & Hp); [lia|].
    exists oks, r. split; [done|]. pose proof (level_bounds _ ip lo lo Hi). lia.
  - intros k evs Hc. cbn zeta. set (c := mkConf _ _).
    destruct (crun_paid ip hi evs Hhi c lo 0) as (oks & c' & E & Hp & HR & HS); [|split; [by vm_compute|]|done|lia|].
    + split; [done|]. by apply Forall_replicate.
    + intros _ e He. cbn in He. apply elem_of_replicate in He as [? _]. done.
    + assert (zlen (calls c) = Z.of_nat k) as Ek by (cbn; by rewrite length_replicate). rewrite Ek in HR, HS. exists oks, c'. split; [done|].
      assert (level (limiter c) ip lo = maxTokens) as El by done. rewrite El in Hp. unfold pending in HR. change (in_table ip c) with false in HR. cbn iota in HR.
      assert (countBy (strays ip (limiter c)) (calls c) = 0) as Ec by apply countBy_idle.
      rewrite Ec in HS. rewrite Ek in HR. repeat split; [lia| |lia]. intros Hk. specialize (HR Hk). lia.
Qed.

(** The collector's ticker runs exactly while the table holds an entry. *)
Theorem ticker_iff_entries {Addr} `{Countable Addr} (rate0 r : Ratelimiter (Addr := Addr))
    (evs : list (event (Addr := Addr))) (oks : list (Z * Addr * bool)) :
  Init zeroRate = Some rate0 -> clock_ok 0 evs -> run rate0 evs = Some (oks, r) ->
  (stopReset r = gcTicking <-> table r <> ∅) /\ (stopReset r = gcIdle <-> table r = ∅).
Proof.
  intros [= <-] Hc Hr.
  destruct (run_gc _ 0 _ _ _ (inv_Init 0 ltac:(lia)) Hc Hr) as [t [_ _ _ _ [[-> ?]|[-> ?]]]]; naive_solver.
Qed.

(** ** Witnesses *)

Definition sample_evs : list (event (Addr := Z)) :=
  [EAllow 1 7; EAllow 2 7; EAllow 3 7; EAllow 4 7; EAllow 5 7; EAllow 6 7; EAllow 7 8;
   ETick 2000000000; EAllow 2000000001 7].

Definition rate_init : Ratelimiter (Addr := Z) := mkRate [] ∅ gcIdle.

Lemma sample_clock : clock_ok 0 sample_evs.
Proof. simpl. lia. Qed.

Lemma collection_unobservable_witness :
  exists oks r1 r2, run rate_init sample_evs = Some (oks, r1) /\
    run rate_init (filter isAllow sample_evs) = Some (oks, r2).
Proof. exact (collection_unobservable rate_init sample_evs eq_refl sample_clock). Defined.

(** Two workers that take an address's first packets at once: both pass, and the
    second insertion fills the bucket that was paid from meanwhile. At one instant 8 packets
    pass where calls that do not overlap pass 4. *)
Definition overlapping_evs : list (cevent (Addr := Z)) :=
  [CWorker 0 0 7; CWorker 0 1 7; CWorker 0 0 7; CWorker 0 1 7; CWorker 0 0 7] ++
  concat (replicate 4 [CWorker 0 0 7; CWorker 0 0 7]) ++ [CWorker 0 1 7] ++
  concat (replicate 4 [CWorker 0 0 7; CWorker 0 0 7]).

Example overlapping_calls_pass :
  let c := mkConf [Idle; Idle] rate_init in
  (cpassed 7 <$> (fst <$> crun c overlapping_evs), total (replaced 7) c overlapping_evs) = (Some 8, 1)
  /\ (passed 7 <$> (fst <$> run rate_init (replicate 10 (EAllow 0 7)))) = Some 4.
Proof. by vm_compute. Qed.

Lemma overlapping_clock : cclock_ok 0 5 overlapping_evs.
Proof. cbn. lia. Qed.

Lemma Allow_rate_bound_witness :
  (exists oks r, run rate_init sample_evs = Some (oks, r) /\ packetCost * passed 7 oks <= maxTokens + (2000000001 - 0))
  /\ exists oks c', crun (mkConf [Idle; Idle] rate_init) overlapping_evs = Some (oks, c').
Proof.
  split.
  - apply (proj1 (Allow_rate_bound rate_init 7 0 2000000001 eq_refl ltac:(lia) ltac:(lia))); [exact sample_clock|].
    intros e He. unfold sample_evs in He. repeat (apply elem_of_cons in He as [->|He]; [simpl; lia|]).
    by apply elem_of_nil in He.
  - destruct (proj2 (Allow_rate_bound rate_init 7 0 5 eq_refl ltac:(lia) ltac:(lia)) 2%nat overlapping_evs overlapping_clock) as (oks & c' & E & _).
    by exists oks, c'.
Defined.

Lemma ticker_iff_entries_witness :
  exists oks r, run rate_init sample_evs = Some (oks, r) /\
    ((stopReset r = gcTicking <-> table r <> ∅) /\ (stopReset r = gcIdle <-> table r = ∅)).
Proof.
  eexists _, _. split; [vm_compute; reflexivity|].
  eapply (ticker_iff_entries rate_init _ sample_evs); [reflexivity|exact sample_clock|].
  vm_compute; reflexivity.
Defined.
