(* ===== verification/Checksum.v ===== *)
(** The Internet checksum of [tun/checksum.go]: 64-bit accumulation with
    carries in the byte order of the machine, and folding to 16 bits. *)
From S2P Require Import Prelude.

(** ** The code *)

(** [bits.Add64]. *)
Definition Add64 (x y carry : Z) : Z * Z :=
  let s := x + y + carry in (u64 s, s / 2 ^ 64).

(** The byte order behind [binary.NativeEndian]. *)
Inductive endian := little | big.

Section Checksum.
Variable native : endian.

Definition native_dec (b : bytes) : Z :=
  match native with little => le_dec b | big => be_dec b end.
Definition native_enc (n : nat) (x : Z) : bytes :=
  match native with little => le_enc n x | big => be_enc n x end.

(** [n] chained [Add64] of the 8-byte words of [b], the first with carry in. *)
Fixpoint addWords (n : nat) (ac carry : Z) (b : bytes) : Z * Z :=
  match n with
  | O => (ac, carry)
  | S n =>
      let '(ac, carry) := Add64 ac (native_dec (take 8 b)) carry in
      addWords n ac carry (drop 8 b)
  end.

(** A block of [n] words followed by [ac += carry]. *)
Definition addBlock (n : nat) (ac : Z) (b : bytes) : Z :=
  let '(ac, carry) := addWords n ac 0 b in u64 (ac + carry).

(** One [Add64] of the first [k < 8] bytes followed by [ac += carry]. *)
Definition addShort (k : nat) (ac : Z) (b : bytes) : Z :=
  let '(ac, carry) := Add64 ac (native_dec (take k b)) 0 in u64 (ac + carry).

(** [for len(b) >= 128]; the slice shortens, so its length is enough fuel. *)
Fixpoint blocks128 (fuel : nat) (ac : Z) (b : bytes) : Z * bytes :=
  match fuel with
  | O => (ac, b)
  | S fuel =>
      if decide (128 <= length b)%nat
      then blocks128 fuel (addBlock 16 ac b) (drop 128 b)
      else (ac, b)
  end.

(** [if len(b) >= k { ... b = b[k:] }] *)
Definition ifLen (k : nat) (add : Z -> bytes -> Z) (st : Z * bytes) : Z * bytes :=
  let '(ac, b) := st in
  if decide (k <= length b)%nat then (add ac b, drop k b) else (ac, b).

Definition lastByte (st : Z * bytes) : Z :=
  match st with
  | (ac, [x]) =>
      let '(ac, carry) := Add64 ac (native_dec [x; 0]) 0 in u64 (ac + carry)
  | (ac, _) => ac
  end.

Definition checksumNoFold (b : bytes) (initial : Z) : Z :=
  let ac := be_dec (native_enc 8 initial) in
  let st := blocks128 (length b) ac b in
  let st := ifLen 64 (addBlock 8) st in
  let st := ifLen 32 (addBlock 4) st in
  let st := ifLen 16 (addBlock 2) st in
  let st := ifLen 8 (addBlock 1) st in
  let st := ifLen 4 (addShort 4) st in
  let st := ifLen 2 (addShort 2) st in
  be_dec (native_enc 8 (lastByte st)).

Definition fold16 (ac : Z) : Z := u64 (Z.shiftr ac 16 + Z.land ac 0xffff).

Definition checksum (b : bytes) (initial : Z) : Z :=
  u16 (fold16 (fold16 (fold16 (fold16 (checksumNoFold b initial))))).

Definition pseudoHeaderChecksumNoFold (protocol : Z) (srcAddr dstAddr : bytes) (totalLen : Z) : Z :=
  let sum := checksumNoFold srcAddr 0 in
  let sum := checksumNoFold dstAddr sum in
  let sum := checksumNoFold [0; protocol] sum in
  checksumNoFold (be_enc 2 totalLen) sum.

End Checksum.

(** ** Specification: RFC 1071 *)

(** The sum of the big-endian 16-bit words, a last odd byte padded with zero. *)
Fixpoint sum16 (b : bytes) : Z :=
  match b with
  | [] => 0
  | [x] => 256 * x
  | x :: y :: b => 256 * x + y + sum16 b
  end.

(** The one's complement sum of a non-negative total: its representative in
    [0 .. 65535], where only a zero total gives zero. *)
Definition ones_complement (s : Z) : Z := if s =? 0 then 0 else (s - 1) mod 65535 + 1.

(** ** Lemmas *)

Abbreviation M := 65535.

(** Congruence modulo 65535, as a setoid with the arithmetic operations. *)
Definition eqM (a b : Z) : Prop := exists q, a = b + M * q.
#[local] Infix "==" := eqM (at level 70).

#[export] Instance eqM_equivalence : Equivalence eqM.
Proof.
  split.
  - intros a. exists 0. lia.
  - intros a b [q ->]. exists (- q). lia.
  - intros a b c [q ->] [r ->]. exists (q + r). lia.
Qed.

#[export] Instance eqM_add : Proper (eqM ==> eqM ==> eqM) Z.add.
Proof. intros a a' [q ->] b b' [r ->]. exists (q + r). lia. Qed.

#[export] Instance eqM_mul : Proper (eqM ==> eqM ==> eqM) Z.mul.
Proof. intros a a' [q ->] b b' [r ->]. exists (a' * r + b' * q + M * q * r). ring. Qed.

Lemma eqM_intro a b q : a = b + M * q -> a == b.
Proof. intros ->. by exists q. Qed.

Lemma sum16_app a b : Nat.Even (length a) -> sum16 (a ++ b) = sum16 a + sum16 b.
Proof.
  intros [n Hn]. revert a Hn. induction n as [|n IH]; intros a Hn.
  - destruct a; [done|simpl in Hn; lia].
  - destruct a as [|x [|y a]]; simpl in Hn; try lia.
    cbn [app sum16]. rewrite IH by lia. lia.
Qed.

Lemma sum16_nonneg b : all_bytes b -> 0 <= sum16 b.
Proof.
  remember (length b) as n eqn:Hn. revert b Hn.
  induction n as [n IH] using lt_wf_ind. intros [|x [|y b]] -> Hb; cbn [sum16]; [lia|..].
  - inversion_clear Hb. unfold is_byte in *. lia.
  - inversion_clear Hb as [|? ? Hx Hb']. inversion_clear Hb' as [|? ? Hy Hb].
    specialize (IH (length b) ltac:(simpl; lia) b eq_refl Hb). unfold is_byte in *. lia.
Qed.

(** Induction over the pairs of a list of even length. *)
Lemma pairs_ind (P : bytes -> Prop) :
  P [] -> (forall x y b, P b -> P (x :: y :: b)) -> forall b, Nat.Even (length b) -> P b.
Proof.
  intros H0 H2 b [n Hn]. revert b Hn. induction n as [|n IH]; intros b Hn.
  - destruct b; [done|simpl in Hn; lia].
  - destruct b as [|x [|y b]]; simpl in Hn; try lia. apply H2, IH. lia.
Qed.

(** The factor a word in the byte order of the machine carries. *)
Definition factor (native : endian) : Z := match native with little => 256 | big => 1 end.

Lemma factor_square native : factor native * factor native == 1.
Proof. destruct native; [by exists 1|by exists 0]. Qed.

Lemma pow_even (b : bytes) : Nat.Even (length b) -> 256 ^ zlen b == 1.
Proof.
  revert b. apply (pairs_ind (fun b : bytes => 256 ^ zlen b == 1)); [by exists 0|].
  intros x y b IH. cbn [length].
  rewrite !Nat2Z.inj_succ, !Z.pow_succ_r, IH by lia. by exists 1.
Qed.

Lemma le_dec_sum16 b : Nat.Even (length b) -> le_dec b == 256 * sum16 b.
Proof.
  revert b. apply (pairs_ind (fun b : bytes => le_dec b == 256 * sum16 b)); [by exists 0|].
  intros x y b IH. cbn [le_dec sum16]. rewrite IH.
  apply (eqM_intro _ _ (256 * sum16 b - x)). ring.
Qed.

Lemma be_dec_cons2 x y b :
  be_dec (x :: y :: b) = 256 ^ zlen b * (256 * x + y) + be_dec b.
Proof.
  rewrite !be_dec_cons. cbn [length]. rewrite Nat2Z.inj_succ, Z.pow_succ_r by lia. ring.
Qed.

Lemma be_dec_sum16 b : Nat.Even (length b) -> be_dec b == sum16 b.
Proof.
  intros He. apply (pairs_ind (fun b : bytes => Nat.Even (length b) /\ be_dec b == sum16 b)); [| |done].
  - split; [by exists 0%nat|by exists 0].
  - clear b He. intros x y b [He IH]. split.
    + destruct He as [n Hn]. exists (S n). simpl. lia.
    + rewrite be_dec_cons2, IH, pow_even by done. cbn [sum16]. apply (eqM_intro _ _ 0). ring.
Qed.

Lemma native_dec_sum16 native b : Nat.Even (length b) ->
  native_dec native b == factor native * sum16 b.
Proof.
  intros. destruct native; simpl; [by apply le_dec_sum16|].
  rewrite be_dec_sum16 by done. apply (eqM_intro _ _ 0). ring.
Qed.

(** ** The accumulator *)

(** [ac] accumulates the total [t]: congruent up to the byte order, and zero
    only for a zero total. *)
Definition accumulates (native : endian) (ac t : Z) : Prop :=
  0 <= ac < 2 ^ 64 /\ 0 <= t /\ ac == factor native * t /\ (ac = 0 <-> t = 0).

(** The same for an accumulator with a pending carry; the carry is never
    pending on a full accumulator, so adding it later cannot overflow. *)
Definition pending (native : endian) (ac c t : Z) : Prop :=
  0 <= ac < 2 ^ 64 /\ 0 <= c <= 1 /\ ac + c < 2 ^ 64 /\ 0 <= t /\
  ac + c == factor native * t /\ (ac + c = 0 <-> t = 0).

Lemma pow64_M : 2 ^ 64 == 1.
Proof. by exists 281479271743489. Qed.

Lemma native_dec_range native b : all_bytes b -> 0 <= native_dec native b < 256 ^ zlen b.
Proof. destruct native; [apply le_dec_range|apply be_dec_range]. Qed.

Lemma le_dec_zero b : all_bytes b -> (le_dec b = 0 <-> Forall (eq 0) b).
Proof.
  induction 1 as [|x b Hx Hb IH]; [by split|]. unfold is_byte in Hx. cbn [le_dec].
  pose proof (le_dec_range b Hb). rewrite Forall_cons, <- IH. lia.
Qed.

Lemma native_dec_zero native b : all_bytes b -> (native_dec native b = 0 <-> Forall (eq 0) b).
Proof.
  intros. destruct native; [by apply le_dec_zero|]. cbn [native_dec]. unfold be_dec.
  rewrite le_dec_zero by by apply Forall_reverse. split; [|apply Forall_reverse].
  intros Hf%Forall_reverse. by rewrite reverse_involutive in Hf.
Qed.

Lemma sum16_zero b : all_bytes b -> (sum16 b = 0 <-> Forall (eq 0) b).
Proof.
  remember (length b) as n eqn:Hn. revert b Hn.
  induction n as [n IH] using lt_wf_ind. intros [|x [|y b]] -> Hb; cbn [sum16]; [by split|..].
  - inversion_clear Hb. unfold is_byte in *. rewrite Forall_singleton. lia.
  - inversion_clear Hb as [|? ? Hx Hb']. inversion_clear Hb' as [|? ? Hy Hb].
    pose proof (sum16_nonneg b Hb). specialize (IH (length b) ltac:(simpl; lia) b eq_refl Hb).
    rewrite !Forall_cons, <- IH. unfold is_byte in *. lia.
Qed.

(** One [Add64] of an even-length word keeps the accumulator pending. *)
Lemma Add64_pending native ac c t w n :
  pending native ac c t -> all_bytes w -> length w = n -> Nat.Even n -> (n <= 8)%nat ->
  pending native (Add64 ac (native_dec native w) c).1
    (Add64 ac (native_dec native w) c).2 (t + sum16 w).
Proof.
  intros (Ha & Hc & Hs & Ht & He & Hz) Hw <- Hev Hn.
  pose proof (native_dec_range native w Hw) as Hr.
  assert (256 ^ zlen w <= 256 ^ 8) by (apply Z.pow_le_mono_r; lia).
  pose proof (native_dec_zero native w Hw) as Hz1.
  pose proof (sum16_zero w Hw) as Hz2. rewrite <- Hz2 in Hz1.
  pose proof (native_dec_sum16 native w Hev) as Hm. pose proof (sum16_nonneg w Hw).
  unfold Add64. set (x := native_dec native w) in *. cbn [fst snd].
  pose proof (Z.div_mod (ac + x + c) (2 ^ 64) ltac:(lia)) as Hdm.
  pose proof (u64_range (ac + x + c)) as Hu.
  change (u64 (ac + x + c)) with ((ac + x + c) mod 2 ^ 64) in *.
  set (q := (ac + x + c) / 2 ^ 64) in *. set (r := (ac + x + c) mod 2 ^ 64) in *.
  assert (0 <= q <= 1) by lia.
  split_and!; try lia.
  transitivity (ac + c + x).
  - apply (eqM_intro _ _ (- 281479271743489 * q)). lia.
  - rewrite He, Hm. apply (eqM_intro _ _ 0). ring.
Qed.

Lemma pending_done native ac c t :
  pending native ac c t -> accumulates native (u64 (ac + c)) t.
Proof.
  intros (Ha & Hc & Hs & Ht & He & Hz). rewrite u64_small by lia. by split_and!; try lia.
Qed.

Lemma pending_start native ac t : accumulates native ac t -> pending native ac 0 t.
Proof. intros (Ha & Ht & He & Hz). unfold pending. rewrite Z.add_0_r. by split_and!; try lia. Qed.

Lemma addWords_pending native n ac c t b :
  pending native ac c t -> all_bytes b -> (8 * n <= length b)%nat ->
  pending native (addWords native n ac c b).1 (addWords native n ac c b).2
    (t + sum16 (take (8 * n) b)).
Proof.
  revert ac c t b. induction n as [|n IH]; intros ac c t b Hp Hb Hn.
  - simpl. by rewrite Z.add_0_r.
  - cbn [addWords].
    pose proof (Add64_pending native ac c t (take 8 b) 8 Hp (Forall_take _ _ _ Hb)) as Hp'.
    rewrite length_take in Hp'. specialize (Hp' ltac:(lia) ltac:(by exists 4%nat) ltac:(lia)).
    destruct (Add64 _ _ _) as [ac' c']. cbn [fst snd] in Hp'.
    specialize (IH ac' c' _ (drop 8 b) Hp' (Forall_drop _ _ _ Hb)).
    rewrite length_drop in IH. specialize (IH ltac:(lia)).
    replace (t + sum16 (take (8 * S n) b))
      with (t + sum16 (take 8 b) + sum16 (take (8 * n) (drop 8 b))); [done|].
    replace (8 * S n)%nat with (8 + 8 * n)%nat by lia.
    rewrite <- (take_take_drop b 8 (8 * n)), sum16_app; [lia|].
    rewrite length_take. replace (8 `min` length b)%nat with 8%nat by lia. by exists 4%nat.
Qed.

(** A step that consumes [k] bytes of the input adds their 16-bit words. *)
Definition consumes (native : endian) (k : nat) (add : Z -> bytes -> Z) : Prop :=
  forall ac t b, accumulates native ac t -> all_bytes b -> (k <= length b)%nat ->
    accumulates native (add ac b) (t + sum16 (take k b)).

Lemma addBlock_consumes native n : consumes native (8 * n) (addBlock native n).
Proof.
  intros ac t b Ha Hb Hk. unfold addBlock.
  pose proof (addWords_pending native n ac 0 t b (pending_start _ _ _ Ha) Hb Hk) as Hp.
  destruct (addWords _ _ _ _ _). by apply pending_done.
Qed.

Lemma addShort_consumes native k : Nat.Even k -> (k <= 8)%nat -> consumes native k (addShort native k).
Proof.
  intros Hev Hk ac t b Ha Hb Hl. unfold addShort.
  pose proof (Add64_pending native ac 0 t (take k b) k (pending_start _ _ _ Ha)
    (Forall_take _ _ _ Hb)) as Hp.
  rewrite length_take in Hp. specialize (Hp ltac:(lia) Hev Hk).
  destruct (Add64 _ _ _). by apply pending_done.
Qed.

(** What remains of [b] and what is accumulated add up to [total], with fewer
    than [n] bytes remaining. *)
Definition partial (native : endian) (total : Z) (n : nat) (st : Z * bytes) : Prop :=
  all_bytes st.2 /\ (length st.2 < n)%nat /\ accumulates native st.1 (total - sum16 st.2).

Lemma sum16_split (k : nat) b : Nat.Even k -> (k <= length b)%nat ->
  sum16 b = sum16 (take k b) + sum16 (drop k b).
Proof.
  intros Hk Hl. rewrite <- (take_drop k b) at 1. apply sum16_app.
  rewrite length_take. by replace (k `min` length b)%nat with k by lia.
Qed.

Lemma partial_step native total n k add ac b :
  partial native total n (ac, b) -> consumes native k add -> Nat.Even k -> (k <= length b)%nat ->
  partial native total (n - k) (add ac b, drop k b).
Proof.
  intros (Hb & Hn & Ha) Hadd Hk Hl. split_and!; cbn [fst snd] in *.
  - by apply Forall_drop.
  - rewrite length_drop. lia.
  - specialize (Hadd ac _ b Ha Hb Hl). rewrite (sum16_split k b Hk Hl) in Hadd.
    by replace (total - sum16 (drop k b))
      with (total - (sum16 (take k b) + sum16 (drop k b)) + sum16 (take k b)) by lia.
Qed.

Lemma partial_ifLen native total n k add st :
  partial native total n st -> consumes native k add -> Nat.Even k -> (n <= k + k)%nat ->
  partial native total k (ifLen k add st).
Proof.
  intros Hp Hadd Hk Hn. destruct st as [ac b]. unfold ifLen. case_decide as Hl.
  - destruct (partial_step _ _ _ _ _ _ _ Hp Hadd Hk Hl) as (Hb & Hlt & Ha).
    split_and!; [done| |done]. lia.
  - destruct Hp as (Hb & Hlt & Ha). split_and!; [done| |done]. simpl. lia.
Qed.

Lemma partial_blocks128 native total fuel ac b : (length b <= fuel)%nat ->
  partial native total (S (length b)) (ac, b) ->
  partial native total 128 (blocks128 native fuel ac b).
Proof.
  revert ac b. induction fuel as [|fuel IH]; intros ac b Hf (Hb & Hn & Ha).
  - split_and!; [done| |done]. simpl in *. lia.
  - cbn [blocks128]. case_decide as Hl.
    + pose proof (partial_step native total (S (length b)) 128 (addBlock native 16) ac b) as Hs.
      destruct Hs as (Hb' & Hn' & Ha'); [done|exact (addBlock_consumes native 16)|by exists 64%nat|done|].
      apply IH; [rewrite length_drop; lia|]. split_and!; [done|simpl; lia|done].
    + split_and!; [done| |done]. simpl. lia.
Qed.

Lemma partial_lastByte native total st :
  partial native total 2 st -> accumulates native (lastByte native st) total.
Proof.
  destruct st as [ac b]. intros (Hb & Hn & Ha). cbn [fst snd] in *.
  destruct b as [|x [|y b]]; [|inversion_clear Hb as [|? ? Hx _]|simpl in Hn; lia].
  - simpl in *. by rewrite Z.sub_0_r in Ha.
  - unfold lastByte.
    pose proof (Add64_pending native ac 0 _ [x; 0] 2 (pending_start _ _ _ Ha)) as Hp.
    specialize (Hp ltac:(repeat constructor; unfold is_byte in *; lia) eq_refl
      ltac:(by exists 1%nat) ltac:(lia)).
    destruct (Add64 _ _ _). apply pending_done. cbn [fst snd sum16] in Hp.
    by replace (total - 256 * x + (256 * x + 0 + 0)) with total in Hp by lia.
Qed.

Lemma length_native_enc native n x : length (native_enc native n x) = n.
Proof. destruct native; [apply length_le_enc|apply length_be_enc]. Qed.

Lemma native_enc_bytes native n x : all_bytes (native_enc native n x).
Proof. destruct native; simpl; auto with orbitx. Qed.

Lemma native_dec_enc native n x : 0 <= x < 256 ^ Z.of_nat n ->
  native_dec native (native_enc native n x) = x.
Proof. destruct native; [apply le_dec_enc|apply be_dec_enc]. Qed.

(** Storing in the byte order of the machine and loading big-endian, on 64 bits. *)
Lemma swap64 native x : 0 <= x < 2 ^ 64 ->
  let y := be_dec (native_enc native 8 x) in
  0 <= y < 2 ^ 64 /\ y == factor native * x /\ (y = 0 <-> x = 0).
Proof.
  intros Hx y. set (l := native_enc native 8 x).
  assert (all_bytes l) as Hl by apply native_enc_bytes.
  assert (length l = 8%nat) as Hlen by apply length_native_enc.
  assert (native_dec native l = x) as Hd by (by apply native_dec_enc).
  assert (Nat.Even (length l)) as Hev by (rewrite Hlen; by exists 4%nat).
  pose proof (native_dec_zero native l Hl) as Hz. pose proof (native_dec_zero big l Hl) as Hz'.
  pose proof (be_dec_range l Hl) as Hr. rewrite Hlen in Hr.
  pose proof (native_dec_sum16 native l Hev) as Hs. rewrite Hd in *.
  split_and!; [apply Hr..| |by rewrite Hz, <- Hz'].
  rewrite Hs, Z.mul_assoc, factor_square, Z.mul_1_l. by apply be_dec_sum16.
Qed.

(** The unfolded checksum is congruent to the sum, and zero only for zero. *)
Lemma checksumNoFold_spec native b initial : all_bytes b -> 0 <= initial < 2 ^ 64 ->
  let r := checksumNoFold native b initial in
  0 <= r < 2 ^ 64 /\ r == initial + sum16 b /\ (r = 0 <-> initial + sum16 b = 0).
Proof.
  intros Hb Hi r. unfold r, checksumNoFold.
  destruct (swap64 native initial Hi) as (Hr & Hm & Hz).
  set (ac0 := be_dec (native_enc native 8 initial)) in *.
  pose proof (sum16_nonneg b Hb).
  assert (partial native (initial + sum16 b) (S (length b)) (ac0, b)) as Hp.
  { split_and!; [done|simpl; lia|]. cbn [fst snd].
    replace (initial + sum16 b - sum16 b) with initial by lia. split_and!; lia || done. }
  apply (partial_blocks128 native _ (length b)) in Hp; [|done].
  eapply (partial_ifLen _ _ _ 64) in Hp; [|exact (addBlock_consumes native 8)|by exists 32%nat|lia].
  eapply (partial_ifLen _ _ _ 32) in Hp; [|exact (addBlock_consumes native 4)|by exists 16%nat|lia].
  eapply (partial_ifLen _ _ _ 16) in Hp; [|exact (addBlock_consumes native 2)|by exists 8%nat|lia].
  eapply (partial_ifLen _ _ _ 8) in Hp; [|exact (addBlock_consumes native 1)|by exists 4%nat|lia].
  assert (Nat.Even 4) as E4 by (by exists 2%nat). assert (Nat.Even 2) as E2 by (by exists 1%nat).
  eapply (partial_ifLen _ _ _ 4) in Hp;
    [|exact (addShort_consumes native 4 E4 ltac:(lia))|done|lia].
  eapply (partial_ifLen _ _ _ 2) in Hp;
    [|exact (addShort_consumes native 2 E2 ltac:(lia))|done|lia].
  apply partial_lastByte in Hp as (Ha & Ht & Hac & Haz).
  destruct (swap64 native _ Ha) as (Hr' & Hm' & Hz').
  split_and!; [apply Hr'..| |by rewrite Hz', Haz].
  rewrite Hm', Hac, Z.mul_assoc, factor_square. by rewrite Z.mul_1_l.
Qed.

Lemma fold16_spec x : 0 <= x < 2 ^ 64 ->
  fold16 x = x / 65536 + x mod 65536 /\ fold16 x == x.
Proof.
  intros Hx. pose proof (Z.div_mod x 65536 ltac:(lia)).
  assert (fold16 x = x / 65536 + x mod 65536) as E.
  { unfold fold16. rewrite Z.shiftr_div_pow2 by lia.
    change 65535 with (2 ^ 16 - 1). rewrite land_mask by lia.
    change (2 ^ 16) with 65536. pose proof (Z.mod_pos_bound x 65536).
    apply u64_small. lia. }
  split; [done|]. rewrite E. apply (eqM_intro _ _ (- (x / 65536))). lia.
Qed.

(** Four foldings of a 64-bit number leave 16 bits, and zero only of zero. *)
Lemma fold4_spec x : 0 <= x < 2 ^ 64 ->
  let y := fold16 (fold16 (fold16 (fold16 x))) in
  0 <= y <= 65535 /\ y == x /\ (y = 0 <-> x = 0).
Proof.
  assert (forall x, 0 <= x -> 0 <= x / 65536 /\ 0 <= x mod 65536 < 65536 /\
    x = 65536 * (x / 65536) + x mod 65536) as Hdm.
  { intros y Hy. pose proof (Z.div_mod y 65536). pose proof (Z.mod_pos_bound y 65536). lia. }
  intros Hx. pose proof (Hdm x ltac:(lia)).
  destruct (fold16_spec x Hx) as [E1 C1]. set (x1 := fold16 x) in *.
  pose proof (Hdm x1 ltac:(lia)). destruct (fold16_spec x1 ltac:(lia)) as [E2 C2].
  set (x2 := fold16 x1) in *.
  pose proof (Hdm x2 ltac:(lia)). destruct (fold16_spec x2 ltac:(lia)) as [E3 C3].
  set (x3 := fold16 x2) in *.
  pose proof (Hdm x3 ltac:(lia)). destruct (fold16_spec x3 ltac:(lia)) as [E4 C4].
  set (x4 := fold16 x3) in *.
  split_and!; [lia..| |lia]. by rewrite C4, C3, C2.
Qed.

Lemma ones_complement_unique y s : 0 <= y <= 65535 -> 0 <= s ->
  y == s -> (y = 0 <-> s = 0) -> y = ones_complement s.
Proof.
  intros Hy Hs [q Hq] Hz. unfold ones_complement. zbool; [lia|].
  replace (s - 1) with (y - 1 + (- q) * 65535) by lia.
  rewrite Z.mod_add, Z.mod_small by lia. lia.
Qed.

Lemma checksum_ones native b initial : all_bytes b -> 0 <= initial < 2 ^ 64 ->
  checksum native b initial = ones_complement (initial + sum16 b).
Proof.
  intros Hb Hi. destruct (checksumNoFold_spec native b initial Hb Hi) as (Hr & Hm & Hz).
  pose proof (sum16_nonneg b Hb).
  destruct (fold4_spec _ Hr) as (Hf & Hfm & Hfz). unfold checksum.
  rewrite u16_small by lia. apply ones_complement_unique; [lia|lia| |].
  - by rewrite Hfm.
  - by rewrite Hfz.
Qed.

(** ** Properties *)

(** C38: on a machine of either byte order, [checksum] is the RFC 1071 one's
    complement sum of the buffer's big-endian 16-bit words and the initial
    value, whatever the length of the buffer. *)
Theorem checksum_rfc1071 (native : endian) (b : bytes) (initial : Z) :
  all_bytes b -> 0 <= initial < 2 ^ 64 ->
  checksum native b initial = ones_complement (initial + sum16 b).
Proof. apply checksum_ones. Qed.

(** Continuing a checksum is checksumming the concatenation: the unfolded
    sum of an even-length prefix, passed on as the initial value, gives the
    checksum of the whole, as the pseudo-header computations rely on. *)
Theorem checksum_continues (native : endian) (a b : bytes) (initial : Z) :
  all_bytes a -> all_bytes b -> Nat.Even (length a) -> 0 <= initial < 2 ^ 64 ->
  checksum native b (checksumNoFold native a initial) = checksum native (a ++ b) initial.
Proof.
  intros Ha Hb He Hi. destruct (checksumNoFold_spec native a initial Ha Hi) as (Hr & Hm & Hz).
  assert (all_bytes (a ++ b)) as Hab by by apply Forall_app_2.
  rewrite (checksum_ones _ b), (checksum_ones _ (a ++ b)), sum16_app by done.
  pose proof (sum16_nonneg a Ha). pose proof (sum16_nonneg b Hb).
  set (r := checksumNoFold native a initial) in *.
  assert (0 <= ones_complement (r + sum16 b) <= 65535 /\
    ones_complement (r + sum16 b) == r + sum16 b /\
    (ones_complement (r + sum16 b) = 0 <-> r + sum16 b = 0)) as (H1 & H2 & H3).
  { unfold ones_complement. zbool; [split_and!; [lia..|exists 0; lia|lia]|].
    pose proof (Z.mod_pos_bound (r + sum16 b - 1) 65535).
    pose proof (Z.div_mod (r + sum16 b - 1) 65535 ltac:(lia)).
    split_and!; [lia..| |lia]. apply (eqM_intro _ _ (- ((r + sum16 b - 1) / 65535))). lia. }
  apply ones_complement_unique; [done|lia| |lia].
  rewrite H2, Hm. by rewrite Z.add_assoc.
Qed.

(** ** Witnesses *)

Definition sample_header : bytes :=
  [0x45; 0; 0; 0x54; 0xa6; 0xf2; 0x40; 0; 0x40; 1; 0; 0; 0x0a; 0; 0; 1; 0x0a; 0; 0; 2; 7].

Lemma checksum_rfc1071_witness :
  checksum little sample_header 5 = checksum big sample_header 5 /\
  checksum little sample_header 5 = ones_complement (5 + sum16 sample_header).
Proof.
  split; [vm_compute; reflexivity|]. apply checksum_rfc1071; [prove_bytes|lia].
Defined.

Lemma checksum_continues_witness :
  checksum little sample_header (checksumNoFold little [255; 255; 1; 2] 77)
  = checksum little ([255; 255; 1; 2] ++ sample_header) 77.
Proof.
  apply checksum_continues; [prove_bytes|prove_bytes|by exists 2%nat|lia].
Defined.
