(* ===== verification/Messages.v ===== *)
(** The wire format of the handshake messages, [device/noise-protocol.go]:
    the message structs with [marshal] and [unmarshal], behind one interface. *)
From S2P Require Import Prelude.

(** ** Constants *)

Definition MessageInitiationType : Z := 1.
Definition MessageResponseType : Z := 2.
Definition MessageCookieReplyType : Z := 3.
Definition MessageTransportType : Z := 4.

Definition MessageInitiationSize : nat := 148.
Definition MessageResponseSize : nat := 92.
Definition MessageCookieReplySize : nat := 64.
Definition MessageTransportHeaderSize : nat := 16.
Definition TagSize : nat := 16.
Definition MessageTransportSize : nat := MessageTransportHeaderSize + TagSize.
Definition MessageKeepaliveSize : nat := MessageTransportSize.
Definition MinMessageSize : nat := MessageKeepaliveSize.

Definition MessageTransportOffsetReceiver : nat := 4.
Definition MessageTransportOffsetCounter : nat := 8.
Definition MessageTransportOffsetContent : nat := 16.

(** ** The structs; the Go arrays are lists of the array's length *)

Record MessageInitiation := mkInitiation {
  mi_Type : Z; mi_Sender : Z; mi_Ephemeral : bytes; mi_Static : bytes;
  mi_Timestamp : bytes; mi_MAC1 : bytes; mi_MAC2 : bytes }.

Record MessageResponse := mkResponse {
  mr_Type : Z; mr_Sender : Z; mr_Receiver : Z; mr_Ephemeral : bytes;
  mr_Empty : bytes; mr_MAC1 : bytes; mr_MAC2 : bytes }.

Record MessageCookieReply := mkCookieReply {
  mc_Type : Z; mc_Receiver : Z; mc_Nonce : bytes; mc_Cookie : bytes }.

Definition zeros (n : nat) : bytes := replicate n 0.

Definition zeroInitiation : MessageInitiation :=
  mkInitiation 0 0 (zeros 32) (zeros 48) (zeros 28) (zeros 16) (zeros 16).
Definition zeroResponse : MessageResponse :=
  mkResponse 0 0 0 (zeros 32) (zeros 16) (zeros 16) (zeros 16).
Definition zeroCookieReply : MessageCookieReply := mkCookieReply 0 0 (zeros 24) (zeros 32).

Inductive msgError := errMessageLengthMismatch.

(** [binary.LittleEndian.Uint32(b[off:])] and [PutUint32(b[off:], x)]. *)
Definition getU32 (b : bytes) (off : nat) : Z := le_dec (slice off (off + 4) b).
Definition putU32 (b : bytes) (off : nat) (x : Z) : bytes := copy_at b off (le_enc 4 x).

(** [copy(arr[:], b[off:])]. *)
Definition loadArr (arr b : bytes) (off : nat) : bytes := copy_at arr 0 (drop off b).

(** ** The code: [unmarshal] fills the receiver, [marshal] fills the buffer *)

Definition unmarshalInitiation (msg : MessageInitiation) (b : bytes)
    : option msgError * MessageInitiation :=
  if decide (length b <> MessageInitiationSize) then (Some errMessageLengthMismatch, msg)
  else
    let eph := loadArr (mi_Ephemeral msg) b 8 in
    let o1 := (8 + length (mi_Ephemeral msg))%nat in
    let o2 := (o1 + length (mi_Static msg))%nat in
    let o3 := (o2 + length (mi_Timestamp msg))%nat in
    let o4 := (o3 + length (mi_MAC1 msg))%nat in
    (None, mkInitiation (getU32 b 0) (getU32 b 4) eph (loadArr (mi_Static msg) b o1)
       (loadArr (mi_Timestamp msg) b o2) (loadArr (mi_MAC1 msg) b o3)
       (loadArr (mi_MAC2 msg) b o4)).

Definition marshalInitiation (msg : MessageInitiation) (b : bytes) : option msgError * bytes :=
  if decide (length b <> MessageInitiationSize) then (Some errMessageLengthMismatch, b)
  else
    let b := putU32 b 0 (mi_Type msg) in
    let b := putU32 b 4 (mi_Sender msg) in
    let o1 := (8 + length (mi_Ephemeral msg))%nat in
    let o2 := (o1 + length (mi_Static msg))%nat in
    let o3 := (o2 + length (mi_Timestamp msg))%nat in
    let o4 := (o3 + length (mi_MAC1 msg))%nat in
    let b := copy_at b 8 (mi_Ephemeral msg) in
    let b := copy_at b o1 (mi_Static msg) in
    let b := copy_at b o2 (mi_Timestamp msg) in
    let b := copy_at b o3 (mi_MAC1 msg) in
    let b := copy_at b o4 (mi_MAC2 msg) in
    (None, b).

Definition unmarshalResponse (msg : MessageResponse) (b : bytes)
    : option msgError * MessageResponse :=
  if decide (length b <> MessageResponseSize) then (Some errMessageLengthMismatch, msg)
  else
    let o1 := (12 + length (mr_Ephemeral msg))%nat in
    let o2 := (o1 + length (mr_Empty msg))%nat in
    let o3 := (o2 + length (mr_MAC1 msg))%nat in
    (None, mkResponse (getU32 b 0) (getU32 b 4) (getU32 b 8)
       (loadArr (mr_Ephemeral msg) b 12) (loadArr (mr_Empty msg) b o1)
       (loadArr (mr_MAC1 msg) b o2) (loadArr (mr_MAC2 msg) b o3)).

Definition marshalResponse (msg : MessageResponse) (b : bytes) : option msgError * bytes :=
  if decide (length b <> MessageResponseSize) then (Some errMessageLengthMismatch, b)
  else
    let b := putU32 b 0 (mr_Type msg) in
    let b := putU32 b 4 (mr_Sender msg) in
    let b := putU32 b 8 (mr_Receiver msg) in
    let o1 := (12 + length (mr_Ephemeral msg))%nat in
    let o2 := (o1 + length (mr_Empty msg))%nat in
    let o3 := (o2 + length (mr_MAC1 msg))%nat in
    let b := copy_at b 12 (mr_Ephemeral msg) in
    let b := copy_at b o1 (mr_Empty msg) in
    let b := copy_at b o2 (mr_MAC1 msg) in
    let b := copy_at b o3 (mr_MAC2 msg) in
    (None, b).

Definition unmarshalCookieReply (msg : MessageCookieReply) (b : bytes)
    : option msgError * MessageCookieReply :=
  if decide (length b <> MessageCookieReplySize) then (Some errMessageLengthMismatch, msg)
  else
    let o1 := (8 + length (mc_Nonce msg))%nat in
    (None, mkCookieReply (getU32 b 0) (getU32 b 4) (loadArr (mc_Nonce msg) b 8)
       (loadArr (mc_Cookie msg) b o1)).

Definition marshalCookieReply (msg : MessageCookieReply) (b : bytes) : option msgError * bytes :=
  if decide (length b <> MessageCookieReplySize) then (Some errMessageLengthMismatch, b)
  else
    let b := putU32 b 0 (mc_Type msg) in
    let b := putU32 b 4 (mc_Receiver msg) in
    let o1 := (8 + length (mc_Nonce msg))%nat in
    let b := copy_at b 8 (mc_Nonce msg) in
    let b := copy_at b o1 (mc_Cookie msg) in
    (None, b).

(** ** Typing: the arrays have their length and hold bytes *)

Definition array (n : nat) (l : bytes) : Prop := length l = n /\ all_bytes l.

Definition initiation_ok (m : MessageInitiation) : Prop :=
  0 <= mi_Type m < 2 ^ 32 /\ 0 <= mi_Sender m < 2 ^ 32 /\ array 32 (mi_Ephemeral m) /\
  array 48 (mi_Static m) /\ array 28 (mi_Timestamp m) /\ array 16 (mi_MAC1 m) /\
  array 16 (mi_MAC2 m).

Definition response_ok (m : MessageResponse) : Prop :=
  0 <= mr_Type m < 2 ^ 32 /\ 0 <= mr_Sender m < 2 ^ 32 /\ 0 <= mr_Receiver m < 2 ^ 32 /\
  array 32 (mr_Ephemeral m) /\ array 16 (mr_Empty m) /\ array 16 (mr_MAC1 m) /\
  array 16 (mr_MAC2 m).

Definition cookieReply_ok (m : MessageCookieReply) : Prop :=
  0 <= mc_Type m < 2 ^ 32 /\ 0 <= mc_Receiver m < 2 ^ 32 /\ array 24 (mc_Nonce m) /\
  array 32 (mc_Cookie m).

(** ** The interface the rest of the device relies on *)

Class Wire (A : Type) := {
  wire_size : nat;
  wire_ok : A -> Prop;
  wire_marshal : A -> bytes -> option msgError * bytes;
  wire_unmarshal : A -> bytes -> option msgError * A
}.

Class WireLaws (A : Type) `{Wire A} := {
  (** Printing a message and parsing the result gives the message back. *)
  wire_parse_print : forall (m r : A) (b : bytes),
    wire_ok m -> wire_ok r -> length b = wire_size ->
    exists b', wire_marshal m b = (None, b') /\ array wire_size b' /\
      wire_unmarshal r b' = (None, m);
  (** Parsing a buffer of the size and printing gives the buffer back. *)
  wire_print_parse : forall (r : A) (b b0 : bytes),
    wire_ok r -> array wire_size b -> length b0 = wire_size ->
    exists m, wire_unmarshal r b = (None, m) /\ wire_ok m /\ wire_marshal m b0 = (None, b);
  (** Any other length is refused and nothing is changed. *)
  wire_length : forall (m : A) (b : bytes), length b <> wire_size ->
    wire_marshal m b = (Some errMessageLengthMismatch, b) /\
    wire_unmarshal m b = (Some errMessageLengthMismatch, m)
}.

#[export] Instance Wire_Initiation : Wire MessageInitiation :=
  {| wire_size := MessageInitiationSize; wire_ok := initiation_ok;
     wire_marshal := marshalInitiation; wire_unmarshal := unmarshalInitiation |}.
#[export] Instance Wire_Response : Wire MessageResponse :=
  {| wire_size := MessageResponseSize; wire_ok := response_ok;
     wire_marshal := marshalResponse; wire_unmarshal := unmarshalResponse |}.
#[export] Instance Wire_CookieReply : Wire MessageCookieReply :=
  {| wire_size := MessageCookieReplySize; wire_ok := cookieReply_ok;
     wire_marshal := marshalCookieReply; wire_unmarshal := unmarshalCookieReply |}.

(** ** Lemmas *)

(** Writing at the end of an already written prefix. *)
Lemma copy_at_prefix {A} (p d s : list A) off :
  off = length p -> (length s <= length d)%nat ->
  copy_at (p ++ d) off s = (p ++ s) ++ drop (length s) d.
Proof.
  intros -> Hs. unfold copy_at. rewrite length_app.
  replace ((length p + length d - length p) `min` length s)%nat with (length s) by lia.
  rewrite take_app_length, (take_ge s), <- app_assoc by done. f_equal. f_equal.
  rewrite <- drop_drop. by rewrite drop_app_length.
Qed.

Lemma copy_at_here {A} (d s : list A) :
  (length s <= length d)%nat -> copy_at d 0 s = s ++ drop (length s) d.
Proof. intros. by apply (copy_at_prefix []). Qed.

(** Loading a whole array is slicing. *)
Lemma loadArr_slice arr b off n :
  length arr = n -> (off + n <= length b)%nat -> loadArr arr b off = slice off (off + n) b.
Proof.
  intros <- Hl. unfold loadArr, copy_at, slice. rewrite length_drop, Nat.sub_0_r.
  replace (length arr `min` (length b - off))%nat with (length arr) by lia.
  replace (off + length arr - off)%nat with (length arr) by lia.
  rewrite Nat.add_0_l, drop_all, app_nil_r. done.
Qed.

Lemma array_slice b lo hi n :
  all_bytes b -> (hi <= length b)%nat -> n = (hi - lo)%nat -> array n (slice lo hi b).
Proof. intros Hb Hl ->. split; [by apply length_slice|by apply slice_bytes]. Qed.

Lemma getU32_range b off : all_bytes b -> (off + 4 <= length b)%nat -> 0 <= getU32 b off < 2 ^ 32.
Proof.
  intros Hb Hl. unfold getU32. pose proof (le_dec_range _ (slice_bytes off (off + 4) b Hb)) as Hr.
  rewrite length_slice in Hr by done. by replace (off + 4 - off)%nat with 4%nat in Hr by lia.
Qed.

Lemma getU32_enc b off : all_bytes b -> (off + 4 <= length b)%nat ->
  le_enc 4 (getU32 b off) = slice off (off + 4) b.
Proof.
  intros Hb Hl. unfold getU32. rewrite <- (le_enc_dec (slice off (off + 4) b)) at 2
    by (by apply slice_bytes).
  rewrite length_slice by done. by replace (off + 4 - off)%nat with 4%nat by lia.
Qed.

Lemma take_split {A} (lo mid : nat) (l : list A) :
  (lo <= mid)%nat -> take lo l ++ slice lo mid l = take mid l.
Proof.
  intros. unfold slice. rewrite take_take_drop. f_equal. lia.
Qed.

(** Writing consecutive fields. *)
Fixpoint writeAll (b : bytes) (off : nat) (fs : list bytes) : bytes :=
  match fs with
  | [] => b
  | f :: fs => writeAll (copy_at b off f) (off + length f) fs
  end.

Lemma writeAll_prefix p d fs : (length (concat fs) <= length d)%nat ->
  writeAll (p ++ d) (length p) fs = p ++ concat fs ++ drop (length (concat fs)) d.
Proof.
  revert p d. induction fs as [|f fs IH]; intros p d Hl; cbn [writeAll concat]; [done|].
  cbn [concat] in Hl. rewrite length_app in Hl.
  rewrite copy_at_prefix, <- length_app, IH by (rewrite ?length_drop; lia).
  by rewrite <- !app_assoc, drop_drop, length_app.
Qed.

Lemma writeAll_full b fs : length b = length (concat fs) -> writeAll b 0 fs = concat fs.
Proof.
  intros Hl. rewrite (writeAll_prefix [] b) by lia. cbn [app].
  by rewrite drop_ge, app_nil_r by lia.
Qed.

(** Reading a field of consecutive fields. *)
Lemma slice_concat (fs : list bytes) i f lo hi :
  fs !! i = Some f -> lo = length (concat (take i fs)) -> hi = (lo + length f)%nat ->
  slice lo hi (concat fs) = f.
Proof.
  intros Hi -> ->. rewrite <- (take_drop_middle fs i f Hi) at 3.
  rewrite concat_app. cbn [concat]. by apply slice_app_mid.
Qed.

Lemma getU32_concat (fs : list bytes) i x off :
  fs !! i = Some (le_enc 4 x) -> 0 <= x < 2 ^ 32 -> off = length (concat (take i fs)) ->
  getU32 (concat fs) off = x.
Proof.
  intros Hi Hx Ho. unfold getU32. erewrite slice_concat; [|exact Hi|exact Ho|done].
  by apply le_dec_enc.
Qed.

Lemma loadArr_concat (fs : list bytes) i f arr off :
  fs !! i = Some f -> length arr = length f -> off = length (concat (take i fs)) ->
  loadArr arr (concat fs) off = f.
Proof.
  intros Hi Hl Ho. assert (off + length f <= length (concat fs))%nat as Hb.
  { rewrite <- (take_drop_middle fs i f Hi), concat_app, !length_app. cbn [concat].
    rewrite length_app. lia. }
  rewrite (loadArr_slice arr _ off (length f)) by done. by eapply slice_concat.
Qed.

(** Consecutive slices up to the end of the buffer are the buffer. *)
Fixpoint slices (b : bytes) (off : nat) (ns : list nat) : list bytes :=
  match ns with
  | [] => []
  | n :: ns => slice off (off + n) b :: slices b (off + n) ns
  end.

Lemma concat_slices b off ns : length b = (off + sum_list ns)%nat ->
  concat (slices b off ns) = drop off b.
Proof.
  revert off. induction ns as [|n ns IH]; intros off Hl; cbn [slices concat sum_list] in *.
  - by rewrite drop_ge by lia.
  - rewrite IH by (simpl in Hl; lia). unfold slice.
    replace (off + n - off)%nat with n by lia. rewrite <- drop_drop. apply take_drop.
Qed.

Ltac destruct_ok := repeat match goal with
  | H : _ /\ _ |- _ => destruct H
  | H : array _ _ |- _ => destruct H
  end.

(** The lengths in an offset, from the hypotheses on the arrays. *)
Ltac lens := unfold MessageInitiationSize, MessageResponseSize, MessageCookieReplySize; cbn [take concat]; rewrite ?length_app, ?length_le_enc; simpl; lia.


Lemma initiation_print m b : length b = MessageInitiationSize -> initiation_ok m ->
  marshalInitiation m b = (None, concat [le_enc 4 (mi_Type m); le_enc 4 (mi_Sender m);
    mi_Ephemeral m; mi_Static m; mi_Timestamp m; mi_MAC1 m; mi_MAC2 m]).
Proof.
  intros Hb Hm. unfold initiation_ok in Hm. destruct_ok. unfold marshalInitiation.
  rewrite decide_False by auto. f_equal. apply (writeAll_full b
    [le_enc 4 (mi_Type m); le_enc 4 (mi_Sender m); mi_Ephemeral m; mi_Static m;
     mi_Timestamp m; mi_MAC1 m; mi_MAC2 m]).
  rewrite Hb. cbn [concat]. rewrite !length_app, !length_le_enc. simpl. unfold MessageInitiationSize. lia.
Qed.

Lemma response_print m b : length b = MessageResponseSize -> response_ok m ->
  marshalResponse m b = (None, concat [le_enc 4 (mr_Type m); le_enc 4 (mr_Sender m);
    le_enc 4 (mr_Receiver m); mr_Ephemeral m; mr_Empty m; mr_MAC1 m; mr_MAC2 m]).
Proof.
  intros Hb Hm. unfold response_ok in Hm. destruct_ok. unfold marshalResponse.
  rewrite decide_False by auto. f_equal. apply (writeAll_full b
    [le_enc 4 (mr_Type m); le_enc 4 (mr_Sender m); le_enc 4 (mr_Receiver m); mr_Ephemeral m;
     mr_Empty m; mr_MAC1 m; mr_MAC2 m]).
  rewrite Hb. cbn [concat]. rewrite !length_app, !length_le_enc. simpl. unfold MessageResponseSize. lia.
Qed.

Lemma cookieReply_print m b : length b = MessageCookieReplySize -> cookieReply_ok m ->
  marshalCookieReply m b = (None, concat [le_enc 4 (mc_Type m); le_enc 4 (mc_Receiver m);
    mc_Nonce m; mc_Cookie m]).
Proof.
  intros Hb Hm. unfold cookieReply_ok in Hm. destruct_ok. unfold marshalCookieReply.
  rewrite decide_False by auto. f_equal. apply (writeAll_full b
    [le_enc 4 (mc_Type m); le_enc 4 (mc_Receiver m); mc_Nonce m; mc_Cookie m]).
  rewrite Hb. cbn [concat]. rewrite !length_app, !length_le_enc. simpl. unfold MessageCookieReplySize. lia.
Qed.

Lemma initiation_parse r b : length b = MessageInitiationSize -> initiation_ok r ->
  unmarshalInitiation r b = (None, mkInitiation (getU32 b 0) (getU32 b 4) (slice 8 40 b)
    (slice 40 88 b) (slice 88 116 b) (slice 116 132 b) (slice 132 148 b)).
Proof.
  intros Hb Hr. unfold initiation_ok in Hr. destruct_ok. unfold unmarshalInitiation.
  rewrite decide_False by auto. unfold MessageInitiationSize in Hb.
  repeat match goal with H : length (_ r) = _ |- _ => rewrite H end.
  do 2 f_equal; (erewrite loadArr_slice; [reflexivity|eassumption|lia]).
Qed.

Lemma response_parse r b : length b = MessageResponseSize -> response_ok r ->
  unmarshalResponse r b = (None, mkResponse (getU32 b 0) (getU32 b 4) (getU32 b 8)
    (slice 12 44 b) (slice 44 60 b) (slice 60 76 b) (slice 76 92 b)).
Proof.
  intros Hb Hr. unfold response_ok in Hr. destruct_ok. unfold unmarshalResponse.
  rewrite decide_False by auto. unfold MessageResponseSize in Hb.
  repeat match goal with H : length (_ r) = _ |- _ => rewrite H end.
  do 2 f_equal; (erewrite loadArr_slice; [reflexivity|eassumption|lia]).
Qed.

Lemma cookieReply_parse r b : length b = MessageCookieReplySize -> cookieReply_ok r ->
  unmarshalCookieReply r b =
    (None, mkCookieReply (getU32 b 0) (getU32 b 4) (slice 8 32 b) (slice 32 64 b)).
Proof.
  intros Hb Hr. unfold cookieReply_ok in Hr. destruct_ok. unfold unmarshalCookieReply.
  rewrite decide_False by auto. unfold MessageCookieReplySize in Hb.
  repeat match goal with H : length (_ r) = _ |- _ => rewrite H end.
  do 2 f_equal; (erewrite loadArr_slice; [reflexivity|eassumption|lia]).
Qed.

(** ** The codec instances *)

Lemma fields_ok (n : nat) (fs : list bytes) :
  Forall (fun f => all_bytes f) fs -> length (concat fs) = n -> array n (concat fs).
Proof. intros Hf Hl. split; [done|]. by apply Forall_concat. Qed.

(** Every field of a list of fields is bytes. *)
Ltac fields_bytes :=
  repeat first [assumption | apply le_enc_bytes | apply Forall_nil; exact I
    | apply Forall_cons; split].

(** The [i]-th field of the printed fields is the one parsed. *)
Ltac field i := first
  [ apply (getU32_concat _ i); [reflexivity|lia|lens]
  | apply (slice_concat _ i); [reflexivity|lens|lens] ].

(** The fields of a parsed message are well-typed. *)
Ltac parsed_ok := first
  [ apply array_slice; [done|lia|reflexivity]
  | apply getU32_range; [done|lia] ].

#[export] Instance WireLaws_Initiation : WireLaws MessageInitiation.
Proof.
  split; cbn [wire_size wire_ok wire_marshal wire_unmarshal Wire_Initiation];
    unfold MessageInitiationSize.
  - intros m r b Hm Hr Hb. rewrite initiation_print by done.
    eexists. split; [reflexivity|]. unfold initiation_ok in Hm. destruct_ok. split.
    + apply fields_ok; [fields_bytes|lens].
    + rewrite initiation_parse by (done || lens). destruct m.
      cbn [mi_Type mi_Sender mi_Ephemeral mi_Static mi_Timestamp mi_MAC1 mi_MAC2] in *. do 2 f_equal;
      [field 0%nat|field 1%nat|field 2%nat|field 3%nat|field 4%nat|field 5%nat|field 6%nat].
  - intros r b b0 Hr [Hb Hbb] Hb0. rewrite initiation_parse by done.
    assert (initiation_ok (mkInitiation (getU32 b 0) (getU32 b 4) (slice 8 40 b)
      (slice 40 88 b) (slice 88 116 b) (slice 116 132 b) (slice 132 148 b))) as Hok
      by (split_and!; simpl; parsed_ok).
    eexists. split; [reflexivity|]. split; [done|]. rewrite initiation_print by done.
    simpl mi_Type. simpl mi_Sender. rewrite !getU32_enc by (done || lia).
    f_equal. by apply (concat_slices b 0 [4; 4; 32; 48; 28; 16; 16]%nat).
  - intros m b Hb. unfold marshalInitiation, unmarshalInitiation. by rewrite !decide_True.
Qed.

#[export] Instance WireLaws_Response : WireLaws MessageResponse.
Proof.
  split; cbn [wire_size wire_ok wire_marshal wire_unmarshal Wire_Response];
    unfold MessageResponseSize.
  - intros m r b Hm Hr Hb. rewrite response_print by done.
    eexists. split; [reflexivity|]. unfold response_ok in Hm. destruct_ok. split.
    + apply fields_ok; [fields_bytes|lens].
    + rewrite response_parse by (done || lens). destruct m.
      cbn [mr_Type mr_Sender mr_Receiver mr_Ephemeral mr_Empty mr_MAC1 mr_MAC2] in *. do 2 f_equal;
      [field 0%nat|field 1%nat|field 2%nat|field 3%nat|field 4%nat|field 5%nat|field 6%nat].
  - intros r b b0 Hr [Hb Hbb] Hb0. rewrite response_parse by done.
    assert (response_ok (mkResponse (getU32 b 0) (getU32 b 4) (getU32 b 8)
      (slice 12 44 b) (slice 44 60 b) (slice 60 76 b) (slice 76 92 b))) as Hok
      by (split_and!; simpl; parsed_ok).
    eexists. split; [reflexivity|]. split; [done|]. rewrite response_print by done.
    simpl mr_Type. simpl mr_Sender. simpl mr_Receiver. rewrite !getU32_enc by (done || lia).
    f_equal. by apply (concat_slices b 0 [4; 4; 4; 32; 16; 16; 16]%nat).
  - intros m b Hb. unfold marshalResponse, unmarshalResponse. by rewrite !decide_True.
Qed.

#[export] Instance WireLaws_CookieReply : WireLaws MessageCookieReply.
Proof.
  split; cbn [wire_size wire_ok wire_marshal wire_unmarshal Wire_CookieReply];
    unfold MessageCookieReplySize.
  - intros m r b Hm Hr Hb. rewrite cookieReply_print by done.
    eexists. split; [reflexivity|]. unfold cookieReply_ok in Hm. destruct_ok. split.
    + apply fields_ok; [fields_bytes|lens].
    + rewrite cookieReply_parse by (done || lens). destruct m.
      cbn [mc_Type mc_Receiver mc_Nonce mc_Cookie] in *. do 2 f_equal;
      [field 0%nat|field 1%nat|field 2%nat|field 3%nat].
  - intros r b b0 Hr [Hb Hbb] Hb0. rewrite cookieReply_parse by done.
    assert (cookieReply_ok (mkCookieReply (getU32 b 0) (getU32 b 4) (slice 8 32 b)
      (slice 32 64 b))) as Hok by (split_and!; simpl; parsed_ok).
    eexists. split; [reflexivity|]. split; [done|]. rewrite cookieReply_print by done.
    simpl mc_Type. simpl mc_Receiver. rewrite !getU32_enc by (done || lia).
    f_equal. by apply (concat_slices b 0 [4; 4; 24; 32]%nat).
  - intros m b Hb. unfold marshalCookieReply, unmarshalCookieReply. by rewrite !decide_True.
Qed.

(** ** Properties *)

(** What it is for a message type that parsing inverts printing, and that a
    buffer of another length is refused with nothing changed. *)
Definition parses_back (A : Type) `{Wire A} : Prop :=
  forall (m r : A) (b : bytes), wire_ok m -> wire_ok r ->
    if decide (length b = wire_size) then
      exists b', wire_marshal m b = (None, b') /\ array wire_size b' /\
        wire_unmarshal r b' = (None, m)
    else wire_marshal m b = (Some errMessageLengthMismatch, b) /\
      wire_unmarshal m b = (Some errMessageLengthMismatch, m).

(** What it is for a message type that printing inverts parsing. *)
Definition prints_back (A : Type) `{Wire A} : Prop :=
  forall (r : A) (b b0 : bytes), wire_ok r -> array wire_size b -> length b0 = wire_size ->
    exists m, wire_unmarshal r b = (None, m) /\ wire_ok m /\ wire_marshal m b0 = (None, b).

Lemma laws_parse_back (A : Type) `{WireLaws A} : parses_back A.
Proof.
  intros m r b Hm Hr. case_decide as Hb; [by apply wire_parse_print|by apply wire_length].
Qed.

(** C39: for initiations, responses and cookie replies, unmarshalling what
    [marshal] wrote gives the message back, and both refuse any other length. *)
Theorem messages_parse_back :
  parses_back MessageInitiation /\ parses_back MessageResponse /\ parses_back MessageCookieReply.
Proof. split_and!; apply laws_parse_back; apply _. Qed.

(** For the same three types, marshalling what [unmarshal] read from any
    buffer of the message's size gives that buffer back: every byte of the
    wire format is accounted for. *)
Theorem messages_print_back :
  prints_back MessageInitiation /\ prints_back MessageResponse /\ prints_back MessageCookieReply.
Proof. split_and!; intros r b b0; apply wire_print_parse. Qed.
