(* ===== verification/NoiseHelpers.v ===== *)
(** Keys, HMAC, the key derivation functions and Curve25519 use of
    [device/noise-helpers.go] and [device/noise-types.go], over an interface
    for the primitives of golang.org/x/crypto. *)
From S2P Require Import Prelude Messages.

(** ** The primitives of golang.org/x/crypto *)

Class Crypto := {
  (** [blake2s.New256(nil)], everything written, [Sum] *)
  blake2s256 : bytes -> bytes;
  (** [blake2s.New128(key)], everything written, [Sum] *)
  blake2s128 : bytes -> bytes -> bytes;
  (** [chacha20poly1305.New(key)]: [Seal] and [Open] with nonce and data *)
  aead_seal : bytes -> bytes -> bytes -> bytes -> bytes;
  aead_open : bytes -> bytes -> bytes -> bytes -> option bytes;
  (** [chacha20poly1305.NewX(key)] *)
  xaead_seal : bytes -> bytes -> bytes -> bytes -> bytes;
  xaead_open : bytes -> bytes -> bytes -> bytes -> option bytes;
  (** [curve25519.ScalarBaseMult] and [curve25519.ScalarMult] *)
  scalarBaseMult : bytes -> bytes;
  scalarMult : bytes -> bytes -> bytes
}.

(** Their documented behaviour: sizes, decryption inverts encryption, and
    Diffie-Hellman agreement. *)
Class CryptoLaws (C : Crypto) := {
  blake2s256_array : forall m, array 32 (blake2s256 m);
  blake2s128_array : forall k m, array 16 (blake2s128 k m);
  aead_seal_length : forall k n p a, length (aead_seal k n p a) = (length p + TagSize)%nat;
  aead_open_seal : forall k n p a, aead_open k n (aead_seal k n p a) a = Some p;
  aead_open_bytes : forall k n c a p, all_bytes c -> aead_open k n c a = Some p -> all_bytes p;
  xaead_seal_length : forall k n p a, length (xaead_seal k n p a) = (length p + TagSize)%nat;
  xaead_open_seal : forall k n p a, xaead_open k n (xaead_seal k n p a) a = Some p;
  scalarBaseMult_length : forall a, length (scalarBaseMult a) = 32%nat;
  scalarMult_length : forall a p, length (scalarMult a p) = 32%nat;
  scalarMult_agree : forall a b, scalarMult a (scalarBaseMult b) = scalarMult b (scalarBaseMult a)
}.

(** ** The code *)

Definition NoisePublicKeySize : nat := 32.
Definition NoisePrivateKeySize : nat := 32.
Definition NoisePresharedKeySize : nat := 32.

Definition ZeroNonce : bytes := zeros 12.
Definition zeroKey : bytes := zeros 32.

Section NoiseHelpers.
Context `{C : Crypto}.

(** [hmac.New(blake2s.New256, key)] of the standard library: block size 64. *)
Definition xorPad (pad : Z) (key : bytes) : bytes :=
  (fun b => Z.lxor b pad) <$> copy_at (zeros 64) 0 key.

Definition hmac (key msg : bytes) : bytes :=
  let key := if decide (64 < length key)%nat then blake2s256 key else key in
  blake2s256 (xorPad 0x5c key ++ blake2s256 (xorPad 0x36 key ++ msg)).

Definition HMAC1 (key in0 : bytes) : bytes := hmac key in0.
Definition HMAC2 (key in0 in1 : bytes) : bytes := hmac key (in0 ++ in1).

Definition KDF1 (key input : bytes) : bytes :=
  let t0 := HMAC1 key input in
  HMAC1 t0 [0x1].

Definition KDF2 (key input : bytes) : bytes * bytes :=
  let prk := HMAC1 key input in
  let t0 := HMAC1 prk [0x1] in
  let t1 := HMAC2 prk t0 [0x2] in
  (t0, t1).

Definition KDF3 (key input : bytes) : bytes * bytes * bytes :=
  let prk := HMAC1 key input in
  let t0 := HMAC1 prk [0x1] in
  let t1 := HMAC2 prk t0 [0x2] in
  let t2 := HMAC2 prk t1 [0x3] in
  (t0, t1, t2).

(** [subtle.ConstantTimeByteEq] of the standard library. *)
Definition ConstantTimeByteEq (x y : Z) : Z := if x =? y then 1 else 0.

Definition isZero (val : bytes) : bool :=
  let acc := foldl (fun acc b => Z.land acc (ConstantTimeByteEq b 0)) 1 val in
  acc =? 1.

Definition setZero (arr : bytes) : bytes := zeros (length arr).

(** [sk[0] &= 248; sk[31] = (sk[31] & 127) | 64] *)
Definition clamp (sk : bytes) : bytes :=
  let sk := <[0%nat := Z.land (nth 0 sk 0) 248]> sk in
  <[31%nat := Z.lor (Z.land (nth 31 sk 0) 127) 64]> sk.

(** [rnd] is what [crypto/rand.Read] filled the key with, [None] its error
    (which leaves the zero key, clamped all the same). *)
Definition newPrivateKey (rnd : option bytes) : bytes * bool :=
  match rnd with
  | Some b => (clamp (copy_at zeroKey 0 b), true)
  | None => (clamp zeroKey, false)
  end.

Definition publicKey (sk : bytes) : bytes := scalarBaseMult sk.

(** The secret and whether it is usable ([errInvalidPublicKey] otherwise). *)
Definition sharedSecret (sk pk : bytes) : bytes * bool :=
  let ss := scalarMult sk pk in
  (ss, negb (isZero ss)).

Definition keyEquals (key tar : bytes) : bool := bytes_eqb key tar.
Definition keyIsZero (key : bytes) : bool := keyEquals key zeroKey.

(** [hex.DecodeString] of the standard library. *)
Definition hexDigit (c : Z) : option Z :=
  if (48 <=? c) && (c <=? 57) then Some (c - 48)
  else if (97 <=? c) && (c <=? 102) then Some (c - 87)
  else if (65 <=? c) && (c <=? 70) then Some (c - 55)
  else None.

Fixpoint hexDecode (src : bytes) : option bytes :=
  match src with
  | [] => Some []
  | [_] => None
  | a :: b :: src =>
      x ← hexDigit a; y ← hexDigit b; l ← hexDecode src; Some (16 * x + y :: l)
  end.

(** The destination after the call, and whether there was no error. *)
Definition loadExactHex (dst src : bytes) : bytes * bool :=
  match hexDecode src with
  | None => (dst, false)
  | Some slice =>
      if decide (length slice <> length dst) then (dst, false)
      else (copy_at dst 0 slice, true)
  end.

Definition privateKeyFromHex (key src : bytes) : bytes * bool :=
  let '(key, ok) := loadExactHex key src in (clamp key, ok).

Definition privateKeyFromMaybeZeroHex (key src : bytes) : bytes * bool :=
  let '(key, ok) := loadExactHex key src in
  if keyIsZero key then (key, ok) else (clamp key, ok).

Definition publicKeyFromHex (key src : bytes) : bytes * bool := loadExactHex key src.
Definition presharedKeyFromHex (key src : bytes) : bytes * bool := loadExactHex key src.

(** [mixKey] and [mixHash] of [noise-protocol.go]. *)
Definition mixKey (c data : bytes) : bytes := KDF1 c data.
Definition mixHash (h data : bytes) : bytes := blake2s256 (h ++ data).

End NoiseHelpers.

(** ** Lemmas *)

(** A key that has been clamped: multiple of 8, top bit clear, second bit set. *)
Definition clamped (sk : bytes) : Prop :=
  length sk = 32%nat /\ nth 0 sk 0 mod 8 = 0 /\ 64 <= nth 31 sk 0 < 128.

Lemma byte_cases (P : Z -> bool) :
  forallb P (seqZ 0 256) = true -> forall b, is_byte b -> P b = true.
Proof.
  intros HP b Hb. rewrite forallb_forall in HP. apply HP.
  apply list_elem_of_In, elem_of_seqZ. unfold is_byte in Hb. lia.
Qed.

Lemma clamp_first b : is_byte b -> Z.land b 248 mod 8 = 0 /\ is_byte (Z.land b 248).
Proof.
  intros Hb. pose proof (byte_cases (fun b => (Z.land b 248 mod 8 =? 0) &&
    (0 <=? Z.land b 248) && (Z.land b 248 <? 256)) eq_refl b Hb) as H.
  rewrite !andb_true_iff, Z.eqb_eq, Z.leb_le, Z.ltb_lt in H. unfold is_byte. lia.
Qed.

Lemma clamp_last b : is_byte b -> 64 <= Z.lor (Z.land b 127) 64 < 128.
Proof.
  intros Hb. pose proof (byte_cases (fun b => (64 <=? Z.lor (Z.land b 127) 64) &&
    (Z.lor (Z.land b 127) 64 <? 128)) eq_refl b Hb) as H.
  rewrite andb_true_iff, Z.leb_le, Z.ltb_lt in H. lia.
Qed.

Lemma nth_byte i (l : bytes) : all_bytes l -> is_byte (nth i l 0).
Proof.
  intros Hl. rewrite nth_lookup. destruct (l !! i) eqn:E; [|done].
  by eapply Forall_lookup_1 in Hl.
Qed.

Lemma clamp_clamped sk : array 32 sk -> clamped (clamp sk).
Proof.
  intros [Hl Hb]. unfold clamp, clamped.
  split; [by rewrite !length_insert|split].
  - rewrite nth_lookup, list_lookup_insert_ne, list_lookup_insert_eq by (done || lia).
    by apply clamp_first, nth_byte.
  - rewrite (nth_lookup _ 31 0), list_lookup_insert_eq by (rewrite length_insert; lia).
    apply clamp_last, nth_byte, Forall_insert; [done|]. by apply clamp_first, nth_byte.
Qed.

Lemma isZero_spec val : all_bytes val -> isZero val = bool_decide (Forall (eq 0) val).
Proof.
  intros _. unfold isZero.
  assert (forall acc, acc = 0 \/ acc = 1 ->
    (foldl (fun acc b => Z.land acc (ConstantTimeByteEq b 0)) acc val =? 1)
    = (acc =? 1) && bool_decide (Forall (eq 0) val)) as H; [|by apply (H 1); right].
  induction val as [|b val IH]; intros acc Hacc; cbn [foldl].
  - rewrite bool_decide_eq_true_2 by constructor. by rewrite andb_true_r.
  - unfold ConstantTimeByteEq at 2. rewrite IH by (destruct Hacc as [-> | ->]; zbool; auto).
    destruct (Z.eqb_spec b 0) as [->|Hb].
    + rewrite (bool_decide_ext (Forall (eq 0) (0 :: val)) (Forall (eq 0) val))
        by (rewrite Forall_cons; tauto).
      by destruct Hacc as [-> | ->].
    + rewrite (bool_decide_eq_false_2 (Forall (eq 0) (b :: val)))
        by (rewrite Forall_cons; intros [? _]; congruence).
      rewrite andb_false_r. by destruct Hacc as [-> | ->].
Qed.
