(* ===== verification/ToyCrypto.v ===== *)
(** A concrete instance of the primitives that satisfies their laws, at which
    the theorems over [Crypto] are evaluated.  It is not secure and stands for
    no code: it shows that the laws can hold and that the model computes. *)
From S2P Require Import Prelude Messages NoiseHelpers.

Definition toyHash (n : nat) (m : bytes) : bytes :=
  le_enc n ((2 ^ 256 - 1) / (2 ^ 32 - 1) *
    foldl (fun acc b => (acc * 16777619 + b + 7) mod 2 ^ 32) 2166136261 m).

Definition toyTag (k n a : bytes) : bytes := toyHash TagSize (k ++ n ++ a).

Definition toySeal (k n p a : bytes) : bytes := p ++ toyTag k n (p ++ a).

Definition toyOpen (k n c a : bytes) : option bytes :=
  let p := take (length c - TagSize) c in
  if bytes_eqb (drop (length c - TagSize) c) (toyTag k n (p ++ a)) then Some p else None.

Definition toyMult (a p : bytes) : bytes := le_enc 32 (le_dec a * le_dec p).

#[export] Instance toyCrypto : Crypto := {|
  blake2s256 m := toyHash 32 m;
  blake2s128 k m := toyHash 16 (k ++ m);
  aead_seal := toySeal;
  aead_open := toyOpen;
  xaead_seal := toySeal;
  xaead_open := toyOpen;
  scalarBaseMult a := le_enc 32 (9 * le_dec a);
  scalarMult := toyMult
|}.

Lemma toyHash_array n m : array n (toyHash n m).
Proof. split; [apply length_le_enc|apply le_enc_bytes]. Qed.

Lemma toySeal_length k n p a : length (toySeal k n p a) = (length p + TagSize)%nat.
Proof. unfold toySeal, toyTag, toyHash. by rewrite length_app, length_le_enc. Qed.

Lemma toyOpen_seal k n p a : toyOpen k n (toySeal k n p a) a = Some p.
Proof.
  unfold toyOpen. rewrite toySeal_length. unfold toySeal.
  replace (length p + TagSize - TagSize)%nat with (length p) by lia.
  rewrite take_app_length, drop_app_length. by rewrite bytes_eqb_refl.
Qed.

(** Encoding reads its number only modulo the width. *)
Lemma le_enc_mod n x : le_enc n (x mod 256 ^ Z.of_nat n) = le_enc n x.
Proof.
  revert x. induction n as [|n IH]; intros x; [done|].
  rewrite Nat2Z.inj_succ, Z.pow_succ_r by lia. cbn [le_enc].
  assert (0 < 256 ^ Z.of_nat n) by (apply Z.pow_pos_nonneg; lia). f_equal.
  - rewrite Z.rem_mul_r, Z.mul_comm, Z.mod_add, Z.mod_mod by lia. done.
  - rewrite Z.rem_mul_r, Z.mul_comm, Z.div_add by lia.
    rewrite Z.div_small by (apply Z.mod_pos_bound; lia). rewrite Z.add_0_l. apply IH.
Qed.

Lemma le_dec_enc_mod n x : le_dec (le_enc n x) = x mod 256 ^ Z.of_nat n.
Proof.
  rewrite <- le_enc_mod, le_dec_enc; [done|]. apply Z.mod_pos_bound.
  apply Z.pow_pos_nonneg; lia.
Qed.

#[export] Instance toyLaws : CryptoLaws toyCrypto.
Proof.
  split; intros; cbn [blake2s256 blake2s128 aead_seal aead_open xaead_seal xaead_open
    scalarBaseMult scalarMult toyCrypto].
  - apply toyHash_array.
  - apply toyHash_array.
  - apply toySeal_length.
  - apply toyOpen_seal.
  - match goal with H : aead_open _ _ _ _ = Some _ |- _ => revert H end. cbn [aead_open toyCrypto].
    unfold toyOpen. case_match; [|done]. intros [= <-].
    by apply Forall_take.
  - apply toySeal_length.
  - apply toyOpen_seal.
  - apply length_le_enc.
  - apply length_le_enc.
  - unfold toyMult. rewrite !le_dec_enc_mod.
    rewrite <- (le_enc_mod 32 (le_dec a * _)), <- (le_enc_mod 32 (le_dec b * _)).
    rewrite !Z.mul_mod_idemp_r by done. do 2 f_equal. ring.
Qed.
