(* ===== verification/Text.v ===== *)
(** Text as the configuration protocol reads and writes it: the parts of Go's
    [strings], [strconv], [encoding/hex] and [bufio] that the source calls, and
    what printing and parsing back gives. *)
From S2P Require Import Prelude Messages NoiseHelpers.

(** ** Characters *)

Definition isDigit (c : Z) : bool := (48 <=? c) && (c <=? 57).

(** ** [strings.Cut], [strings.LastIndexByte] *)

(** What is before and after the first [sep], if there is one. *)
Fixpoint cutAt (sep : Z) (s : bytes) : option (bytes * bytes) :=
  match s with
  | [] => None
  | c :: s =>
      if c =? sep then Some ([], s)
      else match cutAt sep s with Some (a, b) => Some (c :: a, b) | None => None end
  end.

(** The same around the last [sep]. *)
Definition cutLast (sep : Z) (s : bytes) : option (bytes * bytes) :=
  match cutAt sep (reverse s) with
  | Some (a, b) => Some (reverse b, reverse a)
  | None => None
  end.

(** ** [strconv] *)

(** The digits of a number at most [max], after those that gave [n]. *)
Fixpoint parseDigits (max n : Z) (s : bytes) : option Z :=
  match s with
  | [] => Some n
  | c :: s =>
      if isDigit c then
        let n := 10 * n + (c - 48) in
        if n >? max then None else parseDigits max n s
      else None
  end.

(** [strconv.ParseUint(s, 10, bitSize)] *)
Definition ParseUint (s : bytes) (bitSize : Z) : option Z :=
  match s with [] => None | _ => parseDigits (2 ^ bitSize - 1) 0 s end.

(** [strconv.Atoi] *)
Definition Atoi (s : bytes) : option Z :=
  match s with
  | 45 :: ((_ :: _) as s) => n ← parseDigits (2 ^ 63) 0 s; Some (- n)
  | 43 :: ((_ :: _) as s) => parseDigits (2 ^ 63 - 1) 0 s
  | _ :: _ => parseDigits (2 ^ 63 - 1) 0 s
  | [] => None
  end.

(** The decimal digits of a number; each round divides by ten. *)
Fixpoint decimal (fuel : nat) (n : Z) : bytes :=
  match fuel with
  | O => []
  | S fuel => if n <? 10 then [48 + n] else decimal fuel (n / 10) ++ [48 + n mod 10]
  end.
(** [strconv.Itoa], [%d] of a number that is not negative *)
Definition Itoa (n : Z) : bytes := decimal (S (Z.to_nat (Z.log2 n))) n.
(** [%d] of an [int64] *)
Definition printInt (n : Z) : bytes := if n <? 0 then 45 :: Itoa (- n) else Itoa n.

(** ** Hexadecimal *)

Definition hexChar (d : Z) : Z := if d <? 10 then 48 + d else 87 + d.

(** The digits of a key, as [keyf] writes them. *)
Definition hexEncode (key : bytes) : bytes :=
  concat ((fun b => [hexChar (Z.shiftr b 4); hexChar (Z.land b 15)]) <$> key).

(** ** [bufio.Scanner] with [bufio.ScanLines] *)

Definition MaxScanTokenSize : nat := Z.to_nat 65536.

Definition dropCR (line : bytes) : bytes :=
  match reverse line with 13 :: l => reverse l | _ => line end.

Inductive scanned := ScanLine (line rest : bytes) | ScanEnd | ScanTooLong.

(** One call of [Scan]: the newline must be among the bytes that fit in the
    buffer; without one, a full buffer is an error and the rest is the last line. *)
Definition Scan (s : bytes) : scanned :=
  match cutAt 10 (take MaxScanTokenSize s) with
  | Some (line, _) => ScanLine (dropCR line) (drop (S (length line)) s)
  | None =>
      if (MaxScanTokenSize <=? length s)%nat then ScanTooLong
      else match s with [] => ScanEnd | _ => ScanLine (dropCR s) [] end
  end.

(** ** Lemmas *)

Lemma cutAt_app sep a b : sep ∉ a -> cutAt sep (a ++ sep :: b) = Some (a, b).
Proof.
  induction a as [|c a IH]; intros H; cbn [app cutAt]; [by rewrite Z.eqb_refl|].
  apply not_elem_of_cons in H as [Hc H]. destruct (Z.eqb_spec c sep) as [->|_]; [done|]. by rewrite IH.
Qed.

Lemma cutAt_none sep s : sep ∉ s -> cutAt sep s = None.
Proof.
  induction s as [|c s IH]; intros H; cbn [cutAt]; [done|]. apply not_elem_of_cons in H as [Hc H].
  destruct (Z.eqb_spec c sep) as [->|_]; [done|]. by rewrite IH.
Qed.

Lemma cutAt_some sep s a b : cutAt sep s = Some (a, b) -> s = a ++ sep :: b /\ sep ∉ a.
Proof.
  revert a b. induction s as [|c s IH]; intros a b; cbn [cutAt]; [done|].
  destruct (Z.eqb_spec c sep) as [->|Hc].
  - intros [= <- <-]. split; [done|]. apply not_elem_of_nil.
  - destruct (cutAt sep s) as [[a' b']|]; [|done]. intros [= <- <-].
    destruct (IH a' b' eq_refl) as [-> H]. split; [done|]. apply not_elem_of_cons. by split.
Qed.

Lemma cutLast_app sep a b : sep ∉ b -> cutLast sep (a ++ sep :: b) = Some (a, b).
Proof.
  intros H. unfold cutLast. rewrite reverse_app, reverse_cons, <- app_assoc. cbn [app].
  rewrite cutAt_app by by rewrite elem_of_reverse. by rewrite !reverse_involutive.
Qed.

(** ** Decimal *)

Definition digits (s : bytes) : Prop := Forall (fun c => isDigit c = true) s.

Lemma isDigit_val c : isDigit c = true <-> 48 <= c <= 57.
Proof. unfold isDigit. rewrite andb_true_iff, !Z.leb_le. lia. Qed.

(** The value of a numeral, after the digits that gave [n]. *)
Definition valueFrom (n : Z) (s : bytes) : Z := foldl (fun n c => 10 * n + (c - 48)) n s.

Lemma valueFrom_mono n s : 0 <= n -> digits s -> n <= valueFrom n s.
Proof.
  intros Hn Hs. revert n Hn. induction Hs as [|c s Hc Hs IH]; intros n Hn; [done|].
  apply isDigit_val in Hc. cbn [valueFrom foldl]. specialize (IH (10 * n + (c - 48)) ltac:(lia)).
  unfold valueFrom in IH. lia.
Qed.

Lemma parseDigits_value max n s : 0 <= n -> digits s -> valueFrom n s <= max ->
  parseDigits max n s = Some (valueFrom n s).
Proof.
  intros Hn Hs. revert n Hn. induction Hs as [|c s Hc Hs IH]; intros n Hn Hv; [done|].
  cbn [parseDigits]. rewrite Hc. apply isDigit_val in Hc. cbn [valueFrom foldl] in Hv |- *.
  pose proof (valueFrom_mono (10 * n + (c - 48)) s ltac:(lia) Hs) as Hm. unfold valueFrom in Hm.
  rewrite Z.gtb_ltb, (proj2 (Z.ltb_ge _ _)) by lia. apply IH; [lia|exact Hv].
Qed.

Lemma decimal_spec fuel n : 0 <= n < 2 ^ Z.of_nat fuel ->
  digits (decimal fuel n) /\ valueFrom 0 (decimal fuel n) = n /\
  (decimal fuel n <> [] \/ n = 0 /\ fuel = 0%nat).
Proof.
  revert n. induction fuel as [|fuel IH]; intros n Hn.
  - cbn in Hn. split_and!; [constructor|cbn; lia|right; lia].
  - cbn [decimal]. rewrite Nat2Z.inj_succ, Z.pow_succ_r in Hn by lia.
    destruct (Z.ltb_spec n 10).
    + split_and!; [|cbn; lia|by left]. constructor; [|constructor]. apply isDigit_val. lia.
    + pose proof (Z.div_mod n 10 ltac:(lia)). pose proof (Z.mod_pos_bound n 10 ltac:(lia)).
      destruct (IH (n / 10)) as (HA & HB & _); [lia|]. split_and!.
      * apply Forall_app. split; [done|]. constructor; [|constructor]. apply isDigit_val. lia.
      * unfold valueFrom in *. rewrite foldl_app, HB. cbn. lia.
      * left. by destruct (decimal fuel (n / 10)).
Qed.

Lemma Itoa_spec n : 0 <= n -> digits (Itoa n) /\ valueFrom 0 (Itoa n) = n /\ Itoa n <> [].
Proof.
  intros Hn. unfold Itoa. destruct (decimal_spec (S (Z.to_nat (Z.log2 n))) n) as (H1 & H2 & H3).
  - rewrite Nat2Z.inj_succ, Z2Nat.id by apply Z.log2_nonneg. split; [done|].
    destruct (Z.eq_dec n 0) as [->|]; [done|]. by apply Z.log2_spec; lia.
  - split_and!; [done|done|]. by destruct H3 as [?|[_ ?]].
Qed.

Lemma parseDigits_Itoa max n : 0 <= n <= max -> parseDigits max 0 (Itoa n) = Some n.
Proof.
  intros H. destruct (Itoa_spec n ltac:(lia)) as (Hd & Hv & _).
  rewrite parseDigits_value; rewrite ?Hv; [done|lia|done|lia].
Qed.

Lemma ParseUint_Itoa n bitSize : 0 <= n < 2 ^ bitSize -> ParseUint (Itoa n) bitSize = Some n.
Proof.
  intros H. pose proof (parseDigits_Itoa (2 ^ bitSize - 1) n ltac:(lia)) as E.
  destruct (Itoa_spec n ltac:(lia)) as (_ & _ & Hne). unfold ParseUint. by destruct (Itoa n).
Qed.

(** Signs are read, and numbers that are printed are read back. *)
Example Atoi_signs : Atoi (of_string "-12") = Some (-12) /\ Atoi (of_string "+12") = Some 12 /\ Atoi (of_string "-") = None.
Proof. by vm_compute. Qed.

Lemma Atoi_Itoa n : 0 <= n < 2 ^ 63 -> Atoi (Itoa n) = Some n.
Proof.
  intros Hn. destruct (Itoa_spec n) as (Hd & _ & Hne); [lia|]. pose proof (parseDigits_Itoa (2 ^ 63 - 1) n ltac:(lia)) as Hp.
  unfold Atoi. destruct (Itoa n) as [|c s]; [done|]. inversion Hd as [|? ? Hc _]; subst. apply isDigit_val in Hc.
  destruct c as [|c|c]; [done| |lia]. do 6 (destruct c as [c|c|]; try done); exfalso; lia.
Qed.

Lemma ParseUint_range s bitSize n : 0 <= bitSize -> ParseUint s bitSize = Some n -> 0 <= n < 2 ^ bitSize.
Proof.
  intros Hb. assert (forall s m n, 0 <= m < 2 ^ bitSize -> parseDigits (2 ^ bitSize - 1) m s = Some n ->
    0 <= n < 2 ^ bitSize) as H.
  { clear s n. intros s. induction s as [|c s IH]; intros m n Hm; cbn [parseDigits]; [by intros [= <-]|].
    destruct (isDigit c) eqn:Ec; [|done]. apply isDigit_val in Ec. rewrite Z.gtb_ltb.
    destruct (Z.ltb_spec (2 ^ bitSize - 1) (10 * m + (c - 48))); [done|]. apply IH. lia. }
  unfold ParseUint. destruct s; [done|]. apply H. pose proof (Z.pow_pos_nonneg 2 bitSize). lia.
Qed.

(** A digit is none of the separators. *)
Lemma digits_free s c : digits s -> isDigit c = false -> c ∉ s.
Proof. intros Hs Hc Hin. rewrite (proj1 (Forall_forall _ _) Hs c Hin) in Hc. done. Qed.

(** ** Hexadecimal *)

Lemma hexDigit_hexChar d : 0 <= d < 16 -> hexDigit (hexChar d) = Some d.
Proof.
  intros H. assert (d ∈ seqZ 0 16) as Hd by (apply elem_of_seqZ; lia).
  clear H. revert d Hd.
  apply (Forall_forall (fun d => hexDigit (hexChar d) = Some d)). vm_compute. repeat constructor.
Qed.

Lemma hexDecode_hexEncode key : all_bytes key -> hexDecode (hexEncode key) = Some key.
Proof.
  induction 1 as [|b key Hb _ IH]; [done|]. unfold is_byte in Hb. unfold hexEncode in *.
  cbn [fmap list_fmap concat app hexDecode].
  assert (Z.shiftr b 4 = b / 16) as -> by by rewrite Z.shiftr_div_pow2.
  assert (Z.land b 15 = b mod 16) as -> by (by apply (land_mask b 4)).
  pose proof (Z.div_mod b 16 ltac:(lia)). pose proof (Z.mod_pos_bound b 16 ltac:(lia)).
  rewrite !hexDigit_hexChar by lia. cbn [mbind option_bind]. rewrite IH. cbn. do 2 f_equal. lia.
Qed.

Lemma hexEncode_free key c : all_bytes key -> hexDigit c = None -> c ∉ hexEncode key.
Proof.
  intros Hk Hc Hin. unfold hexEncode in Hin. apply list_elem_of_In, in_concat in Hin as (l & Hl & Hin).
  apply list_elem_of_In, list_elem_of_fmap in Hl as (b & -> & Hb).
  assert (is_byte b) as [H1 H2] by by eapply (proj1 (Forall_forall _ _)).
  assert (Z.shiftr b 4 = b / 16) as E1 by by rewrite Z.shiftr_div_pow2.
  assert (Z.land b 15 = b mod 16) as E2 by (by apply (land_mask b 4)).
  pose proof (Z.div_mod b 16 ltac:(lia)). pose proof (Z.mod_pos_bound b 16 ltac:(lia)).
  cbn in Hin. destruct Hin as [<-|[<-|[]]].
  - rewrite E1, hexDigit_hexChar in Hc by lia. done.
  - rewrite E2, hexDigit_hexChar in Hc by lia. done.
Qed.

Lemma length_hexEncode key : length (hexEncode key) = (2 * length key)%nat.
Proof. unfold hexEncode. induction key as [|b key IH]; [done|]. cbn in *. rewrite IH. lia. Qed.
