(* ===== verification/Netip.v ===== *)
(** Addresses, prefixes and address-port pairs as text: the functions of Go's
    [net/netip] that the configuration protocol calls, and that what they print
    they parse back. *)
From S2P Require Import Prelude Messages NoiseHelpers Text.

(** An address has 4 or 16 bytes; only those of 16 have a zone. *)
Record Addr := mkAddr { a_bytes : bytes; a_zone : bytes }.

Definition addrOk (a : Addr) : Prop :=
  (length (a_bytes a) = 4%nat /\ a_zone a = [] \/ length (a_bytes a) = 16%nat) /\ all_bytes (a_bytes a).

(** ** Parsing *)

(** [parseIPv4Fields]: the fields so far, the value and number of digits of the
    current one, and whether a digit must come next. *)
Fixpoint ipv4Fields (fields : bytes) (val : Z) (digLen : nat) (start : bool) (s : bytes) : option bytes :=
  match s with
  | [] => if (length fields <? 3)%nat then None else Some (fields ++ [val])
  | c :: s =>
      if isDigit c then
        if (digLen =? 1)%nat && (val =? 0) then None
        else
          let val := val * 10 + (c - 48) in
          if val >? 255 then None else ipv4Fields fields val (S digLen) false s
      else if c =? 46 then
        if start || match s with [] => true | _ => false end then None
        else if (length fields =? 3)%nat then None
        else ipv4Fields (fields ++ [val]) 0 0 true s
      else None
  end.
Definition parseIPv4Fields (s : bytes) : option bytes := ipv4Fields [] 0 0 true s.

(** A group of hexadecimal digits: its value, its length and what follows. *)
Fixpoint hexGroup (off : nat) (acc : Z) (s : bytes) : option (Z * nat * bytes) :=
  match s with
  | [] => Some (acc, off, [])
  | c :: s' =>
      match hexDigit c with
      | Some d =>
          let acc := 16 * acc + d in
          if (3 <? off)%nat then None
          else if acc >? 65535 then None
          else hexGroup (S off) acc s'
      | None => Some (acc, off, s)
      end
  end.

(** The loop of [parseIPv6]: two bytes of [ip] a round, [fuel] rounds before
    they are 16; [ell] is the position of the ellipsis. *)
Fixpoint ipv6Groups (fuel : nat) (ip : bytes) (ell : option nat) (s : bytes)
    : option (bytes * option nat * bytes) :=
  match fuel with
  | O => Some (ip, ell, s)
  | S fuel =>
      match hexGroup 0 0 s with
      | None => None
      | Some (acc, off, rest) =>
          if (off =? 0)%nat then None
          else
            let ip' := ip ++ [Z.shiftr acc 8; Z.land acc 255] in
            match rest with
            | [] => Some (ip', ell, [])
            | c :: s1 =>
                if c =? 46 then
                  if match ell with None => negb (length ip =? 12)%nat | Some _ => false end then None
                  else if (16 <? length ip + 4)%nat then None
                  else f ← parseIPv4Fields s; Some (ip ++ f, ell, [])
                else if negb (c =? 58) then None
                else
                  match s1 with
                  | [] => None
                  | c :: s2 =>
                      if c =? 58 then
                        match ell with
                        | Some _ => None
                        | None =>
                            match s2 with
                            | [] => Some (ip', Some (length ip'), [])
                            | _ => ipv6Groups fuel ip' (Some (length ip')) s2
                            end
                        end
                      else ipv6Groups fuel ip' ell s1
                  end
            end
      end
  end.

(** What the ellipsis stands for. *)
Definition expand (ip : bytes) (ell : option nat) : option bytes :=
  if (length ip <? 16)%nat then
    match ell with
    | None => None
    | Some e => Some (take e ip ++ zeros (16 - length ip) ++ drop e ip)
    end
  else match ell with Some _ => None | None => Some ip end.

(** What follows a leading ellipsis. *)
Definition leading (s : bytes) : option bytes :=
  match s with
  | a :: b :: s => if (a =? 58) && (b =? 58) then Some s else None
  | _ => None
  end.

(** The end of [parseIPv6]: the whole text must have been used. *)
Definition ipv6End (r : option (bytes * option nat * bytes)) : option bytes :=
  match r with Some (ip, ell, []) => expand ip ell | _ => None end.

(** [parseIPv6] without its zone. *)
Definition ipv6Bytes (s : bytes) : option bytes :=
  match leading s with
  | Some [] => Some (zeros 16)
  | Some s => ipv6End (ipv6Groups 8 [] (Some 0%nat) s)
  | None => ipv6End (ipv6Groups 8 [] None s)
  end.

Definition parseIPv6 (s : bytes) : option Addr :=
  match cutAt 37 s with
  | Some (_, []) => None
  | Some (s, zone) => ip ← ipv6Bytes s; Some (mkAddr ip zone)
  | None => ip ← ipv6Bytes s; Some (mkAddr ip [])
  end.

(** [ParseAddr]: the first of dot, colon and percent tells the family. *)
Fixpoint family (s : bytes) : option Z :=
  match s with
  | [] => None
  | c :: s => if (c =? 46) || (c =? 58) || (c =? 37) then Some c else family s
  end.

Definition ParseAddr (s : bytes) : option Addr :=
  match family s with
  | Some 46 => ip ← parseIPv4Fields s; Some (mkAddr ip [])
  | Some 58 => parseIPv6 s
  | _ => None
  end.

(** [ParsePrefix]; zones are refused. *)
Definition ParsePrefix (s : bytes) : option (bytes * Z) :=
  '(a, bitsStr) ← cutLast 47 s;
  addr ← ParseAddr a;
  if negb (bytes_eqb (a_zone addr) []) then None
  else if (1 <? length bitsStr)%nat && ((nth 0 bitsStr 0 <? 49) || (57 <? nth 0 bitsStr 0)) then None
  else
    bits ← Atoi bitsStr;
    let maxBits := if (length (a_bytes addr) =? 16)%nat then 128 else 32 in
    if (bits <? 0) || (maxBits <? bits) then None else Some (a_bytes addr, bits).

(** [ParseAddrPort] *)
Definition splitAddrPort (s : bytes) : option (bytes * bytes * bool) :=
  '(ip, port) ← cutLast 58 s;
  match ip, port with
  | [], _ | _, [] => None
  | 91 :: ip', _ =>
      if (length ip <? 2)%nat || negb (default 0 (last ip) =? 93) then None
      else Some (take (length ip' - 1) ip', port, true)
  | _, _ => Some (ip, port, false)
  end.

Definition ParseAddrPort (s : bytes) : option (Addr * Z) :=
  '(ip, port, v6) ← splitAddrPort s;
  port16 ← ParseUint port 16;
  addr ← ParseAddr ip;
  if eqb v6 (length (a_bytes addr) =? 16)%nat then Some (addr, port16) else None.

(** ** Printing *)

Fixpoint joined (sep : bytes) (l : list bytes) : bytes :=
  match l with [] => [] | [x] => x | x :: l => x ++ sep ++ joined sep l end.

Definition string4 (ip : bytes) : bytes := joined [46] (Itoa <$> ip).

(** The groups of an address of 16 bytes. *)
Fixpoint groups (ip : bytes) : list Z :=
  match ip with a :: b :: ip => 256 * a + b :: groups ip | _ => [] end.

(** [appendHex]: no leading zeros. *)
Definition appendHex (x : Z) : bytes :=
  (if x >=? 4096 then [hexChar (Z.shiftr x 12)] else []) ++
  (if x >=? 256 then [hexChar (Z.land (Z.shiftr x 8) 15)] else []) ++
  (if x >=? 16 then [hexChar (Z.land (Z.shiftr x 4) 15)] else []) ++
  [hexChar (Z.land x 15)].

Fixpoint zeroRun (l : list Z) : nat :=
  match l with 0 :: l => S (zeroRun l) | _ => 0 end.

(** The first longest run of at least two zero groups, if any: its bounds. *)
Definition longestRun (gs : list Z) : option (nat * nat) :=
  foldl (fun best i =>
    let l := zeroRun (drop i gs) in
    if (2 <=? l)%nat && (match best with None => 0 | Some (a, b) => b - a end <? l)%nat
    then Some (i, i + l)%nat else best) None (seq 0 (length gs)).

Definition string6 (ip : bytes) : bytes :=
  let gs := groups ip in
  match longestRun gs with
  | None => joined [58] (appendHex <$> gs)
  | Some (a, b) =>
      joined [58] (appendHex <$> take a gs) ++ [58; 58] ++ joined [58] (appendHex <$> drop b gs)
  end.

Definition is4In6 (ip : bytes) : bool := bytes_eqb (take 12 ip) (zeros 10 ++ [255; 255]).

Definition zoneSuffix (zone : bytes) : bytes := match zone with [] => [] | _ => 37 :: zone end.

Definition addrString (a : Addr) : bytes :=
  if (length (a_bytes a) =? 4)%nat then string4 (a_bytes a)
  else if is4In6 (a_bytes a)
  then of_string "::ffff:" ++ string4 (drop 12 (a_bytes a)) ++ zoneSuffix (a_zone a)
  else string6 (a_bytes a) ++ zoneSuffix (a_zone a).

Definition prefixString (ip : bytes) (bits : Z) : bytes :=
  addrString (mkAddr ip []) ++ [47] ++ Itoa bits.

Definition addrPortString (a : Addr) (port : Z) : bytes :=
  if (length (a_bytes a) =? 4)%nat then addrString a ++ [58] ++ Itoa port
  else [91] ++ addrString a ++ [93; 58] ++ Itoa port.

(** ** Lemmas: the fields of IPv4 *)

(** What the digits of one field do. *)
Fixpoint scanField (val : Z) (digLen : nat) (s : bytes) : option (Z * nat) :=
  match s with
  | [] => Some (val, digLen)
  | c :: s =>
      if isDigit c then
        if (digLen =? 1)%nat && (val =? 0) then None
        else
          let val := val * 10 + (c - 48) in
          if val >? 255 then None else scanField val (S digLen) s
      else None
  end.

Lemma ipv4Fields_scan fs val n start s v m rest : s <> [] -> scanField val n s = Some (v, m) ->
  ipv4Fields fs val n start (s ++ rest) = ipv4Fields fs v m false rest.
Proof.
  revert val n start. induction s as [|c s IH]; intros val n start Hne; [done|]. intros Hs.
  cbn [scanField] in Hs. cbn [app ipv4Fields].
  destruct (isDigit c); [|done]. destruct (_ && _); [done|]. cbv zeta in *. destruct (_ >? 255); [done|].
  destruct s as [|c' s]; [by injection Hs as <- <-|]. by apply IH.
Qed.

Lemma scanField_Itoa b : is_byte b -> exists m, scanField 0 0 (Itoa b) = Some (b, m).
Proof.
  intros Hb. pose proof (bounded_cases 256 (fun b => match scanField 0 0 (Itoa b) with
    Some (v, _) => v =? b | None => false end) ltac:(by vm_compute) b Hb) as H. cbv beta in H.
  destruct (scanField 0 0 (Itoa b)) as [[v m]|]; [|done]. apply Z.eqb_eq in H as ->. by exists m.
Qed.

Lemma Itoa_nonempty b : 0 <= b -> Itoa b <> [].
Proof. intros H. by apply Itoa_spec. Qed.

Lemma field_dot fs b s : is_byte b -> (length fs < 3)%nat -> s <> [] ->
  ipv4Fields fs 0 0 true (Itoa b ++ 46 :: s) = ipv4Fields (fs ++ [b]) 0 0 true s.
Proof.
  intros Hb Hf Hs. destruct (scanField_Itoa b Hb) as [m Hm]. destruct Hb as [Hb _].
  rewrite (ipv4Fields_scan _ _ _ _ _ _ _ _ (Itoa_nonempty b Hb) Hm). cbn [ipv4Fields].
  change (isDigit 46) with false. cbn [Z.eqb Pos.eqb orb]. destruct s; [done|].
  by rewrite (proj2 (Nat.eqb_neq _ _)) by lia.
Qed.

Lemma field_end fs b : is_byte b -> length fs = 3%nat -> ipv4Fields fs 0 0 true (Itoa b) = Some (fs ++ [b]).
Proof.
  intros Hb Hf. destruct (scanField_Itoa b Hb) as [m Hm]. destruct Hb as [Hb _].
  rewrite <- (app_nil_r (Itoa b)), (ipv4Fields_scan _ _ _ _ _ _ _ _ (Itoa_nonempty b Hb) Hm).
  cbn [ipv4Fields]. by rewrite Hf.
Qed.

Lemma string4_cons a b c d :
  string4 [a; b; c; d] = Itoa a ++ 46 :: Itoa b ++ 46 :: Itoa c ++ 46 :: Itoa d.
Proof. unfold string4. cbn [fmap list_fmap joined]. by rewrite <- ?app_assoc. Qed.

Lemma app_nonempty {A} (x : A) a b : a ++ x :: b <> [].
Proof. by destruct a. Qed.

Lemma parseIPv4_string4 ip : length ip = 4%nat -> all_bytes ip -> parseIPv4Fields (string4 ip) = Some ip.
Proof.
  destruct ip as [|a [|b [|c [|d [|]]]]]; try done. intros _ H.
  repeat (apply Forall_cons in H as [? H]). rewrite string4_cons. unfold parseIPv4Fields.
  rewrite !field_dot by (done || apply app_nonempty || (cbn; lia) || (apply Itoa_nonempty; unfold is_byte in *; lia)).
  by rewrite field_end.
Qed.

(** ** The groups of IPv6 *)

Definition group (x : Z) : Prop := 0 <= x < 65536.

(** A group ends where a character is no hexadecimal digit. *)
Definition stops (rest : bytes) : Prop := match rest with [] => True | c :: _ => hexDigit c = None end.

Lemma hexGroup_app s off acc v n rest : hexGroup off acc s = Some (v, n, []) -> stops rest ->
  hexGroup off acc (s ++ rest) = Some (v, n, rest).
Proof.
  revert off acc. induction s as [|c s IH]; intros off acc; cbn [hexGroup app].
  - intros [= <- <-] Hr. destruct rest as [|c rest]; [done|]. cbn in *. by rewrite Hr.
  - destruct (hexDigit c); [|done]. cbv zeta. destruct (3 <? off)%nat; [done|]. destruct (_ >? 65535); [done|]. apply IH.
Qed.

Lemma appendHex_cases x : group x -> exists n, hexGroup 0 0 (appendHex x) = Some (x, S n, []).
Proof.
  intros Hx. unfold group in Hx. pose proof (Z.div_mod x 256 ltac:(lia)). pose proof (Z.mod_pos_bound x 256 ltac:(lia)).
  pose proof (bounded_cases 256 (fun h => forallb (fun l => match hexGroup 0 0 (appendHex (256 * h + l)) with
    Some (v, S _, []) => v =? 256 * h + l | _ => false end) (seqZ 0 256)) ltac:(by vm_compute) (x / 256) ltac:(lia)) as Hf.
  apply (bounded_cases 256 _) with (b := x mod 256) in Hf; [|lia]. cbv beta in Hf. rewrite <- Z.div_mod in Hf by lia.
  destruct (hexGroup 0 0 (appendHex x)) as [[[v [|n]] [|]]|]; try done. apply Z.eqb_eq in Hf as ->. by exists n.
Qed.

Lemma hexGroup_appendHex x rest : group x -> stops rest ->
  exists n, hexGroup 0 0 (appendHex x ++ rest) = Some (x, S n, rest).
Proof. intros Hx Hr. destruct (appendHex_cases x Hx) as [n Hn]. exists n. by apply hexGroup_app. Qed.

(** The two bytes of a group. *)
Definition flat (gs : list Z) : bytes := concat ((fun x => [Z.shiftr x 8; Z.land x 255]) <$> gs).

Lemma flat_app a b : flat (a ++ b) = flat a ++ flat b.
Proof. unfold flat. by rewrite fmap_app, concat_app. Qed.
Lemma flat_cons x l : flat (x :: l) = [Z.shiftr x 8; Z.land x 255] ++ flat l.
Proof. done. Qed.
Lemma flat_length gs : length (flat gs) = (2 * length gs)%nat.
Proof. induction gs as [|x gs IH]; [done|]. rewrite flat_cons, length_app, IH. cbn. lia. Qed.

Lemma joined_cons x gs : gs <> [] -> joined [58] (appendHex <$> x :: gs) =
  appendHex x ++ 58 :: joined [58] (appendHex <$> gs).
Proof. by destruct gs. Qed.

(** [ipv6Groups] past one group that a colon and another group follow. *)
Lemma groups_colon fuel ip ell x c s : group x -> c <> 58 ->
  ipv6Groups (S fuel) ip ell (appendHex x ++ 58 :: c :: s) =
  ipv6Groups fuel (ip ++ flat [x]) ell (c :: s).
Proof.
  intros Hx Hc. cbn [ipv6Groups]. destruct (hexGroup_appendHex x (58 :: c :: s) Hx eq_refl) as [n ->].
  cbn [Nat.eqb Z.eqb Pos.eqb negb]. change (flat [x]) with [Z.shiftr x 8; Z.land x 255].
  by rewrite (proj2 (Z.eqb_neq c 58)) by done.
Qed.

Lemma appendHex_head x rest : group x -> exists c s, appendHex x ++ rest = c :: s /\ c <> 58 /\ hexDigit c <> None.
Proof.
  intros Hx. destruct (appendHex_cases x Hx) as [n Hn]. destruct (appendHex x) as [|c s]; [done|].
  exists c, (s ++ rest). cbn [hexGroup] in Hn. split; [done|]. destruct (hexDigit c) eqn:E; [|by injection Hn].
  split; [|done]. intros ->. by vm_compute in E.
Qed.

Lemma joined_head gs rest : gs <> [] -> Forall group gs ->
  exists c s, joined [58] (appendHex <$> gs) ++ rest = c :: s /\ c <> 58 /\ hexDigit c <> None.
Proof.
  intros Hne Hg. destruct gs as [|x gs]; [done|]. apply Forall_cons in Hg as [Hx _].
  destruct gs as [|y gs]; [by apply appendHex_head|].
  rewrite joined_cons by done. rewrite <- app_assoc. by apply appendHex_head.
Qed.

Lemma ipv6Groups_all gs : forall fuel ip ell, gs <> [] -> (length gs <= fuel)%nat -> Forall group gs ->
  ipv6Groups fuel ip ell (joined [58] (appendHex <$> gs)) = Some (ip ++ flat gs, ell, []).
Proof.
  induction gs as [|x gs IH]; intros fuel ip ell Hne Hf Hg; [done|]. destruct fuel as [|fuel]; [cbn in Hf; lia|].
  apply Forall_cons in Hg as [Hx Hg]. cbn [length] in Hf. destruct gs as [|y gs].
  - cbn [fmap list_fmap joined ipv6Groups].
    destruct (hexGroup_appendHex x [] Hx I) as [n Hn]. rewrite app_nil_r in Hn. by rewrite Hn.
  - rewrite joined_cons by done. destruct (joined_head (y :: gs) [] ltac:(done) Hg) as (c & s & E & Hc & _).
    rewrite app_nil_r in E. rewrite E, groups_colon, <- E by done. rewrite IH by (done || lia).
    by rewrite flat_cons, <- app_assoc.
Qed.

Lemma ipv6Groups_ellipsis gs : forall fuel ip tail, gs <> [] -> (length gs <= fuel)%nat -> Forall group gs ->
  ipv6Groups fuel ip None (joined [58] (appendHex <$> gs) ++ [58; 58] ++ tail) =
  match tail with
  | [] => Some (ip ++ flat gs, Some (length (ip ++ flat gs)), [])
  | _ => ipv6Groups (fuel - length gs) (ip ++ flat gs) (Some (length (ip ++ flat gs))) tail
  end.
Proof.
  induction gs as [|x gs IH]; intros fuel ip tl Hne Hf Hg; [done|]. destruct fuel as [|fuel]; [cbn in Hf; lia|].
  apply Forall_cons in Hg as [Hx Hg]. cbn [length] in Hf. destruct gs as [|y gs].
  - cbn [fmap list_fmap joined ipv6Groups length].
    destruct (hexGroup_appendHex x ([58; 58] ++ tl) Hx eq_refl) as [n ->]. cbn [Nat.eqb app].
    replace (S fuel - 1)%nat with fuel by lia. by destruct tl.
  - rewrite joined_cons by done. destruct (joined_head (y :: gs) ([58; 58] ++ tl) ltac:(done) Hg) as (c & s & E & Hc & _).
    rewrite <- app_assoc. cbn [app] in *. rewrite E, groups_colon, <- E by done. rewrite IH by (done || lia).
    rewrite flat_cons, <- !app_assoc. by cbn [length Nat.sub flat fmap list_fmap concat app].
Qed.

Lemma groups_spec n ip : length ip = (2 * n)%nat -> all_bytes ip ->
  flat (groups ip) = ip /\ length (groups ip) = n /\ Forall group (groups ip).
Proof.
  revert ip. induction n as [|n IH]; intros ip Hl Hb; [by destruct ip|].
  destruct ip as [|a [|b ip]]; [cbn in Hl; lia..|]. apply Forall_cons in Hb as [Ha Hb].
  apply Forall_cons in Hb as [Hb Hip]. cbn [length] in Hl. destruct (IH ip ltac:(lia) Hip) as (H1 & H2 & H3).
  cbn [groups length]. unfold is_byte, group in *. split_and!; [|by rewrite H2|constructor; [lia|done]].
  rewrite flat_cons, H1, Z.shiftr_div_pow2, (land_mask _ 8) by done.
  change (2 ^ 8) with 256. rewrite Z.mul_comm, Z.div_add_l, Z.div_small, Z.add_0_r by lia.
  rewrite Z.add_comm, Z.mod_add, Z.mod_small by lia. done.
Qed.

Lemma zeroRun_spec l : (zeroRun l <= length l)%nat /\ take (zeroRun l) l = replicate (zeroRun l) 0.
Proof.
  induction l as [|x l [IH1 IH2]]; [done|]. destruct x; cbn [zeroRun length take replicate]; [|split; [lia|done]..].
  split; [lia|]. by rewrite IH2.
Qed.

Definition zeroSpan (gs : list Z) (best : option (nat * nat)) : Prop :=
  match best with
  | None => True
  | Some (a, b) => (a + 2 <= b <= length gs)%nat /\ gs = take a gs ++ replicate (b - a) 0 ++ drop b gs
  end.

Lemma longestRun_spec gs : zeroSpan gs (longestRun gs).
Proof.
  unfold longestRun. assert (forall l best, zeroSpan gs best -> zeroSpan gs (foldl (fun best i =>
    let l := zeroRun (drop i gs) in
    if (2 <=? l)%nat && (match best with None => 0 | Some (a, b) => b - a end <? l)%nat
    then Some (i, i + l)%nat else best) best l)) as H; [|by apply H].
  induction l as [|i l IH]; intros best Hb; cbn [foldl]; [done|]. apply IH. cbv zeta.
  destruct (Nat.leb_spec 2 (zeroRun (drop i gs))) as [Hr|]; [|done]. destruct (_ <? _)%nat; cbn [andb]; [|done].
  destruct (zeroRun_spec (drop i gs)) as [H1 H2]. rewrite length_drop in H1. split; [lia|].
  replace (i + zeroRun (drop i gs) - i)%nat with (zeroRun (drop i gs)) by lia.
  rewrite <- H2, <- drop_drop, take_drop, take_drop. done.
Qed.

Lemma flat_zeros n : flat (replicate n 0) = zeros (2 * n).
Proof.
  induction n as [|n IH]; [done|]. cbn [replicate]. rewrite flat_cons, IH.
  replace (2 * S n)%nat with (S (S (2 * n))) by lia. done.
Qed.

(** ** Round trips *)

Lemma ipv6Bytes_plain c s : c <> 58 -> ipv6Bytes (c :: s) = ipv6End (ipv6Groups 8 [] None (c :: s)).
Proof.
  intros Hc. unfold ipv6Bytes. replace (leading (c :: s)) with (@None bytes); [done|].
  destruct s; cbn [leading]; [done|]. by destruct (Z.eqb_spec c 58).
Qed.

Lemma ipv6Bytes_leading s : s <> [] ->
  ipv6Bytes (58 :: 58 :: s) = ipv6End (ipv6Groups 8 [] (Some 0%nat) s).
Proof. by destruct s. Qed.

(** The groups around an ellipsis. *)
Lemma ipv6Bytes_ellipsis gs1 gs2 : Forall group gs1 -> Forall group gs2 -> (length gs1 + length gs2 <= 6)%nat ->
  ipv6Bytes (joined [58] (appendHex <$> gs1) ++ [58; 58] ++ joined [58] (appendHex <$> gs2)) =
  Some (flat gs1 ++ zeros (16 - 2 * (length gs1 + length gs2)) ++ flat gs2).
Proof.
  intros H1 H2 Hl.
  assert (forall e, e = length (flat gs1) -> expand (flat gs1 ++ flat gs2) (Some e) =
    Some (flat gs1 ++ zeros (16 - 2 * (length gs1 + length gs2)) ++ flat gs2)) as He.
  { intros e ->. unfold expand. rewrite length_app, !flat_length, (proj2 (Nat.ltb_lt _ _)) by lia.
    rewrite <- flat_length, take_app_length, drop_app_length, flat_length. do 4 f_equal. lia. }
  destruct gs1 as [|x gs1].
  - cbn [fmap list_fmap joined app]. destruct gs2 as [|y gs2].
    + done.
    + destruct (joined_head (y :: gs2) [] ltac:(done) H2) as (c & s & E & Hc & _). rewrite app_nil_r in E.
      cbn [app]. rewrite ipv6Bytes_leading by by rewrite E.
      rewrite ipv6Groups_all by (done || cbn in *; lia). by apply (He 0%nat).
  - destruct (joined_head (x :: gs1) ([58; 58] ++ joined [58] (appendHex <$> gs2)) ltac:(done) H1) as (c & s & E & Hc & _).
    rewrite E, ipv6Bytes_plain by done. rewrite <- E, ipv6Groups_ellipsis by (done || lia). cbn [app].
    destruct gs2 as [|y gs2].
    + cbn [fmap list_fmap joined ipv6End]. rewrite <- (He _ eq_refl). cbn [flat fmap list_fmap concat]. by rewrite app_nil_r.
    + destruct (joined_head (y :: gs2) [] ltac:(done) H2) as (c2 & s2 & E2 & Hc2 & _). rewrite app_nil_r in E2.
      rewrite E2, <- E2, ipv6Groups_all by (done || lia). by apply He.
Qed.

Lemma string6_parses ip : length ip = 16%nat -> all_bytes ip -> ipv6Bytes (string6 ip) = Some ip.
Proof.
  intros Hl Hb. destruct (groups_spec 8 ip Hl Hb) as (H1 & H2 & H3). unfold string6.
  pose proof (longestRun_spec (groups ip)) as Hz. destruct (longestRun (groups ip)) as [[a b]|].
  - destruct Hz as [Hab Hg]. rewrite H2 in Hab.
    rewrite ipv6Bytes_ellipsis; [|by apply Forall_take|by apply Forall_drop|rewrite length_take, length_drop; lia].
    assert (flat (groups ip) = flat (take a (groups ip) ++ replicate (b - a) 0 ++ drop b (groups ip))) as Hf
      by by rewrite <- Hg.
    rewrite H1, !flat_app, flat_zeros in Hf. rewrite length_take, length_drop, H2. f_equal.
    symmetry. etransitivity; [exact Hf|]. do 3 f_equal. lia.
  - assert (groups ip <> []) as Hne by by destruct (groups ip).
    destruct (joined_head (groups ip) [] Hne H3) as (c & s & E & Hc & _). rewrite app_nil_r in E.
    rewrite E, ipv6Bytes_plain by done. rewrite <- E, ipv6Groups_all by (done || lia). cbn [ipv6End app].
    unfold expand. by rewrite H1, Hl.
Qed.

Lemma Itoa_free b c : 0 <= b -> isDigit c = false -> c ∉ Itoa b.
Proof. intros Hb Hc. apply digits_free; [by apply Itoa_spec|done]. Qed.

Lemma family_skip s c rest : Forall (fun x => x <> 46 /\ x <> 58 /\ x <> 37) s ->
  family (s ++ c :: rest) = if (c =? 46) || (c =? 58) || (c =? 37) then Some c else family rest.
Proof.
  induction 1 as [|x s (H1 & H2 & H3) _ IH]; [done|]. cbn [app family].
  by rewrite !(proj2 (Z.eqb_neq _ _)) by done.
Qed.

Lemma digits_plain s : digits s -> Forall (fun x => x <> 46 /\ x <> 58 /\ x <> 37) s.
Proof. intros H. eapply Forall_impl; [exact H|]. cbn. intros x Hx%isDigit_val. lia. Qed.

Lemma string4_family ip rest : length ip = 4%nat -> all_bytes ip -> family (string4 ip ++ rest) = Some 46.
Proof.
  destruct ip as [|a [|b [|c [|d [|]]]]]; try done. intros _ H. apply Forall_cons in H as [[Ha _] _].
  rewrite string4_cons, <- app_assoc. cbn [app]. rewrite family_skip by (by apply digits_plain, Itoa_spec). done.
Qed.

(** The characters of a printed address, short of its zone. *)
Definition addrChar (c : Z) : Prop := isDigit c = true \/ 97 <= c <= 102 \/ c = 46 \/ c = 58.

Lemma appendHex_chars x : group x -> Forall (fun c => hexDigit c <> None /\ addrChar c) (appendHex x).
Proof.
  intros Hx. assert (forall d, 0 <= d < 16 -> hexDigit (hexChar d) <> None /\ addrChar (hexChar d)) as H.
  { intros d Hd. split; [by rewrite hexDigit_hexChar|]. unfold hexChar, addrChar. zbool; rewrite ?isDigit_val; lia. }
  unfold group in Hx. unfold appendHex.
  assert (forall y, 0 <= Z.land y 15 < 16) as Hl
    by (intros y; change 15 with (2 ^ 4 - 1); rewrite land_mask by done; by apply Z.mod_pos_bound).
  rewrite !Forall_app. split_and!;
    [destruct (x >=? 4096)|destruct (x >=? 256)|destruct (x >=? 16)|];
    first [by apply Forall_nil|apply Forall_singleton, H; try apply Hl].
  rewrite Z.shiftr_div_pow2 by done. change (2 ^ 12) with 4096. pose proof (Z.div_mod x 4096 ltac:(lia)).
  pose proof (Z.mod_pos_bound x 4096 ltac:(lia)). lia.
Qed.

Definition addrBody (ip : bytes) : bytes :=
  if (length ip =? 4)%nat then string4 ip
  else if is4In6 ip then of_string "::ffff:" ++ string4 (drop 12 ip)
  else string6 ip.

Lemma addrString_body a : addrOk a -> addrString a = addrBody (a_bytes a) ++ zoneSuffix (a_zone a).
Proof.
  intros [Hl _]. unfold addrString, addrBody. destruct (Nat.eqb_spec (length (a_bytes a)) 4) as [E|E].
  - destruct Hl as [[_ ->]|Hl]; [|lia]. by rewrite app_nil_r.
  - destruct (is4In6 _); [|done]. by rewrite app_assoc.
Qed.

Lemma joined_Forall (P : Z -> Prop) sep l : Forall P sep -> Forall (Forall P) l -> Forall P (joined sep l).
Proof.
  intros Hs. induction 1 as [|x l Hx Hl IH]; [constructor|]. destruct l as [|y l]; [done|].
  change (joined sep (x :: y :: l)) with (x ++ sep ++ joined sep (y :: l)). rewrite !Forall_app. auto.
Qed.

Lemma string4_chars ip : all_bytes ip -> Forall addrChar (string4 ip).
Proof.
  intros H. apply joined_Forall; [repeat constructor; unfold addrChar; lia|]. apply Forall_fmap.
  eapply Forall_impl; [exact H|]. intros b [Hb _]. cbn. eapply Forall_impl; [by apply Itoa_spec|].
  intros c Hc. by left.
Qed.

Lemma hexes_chars gs : Forall group gs -> Forall addrChar (joined [58] (appendHex <$> gs)).
Proof.
  intros H. apply joined_Forall; [repeat constructor; unfold addrChar; lia|]. apply Forall_fmap.
  eapply Forall_impl; [exact H|]. intros x Hx. cbn. eapply Forall_impl; [by apply appendHex_chars|]. by intros c [_ ?].
Qed.

Lemma addrBody_chars a : addrOk a -> Forall addrChar (addrBody (a_bytes a)).
Proof.
  intros [Hl Hb]. unfold addrBody. destruct (Nat.eqb_spec (length (a_bytes a)) 4); [by apply string4_chars|].
  destruct Hl as [[? _]|Hl]; [done|]. destruct (is4In6 _).
  - apply Forall_app. split; [|by apply string4_chars, Forall_drop].
    repeat (apply Forall_cons; split; [unfold addrChar; rewrite isDigit_val; cbn; lia|]). by apply Forall_nil.
  - destruct (groups_spec 8 _ Hl Hb) as (_ & _ & H3). unfold string6. destruct (longestRun _) as [[x y]|]; [|by apply hexes_chars].
    rewrite !Forall_app. split_and!; [by apply hexes_chars, Forall_take|repeat constructor; unfold addrChar; lia
      |by apply hexes_chars, Forall_drop].
Qed.

Lemma addrBody_free a c : addrOk a -> (forall x, addrChar x -> x <> c) -> c ∉ addrBody (a_bytes a).
Proof. intros Ha Hc Hin. apply (Hc c); [|done]. by eapply (proj1 (Forall_forall _ _)), Hin; apply addrBody_chars. Qed.

(** ** The family of what is printed *)

Lemma family_hex s rest : Forall (fun c => hexDigit c <> None) s -> family (s ++ 58 :: rest) = Some 58.
Proof.
  intros H. rewrite family_skip; [done|]. eapply Forall_impl; [exact H|]. cbn. intros c Hc.
  split_and!; intros ->; by vm_compute in Hc.
Qed.

Lemma appendHex_hex x : group x -> Forall (fun c => hexDigit c <> None) (appendHex x).
Proof. intros H. eapply Forall_impl; [by apply appendHex_chars|]. by intros c [? _]. Qed.

Lemma string6_family ip rest : length ip = 16%nat -> all_bytes ip -> family (string6 ip ++ rest) = Some 58.
Proof.
  intros Hl Hb. destruct (groups_spec 8 ip Hl Hb) as (_ & H2 & H3). unfold string6.
  assert (forall gs t, Forall group gs -> (2 <= length gs)%nat \/ (exists t', t = 58 :: t') ->
    family (joined [58] (appendHex <$> gs) ++ t) = Some 58) as H.
  { intros [|x [|y gs]] t Hg Ht.
    - by destruct Ht as [Ht|[t' ->]]; [cbn in Ht; lia|].
    - destruct Ht as [Ht|[t' ->]]; [cbn in Ht; lia|]. apply Forall_cons in Hg as [Hx _].
      cbn [fmap list_fmap joined]. by apply family_hex, appendHex_hex.
    - apply Forall_cons in Hg as [Hx _]. rewrite joined_cons by done. rewrite <- app_assoc. cbn [app].
      by apply family_hex, appendHex_hex. }
  destruct (longestRun _) as [[a b]|].
  - rewrite <- app_assoc. apply H; [by apply Forall_take|]. right. by eexists.
  - apply H; [done|]. left. lia.
Qed.

Lemma hexGroup_Itoa b : is_byte b -> exists v n, hexGroup 0 0 (Itoa b) = Some (v, S n, []).
Proof.
  intros Hb. pose proof (bounded_cases 256 (fun b => match hexGroup 0 0 (Itoa b) with
    Some (_, S _, []) => true | _ => false end) ltac:(by vm_compute) b Hb) as H. cbv beta in H.
  destruct (hexGroup 0 0 (Itoa b)) as [[[v [|n]] [|]]|]; try done. by exists v, n.
Qed.

Lemma string4_groups ip4 pre ell fuel : length ip4 = 4%nat -> all_bytes ip4 -> (length pre <= 12)%nat -> is_Some ell ->
  ipv6Groups (S fuel) pre ell (string4 ip4) = Some (pre ++ ip4, ell, []).
Proof.
  intros Hl Hb Hp [e ->]. pose proof (parseIPv4_string4 ip4 Hl Hb) as Hpar.
  destruct ip4 as [|a [|b [|c [|d [|]]]]]; try done. rewrite string4_cons in *. apply Forall_cons in Hb as [Ha _].
  destruct (hexGroup_Itoa a Ha) as (v & n & Hn). cbn [ipv6Groups].
  rewrite (hexGroup_app _ _ _ _ _ (46 :: Itoa b ++ 46 :: Itoa c ++ 46 :: Itoa d) Hn eq_refl). cbn [Nat.eqb].
  rewrite (proj2 (Nat.ltb_ge _ _)) by lia. by rewrite Hpar.
Qed.

Lemma mapped_parses ip : length ip = 16%nat -> all_bytes ip -> is4In6 ip = true ->
  ipv6Bytes (of_string "::ffff:" ++ string4 (drop 12 ip)) = Some ip.
Proof.
  intros Hl Hb H4. apply bytes_eqb_true in H4.
  assert (length (drop 12 ip) = 4%nat) as Hd by (rewrite length_drop; lia).
  assert (all_bytes (drop 12 ip)) as Hbd by by apply Forall_drop.
  assert (exists c s, string4 (drop 12 ip) = c :: s /\ c <> 58) as (c & s & E & Hc).
  { destruct (drop 12 ip) as [|a [|b [|x [|d [|]]]]] eqn:Ed; try done. rewrite string4_cons.
    apply Forall_cons in Hbd as [[Ha _] _]. destruct (Itoa_spec a Ha) as (Hdig & _ & Hne).
    destruct (Itoa a) as [|c s]; [done|]. exists c. eexists. split; [done|].
    apply Forall_cons in Hdig as [Hx%isDigit_val _]. lia. }
  change (of_string "::ffff:" ++ string4 (drop 12 ip)) with
    (58 :: 58 :: appendHex 65535 ++ 58 :: string4 (drop 12 ip)).
  rewrite ipv6Bytes_leading by apply app_nonempty. rewrite E, groups_colon, <- E by (done || by unfold group).
  change ([] ++ flat [65535]) with [255; 255]. rewrite string4_groups by (done || (cbn; lia)).
  unfold ipv6End, expand. rewrite length_app, Hd. cbn [length Nat.add Nat.ltb Nat.leb take drop app].
  f_equal. rewrite <- (take_drop 12 ip) at 2. rewrite H4. done.
Qed.

(** ** What is printed is parsed back *)

Lemma addrBody_parses ip : length ip = 16%nat -> all_bytes ip -> ipv6Bytes (addrBody ip) = Some ip.
Proof.
  intros Hl Hb. unfold addrBody. rewrite Hl. cbn [Nat.eqb]. destruct (is4In6 ip) eqn:E.
  - by apply mapped_parses.
  - by apply string6_parses.
Qed.

Lemma addrBody_family ip rest : length ip = 16%nat -> all_bytes ip -> family (addrBody ip ++ rest) = Some 58.
Proof.
  intros Hl Hb. unfold addrBody. rewrite Hl. cbn [Nat.eqb]. destruct (is4In6 ip); [done|]. by apply string6_family.
Qed.

Lemma addrChar_ne c : isDigit c = false -> ~ 97 <= c <= 102 -> c <> 46 -> c <> 58 -> forall x, addrChar x -> x <> c.
Proof. intros H1 H2 H3 H4 x [H|[H|[H|H]]] ->; congruence. Qed.

Lemma ParseAddr_addrString a : addrOk a -> ParseAddr (addrString a) = Some a.
Proof.
  intros Ha. rewrite addrString_body by done. pose proof Ha as [Hl Hb]. unfold ParseAddr. destruct Hl as [[Hl Hz]|Hl].
  - destruct a as [ip zone]. cbn in *. subst zone. rewrite app_nil_r. unfold addrBody. rewrite Hl. cbn [Nat.eqb].
    rewrite <- (app_nil_r (string4 ip)), string4_family, app_nil_r by done. by rewrite parseIPv4_string4.
  - rewrite addrBody_family by done. unfold parseIPv6.
    assert (37 ∉ addrBody (a_bytes a)) as H37 by (apply addrBody_free; [done|apply addrChar_ne; done || lia]).
    destruct a as [ip [|z zone]]; cbn [a_bytes a_zone zoneSuffix] in *.
    + rewrite app_nil_r, cutAt_none by done. by rewrite addrBody_parses.
    + rewrite cutAt_app by done. by rewrite addrBody_parses.
Qed.

Lemma ParsePrefix_prefixString ip bits : addrOk (mkAddr ip []) -> 0 <= bits <= 8 * zlen ip ->
  ParsePrefix (prefixString ip bits) = Some (ip, bits).
Proof.
  intros Ha Hbits. unfold ParsePrefix, prefixString.
  assert (length ip = 4%nat \/ length ip = 16%nat) as Hl by (destruct Ha as [[[? _]|?] _]; auto).
  destruct (Itoa_spec bits ltac:(lia)) as (Hd & Hv & Hne). cbn [app].
  rewrite cutLast_app by (by apply digits_free). cbn [mbind option_bind]. rewrite ParseAddr_addrString by done.
  cbn [mbind option_bind a_zone a_bytes]. change (bytes_eqb [] []) with true. cbn [negb].
  assert (0 <= bits < 129) as Hr by (destruct Hl; lia).
  pose proof (bounded_cases 129 (fun bits => negb ((1 <? length (Itoa bits))%nat &&
    ((nth 0 (Itoa bits) 0 <? 49) || (57 <? nth 0 (Itoa bits) 0))) &&
    match Atoi (Itoa bits) with Some n => n =? bits | None => false end) ltac:(by vm_compute) bits Hr) as H. cbv beta in H.
  apply andb_true_iff in H as [H1 H2]. apply negb_true_iff in H1 as ->.
  destruct (Atoi (Itoa bits)) as [n|]; [|done]. apply Z.eqb_eq in H2 as ->. cbn [mbind option_bind].
  rewrite (proj2 (Z.ltb_ge bits 0)) by lia. cbn [orb].
  destruct Hl as [Hl|Hl]; rewrite Hl in *; cbn [Nat.eqb]; by rewrite (proj2 (Z.ltb_ge _ _)) by lia.
Qed.

Lemma splitAddrPort_bracketed body port : 58 ∉ port -> port <> [] ->
  splitAddrPort (91 :: body ++ 93 :: 58 :: port) = Some (body, port, true).
Proof.
  intros H58 Hne. unfold splitAddrPort.
  replace (91 :: body ++ 93 :: 58 :: port) with ((91 :: body ++ [93]) ++ 58 :: port) by (cbn [app]; by rewrite <- app_assoc).
  rewrite cutLast_app by done. cbn [mbind option_bind]. destruct port as [|c s]; [done|].
  rewrite (proj2 (Nat.ltb_ge _ _)) by (cbn [length]; rewrite length_app; cbn; lia).
  rewrite app_comm_cons, last_snoc. cbn [default Z.eqb Pos.eqb negb orb].
  by rewrite length_app, Nat.add_sub, take_app_length.
Qed.

Lemma splitAddrPort_plain c s port : c <> 91 -> 58 ∉ port -> port <> [] ->
  splitAddrPort ((c :: s) ++ 58 :: port) = Some (c :: s, port, false).
Proof.
  intros Hc H58 Hne. unfold splitAddrPort. rewrite cutLast_app by done. cbn [mbind option_bind].
  destruct port; [done|]. destruct c as [|p|p]; try done. repeat (destruct p as [p|p|]; try done).
Qed.

Lemma ParseAddrPort_addrPortString a port : addrOk a -> 0 <= port < 65536 ->
  ParseAddrPort (addrPortString a port) = Some (a, port).
Proof.
  intros Ha Hp. destruct (Itoa_spec port ltac:(lia)) as (Hd & _ & Hne). unfold ParseAddrPort, addrPortString.
  assert (58 ∉ Itoa port) as H58 by by apply digits_free.
  pose proof Ha as [[[Hl Hz]|Hl] Hb]; rewrite Hl; cbn [Nat.eqb app].
  - assert (exists c s, addrString a = c :: s /\ c <> 91) as (c & s & E & Hc).
    { rewrite addrString_body by done. pose proof (addrBody_chars a Ha) as Hch.
      unfold addrBody in *. rewrite Hl, Hz in *. cbn [Nat.eqb zoneSuffix] in *.
      destruct (string4 (a_bytes a)) as [|c s] eqn:E.
      - pose proof (parseIPv4_string4 (a_bytes a) Hl Hb) as Hpar. by rewrite E in Hpar.
      - exists c, s. rewrite app_nil_r. split; [done|]. apply Forall_cons in Hch as [Hch _].
        apply (addrChar_ne 91); [done|lia..|done]. }
    rewrite E, splitAddrPort_plain by done. cbn [mbind option_bind]. rewrite ParseUint_Itoa by done.
    cbn [mbind option_bind]. rewrite <- E, ParseAddr_addrString by done. cbn [mbind option_bind]. by rewrite Hl.
  - rewrite splitAddrPort_bracketed by done. cbn [mbind option_bind]. rewrite ParseUint_Itoa by done.
    cbn [mbind option_bind]. rewrite ParseAddr_addrString by done. cbn [mbind option_bind]. by rewrite Hl.
Qed.
