(* ===== verification/Cookie.v ===== *)
(** The MAC fields and the cookie exchange of [device/cookie.go]: the
    responder's [CookieChecker] and the initiator's [CookieGenerator]. *)
From S2P Require Import Prelude Messages NoiseHelpers ToyCrypto.

Definition WGLabelMAC1 : bytes := of_string "mac1----".
Definition WGLabelCookie : bytes := of_string "cookie--".

Definition CookieRefreshTime : Z := second * 120.

Record CookieChecker := mkChecker {
  ck_mac1_key : bytes;
  ck_secret : bytes;
  ck_secretSet : gotime;
  ck_encryptionKey : bytes }.

Record CookieGenerator := mkGenerator {
  cg_mac1_key : bytes;
  cg_cookie : bytes;
  cg_cookieSet : gotime;
  cg_hasLastMAC1 : bool;
  cg_lastMAC1 : bytes;
  cg_encryptionKey : bytes }.

Definition zeroChecker : CookieChecker := mkChecker zeroKey zeroKey None zeroKey.
Definition zeroGenerator : CookieGenerator :=
  mkGenerator zeroKey (zeros 16) None false (zeros 16) zeroKey.

Section Cookie.
Context `{C : Crypto}.

(** ** The code.  [None] is the panic of a slice bound on a short message. *)

Definition checkerInit (st : CookieChecker) (pk : bytes) : CookieChecker :=
  mkChecker (blake2s256 (WGLabelMAC1 ++ pk)) (ck_secret st) None
    (blake2s256 (WGLabelCookie ++ pk)).

(** [msg[:smac1]], [msg[smac1:smac2]], [msg[smac2:]] *)
Definition macParts (msg : bytes) : option (bytes * bytes * bytes) :=
  let size := length msg in
  if decide (size < 32)%nat then None
  else
    let smac2 := (size - 16)%nat in
    let smac1 := (smac2 - 16)%nat in
    Some (take smac1 msg, slice smac1 smac2 msg, drop smac2 msg).

Definition CheckMAC1 (st : CookieChecker) (msg : bytes) : option bool :=
  '(body, m1, _) ← macParts msg;
  Some (bytes_eqb (blake2s128 (ck_mac1_key st) body) m1).

Definition CheckMAC2 (st : CookieChecker) (now : Z) (msg src : bytes) : option bool :=
  if since now (ck_secretSet st) >? CookieRefreshTime then Some false
  else
    let cookie := blake2s128 (ck_secret st) src in
    '(body, m1, m2) ← macParts msg;
    Some (bytes_eqb (blake2s128 cookie (body ++ m1)) m2).

(** [rnd1] is the answer of [rand.Read] for the secret, [rnd2] for the nonce;
    [now1] and [now2] the two readings of the clock. *)
Definition CreateReply (st : CookieChecker) (now1 now2 : Z) (rnd1 rnd2 : option bytes)
    (msg : bytes) (recv : Z) (src : bytes)
    : option (option MessageCookieReply * CookieChecker) :=
  let refreshed :=
    if since now1 (ck_secretSet st) >? CookieRefreshTime then
      match rnd1 with
      | None => None
      | Some b => Some (mkChecker (ck_mac1_key st) (copy_at (ck_secret st) 0 b)
                          (Some now2) (ck_encryptionKey st))
      end
    else Some st in
  match refreshed with
  | None => Some (None, st)
  | Some st =>
      let cookie := blake2s128 (ck_secret st) src in
      '(_, m1, _) ← macParts msg;
      match rnd2 with
      | None => Some (None, st)
      | Some nonce =>
          let nonce := copy_at (zeros 24) 0 nonce in
          Some (Some (mkCookieReply MessageCookieReplyType recv nonce
                        (xaead_seal (ck_encryptionKey st) nonce cookie m1)), st)
      end
  end.

Definition generatorInit (st : CookieGenerator) (pk : bytes) : CookieGenerator :=
  mkGenerator (blake2s256 (WGLabelMAC1 ++ pk)) (cg_cookie st) None
    (cg_hasLastMAC1 st) (cg_lastMAC1 st) (blake2s256 (WGLabelCookie ++ pk)).

Definition ConsumeReply (st : CookieGenerator) (now : Z) (msg : MessageCookieReply)
    : bool * CookieGenerator :=
  if negb (cg_hasLastMAC1 st) then (false, st)
  else
    match xaead_open (cg_encryptionKey st) (mc_Nonce msg) (mc_Cookie msg) (cg_lastMAC1 st) with
    | None => (false, st)
    | Some cookie =>
        (true, mkGenerator (cg_mac1_key st) (copy_at (zeros 16) 0 cookie) (Some now)
                 (cg_hasLastMAC1 st) (cg_lastMAC1 st) (cg_encryptionKey st))
    end.

Definition AddMacs (st : CookieGenerator) (now : Z) (msg : bytes)
    : option (bytes * CookieGenerator) :=
  '(body, m1, m2) ← macParts msg;
  let mac1 := blake2s128 (cg_mac1_key st) body in
  let st := mkGenerator (cg_mac1_key st) (cg_cookie st) (cg_cookieSet st) true mac1
              (cg_encryptionKey st) in
  if since now (cg_cookieSet st) >? CookieRefreshTime
  then Some (body ++ mac1 ++ m2, st)
  else Some (body ++ mac1 ++ blake2s128 (cg_cookie st) (body ++ mac1), st).

End Cookie.

(** ** Lemmas *)

Lemma macParts_app body m1 m2 : length m1 = 16%nat -> length m2 = 16%nat ->
  macParts (body ++ m1 ++ m2) = Some (body, m1, m2).
Proof.
  intros H1 H2. unfold macParts. rewrite !length_app, H1, H2.
  rewrite decide_False by lia.
  replace (length body + (16 + 16) - 16)%nat with (length body + 16)%nat by lia.
  replace (length body + 16 - 16)%nat with (length body) by lia.
  rewrite slice_app_mid by lia. rewrite take_app_length.
  rewrite app_assoc, drop_app_length' by (rewrite length_app; lia). done.
Qed.

Lemma macParts_split msg : (32 <= length msg)%nat -> exists body m1 m2,
  msg = body ++ m1 ++ m2 /\ length m1 = 16%nat /\ length m2 = 16%nat /\
  macParts msg = Some (body, m1, m2).
Proof.
  intros Hl. set (n := (length msg - 32)%nat).
  exists (take n msg), (take 16 (drop n msg)), (drop 16 (drop n msg)).
  assert (msg = take n msg ++ take 16 (drop n msg) ++ drop 16 (drop n msg)) as Hm
    by by rewrite !take_drop.
  assert (length (take 16 (drop n msg)) = 16 /\ length (drop 16 (drop n msg)) = 16)%nat as [H1 H2].
  { rewrite length_take, !length_drop. lia. }
  split_and!; [done..|]. rewrite Hm at 1. by apply macParts_app.
Qed.

Lemma macParts_short msg : (length msg < 32)%nat -> macParts msg = None.
Proof. intros. unfold macParts. by rewrite decide_True. Qed.

Section CookieLemmas.
Context `{C : Crypto} `{!CryptoLaws C}.

Lemma mac_length k m : length (blake2s128 k m) = 16%nat.
Proof. apply blake2s128_array. Qed.

Lemma copy_full (a b : bytes) : length a = length b -> copy_at a 0 b = b.
Proof.
  intros Hl. rewrite copy_at_here by lia. by rewrite drop_ge, app_nil_r by lia.
Qed.

(** The two outcomes of [AddMacs], with their parts. *)
Lemma AddMacs_parts g now msg : (32 <= length msg)%nat ->
  exists body m2 g', let mac1 := blake2s128 (cg_mac1_key g) body in
    AddMacs g now msg = Some (body ++ mac1 ++ m2, g') /\ length m2 = 16%nat /\
    length (body ++ mac1 ++ m2) = length msg /\
    g' = mkGenerator (cg_mac1_key g) (cg_cookie g) (cg_cookieSet g) true mac1 (cg_encryptionKey g) /\
    (since now (cg_cookieSet g) <= CookieRefreshTime ->
     m2 = blake2s128 (cg_cookie g) (body ++ mac1)).
Proof.
  intros Hl. destruct (macParts_split msg Hl) as (body & m1 & m2 & -> & H1 & H2 & E).
  unfold AddMacs. rewrite E. cbn [mbind option_bind cg_cookieSet cg_cookie].
  pose proof (mac_length (cg_mac1_key g) body). rewrite Z.gtb_ltb.
  destruct (Z.ltb_spec CookieRefreshTime (since now (cg_cookieSet g))).
  - exists body, m2. eexists. split_and!; [reflexivity|done| |reflexivity|lia].
    rewrite !length_app. lia.
  - exists body. eexists _, _. split_and!; [reflexivity|apply mac_length| |reflexivity|done].
    rewrite !length_app, !mac_length. lia.
Qed.

End CookieLemmas.

(** ** Properties *)

Section CookieProperties.
Context `{C : Crypto} `{!CryptoLaws C}.

(** Whatever the cookie state, a handshake message to which a generator
    for the responder's key adds its MACs keeps its length and passes the
    responder's MAC1 check. *)
Theorem AddMacs_passes_CheckMAC1 (g0 : CookieGenerator) (c0 : CookieChecker)
    (pk msg : bytes) (now : Z) :
  (32 <= length msg)%nat ->
  exists msg' g', AddMacs (generatorInit g0 pk) now msg = Some (msg', g') /\
    length msg' = length msg /\ take (length msg - 32) msg' = take (length msg - 32) msg /\
    CheckMAC1 (checkerInit c0 pk) msg' = Some true.
Proof.
  intros Hl. destruct (macParts_split msg Hl) as (body & m1 & m2 & Hm & H1 & H2 & E).
  destruct (AddMacs_parts (generatorInit g0 pk) now msg Hl)
    as (body' & m2' & g' & Ha & Hl2 & Hlen & _ & _).
  assert (body' = body) as ->.
  { revert Ha. unfold AddMacs. rewrite E. cbn [mbind option_bind].
    destruct (_ >? _); intros [= Hb _]; symmetry; apply app_inj_1 in Hb as [? _]; try done;
    rewrite Hm in Hlen; rewrite !length_app, !mac_length, H1, H2 in Hlen; lia. }
  eexists _, g'. split; [exact Ha|]. split; [done|].
  assert (length msg - 32 = length body)%nat as ->.
  { rewrite Hm, !length_app. lia. }
  split; [by rewrite Hm, !take_app_length|].
  unfold CheckMAC1. rewrite macParts_app by (done || apply mac_length).
  cbn [mbind option_bind]. by rewrite bytes_eqb_refl.
Qed.

(** C36: the cookie exchange works.  A responder under load answers a message
    with a cookie reply; the initiator accepts the reply, and the MAC2 it puts
    on its next message is accepted for the same source address as long as
    neither the cookie nor the responder's secret is older than
    [CookieRefreshTime]. *)
Theorem cookie_exchange (g0 : CookieGenerator) (c0 : CookieChecker)
    (pk msg msg2 src secret nonce : bytes) (recv t0 t1 t1' t2 t3 t4 : Z) :
  (32 <= length msg)%nat -> (32 <= length msg2)%nat ->
  sat64 (t3 - t2) <= CookieRefreshTime -> sat64 (t4 - t1') <= CookieRefreshTime ->
  exists msg1 g1 reply c1 g2 msg2' g3,
    AddMacs (generatorInit g0 pk) t0 msg = Some (msg1, g1) /\
    CreateReply (checkerInit c0 pk) t1 t1' (Some secret) (Some nonce) msg1 recv src
      = Some (Some reply, c1) /\
    ConsumeReply g1 t2 reply = (true, g2) /\
    AddMacs g2 t3 msg2 = Some (msg2', g3) /\
    CheckMAC1 c1 msg2' = Some true /\
    CheckMAC2 c1 t4 msg2' src = Some true.
Proof.
  intros Hl Hl2 Ht3 Ht4.
  destruct (AddMacs_parts (generatorInit g0 pk) t0 msg Hl)
    as (body & m2 & g1 & Ha & Hm2 & Hlen & Hg1 & _).
  cbn [cg_mac1_key generatorInit] in *.
  set (mac1 := blake2s128 _ body) in *.
  set (c1 := mkChecker (blake2s256 (WGLabelMAC1 ++ pk)) (copy_at (ck_secret c0) 0 secret)
               (Some t1') (blake2s256 (WGLabelCookie ++ pk))).
  set (cookie := blake2s128 (ck_secret c1) src).
  set (non := copy_at (zeros 24) 0 nonce).
  set (reply := mkCookieReply MessageCookieReplyType recv non
    (xaead_seal (blake2s256 (WGLabelCookie ++ pk)) non cookie mac1)).
  set (g2 := mkGenerator (cg_mac1_key g1) cookie (Some t2) true mac1 (cg_encryptionKey g1)).
  destruct (AddMacs_parts g2 t3 msg2 Hl2) as (body2 & m22 & g3 & Ha2 & Hm22 & _ & _ & Hmac2).
  specialize (Hmac2 Ht3). cbn [cg_mac1_key cg_cookie g2] in *.
  rewrite Hg1 in Ha2, Hmac2. cbn [cg_mac1_key] in *.
  eexists _, g1, reply, c1, g2, _, g3. split_and!.
  - exact Ha.
  - unfold CreateReply. cbn [ck_secretSet checkerInit since].
    change (2 ^ 63 - 1 >? CookieRefreshTime) with true. cbv match.
    rewrite macParts_app by (done || apply mac_length). reflexivity.
  - unfold ConsumeReply. rewrite Hg1. cbn [cg_hasLastMAC1 negb cg_encryptionKey cg_lastMAC1
      generatorInit mc_Nonce mc_Cookie reply]. rewrite xaead_open_seal.
    rewrite copy_full by (symmetry; apply mac_length).
    unfold g2. by rewrite Hg1.
  - exact Ha2.
  - unfold CheckMAC1. rewrite macParts_app by (done || apply mac_length).
    cbn [mbind option_bind]. by rewrite bytes_eqb_refl.
  - unfold CheckMAC2. cbn [ck_secretSet c1 since]. rewrite Z.gtb_ltb.
    destruct (Z.ltb_spec CookieRefreshTime (sat64 (t4 - t1'))); [lia|].
    rewrite macParts_app by (done || apply mac_length). cbn [mbind option_bind].
    rewrite Hmac2. by rewrite bytes_eqb_refl.
Qed.

End CookieProperties.

(** ** Witnesses *)

Definition toy_pk : bytes := le_enc 32 123456789.
Definition toy_msg : bytes := le_enc 40 987654321987654321.

Lemma AddMacs_passes_CheckMAC1_witness :
  (32 <= length toy_msg)%nat /\
  exists msg' g', AddMacs (generatorInit zeroGenerator toy_pk) 5 toy_msg = Some (msg', g') /\
    length msg' = length toy_msg /\
    take (length toy_msg - 32) msg' = take (length toy_msg - 32) toy_msg /\
    CheckMAC1 (checkerInit zeroChecker toy_pk) msg' = Some true.
Proof.
  split; [vm_compute; lia|].
  apply (AddMacs_passes_CheckMAC1 zeroGenerator zeroChecker toy_pk toy_msg 5).
  vm_compute; lia.
Defined.

Lemma cookie_exchange_witness :
  exists msg1 g1 reply c1 g2 msg2' g3,
    AddMacs (generatorInit zeroGenerator toy_pk) 5 toy_msg = Some (msg1, g1) /\
    CreateReply (checkerInit zeroChecker toy_pk) 6 7 (Some (le_enc 32 77)) (Some (le_enc 24 3))
      msg1 9 [1; 2; 3; 4] = Some (Some reply, c1) /\
    ConsumeReply g1 8 reply = (true, g2) /\
    AddMacs g2 (8 + 100 * second) toy_msg = Some (msg2', g3) /\
    CheckMAC1 c1 msg2' = Some true /\
    CheckMAC2 c1 (7 + 120 * second) msg2' [1; 2; 3; 4] = Some true.
Proof.
  apply (cookie_exchange zeroGenerator zeroChecker toy_pk toy_msg toy_msg [1; 2; 3; 4]
    (le_enc 32 77) (le_enc 24 3) 9 5 6 7 8 (8 + 100 * second) (7 + 120 * second)).
  all: vm_compute; discriminate || lia.
Defined.
