(* ===== verification/AllowedIPs.v ===== *)
(** The routing table of allowed IPs, [device/allowedips.go]: a heap of trie
    nodes with pointers down and up, translated operation by operation. *)
From S2P Require Import Prelude.

Abbreviation node_id := positive.
Abbreviation trie_peer := positive.

Definition IPv4len : nat := 4.
Definition IPv6len : nat := 16.

(** ** The heap of nodes *)

(** A [**trieEntry]: the root of a family, or a child field of a node. *)
Inductive slot := RootSlot (v6 : bool) | ChildSlot (n : node_id) (bit : bool).
#[export] Instance slot_eq_dec : EqDecision slot.
Proof. solve_decision. Defined.

Record parentIndirection := mkParent { parentBit : option slot; parentBitType : Z }.

(** [perPeerElem] is whether the node is linked in its peer's list. *)
Record trieEntry := mkEntry {
  te_peer : option trie_peer; child0 : option node_id; child1 : option node_id;
  parent : parentIndirection; cidr : Z; bitAtByte : Z; bitAtShift : Z; bits : bytes;
  perPeerElem : bool }.
#[export] Instance trieEntry_settable : Settable trieEntry := fun n =>
  mkEntry (te_peer n) (child0 n) (child1 n) (parent n) (cidr n) (bitAtByte n) (bitAtShift n)
    (bits n) (perPeerElem n).

(** [trieEntries] is the list of each peer. *)
Record AllowedIPs := mkAllowedIPs {
  heap : gmap node_id trieEntry; IPv4 : option node_id; IPv6 : option node_id;
  trieEntries : gmap trie_peer (list node_id) }.
#[export] Instance AllowedIPs_settable : Settable AllowedIPs := fun t =>
  mkAllowedIPs (heap t) (IPv4 t) (IPv6 t) (trieEntries t).

Definition emptyTable : AllowedIPs := mkAllowedIPs ∅ None None ∅.

Abbreviation T := (ST AllowedIPs).

(** Dereferencing; a dangling pointer panics. *)
Definition getNode (n : node_id) : T trieEntry := fun t =>
  match heap t !! n with Some e => Some (e, t) | None => None end.
Definition modNode (n : node_id) (f : trieEntry -> trieEntry) : T unit := fun t =>
  match heap t !! n with
  | Some e => Some (tt, t <| heap ::= <[n := f e]> |>)
  | None => None
  end.
Definition newNode (e : trieEntry) : T node_id := fun t =>
  let n := fresh (dom (heap t)) in Some (n, t <| heap ::= <[n := e]> |>).

Definition childOf (e : trieEntry) (bit : bool) : option node_id :=
  if bit then child1 e else child0 e.
Definition setChild (bit : bool) (v : option node_id) (e : trieEntry) : trieEntry :=
  if bit then e <| child1 := v |> else e <| child0 := v |>.

Definition readSlot (s : slot) : T (option node_id) :=
  match s with
  | RootSlot v6 => fun t => Some (if v6 then IPv6 t else IPv4 t, t)
  | ChildSlot n bit => let* e := getNode n in ret (childOf e bit)
  end.
Definition writeSlot (s : slot) (v : option node_id) : T unit :=
  match s with
  | RootSlot v6 => fun t => Some (tt, if v6 then t <| IPv6 := v |> else t <| IPv4 := v |>)
  | ChildSlot n bit => modNode n (setChild bit v)
  end.

Definition bitZ (bit : bool) : Z := if bit then 1 else 0.

(** ** Arithmetic on addresses *)

(** [bits.LeadingZeros32] and [bits.LeadingZeros64] *)
Definition leadingZeros (w x : Z) : Z := if x =? 0 then w else w - 1 - Z.log2 x.

(** Equal lengths of 4 or 16 bytes; any other size panics. *)
Definition commonBits (ip1 ip2 : bytes) : Z :=
  if Nat.eqb (length ip1) IPv4len then
    u8 (leadingZeros 32 (Z.lxor (be_dec (slice 0 4 ip1)) (be_dec (slice 0 4 ip2))))
  else
    let x := Z.lxor (be_dec (slice 0 8 ip1)) (be_dec (slice 0 8 ip2)) in
    if negb (x =? 0) then u8 (leadingZeros 64 x)
    else
      let x := Z.lxor (be_dec (slice 8 16 ip1)) (be_dec (slice 8 16 ip2)) in
      u8 (64 + u8 (leadingZeros 64 x)).

(** [(ip[node.bitAtByte] >> node.bitAtShift) & 1]; [None] out of range. *)
Definition choose (e : trieEntry) (ip : bytes) : option bool :=
  b ← ip !! Z.to_nat (bitAtByte e);
  Some (Z.land (Z.shiftr b (bitAtShift e)) 1 =? 1).

(** [net.CIDRMask] of the standard library *)
Fixpoint cidrMaskLoop (l : nat) (n : Z) : bytes :=
  match l with
  | O => []
  | S l =>
      if 8 <=? n then 255 :: cidrMaskLoop l (n - 8)
      else Z.lxor 255 (Z.shiftr 255 n) :: cidrMaskLoop l 0
  end.
Definition CIDRMask (ones bits : Z) : bytes :=
  if (ones <? 0) || (bits <? ones) then [] else cidrMaskLoop (Z.to_nat (bits / 8)) ones.

Fixpoint maskWith (bits mask : bytes) : bytes :=
  match bits, mask with
  | b :: bits, m :: mask => Z.land b m :: maskWith bits mask
  | _, _ => bits
  end.
Definition masked (bits : bytes) (cidr : Z) : bytes :=
  maskWith bits (CIDRMask cidr (zlen bits * 8)).

(** ** The operations *)

Definition orPanic {A} (o : option A) : T A :=
  match o with Some a => ret a | None => panic end.

Definition addToPeerEntries (n : node_id) : T unit :=
  let* e := getNode n in
  let* p := orPanic (te_peer e) in
  (fun t => Some (tt, t <| trieEntries ::= fun m => <[p := default [] (m !! p) ++ [n]]> m |>));;;
  modNode n (fun e => e <| perPeerElem := true |>).

Definition removeFromPeerEntries (n : node_id) : T unit :=
  let* e := getNode n in
  if perPeerElem e then
    let* p := orPanic (te_peer e) in
    (fun t => Some (tt, t <| trieEntries ::= fun m =>
       <[p := filter (fun x => x <> n) (default [] (m !! p))]> m |>));;;
    modNode n (fun e => e <| perPeerElem := false |>)
  else ret tt.

Definition zeroizePointers (n : node_id) : T unit :=
  modNode n (fun e => e <| te_peer := None |> <| child0 := None |> <| child1 := None |>
    <| parent := mkParent None (parentBitType (parent e)) |>).

(** The loop goes down with strictly growing [cidr]; [fuel] bounds it. *)
Fixpoint nodePlacement (fuel : nat) (node : option node_id) (ip : bytes) (c : Z)
    (par : option node_id) : T (option node_id * bool) :=
  match fuel, node with
  | O, _ => panic
  | _, None => ret (par, false)
  | S fuel, Some n =>
      let* e := getNode n in
      if (cidr e <=? c) && (cidr e <=? commonBits (bits e) ip) then
        if cidr e =? c then ret (Some n, true)
        else let* bit := orPanic (choose e ip) in nodePlacement fuel (childOf e bit) ip c (Some n)
      else ret (par, false)
  end.

Definition depth : nat := 130.

Definition blankNode (ip : bytes) (c : Z) (peer : option trie_peer) (par : parentIndirection)
    : trieEntry :=
  mkEntry peer None None par c (c / 8) (7 - c mod 8) ip false.

(** Storing [child] under [bit] of [n], with the pointer back up. *)
Definition attach (n : node_id) (bit : bool) (child : node_id) : T unit :=
  modNode child (fun e => e <| parent := mkParent (Some (ChildSlot n bit)) (bitZ bit) |>);;;
  modNode n (setChild bit (Some child)).

(** Hanging [n] where [trie] points, or under the node [par]. *)
Definition hang (trie : parentIndirection) (s : slot) (par : option node_id) (n : node_id) : T unit :=
  let* e := getNode n in
  match par with
  | None => modNode n (fun e => e <| parent := trie |>);;; writeSlot s (Some n)
  | Some q =>
      let* qe := getNode q in
      let* bit := orPanic (choose qe (bits e)) in
      attach q bit n
  end.

(** The end of [insert], from [var down]: linking [new] in below [node], or
    above or beside what hangs there. *)
Definition linkNew (s : slot) (trie : parentIndirection) (root : node_id) (node : option node_id)
    (new : node_id) (ip : bytes) (c : Z) : T unit :=
  let* ' (down, bit) :=
    match node with
    | None => ret (Some root, false)
    | Some q =>
        let* qe := getNode q in
        let* bit := orPanic (choose qe ip) in
        ret (childOf qe bit, bit)
    end in
  match down with
  | None =>
      let* q := orPanic node in
      attach q bit new
  | Some down =>
      let* de := getNode down in
      let* ne := getNode new in
      let common := commonBits (bits de) ip in
      let c := if common <? c then common else c in
      if cidr ne =? c then
        let* bit := orPanic (choose ne (bits de)) in
        attach new bit down;;;
        hang trie s node new
      else
        let* branch := newNode (blankNode (masked (bits ne) c) c None (mkParent None 0)) in
        let* be := getNode branch in
        let* bit := orPanic (choose be (bits de)) in
        attach branch bit down;;;
        let* bit := orPanic (choose be (bits ne)) in
        attach branch bit new;;;
        hang trie s node branch
  end.

(** [newNode.maskSelf] masks [ip] itself, which the node's [bits] alias. *)
Definition insert (v6 : bool) (ip : bytes) (c : Z) (peer : trie_peer) : T unit :=
  let s := RootSlot v6 in
  let trie := mkParent (Some s) 2 in
  let* root := readSlot s in
  match root with
  | None =>
      let* n := newNode (blankNode (masked ip c) c (Some peer) trie) in
      addToPeerEntries n;;;
      writeSlot s (Some n)
  | Some root =>
      let* ' (node, exact) := nodePlacement depth (Some root) ip c None in
      if exact then
        let* n := orPanic node in
        removeFromPeerEntries n;;;
        modNode n (fun e => e <| te_peer := Some peer |>);;;
        addToPeerEntries n
      else
        let ip := masked ip c in
        let* new := newNode (blankNode ip c (Some peer) (mkParent None 0)) in
        addToPeerEntries new;;;
        linkNew s trie root node new ip c
  end.

Fixpoint lookup (fuel : nat) (node : option node_id) (ip : bytes) (found : option trie_peer)
    : T (option trie_peer) :=
  match fuel, node with
  | O, _ => panic
  | _, None => ret found
  | S fuel, Some n =>
      let* e := getNode n in
      if cidr e <=? commonBits (bits e) ip then
        let found := match te_peer e with Some p => Some p | None => found end in
        if bitAtByte e =? u8 (zlen ip) then ret found
        else let* bit := orPanic (choose e ip) in lookup fuel (childOf e bit) ip found
      else ret found
  end.

Definition isSome {A} (o : option A) : bool := match o with Some _ => true | None => false end.

(** [c.parent = v], for a pointer that may be nil. *)
Definition setParentOf (c : option node_id) (v : parentIndirection) : T unit :=
  match c with None => ret tt | Some c => modNode c (fun e => e <| parent := v |>) end.

(** The node that holds the slot, by the pointer arithmetic on its address. *)
Definition nodeOfSlot (par : parentIndirection) : option node_id :=
  match parentBit par with
  | Some (ChildSlot n bit) => if bitZ bit =? parentBitType par then Some n else None
  | _ => None
  end.

Definition remove (n : node_id) : T unit :=
  removeFromPeerEntries n;;;
  modNode n (fun e => e <| te_peer := None |>);;;
  let* e := getNode n in
  if isSome (child0 e) && isSome (child1 e) then ret tt
  else
    let bit := negb (isSome (child0 e)) in
    let child := childOf e bit in
    setParentOf child (parent e);;;
    let* s := orPanic (parentBit (parent e)) in
    writeSlot s child;;;
    if isSome (child0 e) || isSome (child1 e) || (1 <? parentBitType (parent e)) then
      zeroizePointers n
    else
      let* q := orPanic (nodeOfSlot (parent e)) in
      let* qe := getNode q in
      if isSome (te_peer qe) then zeroizePointers n
      else
        let child := childOf qe (Z.lxor (parentBitType (parent e)) 1 =? 1) in
        setParentOf child (parent qe);;;
        let* qs := orPanic (parentBit (parent qe)) in
        writeSlot qs child;;;
        zeroizePointers n;;;
        zeroizePointers q.

(** ** The table: a prefix is an address of 4 or 16 bytes and a length *)

Definition familyOf (ip : bytes) : option bool :=
  if Nat.eqb (length ip) IPv6len then Some true
  else if Nat.eqb (length ip) IPv4len then Some false else None.

Definition Insert (ip : bytes) (c : Z) (peer : trie_peer) : T unit :=
  let* v6 := orPanic (familyOf ip) in insert v6 ip (u8 c) peer.

Definition Remove (ip : bytes) (c : Z) (peer : trie_peer) : T unit :=
  let* v6 := orPanic (familyOf ip) in
  let* root := readSlot (RootSlot v6) in
  let* ' (node, exact) := nodePlacement depth root ip (u8 c) None in
  match node with
  | Some n =>
      let* e := getNode n in
      if negb exact || negb (bool_decide (te_peer e = Some peer)) then ret tt else remove n
  | None => ret tt
  end.

Definition RemoveByPeer (peer : trie_peer) : T unit := fun t =>
  forEach (default [] (trieEntries t !! peer)) remove t.

Definition Lookup (ip : bytes) : T (option trie_peer) :=
  let* v6 := orPanic (familyOf ip) in
  let* root := readSlot (RootSlot v6) in
  lookup depth root ip None.

(** [EntriesForPeer] with a callback that gathers what it is given. *)
Definition EntriesForPeer (peer : trie_peer) : T (list (bytes * Z)) := fun t =>
  match mapM (fun n => e ← heap t !! n; Some (bits e, cidr e))
             (default [] (trieEntries t !! peer)) with
  | Some l => Some (l, t)
  | None => None
  end.
