(* ===== verification/TrieBits.v ===== *)
(** Addresses as strings of bits: what the byte arithmetic of
    [device/allowedips.go] computes on prefixes. *)
From S2P Require Import Prelude AllowedIPs.

(** The bits of an address, most significant first. *)
Definition bitsOf (ip : bytes) : list bool :=
  (fun i => Z.testbit (be_dec ip) (8 * zlen ip - 1 - Z.of_nat i)) <$> seq 0 (8 * length ip).

(** Addresses of the two families. *)
Definition address (ip : bytes) : Prop :=
  (length ip = IPv4len \/ length ip = IPv6len) /\ all_bytes ip.

(** ** Lemmas *)

Lemma length_bitsOf ip : length (bitsOf ip) = (8 * length ip)%nat.
Proof. unfold bitsOf. by rewrite length_fmap, length_seq. Qed.

Lemma bitsOf_lookup ip i : (i < 8 * length ip)%nat ->
  bitsOf ip !! i = Some (Z.testbit (be_dec ip) (8 * zlen ip - 1 - Z.of_nat i)).
Proof. intros. unfold bitsOf. rewrite list_lookup_fmap, lookup_seq_lt by lia. done. Qed.

(** A byte holds the bits of its eight positions. *)
Lemma be_dec_testbit ip k j b : all_bytes ip -> ip !! k = Some b -> 0 <= j < 8 ->
  Z.testbit (be_dec ip) (8 * (zlen ip - 1 - Z.of_nat k) + j) = Z.testbit b j.
Proof.
  intros Hb. revert k. induction Hb as [|x ip Hx Hip IH]; intros k Hk Hj; [done|].
  pose proof (be_dec_range ip Hip) as R. rewrite be_dec_cons. unfold is_byte in Hx.
  assert (256 ^ zlen ip = 2 ^ (8 * zlen ip)) as Hpow by (rewrite Z.pow_mul_r by lia; done).
  rewrite Hpow in *. rewrite Z.mul_comm, Z.add_comm.
  destruct k as [|k]; cbn [length]; rewrite Nat2Z.inj_succ.
  - injection Hk as ->. replace (8 * (Z.succ (zlen ip) - 1 - Z.of_nat 0) + j) with (j + 8 * zlen ip) by lia.
    rewrite <- (Z.div_pow2_bits _ _ j) by lia. f_equal.
    rewrite Z.div_add, Z.div_small by lia. lia.
  - simpl in Hk. pose proof (lookup_lt_Some _ _ _ Hk).
    replace (8 * (Z.succ (zlen ip) - 1 - Z.of_nat (S k)) + j)
      with (8 * (zlen ip - 1 - Z.of_nat k) + j) by lia.
    rewrite <- (IH k) by done.
    rewrite <- (Z.mod_pow2_bits_low _ (8 * zlen ip)) by lia.
    rewrite Z.mod_add by lia. rewrite Z.mod_small by lia. done.
Qed.

Lemma bitsOf_byte ip k j b : all_bytes ip -> ip !! k = Some b -> (j < 8)%nat ->
  bitsOf ip !! (8 * k + j)%nat = Some (Z.testbit b (7 - Z.of_nat j)).
Proof.
  intros Hb Hk Hj. pose proof (lookup_lt_Some _ _ _ Hk). rewrite bitsOf_lookup by lia. f_equal.
  rewrite <- (be_dec_testbit ip k (7 - Z.of_nat j) b) by (done || lia). f_equal. lia.
Qed.

(** The leading zeros of an exclusive or count the common leading bits. *)
Lemma leadingZeros_spec w x k : 0 <= x < 2 ^ w -> 0 <= k <= w ->
  k <= leadingZeros w x <-> x < 2 ^ (w - k).
Proof.
  intros Hx Hk. unfold leadingZeros. destruct (Z.eqb_spec x 0) as [->|Hnz].
  - split; [intros _; apply Z.pow_pos_nonneg; lia|lia].
  - rewrite Z.log2_lt_pow2 by lia. lia.
Qed.

Lemma leadingZeros_range w x : 0 < w -> 0 <= x < 2 ^ w -> 0 <= leadingZeros w x <= w.
Proof.
  intros Hw Hx. unfold leadingZeros. destruct (Z.eqb_spec x 0); [lia|].
  pose proof (Z.log2_nonneg x). assert (Z.log2 x < w) by (apply Z.log2_lt_pow2; lia). lia.
Qed.

Lemma lxor_range a b w : 0 <= w -> 0 <= a < 2 ^ w -> 0 <= b < 2 ^ w -> 0 <= Z.lxor a b < 2 ^ w.
Proof.
  intros Hw Ha Hb. assert (0 <= Z.lxor a b) by (apply Z.lxor_nonneg; lia). split; [done|].
  destruct (decide (Z.lxor a b = 0)) as [->|]; [apply Z.pow_pos_nonneg; lia|].
  apply Z.log2_lt_pow2; [lia|]. pose proof (Z.log2_lxor a b).
  assert (forall c, 0 <= c < 2 ^ w -> Z.log2 c < w \/ c = 0) as Hlog.
  { intros c Hc. destruct (decide (c = 0)); [by right|left]. apply Z.log2_lt_pow2; lia. }
  destruct (decide (w = 0)) as [->|].
  { assert (a = 0) as -> by lia. assert (b = 0) as -> by lia. done. }
  destruct (Hlog a Ha) as [| ->], (Hlog b Hb) as [| ->]; simpl in *; lia.
Qed.

Lemma lxor_lt_pow2 a b n : 0 <= n -> 0 <= a -> 0 <= b ->
  Z.lxor a b < 2 ^ n <-> (forall i, n <= i -> Z.testbit a i = Z.testbit b i).
Proof.
  intros Hn Ha Hb. assert (0 <= Z.lxor a b) by (apply Z.lxor_nonneg; lia). split.
  - intros Hlt i Hi. assert (Z.testbit (Z.lxor a b) i = false) as E.
    { destruct (decide (Z.lxor a b = 0)) as [->|]; [apply Z.bits_0|].
      apply Z.bits_above_log2; [done|]. assert (Z.log2 (Z.lxor a b) < n) by (apply Z.log2_lt_pow2; lia). lia. }
    rewrite Z.lxor_spec in E. by apply xorb_eq.
  - intros Heq. destruct (Z.ltb_spec (Z.lxor a b) (2 ^ n)); [done|].
    assert (0 < 2 ^ n) by (apply Z.pow_pos_nonneg; lia).
    assert (n <= Z.log2 (Z.lxor a b)) by (apply Z.log2_le_pow2; lia).
    pose proof (Z.bit_log2 (Z.lxor a b) ltac:(lia)) as E.
    rewrite Z.lxor_spec, Heq, xorb_nilpotent in E by lia. done.
Qed.

Lemma take_bitsOf_eq a b k : length a = length b -> (k <= 8 * length a)%nat ->
  take k (bitsOf a) = take k (bitsOf b) <->
  (forall i, (i < k)%nat -> bitsOf a !! i = bitsOf b !! i).
Proof.
  intros Hl Hk. split.
  - intros E i Hi. rewrite <- (lookup_take_lt (bitsOf a) k), <- (lookup_take_lt (bitsOf b) k) by lia.
    by rewrite E.
  - intros Heq. apply list_eq. intros i. destruct (decide (i < k)%nat).
    + rewrite !lookup_take_lt by lia. auto.
    + by rewrite !lookup_take_ge by lia.
Qed.

(** One block of an address, from bit [8 * lo] to bit [8 * hi]. *)
Lemma common_block (a b : bytes) k : length a = length b -> all_bytes a -> all_bytes b ->
  0 <= k <= 8 * zlen a ->
  k <= leadingZeros (8 * zlen a) (Z.lxor (be_dec a) (be_dec b)) <->
  take (Z.to_nat k) (bitsOf a) = take (Z.to_nat k) (bitsOf b).
Proof.
  intros Hl Ha Hb Hk. pose proof (be_dec_range a Ha) as Ra. pose proof (be_dec_range b Hb) as Rb.
  rewrite <- Hl in Rb. assert (256 ^ zlen a = 2 ^ (8 * zlen a)) as Hpow by (rewrite Z.pow_mul_r by lia; done).
  rewrite Hpow in *. rewrite leadingZeros_spec by (try apply lxor_range; lia).
  rewrite lxor_lt_pow2, take_bitsOf_eq by lia. split.
  - intros Heq i Hi. rewrite !bitsOf_lookup by lia. rewrite <- Hl, Heq by lia. done.
  - intros Heq i Hi. destruct (Z.ltb_spec i (8 * zlen a)).
    + specialize (Heq (Z.to_nat (8 * zlen a - 1 - i)) ltac:(lia)).
      rewrite !bitsOf_lookup in Heq by lia. injection Heq as Heq.
      rewrite <- Hl in Heq. replace (8 * zlen a - 1 - Z.of_nat _) with i in Heq by lia. done.
    + assert (forall c, 0 <= c < 2 ^ (8 * zlen a) -> Z.testbit c i = false) as Hz.
      { intros c Hc. rewrite <- (Z.mod_small c (2 ^ (8 * zlen a))) by lia.
        apply Z.mod_pow2_bits_high. lia. }
      by rewrite !Hz.
Qed.

Lemma bitsOf_app a b : all_bytes a -> all_bytes b -> bitsOf (a ++ b) = bitsOf a ++ bitsOf b.
Proof.
  intros Ha Hb. apply list_eq. intros i. destruct (decide (i < 8 * (length a + length b))%nat).
  - rewrite (Nat.div_mod i 8) by lia. pose proof (Nat.mod_upper_bound i 8 ltac:(lia)).
    pose proof (Nat.Div0.div_lt_upper_bound i 8 (length a + length b) ltac:(lia)).
    destruct (lookup_lt_is_Some_2 (a ++ b) (i / 8)) as [x Hx]; [rewrite length_app; lia|].
    rewrite (bitsOf_byte _ _ _ x) by (try apply Forall_app; done || lia).
    destruct (decide (i / 8 < length a)%nat).
    + rewrite lookup_app_l in Hx by done. rewrite lookup_app_l by (rewrite length_bitsOf; lia).
      by rewrite (bitsOf_byte _ _ _ x) by (done || lia).
    + rewrite lookup_app_r in Hx by lia. rewrite lookup_app_r by (rewrite length_bitsOf; lia).
      rewrite length_bitsOf.
      replace (8 * (i / 8) + i mod 8 - 8 * length a)%nat with (8 * (i / 8 - length a) + i mod 8)%nat by lia.
      by rewrite (bitsOf_byte _ _ _ x) by (done || lia).
  - rewrite !lookup_ge_None_2; [done|rewrite length_app, !length_bitsOf; lia|].
    rewrite length_bitsOf, length_app. lia.
Qed.

Lemma be_dec_inj a b : length a = length b -> all_bytes a -> all_bytes b ->
  be_dec a = be_dec b -> a = b.
Proof. intros Hl Ha Hb E. rewrite <- (be_enc_dec a), <- (be_enc_dec b) by done. by rewrite Hl, E. Qed.

Lemma lz_block n (a b : bytes) : (0 < n)%nat -> length a = n -> length b = n ->
  all_bytes a -> all_bytes b ->
  0 <= leadingZeros (8 * Z.of_nat n) (Z.lxor (be_dec a) (be_dec b)) <= 8 * Z.of_nat n.
Proof.
  intros Hn La Lb Ha Hb. pose proof (be_dec_range a Ha) as Ra. pose proof (be_dec_range b Hb) as Rb.
  rewrite La in Ra. rewrite Lb in Rb.
  assert (256 ^ Z.of_nat n = 2 ^ (8 * Z.of_nat n)) as Hpow by (rewrite Z.pow_mul_r by lia; done).
  rewrite Hpow in *. apply leadingZeros_range; [lia|]. apply lxor_range; lia.
Qed.

Lemma commonBits_4 a b : length a = 4%nat -> length b = 4%nat -> all_bytes a -> all_bytes b ->
  commonBits a b = leadingZeros 32 (Z.lxor (be_dec a) (be_dec b)).
Proof.
  intros La Lb Ha Hb. unfold commonBits, slice. rewrite La. cbn [Nat.eqb IPv4len Nat.sub].
  rewrite !drop_0, !take_ge by lia. apply u8_small.
  pose proof (lz_block 4 a b ltac:(lia) La Lb Ha Hb) as R. change (8 * Z.of_nat 4) with 32 in R. lia.
Qed.

Lemma commonBits_16 a b a' b' : length a = 8%nat -> length b = 8%nat -> length a' = 8%nat ->
  length b' = 8%nat -> all_bytes a -> all_bytes b -> all_bytes a' -> all_bytes b' ->
  commonBits (a ++ a') (b ++ b') =
    if decide (a = b) then 64 + leadingZeros 64 (Z.lxor (be_dec a') (be_dec b'))
    else leadingZeros 64 (Z.lxor (be_dec a) (be_dec b)).
Proof.
  intros La Lb La' Lb' Ha Hb Ha' Hb'. unfold commonBits. rewrite length_app, La, La'.
  cbn [Nat.eqb IPv4len Nat.add]. rewrite !(slice_app_first _ _ 0 8), !(slice_app_last _ _ 8 16) by lia.
  pose proof (lz_block 8 a b ltac:(lia) La Lb Ha Hb) as R1.
  pose proof (lz_block 8 a' b' ltac:(lia) La' Lb' Ha' Hb') as R2.
  change (8 * Z.of_nat 8) with 64 in *.
  destruct (decide (a = b)) as [->|Hne].
  - rewrite Z.lxor_nilpotent. cbn [Z.eqb negb]. rewrite (u8_small (leadingZeros _ _)) by lia.
    apply u8_small. lia.
  - destruct (Z.eqb_spec (Z.lxor (be_dec a) (be_dec b)) 0) as [E|E]; cbn [negb].
    + apply Z.lxor_eq in E. destruct Hne. by apply be_dec_inj; [lia|..].
    + apply u8_small. lia.
Qed.

(** [commonBits] is the length of the longest common prefix. *)
Lemma commonBits_spec a b : address a -> address b -> length a = length b ->
  0 <= commonBits a b <= 8 * zlen a /\
  (forall k, (k <= 8 * length a)%nat ->
    Z.of_nat k <= commonBits a b <-> take k (bitsOf a) = take k (bitsOf b)).
Proof.
  intros [La Ha] [_ Hb] Hl. unfold IPv4len, IPv6len in La. destruct La as [La|La].
  - rewrite commonBits_4 by (done || lia). rewrite La. split.
    + apply (lz_block 4); done || lia.
    + intros k Hk. change 32 with (8 * Z.of_nat 4). rewrite <- La, common_block by (done || lia).
      by rewrite Nat2Z.id.
  - rewrite <- (take_drop 8 a), <- (take_drop 8 b).
    set (a1 := take 8 a) in *. set (a2 := drop 8 a) in *. set (b1 := take 8 b) in *. set (b2 := drop 8 b) in *.
    assert (all_bytes a1) by by apply Forall_take. assert (all_bytes b1) by by apply Forall_take.
    assert (all_bytes a2) by by apply Forall_drop. assert (all_bytes b2) by by apply Forall_drop.
    assert (length a1 = 8%nat) as La1 by (unfold a1; rewrite length_take; lia).
    assert (length b1 = 8%nat) as Lb1 by (unfold b1; rewrite length_take; lia).
    assert (length a2 = 8%nat) as La2 by (unfold a2; rewrite length_drop; lia).
    assert (length b2 = 8%nat) as Lb2 by (unfold b2; rewrite length_drop; lia).
    clearbody a1 a2 b1 b2. clear a b Ha Hb Hl La. rewrite commonBits_16, !bitsOf_app, length_app by done.
    pose proof (common_block a1 b1) as C1. pose proof (common_block a2 b2) as C2.
    pose proof (lz_block 8 a1 b1 ltac:(lia)) as R1. pose proof (lz_block 8 a2 b2 ltac:(lia)) as R2.
    pose proof (length_bitsOf a1) as Ba1. pose proof (length_bitsOf b1) as Bb1.
    rewrite La1 in *. rewrite La2 in *. rewrite Lb1 in *. rewrite Lb2 in *.
    change (8 * Z.of_nat 8) with 64 in *. change (8 * 8)%nat with 64%nat in *.
    specialize (R1 eq_refl eq_refl ltac:(done) ltac:(done)). specialize (R2 eq_refl eq_refl ltac:(done) ltac:(done)).
    specialize (fun k => C1 k eq_refl ltac:(done) ltac:(done)) as C1'.
    specialize (fun k => C2 k eq_refl ltac:(done) ltac:(done)) as C2'.
    destruct (decide (a1 = b1)) as [<-|Hne].
    + split; [lia|]. intros k Hk. destruct (decide (k <= 64)%nat).
      * rewrite !take_app_le by lia. split; [done|lia].
      * rewrite !take_app_ge, Ba1 by lia. specialize (C2' (Z.of_nat k - 64) ltac:(lia)).
        replace (Z.to_nat (Z.of_nat k - 64)) with (k - 64)%nat in C2' by lia.
        split; [intros; f_equal; apply C2'; lia|]. intros E. apply app_inv_head in E. apply C2' in E. lia.
    + assert (leadingZeros 64 (Z.lxor (be_dec a1) (be_dec b1)) < 64) as Hlt.
      { unfold leadingZeros. destruct (Z.eqb_spec (Z.lxor (be_dec a1) (be_dec b1)) 0) as [E|E].
        - apply Z.lxor_eq in E. destruct Hne. apply be_dec_inj; by rewrite ?La1.
        - pose proof (Z.log2_nonneg (Z.lxor (be_dec a1) (be_dec b1))). lia. }
      split; [lia|]. intros k Hk. destruct (decide (k <= 64)%nat).
      * rewrite !take_app_le by lia. specialize (C1' (Z.of_nat k) ltac:(lia)). by rewrite Nat2Z.id in C1'.
      * split; [lia|]. intros E. specialize (C1' 64 ltac:(lia)).
        assert (64 <= leadingZeros 64 (Z.lxor (be_dec a1) (be_dec b1))); [|lia]. apply C1'.
        apply (f_equal (take 64)) in E. rewrite !take_take, !Nat.min_l in E by lia.
        by rewrite !take_app_le in E by lia.
Qed.

(** The geometry that [insert] gives every node. *)
Definition shaped (e : trieEntry) : Prop :=
  bitAtByte e = cidr e / 8 /\ bitAtShift e = 7 - cidr e mod 8.

(** [choose] reads the bit after the prefix. *)
Lemma choose_spec e ip c : shaped e -> cidr e = Z.of_nat c -> all_bytes ip ->
  (c < 8 * length ip)%nat -> choose e ip = bitsOf ip !! c.
Proof.
  intros [Hby Hsh] Hc Hb Hlt. unfold choose. rewrite Hby, Hsh, Hc.
  pose proof (Nat.mod_upper_bound c 8 ltac:(lia)) as Hm.
  pose proof (Nat.Div0.div_lt_upper_bound c 8 (length ip) ltac:(lia)) as Hd.
  destruct (lookup_lt_is_Some_2 ip (c / 8) Hd) as [b Eb].
  replace (Z.to_nat (Z.of_nat c / 8)) with (c / 8)%nat
    by (change 8 with (Z.of_nat 8); rewrite <- Nat2Z.inj_div, Nat2Z.id; done).
  rewrite Eb. cbn [mbind option_bind]. replace c with (8 * (c / 8) + c mod 8)%nat at 2
    by (symmetry; apply Nat.div_mod; lia).
  rewrite (bitsOf_byte _ _ _ b) by (done || lia). f_equal.
  replace (Z.of_nat c mod 8) with (Z.of_nat (c mod 8)) by (rewrite Nat2Z.inj_mod; done).
  change 1 with (Z.ones 1) at 1. rewrite Z.land_ones by lia.
  rewrite Z.testbit_eqb, Z.shiftr_div_pow2 by lia. reflexivity.
Qed.

(** The mask byte that keeps the first [s] bits. *)
Lemma mask_bit s j : 0 <= s <= 8 -> (j < 8)%nat ->
  Z.testbit (Z.lxor 255 (Z.shiftr 255 s)) (7 - Z.of_nat j) = bool_decide (Z.of_nat j < s).
Proof.
  intros Hs Hj. assert (forallb (fun s => forallb (fun j =>
    eqb (Z.testbit (Z.lxor 255 (Z.shiftr 255 s)) (7 - Z.of_nat j)) (bool_decide (Z.of_nat j < s)))
    (seq 0 8)) (seqZ 0 9) = true) as H by (vm_compute; reflexivity).
  assert (In s (seqZ 0 9)) as Hs' by (apply list_elem_of_In, elem_of_seqZ; lia).
  rewrite forallb_forall in H. specialize (H s Hs'). rewrite forallb_forall in H.
  apply eqb_prop, H, in_seq. lia.
Qed.

Lemma cidrMaskLoop_lookup l n i : (i < l)%nat -> 0 <= n ->
  cidrMaskLoop l n !! i =
    Some (Z.lxor 255 (Z.shiftr 255 (Z.max 0 (Z.min 8 (n - 8 * Z.of_nat i))))).
Proof.
  revert n i. induction l as [|l IH]; intros n i Hi Hn; [lia|]. cbn [cidrMaskLoop].
  destruct (Z.leb_spec 8 n); rewrite lookup_cons; destruct i as [|i].
  - f_equal. replace (Z.max 0 (Z.min 8 (n - 8 * Z.of_nat 0))) with 8 by lia. done.
  - rewrite IH by lia. do 3 f_equal. lia.
  - do 3 f_equal. lia.
  - rewrite IH by lia. do 3 f_equal. lia.
Qed.

Lemma length_cidrMaskLoop l n : length (cidrMaskLoop l n) = l.
Proof. revert n. induction l; intros; cbn [cidrMaskLoop]; [done|]. destruct (8 <=? n); cbn; auto. Qed.

Lemma maskWith_lookup a m i : length m = length a ->
  maskWith a m !! i = (b ← a !! i; x ← m !! i; Some (Z.land b x)).
Proof.
  revert m i. induction a as [|b a IH]; intros [|x m] i Hl; try done. destruct i; [done|].
  cbn [maskWith]. rewrite !lookup_cons. apply IH. cbn in Hl. lia.
Qed.

Lemma length_maskWith a m : length (maskWith a m) = length a.
Proof. revert m. induction a; intros [|x m]; cbn; auto. Qed.

Lemma land_byte b m : is_byte b -> is_byte (Z.land b m).
Proof.
  unfold is_byte. intros Hb. split; [apply Z.land_nonneg; lia|].
  rewrite <- (Z.mod_small b 256) by done. change 256 with (2 ^ 8). rewrite <- Z.land_ones by lia.
  rewrite <- Z.land_assoc, (Z.land_comm (Z.ones 8)), Z.land_assoc, Z.land_ones by lia.
  apply Z.mod_pos_bound. lia.
Qed.

Lemma maskWith_bytes a m : all_bytes a -> all_bytes (maskWith a m).
Proof.
  intros Ha. revert m. induction Ha; intros [|y m]; cbn; try constructor; auto using land_byte.
Qed.

Lemma length_masked ip c : length (masked ip c) = length ip.
Proof. apply length_maskWith. Qed.

Lemma masked_address ip c : address ip -> address (masked ip c).
Proof. intros [Hl Hb]. split; [by rewrite length_masked|by apply maskWith_bytes]. Qed.

(** Masking keeps the prefix and clears the rest. *)
Lemma bitsOf_masked ip c : all_bytes ip -> (c <= 8 * length ip)%nat ->
  bitsOf (masked ip (Z.of_nat c)) = take c (bitsOf ip) ++ replicate (8 * length ip - c) false.
Proof.
  intros Hb Hc. apply list_eq. intros i. destruct (decide (i < 8 * length ip)%nat) as [Hi|Hi].
  2: { rewrite !lookup_ge_None_2; [done|..].
       - rewrite length_app, length_take, length_bitsOf, length_replicate. lia.
       - rewrite length_bitsOf, length_masked. lia. }
  pose proof (Nat.mod_upper_bound i 8 ltac:(lia)) as Hm.
  pose proof (Nat.Div0.div_lt_upper_bound i 8 (length ip) ltac:(lia)) as Hd.
  destruct (lookup_lt_is_Some_2 ip (i / 8) Hd) as [b Eb].
  assert (masked ip (Z.of_nat c) !! (i / 8)%nat = Some (Z.land b (Z.lxor 255 (Z.shiftr 255
    (Z.max 0 (Z.min 8 (Z.of_nat c - 8 * Z.of_nat (i / 8)))))))) as Em.
  { unfold masked, CIDRMask. destruct (Z.ltb_spec (Z.of_nat c) 0); [lia|].
    destruct (Z.ltb_spec (zlen ip * 8) (Z.of_nat c)); [lia|]. cbn [orb].
    rewrite Z.div_mul, Nat2Z.id by lia. rewrite maskWith_lookup by apply length_cidrMaskLoop.
    rewrite Eb, cidrMaskLoop_lookup by lia. done. }
  assert (i = 8 * (i / 8) + i mod 8)%nat as Hdm by (apply Nat.div_mod; lia).
  assert (all_bytes (masked ip (Z.of_nat c))) as Hmb by by apply maskWith_bytes.
  rewrite Hdm at 1. rewrite (bitsOf_byte _ _ _ _ Hmb Em Hm).
  rewrite Z.land_spec, mask_bit by lia.
  destruct (decide (i < c)%nat).
  - rewrite bool_decide_eq_true_2 by lia. rewrite lookup_app_l by (rewrite length_take, length_bitsOf; lia).
    rewrite lookup_take_lt by lia. rewrite Hdm at 2. rewrite (bitsOf_byte _ _ _ b) by done.
    by rewrite andb_true_r.
  - rewrite bool_decide_eq_false_2 by lia. rewrite lookup_app_r by (rewrite length_take, length_bitsOf; lia).
    rewrite lookup_replicate_2; [by rewrite andb_false_r|]. rewrite length_take, length_bitsOf. lia.
Qed.

Lemma take_masked ip c k : all_bytes ip -> (k <= c)%nat -> (c <= 8 * length ip)%nat ->
  take k (bitsOf (masked ip (Z.of_nat c))) = take k (bitsOf ip).
Proof.
  intros Hb Hk Hc. rewrite bitsOf_masked by done.
  rewrite take_app_le by (rewrite length_take, length_bitsOf; lia). by rewrite take_take, Nat.min_l by lia.
Qed.
