(* ===== verification/Trie.v ===== *)
(** Compressed binary tries as trees, their meaning as maps from prefixes to
    peers, and contexts: the mathematics behind [device/allowedips.go]. *)
From S2P Require Import Prelude AllowedIPs TrieBits.

(** ** Trees *)

Inductive tree :=
  | E
  | N (n : node_id) (p : option trie_peer) (b : bytes) (c : nat) (l r : tree).

Definition prefixOf (b : bytes) (c : nat) : list bool := take c (bitsOf b).

(** The peer of a prefix. *)
Fixpoint tfind (t : tree) (q : list bool) : option trie_peer :=
  match t with
  | E => None
  | N _ p b c l r =>
      let pre := prefixOf b c in
      if decide (q = pre) then p
      else if decide (pre ++ [false] `prefix_of` q) then tfind l q
      else if decide (pre ++ [true] `prefix_of` q) then tfind r q
      else None
  end.

(** The prefixes of a tree extend [pfx], and grow downwards; the addresses
    have [L] bytes. *)
Fixpoint ok (L : nat) (pfx : list bool) (t : tree) : Prop :=
  match t with
  | E => True
  | N _ _ b c l r =>
      address b /\ length b = L /\ (c <= 8 * L)%nat /\ pfx `prefix_of` prefixOf b c /\
      ok L (prefixOf b c ++ [false]) l /\ ok L (prefixOf b c ++ [true]) r
  end.

(** ** Contexts, innermost frame first *)

Record frame := mkFrame {
  f_id : node_id; f_peer : option trie_peer; f_bits : bytes; f_c : nat; f_dir : bool; f_sib : tree }.

Definition frameTree (f : frame) (t : tree) : tree :=
  if f_dir f then N (f_id f) (f_peer f) (f_bits f) (f_c f) (f_sib f) t
  else N (f_id f) (f_peer f) (f_bits f) (f_c f) t (f_sib f).

Fixpoint plug (k : list frame) (t : tree) : tree :=
  match k with [] => t | f :: k => plug k (frameTree f t) end.

Definition pfxOf (k : list frame) : list bool :=
  match k with [] => [] | f :: _ => prefixOf (f_bits f) (f_c f) ++ [f_dir f] end.

Fixpoint okctx (L : nat) (k : list frame) : Prop :=
  match k with
  | [] => True
  | f :: k =>
      address (f_bits f) /\ length (f_bits f) = L /\ (f_c f <= 8 * L)%nat /\
      pfxOf k `prefix_of` prefixOf (f_bits f) (f_c f) /\
      ok L (prefixOf (f_bits f) (f_c f) ++ [negb (f_dir f)]) (f_sib f) /\ okctx L k
  end.

(** Going down towards the prefix of length [c] of [ip]. *)
Fixpoint descend (k : list frame) (t : tree) (ip : bytes) (c : nat) : list frame * tree * bool :=
  match t with
  | E => (k, E, false)
  | N n p b cn l r =>
      if decide ((cn <= c)%nat /\ take cn (bitsOf ip) = prefixOf b cn) then
        if decide (cn = c) then (k, t, true)
        else
          match bitsOf ip !! cn with
          | Some true => descend (mkFrame n p b cn true l :: k) r ip c
          | Some false => descend (mkFrame n p b cn false r :: k) l ip c
          | None => (k, t, false)
          end
      else (k, t, false)
  end.

(** ** Longest prefix match *)

Fixpoint lpm (m : list bool -> option trie_peer) (b : list bool) (n : nat) : option trie_peer :=
  match m (take n b) with
  | Some p => Some p
  | None => match n with O => None | S n => lpm m b n end
  end.

(** ** Lemmas on prefixes *)

Lemma prefix_snoc_ne (a q : list bool) x : a ++ [x] `prefix_of` q -> q <> a.
Proof. intros [s ->] E. apply (f_equal length) in E. rewrite !length_app in E. cbn in E. lia. Qed.

Lemma prefix_snoc_bit (a q : list bool) x y :
  a ++ [x] `prefix_of` q -> a ++ [y] `prefix_of` q -> x = y.
Proof. intros [s ->] [s' E]. rewrite <- !app_assoc in E. apply app_inv_head in E. cbn in E. congruence. Qed.

Lemma prefix_snoc (a q : list bool) x : a ++ [x] `prefix_of` q -> a `prefix_of` q.
Proof. intros. etrans; [|done]. by apply prefix_app_r. Qed.

(** A prefix continues with the next bit. *)
Lemma prefix_cases (a q : list bool) : a `prefix_of` q ->
  q = a \/ exists x, q !! length a = Some x /\ a ++ [x] `prefix_of` q.
Proof.
  intros [[|x s] ->]; [left; by rewrite app_nil_r|right]. exists x.
  rewrite list_lookup_middle by done. split; [done|]. exists s. by rewrite <- app_assoc.
Qed.

Lemma prefix_take_iff (a q : list bool) n : (length a <= n)%nat -> a `prefix_of` take n q <-> a `prefix_of` q.
Proof.
  intros Hn. split; intros H.
  - etrans; [done|apply prefix_take].
  - destruct H as [s ->]. rewrite take_app_ge by done. by apply prefix_app_r.
Qed.

Lemma take_prefix_eq (a q : list bool) n : a `prefix_of` q -> n = length a -> take n q = a.
Proof. intros [s ->] ->. by rewrite take_app_length. Qed.

Lemma length_prefixOf L b c : length b = L -> (c <= 8 * L)%nat -> length (prefixOf b c) = c.
Proof. intros. unfold prefixOf. rewrite length_take, length_bitsOf. lia. Qed.

(** ** Lemmas on trees *)

Lemma ok_weaken L p q t : p `prefix_of` q -> ok L q t -> ok L p t.
Proof. destruct t; [done|]. intros Hpq (?&?&?&?&?&?). cbn. split_and!; try done. by etrans. Qed.

Lemma tfind_outside L pfx t q : ok L pfx t -> ~ pfx `prefix_of` q -> tfind t q = None.
Proof.
  revert pfx. induction t as [|n p b c l IHl r IHr]; intros pfx; [done|].
  intros (?&?&?&Hp&Hl&Hr) Hq. cbn. destruct (decide (q = _)) as [->|]; [done|].
  destruct (decide _) as [Hd|Hd]; [destruct Hq; etrans; [done|]; by apply prefix_snoc in Hd|].
  clear Hd. destruct (decide _) as [Hd|Hd]; [destruct Hq; etrans; [done|]; by apply prefix_snoc in Hd|done].
Qed.

Lemma tfind_frame f t q : tfind (frameTree f t) q =
  if decide (q = prefixOf (f_bits f) (f_c f)) then f_peer f
  else if decide (prefixOf (f_bits f) (f_c f) ++ [f_dir f] `prefix_of` q) then tfind t q
  else if decide (prefixOf (f_bits f) (f_c f) ++ [negb (f_dir f)] `prefix_of` q) then tfind (f_sib f) q
  else None.
Proof.
  unfold frameTree. destruct (f_dir f); cbn [tfind negb]; [|done].
  destruct (decide (q = _)); [done|]. repeat destruct (decide (_ `prefix_of` q)); try done.
  match goal with H : _ ++ [true] `prefix_of` q, H' : _ ++ [false] `prefix_of` q |- _ =>
    by pose proof (prefix_snoc_bit _ _ _ _ H H') end.
Qed.

Lemma pfxOf_cons L f k : okctx L (f :: k) -> pfxOf k `prefix_of` pfxOf (f :: k).
Proof. intros (?&?&?&H&?&?). cbn [pfxOf]. etrans; [done|]. by apply prefix_app_r. Qed.

Lemma tfind_plug L k t q : okctx L k -> pfxOf k `prefix_of` q -> tfind (plug k t) q = tfind t q.
Proof.
  revert t. induction k as [|f k IH]; intros t Hk Hq; cbn [plug]; [done|].
  rewrite IH; [|apply Hk|etrans; [by eapply pfxOf_cons|done]].
  rewrite tfind_frame. cbn [pfxOf] in Hq. destruct (decide (q = _)) as [->|].
  - by apply prefix_snoc_ne in Hq.
  - by rewrite decide_True.
Qed.

Lemma tfind_plug_outside L k t t' q :
  okctx L k -> ~ pfxOf k `prefix_of` q -> tfind (plug k t) q = tfind (plug k t') q.
Proof.
  revert t t'. induction k as [|f k IH]; intros t t' Hk Hq; cbn [plug].
  - destruct Hq. cbn. apply prefix_nil.
  - destruct (decide (pfxOf k `prefix_of` q)) as [Hp|Hp].
    + rewrite !(tfind_plug L) by (done || apply Hk). rewrite !tfind_frame. cbn [pfxOf] in Hq.
      by rewrite !(decide_False (P := _ ++ [f_dir f] `prefix_of` q)).
    + apply IH; [apply Hk|done].
Qed.

(** Changing a subtree changes the map by what it changes in the subtree. *)
Lemma tfind_replace L k t t' q : okctx L k -> tfind t q = tfind t' q ->
  tfind (plug k t) q = tfind (plug k t') q.
Proof.
  intros Hk Ht. destruct (decide (pfxOf k `prefix_of` q)).
  - by rewrite !(tfind_plug L).
  - by apply (tfind_plug_outside L).
Qed.

Lemma ok_plug L k t : okctx L k -> ok L (pfxOf k) t -> ok L [] (plug k t).
Proof.
  revert t. induction k as [|f k IH]; intros t Hk Ht; cbn [plug]; [done|].
  destruct Hk as (?&?&?&?&Hs&Hk). apply IH; [done|]. unfold frameTree.
  cbn [pfxOf] in Ht. destruct (f_dir f); cbn [ok negb] in *; by split_and!.
Qed.

Lemma plug_ok L k t : ok L [] (plug k t) -> okctx L k /\ ok L (pfxOf k) t.
Proof.
  revert t. induction k as [|f k IH]; intros t; cbn [plug okctx]; [done|].
  intros [Hk Ht]%IH. unfold frameTree in Ht. cbn [pfxOf].
  destruct (f_dir f); cbn [ok] in Ht; destruct Ht as (?&?&?&?&?&?); by split_and!.
Qed.

(** ** Descending *)

(** The root of [t], if any, is not on the way to the prefix [target]. *)
Definition offPath (t : tree) (target : list bool) : Prop :=
  match t with E => True | N _ _ b c _ _ => ~ prefixOf b c `prefix_of` target end.

Lemma prefixOf_prefix b cn ip c : (cn <= 8 * length b)%nat -> (c <= 8 * length ip)%nat ->
  prefixOf b cn `prefix_of` prefixOf ip c <-> (cn <= c)%nat /\ take cn (bitsOf ip) = prefixOf b cn.
Proof.
  intros Hcn Hc. pose proof (length_prefixOf (length b) b cn eq_refl Hcn) as Hl. split.
  - intros H. pose proof (prefix_length _ _ H) as Hlen.
    rewrite Hl, (length_prefixOf (length ip)) in Hlen by done. split; [done|].
    apply take_prefix_eq; [|done]. unfold prefixOf at 2 in H. apply (prefix_take_iff _ _ c); [lia|done].
  - intros [H E]. rewrite <- E. unfold prefixOf. rewrite <- (Nat.min_l cn c), <- take_take by lia.
    apply prefix_take.
Qed.

Lemma descend_spec L k t ip c k' s ex :
  descend k t ip c = (k', s, ex) -> length ip = L -> (c <= 8 * L)%nat ->
  okctx L k -> ok L (pfxOf k) t -> pfxOf k `prefix_of` prefixOf ip c ->
  plug k' s = plug k t /\ okctx L k' /\ ok L (pfxOf k') s /\
  pfxOf k' `prefix_of` prefixOf ip c /\
  (if ex then exists n p b l r, s = N n p b c l r /\ prefixOf b c = prefixOf ip c
   else offPath s (prefixOf ip c)).
Proof.
  intros Hd Hip Hc. revert k Hd. induction t as [|n p b cn l IHl r IHr]; intros k Hd Hk Ht Hp; cbn [descend] in Hd.
  { injection Hd as <- <- <-. done. }
  assert (Ht' := Ht). destruct Ht' as (Hb & Hbl & Hcn & Hpre & Hl & Hr).
  destruct (decide _) as [[Hle Heq]|Hno].
  - destruct (decide (cn = c)) as [<-|Hne].
    + injection Hd as <- <- <-. split_and!; try done. by exists n, p, b, l, r.
    + destruct (lookup_lt_is_Some_2 (bitsOf ip) cn) as [x Hx]; [rewrite length_bitsOf; lia|].
      rewrite Hx in Hd. pose proof (length_prefixOf L b cn Hbl Hcn) as Hlen.
      assert (prefixOf b cn ++ [x] `prefix_of` prefixOf ip c) as Hpx.
      { assert (prefixOf b cn `prefix_of` prefixOf ip c) as Hpb by (apply prefixOf_prefix; lia || done).
        destruct (prefix_cases _ _ Hpb) as [E|(y & Hy & H)].
        - apply (f_equal length) in E. rewrite (length_prefixOf L) in E by done. lia.
        - rewrite Hlen in Hy. unfold prefixOf in Hy. rewrite lookup_take_lt in Hy by lia. congruence. }
      destruct x; apply IHr in Hd || apply IHl in Hd; try done; cbn; by split_and!.
  - injection Hd as <- <- <-. split_and!; try done. cbn. rewrite prefixOf_prefix by lia. done.
Qed.

(** ** Insertion below a context *)

(** The bits of two addresses at the end of their common prefix. *)
Definition bitAt (b : bytes) (i : nat) : bool := default false (bitsOf b !! i).

Definition node2 (n : node_id) (p : option trie_peer) (b : bytes) (c : nat) (bit : bool) (t t' : tree)
    : tree := if bit then N n p b c t' t else N n p b c t t'.

(** [insert] where the descent ends: the tree that replaces the subtree, for a
    new node [new] and, if needed, a new [branch]. *)
Definition insertAt (new branch : node_id) (p : trie_peer) (ip : bytes) (c : nat) (s : tree) (exact : bool)
    : tree :=
  match s with
  | E => N new (Some p) ip c E E
  | N n _ b cn l r =>
      if exact then N n (Some p) b cn l r
      else
        let common := Z.to_nat (commonBits b ip) in
        if decide (common < c)%nat then
          node2 branch None (masked ip (Z.of_nat common)) common (bitAt b common) s
            (N new (Some p) ip c E E)
        else node2 new (Some p) ip c (bitAt b c) s E
  end.

Lemma bitAt_prefix L b c cn : length b = L -> (c < cn)%nat -> (cn <= 8 * L)%nat ->
  prefixOf b c ++ [bitAt b c] `prefix_of` prefixOf b cn.
Proof.
  intros Hb Hc Hcn. destruct (lookup_lt_is_Some_2 (bitsOf b) c) as [x Hx]; [rewrite length_bitsOf; lia|].
  unfold bitAt. rewrite Hx. cbn [default]. unfold prefixOf. rewrite <- take_S_r by done.
  rewrite <- (Nat.min_l (S c) cn), <- take_take by lia. apply prefix_take.
Qed.

Lemma tfind_node2 n p b c bit t t' q : tfind (node2 n p b c bit t t') q =
  if decide (q = prefixOf b c) then p
  else if decide (prefixOf b c ++ [bit] `prefix_of` q) then tfind t q
  else if decide (prefixOf b c ++ [negb bit] `prefix_of` q) then tfind t' q
  else None.
Proof.
  pose proof (tfind_frame (mkFrame n p b c bit t') t q) as H. unfold frameTree in H.
  cbn [f_id f_peer f_bits f_c f_dir f_sib] in H. rewrite <- H. by destruct bit.
Qed.

Lemma ok_node2 L pfx n p b c bit t t' : address b -> length b = L -> (c <= 8 * L)%nat ->
  pfx `prefix_of` prefixOf b c -> ok L (prefixOf b c ++ [bit]) t -> ok L (prefixOf b c ++ [negb bit]) t' ->
  ok L pfx (node2 n p b c bit t t').
Proof. intros. destruct bit; cbn [ok node2 negb] in *; by split_and!. Qed.

Lemma decide_cond_false {A} (P : Prop) `{Decision P} (x y : A) : ~ P -> (if decide P then x else y) = y.
Proof. intros. by rewrite decide_False. Qed.

(** Two addresses part at the end of their common prefix. *)
Lemma commonBits_differ a b k : address a -> address b -> length a = length b ->
  commonBits a b = Z.of_nat k -> (k < 8 * length a)%nat -> bitAt b k = negb (bitAt a k).
Proof.
  intros Ha Hb Hl Hk Hlt. destruct (commonBits_spec a b Ha Hb Hl) as [_ Hs].
  assert (take k (bitsOf a) = take k (bitsOf b)) as Ek by (apply Hs; lia).
  assert (take (S k) (bitsOf a) <> take (S k) (bitsOf b)) as Hne by (intros E; apply Hs in E; lia).
  destruct (lookup_lt_is_Some_2 (bitsOf a) k) as [x Hx]; [rewrite length_bitsOf; lia|].
  destruct (lookup_lt_is_Some_2 (bitsOf b) k) as [y Hy]; [rewrite length_bitsOf; lia|].
  unfold bitAt. rewrite Hx, Hy. cbn. rewrite !(take_S_r _ _ _ Hx), !(take_S_r _ _ _ Hy), Ek in Hne.
  destruct x, y; done.
Qed.

(** A tree is empty outside the prefix of its root. *)
Lemma tfind_root L pfx n p b c l r q : ok L pfx (N n p b c l r) -> ~ prefixOf b c `prefix_of` q ->
  tfind (N n p b c l r) q = None.
Proof.
  intros (Hb&Hl&Hc&_&Hokl&Hokr) Hq. apply (tfind_outside L (prefixOf b c)); [|done]. cbn. by split_and!.
Qed.

Lemma insertAt_branch L pfx n p0 b cn l r ip c new branch p cm :
  let s := N n p0 b cn l r in
  let bp := prefixOf ip cm in
  let t := node2 branch None (masked ip (Z.of_nat cm)) cm (bitAt b cm) s (N new (Some p) ip c E E) in
  address ip -> length ip = L -> (c <= 8 * L)%nat -> ok L pfx s -> pfx `prefix_of` bp ->
  (cm < cn)%nat -> (cm < c)%nat -> prefixOf b cm = bp -> bitAt ip cm = negb (bitAt b cm) ->
  ok L pfx t /\
  forall q, tfind t q = if decide (q = prefixOf ip c) then Some p else tfind s q.
Proof.
  intros s bp t Hip HL Hc Hs Hpfx Hcn Hcm Hbp Hbit. assert (Hs' := Hs). destruct Hs' as (Hb&Hbl&Hcn'&_&Hl&Hr).
  assert (prefixOf (masked ip (Z.of_nat cm)) cm = bp) as Hm by (apply take_masked; [apply Hip|lia..]).
  pose proof (bitAt_prefix L b cm cn Hbl Hcn Hcn') as Hpre. rewrite Hbp in Hpre.
  pose proof (bitAt_prefix L ip cm c HL Hcm Hc) as Htgt. rewrite Hbit in Htgt. fold bp in Htgt.
  split.
  - apply ok_node2; rewrite ?Hm; [by apply masked_address|by rewrite length_masked|lia|done| |].
    + apply (ok_weaken L _ (prefixOf b cn)); [done|]. cbn. by split_and!.
    + cbn. by split_and!.
  - intros q. unfold t. rewrite tfind_node2, Hm.
    assert (~ prefixOf b cn `prefix_of` q -> tfind s q = None) as Hout by (apply (tfind_root L pfx); done).
    destruct (decide (q = bp)) as [->|Hq].
    { rewrite decide_False by (intros E; rewrite <- E in Htgt; by apply prefix_snoc_ne in Htgt).
      symmetry. apply Hout. intros H. apply prefix_snoc_ne in Hpre as Hne.
      destruct Hne. apply prefix_length in H. apply prefix_snoc in Hpre as [x Hx].
      rewrite Hx in H |- *. rewrite length_app in H. destruct x; [by rewrite app_nil_r|cbn in H; lia]. }
    destruct (decide (bp ++ [bitAt b cm] `prefix_of` q)) as [H1|H1].
    { rewrite decide_False; [done|]. intros ->. pose proof (prefix_snoc_bit _ _ _ _ H1 Htgt) as E.
      by destruct (bitAt b cm). }
    destruct (decide (bp ++ [negb (bitAt b cm)] `prefix_of` q)) as [H2|H2].
    { rewrite Hout by (intros H; apply H1; by etrans).
      cbn [tfind]. destruct (decide (q = prefixOf ip c)); [done|]. by repeat destruct (decide _). }
    rewrite decide_False by (intros ->; done). symmetry. apply Hout. intros H. apply H1. by etrans.
Qed.

Lemma insertAt_above L pfx n p0 b cn l r ip c new p :
  let s := N n p0 b cn l r in
  let t := node2 new (Some p) ip c (bitAt b c) s E in
  address ip -> length ip = L -> (c <= 8 * L)%nat -> ok L pfx s -> pfx `prefix_of` prefixOf ip c ->
  (c < cn)%nat -> prefixOf b c = prefixOf ip c ->
  ok L pfx t /\
  forall q, tfind t q = if decide (q = prefixOf ip c) then Some p else tfind s q.
Proof.
  intros s t Hip HL Hc Hs Hpfx Hcn Hbp. assert (Hs' := Hs). destruct Hs' as (Hb&Hbl&Hcn'&_&Hl&Hr).
  pose proof (bitAt_prefix L b c cn Hbl Hcn Hcn') as Hpre. rewrite Hbp in Hpre. split.
  - by apply ok_node2.
  - intros q. unfold t. rewrite tfind_node2. destruct (decide (q = _)); [done|].
    destruct (decide (prefixOf ip c ++ [bitAt b c] `prefix_of` q)) as [H1|H1]; [done|].
    assert (tfind s q = None) as -> by (apply (tfind_root L pfx); [done|]; intros H; apply H1; by etrans).
    by destruct (decide _).
Qed.

(** Where the new prefix parts from the root of a subtree off its path. *)
Lemma offPath_common L pfx n p0 b cn l r ip c :
  address ip -> length ip = L -> (c <= 8 * L)%nat -> ok L pfx (N n p0 b cn l r) ->
  pfx `prefix_of` prefixOf ip c -> ~ prefixOf b cn `prefix_of` prefixOf ip c ->
  exists cm, commonBits b ip = Z.of_nat cm /\ (cm <= 8 * L)%nat /\
    (forall k, (k <= cm)%nat -> prefixOf b k = prefixOf ip k) /\
    ~ ((cn <= c)%nat /\ (cn <= cm)%nat) /\ pfx `prefix_of` prefixOf ip cm.
Proof.
  intros Hip HL Hc (Hb&Hbl&Hcn&Hpre&Hl&Hr) Hpfx Hex.
  destruct (commonBits_spec b ip Hb Hip ltac:(lia)) as [Hrange Hcb]. rewrite Hbl in Hcb, Hrange.
  exists (Z.to_nat (commonBits b ip)). set (cm := Z.to_nat (commonBits b ip)).
  assert (commonBits b ip = Z.of_nat cm) as Hcm by lia.
  assert (forall k, (k <= cm)%nat -> prefixOf b k = prefixOf ip k) as Heq by (intros k Hk; apply Hcb; lia).
  assert (length pfx <= cm)%nat as Hlen.
  { pose proof (prefix_length _ _ Hpre) as Hl1. pose proof (prefix_length _ _ Hpfx) as Hl2.
    rewrite (length_prefixOf L) in Hl1, Hl2 by done.
    assert (Z.of_nat (length pfx) <= commonBits b ip); [|lia]. apply Hcb; [lia|].
    trans pfx; [|symmetry]; (apply take_prefix_eq; [|done]); (etrans; [|apply prefix_take]); eassumption. }
  split_and!; [done|lia|done| |].
  - intros [H1 H2]. apply Hex, prefixOf_prefix; [lia..|]. split; [done|]. symmetry. by apply Heq.
  - apply prefix_take_iff; [done|]. etrans; [exact Hpfx|apply prefix_take].
Qed.

(** What replacing the end of the descent does to the map. *)
Lemma insertAt_spec L pfx s ip c new branch p (exact : bool) :
  address ip -> length ip = L -> (c <= 8 * L)%nat -> ok L pfx s -> pfx `prefix_of` prefixOf ip c ->
  (if exact then exists n p b l r, s = N n p b c l r /\ prefixOf b c = prefixOf ip c
   else offPath s (prefixOf ip c)) ->
  ok L pfx (insertAt new branch p ip c s exact) /\
  forall q, tfind (insertAt new branch p ip c s exact) q =
    if decide (q = prefixOf ip c) then Some p else tfind s q.
Proof.
  intros Hip HL Hc Hs Hpfx Hex. destruct exact.
  { destruct Hex as (n & p0 & b & l & r & -> & E). cbn [insertAt]. split.
    - cbn in *. by rewrite E in *.
    - intros q. cbn [tfind]. rewrite E. by destruct (decide (q = prefixOf ip c)). }
  destruct s as [|n p0 b cn l r]; cbn [insertAt].
  { split; [cbn; by split_and!|]. intros q. cbn [tfind]. destruct (decide (q = prefixOf ip c)); [done|].
    by repeat destruct (decide _). }
  destruct (offPath_common _ _ _ _ _ _ _ _ _ _ Hip HL Hc Hs Hpfx Hex) as (cm & Hcm & Hcml & Heq & Hoff & Hpk).
  rewrite Hcm, Nat2Z.id. assert (Hs' := Hs). destruct Hs' as (Hb&Hbl&Hcn&Hpre&Hl&Hr).
  destruct (decide (cm < c)%nat).
  - apply insertAt_branch; try done; [lia|by apply Heq|].
    apply commonBits_differ; try done; lia.
  - apply insertAt_above; try done; [lia|apply Heq; lia].
Qed.

(** ** Removal *)

Definition removeAt (s : tree) : tree :=
  match s with
  | E => E
  | N n _ b c E r => r
  | N n _ b c l E => l
  | N n _ b c l r => N n None b c l r
  end.

(** A leaf takes its unused parent along. *)
Definition removeIn (k : list frame) (s : tree) : tree :=
  match s, k with
  | N _ _ _ _ E E, f :: k' =>
      match f_peer f with None => plug k' (f_sib f) | Some _ => plug k E end
  | _, _ => plug k (removeAt s)
  end.

Lemma removeAt_spec L pfx n p b c l r : ok L pfx (N n p b c l r) ->
  ok L pfx (removeAt (N n p b c l r)) /\
  forall q, tfind (removeAt (N n p b c l r)) q =
    if decide (q = prefixOf b c) then None else tfind (N n p b c l r) q.
Proof.
  intros Hok. assert (Hok' := Hok). destruct Hok' as (Hb&Hbl&Hcn&Hpre&Hl&Hr).
  assert (forall x t, ok L (prefixOf b c ++ [x]) t -> ok L pfx t) as Hup.
  { intros x t. apply ok_weaken. etrans; [done|]. by apply prefix_app_r. }
  assert (forall x t q, ok L (prefixOf b c ++ [x]) t -> ~ prefixOf b c ++ [x] `prefix_of` q -> tfind t q = None) as Hout
    by (intros x t q; apply tfind_outside).
  assert (forall x q, q = prefixOf b c -> ~ prefixOf b c ++ [x] `prefix_of` q) as Hself
    by (intros x q -> H; by apply prefix_snoc_ne in H).
  destruct l as [|nl pl bl cl ll lr]; [|destruct r as [|nr pr br cr rl rr]]; cbn [removeAt].
  - split; [eauto|]. intros q. cbn [tfind]. destruct (decide (q = _)) as [Hq|Hq]; [eauto|].
    destruct (decide (_ ++ [false] `prefix_of` q)) as [H|H].
    + apply (Hout true); [done|]. intros H'. by pose proof (prefix_snoc_bit _ _ _ _ H H').
    + destruct (decide _); [done|]. by apply (Hout true).
  - remember (N nl pl bl cl ll lr) as l'. split; [eauto|]. intros q. cbn [tfind].
    destruct (decide (q = prefixOf b c)) as [Hq|Hq];
      [apply (Hout false); eauto|].
    destruct (decide (_ ++ [false] `prefix_of` q)) as [H|H]; [done|].
    rewrite (tfind_outside L (prefixOf b c ++ [false])) by done. by destruct (decide _).
  - remember (N nl pl bl cl ll lr) as l'. remember (N nr pr br cr rl rr) as r'.
    split; [done|]. intros q. cbn [tfind]. by destruct (decide (q = prefixOf b c)).
Qed.

(** Cutting out a frame without a peer whose other side is empty. *)
Lemma tfind_unbranch L k f q : okctx L (f :: k) -> f_peer f = None ->
  tfind (frameTree f E) q = tfind (f_sib f) q.
Proof.
  intros (?&?&?&?&Hs&?) Hp. rewrite tfind_frame, Hp.
  destruct (decide (q = _)) as [->|Hq].
  { symmetry. apply (tfind_outside L _ _ _ Hs). intros H'. by apply prefix_snoc_ne in H'. }
  destruct (decide _) as [Hd|Hd].
  { symmetry. apply (tfind_outside L _ _ _ Hs). intros H'.
    pose proof (prefix_snoc_bit _ _ _ _ Hd H') as E. by destruct (f_dir f). }
  destruct (decide _); [done|]. symmetry. by apply (tfind_outside L _ _ _ Hs).
Qed.

Lemma removeIn_spec L k n p b c l r : ok L [] (plug k (N n p b c l r)) ->
  ok L [] (removeIn k (N n p b c l r)) /\
  forall q, tfind (removeIn k (N n p b c l r)) q =
    if decide (q = prefixOf b c) then None else tfind (plug k (N n p b c l r)) q.
Proof.
  intros Hok. destruct (plug_ok _ _ _ Hok) as [Hk Hs].
  destruct (removeAt_spec _ _ _ _ _ _ _ _ Hs) as [Hok' Hf].
  assert (pfxOf k `prefix_of` prefixOf b c) as Hpre by apply Hs.
  assert (ok L [] (plug k (removeAt (N n p b c l r))) /\
    forall q, tfind (plug k (removeAt (N n p b c l r))) q =
      if decide (q = prefixOf b c) then None else tfind (plug k (N n p b c l r)) q) as [Hok2 Hf2].
  { split; [by apply ok_plug|]. intros q. specialize (Hf q). destruct (decide (q = prefixOf b c)) as [->|].
    - by rewrite (tfind_plug L).
    - by apply (tfind_replace L). }
  unfold removeIn. destruct l; [|done]. destruct r; [|done].
  destruct k as [|f k]; [done|]. destruct (f_peer f) eqn:Ep; [done|].
  cbn [removeAt plug] in *. split.
  - apply ok_plug; [apply Hk|]. destruct Hk as (?&?&?&H&Hsib&?).
    eapply ok_weaken; [|exact Hsib]. etrans; [exact H|]. by apply prefix_app_r.
  - intros q. rewrite <- Hf2. apply (tfind_replace L); [apply Hk|]. symmetry. by apply (tfind_unbranch L k).
Qed.

Lemma tfind_here L k n p b c l r : ok L [] (plug k (N n p b c l r)) ->
  tfind (plug k (N n p b c l r)) (prefixOf b c) = p.
Proof.
  intros [Hk Hs]%plug_ok. rewrite (tfind_plug L); [|done|apply Hs]. cbn. by rewrite decide_True.
Qed.

(** ** Lookup *)

Fixpoint look (t : tree) (ip : bytes) (found : option trie_peer) : option trie_peer :=
  match t with
  | E => found
  | N _ p b c l r =>
      if decide (take c (bitsOf ip) = prefixOf b c) then
        let found := match p with Some p => Some p | None => found end in
        match bitsOf ip !! c with
        | None => found
        | Some true => look r ip found
        | Some false => look l ip found
        end
      else found
  end.

Lemma lpm_none m b n : (forall i, (i <= n)%nat -> m (take i b) = None) -> lpm m b n = None.
Proof. induction n as [|n IH]; intros H; cbn [lpm]; rewrite H by lia; [done|]. apply IH. auto. Qed.

Lemma lpm_some m b n p : (exists i, (i <= n)%nat /\ m (take i b) = Some p /\
  forall j, (i < j <= n)%nat -> m (take j b) = None) -> lpm m b n = Some p.
Proof.
  induction n as [|n IH]; intros (i & Hi & E & Hj); cbn [lpm].
  - assert (i = 0)%nat as -> by lia. by rewrite E.
  - destruct (decide (i = S n)) as [->|]; [by rewrite E|]. rewrite Hj by lia. apply IH.
    exists i. split_and!; [lia|done|]. intros. apply Hj. lia.
Qed.

(** A node contributes its peer at its own length and its child beyond. *)
Lemma lpm_split m m' b c p n : (c <= n)%nat ->
  (forall i, (c < i)%nat -> (i <= n)%nat -> m (take i b) = m' (take i b)) ->
  m (take c b) = p -> (forall i, (i < c)%nat -> m (take i b) = None) ->
  (forall i, (i <= c)%nat -> m' (take i b) = None) ->
  lpm m b n = match lpm m' b n with Some p' => Some p' | None => p end.
Proof.
  intros Hc Hgt Hp Hlt Hle. induction n as [|n IH].
  - assert (c = 0)%nat as -> by lia. cbn [lpm]. rewrite Hp, Hle by lia. by destruct p.
  - cbn [lpm]. destruct (decide (c = S n)) as [->|].
    + rewrite Hle, Hp, !lpm_none by (try lia; intros; auto with lia). by destruct p.
    + rewrite Hgt by lia. destruct (m' (take (S n) b)); [done|]. apply IH; auto with lia.
Qed.

Lemma look_spec L pfx t ip found : ok L pfx t -> length ip = L ->
  look t ip found = match lpm (tfind t) (bitsOf ip) (8 * L) with Some p => Some p | None => found end.
Proof.
  intros Hok HL. revert pfx found Hok. induction t as [|n p b c l IHl r IHr]; intros pfx found Hok; cbn [look].
  { by rewrite lpm_none. }
  assert (Hok' := Hok). destruct Hok' as (Hb&Hbl&Hc&_&Hl&Hr).
  pose proof (length_prefixOf L b c Hbl Hc) as Hlen.
  assert (forall i, (i < c)%nat -> tfind (N n p b c l r) (take i (bitsOf ip)) = None) as Hlow.
  { intros i Hi. apply (tfind_root L pfx); [done|]. intros H%prefix_length.
    rewrite Hlen, length_take in H. lia. }
  destruct (decide (take c (bitsOf ip) = prefixOf b c)) as [E|E].
  - assert (forall x t, ok L (prefixOf b c ++ [x]) t -> forall i, (i <= c)%nat ->
      tfind t (take i (bitsOf ip)) = None) as Hcl.
    { intros x t Ht i Hi. apply (tfind_outside L _ _ _ Ht). intros H%prefix_length.
      rewrite length_app, Hlen, length_take in H. cbn in H. lia. }
    assert (tfind (N n p b c l r) (take c (bitsOf ip)) = p) as Hp by (cbn [tfind]; by rewrite E, decide_True).
    destruct (bitsOf ip !! c) as [x|] eqn:Ex.
    + assert (forall i, (c < i)%nat -> (i <= 8 * L)%nat -> tfind (N n p b c l r) (take i (bitsOf ip))
        = tfind (if x then r else l) (take i (bitsOf ip))) as Hhigh.
      { intros i Hi Hi'. assert (prefixOf b c ++ [x] `prefix_of` take i (bitsOf ip)) as Hpx.
        { rewrite <- E, <- take_S_r by done. rewrite <- (Nat.min_l (S c) i), <- take_take by lia.
          apply prefix_take. }
        cbn [tfind]. rewrite decide_False by (by eapply prefix_snoc_ne).
        destruct x; [|by rewrite decide_True]. rewrite decide_False; [by rewrite decide_True|].
        intros H. by pose proof (prefix_snoc_bit _ _ _ _ H Hpx). }
      rewrite (lpm_split _ _ _ c p (8 * L) Hc Hhigh Hp Hlow) by (destruct x; eauto).
      destruct x; cbv iota; [rewrite (IHr _ _ Hr)|rewrite (IHl _ _ Hl)];
        [destruct (lpm (tfind r) (bitsOf ip) (8 * L))|destruct (lpm (tfind l) (bitsOf ip) (8 * L))];
        by try destruct p.
    + apply lookup_ge_None in Ex. rewrite length_bitsOf in Ex. assert (c = 8 * L)%nat as Hcl' by lia.
      rewrite (lpm_split _ (fun _ => None) _ c p), lpm_none by first [solve [eauto] | lia]. by destruct p.
  - rewrite lpm_none; [done|]. intros i _. apply (tfind_root L pfx); [done|]. intros H. destruct E.
    apply take_prefix_eq; [|done]. etrans; [exact H|apply prefix_take].
Qed.
