(* ===== verification/Routing.v ===== *)
(** The heap of trie nodes of [device/allowedips.go] represents a trie for
    each family, and the operations on the heap are those on the tries. *)
From S2P Require Import Prelude AllowedIPs TrieBits Trie.

(** ** Representation *)

Definition rootOf (t : tree) : option node_id :=
  match t with E => None | N n _ _ _ _ _ => Some n end.

Definition typeOf (s : slot) : Z := match s with RootSlot _ => 2 | ChildSlot _ b => bitZ b end.

Definition nodeEntry (p : option trie_peer) (cl cr : option node_id) (s : slot) (c : nat) (b : bytes)
    : trieEntry :=
  mkEntry p cl cr (mkParent (Some s) (typeOf s)) (Z.of_nat c) (Z.of_nat c / 8) (7 - Z.of_nat c mod 8) b
    (isSome p).

Fixpoint rep (h : gmap node_id trieEntry) (s : slot) (t : tree) : Prop :=
  match t with
  | E => True
  | N n p b c l r =>
      h !! n = Some (nodeEntry p (rootOf l) (rootOf r) s c b) /\
      rep h (ChildSlot n false) l /\ rep h (ChildSlot n true) r
  end.

Definition slotOf (v6 : bool) (k : list frame) : slot :=
  match k with [] => RootSlot v6 | f :: _ => ChildSlot (f_id f) (f_dir f) end.

Definition holderOf (k : list frame) : option node_id :=
  match k with [] => None | f :: _ => Some (f_id f) end.

(** The node of a frame, with [sub] in its hole. *)
Definition frameEntry (f : frame) (s : slot) (sub : option node_id) : trieEntry :=
  if f_dir f then nodeEntry (f_peer f) (rootOf (f_sib f)) sub s (f_c f) (f_bits f)
  else nodeEntry (f_peer f) sub (rootOf (f_sib f)) s (f_c f) (f_bits f).

Fixpoint repctx (h : gmap node_id trieEntry) (v6 : bool) (k : list frame) (sub : option node_id) : Prop :=
  match k with
  | [] => True
  | f :: k =>
      h !! f_id f = Some (frameEntry f (slotOf v6 k) sub) /\
      rep h (ChildSlot (f_id f) (negb (f_dir f))) (f_sib f) /\
      repctx h v6 k (Some (f_id f))
  end.

Fixpoint ids (t : tree) : list node_id :=
  match t with E => [] | N n _ _ _ l r => n :: ids l ++ ids r end.

Fixpoint idsctx (k : list frame) : list node_id :=
  match k with [] => [] | f :: k => f_id f :: ids (f_sib f) ++ idsctx k end.

(** The nodes with a peer. *)
Fixpoint owned (t : tree) : list (node_id * trie_peer) :=
  match t with
  | E => []
  | N n p _ _ l r => (match p with Some p => [(n, p)] | None => [] end) ++ owned l ++ owned r
  end.

Definition rootPtr (t : AllowedIPs) (v6 : bool) : option node_id := if v6 then IPv6 t else IPv4 t.

Definition fam (t : AllowedIPs) (v6 : bool) (tr : tree) : Prop :=
  rootPtr t v6 = rootOf tr /\ rep (heap t) (RootSlot v6) tr.

(** The outermost pointer of a context whose hole holds [sub]. *)
Fixpoint rootVia (k : list frame) (sub : option node_id) : option node_id :=
  match k with [] => sub | f :: k => rootVia k (Some (f_id f)) end.

Definition hole (t : AllowedIPs) (v6 : bool) (k : list frame) (sub : option node_id) : Prop :=
  rootPtr t v6 = rootVia k sub /\ repctx (heap t) v6 k sub.

Definition lenOf (v6 : bool) : nat := if v6 then IPv6len else IPv4len.

(** The table represents the tries [tr false] and [tr true]. *)
Record tableRep (t : AllowedIPs) (tr : bool -> tree) : Prop := {
  tr_fam : forall v6, fam t v6 (tr v6);
  tr_ok : forall v6, ok (lenOf v6) [] (tr v6);
  tr_nodup : NoDup (ids (tr false) ++ ids (tr true));
  tr_entries : forall p, NoDup (default [] (trieEntries t !! p)) /\
    forall n, n ∈ default [] (trieEntries t !! p) <-> (n, p) ∈ owned (tr false) ++ owned (tr true) }.

(** ** Lemmas: frames and holes *)

Lemma rep_frame h h' s t : (forall n, n ∈ ids t -> h' !! n = h !! n) -> rep h s t -> rep h' s t.
Proof.
  revert s. induction t as [|n p b c l IHl r IHr]; intros s Hh; [done|]. cbn.
  intros (Hn & Hl & Hr). rewrite Hh by set_solver. split_and!; [done|apply IHl|apply IHr]; try done;
    intros; apply Hh; set_solver.
Qed.

Lemma repctx_frame h h' v6 k sub :
  (forall n, n ∈ idsctx k -> h' !! n = h !! n) -> repctx h v6 k sub -> repctx h' v6 k sub.
Proof.
  revert sub. induction k as [|f k IH]; intros sub Hh; [done|]. cbn [repctx idsctx] in *.
  intros (Hf & Hs & Hk). rewrite Hh by set_solver. split_and!; [done| |].
  - eapply rep_frame; [|exact Hs]. intros. apply Hh. set_solver.
  - apply IH; [|done]. intros. apply Hh. set_solver.
Qed.

Lemma rep_in h s t n : rep h s t -> n ∈ ids t -> is_Some (h !! n).
Proof.
  revert s. induction t as [|m p b c l IHl r IHr]; intros s; cbn; [set_solver|].
  intros (Hm & Hl & Hr) [->|[?|?]%elem_of_app]%elem_of_cons; eauto.
Qed.

Lemma repctx_in h v6 k sub n : repctx h v6 k sub -> n ∈ idsctx k -> is_Some (h !! n).
Proof.
  revert sub. induction k as [|f k IH]; intros sub; cbn; [set_solver|].
  intros (Hm & Hl & Hr) [->|[?|?]%elem_of_app]%elem_of_cons; eauto using rep_in.
Qed.

Lemma rootOf_frameTree f t : rootOf (frameTree f t) = Some (f_id f).
Proof. unfold frameTree. by destruct (f_dir f). Qed.

Lemma rep_frameTree h v6 k f t : rep h (slotOf v6 k) (frameTree f t) <->
  h !! f_id f = Some (frameEntry f (slotOf v6 k) (rootOf t)) /\
  rep h (ChildSlot (f_id f) (negb (f_dir f))) (f_sib f) /\ rep h (slotOf v6 (f :: k)) t.
Proof. unfold frameTree, frameEntry. cbn [slotOf]. destruct (f_dir f); cbn; tauto. Qed.

Lemma fam_plug t v6 k s : fam t v6 (plug k s) <-> hole t v6 k (rootOf s) /\ rep (heap t) (slotOf v6 k) s.
Proof.
  unfold fam, hole. revert s. induction k as [|f k IH]; intros s; cbn [plug repctx rootVia slotOf]; [tauto|].
  rewrite IH, rootOf_frameTree, rep_frameTree. cbn [slotOf]. tauto.
Qed.

Lemma ids_plug k t : ids (plug k t) ≡ₚ idsctx k ++ ids t.
Proof.
  revert t. induction k as [|f k IH]; intros t; cbn [plug idsctx]; [done|].
  rewrite IH. unfold frameTree. destruct (f_dir f); cbn [ids]; solve_Permutation.
Qed.

Fixpoint ownedctx (k : list frame) : list (node_id * trie_peer) :=
  match k with
  | [] => []
  | f :: k => (match f_peer f with Some p => [(f_id f, p)] | None => [] end) ++ owned (f_sib f) ++ ownedctx k
  end.

Lemma owned_plug k t : owned (plug k t) ≡ₚ ownedctx k ++ owned t.
Proof.
  revert t. induction k as [|f k IH]; intros t; cbn [plug ownedctx]; [done|].
  rewrite IH. unfold frameTree. destruct (f_dir f); cbn [owned]; solve_Permutation.
Qed.

Lemma owned_ids t n p : (n, p) ∈ owned t -> n ∈ ids t.
Proof.
  induction t as [|m q b c l IHl r IHr]; cbn; [set_solver|].
  rewrite !elem_of_app, elem_of_cons, elem_of_app. destruct q; set_solver.
Qed.

(** Every node sits at the end of a context. *)
Lemma ids_split t n : n ∈ ids t -> exists k p b c l r, t = plug k (N n p b c l r).
Proof.
  induction t as [|m q b c l IHl r IHr]; cbn; [set_solver|].
  assert (forall k f t, plug k (frameTree f t) = plug (f :: k) t) as Hf by done.
  assert (forall k s f, frameTree f (plug k s) = plug (k ++ [f]) s) as Happ.
  { intros k. induction k as [|g k IH]; intros s f; cbn [plug app]; [done|]. by rewrite IH. }
  intros [->|[(k&p&b'&c'&l'&r'&E)%IHl|(k&p&b'&c'&l'&r'&E)%IHr]%elem_of_app]%elem_of_cons.
  - by exists [], q, b, c, l, r.
  - exists (k ++ [mkFrame m q b c false r]), p, b', c', l', r'. rewrite <- Happ, <- E. done.
  - exists (k ++ [mkFrame m q b c true l]), p, b', c', l', r'. rewrite <- Happ, <- E. done.
Qed.

(** ** Lemmas: running the primitives *)

Lemma runs_getNode n e t (Q : trieEntry -> AllowedIPs -> Prop) :
  heap t !! n = Some e -> Q e t -> runs (getNode n) t Q.
Proof. intros E H. unfold runs, getNode. by rewrite E. Qed.

Lemma runs_modNode n f e t (Q : unit -> AllowedIPs -> Prop) :
  heap t !! n = Some e -> Q tt (t <| heap ::= <[n := f e]> |>) -> runs (modNode n f) t Q.
Proof. intros E H. unfold runs, modNode. by rewrite E. Qed.

Lemma runs_newNode e t (Q : node_id -> AllowedIPs -> Prop) :
  (forall n, heap t !! n = None -> Q n (t <| heap ::= <[n := e]> |>)) -> runs (newNode e) t Q.
Proof. intros H. apply H, not_elem_of_dom, is_fresh. Qed.

Lemma runs_readSlot v6 t (Q : option node_id -> AllowedIPs -> Prop) :
  Q (rootPtr t v6) t -> runs (readSlot (RootSlot v6)) t Q.
Proof. done. Qed.

Lemma runs_orPanic {A} (o : option A) a t (Q : A -> AllowedIPs -> Prop) :
  o = Some a -> Q a t -> runs (orPanic o) t Q.
Proof. intros -> H. exact H. Qed.

(** What an operation leaves alone: the heap outside [ns], the lists, and the
    root of the other family. *)
Definition frames (v6 : bool) (ns : list node_id) (t t' : AllowedIPs) : Prop :=
  (forall n, n ∉ ns -> heap t' !! n = heap t !! n) /\ trieEntries t' = trieEntries t /\
  rootPtr t' (negb v6) = rootPtr t (negb v6).

Lemma frames_refl v6 ns t : frames v6 ns t t.
Proof. done. Qed.

Lemma frames_trans v6 ns t t' t'' : frames v6 ns t t' -> frames v6 ns t' t'' -> frames v6 ns t t''.
Proof. 
  intros (H1&H2&H3) (H1'&H2'&H3'). split_and!; [|congruence..]. intros n Hn. by rewrite H1', H1.
Qed.

(** Writing the pointer of a hole. *)
Lemma hole_write t v6 k sub v (Q : unit -> AllowedIPs -> Prop) :
  hole t v6 k sub -> NoDup (idsctx k) ->
  (forall t', hole t' v6 k v -> frames v6 (idsctx k) t t' -> Q tt t') ->
  runs (writeSlot (slotOf v6 k) v) t Q.
Proof.
  intros [Hroot Hk] Hnd HQ. destruct k as [|f k]; cbn [slotOf writeSlot].
  - apply HQ; [split; [by destruct v6|done]|]. split_and!; [by destruct v6..].
  - destruct Hk as (Hf & Hs & Hk). cbn [idsctx] in Hnd. apply NoDup_cons in Hnd as [Hni Hnd].
    eapply runs_modNode; [exact Hf|]. apply HQ.
    + split; [exact Hroot|]. cbn [repctx heap set_field]. split_and!.
      * rewrite lookup_insert_eq. unfold setChild, frameEntry. by destruct (f_dir f).
      * eapply rep_frame; [|exact Hs]. intros n Hn. cbn. rewrite lookup_insert_ne; [done|]. set_solver.
      * eapply repctx_frame; [|exact Hk]. intros n Hn. cbn. rewrite lookup_insert_ne; [done|]. set_solver.
    + split_and!; [|done|by destruct v6]. intros n Hn. cbn in *. rewrite lookup_insert_ne; [done|]. set_solver.
Qed.

Lemma hole_frame t t' v6 k sub : (forall n, n ∈ idsctx k -> heap t' !! n = heap t !! n) ->
  rootPtr t' v6 = rootPtr t v6 -> hole t v6 k sub -> hole t' v6 k sub.
Proof. intros Hh Hr [H1 H2]. split; [by rewrite Hr|]. by eapply repctx_frame. Qed.

Lemma shaped_node p cl cr s c b : shaped (nodeEntry p cl cr s c b).
Proof. done. Qed.

(** [hang] stores the node in the hole of the context, if its prefix lies there. *)
Lemma hang_runs L t v6 k sub n e (Q : unit -> AllowedIPs -> Prop) :
  hole t v6 k sub -> NoDup (idsctx k) -> n ∉ idsctx k -> heap t !! n = Some e ->
  okctx L k -> length (bits e) = L -> all_bytes (bits e) -> pfxOf k `prefix_of` bitsOf (bits e) ->
  (forall t', hole t' v6 k (Some n) -> frames v6 (n :: idsctx k) t t' ->
    heap t' !! n = Some (e <| parent := mkParent (Some (slotOf v6 k)) (typeOf (slotOf v6 k)) |>) ->
    Q tt t') ->
  runs (hang (mkParent (Some (RootSlot v6)) 2) (RootSlot v6) (holderOf k) n) t Q.
Proof.
  intros Hh Hnd Hn He Hok HL Hb Hp HQ. unfold hang.
  wstep. eapply runs_getNode; [exact He|]. destruct k as [|f k]; cbn [holderOf].
  - wstep. eapply runs_modNode; [exact He|]. cbv beta.
    apply (hole_write _ v6 [] sub); [|done|].
    { eapply hole_frame; [| |exact Hh]; [by intros m Hm%elem_of_nil|by destruct v6]. }
    intros t' Hh' (H1 & H2 & H3). cbn [slotOf typeOf heap set_field] in *. apply HQ; [done| |].
    + split_and!; [|done|done]. intros m Hm. rewrite H1 by set_solver. cbn.
      rewrite lookup_insert_ne; [done|set_solver].
    + rewrite H1 by set_solver. apply lookup_insert_eq.
  - assert (Hh' := Hh). destruct Hh' as [_ (Hf & _)].
    destruct Hok as (Hfa&Hfl&Hfc&_). cbn [pfxOf] in Hp. cbn [idsctx] in Hn.
    wstep. eapply runs_getNode; [exact Hf|]. wstep.
    assert (bitsOf (bits e) !! f_c f = Some (f_dir f)) as Hbit.
    { destruct Hp as [x Hx]. rewrite Hx, <- app_assoc.
      apply list_lookup_middle. symmetry. by apply (length_prefixOf L). }
    assert (f_c f < 8 * length (bits e))%nat as Hlt
      by (apply lookup_lt_Some in Hbit; by rewrite length_bitsOf in Hbit).
    eapply runs_orPanic.
    { rewrite (choose_spec _ _ (f_c f)); [exact Hbit| | |done|done]; unfold frameEntry; by destruct (f_dir f). }
    unfold attach. wstep. eapply runs_modNode; [exact He|]. cbv beta.
    apply (hole_write _ v6 (f :: k) sub); [|done|].
    + eapply hole_frame; [| |exact Hh]; [|by destruct v6]. intros m Hm. cbn.
      rewrite lookup_insert_ne; [done|set_solver].
    + intros t' Hh' (H1 & H2 & H3). cbn [slotOf typeOf heap set_field] in *. apply HQ; [done| |].
      * split_and!; [|done|by rewrite H3; destruct v6]. intros m Hm. rewrite H1 by set_solver. cbn.
        rewrite lookup_insert_ne; [done|set_solver].
      * rewrite H1 by done. apply lookup_insert_eq.
Qed.

(** [nodePlacement] is the descent. *)
Lemma nodePlacement_runs L s k t ip c fuel sl (Q : option node_id * bool -> AllowedIPs -> Prop) :
  rep (heap t) sl s -> okctx L k -> ok L (pfxOf k) s -> address ip -> length ip = L ->
  (c <= 8 * L)%nat -> (8 * L + 2 - length (pfxOf k) <= fuel)%nat ->
  (let '(k', s', ex) := descend k s ip c in
   Q (if ex then rootOf s' else holderOf k', ex) t) ->
  runs (nodePlacement fuel (rootOf s) ip (Z.of_nat c) (holderOf k)) t Q.
Proof.
  intros Hrep Hk Hs Hip HL Hc. revert k sl fuel Hrep Hk Hs.
  induction s as [|n p b cn l IHl r IHr]; intros k sl fuel Hrep Hk Hs Hfuel HQ.
  { destruct fuel as [|fuel]; [|exact HQ]. exfalso. destruct k as [|f k]; cbn in Hfuel; [lia|].
    destruct Hk as (?&?&?&?). rewrite length_app, (length_prefixOf L) in Hfuel by done. cbn in Hfuel. lia. }
  destruct Hs as (Hb & Hbl & Hcn & Hpre & Hl & Hr). destruct Hrep as (Hn & Hrl & Hrr).
  pose proof (length_prefixOf L b cn Hbl Hcn) as Hlen. pose proof (prefix_length _ _ Hpre) as Hpl.
  destruct fuel as [|fuel]; [lia|]. cbn [nodePlacement rootOf]. wstep.
  eapply runs_getNode; [exact Hn|]. cbn [cidr bits nodeEntry].
  destruct (commonBits_spec b ip Hb Hip ltac:(lia)) as [_ Hcb]. specialize (Hcb cn ltac:(lia)).
  cbn [descend] in HQ. destruct (decide _) as [[Hle Heq]|Hno].
  - rewrite (proj2 (Z.leb_le _ _)) by lia. rewrite (proj2 (Z.leb_le _ _)) by (by apply Hcb). cbn [andb].
    destruct (decide (cn = c)) as [->|Hne].
    + rewrite Z.eqb_refl. exact HQ.
    + destruct (Z.eqb_spec (Z.of_nat cn) (Z.of_nat c)); [lia|]. wstep.
      destruct (lookup_lt_is_Some_2 (bitsOf ip) cn) as [x Hx]; [rewrite length_bitsOf; lia|].
      rewrite Hx in HQ. eapply runs_orPanic; [rewrite (choose_spec _ _ cn); [exact Hx|done|done|apply Hip|lia]|].
      destruct x; cbn [childOf child0 child1].
      * apply (IHr (mkFrame n p b cn true l :: k) _ fuel Hrr); cbn [okctx pfxOf f_bits f_c f_dir f_sib negb]; try done.
        rewrite length_app, Hlen. cbn. lia.
      * apply (IHl (mkFrame n p b cn false r :: k) _ fuel Hrl); cbn [okctx pfxOf f_bits f_c f_dir f_sib negb]; try done.
        rewrite length_app, Hlen. cbn. lia.
  - assert ((Z.of_nat cn <=? Z.of_nat c) && (Z.of_nat cn <=? commonBits b ip) = false) as ->; [|exact HQ].
    apply andb_false_iff. destruct (decide (cn <= c)%nat); [right|left; lia].
    apply Z.leb_gt. destruct (Z.ltb_spec (commonBits b ip) (Z.of_nat cn)); [done|].
    destruct Hno. split; [done|]. symmetry. by apply Hcb.
Qed.

(** ** Lemmas: the lists of the peers *)

Definition entriesRep (m : gmap trie_peer (list node_id)) (O : list (node_id * trie_peer)) : Prop :=
  forall p, NoDup (default [] (m !! p)) /\ forall n, n ∈ default [] (m !! p) <-> (n, p) ∈ O.

Lemma entriesRep_perm m O O' : O ≡ₚ O' -> entriesRep m O -> entriesRep m O'.
Proof. intros HO H p. destruct (H p) as [H1 H2]. split; [done|]. intros n. by rewrite H2, HO. Qed.

Definition addEntry (p : trie_peer) (n : node_id) (m : gmap trie_peer (list node_id)) :=
  <[p := default [] (m !! p) ++ [n]]> m.
Definition delEntry (p : option trie_peer) (n : node_id) (m : gmap trie_peer (list node_id)) :=
  match p with
  | Some p => <[p := filter (fun x => x <> n) (default [] (m !! p))]> m
  | None => m
  end.

Lemma entriesRep_add m O n p : (forall q, (n, q) ∉ O) -> entriesRep m O ->
  entriesRep (addEntry p n m) ((n, p) :: O).
Proof.
  intros Hn H q. unfold addEntry. destruct (decide (p = q)) as [<-|Hne].
  - rewrite lookup_insert_eq. cbn [from_option id]. destruct (H p) as [H1 H2]. split.
    + apply NoDup_app. split_and!; [done| |apply NoDup_singleton].
      intros x Hx ->%list_elem_of_singleton. by apply H2, Hn in Hx.
    + intros x. rewrite elem_of_app, list_elem_of_singleton, elem_of_cons, H2. naive_solver.
  - rewrite lookup_insert_ne by done. destruct (H q) as [H1 H2]. split; [done|].
    intros x. rewrite elem_of_cons, H2. naive_solver.
Qed.

Lemma entriesRep_del m O n p : (forall q, (n, q) ∉ O) ->
  entriesRep m ((match p with Some p => [(n, p)] | None => [] end) ++ O) ->
  entriesRep (delEntry p n m) O.
Proof.
  intros Hn H. destruct p as [p|]; [|done]. intros q. destruct (H q) as [H1 H2]. unfold delEntry.
  destruct (decide (p = q)) as [<-|Hne].
  - rewrite lookup_insert_eq. cbn [from_option id]. split; [by apply NoDup_filter|].
    intros x. rewrite list_elem_of_filter, H2. cbn. rewrite elem_of_cons. split; [naive_solver|].
    intros Hx. split; [|auto]. intros ->. by apply Hn in Hx.
  - rewrite lookup_insert_ne by done. split; [done|]. intros x. rewrite H2. cbn. rewrite elem_of_cons.
    naive_solver.
Qed.

Lemma removeFrom_runs t n p cl cr s c b (Q : unit -> AllowedIPs -> Prop) :
  heap t !! n = Some (nodeEntry p cl cr s c b) ->
  Q tt (t <| trieEntries ::= delEntry p n |>
          <| heap ::= <[n := nodeEntry p cl cr s c b <| perPeerElem := false |>]> |>) ->
  runs (removeFromPeerEntries n) t Q.
Proof.
  intros E HQ. unfold removeFromPeerEntries. wstep. eapply runs_getNode; [exact E|].
  destruct p as [p|]; cbn [isSome nodeEntry perPeerElem].
  - wstep. eapply runs_orPanic; [reflexivity|]. wstep. eapply runs_modNode; [exact E|]. exact HQ.
  - wstep. enough (t = t <| trieEntries ::= delEntry None n |>
      <| heap ::= <[n := nodeEntry None cl cr s c b <| perPeerElem := false |>]> |>) as -> by done.
    destruct t as [h r4 r6 m]. cbn in *. f_equal. symmetry. by apply insert_id.
Qed.

Lemma addTo_runs t n e p (Q : unit -> AllowedIPs -> Prop) :
  heap t !! n = Some e -> te_peer e = Some p ->
  Q tt (t <| trieEntries ::= addEntry p n |> <| heap ::= <[n := e <| perPeerElem := true |>]> |>) ->
  runs (addToPeerEntries n) t Q.
Proof.
  intros E Hp HQ. unfold addToPeerEntries. wstep. eapply runs_getNode; [exact E|]. wstep.
  eapply runs_orPanic; [exact Hp|]. wstep. eapply runs_modNode; [exact E|]. exact HQ.
Qed.

(** ** Lemmas: the new subtrees *)

(** A subtree hung elsewhere. *)
Lemma rep_reparent h h' s s' n p b c l r :
  rep h s (N n p b c l r) -> NoDup (ids (N n p b c l r)) ->
  h' !! n = Some (nodeEntry p (rootOf l) (rootOf r) s' c b) ->
  (forall m, m ∈ ids l ++ ids r -> h' !! m = h !! m) ->
  rep h' s' (N n p b c l r).
Proof.
  intros (_ & Hl & Hr) Hnd Hn Hm. cbn [rep]. split_and!; [done| |];
    (eapply rep_frame; [|eassumption]); intros m Hin; apply Hm; set_solver.
Qed.

Lemma rep_node2 h n p b c bit s t t' :
  h !! n = Some (setChild bit (rootOf t) (setChild (negb bit) (rootOf t') (nodeEntry p None None s c b))) ->
  rep h (ChildSlot n bit) t -> rep h (ChildSlot n (negb bit)) t' ->
  rep h s (node2 n p b c bit t t').
Proof. intros Hn Ht Ht'. by destruct bit; cbn [node2 rep negb setChild] in *. Qed.

(** The rest of a table when one trie is replaced. *)
Lemma tableRep_update t t' tr v6 nt :
  tableRep t tr -> fam t' v6 nt -> ok (lenOf v6) [] nt -> NoDup (ids nt) ->
  (forall n, n ∈ ids nt -> n ∈ ids (tr v6) \/ heap t !! n = None) ->
  (forall n, n ∈ ids (tr (negb v6)) -> heap t' !! n = heap t !! n) ->
  rootPtr t' (negb v6) = rootPtr t (negb v6) ->
  entriesRep (trieEntries t') (owned nt ++ owned (tr (negb v6))) ->
  tableRep t' (fun b => if eqb b v6 then nt else tr b).
Proof.
  intros [Hfam Hok Hnd He] Hnt Hntok Hndt Hids Hother Hroot Hent.
  assert (forall n, n ∈ ids nt -> n ∉ ids (tr (negb v6))) as Hdis.
  { intros n Hn Hn'. destruct (Hids n Hn) as [H|H].
    - apply NoDup_app in Hnd as (_ & Hd & _). destruct v6; cbn in *; [by apply (Hd n Hn')|by apply (Hd n H)].
    - destruct (Hfam (negb v6)) as [_ Hr]. destruct (rep_in _ _ _ _ Hr Hn') as [e E]. congruence. }
  assert (NoDup (ids (tr (negb v6)))) as Hndo.
  { apply NoDup_app in Hnd as (H1 & _ & H2). by destruct v6. }
  assert (fam t' (negb v6) (tr (negb v6))) as Hfo.
  { destruct (Hfam (negb v6)) as [Hr Hh]. split; [by rewrite Hroot|]. eapply rep_frame; [|exact Hh]. auto. }
  split.
  - intros b. destruct b, v6; done.
  - intros b. destruct b, v6; try done; apply Hok.
  - destruct v6; cbn [eqb negb] in *; apply NoDup_app; split_and!; try done.
    intros n H1 H2. by apply (Hdis n).
  - intros p. specialize (Hent p). destruct v6; cbn [eqb negb] in *; [|done].
    destruct Hent as [H1 H2]. split; [done|]. intros n. rewrite H2, !elem_of_app. tauto.
Qed.

(** ** Lemmas: insertion *)

Lemma hl_insert_ne {A} (h : gmap node_id A) n m x : m <> n -> <[n := x]> h !! m = h !! m.
Proof. intros. by rewrite lookup_insert_ne. Qed.

(** The hole of a context as [node] and the chosen bit. *)
Lemma choose_frame L f s sub ip : address (f_bits f) -> length (f_bits f) = L -> (f_c f <= 8 * L)%nat ->
  all_bytes ip -> length ip = L -> prefixOf (f_bits f) (f_c f) ++ [f_dir f] `prefix_of` bitsOf ip ->
  choose (frameEntry f s sub) ip = Some (f_dir f).
Proof.
  intros Ha Hl Hc Hb HL [x Hx].
  assert (bitsOf ip !! f_c f = Some (f_dir f)) as Hbit.
  { rewrite Hx, <- app_assoc. apply list_lookup_middle. symmetry. by apply (length_prefixOf L). }
  pose proof (lookup_lt_Some _ _ _ Hbit) as Hlt. rewrite length_bitsOf in Hlt.
  rewrite (choose_spec _ _ (f_c f)); [exact Hbit| | |done|lia]; unfold frameEntry; by destruct (f_dir f).
Qed.

Lemma linkNew_down L t v6 k s root new ip c (Q : unit -> AllowedIPs -> Prop) :
  hole t v6 k (rootOf s) -> rootVia k (rootOf s) = Some root -> okctx L k ->
  address ip -> length ip = L -> pfxOf k `prefix_of` bitsOf ip ->
  runs (match rootOf s with
        | None => let* q := orPanic (holderOf k) in attach q (default false (last (pfxOf k))) new
        | Some down =>
            let* de := getNode down in
            let* ne := getNode new in
            let common := commonBits (bits de) ip in
            let c := if common <? c then common else c in
            if cidr ne =? c then
              let* bit := orPanic (choose ne (bits de)) in
              attach new bit down;;;
              hang (mkParent (Some (RootSlot v6)) 2) (RootSlot v6) (holderOf k) new
            else
              let* branch := newNode (blankNode (masked (bits ne) c) c None (mkParent None 0)) in
              let* be := getNode branch in
              let* bit := orPanic (choose be (bits de)) in
              attach branch bit down;;;
              let* bit := orPanic (choose be (bits ne)) in
              attach branch bit new;;;
              hang (mkParent (Some (RootSlot v6)) 2) (RootSlot v6) (holderOf k) branch
        end) t Q ->
  runs (linkNew (RootSlot v6) (mkParent (Some (RootSlot v6)) 2) root (holderOf k) new ip c) t Q.
Proof.
  intros [Hr Hh] Hroot Hk [_ Hb] HL Hp HQ. unfold linkNew. wstep. destruct k as [|f k]; cbn [holderOf].
  - wstep. cbn [rootVia] in Hroot. rewrite Hroot in HQ. exact HQ.
  - destruct Hh as (Hf & Hs & _). destruct Hk as (Ha&Hl&Hc&_). wstep. eapply runs_getNode; [exact Hf|].
    wstep. eapply runs_orPanic; [by apply (choose_frame L)|]. wstep.
    replace (childOf (frameEntry f (slotOf v6 k) (rootOf s)) (f_dir f)) with (rootOf s)
      by (unfold frameEntry; by destruct (f_dir f)).
    cbn [pfxOf holderOf] in HQ. rewrite last_snoc in HQ. exact HQ.
Qed.

(** The state in which [linkNew] is called. *)
Record linking (L : nat) (t : AllowedIPs) (v6 : bool) (k : list frame) (s : tree) (new : node_id)
    (p : trie_peer) (ip : bytes) (c : nat) : Prop := {
  li_hole : hole t v6 k (rootOf s);
  li_rep : rep (heap t) (slotOf v6 k) s;
  li_nodup : NoDup (idsctx k ++ ids s);
  li_new : new ∉ idsctx k ++ ids s;
  li_heap : heap t !! new = Some (blankNode ip (Z.of_nat c) (Some p) (mkParent None 0) <| perPeerElem := true |>);
  li_ctx : okctx L k;
  li_ok : ok L (pfxOf k) s;
  li_ip : address ip;
  li_len : length ip = L;
  li_c : (c <= 8 * L)%nat;
  li_pfx : pfxOf k `prefix_of` prefixOf ip c;
  li_off : offPath s (prefixOf ip c) }.

(** What it achieves. *)
Definition linked (t : AllowedIPs) (v6 : bool) (k : list frame) (s s' : tree) (new branch : node_id)
    (t' : AllowedIPs) : Prop :=
  fam t' v6 (plug k s') /\ heap t !! branch = None /\
  (ids s' ≡ₚ new :: ids s \/ ids s' ≡ₚ branch :: new :: ids s) /\
  frames v6 (branch :: new :: ids s ++ idsctx k) t t'.

Lemma attach_runs t n bit m e en (Q : unit -> AllowedIPs -> Prop) :
  heap t !! m = Some e -> heap t !! n = Some en -> n <> m ->
  Q tt (t <| heap ::= fun h => <[n := setChild bit (Some m) en]>
          (<[m := e <| parent := mkParent (Some (ChildSlot n bit)) (bitZ bit) |>]> h) |>) ->
  runs (attach n bit m) t Q.
Proof.
  intros Hm Hn Hne HQ. unfold attach. wstep. eapply runs_modNode; [exact Hm|]. cbv beta.
  eapply runs_modNode; [cbn; by rewrite lookup_insert_ne|]. exact HQ.
Qed.

Lemma pfx_bits (pfx : list bool) ip c : pfx `prefix_of` prefixOf ip c -> pfx `prefix_of` bitsOf ip.
Proof. intros H. etrans; [exact H|apply prefix_take]. Qed.

(** A new leaf below the last node of the context. *)
Lemma linkNew_leaf L t v6 f k new p ip c : linking L t v6 (f :: k) E new p ip c ->
  runs (attach (f_id f) (f_dir f) new) t (fun _ t' => exists branch,
    linked t v6 (f :: k) E (N new (Some p) ip c E E) new branch t').
Proof.
  intros [Hh _ Hnd Hnew Hn _ _ _ _ _ _ _]. unfold attach. wstep. eapply runs_modNode; [exact Hn|]. cbv beta.
  rewrite app_nil_r in *. apply (hole_write _ v6 (f :: k) None); [|done|].
  - eapply hole_frame; [| |exact Hh]; [|by destruct v6]. intros m Hm. cbn. apply hl_insert_ne. set_solver.
  - intros t' Hh' (H1 & H2 & H3). exists (fresh (dom (heap t))). unfold linked, frames. split_and!.
    + apply fam_plug. split; [exact Hh'|]. cbn [rep]. split_and!; [|done..].
      rewrite H1 by done. cbn [heap set_field]. rewrite lookup_insert_eq. reflexivity.
    + apply not_elem_of_dom, is_fresh.
    + by left.
    + intros m Hm. rewrite H1 by set_solver. cbn. apply hl_insert_ne. set_solver.
    + done.
    + rewrite H3. by destruct v6.
Qed.

(** The new node takes the place of [s], which goes below it. *)
Lemma linkNew_above L t v6 k n p0 b cn l r new p ip c :
  let s := N n p0 b cn l r in
  linking L t v6 k s new p ip c -> (c < 8 * L)%nat ->
  runs (attach new (bitAt b c) n;;;
        hang (mkParent (Some (RootSlot v6)) 2) (RootSlot v6) (holderOf k) new) t (fun _ t' => exists branch,
    linked t v6 k s (node2 new (Some p) ip c (bitAt b c) s E) new branch t').
Proof.
  intros s [Hh Hrep Hnd Hnew Hn Hctx Hok Hip HL Hc Hpfx Hoff] Hlt. wstep.
  assert (Hrep' := Hrep). destruct Hrep' as (Hs & _).
  apply NoDup_app in Hnd as (Hndk & Hdisj & Hnds).
  assert (new <> n) as Hne by (intros ->; apply Hnew, elem_of_app; right; cbn; set_solver).
  eapply attach_runs; [exact Hs|exact Hn|done|]. cbv beta.
  eapply (hang_runs L _ v6 k (rootOf s)); [| |set_solver|cbn; apply lookup_insert_eq|done| | | |].
  - eapply hole_frame; [| |exact Hh]; [|by destruct v6]. intros m Hm. cbn.
    rewrite !hl_insert_ne; [done|intros ->; by apply (Hdisj _ Hm); cbn; left|set_solver].
  - done.
  - by destruct (bitAt b c).
  - destruct (bitAt b c); apply Hip.
  - replace (bits _) with ip by by destruct (bitAt b c). by eapply pfx_bits.
  - intros t' Hh' (H1 & H2 & H3) Hnew'. exists (fresh (dom (heap t))). unfold linked, frames. split_and!.
    + apply fam_plug. split; [by destruct (bitAt b c)|]. apply rep_node2.
      * rewrite Hnew'. by destruct (bitAt b c).
      * eapply rep_reparent; [exact Hrep|exact Hnds| |].
        -- rewrite H1 by (intros [->|Hin]%elem_of_cons; [done|by apply (Hdisj _ Hin); cbn; left]).
           cbn [heap set_field]. rewrite hl_insert_ne, lookup_insert_eq by done. reflexivity.
        -- intros m Hm. cbn [ids] in *. apply NoDup_cons in Hnds as [Hni _].
           rewrite H1 by (intros [->|Hin]%elem_of_cons; [set_solver|apply (Hdisj _ Hin); set_solver]).
           cbn [heap set_field]. rewrite !hl_insert_ne; [done|set_solver|set_solver].
      * done.
    + apply not_elem_of_dom, is_fresh.
    + left. destruct (bitAt b c); cbn [node2 ids app]; rewrite ?app_nil_r; solve_Permutation.
    + intros m Hm. cbn [ids] in Hm. rewrite H1 by set_solver. cbn. rewrite !hl_insert_ne; [done|set_solver..].
    + done.
    + rewrite H3. by destruct v6.
Qed.

(** The new node is none of the others, nor is one that is not in the heap. *)
Lemma linking_apart L t v6 k s new p ip c : linking L t v6 k s new p ip c -> forall n, n ∈ ids s ->
  new <> n /\ forall m, m ∈ idsctx k -> new <> m /\ n <> m.
Proof.
  intros [_ _ Hnd Hnew _ _ _ _ _ _ _ _] n Hn. apply NoDup_app in Hnd as (_ & Hdisj & _).
  split; [intros ->; apply Hnew, elem_of_app; by right|].
  intros m Hm. split; [intros ->; apply Hnew, elem_of_app; by left|intros ->; by apply (Hdisj m)].
Qed.

Lemma unused_apart L t v6 k s new p ip c : linking L t v6 k s new p ip c -> forall br, heap t !! br = None ->
  br <> new /\ (forall m, m ∈ ids s -> br <> m) /\ (forall m, m ∈ idsctx k -> br <> m).
Proof.
  intros [[_ Hh] Hrep _ _ Hn _ _ _ _ _ _ _] br Hbr. split_and!; [intros ->; congruence| |].
  - intros m Hm ->. destruct (rep_in _ _ _ _ Hrep Hm). congruence.
  - intros m Hm ->. destruct (repctx_in _ _ _ _ _ Hh Hm). congruence.
Qed.

(** What the heap must hold for a branch to have [s] and the new node below it. *)
Lemma branch_linked L t t' v6 k n p0 b cn l r new p ip c br mip cm (bit : bool) :
  let s := N n p0 b cn l r in
  linking L t v6 k s new p ip c -> heap t !! br = None -> hole t' v6 k (Some br) ->
  (forall m, m <> br -> m ∉ idsctx k -> heap t' !! m =
    (<[new := blankNode ip (Z.of_nat c) (Some p) (mkParent None 0) <| perPeerElem := true |>
         <| parent := mkParent (Some (ChildSlot br (negb bit))) (bitZ (negb bit)) |>]>
    (<[n := nodeEntry p0 (rootOf l) (rootOf r) (ChildSlot br bit) cn b]> (heap t))) !! m) ->
  heap t' !! br = Some (setChild bit (Some n) (setChild (negb bit) (Some new) (nodeEntry None None None (slotOf v6 k) cm mip))) ->
  trieEntries t' = trieEntries t -> rootPtr t' (negb v6) = rootPtr t (negb v6) ->
  linked t v6 k s (node2 br None mip cm bit s (N new (Some p) ip c E E)) new br t'.
Proof.
  intros s Hlk Hbr Hh' Hm Hbr' H2 H3. destruct (linking_apart _ _ _ _ _ _ _ _ _ Hlk n ltac:(by left)) as [Hne Hdk].
  destruct (unused_apart _ _ _ _ _ _ _ _ _ Hlk br Hbr) as (Hbw & Hbs & Hbk). destruct Hlk as [_ Hrep Hnd Hnew _ _ _ _ _ _ _ _].
  apply NoDup_app in Hnd as (_ & Hdisj & Hnds). assert (n ∈ ids s) as Hns by by left.
  unfold linked, frames. split_and!; [|exact Hbr| | |done|done].
  - apply fam_plug. split; [by destruct bit|]. apply rep_node2; [by rewrite Hbr'| |].
    + eapply rep_reparent; [exact Hrep|exact Hnds| |].
      * rewrite Hm; [|intros ->; by apply (Hbs br)|intros Hin; by destruct (Hdk n Hin)].
        rewrite lookup_insert_ne by done. by rewrite lookup_insert_eq.
      * intros m Hin. cbn [ids] in *. apply NoDup_cons in Hnds as [Hni _]. assert (m ∈ ids s) as Hin' by (cbn; by right).
        rewrite Hm; [|intros ->; by apply (Hbs br)|intros Hk; by apply (Hdisj _ Hk)].
        rewrite !lookup_insert_ne; [done|intros ->; done|intros ->; apply Hnew, elem_of_app; by right].
    + cbn [rep]. split_and!; [|done..]. rewrite Hm; [|done|intros Hin; by destruct (Hdk new Hin)]. by rewrite lookup_insert_eq.
  - right. destruct bit; cbn [node2 ids app]; rewrite ?app_nil_r; solve_Permutation.
  - intros m Hin. apply not_elem_of_cons in Hin as [Hin1 Hin]. apply not_elem_of_cons in Hin as [Hin2 Hin].
    apply not_elem_of_app in Hin as [Hin3 Hin4]. rewrite Hm by done. rewrite !lookup_insert_ne; [done| |done].
    intros ->. by apply Hin3.
Qed.

(** A branch takes the place of [s], with [s] and the new node below it. *)
Lemma linkNew_branch L t v6 k n p0 b cn l r new p ip c cm :
  let s := N n p0 b cn l r in
  linking L t v6 k s new p ip c -> (cm < c)%nat -> (cm < cn)%nat -> (cn <= 8 * L)%nat ->
  address b -> length b = L -> prefixOf b cm = prefixOf ip cm -> bitAt ip cm = negb (bitAt b cm) ->
  pfxOf k `prefix_of` prefixOf ip cm ->
  runs (let* branch := newNode (blankNode (masked ip (Z.of_nat cm)) (Z.of_nat cm) None (mkParent None 0)) in
        let* be := getNode branch in
        let* bit := orPanic (choose be b) in
        attach branch bit n;;;
        let* bit := orPanic (choose be ip) in
        attach branch bit new;;;
        hang (mkParent (Some (RootSlot v6)) 2) (RootSlot v6) (holderOf k) branch) t (fun _ t' => exists branch,
    linked t v6 k s (node2 branch None (masked ip (Z.of_nat cm)) cm (bitAt b cm) s
                       (N new (Some p) ip c E E)) new branch t').
Proof.
  intros s Hlk Hcm Hcmn Hcn Hb Hbl Hpe Hbit Hpk. pose proof Hlk as [Hh Hrep _ _ Hn Hctx _ Hip HL Hc _ _].
  pose proof Hrep as (Hs & _). destruct (linking_apart _ _ _ _ _ _ _ _ _ Hlk n ltac:(by left)) as [Hne Hdk].
  wstep. apply runs_newNode. intros br Hbr. destruct (unused_apart _ _ _ _ _ _ _ _ _ Hlk br Hbr) as (Hbw & Hbs & Hbk).
  assert (br <> n) as Hbn by (apply Hbs; by left).
  wstep. eapply runs_getNode; [cbn; apply lookup_insert_eq|].
  assert (forall a, address a -> length a = L ->
    choose (blankNode (masked ip (Z.of_nat cm)) (Z.of_nat cm) None (mkParent None 0)) a = Some (bitAt a cm)) as Hch.
  { intros a Ha Hal. rewrite (choose_spec _ _ cm) by (done || apply Ha || lia). unfold bitAt.
    destruct (lookup_lt_is_Some_2 (bitsOf a) cm) as [x Hx]; [rewrite length_bitsOf; lia|]. by rewrite Hx. }
  wstep. eapply runs_orPanic; [by apply Hch|]. wstep.
  eapply attach_runs; [cbn; rewrite lookup_insert_ne by done; exact Hs|cbn; apply lookup_insert_eq|done|].
  wstep. eapply runs_orPanic; [by apply Hch|]. wstep.
  eapply attach_runs; [cbn; rewrite !lookup_insert_ne by done; exact Hn|cbn; apply lookup_insert_eq|done|].
  rewrite Hbit. set (bit := bitAt b cm) in *.
  assert (length (masked ip (Z.of_nat cm)) = L) as Hml by by rewrite length_masked.
  pose proof (proj1 (proj1 (NoDup_app _ _) (li_nodup _ _ _ _ _ _ _ _ _ Hlk))) as Hndk.
  eapply (hang_runs L _ v6 k (rootOf s)); [|done| |cbn; apply lookup_insert_eq|done| | | |].
  - eapply hole_frame; [| |exact Hh]; [|by destruct v6]. intros m Hm. destruct (Hdk m Hm) as [? ?].
    specialize (Hbk m Hm). cbn. by rewrite !lookup_insert_ne.
  - intros Hin. by apply (Hbk br).
  - by destruct bit.
  - destruct bit; by apply maskWith_bytes, Hip.
  - replace (bits _) with (masked ip (Z.of_nat cm)) by by destruct bit.
    apply (pfx_bits _ _ cm). unfold prefixOf. rewrite take_masked; [done|apply Hip|lia..].
  - intros t' Hh' (H1 & H2 & H3) Hbr'. exists br. apply (branch_linked L t t' v6 k n p0 b cn l r new p ip c); try done.
    + intros m Hmb Hmk. rewrite H1 by (intros [->|?]%elem_of_cons; done). cbn [heap set_field].
      rewrite (lookup_insert_ne _ br) by done. destruct (decide (m = new)) as [->|].
      * by rewrite !lookup_insert_eq.
      * rewrite !(lookup_insert_ne _ new), (lookup_insert_ne _ br) by done. destruct (decide (m = n)) as [->|].
        -- by rewrite !lookup_insert_eq.
        -- by rewrite !lookup_insert_ne by done.
    + rewrite Hbr'. by destruct bit.
Qed.

Lemma linkNew_runs L t v6 k s root new p ip c :
  linking L t v6 k s new p ip c -> rootVia k (rootOf s) = Some root ->
  runs (linkNew (RootSlot v6) (mkParent (Some (RootSlot v6)) 2) root (holderOf k) new ip (Z.of_nat c)) t
    (fun _ t' => exists branch, linked t v6 k s (insertAt new branch p ip c s false) new branch t').
Proof.
  intros Hlk Hroot. assert (Hlk' := Hlk). destruct Hlk' as [Hh Hrep _ _ Hn Hctx Hok Hip HL Hc Hpfx Hoff].
  eapply (linkNew_down L); try done; [by eapply pfx_bits|].
  destruct s as [|n p0 b cn l r]; cbn [rootOf].
  - destruct k as [|f k]; [done|]. cbn [holderOf pfxOf]. wstep. eapply runs_orPanic; [done|].
    rewrite last_snoc. by eapply linkNew_leaf.
  - destruct Hrep as (Hs & _). wstep. eapply runs_getNode; [exact Hs|]. wstep.
    eapply runs_getNode; [exact Hn|]. cbn [bits nodeEntry].
    destruct (offPath_common _ _ _ _ _ _ _ _ _ _ Hip HL Hc Hok Hpfx Hoff) as (cm & Hcm & Hcml & Heq & Hoffc & Hpk).
    assert (Hok' := Hok). destruct Hok' as (Hb&Hbl&Hcn&_).
    rewrite Hcm. cbn [insertAt]. rewrite Hcm, Nat2Z.id. cbv zeta. cbn [cidr blankNode set_field bits].
    destruct (decide (cm < c)%nat) as [Hlt|Hge].
    + rewrite (proj2 (Z.ltb_lt _ _)) by lia. destruct (Z.eqb_spec (Z.of_nat c) (Z.of_nat cm)); [lia|].
      apply (linkNew_branch L); try done; [lia|by apply Heq|]. apply commonBits_differ; try done; lia.
    + destruct (Z.ltb_spec (Z.of_nat cm) (Z.of_nat c)); [lia|]. rewrite Z.eqb_refl. wstep.
      eapply runs_orPanic; [|by eapply linkNew_above; [exact Hlk|lia]].
      rewrite (choose_spec _ _ c) by (done || apply Hb || lia). unfold bitAt.
      destruct (lookup_lt_is_Some_2 (bitsOf b) c) as [x Hx]; [rewrite length_bitsOf; lia|]. by rewrite Hx.
Qed.

Lemma owned_insertAt new branch p ip c s :
  owned (insertAt new branch p ip c s false) ≡ₚ (new, p) :: owned s.
Proof.
  destruct s as [|n p0 b cn l r]; cbn [insertAt]; [done|].
  destruct (decide _), (bitAt b _); cbn [node2 owned app]; rewrite ?app_nil_r; solve_Permutation.
Qed.

Lemma rootOf_plug k s : rootOf (plug k s) = rootVia k (rootOf s).
Proof.
  revert s. induction k as [|f k IH]; intros s; cbn [plug rootVia]; [done|].
  by rewrite IH, rootOf_frameTree.
Qed.

(** The end of [insert] when the prefix is not in the trie. *)
Lemma insert_new t tr v6 k s root p ip c :
  let L := lenOf v6 in
  tableRep t tr -> tr v6 = plug k s -> okctx L k -> ok L (pfxOf k) s ->
  rootVia k (rootOf s) = Some root ->
  address ip -> length ip = L -> (c <= 8 * L)%nat -> pfxOf k `prefix_of` prefixOf ip c ->
  offPath s (prefixOf ip c) ->
  runs (let* new := newNode (blankNode ip (Z.of_nat c) (Some p) (mkParent None 0)) in
        addToPeerEntries new;;;
        linkNew (RootSlot v6) (mkParent (Some (RootSlot v6)) 2) root (holderOf k) new ip (Z.of_nat c)) t
    (fun _ t' => exists tr', tableRep t' tr' /\ tr' (negb v6) = tr (negb v6) /\
      exists new branch, tr' v6 = plug k (insertAt new branch p ip c s false)).
Proof.
  intros L Htr Etr Hctx Hok Hroot Hip HL Hc Hpfx Hoff. assert (Htr' := Htr).
  destruct Htr' as [Hfam Hokt Hnd Hent]. wstep. apply runs_newNode. intros new Hnew. wstep.
  eapply addTo_runs; [cbn; apply lookup_insert_eq|done|]. cbv beta.
  assert (forall b n, n ∈ ids (tr b) -> n <> new) as Hnn.
  { intros b n Hn ->. destruct (Hfam b) as [_ Hr]. destruct (rep_in _ _ _ _ Hr Hn). congruence. }
  assert (forall n, n ∈ idsctx k ++ ids s <-> n ∈ ids (tr v6)) as Hks by (intros n; by rewrite Etr, ids_plug).
  assert (NoDup (idsctx k ++ ids s)) as Hndks.
  { rewrite <- ids_plug, <- Etr. apply NoDup_app in Hnd as (? & _ & ?). by destruct v6. }
  destruct (Hfam v6) as [Hr Hrep]. rewrite Etr in Hr, Hrep.
  destruct (proj1 (fam_plug t v6 k s) (conj Hr Hrep)) as [Hh Hs].
  set (t1 := _ <| heap ::= _ |>).
  assert (forall n, n <> new -> heap t1 !! n = heap t !! n) as Hh1
    by (intros n Hn; cbn; by rewrite !lookup_insert_ne).
  assert (linking L t1 v6 k s new p ip c) as Hlk.
  { split; try done.
    - eapply hole_frame; [| |exact Hh]; [|by destruct v6]. intros n Hn. apply Hh1.
      apply (Hnn v6), Hks, elem_of_app. by left.
    - eapply rep_frame; [|exact Hs]. intros n Hn. apply Hh1, (Hnn v6), Hks, elem_of_app. by right.
    - intros Hin. apply Hks in Hin. by apply (Hnn v6) in Hin.
    - cbn. by rewrite lookup_insert_eq. }
  eapply runs_mono; [by eapply linkNew_runs|]. intros [] t' [branch (Hfam' & Hbr & Hids & Hfr1 & Hfr2 & Hfr3)].
  assert (heap t !! branch = None) as Hbr'.
  { destruct (decide (branch = new)) as [->|]; [done|]. by rewrite <- Hh1. }
  eexists. split; [eapply (tableRep_update t t' tr v6); [done|exact Hfam'|..]|].
  - apply ok_plug; [done|]. apply insertAt_spec; done.
  - rewrite ids_plug. assert (branch <> new) as Hbw by (intros ->; cbn in Hbr; by rewrite lookup_insert_eq in Hbr).
    assert (branch ∉ idsctx k ++ ids s /\ new ∉ idsctx k ++ ids s) as [Hb1 Hb2].
    { split; intros Hin%Hks.
      - destruct (Hfam v6) as [_ Hr']. destruct (rep_in _ _ _ _ Hr' Hin). congruence.
      - by apply (Hnn v6) in Hin. }
    destruct Hids as [-> | ->]; rewrite <- ?Permutation_middle; repeat (apply NoDup_cons; split); set_solver.
  - intros n. rewrite ids_plug, elem_of_app. intros [Hn|Hn].
    + left. apply Hks, elem_of_app. by left.
    + assert (n = new \/ n = branch \/ n ∈ ids s) as [->|[->|Hn']] by (destruct Hids as [E|E]; rewrite E in Hn; set_solver);
        [by right..|]. left. apply Hks, elem_of_app. by right.
  - intros n Hn. destruct (Hfam (negb v6)) as [_ Hr']. destruct (rep_in _ _ _ _ Hr' Hn) as [e He].
    assert (n <> new) by by apply (Hnn _ _ Hn). rewrite Hfr1; [by apply Hh1|].
    intros [->|[->|Hin]%elem_of_cons]%elem_of_cons; [congruence|done|].
    assert (n ∈ ids (tr v6)) as Hn' by (apply Hks; set_solver).
    apply NoDup_app in Hnd as (_ & Hd & _). destruct v6; cbn in *; [by apply (Hd n)|by apply (Hd n)].
  - rewrite Hfr3. by destruct v6.
  - rewrite Hfr2. eapply entriesRep_perm; [|apply (entriesRep_add _ (owned (tr v6) ++ owned (tr (negb v6))) new p)].
    + rewrite owned_plug, owned_insertAt, Etr, owned_plug. solve_Permutation.
    + intros q. rewrite elem_of_app. intros [H%owned_ids|H%owned_ids]; by apply Hnn in H.
    + intros q. destruct (Hent q) as [H1 H2]. split; [done|]. intros n. rewrite H2, !elem_of_app.
      destruct v6; cbn; tauto.
  - split; [by destruct v6|]. exists new, branch. by destruct v6.
Qed.

(** A node of a trie gets another peer, or none. *)
Lemma tableRep_setPeer t t' tr v6 k n p0 b c l r p (Q : Prop) :
  tableRep t tr -> tr v6 = plug k (N n p0 b c l r) ->
  heap t' = <[n := nodeEntry p (rootOf l) (rootOf r) (slotOf v6 k) c b]> (heap t) ->
  rootPtr t' true = rootPtr t true -> rootPtr t' false = rootPtr t false ->
  (entriesRep (delEntry p0 n (trieEntries t)) (ownedctx k ++ owned l ++ owned r ++ owned (tr (negb v6))) ->
   (forall q, (n, q) ∉ ownedctx k ++ owned l ++ owned r ++ owned (tr (negb v6))) ->
   entriesRep (trieEntries t') ((match p with Some p => [(n, p)] | None => [] end) ++
     ownedctx k ++ owned l ++ owned r ++ owned (tr (negb v6)))) ->
  tableRep t' (fun b' => if eqb b' v6 then plug k (N n p b c l r) else tr b').
Proof.
  intros Htr Etr Hheap Hr1 Hr0 Hent'. assert (Htr' := Htr). destruct Htr' as [Hfam Hokt Hnd Hent].
  assert (forall m, (m ∈ ids (tr v6) <-> m ∈ idsctx k ++ n :: ids l ++ ids r)) as Hks
    by (intros m; by rewrite Etr, ids_plug).
  assert (NoDup (ids (tr v6) ++ ids (tr (negb v6)))) as Hnd2.
  { destruct v6; [|done]. by rewrite Permutation_app_comm. }
  assert (Hnd3 := Hnd2). apply NoDup_app in Hnd3 as (Hndv & Hdis & _).
  rewrite Etr, ids_plug in Hndv. cbn [ids] in Hndv.
  assert (n ∉ idsctx k ++ ids l ++ ids r) as Hn.
  { rewrite <- Permutation_middle in Hndv. by apply NoDup_cons in Hndv as [? _]. }
  destruct (Hfam v6) as [Hr Hrep]. rewrite Etr in Hr, Hrep.
  destruct (proj1 (fam_plug t v6 k _) (conj Hr Hrep)) as [Hh (_ & Hl & Hrr)].
  assert (forall m, m <> n -> heap t' !! m = heap t !! m) as Hh'
    by (intros m Hm; by rewrite Hheap, lookup_insert_ne).
  assert (forall q, (n, q) ∉ ownedctx k ++ owned l ++ owned r ++ owned (tr (negb v6))) as Hno.
  { intros q. rewrite !elem_of_app. intros [H|[H|[H|H]]].
    - assert ((n, q) ∈ owned (plug k E)) as H' by (rewrite owned_plug, elem_of_app; by left).
      apply owned_ids in H'. rewrite ids_plug, elem_of_app in H'. cbn in H'. set_solver.
    - apply owned_ids in H. set_solver.
    - apply owned_ids in H. set_solver.
    - apply owned_ids in H. apply (Hdis n); [|done]. apply Hks. set_solver. }
  eapply (tableRep_update t); [done| | | | | | |].
  - apply fam_plug. split.
    + eapply hole_frame; [| |exact Hh]; [|by destruct v6]. intros m Hm. apply Hh'. set_solver.
    + cbn [rep]. split_and!; [by rewrite Hheap, lookup_insert_eq| |];
        (eapply rep_frame; [|eassumption]); intros m Hm; apply Hh'; set_solver.
  - specialize (Hokt v6). rewrite Etr in Hokt. apply plug_ok in Hokt as [Hk Hs]. by apply ok_plug.
  - rewrite ids_plug. done.
  - intros m Hm. left. rewrite ids_plug in Hm. by apply Hks.
  - intros m Hm. apply Hh'. intros ->. apply (Hdis n); [|done]. apply Hks. set_solver.
  - by destruct v6.
  - eapply entriesRep_perm; [|apply Hent'; [|done]].
    + rewrite owned_plug. cbn [owned]. solve_Permutation.
    + apply entriesRep_del; [done|]. eapply entriesRep_perm; [|exact Hent].
      trans (owned (tr v6) ++ owned (tr (negb v6))); [destruct v6; cbn; solve_Permutation|].
      rewrite Etr, owned_plug. cbn [owned]. solve_Permutation.
Qed.

(** What [insert] promises of the tries. *)
Definition inserted (t : AllowedIPs) (tr : bool -> tree) (v6 : bool) (ip : bytes) (c : nat)
    (p : trie_peer) (t' : AllowedIPs) : Prop :=
  exists tr', tableRep t' tr' /\ tr' (negb v6) = tr (negb v6) /\
    forall q, tfind (tr' v6) q = if decide (q = prefixOf ip c) then Some p else tfind (tr v6) q.

Lemma prefixOf_masked ip c : all_bytes ip -> (c <= 8 * length ip)%nat ->
  prefixOf (masked ip (Z.of_nat c)) c = prefixOf ip c.
Proof. intros. by apply take_masked. Qed.

Lemma insert_empty t tr v6 ip c p :
  tableRep t tr -> tr v6 = E -> address ip -> length ip = lenOf v6 -> (c <= 8 * lenOf v6)%nat ->
  runs (let* n := newNode (blankNode (masked ip (Z.of_nat c)) (Z.of_nat c) (Some p)
                             (mkParent (Some (RootSlot v6)) 2)) in
        addToPeerEntries n;;; writeSlot (RootSlot v6) (Some n)) t
    (fun _ => inserted t tr v6 ip c p).
Proof.
  intros Htr Etr Hip HL Hc. assert (Htr' := Htr). destruct Htr' as [Hfam Hokt Hnd Hent].
  destruct (Hfam v6) as [Hr Hrep]. rewrite Etr in Hr.
  wstep. apply runs_newNode. intros new Hnew. wstep. eapply addTo_runs; [cbn; apply lookup_insert_eq|done|].
  cbv beta. apply (hole_write _ v6 [] None); [split; [by destruct v6|done]|apply NoDup_nil_2|].
  intros t' [Hr' _] (H1 & H2 & H3). cbn [slotOf rootVia] in *.
  eexists. split; [eapply (tableRep_update t t' tr v6 (N new (Some p) (masked ip (Z.of_nat c)) c E E)); [done|..]|].
  - split; [exact Hr'|]. cbn [rep]. split_and!; [|done..]. rewrite H1 by apply not_elem_of_nil.
    cbn [heap set_field]. by rewrite lookup_insert_eq.
  - cbn [ok]. split_and!; [by apply masked_address|by rewrite length_masked|done|apply prefix_nil|done|done].
  - cbn. apply NoDup_singleton.
  - cbn. intros n ->%list_elem_of_singleton. by right.
  - intros n Hn. rewrite H1 by apply not_elem_of_nil. cbn. rewrite !lookup_insert_ne; [done|..];
      intros ->; destruct (Hfam (negb v6)) as [_ Hr0]; destruct (rep_in _ _ _ _ Hr0 Hn); congruence.
  - rewrite H3. by destruct v6.
  - rewrite H2. apply entriesRep_add.
    + intros q H%owned_ids. destruct (Hfam (negb v6)) as [_ Hr0]. destruct (rep_in _ _ _ _ Hr0 H). congruence.
    + intros q. destruct (Hent q) as [E1 E2]. split; [done|]. intros n. rewrite E2.
      destruct v6; cbn in *; rewrite Etr, ?app_nil_r; done.
  - split; [by destruct v6|]. intros q. replace (eqb v6 v6) with true by by destruct v6. rewrite Etr.
    cbn [tfind]. rewrite prefixOf_masked by (apply Hip || lia).
    destruct (decide (q = prefixOf ip c)); [done|]. by repeat destruct (decide _).
Qed.

Lemma insert_existing t tr v6 k n p1 b l r ip c p :
  tableRep t tr -> tr v6 = plug k (N n p1 b c l r) -> okctx (lenOf v6) k ->
  ok (lenOf v6) (pfxOf k) (N n p1 b c l r) -> pfxOf k `prefix_of` prefixOf ip c ->
  prefixOf b c = prefixOf ip c -> address ip -> length ip = lenOf v6 -> (c <= 8 * lenOf v6)%nat ->
  runs (removeFromPeerEntries n;;; modNode n (fun e => e <| te_peer := Some p |>);;; addToPeerEntries n) t
    (fun _ => inserted t tr v6 ip c p).
Proof.
  intros Htr Etr Hctx Hoks Hpfx Epre Hip HL Hc. destruct (tr_fam _ _ Htr v6) as [Hr Hrep].
  rewrite Etr in Hr, Hrep. destruct (proj1 (fam_plug t v6 k _) (conj Hr Hrep)) as [Hh (Hn & _)].
  wstep. eapply removeFrom_runs; [exact Hn|]. wstep.
  eapply runs_modNode; [cbn; apply lookup_insert_eq|]. cbv beta.
  eapply addTo_runs; [cbn; apply lookup_insert_eq|done|].
  eexists. split; [eapply (tableRep_setPeer t _ tr v6 k n p1 b c l r (Some p) True); [done|done| |done|done|]|].
  - cbn. by rewrite !insert_insert_eq.
  - intros He Hno. cbn. by apply entriesRep_add.
  - split; [by destruct v6|]. intros q. replace (eqb v6 v6) with true by by destruct v6.
    destruct (insertAt_spec (lenOf v6) (pfxOf k) (N n p1 b c l r) ip c n n p true Hip HL Hc Hoks Hpfx) as [_ Hf];
      [by do 5 eexists|]. cbn [insertAt] in Hf. rewrite Etr. specialize (Hf q).
    destruct (decide (q = prefixOf ip c)) as [->|]; [by rewrite (tfind_plug (lenOf v6))|].
    by apply (tfind_replace (lenOf v6)).
Qed.

Lemma insert_runs t tr v6 ip c p :
  tableRep t tr -> address ip -> length ip = lenOf v6 -> (c <= 8 * lenOf v6)%nat ->
  runs (insert v6 ip (Z.of_nat c) p) t (fun _ => inserted t tr v6 ip c p).
Proof.
  intros Htr Hip HL Hc. destruct (tr_fam _ _ Htr v6) as [Hr Hrep]. pose proof (tr_ok _ _ Htr v6) as Hok.
  unfold insert. wstep. apply runs_readSlot. rewrite Hr.
  destruct (tr v6) as [|n0 p0 b0 c0 l0 r0] eqn:Etr; cbn [rootOf]; [by apply insert_empty|].
  rewrite <- Etr in *. destruct (descend [] (tr v6) ip c) as [[k s] ex] eqn:Ed.
  destruct (descend_spec (lenOf v6) [] (tr v6) ip c k s ex Ed HL Hc I Hok (prefix_nil _))
    as (Ep & Hctx & Hoks & Hpfx & Hex). cbn [plug] in Ep. symmetry in Ep.
  wstep. replace (Some n0) with (rootOf (tr v6)) by by rewrite Etr.
  eapply (nodePlacement_runs (lenOf v6) (tr v6) [] t); try done.
  { unfold depth, lenOf, IPv6len, IPv4len. destruct v6; cbn; lia. }
  rewrite Ed. destruct ex.
  - destruct Hex as (n & p1 & b & l & r & -> & Epre). wstep. eapply runs_orPanic; [done|].
    by eapply insert_existing.
  - assert (prefixOf (masked ip (Z.of_nat c)) c = prefixOf ip c) as Em
      by (apply prefixOf_masked; [apply Hip|lia]).
    assert (address (masked ip (Z.of_nat c))) by by apply masked_address.
    assert (length (masked ip (Z.of_nat c)) = lenOf v6) by by rewrite length_masked.
    eapply runs_mono; [apply (insert_new t tr v6 k s n0 p (masked ip (Z.of_nat c)) c); try done; try (by rewrite Em)|].
    + by rewrite <- rootOf_plug, <- Ep, Etr.
    + intros [] t' (tr' & Htr' & Eo & new & branch & E'). exists tr'. split_and!; [done|done|].
      destruct (insertAt_spec (lenOf v6) (pfxOf k) s (masked ip (Z.of_nat c)) c new branch p false) as [_ Hf];
        try done; try (by rewrite Em).
      rewrite Em in Hf. intros q. rewrite E', Ep. specialize (Hf q).
      destruct (decide (q = prefixOf ip c)) as [->|]; [by rewrite (tfind_plug (lenOf v6))|].
      by apply (tfind_replace (lenOf v6)).
Qed.

(** ** Lemmas: lookup *)

Lemma lookup_runs L s t sl pfx ip found fuel (Q : option trie_peer -> AllowedIPs -> Prop) :
  rep (heap t) sl s -> ok L pfx s -> address ip -> length ip = L ->
  (8 * L + 2 - length pfx <= fuel)%nat -> (length pfx <= 8 * L + 1)%nat ->
  Q (look s ip found) t -> runs (lookup fuel (rootOf s) ip found) t Q.
Proof.
  intros Hrep Hok Hip HL. revert sl pfx found fuel Hrep Hok.
  induction s as [|n p b c l IHl r IHr]; intros sl pfx found fuel Hrep Hok Hf Hp HQ.
  { destruct fuel as [|fuel]; [lia|exact HQ]. }
  destruct Hok as (Hb & Hbl & Hc & Hpre & Hl & Hr). destruct Hrep as (Hn & Hrl & Hrr).
  pose proof (length_prefixOf L b c Hbl Hc) as Hlen. pose proof (prefix_length _ _ Hpre) as Hpl.
  destruct fuel as [|fuel]; [lia|]. cbn [lookup rootOf]. wstep. eapply runs_getNode; [exact Hn|].
  cbn [cidr bits nodeEntry te_peer bitAtByte].
  destruct (commonBits_spec b ip Hb Hip ltac:(lia)) as [_ Hcb]. specialize (Hcb c ltac:(lia)).
  cbn [look] in HQ. destruct (decide (take c (bitsOf ip) = prefixOf b c)) as [E|E].
  - rewrite (proj2 (Z.leb_le _ _)) by (apply Hcb; by rewrite E). cbv zeta.
    assert (u8 (zlen ip) = zlen ip) as -> by (apply u8_small; destruct Hip as [[-> | ->] _]; unfold IPv4len, IPv6len; lia).
    destruct (Z.eqb_spec (Z.of_nat c / 8) (zlen ip)) as [Hfull|Hfull].
    + wstep. rewrite lookup_ge_None_2 in HQ; [exact HQ|]. rewrite length_bitsOf.
      pose proof (Z.div_mod (Z.of_nat c) 8 ltac:(lia)). pose proof (Z.mod_pos_bound (Z.of_nat c) 8 ltac:(lia)). lia.
    + assert (c < 8 * L)%nat as Hlt.
      { destruct (decide (c = 8 * L)%nat) as [->|]; [|lia]. destruct Hfull.
        rewrite HL, Nat2Z.inj_mul, Z.mul_comm, Z.div_mul by lia. done. }
      destruct (lookup_lt_is_Some_2 (bitsOf ip) c) as [x Hx]; [rewrite length_bitsOf; lia|].
      rewrite Hx in HQ. wstep.
      eapply runs_orPanic; [rewrite (choose_spec _ _ c); [exact Hx|done|done|apply Hip|lia]|].
      destruct x; cbn [childOf child0 child1]; [eapply IHr|eapply IHl]; try eassumption;
        rewrite length_app, Hlen; cbn; lia.
  - destruct (Z.leb_spec (Z.of_nat c) (commonBits b ip)) as [Hle|Hgt]; [|exact HQ].
    destruct E. symmetry. by apply Hcb.
Qed.

(** ** Lemmas: removal *)

Lemma fam_frame t t' v6 tr : (forall n, n ∈ ids tr -> heap t' !! n = heap t !! n) ->
  rootPtr t' v6 = rootPtr t v6 -> fam t v6 tr -> fam t' v6 tr.
Proof. intros Hh Hr [H1 H2]. split; [by rewrite Hr|]. by eapply rep_frame. Qed.

(** Hanging a subtree in the hole of a context. *)
Lemma promote_runs t v6 k sub s sl (rest : T unit) Q :
  hole t v6 k sub -> rep (heap t) sl s -> NoDup (idsctx k ++ ids s) ->
  (forall t', fam t' v6 (plug k s) -> frames v6 (idsctx k ++ ids s) t t' -> runs rest t' Q) ->
  let par := mkParent (Some (slotOf v6 k)) (typeOf (slotOf v6 k)) in
  runs (setParentOf (rootOf s) par;;;
        let* sl := orPanic (parentBit par) in writeSlot sl (rootOf s);;; rest) t Q.
Proof.
  intros Hh Hrep Hnd HQ par. apply NoDup_app in Hnd as (Hndk & Hdis & Hnds).
  assert (runs (setParentOf (rootOf s) par) t (fun _ t1 => hole t1 v6 k sub /\
    rep (heap t1) (slotOf v6 k) s /\ frames v6 (idsctx k ++ ids s) t t1)) as H1.
  { destruct s as [|n p b c l r]; cbn [rootOf setParentOf]; [by wstep|].
    assert (Hrep' := Hrep). destruct Hrep' as (Hn & _). eapply runs_modNode; [exact Hn|]. split_and!.
    - eapply hole_frame; [| |exact Hh]; [|by destruct v6]. intros m Hm. cbn.
      rewrite lookup_insert_ne; [done|]. intros ->. by apply (Hdis _ Hm); left.
    - eapply rep_reparent; [exact Hrep|exact Hnds|cbn; by rewrite lookup_insert_eq|].
      intros m Hm. cbn. rewrite lookup_insert_ne; [done|]. intros ->. cbn in Hnds. by apply NoDup_cons in Hnds as [? _].
    - unfold frames. split_and!; [|done|by destruct v6]. intros m Hm. cbn.
      rewrite lookup_insert_ne; [done|]. intros ->. apply Hm, elem_of_app. right. by left. }
  wstep. eapply runs_mono; [exact H1|]. intros [] t1 (Hh1 & Hrep1 & Hfr1). wstep.
  eapply runs_orPanic; [done|]. wstep. eapply hole_write; [exact Hh1|done|]. intros t' Hh' (H2 & H3 & H4).
  apply HQ.
  - apply fam_plug. split; [done|]. eapply rep_frame; [|exact Hrep1]. intros m Hm. apply H2.
    intros Hk. by apply (Hdis m).
  - eapply frames_trans; [exact Hfr1|]. unfold frames. split_and!; [|done|done].
    intros m Hm. apply H2. intros Hk. apply Hm, elem_of_app. by left.
Qed.

Lemma zeroize_runs t n Q : is_Some (heap t !! n) ->
  (forall t', (forall m, m <> n -> heap t' !! m = heap t !! m) -> trieEntries t' = trieEntries t ->
    (forall v6, rootPtr t' v6 = rootPtr t v6) -> is_Some (heap t' !! n) -> Q tt t') ->
  runs (zeroizePointers n) t Q.
Proof.
  intros [e E] HQ. unfold zeroizePointers. eapply runs_modNode; [exact E|]. apply HQ.
  - intros m Hm. cbn. by rewrite lookup_insert_ne.
  - done.
  - by intros [].
  - cbn. rewrite lookup_insert_eq. by eexists.
Qed.

(** The end of [remove]: the trie has changed, the dropped nodes are wiped. *)
Lemma wiped t t' tr v6 k n b c l r k' s' :
  tableRep t tr -> tr v6 = plug k (N n None b c l r) ->
  fam t' v6 (plug k' s') -> ok (lenOf v6) [] (plug k' s') ->
  frames v6 (ids (tr v6)) t t' -> NoDup (ids (plug k' s')) ->
  (forall m, m ∈ ids (plug k' s') -> m ∈ ids (tr v6)) ->
  owned (plug k' s') ≡ₚ owned (tr v6) ->
  tableRep t' (fun b => if eqb b v6 then plug k' s' else tr b).
Proof.
  intros Htr Etr Hfam Hok (H1 & H2 & H3) Hnd Hids Hown. eapply (tableRep_update t); try done.
  - intros m Hm. left. auto.
  - intros m Hm. apply H1. intros Hm'. pose proof (tr_nodup _ _ Htr) as Hn.
    apply NoDup_app in Hn as (_ & Hd & _). destruct v6; cbn in *; by apply (Hd m).
  - rewrite H2. apply (entriesRep_perm _ (owned (tr false) ++ owned (tr true))); [|exact (tr_entries _ _ Htr)].
    rewrite Hown. destruct v6; cbn; [apply Permutation_app_comm|done].
Qed.

(** What [remove] promises once the node has no peer. *)
Definition removed (t : AllowedIPs) (tr : bool -> tree) (v6 : bool) (k : list frame) (s : tree)
    (t' : AllowedIPs) : Prop :=
  exists tr', tableRep t' tr' /\ tr' (negb v6) = tr (negb v6) /\
    tr' v6 = removeIn k s /\ trieEntries t' = trieEntries t.

Section Removal.
Context (t : AllowedIPs) (tr : bool -> tree) (v6 : bool) (k : list frame) (n : node_id)
  (b : bytes) (c : nat) (l r : tree).
Context (Htr : tableRep t tr) (Etr : tr v6 = plug k (N n None b c l r)).

Lemma removal_nodup : NoDup (n :: idsctx k ++ ids l ++ ids r).
Proof.
  pose proof (tr_nodup _ _ Htr) as H. apply NoDup_app in H as (H0 & _ & H1).
  assert (NoDup (ids (tr v6))) as H by by destruct v6.
  rewrite Etr, ids_plug in H. cbn [ids] in H. by rewrite <- Permutation_middle in H.
Qed.

Lemma removal_close t' k' s' rest :
  removeIn k (N n None b c l r) = plug k' s' -> fam t' v6 (plug k' s') ->
  frames v6 (n :: idsctx k ++ ids l ++ ids r) t t' ->
  (idsctx k' ++ ids s') ++ rest ≡ₚ n :: idsctx k ++ ids l ++ ids r ->
  ownedctx k' ++ owned s' ≡ₚ ownedctx k ++ owned l ++ owned r ->
  removed t tr v6 k (N n None b c l r) t'.
Proof.
  intros E Hfam (H1 & H2 & H3) Hids Hown.
  assert (ids (tr v6) ≡ₚ n :: idsctx k ++ ids l ++ ids r) as Hperm
    by (rewrite Etr, ids_plug; cbn [ids]; by rewrite <- Permutation_middle).
  pose proof (tr_ok _ _ Htr v6) as Hok. rewrite Etr in Hok.
  destruct (removeIn_spec _ _ _ _ _ _ _ _ Hok) as [Hok' _]. rewrite E in Hok'.
  eexists. split; [eapply (wiped t t' tr v6 k n b c l r k' s'); try done|].
  - split_and!; [|done|done]. intros m Hm. apply H1. by rewrite <- Hperm.
  - pose proof removal_nodup as H. rewrite <- Hids in H. rewrite ids_plug. by apply NoDup_app in H as [? _].
  - intros m Hm. rewrite Hperm, <- Hids, elem_of_app. left. by rewrite <- ids_plug.
  - by rewrite Etr, !owned_plug.
  - split_and!; [by destruct v6|by destruct v6|done].
Qed.

Lemma removal_parts : hole t v6 k (Some n) /\
  heap t !! n = Some (nodeEntry None (rootOf l) (rootOf r) (slotOf v6 k) c b) /\
  rep (heap t) (ChildSlot n false) l /\ rep (heap t) (ChildSlot n true) r.
Proof.
  pose proof (tr_fam _ _ Htr v6) as H. rewrite Etr in H. apply fam_plug in H as [Hh (?&?&?)]. done.
Qed.

(** Wiping the node once the hole holds what replaces it. *)
Lemma wipe_one t1 s :
  removeIn k (N n None b c l r) = plug k s -> fam t1 v6 (plug k s) ->
  frames v6 (idsctx k ++ ids s) t t1 -> ids s ≡ₚ ids l ++ ids r -> owned s ≡ₚ owned l ++ owned r ->
  runs (zeroizePointers n) t1 (fun _ => removed t tr v6 k (N n None b c l r)).
Proof.
  intros E Hfam (H1 & H2 & H3) Hids Hown. destruct removal_parts as (_ & Hn & _).
  pose proof removal_nodup as Hnd. apply NoDup_cons in Hnd as [Hni Hnd].
  assert (n ∉ idsctx k ++ ids s) as Hni' by by rewrite Hids.
  eapply zeroize_runs; [rewrite H1 by done; rewrite Hn; by eexists|].
  intros t' H1' H2' H3' _. eapply (removal_close t' k s [n]); [done| | | |by rewrite Hown].
  - eapply fam_frame; [|apply H3'|exact Hfam]. intros m Hm. apply H1'. intros ->. by rewrite ids_plug in Hm.
  - split_and!; [|congruence|by rewrite H3'].
    intros m Hm. apply not_elem_of_cons in Hm as [Hm1 Hm2]. rewrite H1', H1; [done|by rewrite Hids|done].
  - by rewrite Hids, Permutation_app_comm.
Qed.

(** Replacing the node by its only child, or by nothing. *)
Lemma unlink_one s sl :
  removeIn k (N n None b c l r) = plug k s -> rep (heap t) sl s ->
  ids s ≡ₚ ids l ++ ids r -> owned s ≡ₚ owned l ++ owned r ->
  runs (setParentOf (rootOf s) (mkParent (Some (slotOf v6 k)) (typeOf (slotOf v6 k)));;;
        let* sl := orPanic (Some (slotOf v6 k)) in writeSlot sl (rootOf s);;; zeroizePointers n) t
    (fun _ => removed t tr v6 k (N n None b c l r)).
Proof.
  intros E Hrep Hids Hown. destruct removal_parts as (Hh & _).
  pose proof removal_nodup as Hnd. apply NoDup_cons in Hnd as [Hni Hnd].
  eapply (promote_runs t v6 k _ s sl); [exact Hh|done|by rewrite Hids|].
  intros t1 Hfam Hfr. by apply (wipe_one t1 s).
Qed.

End Removal.

(** A leaf below a node with a peer: only the leaf goes. *)
Lemma unlink_leaf t tr v6 f k n b c (other : trieEntry -> T unit) :
  tableRep t tr -> tr v6 = plug (f :: k) (N n None b c E E) -> isSome (f_peer f) = true ->
  let par := mkParent (Some (slotOf v6 (f :: k))) (typeOf (slotOf v6 (f :: k))) in
  runs (setParentOf None par;;; let* sl := orPanic (parentBit par) in writeSlot sl None;;;
        let* qe := getNode (f_id f) in
        if isSome (te_peer qe) then zeroizePointers n else other qe) t
    (fun _ => removed t tr v6 (f :: k) (N n None b c E E)).
Proof.
  intros Htr Etr Hp par. destruct (removal_parts _ _ _ _ _ _ _ _ _ Htr Etr) as (Hh & _).
  pose proof (removal_nodup _ _ _ _ _ _ _ _ _ Htr Etr) as Hnd. apply NoDup_cons in Hnd as [Hni Hnd].
  eapply (promote_runs t v6 (f :: k) _ E (RootSlot v6)); [exact Hh|done|done|].
  intros t1 Hfam Hfr. assert (Hfam' := Hfam). apply fam_plug in Hfam' as [[_ (Hf & _)] _].
  wstep. eapply runs_getNode; [exact Hf|].
  replace (te_peer (frameEntry f (slotOf v6 k) (rootOf E))) with (f_peer f)
    by (unfold frameEntry; by destruct (f_dir f)).
  rewrite Hp. eapply (wipe_one t tr v6 (f :: k) n b c E E Htr Etr t1 E); try done.
  cbn [removeIn]. by destruct (f_peer f).
Qed.

(** A leaf below a node without a peer: the node goes too. *)
Lemma unlink_parent t tr v6 f k n b c :
  tableRep t tr -> tr v6 = plug (f :: k) (N n None b c E E) -> f_peer f = None ->
  let par := mkParent (Some (slotOf v6 (f :: k))) (typeOf (slotOf v6 (f :: k))) in
  runs (setParentOf None par;;; let* sl := orPanic (parentBit par) in writeSlot sl None;;;
        let* qe := getNode (f_id f) in
        if isSome (te_peer qe) then zeroizePointers n
        else
          let child := childOf qe (Z.lxor (parentBitType par) 1 =? 1) in
          setParentOf child (parent qe);;;
          let* qs := orPanic (parentBit (parent qe)) in
          writeSlot qs child;;;
          zeroizePointers n;;;
          zeroizePointers (f_id f)) t
    (fun _ => removed t tr v6 (f :: k) (N n None b c E E)).
Proof.
  intros Htr Etr Hp par. destruct (removal_parts _ _ _ _ _ _ _ _ _ Htr Etr) as (Hh & Hn & _).
  pose proof (removal_nodup _ _ _ _ _ _ _ _ _ Htr Etr) as Hnd. cbn [ids app] in Hnd. rewrite app_nil_r in Hnd.
  apply NoDup_cons in Hnd as [Hni Hnd].
  eapply (promote_runs t v6 (f :: k) _ E (RootSlot v6)); [exact Hh|done|cbn [ids]; by rewrite app_nil_r|].
  intros t1 Hfam (H1 & H2 & H3). cbn [ids] in H1. rewrite app_nil_r in H1.
  apply fam_plug in Hfam as [[Hroot (Hf & Hsib & Hctx)] _]. cbn [idsctx] in Hni, Hnd.
  apply NoDup_cons in Hnd as [Hfi Hnd].
  wstep. eapply runs_getNode; [exact Hf|].
  replace (te_peer (frameEntry f (slotOf v6 k) (rootOf E))) with (f_peer f)
    by (unfold frameEntry; by destruct (f_dir f)). rewrite Hp. cbn [isSome]. cbv zeta.
  replace (childOf (frameEntry f (slotOf v6 k) (rootOf E)) (Z.lxor (parentBitType par) 1 =? 1))
    with (rootOf (f_sib f)) by (unfold par, frameEntry; cbn; by destruct (f_dir f)).
  replace (parent (frameEntry f (slotOf v6 k) (rootOf E)))
    with (mkParent (Some (slotOf v6 k)) (typeOf (slotOf v6 k))) by (unfold frameEntry; by destruct (f_dir f)).
  eapply (promote_runs t1 v6 k (Some (f_id f)) (f_sib f)); [by split|exact Hsib| |].
  { by rewrite Permutation_app_comm. }
  intros t2 Hfam2 (H1b & H2b & H3b).
  assert (forall m, m ∉ idsctx k ++ ids (f_sib f) <-> m ∉ ids (f_sib f) ++ idsctx k) as Hsw
    by (intros m; by rewrite Permutation_app_comm).
  assert (n <> f_id f) as Hnf by (intros ->; apply Hni; by left).
  assert (n ∉ ids (f_sib f) ++ idsctx k) as Hni2 by (intros Hin; apply Hni; by right).
  wstep. eapply zeroize_runs.
  { rewrite H1b by by apply Hsw. rewrite H1 by done. rewrite Hn. by eexists. }
  intros t3 Ha3 Hb3 Hc3 _. eapply zeroize_runs.
  { rewrite Ha3 by done. rewrite H1b by by apply Hsw. rewrite Hf. by eexists. }
  intros t4 Ha4 Hb4 Hc4 _.
  eapply (removal_close t tr v6 (f :: k) n b c E E Htr Etr t4 k (f_sib f) [n; f_id f]).
  - cbn [removeIn]. by rewrite Hp.
  - eapply fam_frame; [| |exact Hfam2]; [|by rewrite Hc4, Hc3].
    intros m Hm. rewrite ids_plug in Hm. rewrite Ha4, Ha3; [done| |].
    + intros ->. by apply Hsw in Hni2.
    + intros ->. by apply Hsw in Hfi.
  - cbn [ids app idsctx]. rewrite app_nil_r. split_and!; [|congruence|by rewrite Hc4, Hc3, H3b, H3].
    intros m Hm. apply not_elem_of_cons in Hm as [Hm1 Hm]. assert (Hm' := Hm).
    apply not_elem_of_cons in Hm' as [Hm2 Hm3]. rewrite Ha4, Ha3, H1b, H1; try done. by apply Hsw.
  - cbn [ids app idsctx]. rewrite app_nil_r. solve_Permutation.
  - cbn [owned app ownedctx]. rewrite app_nil_r, Hp. cbn. by rewrite Permutation_app_comm.
Qed.

Lemma removeIn_peer k n p p' b c l r : removeIn k (N n p b c l r) = removeIn k (N n p' b c l r).
Proof. destruct l, r; try done; by destruct k. Qed.

Lemma remove_runs t tr v6 k n p b c l r :
  tableRep t tr -> tr v6 = plug k (N n p b c l r) ->
  runs (remove n) t (fun _ t' => exists tr', tableRep t' tr' /\ tr' (negb v6) = tr (negb v6) /\
    tr' v6 = removeIn k (N n p b c l r) /\ trieEntries t' = delEntry p n (trieEntries t)).
Proof.
  intros Htr Etr. destruct (tr_fam _ _ Htr v6) as [Hr Hrep]. rewrite Etr in Hr, Hrep.
  destruct (proj1 (fam_plug t v6 k _) (conj Hr Hrep)) as [_ (Hn & _)].
  unfold remove. wstep. eapply removeFrom_runs; [exact Hn|]. wstep.
  eapply runs_modNode; [cbn; apply lookup_insert_eq|]. cbv beta. set (t1 := _ <| heap ::= _ |>).
  assert (tableRep t1 (fun b' => if eqb b' v6 then plug k (N n None b c l r) else tr b')) as Htr1.
  { eapply (tableRep_setPeer t t1 tr v6 k n p b c l r None True); [done|done| |done|done|].
    - cbn. by rewrite !insert_insert_eq.
    - intros He Hno. exact He. }
  set (tr1 := fun b' => if eqb b' v6 then plug k (N n None b c l r) else tr b') in *.
  assert (tr1 v6 = plug k (N n None b c l r)) as Etr1 by (unfold tr1; by destruct v6).
  assert (tr1 (negb v6) = tr (negb v6)) as Eo by (unfold tr1; by destruct v6).
  assert (trieEntries t1 = delEntry p n (trieEntries t)) as Ee by done.
  rewrite <- Eo, <- Ee, (removeIn_peer k n p None). clearbody t1 tr1. clear Hn Hr Hrep Htr Etr Eo Ee t tr p.
  destruct (removal_parts _ _ _ _ _ _ _ _ _ Htr1 Etr1) as (Hh & Hn & Hl & Hrr).
  wstep. eapply runs_getNode; [exact Hn|]. cbn [child0 child1 nodeEntry parent childOf parentBit parentBitType].
  destruct l as [|nl pl bl cl ll lr]; [destruct r as [|nr pr br cr rl rr]|destruct r as [|nr pr br cr rl rr]];
    cbn [rootOf isSome andb orb negb]; cbv zeta iota.
  - destruct k as [|f k]; cbn [slotOf typeOf].
    + replace (1 <? 2) with true by done. change (RootSlot v6) with (slotOf v6 []).
      apply (unlink_one t1 tr1 v6 [] n b c E E Htr1 Etr1 E (RootSlot v6)); done.
    + assert (1 <? bitZ (f_dir f) = false) as -> by by destruct (f_dir f).
      assert (nodeOfSlot (mkParent (Some (ChildSlot (f_id f) (f_dir f))) (bitZ (f_dir f))) = Some (f_id f)) as ->
        by (unfold nodeOfSlot; cbn; by rewrite Z.eqb_refl).
      destruct (f_peer f) as [q|] eqn:Ep.
      * exact (unlink_leaf t1 tr1 v6 f k n b c _ Htr1 Etr1 ltac:(by rewrite Ep)).
      * exact (unlink_parent t1 tr1 v6 f k n b c Htr1 Etr1 Ep).
  - apply (unlink_one t1 tr1 v6 k n b c E _ Htr1 Etr1 (N nr pr br cr rl rr) (ChildSlot n true)); done.
  - apply (unlink_one t1 tr1 v6 k n b c _ E Htr1 Etr1 (N nl pl bl cl ll lr) (ChildSlot n false)); try done;
      by rewrite app_nil_r.
  - by exists tr1.
Qed.
