(* ===== verification/RoutingSpec.v ===== *)
(** The routing table implements longest-prefix match over a map of prefixes:
    the contract of [device/allowedips.go] and the refinement theorem. *)
From S2P Require Import Prelude AllowedIPs TrieBits Trie Routing.

(** ** Abstract specification *)

(** Prefixes of a family (IPv6 or not) to peers. *)
Abbreviation routes := (gmap (bool * list bool) trie_peer).

Definition isV6 (ip : bytes) : bool := Nat.eqb (length ip) IPv6len.
Definition keyOf (ip : bytes) (c : nat) : bool * list bool := (isV6 ip, prefixOf ip c).

Inductive routeOp :=
  | OpInsert (ip : bytes) (c : nat) (p : trie_peer)
  | OpRemove (ip : bytes) (c : nat) (p : trie_peer)
  | OpRemoveByPeer (p : trie_peer)
  | OpLookup (ip : bytes).

Definition validOp (o : routeOp) : Prop :=
  match o with
  | OpInsert ip c _ | OpRemove ip c _ => address ip /\ (c <= 8 * length ip)%nat
  | OpRemoveByPeer _ => True
  | OpLookup ip => address ip
  end.

Definition specLookup (m : routes) (ip : bytes) : option trie_peer :=
  lpm (fun q => m !! (isV6 ip, q)) (bitsOf ip) (8 * length ip).

Definition specRemoveByPeer (p : trie_peer) (m : routes) : routes := filter (fun kv => kv.2 <> p) m.

(** The state after an operation, and the answer of a lookup. *)
Definition specStep (o : routeOp) (m : routes) : routes * option trie_peer :=
  match o with
  | OpInsert ip c p => (<[keyOf ip c := p]> m, None)
  | OpRemove ip c p => (if decide (m !! keyOf ip c = Some p) then delete (keyOf ip c) m else m, None)
  | OpRemoveByPeer p => (specRemoveByPeer p m, None)
  | OpLookup ip => (m, specLookup m ip)
  end.

Fixpoint specRun (os : list routeOp) (m : routes) : list (option trie_peer) :=
  match os with [] => [] | o :: os => let '(m, a) := specStep o m in a :: specRun os m end.

(** The same on the code. *)
Definition codeStep (o : routeOp) : T (option trie_peer) :=
  match o with
  | OpInsert ip c p => Insert ip (Z.of_nat c) p;;; ret None
  | OpRemove ip c p => Remove ip (Z.of_nat c) p;;; ret None
  | OpRemoveByPeer p => RemoveByPeer p;;; ret None
  | OpLookup ip => Lookup ip
  end.

Fixpoint codeRun (os : list routeOp) : T (list (option trie_peer)) :=
  match os with
  | [] => ret []
  | o :: os => let* a := codeStep o in let* rest := codeRun os in ret (a :: rest)
  end.

(** The table stands for the map. *)
Definition represents (t : AllowedIPs) (m : routes) : Prop :=
  exists tr, tableRep t tr /\ forall v6 q, m !! (v6, q) = tfind (tr v6) q.

(** ** Lemmas *)

Lemma isV6_len ip : address ip -> length ip = lenOf (isV6 ip) /\ familyOf ip = Some (isV6 ip).
Proof.
  intros [[H|H] _]; unfold isV6, familyOf, lenOf; rewrite H; done.
Qed.

Lemma represents_empty : represents emptyTable ∅.
Proof.
  exists (fun _ => E). split.
  - split; [by intros []|done|apply NoDup_nil_2|]. intros p. cbn. rewrite lookup_empty.
    split; [apply NoDup_nil_2|]. intros n. by rewrite !elem_of_nil.
  - intros v6 q. by rewrite lookup_empty.
Qed.

Lemma Insert_represents t m ip c p : represents t m -> address ip -> (c <= 8 * length ip)%nat ->
  runs (Insert ip (Z.of_nat c) p) t (fun _ t' => represents t' (<[keyOf ip c := p]> m)).
Proof.
  intros (tr & Htr & Hm) Hip Hc. destruct (isV6_len ip Hip) as [HL Hf]. unfold Insert. rewrite Hf.
  wstep. eapply runs_orPanic; [done|].
  rewrite u8_small by (destruct Hip as [[H|H] _]; rewrite H in Hc; unfold IPv4len, IPv6len in Hc; lia).
  eapply runs_mono; [apply insert_runs; [exact Htr|done|done|by rewrite <- HL]|].
  intros [] t' (tr' & Htr' & Eo & E'). exists tr'. split; [done|]. intros v6 q. unfold keyOf.
  destruct (decide (v6 = isV6 ip)) as [->|Hne].
  - rewrite E'. destruct (decide (q = prefixOf ip c)) as [->|Hq]; [by rewrite lookup_insert_eq|].
    rewrite lookup_insert_ne; [apply Hm|congruence].
  - assert (v6 = negb (isV6 ip)) as -> by by destruct v6, (isV6 ip).
    rewrite Eo, lookup_insert_ne; [apply Hm|congruence].
Qed.

Lemma tfind_owned t q p : tfind t q = Some p -> exists n, (n, p) ∈ owned t.
Proof.
  induction t as [|n p0 b c l IHl r IHr]; cbn [tfind owned]; [done|].
  repeat destruct (decide _); try done; intros H.
  - exists n. rewrite H. by left.
  - destruct (IHl H) as [m Hm]. exists m. rewrite !elem_of_app. auto.
  - destruct (IHr H) as [m Hm]. exists m. rewrite !elem_of_app. auto.
Qed.

Lemma owned_split t n p : (n, p) ∈ owned t -> exists k b c l r, t = plug k (N n (Some p) b c l r).
Proof.
  induction t as [|m q b c l IHl r IHr]; cbn [owned]; [by intros ?%elem_of_nil|].
  assert (forall k s f, frameTree f (plug k s) = plug (k ++ [f]) s) as Happ.
  { intros k. induction k as [|g k IH]; intros s f; cbn [plug app]; [done|]. by rewrite IH. }
  rewrite !elem_of_app. intros [H|[H|H]].
  - destruct q as [q|]; [|by apply elem_of_nil in H]. apply list_elem_of_singleton in H as [= -> ->].
    by exists [], b, c, l, r.
  - destruct (IHl H) as (k & b' & c' & l' & r' & ->). exists (k ++ [mkFrame m q b c false r]), b', c', l', r'.
    by rewrite <- Happ.
  - destruct (IHr H) as (k & b' & c' & l' & r' & ->). exists (k ++ [mkFrame m q b c true l]), b', c', l', r'.
    by rewrite <- Happ.
Qed.

(** Removing one node removes one prefix of its peer. *)
Lemma remove_represents t m v6 tr k n p b c l r : tableRep t tr ->
  (forall v6 q, m !! (v6, q) = tfind (tr v6) q) -> tr v6 = plug k (N n p b c l r) ->
  runs (remove n) t (fun _ t' => represents t' (delete (v6, prefixOf b c) m) /\
    trieEntries t' = delEntry p n (trieEntries t)).
Proof.
  intros Htr Hm Etr. eapply runs_mono; [by eapply remove_runs|].
  intros [] t' (tr' & Htr' & Eo & E' & Ee). split; [|done]. exists tr'. split; [done|].
  pose proof (tr_ok _ _ Htr v6) as Hok. rewrite Etr in Hok.
  destruct (removeIn_spec _ _ _ _ _ _ _ _ Hok) as [_ Hf]. intros v q.
  destruct (decide (v = v6)) as [->|Hne].
  - rewrite E', Hf. destruct (decide (q = prefixOf b c)) as [->|Hq]; [by rewrite lookup_delete_eq|].
    rewrite lookup_delete_ne by congruence. by rewrite Hm, Etr.
  - rewrite lookup_delete_ne by congruence. assert (v = negb v6) as -> by by destruct v, v6.
    by rewrite Hm, Eo.
Qed.

Lemma Remove_represents t m ip c p : represents t m -> address ip -> (c <= 8 * length ip)%nat ->
  runs (Remove ip (Z.of_nat c) p) t (fun _ t' => represents t'
    (if decide (m !! keyOf ip c = Some p) then delete (keyOf ip c) m else m)).
Proof.
  intros (tr & Htr & Hm) Hip Hc. destruct (isV6_len ip Hip) as [HL Hf]. unfold Remove. rewrite Hf.
  set (v6 := isV6 ip) in *. destruct (tr_fam _ _ Htr v6) as [Hr Hrep]. pose proof (tr_ok _ _ Htr v6) as Hok.
  wstep. eapply runs_orPanic; [done|]. wstep. apply runs_readSlot. rewrite Hr.
  rewrite u8_small by (destruct Hip as [[H|H] _]; rewrite H in Hc; unfold IPv4len, IPv6len in Hc; lia).
  rewrite HL in Hc. destruct (descend [] (tr v6) ip c) as [[k s] ex] eqn:Ed.
  destruct (descend_spec (lenOf v6) [] (tr v6) ip c k s ex Ed HL Hc I Hok (prefix_nil _))
    as (Ep & Hctx & Hoks & Hpfx & Hex). cbn [plug] in Ep. symmetry in Ep.
  wstep. eapply (nodePlacement_runs (lenOf v6) (tr v6) [] t); try done.
  { unfold depth, lenOf, IPv6len, IPv4len. destruct v6; cbn; lia. }
  assert (m !! keyOf ip c = tfind s (prefixOf ip c)) as Hkey
    by (unfold keyOf; fold v6; rewrite Hm, Ep; by apply (tfind_plug (lenOf v6))).
  rewrite Ed. destruct ex.
  - destruct Hex as (n & p1 & b & l & r & -> & Epre). cbn [rootOf].
    assert (fam t v6 (plug k (N n p1 b c l r))) as Hfam by (split; [by rewrite Hr, Ep|by rewrite <- Ep]).
    apply fam_plug in Hfam as [_ (Hn' & _)]. wstep. eapply runs_getNode; [exact Hn'|].
    cbn [negb orb nodeEntry te_peer]. rewrite Hkey. cbn [tfind]. rewrite (decide_True (P := prefixOf ip c = prefixOf b c)) by done.
    destruct (bool_decide_reflect (p1 = Some p)) as [->|Hne]; cbn [negb].
    + rewrite decide_True by done. eapply runs_mono; [by eapply remove_represents|].
      intros [] t' [H _]. unfold keyOf. fold v6. by rewrite <- Epre.
    + rewrite decide_False by done. wstep. by exists tr.
  - assert (tfind s (prefixOf ip c) = None) as Enone.
    { destruct s as [|n p1 b cn l r]; [done|]. by apply (tfind_root (lenOf v6) (pfxOf k)). }
    rewrite Hkey, Enone, decide_False by done. destruct k as [|f k]; cbn [holderOf].
    + wstep. by exists tr.
    + assert (fam t v6 (plug (f :: k) s)) as Hfam by (split; [by rewrite Hr, Ep|by rewrite <- Ep]).
      apply fam_plug in Hfam as [[_ (Hf' & _)] _]. wstep. eapply runs_getNode; [exact Hf'|]. cbn [negb orb].
      wstep. by exists tr.
Qed.

Lemma RemoveByPeer_represents t m p : represents t m ->
  runs (RemoveByPeer p) t (fun _ t' => represents t' (specRemoveByPeer p m)).
Proof.
  intros Hrep. unfold RemoveByPeer.
  set (J := fun (l : list node_id) (t : AllowedIPs) => default [] (trieEntries t !! p) = l /\
    exists m', represents t m' /\ forall k, m' !! k = m !! k \/ (m' !! k = None /\ m !! k = Some p)).
  change (runs (forEach (default [] (trieEntries t !! p)) remove) t
    (fun _ t' => represents t' (specRemoveByPeer p m))).
  apply (runs_forEach J).
  - split; [done|]. exists m. auto.
  - intros n l s [El (m' & (tr & Htr & Hm') & Hk)]. destruct (tr_entries _ _ Htr p) as [Hnd Hin].
    assert ((n, p) ∈ owned (tr false) ++ owned (tr true)) as Hown by (apply Hin; rewrite El; by left).
    assert (exists v6, (n, p) ∈ owned (tr v6)) as [v6 Hv] by (apply elem_of_app in Hown as [?|?]; eauto).
    destruct (owned_split _ _ _ Hv) as (k & b & c & l0 & r0 & E).
    eapply runs_mono; [by eapply remove_represents|]. intros [] t' [Hrep' He]. split.
    + rewrite He. unfold delEntry. rewrite lookup_insert_eq. cbn [from_option id]. rewrite El in *.
      rewrite filter_cons_False by (intros H; by apply H). apply NoDup_cons in Hnd as [Hn _].
      clear -Hn. induction l as [|x l IH]; [done|]. apply not_elem_of_cons in Hn as [Hx Hn].
      rewrite filter_cons_True by congruence. by rewrite IH.
    + eexists. split; [exact Hrep'|]. intros key. destruct (decide (key = (v6, prefixOf b c))) as [->|Hne].
      * right. rewrite lookup_delete_eq. split; [done|].
        destruct (Hk (v6, prefixOf b c)) as [H|[_ H]]; [|done]. rewrite <- H, Hm', E.
        apply (tfind_here (lenOf v6)). rewrite <- E. apply Htr.
      * rewrite lookup_delete_ne by done. apply Hk.
  - intros s [El (m' & Hrep' & Hk)]. replace (specRemoveByPeer p m) with m'; [done|].
    destruct Hrep' as (tr & Htr & Hm'). apply map_eq. intros [v6 q]. unfold specRemoveByPeer.
    assert (m' !! (v6, q) <> Some p) as Hnp.
    { rewrite Hm'. intros [n Hn]%tfind_owned. destruct (tr_entries _ _ Htr p) as [_ Hin].
      rewrite El in Hin. apply (elem_of_nil n), Hin, elem_of_app. destruct v6; auto. }
    destruct (Hk (v6, q)) as [H|[H1 H2]].
    + rewrite H in *. destruct (m !! (v6, q)) as [p'|] eqn:Ep'.
      * symmetry. apply map_lookup_filter_Some. split; [done|]. cbn. congruence.
      * symmetry. apply map_lookup_filter_None. by left.
    + rewrite H1. symmetry. apply map_lookup_filter_None. right. intros x Hx Hne. cbn in Hne. congruence.
Qed.

Lemma Lookup_represents t m ip : represents t m -> address ip ->
  runs (Lookup ip) t (fun a t' => t' = t /\ a = specLookup m ip).
Proof.
  intros (tr & Htr & Hm) Hip. destruct (isV6_len ip Hip) as [HL Hf]. unfold Lookup. rewrite Hf.
  destruct (tr_fam _ _ Htr (isV6 ip)) as [Hr Hrep]. pose proof (tr_ok _ _ Htr (isV6 ip)) as Hok.
  wstep. eapply runs_orPanic; [done|]. wstep. apply runs_readSlot. rewrite Hr.
  eapply lookup_runs; try done; [unfold depth, lenOf, IPv6len, IPv4len; destruct (isV6 ip); cbn; lia|cbn; lia|].
  split; [done|]. rewrite (look_spec (lenOf (isV6 ip)) [] _ _ _ Hok HL). unfold specLookup. rewrite HL.
  replace (lpm (fun q => m !! (isV6 ip, q)) (bitsOf ip) (8 * lenOf (isV6 ip)))
    with (lpm (tfind (tr (isV6 ip))) (bitsOf ip) (8 * lenOf (isV6 ip))).
  - by destruct (lpm _ _ _).
  - generalize (8 * lenOf (isV6 ip))%nat as n. intros n. induction n as [|n IH]; cbn [lpm]; rewrite Hm; [done|].
    by rewrite IH.
Qed.

Lemma codeStep_represents o t m : represents t m -> validOp o ->
  runs (codeStep o) t (fun a t' => represents t' (specStep o m).1 /\ a = (specStep o m).2).
Proof.
  intros Hrep Hv. destruct o as [ip c p|ip c p|p|ip]; cbn [codeStep specStep fst snd validOp] in *.
  - destruct Hv as [Ha Hc]. wstep. eapply runs_mono; [by apply Insert_represents|]. intros [] t' H. wstep. done.
  - destruct Hv as [Ha Hc]. wstep. eapply runs_mono; [by apply Remove_represents|]. intros [] t' H. wstep. done.
  - wstep. eapply runs_mono; [by apply RemoveByPeer_represents|]. intros [] t' H. wstep. done.
  - eapply runs_mono; [by apply Lookup_represents|]. by intros a t' [-> ->].
Qed.

Lemma codeRun_represents os t m : represents t m -> Forall validOp os ->
  runs (codeRun os) t (fun rs t' => rs = specRun os m /\ exists m', represents t' m').
Proof.
  revert t m. induction os as [|o os IH]; intros t m Hrep Hv; cbn [codeRun specRun].
  - wstep. eauto.
  - apply Forall_cons in Hv as [Hv Hvs]. wstep. eapply runs_mono; [by apply codeStep_represents|].
    intros a t' [Hrep' ->]. destruct (specStep o m) as [m' a]. cbn [fst snd] in *. wstep.
    eapply runs_mono; [by apply IH|]. intros rs t'' [-> H]. by wstep.
Qed.

Lemma mapM_spec {A B} (f : A -> option B) (g : A -> B) l :
  (forall x, x ∈ l -> f x = Some (g x)) -> mapM f l = Some (g <$> l).
Proof.
  induction l as [|x l IH]; intros H; [done|]. cbn. rewrite H by by left. cbn.
  rewrite IH; [done|]. intros y Hy. apply H. by right.
Qed.

(** The node that owns a prefix, and the prefix of a node that has an owner. *)
Lemma owned_node t tr v6 n p : tableRep t tr -> (n, p) ∈ owned (tr v6) ->
  exists e, heap t !! n = Some e /\ address (bits e) /\ length (bits e) = lenOf v6 /\
    0 <= cidr e /\ tfind (tr v6) (prefixOf (bits e) (Z.to_nat (cidr e))) = Some p.
Proof.
  intros Htr Hin. destruct (owned_split _ _ _ Hin) as (k & b & c & l & r & E).
  pose proof (tr_ok _ _ Htr v6) as Hok. rewrite E in Hok.
  pose proof (tr_fam _ _ Htr v6) as Hf. rewrite E in Hf. apply fam_plug in Hf as [_ (Hn & _)].
  eexists. split; [exact Hn|]. cbn [bits cidr nodeEntry]. rewrite Nat2Z.id.
  destruct (plug_ok _ _ _ Hok) as [_ (Hb & Hl & _)]. split_and!; [done|done|lia|].
  rewrite E. by apply (tfind_here (lenOf v6)).
Qed.

Lemma tfind_node t q p : tfind t q = Some p ->
  exists n b c, (n, p) ∈ owned t /\ q = prefixOf b c /\ forall h s, rep h s t -> exists e, h !! n = Some e /\ bits e = b /\ cidr e = Z.of_nat c.
Proof.
  induction t as [|n p0 b c l IHl r IHr]; cbn [tfind owned]; [done|].
  destruct (decide (q = prefixOf b c)) as [->|Hq].
  - intros ->. exists n, b, c. split_and!; [by left|done|]. intros h s (Hn & _). by eexists.
  - destruct (decide _); [|destruct (decide _)]; try done; intros H.
    + destruct (IHl H) as (m & b' & c' & Hm & E & Hr). exists m, b', c'. rewrite !elem_of_app.
      split_and!; [auto|done|]. intros h s (_ & Hl & _). eauto.
    + destruct (IHr H) as (m & b' & c' & Hm & E & Hr). exists m, b', c'. rewrite !elem_of_app.
      split_and!; [auto|done|]. intros h s (_ & _ & Hl). eauto.
Qed.

(** ** Properties *)

(** C4: over any sequence of insertions, removals, removals of a peer and
    lookups from the empty table, the pointer code never panics and answers
    every lookup with the longest matching prefix of the abstract map. *)
Theorem AllowedIPs_longest_prefix_match (os : list routeOp) :
  Forall validOp os ->
  exists t, codeRun os emptyTable = Some (specRun os ∅, t).
Proof.
  intros Hv. destruct (runs_exists _ _ _ (codeRun_represents os emptyTable ∅ represents_empty Hv))
    as (rs & t & E & -> & _). by exists t.
Qed.

Lemma specLookup_none_some m ip : address ip ->
  match specLookup m ip with
  | Some p => exists i, (i <= 8 * length ip)%nat /\ m !! (isV6 ip, take i (bitsOf ip)) = Some p /\
      forall j, (i < j <= 8 * length ip)%nat -> m !! (isV6 ip, take j (bitsOf ip)) = None
  | None => forall i, (i <= 8 * length ip)%nat -> m !! (isV6 ip, take i (bitsOf ip)) = None
  end.
Proof.
  intros _. unfold specLookup. generalize (8 * length ip)%nat as n. intros n.
  induction n as [|n IH]; cbn [lpm].
  - destruct (m !! _) eqn:Em.
    + exists 0%nat. split_and!; [lia|done|lia].
    + intros i Hi. by assert (i = 0)%nat as -> by lia.
  - destruct (m !! (isV6 ip, take (S n) (bitsOf ip))) eqn:Em.
    + exists (S n). split_and!; [lia|done|lia].
    + destruct (lpm _ _ _) as [p|].
      * destruct IH as (i & Hi & E & Hj). exists i. split_and!; [lia|done|]. intros j Hj'.
        destruct (decide (j = S n)) as [->|]; [done|]. apply Hj. lia.
      * intros i Hi. destruct (decide (i = S n)) as [->|]; [done|]. apply IH. lia.
Qed.

(** A lookup in a table that represents a map changes nothing and returns
    the peer of the longest prefix of the address that is in the map, and nil
    exactly when no prefix of it is. *)
Theorem Lookup_correct (t : AllowedIPs) (m : routes) (ip : bytes) :
  represents t m -> address ip ->
  exists a, Lookup ip t = Some (a, t) /\
  match a with
  | Some p => exists i, (i <= 8 * length ip)%nat /\ m !! keyOf ip i = Some p /\
      forall j, (i < j <= 8 * length ip)%nat -> m !! keyOf ip j = None
  | None => forall i, (i <= 8 * length ip)%nat -> m !! keyOf ip i = None
  end.
Proof.
  intros Hrep Hip. destruct (runs_exists _ _ _ (Lookup_represents t m ip Hrep Hip)) as (a & t' & E & -> & Ha).
  exists a. split; [done|]. pose proof (specLookup_none_some m ip Hip) as H. by rewrite <- Ha in H.
Qed.

Lemma EntriesForPeer_lists (t : AllowedIPs) (m : routes) (p : trie_peer) :
  represents t m ->
  exists l, EntriesForPeer p t = Some (l, t) /\
    forall v6 q, m !! (v6, q) = Some p <->
      exists b c, (b, c) ∈ l /\ address b /\ 0 <= c /\ keyOf b (Z.to_nat c) = (v6, q).
Proof.
  intros (tr & Htr & Hm). destruct (tr_entries _ _ Htr p) as [_ Hin].
  assert (forall n, n ∈ default [] (trieEntries t !! p) -> exists v6, (n, p) ∈ owned (tr v6)) as Hown
    by (intros n Hn; apply Hin, elem_of_app in Hn as [?|?]; eauto).
  set (g := fun n => match heap t !! n with Some e => (bits e, cidr e) | None => ([], 0) end).
  unfold EntriesForPeer. rewrite (mapM_spec _ g).
  2: { intros n Hn. destruct (Hown n Hn) as [v6 Hv]. destruct (owned_node _ _ _ _ _ Htr Hv) as (e & He & _).
       unfold g. by rewrite He. }
  eexists. split; [done|]. intros v6 q. rewrite Hm. split.
  - intros H. destruct (tfind_node _ _ _ H) as (n & b & c & Hn & -> & Hr).
    destruct (tr_fam _ _ Htr v6) as [_ Hrep]. destruct (Hr _ _ Hrep) as (e & He & <- & Hc).
    destruct (owned_node _ _ _ _ _ Htr Hn) as (e' & He' & Ha & Hl & Hc0 & _).
    assert (e' = e) as -> by congruence. exists (bits e), (cidr e). split_and!; try done.
    + apply list_elem_of_fmap. exists n. split; [unfold g; by rewrite He|].
      apply Hin, elem_of_app. destruct v6; auto.
    + unfold keyOf, isV6. rewrite Hl, Hc, Nat2Z.id. by destruct v6.
  - intros (b & c & (n & E & Hn)%list_elem_of_fmap & Ha & Hc & Hk). destruct (Hown n Hn) as [v Hv].
    destruct (owned_node _ _ _ _ _ Htr Hv) as (e & He & _ & Hl & _ & Hf).
    unfold g in E. rewrite He in E. injection E as -> ->. unfold keyOf, isV6 in Hk. rewrite Hl in Hk.
    injection Hk as <- <-. by destruct v.
Qed.

(** The entries of a peer are exactly the prefixes that the map gives it. *)
Theorem EntriesForPeer_correct (t : AllowedIPs) (m : routes) (p : trie_peer) :
  represents t m ->
  exists l, EntriesForPeer p t = Some (l, t) /\
    forall v6 q, m !! (v6, q) = Some p <->
      exists b c, (b, c) ∈ l /\ address b /\ 0 <= c /\ keyOf b (Z.to_nat c) = (v6, q).
Proof. apply EntriesForPeer_lists. Qed.

(** ** Witnesses *)

Definition sample_routes : list routeOp :=
  [OpInsert [10; 0; 0; 0] 8 1; OpInsert [10; 1; 2; 0] 24 2; OpInsert [10; 1; 0; 0] 16 3;
   OpInsert [0; 0; 0; 0] 0 4; OpLookup [10; 1; 2; 9]; OpLookup [10; 1; 9; 9]; OpLookup [10; 9; 9; 9];
   OpLookup [192; 168; 0; 1]; OpRemove [10; 1; 0; 0] 16 3; OpLookup [10; 1; 9; 9];
   OpRemoveByPeer 2; OpLookup [10; 1; 2; 9]; OpInsert [10; 0; 0; 0] 8 5; OpRemoveByPeer 4;
   OpLookup [10; 1; 2; 9]; OpLookup [11; 1; 2; 9]].

Ltac prove_address :=
  split; [first [by left | by right]|prove_bytes].
Ltac prove_validOp :=
  lazymatch goal with
  | |- validOp (OpInsert _ _ _) => split; [prove_address|cbn; lia]
  | |- validOp (OpRemove _ _ _) => split; [prove_address|cbn; lia]
  | |- validOp (OpLookup _) => prove_address
  | |- validOp (OpRemoveByPeer _) => exact I
  end.

Lemma AllowedIPs_longest_prefix_match_witness :
  specRun sample_routes ∅ = [None; None; None; None; Some 2%positive; Some 3%positive; Some 1%positive;
    Some 4%positive; None; Some 1%positive; None; Some 1%positive; None; None; Some 5%positive; None] /\
  exists t, codeRun sample_routes emptyTable = Some (specRun sample_routes ∅, t).
Proof.
  split; [vm_compute; reflexivity|]. apply (AllowedIPs_longest_prefix_match sample_routes).
  repeat (apply Forall_cons; split; [prove_validOp|]). by apply Forall_nil.
Defined.

Lemma Lookup_correct_witness :
  exists a, Lookup [10; 1; 2; 9] emptyTable = Some (a, emptyTable) /\
  match a with
  | Some p => exists i, (i <= 8 * length [10; 1; 2; 9])%nat /\ (∅ : routes) !! keyOf [10; 1; 2; 9] i = Some p /\
      forall j, (i < j <= 8 * length [10; 1; 2; 9])%nat -> (∅ : routes) !! keyOf [10; 1; 2; 9] j = None
  | None => forall i, (i <= 8 * length [10; 1; 2; 9])%nat -> (∅ : routes) !! keyOf [10; 1; 2; 9] i = None
  end.
Proof. apply (Lookup_correct emptyTable ∅ [10; 1; 2; 9] represents_empty). prove_address. Defined.

Lemma EntriesForPeer_correct_witness :
  exists l, EntriesForPeer 1 emptyTable = Some (l, emptyTable) /\
    forall v6 q, (∅ : routes) !! (v6, q) = Some 1%positive <->
      exists b c, (b, c) ∈ l /\ address b /\ 0 <= c /\ keyOf b (Z.to_nat c) = (v6, q).
Proof. apply (EntriesForPeer_correct emptyTable ∅ 1 represents_empty). Defined.
