(* ===== verification/State.v ===== *)
(** The state of a device and of the world around it: the structs of
    [device/*.go] as records, the pointers between them as identifiers into
    stores, and the state monad in which the operations are written. *)
From S2P Require Import Prelude Replay Ratelimiter Messages NoiseHelpers Cookie AllowedIPs.

(** ** Constants of [device/constants.go] and [queueconstants_default.go] *)

Definition RekeyAfterMessages : Z := 2 ^ 60.
Definition RejectAfterMessages : Z := 2 ^ 64 - 2 ^ 13 - 1.
Definition RekeyAfterTime : Z := second * 120.
Definition RekeyAttemptTime : Z := second * 90.
Definition RekeyTimeout : Z := second * 5.
Definition MaxTimerHandshakes : Z := 90 / 5.
Definition RekeyTimeoutJitterMaxMs : Z := 334.
Definition RejectAfterTime : Z := second * 180.
Definition KeepaliveTimeout : Z := second * 10.
Definition HandshakeInitationRate : Z := second / 50.
Definition PaddingMultiple : Z := 16.
Definition UnderLoadAfterTime : Z := second.
Definition DefaultMTU : Z := 1420.
Definition MaxPeers : Z := 2 ^ 16.

Definition QueueStagedSize : nat := 128.
Definition QueueHandshakeSize : nat := 1024.
Definition MaxSegmentSize : Z := 2 ^ 16 - 1.
Definition MaxContentSize : Z := MaxSegmentSize - Z.of_nat MessageTransportSize.

(** ** Pointers *)

Abbreviation peer_id := positive.
Abbreviation kp_id := positive.
Abbreviation cont_id := positive.

(** ** [conn.StdNetEndpoint]: the destination and the cached source *)

(** [ep_addr] is the 4 or 16 bytes of the address, followed by its zone. *)

Record Endpoint := mkEndpoint { ep_addr : bytes; ep_port : Z; ep_src : bytes }.

(** [ClearSrc], [DstIP] and [DstToBytes] (the binary form of the address and port). *)
Definition ClearSrc (e : Endpoint) : Endpoint := mkEndpoint (ep_addr e) (ep_port e) [].
Definition DstIP (e : Endpoint) : bytes := ep_addr e.
Definition DstToBytes (e : Endpoint) : bytes := ep_addr e ++ le_enc 2 (ep_port e).

(** ** Keypairs, [device/keypair.go]; an AEAD is its key *)

Record Keypair := mkKeypair {
  sendNonce : Z; send : bytes; receive : bytes; replayFilter : Filter;
  isInitiator : bool; created : Z; kp_localIndex : Z; kp_remoteIndex : Z }.
#[export] Instance Keypair_settable : Settable Keypair := fun k =>
  mkKeypair (sendNonce k) (send k) (receive k) (replayFilter k) (isInitiator k)
    (created k) (kp_localIndex k) (kp_remoteIndex k).

Record Keypairs := mkKeypairs {
  current : option kp_id; previous : option kp_id; next : option kp_id }.
#[export] Instance Keypairs_settable : Settable Keypairs := fun k =>
  mkKeypairs (current k) (previous k) (next k).

(** ** Handshakes, [device/noise-protocol.go] *)

Inductive handshakeState :=
  | handshakeZeroed | handshakeInitiationCreated | handshakeInitiationConsumed
  | handshakeResponseCreated | handshakeResponseConsumed.
#[export] Instance handshakeState_eq_dec : EqDecision handshakeState.
Proof. solve_decision. Defined.

Record Handshake := mkHandshake {
  hs_state : handshakeState;
  hash : bytes; chainKey : bytes; presharedKey : bytes; localEphemeral : bytes;
  localIndex : Z; remoteIndex : Z;
  remoteStatic : bytes; remoteEphemeral : bytes; precomputedStaticStatic : bytes;
  lastTimestamp : bytes; lastInitiationConsumption : gotime; lastSentHandshake : gotime }.
#[export] Instance Handshake_settable : Settable Handshake := fun h =>
  mkHandshake (hs_state h) (hash h) (chainKey h) (presharedKey h) (localEphemeral h)
    (localIndex h) (remoteIndex h) (remoteStatic h) (remoteEphemeral h)
    (precomputedStaticStatic h) (lastTimestamp h) (lastInitiationConsumption h)
    (lastSentHandshake h).

(** ** Timers, [device/timers.go]: pending, and the deadline of the last [Mod] *)

Record Timer := mkTimer { isPending : bool; deadline : Z }.
#[export] Instance Timer_settable : Settable Timer := fun t => mkTimer (isPending t) (deadline t).

Record Timers := mkTimers {
  retransmitHandshake : Timer; sendKeepalive : Timer; newHandshake : Timer;
  zeroKeyMaterial : Timer; persistentKeepalive : Timer;
  handshakeAttempts : Z; needAnotherKeepalive : bool; sentLastMinuteHandshake : bool }.
#[export] Instance Timers_settable : Settable Timers := fun t =>
  mkTimers (retransmitHandshake t) (sendKeepalive t) (newHandshake t) (zeroKeyMaterial t)
    (persistentKeepalive t) (handshakeAttempts t) (needAnotherKeepalive t)
    (sentLastMinuteHandshake t).

(** ** Queue elements, [device/send.go] and [device/receive.go] *)

Record OutElem := mkOutElem {
  oe_packet : bytes; oe_nonce : Z; oe_keypair : option kp_id; oe_peer : option peer_id }.
#[export] Instance OutElem_settable : Settable OutElem := fun e =>
  mkOutElem (oe_packet e) (oe_nonce e) (oe_keypair e) (oe_peer e).

(** [ie_packet] is [None] when decryption failed. *)
Record InElem := mkInElem {
  ie_packet : option bytes; ie_counter : Z; ie_keypair : kp_id; ie_endpoint : Endpoint }.
#[export] Instance InElem_settable : Settable InElem := fun e =>
  mkInElem (ie_packet e) (ie_counter e) (ie_keypair e) (ie_endpoint e).

Record HsElem := mkHsElem { he_msgType : Z; he_packet : bytes; he_endpoint : Endpoint }.

(** A container is shared by two queues; its mutex is held until the worker is done. *)
Record Container (E : Type) := mkContainer { locked : bool; elems : list E }.
Arguments mkContainer {E}.
Arguments locked {E}.
Arguments elems {E}.

(** ** Peers, [device/peer.go] *)

Record PeerEndpoint := mkPeerEndpoint {
  ep_val : option Endpoint; clearSrcOnTx : bool; disableRoaming : bool }.
#[export] Instance PeerEndpoint_settable : Settable PeerEndpoint := fun e =>
  mkPeerEndpoint (ep_val e) (clearSrcOnTx e) (disableRoaming e).

Record Peer := mkPeer {
  isRunning : bool; keypairs : Keypairs; handshake : Handshake;
  txBytes : Z; rxBytes : Z; lastHandshakeNano : Z;
  endpoint : PeerEndpoint; timers : Timers;
  staged : list (list OutElem); outbound : list cont_id; inbound : list cont_id;
  cookieGenerator : CookieGenerator; persistentKeepaliveInterval : Z }.
#[export] Instance Peer_settable : Settable Peer := fun p =>
  mkPeer (isRunning p) (keypairs p) (handshake p) (txBytes p) (rxBytes p)
    (lastHandshakeNano p) (endpoint p) (timers p) (staged p) (outbound p) (inbound p)
    (cookieGenerator p) (persistentKeepaliveInterval p).

(** ** Index table entries, [device/indextable.go]; a handshake is its peer's *)

Record IndexTableEntry := mkIndexEntry {
  it_peer : option peer_id; it_handshake : option peer_id; it_keypair : option kp_id }.

(** ** Devices, [device/device.go] *)

Inductive deviceState := deviceStateDown | deviceStateUp | deviceStateClosed.
#[export] Instance deviceState_eq_dec : EqDecision deviceState.
Proof. solve_decision. Defined.

Record Device := mkDevice {
  d_state : deviceState;
  d_port : Z; d_fwmark : Z; d_brokenRoaming : bool; d_bindOpen : bool;
  d_privateKey : bytes; d_publicKey : bytes;
  d_keyMap : gmap bytes peer_id;
  d_underLoadUntil : Z; d_limiter : Ratelimiter (Addr := bytes);
  d_allowedips : AllowedIPs;
  d_indexTable : gmap Z IndexTableEntry;
  d_cookieChecker : CookieChecker;
  d_mtu : Z;
  d_peers : gmap peer_id Peer;
  d_keypairs : gmap kp_id Keypair;
  d_outConts : gmap cont_id (Container OutElem);
  d_inConts : gmap cont_id (Container InElem);
  d_encryption : list cont_id;
  d_decryption : list cont_id;
  d_handshakes : list HsElem;
  d_unknownHandler : bool }.
#[export] Instance Device_settable : Settable Device := fun d =>
  mkDevice (d_state d) (d_port d) (d_fwmark d) (d_brokenRoaming d) (d_bindOpen d)
    (d_privateKey d) (d_publicKey d) (d_keyMap d) (d_underLoadUntil d) (d_limiter d)
    (d_allowedips d) (d_indexTable d) (d_cookieChecker d) (d_mtu d) (d_peers d) (d_keypairs d)
    (d_outConts d) (d_inConts d) (d_encryption d) (d_decryption d) (d_handshakes d)
    (d_unknownHandler d).

(** ** The world: what the operations read from and write to outside *)

Inductive output :=
  | OutUDP (to : Endpoint) (bufs : list bytes)   (** [bind.Send] *)
  | OutTUN (bufs : list bytes)                   (** [tun.Write] *)
  | OutUnknown (from : Endpoint).                (** [UnknownPacketHandler] *)

(** What [bind.Send] answers; with [ErrUDPGSODisabled], whether the retry went well. *)
Inductive sendResult := SendOk | SendGSODisabled (retryOk : bool) | SendErr.

(** [w_now] is the instant of the operation; [w_rand] answers [rand.Read] in
    order ([None] is an error, as is running out); [w_jitter] answers
    [fastrandn]; [w_net] each [bind.Send]; [w_bind] the other calls of the bind
    and the route listener ([true] is no error), [w_open] the port [bind.Open]
    got or its error; [w_order] picks the next key of each [range] over a map. *)
Record World := mkWorld {
  dev : Device; w_now : Z; w_rand : list (option bytes); w_jitter : list Z;
  w_net : list sendResult; w_bind : list bool; w_open : list (option Z); w_order : list nat;
  w_out : list output }.
#[export] Instance World_settable : Settable World := fun w =>
  mkWorld (dev w) (w_now w) (w_rand w) (w_jitter w) (w_net w) (w_bind w) (w_open w) (w_order w) (w_out w).

(** ** The monad of the operations on a device *)

Abbreviation M := (ST World).

Definition getW : M World := fun w => Some (w, w).
Definition modW (f : World -> World) : M unit := fun w => Some (tt, f w).
Definition getD : M Device := fun w => Some (dev w, w).
Definition modD (f : Device -> Device) : M unit := modW (fun w => w <| dev ::= f |>).
Definition getNow : M Z := fun w => Some (w_now w, w).

(** Dereferencing a peer or keypair; a dangling pointer panics. *)
Definition getPeer (p : peer_id) : M Peer := fun w =>
  match d_peers (dev w) !! p with Some x => Some (x, w) | None => None end.
Definition modPeer (p : peer_id) (f : Peer -> Peer) : M unit := fun w =>
  match d_peers (dev w) !! p with
  | Some x => Some (tt, w <| dev ::= fun d => d <| d_peers ::= <[p := f x]> |> |>)
  | None => None
  end.
Definition getKp (k : kp_id) : M Keypair := fun w =>
  match d_keypairs (dev w) !! k with Some x => Some (x, w) | None => None end.
Definition modKp (k : kp_id) (f : Keypair -> Keypair) : M unit := fun w =>
  match d_keypairs (dev w) !! k with
  | Some x => Some (tt, w <| dev ::= fun d => d <| d_keypairs ::= <[k := f x]> |> |>)
  | None => None
  end.

(** [crypto/rand.Read]; [fastrandn(n)]; the answer of [bind.Send]. *)
Definition randRead : M (option bytes) := fun w =>
  match w_rand w with
  | [] => Some (None, w)
  | r :: rs => Some (r, w <| w_rand := rs |>)
  end.
Definition fastrandn (n : Z) : M Z := fun w =>
  match w_jitter w with
  | [] => Some (0, w)
  | j :: js => Some (j mod n, w <| w_jitter := js |>)
  end.
Definition netSend (to : Endpoint) (bufs : list bytes) : M sendResult := fun w =>
  let w' := w <| w_out ::= fun o => o ++ [OutUDP to bufs] |> in
  match w_net w with
  | [] => Some (SendOk, w')
  | r :: rs => Some (r, w' <| w_net := rs |>)
  end.

(** [tun.Write]; its error is only logged. *)
Definition tunWrite (bufs : list bytes) : M unit :=
  modW (fun w => w <| w_out ::= fun o => o ++ [OutTUN bufs] |>).

(** [device.UnknownPacketHandler], when there is one. *)
Definition unknownPacket (from : Endpoint) : M unit :=
  modW (fun w => if d_unknownHandler (dev w) then w <| w_out ::= fun o => o ++ [OutUnknown from] |> else w).

Definition bindCall : M bool := fun w =>
  match w_bind w with
  | [] => Some (true, w)
  | r :: rs => Some (r, w <| w_bind := rs |>)
  end.

Definition bindOpen (port : Z) : M (option Z) := fun w =>
  match w_open w with
  | [] => Some (Some port, w)
  | r :: rs => Some (r, w <| w_open := rs |>)
  end.

(** The elements of a map in the order a [range] visits them. *)
Definition rangeOrder {A} (l : list A) : M (list A) := fun w =>
  let '(l, order) := pickOrder (length l) (w_order w) l in
  Some (l, w <| w_order := order |>).

(** An operation on the routing table. *)
Definition onRoutes {A} (m : ST AllowedIPs A) : M A := fun w =>
  match m (d_allowedips (dev w)) with
  | Some (a, t) => Some (a, w <| dev ::= fun d => d <| d_allowedips := t |> |>)
  | None => None
  end.

(** ** Lemmas on the monad *)

Lemma getPeer_some p x w : d_peers (dev w) !! p = Some x -> getPeer p w = Some (x, w).
Proof. intros E. unfold getPeer. by rewrite E. Qed.

Lemma modPeer_some p x f w : d_peers (dev w) !! p = Some x ->
  modPeer p f w = Some (tt, w <| dev ::= fun d => d <| d_peers ::= <[p := f x]> |> |>).
Proof. intros E. unfold modPeer. by rewrite E. Qed.

(** ** Rules of total correctness *)

Lemma runs_getPeer p w x Q :
  d_peers (dev w) !! p = Some x -> Q x w -> runs (getPeer p) w Q.
Proof. intros E H. unfold runs. by rewrite (getPeer_some _ _ _ E). Qed.

Lemma runs_modPeer p f w x (Q : unit -> World -> Prop) :
  d_peers (dev w) !! p = Some x ->
  Q tt (w <| dev ::= fun d => d <| d_peers ::= <[p := f x]> |> |>) -> runs (modPeer p f) w Q.
Proof. intros E H. unfold runs. by rewrite (modPeer_some _ _ _ _ E). Qed.

Lemma runs_getKp k w x Q :
  d_keypairs (dev w) !! k = Some x -> Q x w -> runs (getKp k) w Q.
Proof. intros E H. unfold runs, getKp. by rewrite E. Qed.

Lemma runs_randRead w r rs (Q : option bytes -> World -> Prop) :
  w_rand w = r :: rs -> Q r (w <| w_rand := rs |>) -> runs randRead w Q.
Proof. intros E H. unfold runs, randRead. by rewrite E. Qed.

Ltac wstep ::=
  lazymatch goal with
  | |- runs (getPeer _) _ _ => eapply runs_getPeer; [wlookup|]
  | |- runs (modPeer _ _) _ _ => eapply runs_modPeer; [wlookup|]
  | |- runs (getKp _) _ _ => eapply runs_getKp; [wlookup|]
  | |- runs getD ?w ?Q => change (Q (dev w) w)
  | |- runs getNow ?w ?Q => change (Q (w_now w) w)
  | |- runs (modD ?f) ?w ?Q => change (Q tt (w <| dev ::= f |>))
  | |- runs (modW ?f) ?w ?Q => change (Q tt (f w))
  | _ => wbase
  end; cbv beta.

(** ** Small devices, at which the theorems are evaluated *)

Definition sample_timer (b : bool) : Timer := mkTimer b 0.

Definition sample_timers : Timers :=
  mkTimers (sample_timer true) (sample_timer false) (sample_timer true) (sample_timer false)
    (sample_timer true) 0 false false.

Definition sample_handshake : Handshake :=
  mkHandshake handshakeZeroed zeroKey zeroKey zeroKey zeroKey 0 0 zeroKey zeroKey zeroKey
    (zeros 12) None None.

Definition sample_endpoint : Endpoint := mkEndpoint [192; 0; 2; 1] 51820 [].

(** A peer with a known endpoint and no session. *)
Definition sample_peer (running : bool) : Peer :=
  mkPeer running (mkKeypairs None None None) sample_handshake 0 0 0
    (mkPeerEndpoint (Some sample_endpoint) false false) sample_timers [] [] []
    zeroGenerator 25.

(** A device that is up, with that peer as number 1. *)
Definition sample_device (p : Peer) : Device :=
  mkDevice deviceStateUp 0 0 false true zeroKey zeroKey {[ remoteStatic (handshake p) := 1%positive ]}
    0 (mkRate [] ∅ gcIdle) emptyTable ∅ zeroChecker 1420 {[ 1%positive := p ]} ∅ ∅ ∅ [] [] [] false.

Definition sample_world (now : Z) (p : Peer) : World :=
  mkWorld (sample_device p) now [] [] [] [] [] [] [].
