(* ===== verification/IndexTable.v ===== *)
(** The table of receiver indices, [device/indextable.go]. *)
From S2P Require Import Prelude Messages State.

Abbreviation IndexTable := (gmap Z IndexTableEntry).

(** ** The code *)

(** The entry Go returns for a missing key. *)
Definition zeroEntry : IndexTableEntry := mkIndexEntry None None None.

(** [randUint32] of one answer of [rand.Read]: the index and no error. *)
Definition uint32Of (r : option bytes) : Z * bool :=
  match r with
  | None => (0, false)
  | Some b => (le_dec (copy_at (zeros 4) 0 b), true)
  end.

Definition tableInit : IndexTable := ∅.

Definition tableDelete (index : Z) (t : IndexTable) : IndexTable := delete index t.

Definition tableSwap (index : Z) (keypair : kp_id) (t : IndexTable) : IndexTable :=
  match t !! index with
  | None => t
  | Some entry => <[index := mkIndexEntry (it_peer entry) None (Some keypair)]> t
  end.

(** The loop of [NewIndexForHandshake]: every turn draws once, so the answers
    of the random source are the fuel; running out is an error of [rand]. *)
Fixpoint newIndex (rnd : list (option bytes)) (t : IndexTable) (peer hs : peer_id)
    : Z * bool * IndexTable * list (option bytes) :=
  match rnd with
  | [] => (0, false, t, [])
  | r :: rnd =>
      let '(index, ok) := uint32Of r in
      if negb ok then (index, false, t, rnd)
      else
        match t !! index with
        | Some _ => newIndex rnd t peer hs
        | None => (index, true, <[index := mkIndexEntry (Some peer) (Some hs) None]> t, rnd)
        end
  end.

Definition tableLookup (id : Z) (t : IndexTable) : IndexTableEntry :=
  default zeroEntry (t !! id).

(** ** The operations on the device's table *)

Definition indexDelete (index : Z) : M unit :=
  modD (fun d => d <| d_indexTable ::= tableDelete index |>).

Definition SwapIndexForKeypair (index : Z) (keypair : kp_id) : M unit :=
  modD (fun d => d <| d_indexTable ::= tableSwap index keypair |>).

Definition NewIndexForHandshake (peer hs : peer_id) : M (Z * bool) := fun w =>
  let '(index, ok, t, rnd) := newIndex (w_rand w) (d_indexTable (dev w)) peer hs in
  Some ((index, ok), w <| dev ::= fun d => d <| d_indexTable := t |> |> <| w_rand := rnd |>).

Definition indexLookup (id : Z) : M IndexTableEntry := fun w =>
  Some (tableLookup id (d_indexTable (dev w)), w).

(** [device.DeleteKeypair] of [device/keypair.go]. *)
Definition DeleteKeypair (key : option kp_id) : M unit :=
  match key with
  | None => ret tt
  | Some k => let* kp := getKp k in indexDelete (kp_localIndex kp)
  end.

(** ** Lemmas *)

Lemma newIndex_spec rnd t peer hs index ok t' rnd' :
  newIndex rnd t peer hs = (index, ok, t', rnd') ->
  if ok then t !! index = None /\ t' = <[index := mkIndexEntry (Some peer) (Some hs) None]> t
  else t' = t.
Proof.
  revert index ok t' rnd'. induction rnd as [|r rnd IH]; intros index ok t' rnd' H; simpl in H.
  - by injection H as <- <- <- <-.
  - destruct (uint32Of r) as [i ok0]. destruct ok0; simpl in H; [|by injection H as <- <- <- <-].
    destruct (t !! i) eqn:E; [by apply IH in H|]. by injection H as <- <- <- <-.
Qed.

(** A draw that is free is enough for the loop to end well. *)
Lemma newIndex_finds rnd t peer hs b :
  Forall (fun r => r <> None) rnd -> Some b ∈ rnd -> t !! (uint32Of (Some b)).1 = None ->
  exists index t' rnd', newIndex rnd t peer hs = (index, true, t', rnd').
Proof.
  induction 1 as [|r rnd Hr Hrs IH]; intros Hin Hfree; [by apply elem_of_nil in Hin|].
  destruct r as [b'|]; [|done]. cbn [newIndex]. cbn [uint32Of negb fst] in *.
  destruct (t !! le_dec (copy_at (zeros 4) 0 b')) eqn:E; [|eauto].
  apply IH; [|done]. apply elem_of_cons in Hin as [[= <-]|]; [congruence|done].
Qed.

Lemma runs_NewIndex p h w i ok t rnd (Q : Z * bool -> World -> Prop) :
  newIndex (w_rand w) (d_indexTable (dev w)) p h = (i, ok, t, rnd) ->
  Q (i, ok) (w <| dev ::= fun d => d <| d_indexTable := t |> |> <| w_rand := rnd |>) ->
  runs (NewIndexForHandshake p h) w Q.
Proof. intros E H. unfold runs, NewIndexForHandshake. by rewrite E. Qed.

Lemma runs_indexLookup i w e (Q : IndexTableEntry -> World -> Prop) :
  d_indexTable (dev w) !! i = Some e -> Q e w -> runs (indexLookup i) w Q.
Proof. intros E H. unfold runs, indexLookup, tableLookup. by rewrite E. Qed.

(** ** Properties *)

(** As long as the random source works and yields some free index,
    [NewIndexForHandshake] ends with a free index, registers exactly that
    index for the handshake and leaves every other entry alone. *)
Theorem NewIndexForHandshake_fresh (w : World) (peer hs : peer_id) (b : bytes) :
  Forall (fun r => r <> None) (w_rand w) -> Some b ∈ w_rand w ->
  d_indexTable (dev w) !! (uint32Of (Some b)).1 = None ->
  exists index w', NewIndexForHandshake peer hs w = Some ((index, true), w') /\
    d_indexTable (dev w) !! index = None /\
    d_indexTable (dev w') =
      <[index := mkIndexEntry (Some peer) (Some hs) None]> (d_indexTable (dev w)).
Proof.
  intros Hr Hb Hfree. unfold NewIndexForHandshake.
  destruct (newIndex_finds _ _ peer hs b Hr Hb Hfree) as (index & t' & rnd' & E).
  rewrite E. apply newIndex_spec in E as [E1 E2].
  eexists index, _. split; [reflexivity|]. by split.
Qed.

(** ** Witnesses *)


Definition index_world : World :=
  sample_world 0 (sample_peer true) <| dev ::= fun d => d <| d_indexTable := {[7 := zeroEntry]} |> |>
    <| w_rand := [Some [7; 0; 0; 0]; Some [9; 1; 0; 0]] |>.

Lemma NewIndexForHandshake_fresh_witness :
  exists index w', NewIndexForHandshake 1 1 index_world = Some ((index, true), w') /\
    d_indexTable (dev index_world) !! index = None /\
    d_indexTable (dev w') =
      <[index := mkIndexEntry (Some 1%positive) (Some 1%positive) None]> (d_indexTable (dev index_world)).
Proof.
  apply (NewIndexForHandshake_fresh index_world 1 1 [9; 1; 0; 0]).
  - repeat (apply Forall_cons; split; [discriminate|]). by apply Forall_nil.
  - set_solver.
  - vm_compute. reflexivity.
Defined.
