(* ===== verification/Timers.v ===== *)
(** The timers of a peer, [device/timers.go], up to the functions the
    expirations call (those are in Send.v). *)
From S2P Require Import Prelude Messages State.

(** ** One timer *)

(** [Mod] arms the timer, [Del] disarms it; [DelSync] is two [Del]s around
    the lock that waits for a running expiration. *)
Definition timerMod (now d : Z) (t : Timer) : Timer := mkTimer true (now + d).
Definition timerDel (t : Timer) : Timer := t <| isPending := false |>.
Definition timerDelSync (t : Timer) : Timer := timerDel (timerDel t).

(** ** Timers of a peer *)

Definition modTimers (p : peer_id) (f : Timers -> Timers) : M unit :=
  modPeer p (fun x => x <| timers ::= f |>).

Definition isUp (d : Device) : bool := bool_decide (d_state d = deviceStateUp).
Definition isClosed (d : Device) : bool := bool_decide (d_state d = deviceStateClosed).

Definition timersActive (p : peer_id) : M bool :=
  let* x := getPeer p in let* d := getD in ret (isRunning x && isUp d).

Definition millisecond : Z := 1000000.

Definition timersDataSent (p : peer_id) : M unit :=
  let* active := timersActive p in let* x := getPeer p in
  if active && negb (isPending (newHandshake (timers x))) then
    let* now := getNow in let* j := fastrandn RekeyTimeoutJitterMaxMs in
    modTimers p (fun t => t <| newHandshake ::=
      timerMod now (KeepaliveTimeout + RekeyTimeout + millisecond * j) |>)
  else ret tt.

Definition timersDataReceived (p : peer_id) : M unit :=
  let* active := timersActive p in let* x := getPeer p in
  if active then
    if negb (isPending (sendKeepalive (timers x))) then
      let* now := getNow in modTimers p (fun t => t <| sendKeepalive ::= timerMod now KeepaliveTimeout |>)
    else modTimers p (fun t => t <| needAnotherKeepalive := true |>)
  else ret tt.

Definition timersAnyAuthenticatedPacketSent (p : peer_id) : M unit :=
  let* active := timersActive p in
  when active (modTimers p (fun t => t <| sendKeepalive ::= timerDel |>)).

Definition timersAnyAuthenticatedPacketReceived (p : peer_id) : M unit :=
  let* active := timersActive p in
  when active (modTimers p (fun t => t <| newHandshake ::= timerDel |>)).

Definition timersHandshakeInitiated (p : peer_id) : M unit :=
  let* active := timersActive p in
  if active then
    let* now := getNow in let* j := fastrandn RekeyTimeoutJitterMaxMs in
    modTimers p (fun t => t <| retransmitHandshake ::= timerMod now (RekeyTimeout + millisecond * j) |>)
  else ret tt.

Definition timersHandshakeComplete (p : peer_id) : M unit :=
  let* active := timersActive p in
  when active (modTimers p (fun t => t <| retransmitHandshake ::= timerDel |>));;;
  modTimers p (fun t => t <| handshakeAttempts := 0 |> <| sentLastMinuteHandshake := false |>);;;
  let* now := getNow in
  modPeer p (fun x => x <| lastHandshakeNano := now |>).

Definition timersSessionDerived (p : peer_id) : M unit :=
  let* active := timersActive p in
  if active then
    let* now := getNow in modTimers p (fun t => t <| zeroKeyMaterial ::= timerMod now (RejectAfterTime * 3) |>)
  else ret tt.

Definition timersAnyAuthenticatedPacketTraversal (p : peer_id) : M unit :=
  let* x := getPeer p in let* active := timersActive p in
  let keepalive := persistentKeepaliveInterval x in
  if (keepalive >? 0) && active then
    let* now := getNow in modTimers p (fun t => t <| persistentKeepalive ::= timerMod now (keepalive * second) |>)
  else ret tt.

(** [timersInit]: five stopped timers. *)
Definition stoppedTimer : Timer := mkTimer false 0.
Definition timersInit : Timers :=
  mkTimers stoppedTimer stoppedTimer stoppedTimer stoppedTimer stoppedTimer 0 false false.

Definition timersStart (p : peer_id) : M unit :=
  modTimers p (fun t => t <| handshakeAttempts := 0 |> <| sentLastMinuteHandshake := false |>
    <| needAnotherKeepalive := false |>).

Definition timersStop (p : peer_id) : M unit :=
  modTimers p (fun t => t <| retransmitHandshake ::= timerDelSync |>
    <| sendKeepalive ::= timerDelSync |> <| newHandshake ::= timerDelSync |>
    <| zeroKeyMaterial ::= timerDelSync |> <| persistentKeepalive ::= timerDelSync |>).

(** ** Properties *)

(** The notifications other parts of the device send to a peer's timers. *)
Inductive timerCall :=
  | DataSent | DataReceived | AnySent | AnyReceived | HandshakeInitiated
  | HandshakeComplete | SessionDerived | AnyTraversal | TimersStart | TimersStop.

#[export] Instance timerCall_eq_dec : EqDecision timerCall.
Proof. solve_decision. Defined.

Definition runCall (c : timerCall) (p : peer_id) : M unit :=
  match c with
  | DataSent => timersDataSent p
  | DataReceived => timersDataReceived p
  | AnySent => timersAnyAuthenticatedPacketSent p
  | AnyReceived => timersAnyAuthenticatedPacketReceived p
  | HandshakeInitiated => timersHandshakeInitiated p
  | HandshakeComplete => timersHandshakeComplete p
  | SessionDerived => timersSessionDerived p
  | AnyTraversal => timersAnyAuthenticatedPacketTraversal p
  | TimersStart => timersStart p
  | TimersStop => timersStop p
  end.

Fixpoint runCalls (cs : list timerCall) (p : peer_id) : M unit :=
  match cs with [] => ret tt | c :: cs => runCall c p;;; runCalls cs p end.

(** The five timers of a peer. *)
Definition timerList (t : Timers) : list Timer :=
  [retransmitHandshake t; sendKeepalive t; newHandshake t; zeroKeyMaterial t; persistentKeepalive t].

(** No timer of the peer is pending. *)
Definition quiet (p : peer_id) (w : World) : Prop :=
  exists x, d_peers (dev w) !! p = Some x /\
    Forall (fun t => isPending t = false) (timerList (timers x)).

(** The peer may arm timers: it runs and its device is up. *)
Definition active (p : peer_id) (w : World) : Prop :=
  exists x, d_peers (dev w) !! p = Some x /\ isRunning x = true /\
    d_state (dev w) = deviceStateUp.

(** ** Lemmas *)

Lemma modTimers_some p f x w : d_peers (dev w) !! p = Some x ->
  modTimers p f w = Some (tt,
    w <| dev ::= fun d => d <| d_peers ::= <[p := x <| timers ::= f |>]> |> |>).
Proof. apply modPeer_some. Qed.

Lemma timersActive_some p x w : d_peers (dev w) !! p = Some x ->
  timersActive p w = Some (isRunning x && isUp (dev w), w).
Proof. intros E. unfold timersActive. by rewrite bind_eq, (getPeer_some _ _ _ E). Qed.

(** A call made to a peer that may not arm timers does not arm one. *)
Lemma runCall_inactive c p w x : d_peers (dev w) !! p = Some x ->
  isRunning x && isUp (dev w) = false ->
  exists x' w', runCall c p w = Some (tt, w') /\ d_peers (dev w') !! p = Some x' /\
    isRunning x' = isRunning x /\ d_state (dev w') = d_state (dev w) /\
    (c <> TimersStop -> Forall2 (fun t t' => isPending t' = isPending t)
      (timerList (timers x)) (timerList (timers x'))) /\
    (c = TimersStop -> Forall (fun t => isPending t = false) (timerList (timers x'))).
Proof.
  intros E Ha. pose proof (timersActive_some p x w E) as Et. rewrite Ha in Et.
  destruct c; cbn [runCall];
    unfold timersDataSent, timersDataReceived, timersAnyAuthenticatedPacketSent,
      timersAnyAuthenticatedPacketReceived, timersHandshakeInitiated, timersHandshakeComplete,
      timersSessionDerived, timersAnyAuthenticatedPacketTraversal, timersStart, timersStop;
    rewrite ?bind_eq, ?Et, ?(getPeer_some _ _ _ E), ?bind_eq, ?(getPeer_some _ _ _ E);
    cbn [andb when];
    try (rewrite ?bind_eq, ?Et, ?andb_false_r;
         eexists x, w; split_and!; [reflexivity|done|done|done|by repeat constructor|done]).
  - unfold ret at 1. rewrite bind_eq.
    rewrite (modTimers_some _ _ _ _ E), bind_eq. cbn [getNow].
    erewrite modPeer_some by (cbn; apply lookup_insert_eq).
    eexists _, _. split_and!; [reflexivity|cbn; apply lookup_insert_eq|done|done|
      intros _; by repeat constructor|done].
  - rewrite (modTimers_some _ _ _ _ E). eexists _, _.
    split_and!; [reflexivity|cbn; apply lookup_insert_eq|done|done|
      intros _; by repeat constructor|done].
  - rewrite (modTimers_some _ _ _ _ E). eexists _, _.
    split_and!; [reflexivity|cbn; apply lookup_insert_eq|done|done|done|].
    intros _. by repeat constructor.
Qed.

Lemma quiet_transfer ts ts' :
  Forall2 (fun t t' => isPending t' = isPending t) ts ts' ->
  Forall (fun t => isPending t = false) ts -> Forall (fun t => isPending t = false) ts'.
Proof. induction 1; [done|]. rewrite !Forall_cons. intuition congruence. Qed.

Lemma runCalls_inactive cs p w x : d_peers (dev w) !! p = Some x ->
  isRunning x && isUp (dev w) = false ->
  Forall (fun t => isPending t = false) (timerList (timers x)) ->
  exists w', runCalls cs p w = Some (tt, w') /\ quiet p w'.
Proof.
  revert w x. induction cs as [|c cs IH]; intros w x E Ha Hq; cbn [runCalls].
  - exists w. split; [done|]. by exists x.
  - destruct (runCall_inactive c p w x E Ha) as (x' & w' & Hr & E' & Hrun & Hst & Hk & Hs).
    rewrite bind_eq, Hr. apply (IH w' x' E').
    + by rewrite Hrun; unfold isUp; rewrite Hst.
    + destruct (decide (c = TimersStop)) as [Hc|Hc]; [auto|].
      exact (quiet_transfer _ _ (Hk Hc) Hq).
Qed.

(** C40: once a peer that is not running has its timers stopped, no sequence
    of notifications from packets still in flight arms any of them again. *)
Theorem timers_stay_stopped (cs : list timerCall) (p : peer_id) (w : World) (x : Peer) :
  d_peers (dev w) !! p = Some x -> isRunning x = false ->
  exists w', runCalls (TimersStop :: cs) p w = Some (tt, w') /\ quiet p w'.
Proof.
  intros E Hr. assert (isRunning x && isUp (dev w) = false) as Ha by by rewrite Hr.
  destruct (runCall_inactive TimersStop p w x E Ha) as (x' & w1 & H1 & E' & Hrun & Hst & _ & Hs).
  cbn [runCalls]. rewrite bind_eq, H1. apply (runCalls_inactive _ _ _ x' E'); [|auto].
  by rewrite Hrun, Hr.
Qed.

(** ** Witnesses *)

Lemma timers_stay_stopped_witness :
  exists w', runCalls [TimersStop; DataSent; HandshakeComplete; AnyTraversal] 1
    (sample_world 0 (sample_peer false)) = Some (tt, w') /\ quiet 1 w'.
Proof.
  apply (timers_stay_stopped [DataSent; HandshakeComplete; AnyTraversal] 1
    (sample_world 0 (sample_peer false)) (sample_peer false)); reflexivity.
Defined.
