(* ===== verification/Handshake.v ===== *)
(** The messages of the Noise_IKpsk2 handshake, [device/noise-protocol.go]:
    their creation and consumption, and what each step computes in terms of
    the Noise specification. *)
From S2P Require Import Prelude Replay Tai64n Messages NoiseHelpers ToyCrypto Cookie.
From S2P Require Import State IndexTable.

Definition NoiseConstruction : bytes := of_string "Noise_IKpsk2_25519_ChaChaPoly_BLAKE2s".
Definition WGIdentifier : bytes := of_string "WireGuard v1 zx2c4 Jason@zx2c4.com".

(** The wall clock read at [now] nanoseconds since the epoch. *)
Definition timeAt (now : Z) : Time := mkTime (now / second) (now mod second).

(** [h.Clear] of the handshake. *)
Definition clearHandshake (h : Handshake) : Handshake :=
  h <| localEphemeral ::= setZero |> <| remoteEphemeral ::= setZero |>
    <| chainKey ::= setZero |> <| hash ::= setZero |>
    <| localIndex := 0 |> <| hs_state := handshakeZeroed |>.

(** Storing into [peer.handshake]. *)
Definition setHs (p : peer_id) (h : Handshake) : M unit :=
  modPeer p (fun x => x <| handshake := h |>).

(** [now.After(t)]. *)
Definition afterTime (now : Z) (t : gotime) : bool :=
  match t with None => true | Some t => t <? now end.

Section Handshake.
Context `{C : Crypto}.

Definition InitialChainKey : bytes := blake2s256 NoiseConstruction.
Definition InitialHash : bytes := mixHash InitialChainKey WGIdentifier.

Definition hsMixHash (data : bytes) (h : Handshake) : Handshake :=
  h <| hash ::= fun x => mixHash x data |>.
Definition hsMixKey (data : bytes) (h : Handshake) : Handshake :=
  h <| chainKey ::= fun x => mixKey x data |>.

(** ** Initiation *)

Definition CreateMessageInitiation (p : peer_id) : M (option MessageInitiation) :=
  let* d := getD in
  let* x := getPeer p in
  let* now := getNow in
  let* r := randRead in
  let '(sk, ok) := newPrivateKey r in
  let h := handshake x <| hash := InitialHash |> <| chainKey := InitialChainKey |>
             <| localEphemeral := sk |> in
  if negb ok then setHs p h;;; ret None
  else
    let h := hsMixHash (remoteStatic h) h in
    let eph := publicKey (localEphemeral h) in
    let h := hsMixHash eph (hsMixKey eph h) in
    (* encrypt static key *)
    let '(ss, ok) := sharedSecret (localEphemeral h) (remoteStatic h) in
    if negb ok then setHs p h;;; ret None
    else
      let '(ck, key) := KDF2 (chainKey h) ss in
      let h := h <| chainKey := ck |> in
      let static := aead_seal key ZeroNonce (d_publicKey d) (hash h) in
      let h := hsMixHash static h in
      (* encrypt timestamp *)
      if isZero (precomputedStaticStatic h) then setHs p h;;; ret None
      else
        let '(ck, key) := KDF2 (chainKey h) (precomputedStaticStatic h) in
        let h := h <| chainKey := ck |> in
        let ts := aead_seal key ZeroNonce (stamp (timeAt now)) (hash h) in
        (* assign index *)
        indexDelete (localIndex h);;;
        let* '(sender, ok) := NewIndexForHandshake p p in
        if negb ok then setHs p h;;; ret None
        else
          let h := h <| localIndex := sender |> in
          let h := hsMixHash ts h <| hs_state := handshakeInitiationCreated |> in
          setHs p h;;;
          ret (Some (mkInitiation MessageInitiationType sender eph static ts (zeros 16) (zeros 16))).

(** What the check of an initiation leaves for the update of the handshake. *)
Record checkedInitiation := mkCheckedI {
  ci_peer : peer_id; ci_hash : bytes; ci_chainKey : bytes; ci_timestamp : bytes; ci_msg : MessageInitiation }.

(** [ConsumeMessageInitiation] up to the release of the handshake's reading lock. *)
Definition checkInitiation (msg : MessageInitiation) : M (option checkedInitiation) :=
  if negb (mi_Type msg =? MessageInitiationType) then ret None
  else
    let* d := getD in
    let* now := getNow in
    let h := mixHash InitialHash (d_publicKey d) in
    let h := mixHash h (mi_Ephemeral msg) in
    let ck := mixKey InitialChainKey (mi_Ephemeral msg) in
    (* decrypt static key *)
    let '(ss, ok) := sharedSecret (d_privateKey d) (mi_Ephemeral msg) in
    if negb ok then ret None
    else
      let '(ck, key) := KDF2 ck ss in
      match aead_open key ZeroNonce (mi_Static msg) h with
      | None => ret None
      | Some pk =>
          let peerPK := copy_at zeroKey 0 pk in
          let h := mixHash h (mi_Static msg) in
          (* lookup peer *)
          match d_keyMap d !! peerPK with
          | None => ret None
          | Some p =>
              let* x := getPeer p in
              if negb (isRunning x) then ret None
              else
                let hs := handshake x in
                (* verify identity *)
                if isZero (precomputedStaticStatic hs) then ret None
                else
                  let '(ck, key) := KDF2 ck (precomputedStaticStatic hs) in
                  match aead_open key ZeroNonce (mi_Timestamp msg) h with
                  | None => ret None
                  | Some ts =>
                      let timestamp := copy_at (zeros TimestampSize) 0 ts in
                      let h := mixHash h (mi_Timestamp msg) in
                      (* protect against replay & flood *)
                      let replay := negb (After timestamp (lastTimestamp hs)) in
                      let flood := since now (lastInitiationConsumption hs) <=? HandshakeInitationRate in
                      if replay then ret None
                      else if flood then ret None
                      else ret (Some (mkCheckedI p h ck timestamp msg))
                  end
          end
      end.

(** The rest of it, under the writing lock, which is taken anew: only the
    timestamps are looked at again. *)
Definition updateInitiation (now : Z) (v : checkedInitiation) (hs : Handshake) : Handshake :=
  let hs := hs <| hash := ci_hash v |> <| chainKey := ci_chainKey v |>
              <| remoteIndex := mi_Sender (ci_msg v) |>
              <| remoteEphemeral := mi_Ephemeral (ci_msg v) |> in
  let hs := if After (ci_timestamp v) (lastTimestamp hs)
            then hs <| lastTimestamp := ci_timestamp v |> else hs in
  let hs := if afterTime now (lastInitiationConsumption hs)
            then hs <| lastInitiationConsumption := Some now |> else hs in
  hs <| hs_state := handshakeInitiationConsumed |>.
Definition recordInitiation (v : checkedInitiation) : M unit :=
  let* x := getPeer (ci_peer v) in
  let* now := getNow in
  setHs (ci_peer v) (updateInitiation now v (handshake x)).

(** A call that no other one overlaps. *)
Definition ConsumeMessageInitiation (msg : MessageInitiation) : M (option peer_id) :=
  let* v := checkInitiation msg in
  match v with
  | None => ret None
  | Some v => recordInitiation v;;; ret (Some (ci_peer v))
  end.

(** ** Response *)

Definition CreateMessageResponse (p : peer_id) : M (option MessageResponse) :=
  let* x := getPeer p in
  let h := handshake x in
  if negb (bool_decide (hs_state h = handshakeInitiationConsumed)) then ret None
  else
    (* assign index *)
    indexDelete (localIndex h);;;
    let* '(idx, ok) := NewIndexForHandshake p p in
    let h := h <| localIndex := idx |> in
    if negb ok then setHs p h;;; ret None
    else
      (* create ephemeral key *)
      let* r := randRead in
      let '(sk, ok) := newPrivateKey r in
      let h := h <| localEphemeral := sk |> in
      if negb ok then setHs p h;;; ret None
      else
        let eph := publicKey (localEphemeral h) in
        let h := hsMixKey eph (hsMixHash eph h) in
        let '(ss, ok) := sharedSecret (localEphemeral h) (remoteEphemeral h) in
        if negb ok then setHs p h;;; ret None
        else
          let h := hsMixKey ss h in
          let '(ss, ok) := sharedSecret (localEphemeral h) (remoteStatic h) in
          if negb ok then setHs p h;;; ret None
          else
            let h := hsMixKey ss h in
            (* add preshared key *)
            let '(ck, tau, key) := KDF3 (chainKey h) (presharedKey h) in
            let h := hsMixHash tau (h <| chainKey := ck |>) in
            let empty := aead_seal key ZeroNonce [] (hash h) in
            let h := hsMixHash empty h <| hs_state := handshakeResponseCreated |> in
            setHs p h;;;
            ret (Some (mkResponse MessageResponseType idx (remoteIndex h) eph empty
                         (zeros 16) (zeros 16))).

(** What the check of a response leaves: the handshake, its peer and the keys. *)
Record checkedResponse := mkCheckedR {
  cr_handshake : peer_id; cr_peer : option peer_id; cr_hash : bytes; cr_chainKey : bytes; cr_msg : MessageResponse }.

(** [ConsumeMessageResponse] up to the release of the reading lock. *)
Definition checkResponse (msg : MessageResponse) : M (option checkedResponse) :=
  if negb (mr_Type msg =? MessageResponseType) then ret None
  else
    (* lookup handshake by receiver *)
    let* lookup := indexLookup (mr_Receiver msg) in
    match it_handshake lookup with
    | None => ret None
    | Some p =>
        let* x := getPeer p in
        let* d := getD in
        let hs := handshake x in
        if negb (bool_decide (hs_state hs = handshakeInitiationCreated)) then ret None
        else
          (* finish 3-way DH *)
          let h := mixHash (hash hs) (mr_Ephemeral msg) in
          let ck := mixKey (chainKey hs) (mr_Ephemeral msg) in
          let '(ss, ok) := sharedSecret (localEphemeral hs) (mr_Ephemeral msg) in
          if negb ok then ret None
          else
            let ck := mixKey ck ss in
            let '(ss, ok) := sharedSecret (d_privateKey d) (mr_Ephemeral msg) in
            if negb ok then ret None
            else
              let ck := mixKey ck ss in
              (* add preshared key (psk) *)
              let '(ck, tau, key) := KDF3 ck (presharedKey hs) in
              let h := mixHash h tau in
              (* authenticate transcript *)
              match aead_open key ZeroNonce (mr_Empty msg) h with
              | None => ret None
              | Some _ => ret (Some (mkCheckedR p (it_peer lookup) (mixHash h (mr_Empty msg)) ck msg))
              end
    end.

(** The update, under the writing lock, of whatever state the handshake is in by then. *)
Definition updateResponse (v : checkedResponse) (hs : Handshake) : Handshake :=
  hs <| hash := cr_hash v |> <| chainKey := cr_chainKey v |> <| remoteIndex := mr_Sender (cr_msg v) |>
     <| hs_state := handshakeResponseConsumed |>.
Definition recordResponse (v : checkedResponse) : M unit :=
  let* x := getPeer (cr_handshake v) in
  setHs (cr_handshake v) (updateResponse v (handshake x)).

(** A call that no other one overlaps. *)
Definition ConsumeMessageResponse (msg : MessageResponse) : M (option peer_id) :=
  let* v := checkResponse msg in
  match v with
  | None => ret None
  | Some v => recordResponse v;;; ret (cr_peer v)
  end.

End Handshake.

(** ** The handshake as the Noise specification states it *)

Section Spec.
Context `{C : Crypto}.

(** Chaining key and transcript hash after the initiation, from the public
    transcript and the two shared secrets. *)
Definition initCk (E es ss : bytes) : bytes :=
  (KDF2 (KDF2 (mixKey InitialChainKey E) es).1 ss).1.
Definition staticKey (E es : bytes) : bytes := (KDF2 (mixKey InitialChainKey E) es).2.
Definition stampKey (E es ss : bytes) : bytes :=
  (KDF2 (KDF2 (mixKey InitialChainKey E) es).1 ss).2.
Definition hashE (Sr E : bytes) : bytes := mixHash (mixHash InitialHash Sr) E.
Definition initHash (Sr E static ts : bytes) : bytes := mixHash (mixHash (hashE Sr E) static) ts.

(** The same after the response. *)
Definition respCk0 (ck E ee se : bytes) : bytes := mixKey (mixKey (mixKey ck E) ee) se.
Definition respKdf (ck E ee se psk : bytes) : bytes * bytes * bytes := KDF3 (respCk0 ck E ee se) psk.
Definition respCk (ck E ee se psk : bytes) : bytes := (respKdf ck E ee se psk).1.1.
Definition respKey (ck E ee se psk : bytes) : bytes := (respKdf ck E ee se psk).2.
Definition respHash0 (ck h E ee se psk : bytes) : bytes :=
  mixHash (mixHash h E) (respKdf ck E ee se psk).1.2.

(** The initiation a party writes. *)
Definition initiationOf (sender : Z) (e Si Sr ss ts : bytes) : MessageInitiation :=
  let E := publicKey e in
  let es := scalarMult e Sr in
  let static := aead_seal (staticKey E es) ZeroNonce Si (hashE Sr E) in
  mkInitiation MessageInitiationType sender E static
    (aead_seal (stampKey E es ss) ZeroNonce ts (mixHash (hashE Sr E) static))
    (zeros 16) (zeros 16).

Definition responseOf (sender receiver : Z) (ck h e Ei Si psk : bytes) : MessageResponse :=
  let E := publicKey e in
  let ee := scalarMult e Ei in
  let se := scalarMult e Si in
  mkResponse MessageResponseType sender receiver E
    (aead_seal (respKey ck E ee se psk) ZeroNonce [] (respHash0 ck h E ee se psk))
    (zeros 16) (zeros 16).

(** ** What each step does when nothing fails *)

Lemma CreateMessageInitiation_runs w p x e idx t rnd rest :
  d_peers (dev w) !! p = Some x -> w_rand w = Some e :: rnd ->
  newIndex rnd (tableDelete (localIndex (handshake x)) (d_indexTable (dev w))) p p
    = (idx, true, t, rest) ->
  let h := handshake x in
  let sk := clamp (copy_at zeroKey 0 e) in
  isZero (scalarMult sk (remoteStatic h)) = false ->
  isZero (precomputedStaticStatic h) = false ->
  let msg := initiationOf idx sk (d_publicKey (dev w)) (remoteStatic h)
               (precomputedStaticStatic h) (stamp (timeAt (w_now w))) in
  let h' := mkHandshake handshakeInitiationCreated
      (initHash (remoteStatic h) (publicKey sk) (mi_Static msg) (mi_Timestamp msg))
      (initCk (publicKey sk) (scalarMult sk (remoteStatic h)) (precomputedStaticStatic h))
      (presharedKey h) sk idx (remoteIndex h) (remoteStatic h) (remoteEphemeral h)
      (precomputedStaticStatic h) (lastTimestamp h) (lastInitiationConsumption h)
      (lastSentHandshake h) in
  runs (CreateMessageInitiation p) w (fun m w' => m = Some msg /\
    w' = w <| w_rand := rest |> <| dev ::= fun d => d <| d_indexTable := t |>
           <| d_peers ::= <[p := x <| handshake := h' |>]> |> |>).
Proof.
  intros Ex Er Ei h sk Hes Hss msg h'. unfold CreateMessageInitiation.
  do 7 wstep. eapply runs_randRead; [exact Er|].
  cbn [newPrivateKey negb]. unfold sharedSecret.
  replace (isZero _) with false by (symmetry; exact Hes). cbn [negb KDF2].
  replace (isZero _) with false by (symmetry; exact Hss).
  wstep. unfold indexDelete. do 2 wstep.
  eapply runs_NewIndex; [exact Ei|]. cbn [negb]. unfold setHs. do 3 wstep.
  split; reflexivity.
Qed.

Lemma checkInitiation_runs `{CL : !CryptoLaws C} w p x sender e Si ss ts :
  let Sr := d_publicKey (dev w) in
  let E := publicKey e in
  let msg := initiationOf sender e Si Sr ss ts in
  let h := handshake x in
  scalarMult (d_privateKey (dev w)) E = scalarMult e Sr ->
  isZero (scalarMult e Sr) = false -> length Si = 32%nat -> length ts = TimestampSize ->
  d_keyMap (dev w) !! Si = Some p -> d_peers (dev w) !! p = Some x -> isRunning x = true ->
  precomputedStaticStatic h = ss -> isZero ss = false ->
  After ts (lastTimestamp h) = true ->
  since (w_now w) (lastInitiationConsumption h) > HandshakeInitationRate ->
  runs (checkInitiation msg) w (fun r w' => w' = w /\
    r = Some (mkCheckedI p (initHash Sr E (mi_Static msg) (mi_Timestamp msg)) (initCk E (scalarMult e Sr) ss) ts msg)).
Proof.
  intros Sr E msg h Hdh Hes HSi Hts Hk Ex Hrun Hss Hz Haf Hfl.
  assert (forall n (l : bytes), length l = n -> copy_at (zeros n) 0 l = l) as Hcopy.
  { intros n l <-. unfold copy_at, zeros. rewrite length_replicate, Nat.sub_0_r, Nat.min_id.
    by rewrite firstn_all, drop_ge, app_nil_r by (by rewrite length_replicate). }
  unfold checkInitiation, msg, initiationOf.
  cbn [mi_Type mi_Ephemeral mi_Static mi_Timestamp mi_Sender].
  rewrite Z.eqb_refl. cbn [negb]. do 4 wstep.
  unfold sharedSecret. fold E. rewrite Hdh, Hes. cbn [negb KDF2].
  fold Sr E. unfold staticKey, hashE. cbn [KDF2 snd].
  rewrite aead_open_seal. unfold zeroKey. rewrite Hcopy by done. rewrite Hk.
  do 2 wstep. rewrite Hrun. fold h. rewrite Hss, Hz. cbn [negb]. unfold stampKey. cbn [KDF2 fst snd].
  rewrite aead_open_seal, Hcopy by done. rewrite Haf. cbn [negb].
  destruct (Z.leb_spec (since (w_now w) (lastInitiationConsumption h)) HandshakeInitationRate); [lia|].
  wstep. by split.
Qed.

Lemma recordInitiation_runs w v x (Q : unit -> World -> Prop) : d_peers (dev w) !! ci_peer v = Some x ->
  Q tt (w <| dev ::= fun d => d <| d_peers ::= <[ci_peer v := x <| handshake := updateInitiation (w_now w) v (handshake x) |>]> |> |>) ->
  runs (recordInitiation v) w Q.
Proof. intros Ex HQ. unfold recordInitiation. do 4 wstep. unfold setHs. by wstep. Qed.

Lemma ConsumeMessageInitiation_runs `{CL : !CryptoLaws C} w p x sender e Si ss ts :
  let Sr := d_publicKey (dev w) in
  let E := publicKey e in
  let msg := initiationOf sender e Si Sr ss ts in
  let h := handshake x in
  scalarMult (d_privateKey (dev w)) E = scalarMult e Sr ->
  isZero (scalarMult e Sr) = false -> length Si = 32%nat -> length ts = TimestampSize ->
  d_keyMap (dev w) !! Si = Some p -> d_peers (dev w) !! p = Some x -> isRunning x = true ->
  precomputedStaticStatic h = ss -> isZero ss = false ->
  After ts (lastTimestamp h) = true ->
  since (w_now w) (lastInitiationConsumption h) > HandshakeInitationRate ->
  runs (ConsumeMessageInitiation msg) w (fun r w' => r = Some p /\
    exists t, w' = w <| dev ::= fun d => d <| d_peers ::= <[p := x <| handshake := h
      <| hash := initHash Sr E (mi_Static msg) (mi_Timestamp msg) |>
      <| chainKey := initCk E (scalarMult e Sr) ss |>
      <| remoteIndex := sender |> <| remoteEphemeral := E |>
      <| lastTimestamp := ts |> <| lastInitiationConsumption := t |>
      <| hs_state := handshakeInitiationConsumed |> |>]> |> |>).
Proof.
  intros Sr E msg h Hdh Hes HSi Hts Hk Ex Hrun Hss Hz Haf Hfl. unfold ConsumeMessageInitiation. wstep.
  eapply runs_mono; [by eapply checkInitiation_runs|]. intros r w' [-> ->]. wstep.
  eapply recordInitiation_runs; [exact Ex|]. wstep. split; [reflexivity|].
  unfold updateInitiation. cbn [ci_peer ci_hash ci_chainKey ci_timestamp ci_msg].
  replace (After ts (lastTimestamp _)) with true by (symmetry; exact Haf).
  destruct (afterTime _ _); eexists; reflexivity.
Qed.

Lemma CreateMessageResponse_runs w p x e idx t rest :
  d_peers (dev w) !! p = Some x -> hs_state (handshake x) = handshakeInitiationConsumed ->
  newIndex (w_rand w) (tableDelete (localIndex (handshake x)) (d_indexTable (dev w))) p p
    = (idx, true, t, Some e :: rest) ->
  let h := handshake x in
  let sk := clamp (copy_at zeroKey 0 e) in
  isZero (scalarMult sk (remoteEphemeral h)) = false ->
  isZero (scalarMult sk (remoteStatic h)) = false ->
  let msg := responseOf idx (remoteIndex h) (chainKey h) (hash h) sk (remoteEphemeral h)
               (remoteStatic h) (presharedKey h) in
  let h' := h <| localIndex := idx |> <| localEphemeral := sk |>
    <| chainKey := respCk (chainKey h) (publicKey sk) (scalarMult sk (remoteEphemeral h))
                     (scalarMult sk (remoteStatic h)) (presharedKey h) |>
    <| hash := mixHash (respHash0 (chainKey h) (hash h) (publicKey sk)
                 (scalarMult sk (remoteEphemeral h)) (scalarMult sk (remoteStatic h))
                 (presharedKey h)) (mr_Empty msg) |>
    <| hs_state := handshakeResponseCreated |> in
  runs (CreateMessageResponse p) w (fun m w' => m = Some msg /\
    w' = w <| w_rand := rest |> <| dev ::= fun d => d <| d_indexTable := t |>
           <| d_peers ::= <[p := x <| handshake := h' |>]> |> |>).
Proof.
  intros Ex Hst Ei h sk Hee Hse msg h'. unfold CreateMessageResponse.
  do 2 wstep. rewrite Hst. cbn [negb bool_decide decide_rel]. rewrite bool_decide_eq_true_2 by done.
  cbn [negb]. wstep. unfold indexDelete. do 2 wstep. eapply runs_NewIndex; [exact Ei|].
  cbn [negb]. wstep. eapply runs_randRead; [reflexivity|]. cbn [newPrivateKey negb].
  unfold sharedSecret.
  replace (isZero _) with false by (symmetry; exact Hee). cbn [negb].
  replace (isZero _) with false by (symmetry; exact Hse). cbn [negb KDF3].
  unfold setHs. do 3 wstep. split; reflexivity.
Qed.

Lemma ConsumeMessageResponse_runs `{CL : !CryptoLaws C} w p x sender receiver er entry :
  let h := handshake x in
  let Er := publicKey er in
  d_indexTable (dev w) !! receiver = Some entry -> it_handshake entry = Some p ->
  it_peer entry = Some p ->
  d_peers (dev w) !! p = Some x -> hs_state h = handshakeInitiationCreated ->
  let Ei := publicKey (localEphemeral h) in
  let Si := publicKey (d_privateKey (dev w)) in
  isZero (scalarMult er Ei) = false -> isZero (scalarMult er Si) = false ->
  let msg := responseOf sender receiver (chainKey h) (hash h) er Ei Si (presharedKey h) in
  runs (ConsumeMessageResponse msg) w (fun r w' => r = Some p /\
    exists h2, w' = w <| dev ::= fun d => d <| d_peers ::= <[p := x <| handshake := h
        <| hash := h2 |>
        <| chainKey := respCk (chainKey h) Er (scalarMult er Ei) (scalarMult er Si) (presharedKey h) |>
        <| remoteIndex := sender |> <| hs_state := handshakeResponseConsumed |> |>]> |> |>).
Proof.
  intros h Er Et Eh Ep Ex Hst Ei Si Hee Hse msg.
  assert (runs (checkResponse msg) w (fun r w' => w' = w /\ exists h2, r = Some (mkCheckedR p (Some p) h2
    (respCk (chainKey h) Er (scalarMult er Ei) (scalarMult er Si) (presharedKey h)) msg))) as Hcheck.
  { unfold checkResponse, msg, responseOf.
  cbn [mr_Type mr_Receiver mr_Ephemeral mr_Empty mr_Sender].
  rewrite Z.eqb_refl. cbn [negb]. wstep.
  eapply runs_indexLookup; [exact Et|]. rewrite Eh, Ep. do 4 wstep. fold h.
  rewrite bool_decide_eq_true_2 by done. cbn [negb]. unfold sharedSecret.
  assert (scalarMult (localEphemeral h) (publicKey er) = scalarMult er Ei) as Hdh1
    by apply scalarMult_agree.
  assert (scalarMult (d_privateKey (dev w)) (publicKey er) = scalarMult er Si) as Hdh2
    by apply scalarMult_agree.
  rewrite Hdh1, Hdh2, Hee, Hse. cbn [negb].
  destruct (KDF3 _ _) as [[ck tau] key] eqn:EK. unfold respKey, respHash0, respKdf, respCk0.
  rewrite EK. cbn [fst snd]. rewrite aead_open_seal.
  wstep. split; [done|]. eexists.
  unfold respCk, respKdf, respCk0. fold Er in EK. rewrite EK. reflexivity. }
  unfold ConsumeMessageResponse. wstep. eapply runs_mono; [exact Hcheck|]. intros r w' [-> [h2 ->]]. wstep.
  unfold recordResponse, setHs. cbn [cr_handshake]. do 3 wstep. wstep. split; [reflexivity|]. by exists h2.
Qed.

End Spec.
