(* ===== verification/Session.v ===== *)
(** The derivation of session keys and the rotation of keypairs, the last part
    of [device/noise-protocol.go], and the agreement of the two ends. *)
From S2P Require Import Prelude Replay Tai64n Messages NoiseHelpers ToyCrypto Cookie.
From S2P Require Import State IndexTable Handshake.

Section Session.
Context `{C : Crypto}.

(** ** Sessions *)

Definition newKeypair (k : Keypair) : M kp_id := fun w =>
  let id := fresh (dom (d_keypairs (dev w))) in
  Some (id, w <| dev ::= fun d => d <| d_keypairs ::= <[id := k]> |> |>).

Definition BeginSymmetricSession (p : peer_id) : M bool :=
  let* x := getPeer p in
  let* now := getNow in
  let hs := handshake x in
  (* derive keys *)
  let derived :=
    match hs_state hs with
    | handshakeResponseConsumed =>
        let '(sendKey, recvKey) := KDF2 (chainKey hs) [] in Some (true, sendKey, recvKey)
    | handshakeResponseCreated =>
        let '(recvKey, sendKey) := KDF2 (chainKey hs) [] in Some (false, sendKey, recvKey)
    | _ => None
    end in
  match derived with
  | None => ret false
  | Some (initiator, sendKey, recvKey) =>
      (* zero handshake *)
      let hs := hs <| chainKey ::= setZero |> <| hash ::= setZero |>
                  <| localEphemeral ::= setZero |> <| hs_state := handshakeZeroed |> in
      (* create AEAD instances *)
      let* keypair := newKeypair (mkKeypair 0 sendKey recvKey (Reset zeroFilter) initiator now
                                    (localIndex hs) (remoteIndex hs)) in
      (* remap index *)
      SwapIndexForKeypair (localIndex hs) keypair;;;
      setHs p (hs <| localIndex := 0 |>);;;
      (* rotate key pairs *)
      let kps := keypairs x in
      let prev := previous kps in
      let nxt := next kps in
      let cur := current kps in
      if initiator then
        match nxt with
        | Some _ =>
            modPeer p (fun x => x <| keypairs ::= fun k => k <| next := None |> <| previous := nxt |> |>);;;
            DeleteKeypair cur
        | None => modPeer p (fun x => x <| keypairs ::= fun k => k <| previous := cur |> |>)
        end;;;
        DeleteKeypair prev;;;
        modPeer p (fun x => x <| keypairs ::= fun k => k <| current := Some keypair |> |>);;;
        ret true
      else
        modPeer p (fun x => x <| keypairs ::= fun k => k <| next := Some keypair |> |>);;;
        DeleteKeypair nxt;;;
        modPeer p (fun x => x <| keypairs ::= fun k => k <| previous := None |> |>);;;
        DeleteKeypair prev;;;
        ret true
  end.

Definition ReceivedWithKeypair (p : peer_id) (received : kp_id) : M bool :=
  let* x := getPeer p in
  let kps := keypairs x in
  if negb (bool_decide (next kps = Some received)) then ret false
  else
    let old := previous kps in
    modPeer p (fun x => x <| keypairs ::= fun k => k <| previous := current k |> |>);;;
    DeleteKeypair old;;;
    modPeer p (fun x => x <| keypairs ::= fun k => k <| current := next k |> <| next := None |> |>);;;
    ret true.

End Session.

(** ** Lemmas *)

Section Lemmas.
Context `{C : Crypto}.

(** The keypairs a peer holds. *)
Definition slots (k : Keypairs) : list kp_id :=
  omap id [current k; previous k; next k].

Definition slotsValid (x : Peer) (w : World) : Prop :=
  forall k, k ∈ slots (keypairs x) -> is_Some (d_keypairs (dev w) !! k).

(** Removing the index of a keypair from the table. *)
Definition unregister (kps : gmap kp_id Keypair) (o : option kp_id) (t : IndexTable) : IndexTable :=
  match o with
  | None => t
  | Some k => match kps !! k with Some kp => tableDelete (kp_localIndex kp) t | None => t end
  end.

Lemma DeleteKeypair_runs o w Q :
  (forall k, o = Some k -> is_Some (d_keypairs (dev w) !! k)) ->
  Q tt (w <| dev ::= fun d => d <| d_indexTable ::= unregister (d_keypairs (dev w)) o |> |>) ->
  runs (DeleteKeypair o) w Q.
Proof.
  intros Hv HQ. destruct o as [k|]; cbn [DeleteKeypair].
  - destruct (Hv k eq_refl) as [kp E]. unfold unregister in HQ. rewrite E in HQ.
    wstep. wstep. unfold indexDelete. wstep. apply HQ.
  - wstep. by destruct w as [[] ? ? ? ? ?].
Qed.

(** [DeleteKeypair] of a slot, given that the slots hold allocated keypairs. *)
Ltac wdel H :=
  apply DeleteKeypair_runs; [let k := fresh in intros k; apply H; set_solver|]; cbv beta.

(** The session a derived keypair holds. *)
Definition sessionOf (initiator : bool) (ck : bytes) (now li ri : Z) : Keypair :=
  let '(a, b) := KDF2 ck [] in
  mkKeypair 0 (if initiator then a else b) (if initiator then b else a)
    (Reset zeroFilter) initiator now li ri.

(** The rotation of the slots, and the keypairs it drops in order. *)
Definition rotated (initiator : bool) (k : kp_id) (kps : Keypairs) : Keypairs :=
  if initiator then
    mkKeypairs (Some k) (match next kps with Some n => Some n | None => current kps end) None
  else mkKeypairs (current kps) None (Some k).

Definition dropped (initiator : bool) (kps : Keypairs) : list (option kp_id) :=
  if initiator then
    match next kps with Some _ => [current kps; previous kps] | None => [previous kps] end
  else [next kps; previous kps].

Definition unregisterAll (kps : gmap kp_id Keypair) (os : list (option kp_id)) (t : IndexTable)
    : IndexTable := foldl (fun t o => unregister kps o t) t os.

Definition endedHandshake (h : Handshake) : Handshake :=
  h <| chainKey ::= setZero |> <| hash ::= setZero |> <| localEphemeral ::= setZero |>
    <| hs_state := handshakeZeroed |> <| localIndex := 0 |>.

Lemma BeginSymmetricSession_runs p w x (b : bool) :
  d_peers (dev w) !! p = Some x -> slotsValid x w ->
  hs_state (handshake x) = (if b then handshakeResponseConsumed else handshakeResponseCreated) ->
  let h := handshake x in
  let k := fresh (dom (d_keypairs (dev w))) in
  let kps := <[k := sessionOf b (chainKey h) (w_now w) (localIndex h) (remoteIndex h)]>
               (d_keypairs (dev w)) in
  runs (BeginSymmetricSession p) w (fun r w' => r = true /\
    w' = w <| dev ::= fun d => d <| d_keypairs := kps |>
      <| d_indexTable ::= fun t => unregisterAll kps (dropped b (keypairs x))
                                     (tableSwap (localIndex h) k t) |>
      <| d_peers ::= <[p := x <| handshake := endedHandshake h |>
                             <| keypairs ::= rotated b k |>]> |> |>).
Proof.
  intros Ex Hv Hst h k kps. unfold BeginSymmetricSession. do 4 wstep. rewrite Hst.
  assert (forall v o k', o ∈ [current (keypairs x); previous (keypairs x); next (keypairs x)] ->
    o = Some k' -> is_Some (<[k := v]> (d_keypairs (dev w)) !! k')) as Hdel.
  { intros v o k' Ho ->. rewrite lookup_insert_is_Some. destruct (decide (k = k')); [by left|].
    right. split; [done|]. apply Hv, list_elem_of_omap. eauto. }
  destruct b; cbn [KDF2]; wstep; unfold runs at 1, newKeypair; fold k;
    unfold SwapIndexForKeypair, setHs; do 4 wstep.
  - apply runs_bind. unfold dropped, rotated. destruct (next (keypairs x)) as [nk|] eqn:Enext; wstep; wstep.
    + wdel Hdel.
      wstep. wdel Hdel.
      do 3 wstep. split; [done|]. cbn. rewrite !insert_insert_eq, Enext. reflexivity.
    + wdel Hdel.
      do 3 wstep. split; [done|]. cbn. rewrite !insert_insert_eq, Enext. reflexivity.
  - wstep. wstep. wstep. wdel Hdel.
    do 3 wstep. wdel Hdel.
    wstep. split; [done|]. cbn. rewrite !insert_insert_eq. reflexivity.
Qed.

Lemma scalarMult_public_comm `{CL : !CryptoLaws C} a b :
  scalarMult a (publicKey b) = scalarMult b (publicKey a).
Proof. apply scalarMult_agree. Qed.

(** Device [A] has a peer [b] for device [B], and [B] a peer [a] for [A]. *)
Record introduced (wA : World) (b : peer_id) (xA : Peer) (wB : World) (a : peer_id) (xB : Peer)
    : Prop := {
  in_peerA : d_peers (dev wA) !! b = Some xA;
  in_peerB : d_peers (dev wB) !! a = Some xB;
  in_running : isRunning xB = true;
  in_keyMap : d_keyMap (dev wB) !! d_publicKey (dev wA) = Some a;
  in_pubA : d_publicKey (dev wA) = publicKey (d_privateKey (dev wA));
  in_pubB : d_publicKey (dev wB) = publicKey (d_privateKey (dev wB));
  in_staticA : remoteStatic (handshake xA) = d_publicKey (dev wB);
  in_staticB : remoteStatic (handshake xB) = d_publicKey (dev wA);
  in_psk : presharedKey (handshake xA) = presharedKey (handshake xB);
  in_ssA : precomputedStaticStatic (handshake xA)
             = scalarMult (d_privateKey (dev wA)) (d_publicKey (dev wB));
  in_ssB : precomputedStaticStatic (handshake xB)
             = scalarMult (d_privateKey (dev wB)) (d_publicKey (dev wA));
  in_slotsA : slotsValid xA wA;
  in_slotsB : slotsValid xB wB }.

(** The answers of the random source suffice: one for the ephemeral key, and
    some that give a free index; the Diffie-Hellman results are usable. *)
Record supplied (wA : World) (xA : Peer) (b : peer_id) (wB : World) (xB : Peer) (a : peer_id)
    (eA eB : bytes) (iA iB : Z) : Prop := {
  su_rndA : exists rnd t rest, w_rand wA = Some eA :: rnd /\
    newIndex rnd (tableDelete (localIndex (handshake xA)) (d_indexTable (dev wA))) b b
      = (iA, true, t, rest);
  su_rndB : exists t rest,
    newIndex (w_rand wB) (tableDelete (localIndex (handshake xB)) (d_indexTable (dev wB))) a a
      = (iB, true, t, Some eB :: rest);
  su_es : isZero (scalarMult (clamp (copy_at zeroKey 0 eA)) (d_publicKey (dev wB))) = false;
  su_ss : isZero (scalarMult (d_privateKey (dev wA)) (d_publicKey (dev wB))) = false;
  su_ee : isZero (scalarMult (clamp (copy_at zeroKey 0 eB))
            (publicKey (clamp (copy_at zeroKey 0 eA)))) = false;
  su_se : isZero (scalarMult (clamp (copy_at zeroKey 0 eB)) (d_publicKey (dev wA))) = false }.

(** [B] has seen no newer initiation of [A], nor one in the last interval. *)
Definition acceptable (wA wB : World) (xB : Peer) : Prop :=
  After (stamp (timeAt (w_now wA))) (lastTimestamp (handshake xB)) = true /\
  since (w_now wB) (lastInitiationConsumption (handshake xB)) > HandshakeInitationRate.

Lemma clamp_copy_length b : length (clamp (copy_at zeroKey 0 b)) = 32%nat.
Proof. unfold clamp. rewrite !length_insert. apply length_copy_at. lia. Qed.

(** The responder's half: from an initiation of a peer it knows to its keypair. *)
Lemma responder_runs `{CL : !CryptoLaws C} w p x iA e Si ts eB iB t rest :
  let sk := clamp (copy_at zeroKey 0 eB) in
  let Sr := d_publicKey (dev w) in
  let es := scalarMult e Sr in
  let ss := precomputedStaticStatic (handshake x) in
  let psk := presharedKey (handshake x) in
  let mi := initiationOf iA e Si Sr ss ts in
  let ck := initCk (publicKey e) es ss in
  let h := initHash Sr (publicKey e) (mi_Static mi) (mi_Timestamp mi) in
  Sr = publicKey (d_privateKey (dev w)) -> isZero es = false -> isZero ss = false ->
  length Si = 32%nat -> length ts = TimestampSize ->
  d_keyMap (dev w) !! Si = Some p -> d_peers (dev w) !! p = Some x -> isRunning x = true ->
  remoteStatic (handshake x) = Si -> slotsValid x w ->
  After ts (lastTimestamp (handshake x)) = true ->
  since (w_now w) (lastInitiationConsumption (handshake x)) > HandshakeInitationRate ->
  newIndex (w_rand w) (tableDelete (localIndex (handshake x)) (d_indexTable (dev w))) p p
    = (iB, true, t, Some eB :: rest) ->
  isZero (scalarMult sk (publicKey e)) = false -> isZero (scalarMult sk Si) = false ->
  exists w1 w2 w3 y k,
    ConsumeMessageInitiation mi w = Some (Some p, w1) /\
    CreateMessageResponse p w1
      = Some (Some (responseOf iB iA ck h sk (publicKey e) Si psk), w2) /\
    BeginSymmetricSession p w2 = Some (true, w3) /\
    d_peers (dev w3) !! p = Some y /\ next (keypairs y) = Some k /\
    d_keypairs (dev w3) !! k = Some (sessionOf false
      (respCk ck (publicKey sk) (scalarMult sk (publicKey e)) (scalarMult sk Si) psk)
      (w_now w) iB iA).
Proof.
  intros sk Sr es ss psk mi ck h HSr Hes Hss HSi Hts Hk Ex Hrun Hst Hv Haf Hfl Ei Hee Hse.
  destruct (runs_exists _ _ _ (ConsumeMessageInitiation_runs w p x iA e Si ss ts
    ltac:(fold Sr; rewrite HSr; apply scalarMult_public_comm) Hes HSi Hts Hk Ex Hrun eq_refl Hss Haf Hfl))
    as (r1 & w1 & R1 & -> & tc & E1).
  fold mi Sr h es ck in E1. eexists w1.
  match type of E1 with _ = _ <| dev ::= fun d => d <| d_peers ::= <[p := ?y]> |> |> => set (x1 := y) in E1 end.
  assert (d_peers (dev w1) !! p = Some x1) as Ex1 by (rewrite E1; wlookup).
  destruct (runs_exists _ _ _ (CreateMessageResponse_runs w1 p x1 eB iB t rest Ex1 eq_refl
    ltac:(rewrite E1; exact Ei) Hee ltac:(cbn; rewrite Hst; exact Hse)))
    as (r2 & w2 & R2 & -> & E2).
  exists w2.
  match type of E2 with _ = _ <| dev ::= fun d => d <| d_indexTable := _ |> <| d_peers ::= <[p := ?y]> |> |> =>
    set (x2 := y) in E2 end.
  assert (d_peers (dev w2) !! p = Some x2) as Ex2 by (rewrite E2; apply lookup_insert_eq).
  destruct (runs_exists _ _ _ (BeginSymmetricSession_runs p w2 x2 false Ex2
    ltac:(rewrite E2, E1; exact Hv) eq_refl)) as (r3 & w3 & R3 & -> & E3).
  eexists w3, _, _. split_and!; [exact R1| |exact R3|rewrite E3; wlookup|reflexivity|].
  - rewrite R2. cbn. by rewrite Hst.
  - assert (w_now w2 = w_now w) as Hnow by (by rewrite E2, E1).
    assert (remoteStatic (handshake x1) = Si) as Hst1 by exact Hst.
    rewrite E3, <- Hst1, <- Hnow. cbn [dev set_field]. apply lookup_insert_eq.
Qed.

(** The initiator's half, from the response to the initiation it has sent. *)
Lemma initiator_runs `{CL : !CryptoLaws C} w p x iA iB er entry :
  let h := handshake x in
  let Ei := publicKey (localEphemeral h) in
  let Si := publicKey (d_privateKey (dev w)) in
  let mr := responseOf iB iA (chainKey h) (hash h) er Ei Si (presharedKey h) in
  d_indexTable (dev w) !! iA = Some entry -> it_handshake entry = Some p ->
  it_peer entry = Some p -> d_peers (dev w) !! p = Some x -> slotsValid x w ->
  hs_state h = handshakeInitiationCreated -> localIndex h = iA ->
  isZero (scalarMult er Ei) = false -> isZero (scalarMult er Si) = false ->
  exists w1 w2 y k,
    ConsumeMessageResponse mr w = Some (Some p, w1) /\
    BeginSymmetricSession p w1 = Some (true, w2) /\
    d_peers (dev w2) !! p = Some y /\ current (keypairs y) = Some k /\
    d_keypairs (dev w2) !! k = Some (sessionOf true
      (respCk (chainKey h) (publicKey er) (scalarMult er Ei) (scalarMult er Si) (presharedKey h))
      (w_now w) iA iB).
Proof.
  intros h Ei Si mr Et Eh Ep Ex Hv Hst <- Hee Hse.
  destruct (runs_exists _ _ _ (ConsumeMessageResponse_runs w p x iB _ er entry Et Eh Ep Ex Hst
    Hee Hse)) as (r1 & w1 & R1 & -> & h2 & E1).
  exists w1.
  match type of E1 with _ = _ <| dev ::= fun d => d <| d_peers ::= <[p := ?y]> |> |> => set (x1 := y) in E1 end.
  assert (d_peers (dev w1) !! p = Some x1) as Ex1 by (rewrite E1; apply lookup_insert_eq).
  destruct (runs_exists _ _ _ (BeginSymmetricSession_runs p w1 x1 true Ex1
    ltac:(rewrite E1; exact Hv) eq_refl)) as (r2 & w2 & R2 & -> & E2).
  eexists w2, _, _. split_and!; [exact R1|exact R2|rewrite E2; apply lookup_insert_eq|reflexivity|].
  assert (w_now w1 = w_now w) as Hnow by (by rewrite E1).
  rewrite E2, <- Hnow. cbn [dev set_field]. apply lookup_insert_eq.
Qed.

End Lemmas.

(** ** Properties *)

Section Properties.
Context `{CL : CryptoLaws}.

(** C3: the four messages-and-derivations of a handshake between two devices
    that know each other all succeed, and leave the initiator with a current
    and the responder with a next keypair that are mirror images: what one
    sends with the other receives with, each addresses the other's index, and
    exactly one is the initiator. *)
Theorem handshake_agreement (wA wB : World) (a b : peer_id) (xA xB : Peer)
    (eA eB : bytes) (iA iB : Z) :
  introduced wA b xA wB a xB -> supplied wA xA b wB xB a eA eB iA iB -> acceptable wA wB xB ->
  exists mi mr wA1 wA2 wA3 wB1 wB2 wB3,
    CreateMessageInitiation b wA = Some (Some mi, wA1) /\
    ConsumeMessageInitiation mi wB = Some (Some a, wB1) /\
    CreateMessageResponse a wB1 = Some (Some mr, wB2) /\
    BeginSymmetricSession a wB2 = Some (true, wB3) /\
    ConsumeMessageResponse mr wA1 = Some (Some b, wA2) /\
    BeginSymmetricSession b wA2 = Some (true, wA3) /\
    exists yA yB kA kB sA sB,
      d_peers (dev wA3) !! b = Some yA /\ current (keypairs yA) = Some kA /\
      d_keypairs (dev wA3) !! kA = Some sA /\
      d_peers (dev wB3) !! a = Some yB /\ next (keypairs yB) = Some kB /\
      d_keypairs (dev wB3) !! kB = Some sB /\
      send sA = receive sB /\ receive sA = send sB /\
      kp_localIndex sA = kp_remoteIndex sB /\ kp_remoteIndex sA = kp_localIndex sB /\
      kp_localIndex sA = iA /\ kp_localIndex sB = iB /\
      isInitiator sA = true /\ isInitiator sB = false /\
      sendNonce sA = 0 /\ sendNonce sB = 0.
Proof.
  intros [] [(rndA & tA & restA & Er & EiA) (tB & restB & EiB) ? ? ? ?] [Haf Hfl].
  destruct (runs_exists _ _ _ (CreateMessageInitiation_runs wA b xA eA iA tA rndA restA
    in_peerA0 Er EiA ltac:(by rewrite in_staticA0) ltac:(by rewrite in_ssA0)))
    as (mi & wA1 & R1 & -> & HA1).
  rewrite in_staticA0, in_ssA0 in R1, HA1.
  pose proof (newIndex_spec _ _ _ _ _ _ _ _ EiA) as [_ HtA].
  assert (precomputedStaticStatic (handshake xB) = scalarMult (d_privateKey (dev wA))
    (d_publicKey (dev wB))) as Hss
    by (rewrite in_ssB0, in_pubA0, in_pubB0; apply scalarMult_public_comm).
  destruct (responder_runs wB a xB iA (clamp (copy_at zeroKey 0 eA)) (d_publicKey (dev wA))
    (stamp (timeAt (w_now wA))) eB iB tB restB) as (wB1 & wB2 & wB3 & yB & kB & R2 & R3 & R4 & Ey & Ek & Es);
    try done; [by rewrite Hss|rewrite in_pubA0; apply scalarBaseMult_length|].
  rewrite in_psk0, <- Hss in *.
  match type of HA1 with _ = _ <| dev ::= fun d => d <| d_indexTable := _ |> <| d_peers ::= <[b := ?y]> |> |> =>
    set (x1 := y) in HA1 end.
  destruct (initiator_runs wA1 b x1 iA iB (clamp (copy_at zeroKey 0 eB))
    (mkIndexEntry (Some b) (Some b) None)) as (wA2 & wA3 & yA & kA & R5 & R6 & Fy & Fk & Fs);
    try done; try (rewrite HA1; done).
  { rewrite HA1, HtA. apply lookup_insert_eq. }
  { rewrite HA1. apply lookup_insert_eq. }
  { rewrite HA1. cbn. by rewrite <- in_pubA0. }
  assert (publicKey (d_privateKey (dev wA1)) = d_publicKey (dev wA)) as Hpub
    by by rewrite HA1, in_pubA0.
  rewrite Hpub in R5, Fs.
  do 8 eexists. split_and!; [exact R1|exact R2|exact R3|exact R4|exact R5|exact R6|].
  exists yA, yB, kA, kB. do 2 eexists. split_and!; try eassumption; reflexivity.
Qed.

End Properties.

(** ** Witnesses *)

(** A device with key [mine] and one peer with key [theirs]. *)
Definition toyPeer (mine theirs : bytes) : Peer :=
  sample_peer true <| handshake ::= fun h => h <| remoteStatic := publicKey theirs |>
    <| precomputedStaticStatic := scalarMult mine (publicKey theirs) |> |>.

Definition toyWorld (mine theirs : bytes) (rnd : list (option bytes)) : World :=
  sample_world (1700000000 * second) (toyPeer mine theirs) <| dev ::= fun d =>
    d <| d_privateKey := mine |> <| d_publicKey := publicKey mine |> |> <| w_rand := rnd |>.

Definition keyA : bytes := clamp (replicate 32 11).
Definition keyB : bytes := clamp (replicate 32 29).
Definition toyA : World := toyWorld keyA keyB [Some (replicate 32 3); Some [1; 2; 3; 4]].
Definition toyB : World := toyWorld keyB keyA [Some [5; 6; 7; 8]; Some (replicate 32 7)].

Lemma slotsValid_none x w : keypairs x = mkKeypairs None None None -> slotsValid x w.
Proof. intros E k Hk. unfold slots in Hk. rewrite E in Hk. cbn in Hk. by apply elem_of_nil in Hk. Qed.

Lemma handshake_agreement_witness :
  exists mi mr wA1 wA2 wA3 wB1 wB2 wB3,
    CreateMessageInitiation 1 toyA = Some (Some mi, wA1) /\
    ConsumeMessageInitiation mi toyB = Some (Some 1%positive, wB1) /\
    CreateMessageResponse 1 wB1 = Some (Some mr, wB2) /\
    BeginSymmetricSession 1 wB2 = Some (true, wB3) /\
    ConsumeMessageResponse mr wA1 = Some (Some 1%positive, wA2) /\
    BeginSymmetricSession 1 wA2 = Some (true, wA3) /\
    exists yA yB kA kB sA sB,
      d_peers (dev wA3) !! 1%positive = Some yA /\ current (keypairs yA) = Some kA /\
      d_keypairs (dev wA3) !! kA = Some sA /\
      d_peers (dev wB3) !! 1%positive = Some yB /\ next (keypairs yB) = Some kB /\
      d_keypairs (dev wB3) !! kB = Some sB /\
      send sA = receive sB /\ receive sA = send sB /\
      kp_localIndex sA = kp_remoteIndex sB /\ kp_remoteIndex sA = kp_localIndex sB /\
      kp_localIndex sA = 67305985 /\ kp_localIndex sB = 134678021 /\
      isInitiator sA = true /\ isInitiator sB = false /\
      sendNonce sA = 0 /\ sendNonce sB = 0.
Proof.
  apply (handshake_agreement toyA toyB 1 1 (toyPeer keyA keyB) (toyPeer keyB keyA)
    (replicate 32 3) (replicate 32 7) 67305985 134678021).
  - split; [vm_compute; reflexivity..| |]; by apply slotsValid_none.
  - split; [do 3 eexists; split; vm_compute; reflexivity|do 2 eexists; vm_compute; reflexivity|
      vm_compute; reflexivity..].
  - split; vm_compute; reflexivity.
Defined.
