(* ===== verification/Initiations.v ===== *)
(** Sequences of handshake initiations: what [ConsumeMessageInitiation] of
    [device/noise-protocol.go] accepts over time. *)
From S2P Require Import Prelude Replay Tai64n Messages NoiseHelpers ToyCrypto Cookie.
From S2P Require Import State IndexTable Handshake Session.

(** ** Specification *)

(** The messages arrive one by one, each at its instant. *)
Section Arrivals.
Context `{C : Crypto}.

Fixpoint consumeAll (arrivals : list (Z * MessageInitiation)) : M (list (option peer_id)) :=
  match arrivals with
  | [] => ret []
  | (now, msg) :: arrivals =>
      modW (fun w => w <| w_now := now |>);;;
      let* r := ConsumeMessageInitiation msg in
      let* rs := consumeAll arrivals in
      ret (r :: rs)
  end.

(** The running peer and the timestamp an initiation authenticates. *)
Definition identify (d : Device) (msg : MessageInitiation) : option (peer_id * bytes) :=
  if negb (mi_Type msg =? MessageInitiationType) then None
  else
    let h := mixHash (mixHash InitialHash (d_publicKey d)) (mi_Ephemeral msg) in
    let ss := scalarMult (d_privateKey d) (mi_Ephemeral msg) in
    if isZero ss then None
    else
      let '(ck, key) := KDF2 (mixKey InitialChainKey (mi_Ephemeral msg)) ss in
      match aead_open key ZeroNonce (mi_Static msg) h with
      | None => None
      | Some pk =>
          match d_keyMap d !! copy_at zeroKey 0 pk with
          | None => None
          | Some p =>
              match d_peers d !! p with
              | None => None
              | Some x =>
                  if negb (isRunning x) then None
                  else if isZero (precomputedStaticStatic (handshake x)) then None
                  else
                    let '(_, key) := KDF2 ck (precomputedStaticStatic (handshake x)) in
                    match aead_open key ZeroNonce (mi_Timestamp msg) (mixHash h (mi_Static msg)) with
                    | None => None
                    | Some ts => Some (p, copy_at (zeros TimestampSize) 0 ts)
                    end
              end
          end
      end.

End Arrivals.

(** Every key of the key map is that of an existing peer. *)
Definition keyMapValid (d : Device) : Prop :=
  forall pk p, d_keyMap d !! pk = Some p -> is_Some (d_peers d !! p).

(** ** Calls that overlap *)

(** An instant of the clock, [None] before all of them. *)
Definition timeLe (a b : gotime) : Prop := forall n, a = Some n -> exists m, b = Some m /\ n <= m.

(** The peers are still there, and what is recorded of their initiations has
    not gone back. *)
Definition kept (d d' : Device) : Prop := forall p x, d_peers d !! p = Some x ->
  exists x', d_peers d' !! p = Some x'
    /\ After (lastTimestamp (handshake x)) (lastTimestamp (handshake x')) = false
    /\ timeLe (lastInitiationConsumption (handshake x)) (lastInitiationConsumption (handshake x')).

(** What a worker has done: a check, with what it let through, or an update. *)
Inductive outcome :=
  | Checked (now : Z) (msg : MessageInitiation) (v : option checkedInitiation)
  | Recorded (now : Z) (v : checkedInitiation).

Section Overlap.
Context `{C : Crypto}.

(** The workers' checks and updates in any order, each at its instant, and between
    them anything that leaves the records of initiations alone. *)
Inductive steps : World -> list (option checkedInitiation) -> list outcome -> World -> list (option checkedInitiation) -> Prop :=
| steps_end w ws : steps w ws [] w ws
| steps_check w ws now i msg v w1 out w' ws' : ws !! i = Some None ->
    checkInitiation msg (w <| w_now := now |>) = Some (v, w1) ->
    steps w1 (<[i := v]> ws) out w' ws' -> steps w ws (Checked now msg v :: out) w' ws'
| steps_record w ws now i v w1 out w' ws' : ws !! i = Some (Some v) ->
    recordInitiation v (w <| w_now := now |>) = Some (tt, w1) ->
    steps w1 (<[i := None]> ws) out w' ws' -> steps w ws (Recorded now v :: out) w' ws'
| steps_other w ws w1 out w' ws' : keyMapValid (dev w1) -> kept (dev w) (dev w1) ->
    steps w1 ws out w' ws' -> steps w ws out w' ws'.

(** The updates for one timestamp of a peer. *)
Definition isFor (p : peer_id) (ts : bytes) (v : checkedInitiation) : bool :=
  bool_decide (ci_peer v = p /\ ci_timestamp v = ts).
Definition accepted (p : peer_id) (ts : bytes) (out : list outcome) : Z :=
  countBy (fun o => match o with Recorded _ v => isFor p ts v | _ => false end) out.
Definition holding (p : peer_id) (ts : bytes) (ws : list (option checkedInitiation)) : Z :=
  countBy (fun o => match o with Some v => isFor p ts v | None => false end) ws.
End Overlap.

(** ** Lemmas *)

Lemma bytes_compare_refl a : bytes_compare a a = Eq.
Proof. induction a as [|x a IH]; simpl; [done|]. by rewrite Z.compare_refl. Qed.

Lemma bytes_compare_trans a b c :
  bytes_compare a b = Gt -> bytes_compare b c = Gt -> bytes_compare a c = Gt.
Proof.
  revert b c. induction a as [|x a IH]; intros [|y b] [|z c]; simpl; try done.
  destruct (Z.compare_spec x y), (Z.compare_spec y z), (Z.compare_spec x z); try done; try lia.
  apply IH.
Qed.

Section Lemmas.
Context `{C : Crypto}.

(** The check rejects, or the timestamp is newer and the last acceptance long
    enough ago; it changes nothing. *)
Lemma checkInitiation_spec w msg :
  keyMapValid (dev w) ->
  runs (checkInitiation msg) w (fun r w' => w' = w /\ forall v, r = Some v ->
    exists x, identify (dev w) msg = Some (ci_peer v, ci_timestamp v) /\ ci_msg v = msg /\
      d_peers (dev w) !! ci_peer v = Some x /\
      After (ci_timestamp v) (lastTimestamp (handshake x)) = true /\
      since (w_now w) (lastInitiationConsumption (handshake x)) > HandshakeInitationRate).
Proof.
  intros Hv. unfold checkInitiation, identify, sharedSecret.
  destruct (negb (mi_Type msg =? _)); [by split|]. do 4 wstep. cbv zeta.
  destruct (isZero (scalarMult _ _)); [by split|]. cbn [negb].
  destruct (KDF2 (mixKey _ _) _) as [ck key].
  destruct (aead_open key _ _ _) as [pk|]; [|by split].
  destruct (d_keyMap (dev w) !! _) as [p|] eqn:Ek; [|by split].
  destruct (Hv _ _ Ek) as [x Ex]. rewrite Ex. do 2 wstep.
  destruct (negb (isRunning x)); [by split|].
  destruct (isZero (precomputedStaticStatic _)); [by split|].
  destruct (KDF2 ck _) as [ck' key'].
  destruct (aead_open key' _ _ _) as [ts|]; [|by split].
  set (t := copy_at (zeros TimestampSize) 0 ts).
  destruct (After t (lastTimestamp (handshake x))) eqn:Ea; [|by split]. cbn [negb].
  destruct (Z.leb_spec (since (w_now w) (lastInitiationConsumption (handshake x)))
    HandshakeInitationRate); [by split|].
  wstep. split; [done|]. intros v [= <-]. exists x. split_and!; try done. cbn. lia.
Qed.

(** The whole of [ConsumeMessageInitiation]: it rejects and changes nothing,
    or the timestamp is newer, the last acceptance long enough ago, and both
    are recorded. *)
Lemma ConsumeMessageInitiation_spec w msg :
  keyMapValid (dev w) ->
  runs (ConsumeMessageInitiation msg) w (fun r w' =>
    (r = None /\ w' = w) \/
    exists p x ts h', r = Some p /\ identify (dev w) msg = Some (p, ts) /\
      d_peers (dev w) !! p = Some x /\
      After ts (lastTimestamp (handshake x)) = true /\
      since (w_now w) (lastInitiationConsumption (handshake x)) > HandshakeInitationRate /\
      lastTimestamp h' = ts /\
      lastInitiationConsumption h' = (if afterTime (w_now w) (lastInitiationConsumption (handshake x))
        then Some (w_now w) else lastInitiationConsumption (handshake x)) /\
      precomputedStaticStatic h' = precomputedStaticStatic (handshake x) /\
      w' = w <| dev ::= fun d => d <| d_peers ::= <[p := x <| handshake := h' |>]> |> |>).
Proof.
  intros Hv. unfold ConsumeMessageInitiation. wstep. eapply runs_mono; [by apply checkInitiation_spec|].
  intros [v|] w' [-> Hr]; [|wstep; by left]. destruct (Hr v eq_refl) as (x & Eid & Em & Ex & Ha & Hs).
  wstep. eapply recordInitiation_runs; [exact Ex|]. wstep. right.
  exists (ci_peer v), x, (ci_timestamp v), (updateInitiation (w_now w) v (handshake x)).
  unfold updateInitiation. replace (After _ (lastTimestamp (_ <| remoteEphemeral := _ |>))) with true by (symmetry; exact Ha).
  match goal with |- context [afterTime (w_now w) (lastInitiationConsumption ?e)] =>
    lazymatch e with handshake x => fail | _ => change (lastInitiationConsumption e) with (lastInitiationConsumption (handshake x)) end end.
  destruct (afterTime (w_now w) (lastInitiationConsumption (handshake x))) eqn:Et; split_and!; try done.
Qed.

(** Recording an acceptance does not change whom initiations come from. *)
Lemma identify_recorded d p x h' msg :
  d_peers d !! p = Some x ->
  precomputedStaticStatic h' = precomputedStaticStatic (handshake x) ->
  identify (d <| d_peers ::= <[p := x <| handshake := h' |>]> |>) msg = identify d msg.
Proof.
  intros Ex Hss. unfold identify. rsimpl. cbn [d_peers d_keyMap d_privateKey d_publicKey].
  destruct (negb _); [done|]. destruct (isZero _); [done|]. destruct (KDF2 _ _).
  destruct (aead_open _ _ _ _); [|done]. destruct (d_keyMap d !! _) as [q|]; [|done].
  destruct (decide (p = q)) as [<-|Hne].
  - rewrite lookup_insert_eq, Ex. cbn [isRunning handshake]. by rewrite Hss.
  - by rewrite lookup_insert_ne.
Qed.

(** An arrival that improves on what is recorded in [w]. *)
Definition improves (w : World) (a : Z * MessageInitiation) (p : peer_id) : Prop :=
  exists x ts, d_peers (dev w) !! p = Some x /\ identify (dev w) a.2 = Some (p, ts) /\
    After ts (lastTimestamp (handshake x)) = true /\
    forall n, lastInitiationConsumption (handshake x) = Some n -> a.1 - n > HandshakeInitationRate.

Definition ordered (d : Device) (a b : Z * MessageInitiation) (p : peer_id) : Prop :=
  b.1 - a.1 > HandshakeInitationRate /\
  exists ts ts', identify d a.2 = Some (p, ts) /\ identify d b.2 = Some (p, ts') /\
    After ts' ts = true.

Lemma After_trans a b c : After a b = true -> After b c = true -> After a c = true.
Proof.
  unfold After. destruct (bytes_compare a b) eqn:E1; try done.
  destruct (bytes_compare b c) eqn:E2; try done. by rewrite (bytes_compare_trans _ _ _ E1 E2).
Qed.

Lemma since_gt now t : since now (Some t) > HandshakeInitationRate -> now - t > HandshakeInitationRate.
Proof. unfold since, sat64. change HandshakeInitationRate with 20000000. lia. Qed.

(** What an arrival improves on after another was recorded, it improved on before. *)
Lemma improves_recorded w now msg b p q x ts h' :
  d_peers (dev w) !! p = Some x -> identify (dev w) msg = Some (p, ts) ->
  After ts (lastTimestamp (handshake x)) = true ->
  since now (lastInitiationConsumption (handshake x)) > HandshakeInitationRate ->
  lastTimestamp h' = ts ->
  lastInitiationConsumption h' = (if afterTime now (lastInitiationConsumption (handshake x))
    then Some now else lastInitiationConsumption (handshake x)) ->
  precomputedStaticStatic h' = precomputedStaticStatic (handshake x) ->
  improves (w <| w_now := now |> <| dev ::= fun d =>
    d <| d_peers ::= <[p := x <| handshake := h' |>]> |> |>) b q ->
  improves w b q /\ (q = p -> ordered (dev w) (now, msg) b p).
Proof.
  intros Ex Eid Ha Hs Ht Hl Hss (y & t & Ey & Ei & Hy & Hn).
  cbn [dev set_field] in Ei. rewrite (identify_recorded _ _ _ _ _ Ex Hss) in Ei.
  cbn [dev d_peers set_field] in Ey. destruct (decide (p = q)) as [<-|Hne].
  - rewrite lookup_insert_eq in Ey. injection Ey as <-. cbn [handshake] in Hy, Hn.
    rewrite Ht in Hy. rewrite Hl in Hn.
    assert (b.1 - now > HandshakeInitationRate /\
      (forall n, lastInitiationConsumption (handshake x) = Some n -> b.1 - n > HandshakeInitationRate))
      as [H1 H2].
    { unfold afterTime in Hn. destruct (lastInitiationConsumption (handshake x)) as [n|]; [|split; [by apply Hn|done]].
      apply since_gt in Hs. change HandshakeInitationRate with 20000000 in *.
      destruct (Z.ltb_spec n now) as [Hlt|Hge]; specialize (Hn _ eq_refl);
        (split; [lia|intros ? [= <-]; lia]). }
    split; [exists x, t; split_and!; eauto using After_trans|].
    intros _. split; [done|]. by exists ts, t.
  - rewrite lookup_insert_ne in Ey by done. split; [by exists y, t|congruence].
Qed.

Lemma consumeAll_spec arrivals w :
  keyMapValid (dev w) ->
  runs (consumeAll arrivals) w (fun rs _ => length rs = length arrivals /\
    (forall j b q, arrivals !! j = Some b -> rs !! j = Some (Some q) -> improves w b q) /\
    (forall i j a b p, (i < j)%nat -> arrivals !! i = Some a -> arrivals !! j = Some b ->
      rs !! i = Some (Some p) -> rs !! j = Some (Some p) -> ordered (dev w) a b p)).
Proof.
  revert w. induction arrivals as [|[now msg] arrivals IH]; intros w Hv; cbn [consumeAll].
  { wstep. split_and!; [done|by intros []|by intros [] []]. }
  wstep. change (runs (modW ?f) w ?Q) with (Q tt (f w)). cbv beta. wstep.
  eapply runs_mono; [by apply ConsumeMessageInitiation_spec|].
  intros r w1 [[-> ->]|(p & x & ts & h' & -> & Eid & Ex & Ha & Hs & Ht & Hl & Hss & ->)]; wstep.
  - eapply runs_mono; [by apply IH|]. intros rs w2 (Hlen & H1 & H2). wstep.
    split_and!; [by cbn; rewrite Hlen|intros [|j] b q|intros [|i] [|j] a b q]; cbn; try done; try lia.
    + apply H1.
    + intros ?. apply H2. lia.
  - eapply runs_mono; [apply IH|].
    { intros pk q Hk. apply lookup_insert_is_Some'. right. by apply (Hv pk). }
    intros rs w2 (Hlen & H1 & H2). wstep.
    pose proof (fun b q => improves_recorded w now msg b p q x ts h' Ex Eid Ha Hs Ht Hl Hss) as Himp.
    split_and!; [by cbn; rewrite Hlen|intros [|j] b q|intros [|i] [|j] a b q]; cbn; try done; try lia.
    + intros [= <-] [= <-]. exists x, ts. split_and!; try done.
      intros n En. rewrite En in Hs. by apply since_gt in Hs.
    + intros Hb Hq. eapply Himp, H1; eauto.
    + intros _ [= <-] Hb [= <-] Hq. eapply Himp; [|done]. eapply H1; eauto.
    + intros Hij Hi Hj Hri Hrj. assert (i < j)%nat as Hij' by lia.
      destruct (H2 i j a b q Hij' Hi Hj Hri Hrj) as (Hord & t & t' & Et & Et' & Hat).
      cbn [dev set_field] in Et, Et'. rewrite (identify_recorded _ _ _ _ _ Ex Hss) in Et.
      rewrite (identify_recorded _ _ _ _ _ Ex Hss) in Et'.
      split; [done|]. by exists t, t'.
Qed.

(** *** Calls that overlap *)

Lemma bytes_compare_antisym a b : bytes_compare b a = CompOpp (bytes_compare a b).
Proof.
  revert b. induction a as [|x a IH]; intros [|y b]; cbn; try done. rewrite (Z.compare_antisym x y).
  destruct (x ?= y); cbn; [apply IH|done|done].
Qed.
Lemma bytes_compare_eq a b : bytes_compare a b = Eq -> a = b.
Proof.
  revert b. induction a as [|x a IH]; intros [|y b]; cbn; try done.
  destruct (Z.compare_spec x y) as [->| |]; try done. by intros ->%IH.
Qed.
Lemma After_le a b c : After a c = true -> After b c = false -> After a b = true.
Proof.
  intros Hac Hbc. destruct (After a b) eqn:Hab; [done|]. exfalso. unfold After in *.
  destruct (bytes_compare a c) eqn:Eac; try done. destruct (bytes_compare b c) eqn:Ebc; [| |done].
  - apply bytes_compare_eq in Ebc. subst. by rewrite Eac in Hab.
  - assert (bytes_compare c b = Gt) as Ecb by (rewrite bytes_compare_antisym, Ebc; done).
    by rewrite (bytes_compare_trans _ _ _ Eac Ecb) in Hab.
Qed.
Lemma After_irrefl a : After a a = false.
Proof. unfold After. by rewrite bytes_compare_refl. Qed.
Lemma After_asym a b : After a b = true -> After b a = false.
Proof. unfold After. rewrite (bytes_compare_antisym a b). by destruct (bytes_compare a b). Qed.

Lemma runs_Some {S A} (m : ST S A) s a s' Q : m s = Some (a, s') -> runs m s Q -> Q a s'.
Proof. unfold runs. by intros ->. Qed.
Lemma timeLe_refl a : timeLe a a.
Proof. intros n ->. exists n. split; [done|lia]. Qed.
Lemma timeLe_trans a b c : timeLe a b -> timeLe b c -> timeLe a c.
Proof. intros H1 H2 n E. destruct (H1 n E) as (m & E' & ?). destruct (H2 m E') as (k & ? & ?). exists k. split; [done|lia]. Qed.
Lemma kept_refl d : kept d d.
Proof. intros p x Ex. exists x. split_and!; [done|apply After_irrefl|apply timeLe_refl]. Qed.
Lemma kept_trans d1 d2 d3 : kept d1 d2 -> kept d2 d3 -> kept d1 d3.
Proof.
  intros H1 H2 p x Ex. destruct (H1 p x Ex) as (y & Ey & Ha & Ht). destruct (H2 p y Ey) as (z & Ez & Ha' & Ht').
  exists z. split_and!; [done| |by eapply timeLe_trans]. destruct (After (lastTimestamp (handshake x)) (lastTimestamp (handshake z))) eqn:E; [|done].
  by rewrite (After_le _ _ _ E Ha') in Ha.
Qed.

(** What an update leaves recorded. *)
Lemma updateInitiation_times now v h : let h' := updateInitiation now v h in
  After (lastTimestamp h) (lastTimestamp h') = false /\ After (ci_timestamp v) (lastTimestamp h') = false
  /\ timeLe (lastInitiationConsumption h) (lastInitiationConsumption h') /\ timeLe (Some now) (lastInitiationConsumption h').
Proof.
  cbn zeta. assert (lastTimestamp (updateInitiation now v h) = if After (ci_timestamp v) (lastTimestamp h) then ci_timestamp v else lastTimestamp h) as ->
    by (unfold updateInitiation; cbn zeta; replace (After (ci_timestamp v) (lastTimestamp (_ <| remoteEphemeral := _ |>))) with (After (ci_timestamp v) (lastTimestamp h)) by done;
        destruct (After _ _), (afterTime _ _); reflexivity).
  assert (lastInitiationConsumption (updateInitiation now v h) = if afterTime now (lastInitiationConsumption h) then Some now else lastInitiationConsumption h) as ->
    by (unfold updateInitiation; cbn zeta; destruct (After _ _);
        [replace (afterTime now (lastInitiationConsumption (_ <| lastTimestamp := _ |>))) with (afterTime now (lastInitiationConsumption h)) by done
        |replace (afterTime now (lastInitiationConsumption (_ <| remoteEphemeral := _ |>))) with (afterTime now (lastInitiationConsumption h)) by done];
        destruct (afterTime _ _); reflexivity).
  unfold afterTime, timeLe. split_and!.
  - destruct (After (ci_timestamp v) (lastTimestamp h)) eqn:E; [by apply After_asym|apply After_irrefl].
  - destruct (After (ci_timestamp v) (lastTimestamp h)) eqn:E; [apply After_irrefl|done].
  - intros n ->. destruct (Z.ltb_spec n now); eexists; (split; [reflexivity|lia]).
  - intros n [= ->]. destruct (lastInitiationConsumption h) as [m|]; [destruct (Z.ltb_spec m n)|]; eexists; (split; [reflexivity|lia]).
Qed.

(** What a check lets through improves on all that is recorded. *)
Definition newer (d : Device) (now : Z) (v : checkedInitiation) : Prop := forall x, d_peers d !! ci_peer v = Some x ->
  After (ci_timestamp v) (lastTimestamp (handshake x)) = true
  /\ forall n, lastInitiationConsumption (handshake x) = Some n -> now - n > HandshakeInitationRate.
Lemma newer_kept d d' now v : kept d d' -> newer d' now v -> newer d now v.
Proof.
  intros Hk Hn x Ex. destruct (Hk _ _ Ex) as (x' & Ex' & Ha & Ht). destruct (Hn x' Ex') as [Ha' Hn'].
  split; [by eapply After_le|]. intros n En. destruct (Ht n En) as (m & Em & ?). specialize (Hn' m Em). lia.
Qed.

Definition held (ws : list (option checkedInitiation)) (d : Device) : Prop := forall v, Some v ∈ ws -> is_Some (d_peers d !! ci_peer v).
Lemma held_kept ws d d' : kept d d' -> held ws d -> held ws d'.
Proof. intros Hk Hh v Hv. destruct (Hh v Hv) as [x Ex]. destruct (Hk _ _ Ex) as (x' & Ex' & _). by exists x'. Qed.
Lemma held_insert ws d i o : held ws d -> (forall v, o = Some v -> is_Some (d_peers d !! ci_peer v)) -> held (<[i := o]> ws) d.
Proof. intros Hh Ho v [j [(_ & Hv & _)|[_ E]]%list_lookup_insert_Some]%list_elem_of_lookup; [by apply Ho|]. eapply Hh, list_elem_of_lookup_2, E. Qed.

(** The record of [p] reaches [ts]. *)
Definition reached (d : Device) (p : peer_id) (ts : bytes) : Prop :=
  exists x, d_peers d !! p = Some x /\ After ts (lastTimestamp (handshake x)) = false.
Lemma reached_kept d d' p ts : kept d d' -> reached d p ts -> reached d' p ts.
Proof.
  intros Hk (x & Ex & Ha). destruct (Hk _ _ Ex) as (x' & Ex' & Ha' & _). exists x'. split; [done|].
  destruct (After ts (lastTimestamp (handshake x'))) eqn:E; [|done]. by rewrite (After_le _ _ _ E Ha') in Ha.
Qed.

(** What holds of the rest of a run from a state. *)
Record runOk (d : Device) (ws : list (option checkedInitiation)) (out : list outcome) (w' : World) (ws' : list (option checkedInitiation)) : Prop := {
  ro_valid : keyMapValid (dev w');
  ro_held : held ws' (dev w');
  ro_kept : kept d (dev w');
  ro_newer : forall j now msg v, out !! j = Some (Checked now msg (Some v)) -> newer d now v;
  ro_pairs : forall i j t t' v v' msg, (i < j)%nat -> out !! i = Some (Recorded t v) -> out !! j = Some (Checked t' msg (Some v')) ->
    ci_peer v' = ci_peer v -> After (ci_timestamp v') (ci_timestamp v) = true /\ t' - t > HandshakeInitationRate;
  ro_count : forall p ts, accepted p ts out <= zlen ws;
  ro_reached : forall p ts, reached d p ts -> accepted p ts out <= holding p ts ws }.

Lemma runOk_check w now i msg v w1 ws out w' ws' : keyMapValid (dev w) -> ws !! i = Some None ->
  checkInitiation msg (w <| w_now := now |>) = Some (v, w1) ->
  (keyMapValid (dev w1) -> held (<[i := v]> ws) (dev w1) -> runOk (dev w1) (<[i := v]> ws) out w' ws') -> held ws (dev w) ->
  runOk (dev w) ws (Checked now msg v :: out) w' ws'.
Proof.
  intros Hv Hi E IH Hh. remember (w <| w_now := now |>) as w0 eqn:Ew0.
  assert (dev w0 = dev w /\ w_now w0 = now) as [Ed En] by by subst.
  pose proof (checkInitiation_spec w0 msg) as Hs. unfold runs in Hs. rewrite E, Ed, En in Hs. destruct (Hs Hv) as [-> Hr]. rewrite Ed in IH.
  assert (forall v0, v = Some v0 -> newer (dev w) now v0 /\ is_Some (d_peers (dev w) !! ci_peer v0)) as Hnew.
  { intros v0 ->. destruct (Hr v0 eq_refl) as (x & _ & _ & Ex & Ha & Hgt). split; [|by eexists]. intros y Ey. simplify_eq.
    split; [done|]. intros n Hn. rewrite Hn in Hgt. by apply since_gt in Hgt. }
  destruct IH as [H1 H2 H3 H4 H5 H6 H7]; [done|apply held_insert; [done|]; intros; by apply Hnew|].
  split; try done.
  - intros [|j] t m v0; cbn; [intros [= <- <- ->]; by apply Hnew|by eapply H4].
  - intros [|a] [|b] t t' v1 v2 m Hab; cbn; try done; try lia. apply H5. lia.
  - intros p ts. specialize (H6 p ts). rewrite length_insert in H6. unfold accepted. rewrite countBy_cons. cbn [Z.b2z]. exact H6.
  - intros p ts Hre. specialize (H7 p ts Hre). unfold holding in *. rewrite (countBy_insert _ _ _ _ _ Hi) in H7.
    unfold accepted in *. rewrite countBy_cons. cbn [Z.b2z] in *. destruct v as [v0|]; cbn [Z.b2z] in *; [|lia].
    destruct (isFor p ts v0) eqn:Ef; cbn [Z.b2z] in *; [|lia]. apply bool_decide_eq_true in Ef as [<- <-].
    destruct Hre as (x & Ex & Hax). destruct (Hnew v0 eq_refl) as [Hn _]. destruct (Hn x Ex) as [Hax' _]. congruence.
Qed.

Lemma runOk_record w now i v w1 ws out w' ws' : keyMapValid (dev w) -> ws !! i = Some (Some v) ->
  recordInitiation v (w <| w_now := now |>) = Some (tt, w1) ->
  (keyMapValid (dev w1) -> held (<[i := None]> ws) (dev w1) -> runOk (dev w1) (<[i := None]> ws) out w' ws') -> held ws (dev w) ->
  runOk (dev w) ws (Recorded now v :: out) w' ws'.
Proof.
  intros Hv Hi E IH Hh.   destruct (Hh v) as [x Ex]; [by eapply list_elem_of_lookup_2|].
  destruct (updateInitiation_times now v (handshake x)) as (Ha1 & Ha2 & Ht1 & Ht2).
  set (x' := x <| handshake := updateInitiation now v (handshake x) |>).
  assert (dev w1 = dev w <| d_peers ::= <[ci_peer v := x']> |>) as Ew.
  { refine (runs_Some _ _ _ _ (fun _ w1 => dev w1 = _) E _). by eapply recordInitiation_runs; [exact Ex|]. }
  assert (d_peers (dev w1) !! ci_peer v = Some x') as Ex1 by (rewrite Ew; apply lookup_insert_eq).
  assert (kept (dev w) (dev w1)) as Hk.
  { intros p y Ey. destruct (decide (ci_peer v = p)) as [<-|Hne].
    - exists x'. split; [done|]. by simplify_eq.
    - exists y. rewrite Ew. cbn. rewrite lookup_insert_ne by done. split_and!; [done|apply After_irrefl|apply timeLe_refl]. }
  assert (reached (dev w1) (ci_peer v) (ci_timestamp v)) as Hre by by exists x'.
  destruct IH as [H1 H2 H3 H4 H5 H6 H7].
  - rewrite Ew. intros pk p Hp. apply lookup_insert_is_Some'. right. by eapply Hv.
  - apply held_insert; [by eapply held_kept|done].
  - assert (forall p ts, reached (dev w) p ts \/ isFor p ts v = true -> accepted p ts (Recorded now v :: out) <= holding p ts ws) as Hacc.
    { intros p ts Hor. unfold accepted. rewrite countBy_cons. specialize (H7 p ts). unfold holding in H7. rewrite (countBy_insert _ _ _ _ _ Hi) in H7. cbn [Z.b2z] in H7.
      unfold holding. destruct (isFor p ts v) eqn:Ef; cbn [Z.b2z] in *.
      - apply bool_decide_eq_true in Ef as [<- <-]. specialize (H7 Hre). unfold accepted in H7. lia.
      - destruct Hor as [Hr|]; [|done]. specialize (H7 (reached_kept _ _ _ _ Hk Hr)). unfold accepted in H7. lia. }
    split; try done.
    + by eapply kept_trans.
    + intros [|j] t m v0; cbn; [done|]. intros Hj. eapply newer_kept; [done|by eapply H4].
    + intros [|a] [|b] t t' v1 v2 m Hab; cbn; try done; try lia; [|apply H5; lia].
      intros [= <- <-] Hb Ep. destruct (H4 _ _ _ _ Hb x') as [Ha' Hn]; [by rewrite Ep|]. split; [by eapply After_le|].
      destruct (Ht2 now eq_refl) as (m' & Em & ?). specialize (Hn m' Em). lia.
    + intros p ts. destruct (isFor p ts v) eqn:Ef.
      * pose proof (Hacc p ts (or_intror Ef)) as Hle. pose proof (countBy_bounds (fun o => match o with Some v => isFor p ts v | None => false end) ws) as Hb. unfold holding in Hle. lia.
      * specialize (H6 p ts). rewrite length_insert in H6. unfold accepted in *. rewrite countBy_cons, Ef. cbn [Z.b2z]. lia.
    + intros p ts Hr. apply Hacc. by left.
Qed.

Lemma steps_run w ws out w' ws' : steps w ws out w' ws' -> keyMapValid (dev w) -> held ws (dev w) -> runOk (dev w) ws out w' ws'.
Proof.
  induction 1 as [w ws|w ws now i msg v w1 out w' ws' Hi E _ IH|w ws now i v w1 out w' ws' Hi E _ IH|w ws w1 out w' ws' Hv1 Hk _ IH]; intros Hv Hh.
  - split; try done; [apply kept_refl| |]; intros p ts; [|intros _]; pose proof (countBy_bounds (fun o => match o with Some v => isFor p ts v | None => false end) ws); unfold holding; change (accepted p ts []) with 0; lia.
  - by eapply runOk_check.
  - by eapply runOk_record.
  - destruct IH as [H1 H2 H3 H4 H5 H6 H7]; [done|by eapply held_kept|]. split; try done.
    + by eapply kept_trans.
    + intros j t m v Hj. eapply newer_kept; [done|by eapply H4].
    + intros p ts Hr. apply H7. by eapply reached_kept.
Qed.

End Lemmas.

(** ** Properties *)

(** C33: the handshake workers do not let a recorded initiation in again.  They check
    an initiation under the reading lock of the handshake and record it under the writing
    lock later, so calls overlap: whatever the order of their checks and updates, and
    whatever else happens in between that leaves the records alone, what is recorded of a
    peer never goes back, a check that comes after an update lets only a later timestamp
    through and only after the initiation interval, and one timestamp of a peer is
    accepted at most once per worker, by calls that overlap; see
    [overlapping_copies_accepted], where two are.  No check and no update panics.  When the calls
    do not overlap, of two initiations accepted from one peer the later one carries the
    later timestamp and comes more than the interval after the first; in particular no
    message is ever accepted twice. *)
Theorem initiations_not_replayed `{C : Crypto} (w : World) :
  keyMapValid (dev w) ->
  (forall k out w' ws', steps w (replicate k None) out w' ws' ->
    kept (dev w) (dev w') /\
    (forall i j t t' v v' msg, (i < j)%nat -> out !! i = Some (Recorded t v) -> out !! j = Some (Checked t' msg (Some v')) ->
      ci_peer v' = ci_peer v -> After (ci_timestamp v') (ci_timestamp v) = true /\ t' - t > HandshakeInitationRate) /\
    (forall p ts, accepted p ts out <= Z.of_nat k) /\
    (forall msg, is_Some (checkInitiation msg w')) /\ (forall v, Some v ∈ ws' -> is_Some (recordInitiation v w'))) /\
  (forall arrivals, exists rs w', consumeAll arrivals w = Some (rs, w') /\ length rs = length arrivals /\
    (forall i j a b p, (i < j)%nat -> arrivals !! i = Some a -> arrivals !! j = Some b ->
      rs !! i = Some (Some p) -> rs !! j = Some (Some p) -> ordered (dev w) a b p) /\
    (forall i j a b p, (i < j)%nat -> arrivals !! i = Some a -> arrivals !! j = Some b ->
      a.2 = b.2 -> rs !! i = Some (Some p) -> rs !! j = Some None)).
Proof.
  intros Hv. split.
  - intros k out w' ws' H. destruct (steps_run _ _ _ _ _ H Hv) as [H1 H2 H3 _ H5 H6 _]; [by intros v [? _]%elem_of_replicate|].
    rewrite length_replicate in H6. split_and!; [done|exact H5|exact H6| |].
    + intros msg. destruct (runs_exists _ _ _ (checkInitiation_spec w' msg H1)) as (v & w'' & -> & _). by eexists.
    + intros v Hin. destruct (H2 v Hin) as [x Ex].
      destruct (runs_exists _ _ _ (recordInitiation_runs w' v x (fun _ _ => True) Ex I)) as (? & w'' & -> & _). by eexists.
  - intros arrivals. destruct (runs_exists _ _ _ (consumeAll_spec arrivals w Hv)) as (rs & w' & E & Hl & H1 & H2).
    exists rs, w'. split_and!; [done|done|exact H2|].
    intros i j a b p Hij Ha Hb Hab Hi.
    destruct (lookup_lt_is_Some_2 rs j) as [[q|] Hj]; [|rewrite Hj|done].
    { rewrite Hl. by eapply lookup_lt_Some. }
    destruct (H1 _ _ _ Ha Hi) as (_ & ta & _ & Ea & _).
    destruct (H1 _ _ _ Hb Hj) as (_ & tb & _ & Eb & _).
    assert (q = p) as -> by congruence.
    destruct (H2 _ _ _ _ _ Hij Ha Hb Hi Hj) as (_ & t & t' & Et & Et' & Hat).
    assert (t = t') as -> by congruence. unfold After in Hat. by rewrite bytes_compare_refl in Hat.
Qed.

(** ** Witnesses *)

Definition toyInitiation (sec : Z) : MessageInitiation :=
  initiationOf 7 (clamp (replicate 32 3)) (publicKey keyA) (publicKey keyB)
    (scalarMult keyA (publicKey keyB)) (stamp (timeAt (sec * second))).

(** Accepted, replayed, newer but too soon, older, newer. *)
Definition toyArrivals : list (Z * MessageInitiation) :=
  [(50 * second, toyInitiation 10); (60 * second, toyInitiation 10);
   (50 * second + 1, toyInitiation 11); (70 * second, toyInitiation 9);
   (80 * second, toyInitiation 12)].

(** The check of a message at an instant, and what it lets through. *)
Definition toyCheck (now : Z) (w : World) : option (option checkedInitiation * World) :=
  checkInitiation (C := toyCrypto) (toyInitiation 10) (w <| w_now := now |>).
Definition toyChecked : checkedInitiation :=
  default (mkCheckedI 1 [] [] [] (toyInitiation 10)) (mjoin (fst <$> toyCheck (50 * second) toyB)).
Definition toyRecord (now : Z) (w : World) : World :=
  match recordInitiation toyChecked (w <| w_now := now |>) with Some (_, w) => w | None => w end.
Definition toyB1 : World := toyB <| w_now := 50 * second |>.
Definition toyB2 : World := toyRecord (51 * second) toyB1.
Definition toyB3 : World := toyRecord (52 * second) toyB2.

(** Two workers with copies of one initiation: both check it before either records
    it, and it is accepted twice; a third copy is not. *)
Definition toyOutcomes : list outcome :=
  [Checked (50 * second) (toyInitiation 10) (Some toyChecked); Checked (50 * second) (toyInitiation 10) (Some toyChecked);
   Recorded (51 * second) toyChecked; Recorded (52 * second) toyChecked;
   Checked (60 * second) (toyInitiation 10) None].

Lemma check_same `{C : Crypto} w msg v : keyMapValid (dev w) -> fst <$> checkInitiation msg w = Some v -> checkInitiation msg w = Some (v, w).
Proof.
  intros Hv E. destruct (runs_exists _ _ _ (checkInitiation_spec w msg Hv)) as (v' & w' & E' & -> & _).
  rewrite E' in E |- *. by injection E as <-.
Qed.
Lemma toyRecord_some now w : bool_decide (is_Some (recordInitiation toyChecked (w <| w_now := now |>))) = true ->
  recordInitiation toyChecked (w <| w_now := now |>) = Some (tt, toyRecord now w).
Proof. unfold toyRecord. by destruct (recordInitiation _ _) as [[[] w']|]. Qed.
Lemma toyB_valid : keyMapValid (dev toyB).
Proof.
  intros pk p Hk. change (d_keyMap (dev toyB)) with ({[publicKey keyA := 1%positive]} : gmap bytes peer_id) in Hk.
  apply lookup_singleton_Some in Hk as [_ <-]. vm_compute. by eexists.
Qed.
Lemma recordInitiation_valid `{C : Crypto} v w w' : recordInitiation v w = Some (tt, w') -> keyMapValid (dev w) -> keyMapValid (dev w').
Proof.
  intros E Hv. destruct (d_peers (dev w) !! ci_peer v) as [x|] eqn:Ex.
  - refine (runs_Some _ _ _ _ (fun _ w' => keyMapValid (dev w')) E _). eapply recordInitiation_runs; [exact Ex|].
    intros pk p Hp. apply lookup_insert_is_Some'. right. by eapply Hv.
  - unfold recordInitiation, getPeer in E. rewrite bind_eq, Ex in E. done.
Qed.
Lemma toyRecord_valid now w : keyMapValid (dev w) -> keyMapValid (dev (toyRecord now w)).
Proof.
  intros Hv. unfold toyRecord. destruct (recordInitiation toyChecked (w <| w_now := now |>)) as [[[] w']|] eqn:E; [|done].
  by eapply recordInitiation_valid.
Qed.

Definition toyAt (sec : Z) (w : World) : World := w <| w_now := sec * second |>.
Lemma toyAt_valid sec w : keyMapValid (dev w) -> keyMapValid (dev (toyAt sec w)).
Proof. done. Qed.
Lemma toyB2_some : bool_decide (is_Some (recordInitiation toyChecked (toyAt 51 toyB1))) = true.
Proof. vm_compute. reflexivity. Qed.
Lemma toyB3_some : bool_decide (is_Some (recordInitiation toyChecked (toyAt 52 toyB2))) = true.
Proof. vm_compute. reflexivity. Qed.
Lemma toy_check1 : fst <$> checkInitiation (C := toyCrypto) (toyInitiation 10) (toyAt 50 toyB) = Some (Some toyChecked).
Proof. vm_compute. reflexivity. Qed.
Lemma toy_check2 : fst <$> checkInitiation (C := toyCrypto) (toyInitiation 10) (toyAt 50 toyB1) = Some (Some toyChecked).
Proof. vm_compute. reflexivity. Qed.
Lemma toy_check3 : fst <$> checkInitiation (C := toyCrypto) (toyInitiation 10) (toyAt 60 toyB3) = Some None.
Proof. vm_compute. reflexivity. Qed.

Lemma toy_steps : steps (C := toyCrypto) toyB [None; None] toyOutcomes (toyAt 60 toyB3) [None; None].
Proof.
  pose proof toyB_valid as Hv.
  apply (steps_check _ _ _ 0 _ _ (toyAt 50 toyB)); [done|apply check_same; [by apply toyAt_valid|exact toy_check1]|].
  apply (steps_check _ _ _ 1 _ _ (toyAt 50 toyB1)); [done|apply check_same; [by apply toyAt_valid|exact toy_check2]|].
  apply (steps_record _ _ _ 0 _ toyB2); [done|apply toyRecord_some, toyB2_some|].
  apply (steps_record _ _ _ 1 _ toyB3); [done|apply toyRecord_some, toyB3_some|].
  apply (steps_check _ _ _ 0 _ _ (toyAt 60 toyB3)); [done|apply check_same; [by apply toyAt_valid, toyRecord_valid, toyRecord_valid|exact toy_check3]|]. apply steps_end.
Qed.

Example overlapping_copies_accepted : accepted 1%positive (ci_timestamp toyChecked) toyOutcomes = 2.
Proof. vm_compute. reflexivity. Qed.

Lemma initiations_not_replayed_witness :
  fst <$> consumeAll toyArrivals toyB = Some [Some 1%positive; None; None; None; Some 1%positive] /\
  accepted 1%positive (ci_timestamp toyChecked) toyOutcomes <= 2 /\
  exists rs w', consumeAll toyArrivals toyB = Some (rs, w') /\ length rs = length toyArrivals /\
    (forall i j a b p, (i < j)%nat -> toyArrivals !! i = Some a -> toyArrivals !! j = Some b ->
      rs !! i = Some (Some p) -> rs !! j = Some (Some p) -> ordered (dev toyB) a b p).
Proof.
  split; [vm_compute; reflexivity|].
  destruct (initiations_not_replayed toyB toyB_valid) as [Hover Hserial]. split.
  - by apply (Hover 2%nat _ _ _ toy_steps).
  - destruct (Hserial toyArrivals) as (rs & w' & E & Hl & Ho & _). exists rs, w'. exact (conj E (conj Hl Ho)).
Defined.
