(* ===== verification/Send.v ===== *)
(** The outbound flow, [device/send.go]: staging, nonce assignment,
    encryption by parallel workers and sequential transmission, with the
    parts of [device/peer.go] and [device/timers.go] it calls; the bounds of the
    padding. *)
From S2P Require Import Prelude Replay Messages NoiseHelpers ToyCrypto Cookie AllowedIPs.
From S2P Require Import State IndexTable Timers Handshake Session.

(** ** Sizes *)

(** [^(PaddingMultiple - 1)] as a mask. *)
Definition roundUp (n : Z) : Z := Z.ldiff (n + PaddingMultiple - 1) (PaddingMultiple - 1).

Definition calculatePaddingSize (packetSize mtu : Z) : Z :=
  let lastUnit := packetSize in
  if mtu =? 0 then roundUp lastUnit - lastUnit
  else
    let lastUnit := if lastUnit >? mtu then Z.rem lastUnit mtu else lastUnit in
    let paddedSize := roundUp lastUnit in
    let paddedSize := if paddedSize >? mtu then mtu else paddedSize in
    paddedSize - lastUnit.

(** ** Elements *)

Definition NewOutboundElement (packet : bytes) : OutElem := mkOutElem packet 0 None None.

(** [elemsContainer.Lock()] on a container that becomes shared. *)
Definition shareContainer (elems : list OutElem) : M cont_id := fun w =>
  let c := fresh (dom (d_outConts (dev w))) in
  Some (c, w <| dev ::= fun d => d <| d_outConts ::= <[c := mkContainer true elems]> |> |>).

(** ** Peer: endpoint and buffers, [device/peer.go] *)

(** The error of a send: none, that of [bind.Send], or another. *)
Inductive sendError := NoError | BindError (r : sendResult) | NoEndpoint.

Definition SendBuffers (p : peer_id) (buffers : list bytes) : M sendError :=
  let* d := getD in
  if isClosed d then ret NoError
  else
    let* x := getPeer p in
    match ep_val (endpoint x) with
    | None => ret NoEndpoint
    | Some e =>
        let e := if clearSrcOnTx (endpoint x) then ClearSrc e else e in
        when (clearSrcOnTx (endpoint x))
          (modPeer p (fun x => x <| endpoint ::= fun ep => ep <| ep_val := Some e |> <| clearSrcOnTx := false |> |>));;;
        let* r := netSend e buffers in
        match r with
        | SendOk =>
            let totalLen := foldl (fun acc (b : bytes) => u64 (acc + zlen b)) 0 buffers in
            modPeer p (fun x => x <| txBytes ::= fun n => u64 (n + totalLen) |>);;;
            ret NoError
        | r => ret (BindError r)
        end
    end.

Definition SetEndpointFromPacket (p : peer_id) (e : Endpoint) : M unit :=
  let* x := getPeer p in
  if disableRoaming (endpoint x) then ret tt
  else modPeer p (fun x => x <| endpoint ::= fun ep => ep <| clearSrcOnTx := false |> <| ep_val := Some e |> |>).

Definition markEndpointSrcForClearing (p : peer_id) : M unit :=
  let* x := getPeer p in
  match ep_val (endpoint x) with
  | None => ret tt
  | Some _ => modPeer p (fun x => x <| endpoint ::= fun ep => ep <| clearSrcOnTx := true |> |>)
  end.

(** ** Staging *)

(** The channel holds [QueueStagedSize] containers; the oldest makes room. *)
Definition StagePackets (p : peer_id) (elems : list OutElem) : M unit :=
  modPeer p (fun x => x <| staged ::= fun q =>
    if (length q <? QueueStagedSize)%nat then q ++ [elems] else drop 1 q ++ [elems] |>).

Definition FlushStagedPackets (p : peer_id) : M unit := modPeer p (fun x => x <| staged := [] |>).

(** The first loop of [SendStagedPackets]: a nonce for every element, those
    past the limit set apart. *)
Fixpoint assignNonces (p : peer_id) (k : kp_id) (elems : list OutElem)
    : M (list OutElem * list OutElem) :=
  match elems with
  | [] => ret ([], [])
  | elem :: elems =>
      modKp k (fun kp => kp <| sendNonce ::= fun n => u64 (n + 1) |>);;;
      let* kp := getKp k in
      let nonce := u64 (sendNonce kp - 1) in
      let elem := elem <| oe_peer := Some p |> <| oe_nonce := nonce |> in
      if nonce >=? RejectAfterMessages then
        modKp k (fun kp => kp <| sendNonce := RejectAfterMessages |>);;;
        let* '(kept, ooo) := assignNonces p k elems in
        ret (kept, elem :: ooo)
      else
        let* '(kept, ooo) := assignNonces p k elems in
        ret (elem <| oe_keypair := Some k |> :: kept, ooo)
  end.

Section Send.
Context `{C : Crypto}.

(** [peer.cookieGenerator.AddMacs(packet)] *)
Definition addMacs (p : peer_id) (packet : bytes) : M bytes :=
  let* x := getPeer p in
  let* now := getNow in
  match AddMacs (cookieGenerator x) now packet with
  | None => panic
  | Some (packet, cg) =>
      modPeer p (fun x => x <| cookieGenerator := cg |>);;;
      ret packet
  end.

Definition modHs (p : peer_id) (f : Handshake -> Handshake) : M unit :=
  modPeer p (fun x => x <| handshake ::= f |>).

(** ** Handshake messages *)

(** The flag is the absence of an error. *)
Definition SendHandshakeInitiation (p : peer_id) (isRetry : bool) : M bool :=
  when (negb isRetry) (modTimers p (fun t => t <| handshakeAttempts := 0 |>));;;
  let* x := getPeer p in
  let* now := getNow in
  if since now (lastSentHandshake (handshake x)) <? RekeyTimeout then ret true
  else
    modHs p (fun h => h <| lastSentHandshake := Some now |>);;;
    let* msg := CreateMessageInitiation p in
    match msg with
    | None => ret false
    | Some msg =>
        let '(_, packet) := marshalInitiation msg (zeros MessageInitiationSize) in
        let* packet := addMacs p packet in
        timersAnyAuthenticatedPacketTraversal p;;;
        timersAnyAuthenticatedPacketSent p;;;
        let* err := SendBuffers p [packet] in
        timersHandshakeInitiated p;;;
        ret (match err with NoError => true | _ => false end)
    end.

Definition SendHandshakeResponse (p : peer_id) : M bool :=
  let* now := getNow in
  modHs p (fun h => h <| lastSentHandshake := Some now |>);;;
  let* response := CreateMessageResponse p in
  match response with
  | None => ret false
  | Some response =>
      let '(_, packet) := marshalResponse response (zeros MessageResponseSize) in
      let* packet := addMacs p packet in
      let* ok := BeginSymmetricSession p in
      if negb ok then ret false
      else
        timersSessionDerived p;;;
        timersAnyAuthenticatedPacketTraversal p;;;
        timersAnyAuthenticatedPacketSent p;;;
        let* err := SendBuffers p [packet] in
        ret (match err with NoError => true | _ => false end)
  end.

(** [CreateReply] draws a secret when its own has expired, then a nonce. *)
Definition SendHandshakeCookie (elem : HsElem) : M bool :=
  let sender := getU32 (he_packet elem) 4 in
  let* d := getD in
  let* now := getNow in
  let expired := since now (ck_secretSet (d_cookieChecker d)) >? CookieRefreshTime in
  let* r1 := (if expired then randRead else ret None) in
  let* r2 := (if expired && negb (isSome r1) then ret None else randRead) in
  match CreateReply (d_cookieChecker d) now now r1 r2 (he_packet elem) sender
          (DstToBytes (he_endpoint elem)) with
  | None => panic
  | Some (reply, ck) =>
      modD (fun d => d <| d_cookieChecker := ck |>);;;
      match reply with
      | None => ret false
      | Some reply =>
          let '(_, packet) := marshalCookieReply reply (zeros MessageCookieReplySize) in
          let* _ := netSend (he_endpoint elem) [packet] in
          ret true
      end
  end.

Definition keepKeyFreshSending (p : peer_id) : M unit :=
  let* x := getPeer p in
  match current (keypairs x) with
  | None => ret tt
  | Some k =>
      let* keypair := getKp k in
      let* now := getNow in
      if (sendNonce keypair >? RekeyAfterMessages)
         || (isInitiator keypair && (since now (Some (created keypair)) >? RekeyAfterTime))
      then let* _ := SendHandshakeInitiation p false in ret tt
      else ret tt
  end.

(** ** Sending what is staged *)

(** [goto top] and the inner loop; every turn takes a container off the queue,
    at most one puts one back, and then the key is used up. *)
Fixpoint SendStagedLoop (fuel : nat) (top : bool) (k0 : option kp_id) (p : peer_id) : M unit :=
  match fuel with
  | O => panic
  | S fuel =>
      if top then
        let* x := getPeer p in
        let* d := getD in
        if (length (staged x) =? 0)%nat || negb (isUp d) then ret tt
        else
          match current (keypairs x) with
          | None => let* _ := SendHandshakeInitiation p false in ret tt
          | Some k =>
              let* keypair := getKp k in
              let* now := getNow in
              if (sendNonce keypair >=? RejectAfterMessages)
                 || (since now (Some (created keypair)) >=? RejectAfterTime)
              then let* _ := SendHandshakeInitiation p false in ret tt
              else SendStagedLoop fuel false (Some k) p
          end
      else
        let* x := getPeer p in
        match staged x, k0 with
        | elemsContainer :: rest, Some k =>
            modPeer p (fun x => x <| staged := rest |>);;;
            let* '(elems, elemsContainerOOO) := assignNonces p k elemsContainer in
            let ooo := match elemsContainerOOO with [] => false | _ => true end in
            when ooo (StagePackets p elemsContainerOOO);;;
            match elems with
            | [] => SendStagedLoop fuel true None p
            | _ =>
                let* x := getPeer p in
                when (isRunning x)
                  (let* c := shareContainer elems in
                   modPeer p (fun x => x <| outbound ::= fun q => q ++ [c] |>);;;
                   modD (fun d => d <| d_encryption ::= fun q => q ++ [c] |>));;;
                if ooo then SendStagedLoop fuel true None p else SendStagedLoop fuel false k0 p
            end
        | _, _ => ret tt
        end
  end.

(** Enough turns for any queue: one per container, the one put back, and the
    two visits to [top] each costs. *)
Definition SendStagedPackets (p : peer_id) : M unit :=
  let* x := getPeer p in SendStagedLoop (3 * length (staged x) + 6) true None p.

Definition SendKeepalive (p : peer_id) : M unit :=
  let* x := getPeer p in
  when ((length (staged x) =? 0)%nat && isRunning x)
    (modPeer p (fun x => x <| staged ::= fun q => q ++ [[NewOutboundElement []]] |>));;;
  SendStagedPackets p.

(** ** Reading from the TUN device *)

Definition IPv4HeaderLen : nat := 20.
Definition IPv6HeaderLen : nat := 40.
Definition IPv4offsetTotalLength : nat := 2.
Definition IPv4offsetSrc : nat := 12.
Definition IPv4offsetDst : nat := IPv4offsetSrc + IPv4len.
Definition IPv6offsetPayloadLength : nat := 4.
Definition IPv6offsetSrc : nat := 8.
Definition IPv6offsetDst : nat := IPv6offsetSrc + IPv6len.

(** The peer a packet read from the device is for. *)
Definition routePacket (packet : bytes) : M (option peer_id) :=
  match packet with
  | [] => ret None
  | b :: _ =>
      let version := Z.shiftr b 4 in
      if version =? 4 then
        if (length packet <? IPv4HeaderLen)%nat then ret None
        else onRoutes (Lookup (slice IPv4offsetDst (IPv4offsetDst + IPv4len) packet))
      else if version =? 6 then
        if (length packet <? IPv6HeaderLen)%nat then ret None
        else onRoutes (Lookup (slice IPv6offsetDst (IPv6offsetDst + IPv6len) packet))
      else ret None
  end.

(** [elemsByPeer]: appending under a key of the map. *)
Fixpoint addFor {K E} `{EqDecision K} (p : K) (e : E) (m : list (K * list E)) : list (K * list E) :=
  match m with
  | [] => [(p, [e])]
  | (q, es) :: m => if decide (p = q) then (q, es ++ [e]) :: m else (q, es) :: addFor p e m
  end.

Fixpoint gatherTUN (pkts : list bytes) (m : list (peer_id * list OutElem))
    : M (list (peer_id * list OutElem)) :=
  match pkts with
  | [] => ret m
  | packet :: pkts =>
      let* peer := routePacket packet in
      gatherTUN pkts (match peer with None => m | Some p => addFor p (NewOutboundElement packet) m end)
  end.

(** One turn of [RoutineReadFromTUN] on what [Read] put into the buffers. *)
Definition readFromTUN (pkts : list bytes) : M unit :=
  let* elemsByPeer := gatherTUN pkts [] in
  let* elemsByPeer := rangeOrder elemsByPeer in
  forEach elemsByPeer (fun '(p, elems) =>
    let* x := getPeer p in
    when (isRunning x) (StagePackets p elems;;; SendStagedPackets p)).

(** ** Encryption and transmission *)

(** The header and the encryption of an element's padded content. *)
Definition sealElem (keypair : Keypair) (packet : bytes) (elem : OutElem) : OutElem :=
  let header := le_enc 4 MessageTransportType ++ le_enc 4 (kp_remoteIndex keypair)
                  ++ le_enc 8 (oe_nonce elem) in
  let nonce := zeros 4 ++ le_enc 8 (oe_nonce elem) in
  elem <| oe_packet := header ++ aead_seal (send keypair) nonce packet [] |>.

(** The body of [RoutineEncryption] for one element; [paddingZeros[:paddingSize]]
    panics ([None]) for a size that is negative or more than the array has. *)
Definition encryptElem (mtu : Z) (keypair : Keypair) (elem : OutElem) : option OutElem :=
  let paddingSize := calculatePaddingSize (zlen (oe_packet elem)) mtu in
  if (paddingSize <? 0) || (PaddingMultiple <? paddingSize) then None
  else Some (sealElem keypair (oe_packet elem ++ zeros (Z.to_nat paddingSize)) elem).

Fixpoint encryptElems (elems : list OutElem) : M (list OutElem) :=
  match elems with
  | [] => ret []
  | elem :: elems =>
      match oe_keypair elem with
      | None => panic
      | Some k =>
          let* keypair := getKp k in
          let* d := getD in
          match encryptElem (d_mtu d) keypair elem with
          | None => panic
          | Some elem => let* rest := encryptElems elems in ret (elem :: rest)
          end
      end
  end.

Definition getOut (c : cont_id) : M (Container OutElem) := fun w =>
  match d_outConts (dev w) !! c with Some x => Some (x, w) | None => None end.
Definition putOut (c : cont_id) (x : Container OutElem) : M unit :=
  modD (fun d => d <| d_outConts ::= <[c := x]> |>).
Definition dropOut (c : cont_id) : M unit := modD (fun d => d <| d_outConts ::= delete c |>).

(** A worker's turn on a container: encrypt, then [Unlock]. *)
Definition encryptContainer (c : cont_id) : M unit :=
  let* cont := getOut c in
  let* elems := encryptElems (elems cont) in
  putOut c (mkContainer false elems).

(** A turn of [RoutineSequentialSender], once it holds the lock of [c]. *)
Definition sequentialSend (p : peer_id) (c : cont_id) : M unit :=
  let* cont := getOut c in
  let* x := getPeer p in
  if negb (isRunning x) then dropOut c
  else
    let bufs := oe_packet <$> elems cont in
    let dataSent := existsb (fun (b : bytes) => negb (length b =? MessageKeepaliveSize)%nat) bufs in
    timersAnyAuthenticatedPacketTraversal p;;;
    timersAnyAuthenticatedPacketSent p;;;
    let* err := SendBuffers p bufs in
    when dataSent (timersDataSent p);;;
    dropOut c;;;
    match err with
    | NoError | BindError (SendGSODisabled true) => keepKeyFreshSending p
    | _ => ret tt
    end.

(** ** Expirations, [device/timers.go], and the wiping of keys, [device/peer.go] *)

Definition ZeroAndFlushAll (p : peer_id) : M unit :=
  let* x := getPeer p in
  DeleteKeypair (previous (keypairs x));;;
  DeleteKeypair (current (keypairs x));;;
  DeleteKeypair (next (keypairs x));;;
  modPeer p (fun x => x <| keypairs := mkKeypairs None None None |>);;;
  indexDelete (localIndex (handshake x));;;
  modHs p clearHandshake;;;
  FlushStagedPackets p.

Definition ExpireCurrentKeypairs (p : peer_id) : M unit :=
  let* x := getPeer p in
  let* now := getNow in
  indexDelete (localIndex (handshake x));;;
  modHs p (fun h => clearHandshake h <| lastSentHandshake := Some (now - (RekeyTimeout + second)) |>);;;
  let* x := getPeer p in
  match current (keypairs x) with
  | Some k => modKp k (fun kp => kp <| sendNonce := RejectAfterMessages |>)
  | None => ret tt
  end;;;
  match next (keypairs x) with
  | Some k => modKp k (fun kp => kp <| sendNonce := RejectAfterMessages |>)
  | None => ret tt
  end.

(** The timer has fired, so it is no longer pending when these run. *)
Definition expiredRetransmitHandshake (p : peer_id) : M unit :=
  let* x := getPeer p in
  if handshakeAttempts (timers x) >? MaxTimerHandshakes then
    let* active := timersActive p in
    when active (modTimers p (fun t => t <| sendKeepalive ::= timerDel |>));;;
    FlushStagedPackets p;;;
    let* active := timersActive p in
    let* x := getPeer p in
    if active && negb (isPending (zeroKeyMaterial (timers x))) then
      let* now := getNow in
      modTimers p (fun t => t <| zeroKeyMaterial ::= timerMod now (RejectAfterTime * 3) |>)
    else ret tt
  else
    modTimers p (fun t => t <| handshakeAttempts ::= fun n => u32 (n + 1) |>);;;
    markEndpointSrcForClearing p;;;
    let* _ := SendHandshakeInitiation p true in
    ret tt.

Definition expiredSendKeepalive (p : peer_id) : M unit :=
  SendKeepalive p;;;
  let* x := getPeer p in
  if needAnotherKeepalive (timers x) then
    modTimers p (fun t => t <| needAnotherKeepalive := false |>);;;
    let* active := timersActive p in
    if active then
      let* now := getNow in
      modTimers p (fun t => t <| sendKeepalive ::= timerMod now KeepaliveTimeout |>)
    else ret tt
  else ret tt.

Definition expiredNewHandshake (p : peer_id) : M unit :=
  markEndpointSrcForClearing p;;;
  let* _ := SendHandshakeInitiation p false in
  ret tt.

Definition expiredZeroKeyMaterial (p : peer_id) : M unit := ZeroAndFlushAll p.

Definition expiredPersistentKeepalive (p : peer_id) : M unit :=
  let* x := getPeer p in
  when (persistentKeepaliveInterval x >? 0) (SendKeepalive p).

(** [NewTimer]: the expiration runs if the timer is still pending. *)
Inductive timerName := TRetransmit | TKeepalive | TNewHandshake | TZeroKey | TPersistent.

Definition timerOf (n : timerName) (t : Timers) : Timer :=
  match n with
  | TRetransmit => retransmitHandshake t | TKeepalive => sendKeepalive t
  | TNewHandshake => newHandshake t | TZeroKey => zeroKeyMaterial t
  | TPersistent => persistentKeepalive t
  end.
Definition disarm (n : timerName) (t : Timers) : Timers :=
  match n with
  | TRetransmit => t <| retransmitHandshake ::= timerDel |>
  | TKeepalive => t <| sendKeepalive ::= timerDel |>
  | TNewHandshake => t <| newHandshake ::= timerDel |>
  | TZeroKey => t <| zeroKeyMaterial ::= timerDel |>
  | TPersistent => t <| persistentKeepalive ::= timerDel |>
  end.

Definition fireTimer (n : timerName) (p : peer_id) : M unit :=
  let* x := getPeer p in
  if negb (isPending (timerOf n (timers x))) then ret tt
  else
    modTimers p (disarm n);;;
    match n with
    | TRetransmit => expiredRetransmitHandshake p
    | TKeepalive => expiredSendKeepalive p
    | TNewHandshake => expiredNewHandshake p
    | TZeroKey => expiredZeroKeyMaterial p
    | TPersistent => expiredPersistentKeepalive p
    end.

End Send.

(** ** Padding *)

Lemma roundUp_spec n : roundUp n = 16 * ((n + 15) / 16).
Proof.
  unfold roundUp, PaddingMultiple. replace (n + 16 - 1) with (n + 15) by lia.
  change (16 - 1) with (Z.ones 4). rewrite Z.ldiff_ones_r by lia.
  rewrite Z.shiftl_mul_pow2, Z.shiftr_div_pow2 by lia. change (2 ^ 4) with 16. lia.
Qed.

(** What is padded: the part of the packet in the last unit of [mtu] bytes. *)
Definition lastUnitOf (packetSize mtu : Z) : Z :=
  if mtu =? 0 then packetSize else if packetSize >? mtu then packetSize mod mtu else packetSize.

(** The padding is fewer than 16 bytes, so it fits in the array of zeros it
    is sliced from, and it fills the last unit up to a multiple of 16, or up to
    the MTU where that comes first. *)
Theorem calculatePaddingSize_correct (packetSize mtu : Z) :
  0 <= packetSize -> 0 <= mtu ->
  let r := calculatePaddingSize packetSize mtu in
  0 <= r < PaddingMultiple /\
  ((16 | lastUnitOf packetSize mtu + r) \/ mtu > 0 /\ lastUnitOf packetSize mtu + r = mtu).
Proof.
  intros Hs Hm. unfold calculatePaddingSize, lastUnitOf. destruct (Z.eqb_spec mtu 0) as [->|Hne].
  - rewrite roundUp_spec. pose proof (Z.div_mod (packetSize + 15) 16).
    pose proof (Z.mod_pos_bound (packetSize + 15) 16). unfold PaddingMultiple. split; [lia|].
    left. exists ((packetSize + 15) / 16). lia.
  - rewrite Z.rem_mod_nonneg by lia. set (u := if packetSize >? mtu then packetSize mod mtu else packetSize).
    assert (0 <= u <= mtu) as Hu.
    { unfold u. rewrite Z.gtb_ltb. destruct (Z.ltb_spec mtu packetSize); [|lia].
      pose proof (Z.mod_pos_bound packetSize mtu). lia. }
    cbv zeta. rewrite roundUp_spec. pose proof (Z.div_mod (u + 15) 16). pose proof (Z.mod_pos_bound (u + 15) 16).
    unfold PaddingMultiple. rewrite Z.gtb_ltb. destruct (Z.ltb_spec mtu (16 * ((u + 15) / 16))).
    + split; [lia|]. right. lia.
    + split; [lia|]. left. exists ((u + 15) / 16). lia.
Qed.

Lemma calculatePaddingSize_correct_witness :
  0 <= 1003 /\ let r := calculatePaddingSize 1003 1420 in
  0 <= r < PaddingMultiple /\
  ((16 | lastUnitOf 1003 1420 + r) \/ 1420 > 0 /\ lastUnitOf 1003 1420 + r = 1420).
Proof. split; [lia|]. apply (calculatePaddingSize_correct 1003 1420); lia. Defined.

(** With an MTU that is not negative, encryption never panics. *)
Lemma encryptElem_some `{C : Crypto} mtu keypair elem : 0 <= mtu ->
  encryptElem mtu keypair elem =
    Some (sealElem keypair (oe_packet elem ++ zeros (Z.to_nat (calculatePaddingSize (zlen (oe_packet elem)) mtu))) elem).
Proof.
  intros Hm. unfold encryptElem. destruct (calculatePaddingSize_correct (zlen (oe_packet elem)) mtu) as [Hr _]; [lia|done|].
  rewrite (proj2 (Z.ltb_ge _ _)), (proj2 (Z.ltb_ge _ _)) by lia. done.
Qed.

(** With a negative one it can: -10 leaves a unit of 5 bytes of the packet's 15, and a
    padding of -15 bytes. *)
Example negative_mtu_panics `{C : Crypto} keypair :
  encryptElem (-10) keypair (NewOutboundElement (zeros 15)) = None.
Proof. reflexivity. Qed.
