(* ===== verification/Nonces.v ===== *)
(** The send counter of a keypair under concurrency: [SendStagedPackets] of
    [device/send.go] is run by the TUN reader, the handshake workers, the
    receivers and the timers at once, and [ExpireCurrentKeypairs] of
    [device/peer.go] may step in at any time. *)
From S2P Require Import Prelude State.

(** ** The code: the atomic instructions on [keypair.sendNonce] *)

(** A goroutine between two elements, or about to run
    [keypair.sendNonce.Store(RejectAfterMessages)]. *)
Inductive pc := Idle | MustStore.
#[export] Instance pc_eq_dec : EqDecision pc.
Proof. solve_decision. Defined.

(** The counter, where every goroutine is, and the nonces given to elements
    that will be sent, newest first. *)
Record nonceState := mkNonces { counter : Z; where_ : gmap nat pc; used : list Z }.

(** [elem.nonce = keypair.sendNonce.Add(1) - 1] with the test that follows. *)
Definition takeNonce (t : nat) (s : nonceState) : nonceState :=
  let c := u64 (counter s + 1) in
  let nonce := u64 (c - 1) in
  if nonce >=? RejectAfterMessages
  then mkNonces c (<[t := MustStore]> (where_ s)) (used s)
  else mkNonces c (where_ s) (nonce :: used s).

(** [keypair.sendNonce.Store(RejectAfterMessages)] *)
Definition storeLimit (t : nat) (s : nonceState) : nonceState :=
  mkNonces RejectAfterMessages (<[t := Idle]> (where_ s)) (used s).
Definition expire (s : nonceState) : nonceState := mkNonces RejectAfterMessages (where_ s) (used s).

Inductive nonceStep : nonceState -> nonceState -> Prop :=
  | StepTake t s : where_ s !! t = Some Idle -> nonceStep s (takeNonce t s)
  | StepStore t s : where_ s !! t = Some MustStore -> nonceStep s (storeLimit t s)
  | StepExpire s : nonceStep s (expire s).

(** A fresh keypair and [n] goroutines. *)
Definition freshNonces (n : nat) : nonceState :=
  mkNonces 0 (list_to_map ((fun t => (t, Idle)) <$> seq 0 n)) [].

(** ** The invariant *)

Definition storing (s : nonceState) : gmap nat pc := filter (fun kv => kv.2 = MustStore) (where_ s).

Record nonceInv (n : nat) (s : nonceState) : Prop := {
  ni_threads : size (where_ s) = n;
  ni_counter : 0 <= counter s <= RejectAfterMessages + Z.of_nat (size (storing s));
  ni_below : forall x, x ∈ used s -> 0 <= x < counter s /\ x < RejectAfterMessages;
  ni_nodup : NoDup (used s) }.

(** ** Lemmas *)

Lemma storing_size s : (size (storing s) <= size (where_ s))%nat.
Proof. apply map_subseteq_size, map_filter_subseteq. Qed.

Lemma storing_idle t s c u : where_ s !! t = Some Idle ->
  size (storing (mkNonces c (<[t := MustStore]> (where_ s)) u)) = S (size (storing s)).
Proof.
  intros Ht. unfold storing. cbn [where_]. rewrite map_filter_insert_True by done.
  apply map_size_insert_None, map_lookup_filter_None. right. intros x Hx. by simplify_eq.
Qed.

Lemma storing_store t s c u : where_ s !! t = Some MustStore ->
  S (size (storing (mkNonces c (<[t := Idle]> (where_ s)) u))) = size (storing s).
Proof.
  intros Ht. unfold storing. cbn [where_].
  rewrite map_filter_insert_False, map_filter_delete by done.
  assert (filter (fun kv : nat * pc => kv.2 = MustStore) (where_ s) !! t = Some MustStore) as Hf
    by by apply map_lookup_filter_Some.
  rewrite map_size_delete_Some by by eexists.
  assert (size (filter (fun kv : nat * pc => kv.2 = MustStore) (where_ s)) <> 0%nat); [|lia].
  intros Hz. apply map_size_empty_inv in Hz. by rewrite Hz, lookup_empty in Hf.
Qed.

Lemma nonceInv_step n s s' : Z.of_nat n <= 8192 -> nonceInv n s -> nonceStep s s' -> nonceInv n s'.
Proof.
  intros Hn [Ht Hc Hb Hd] Hstep. pose proof (storing_size s) as Hs. rewrite Ht in Hs.
  assert (RejectAfterMessages + 8192 < 2 ^ 64) as HR by done.
  assert (0 < RejectAfterMessages) as HR0 by done.
  destruct Hstep as [t s Hidle|t s Hst|s].
  - assert (S (size (storing s)) <= n)%nat as Hroom.
    { rewrite <- Ht, <- (storing_idle t s 0 []) by done. etrans; [apply storing_size|]. cbn [where_].
      by rewrite map_size_insert_Some by by eexists. }
    unfold takeNonce. rewrite (u64_small (counter s + 1)) by lia.
    replace (counter s + 1 - 1) with (counter s) by lia. rewrite (u64_small (counter s)) by lia.
    destruct (Z.geb_spec (counter s) RejectAfterMessages); constructor; cbn [counter where_ used].
    + by rewrite map_size_insert_Some by by eexists.
    + rewrite storing_idle by done. lia.
    + intros x Hx. destruct (Hb x Hx). lia.
    + done.
    + done.
    + change (storing (mkNonces _ (where_ s) _)) with (storing s). lia.
    + intros x [->|Hx]%elem_of_cons; [lia|]. destruct (Hb x Hx). lia.
    + apply NoDup_cons. split; [|done]. intros Hx. destruct (Hb _ Hx). lia.
  - pose proof (storing_store t s RejectAfterMessages (used s) Hst).
    constructor; cbn [storeLimit counter where_ used].
    + by rewrite map_size_insert_Some by by eexists.
    + unfold storeLimit. lia.
    + intros x Hx. destruct (Hb x Hx). lia.
    + done.
  - constructor; cbn [expire counter where_ used]; [done| | |done].
    + lia.
    + intros x Hx. destruct (Hb x Hx). lia.
Qed.

Lemma nonceInv_fresh n : nonceInv n (freshNonces n).
Proof.
  constructor; cbn [freshNonces counter where_ used].
  - rewrite map_size_list_to_map; [by rewrite length_fmap, length_seq|].
    rewrite <- list_fmap_compose. cbn. rewrite list_fmap_id. apply NoDup_seq.
  - assert (0 < RejectAfterMessages) by done. lia.
  - by intros x ?%elem_of_nil.
  - apply NoDup_nil_2.
Qed.

(** ** Properties *)

(** C6: however up to 2^13 goroutines interleave their atomic instructions on the
    counter of a keypair, and whenever its expiry steps in, the 64-bit counter
    never wraps, and no nonce is ever given to two elements, nor one at or past
    [RejectAfterMessages]: the 2^13 that the limit leaves below 2^64 are what
    the goroutines between their [Add] and their [Store] can use up. *)
Theorem nonces_never_reused (n : nat) (s : nonceState) :
  Z.of_nat n <= 8192 -> rtc nonceStep (freshNonces n) s ->
  NoDup (used s) /\ (forall x, x ∈ used s -> 0 <= x < RejectAfterMessages) /\
  counter s < 2 ^ 64 /\
  forall t s', where_ s !! t = Some Idle -> s' = takeNonce t s -> counter s' = counter s + 1.
Proof.
  intros Hn Hr.
  assert (nonceInv n s) as [Ht Hc Hb Hd].
  { assert (forall s0, nonceInv n s0 -> rtc nonceStep s0 s -> nonceInv n s) as Hind.
    { intros s0 H0. induction 1 as [|s0 s1 s2 H1 _ IH]; [done|]. by eapply IH, nonceInv_step. }
    by eapply Hind, Hr; apply nonceInv_fresh. }
  pose proof (storing_size s) as Hs. rewrite Ht in Hs.
  assert (RejectAfterMessages + 8192 < 2 ^ 64) as HR by done.
  split_and!; [done|intros x Hx; destruct (Hb x Hx); lia|lia|].
  intros t s' Hidle ->.
  assert (S (size (storing s)) <= n)%nat as Hroom.
  { rewrite <- Ht, <- (storing_idle t s 0 []) by done. etrans; [apply storing_size|]. cbn [where_].
    by rewrite map_size_insert_Some by by eexists. }
  unfold takeNonce. destruct (_ >=? _); cbn [counter]; apply u64_small; lia.
Qed.

(** ** Witnesses *)

(** Two goroutines race past an expiry: one has to store, the other too. *)
Definition raced : nonceState :=
  takeNonce 0 (takeNonce 1 (expire (takeNonce 1 (takeNonce 0 (freshNonces 2))))).

Lemma nonces_never_reused_witness :
  used raced = [1; 0] /\ counter raced = RejectAfterMessages + 2 /\
  NoDup (used raced) /\ (forall x, x ∈ used raced -> 0 <= x < RejectAfterMessages) /\
  counter raced < 2 ^ 64 /\
  forall t s', where_ raced !! t = Some Idle -> s' = takeNonce t raced -> counter s' = counter raced + 1.
Proof.
  split; [vm_compute; reflexivity|]. split; [vm_compute; reflexivity|].
  apply (nonces_never_reused 2); [lia|].
  eapply rtc_l; [apply (StepTake 0); reflexivity|]. eapply rtc_l; [apply (StepTake 1); reflexivity|].
  eapply rtc_l; [apply StepExpire|]. eapply rtc_l; [apply (StepTake 1); reflexivity|].
  eapply rtc_l; [apply (StepTake 0); reflexivity|]. apply rtc_refl.
Defined.
