(* ===== verification/Staging.v ===== *)
(** From staged packets to queued ones: the nonces that [SendStagedPackets] of
    [device/send.go] gives, and what it puts on the two queues. *)
From S2P Require Import Prelude Replay Messages NoiseHelpers ToyCrypto Cookie AllowedIPs.
From S2P Require Import State IndexTable Timers Handshake Session Send.

(** ** Specification *)

(** An element that got its nonce, and one that came too late for the key. *)
Definition stamped (p : peer_id) (k : kp_id) (nonce : Z) (e : OutElem) : OutElem :=
  mkOutElem (oe_packet e) nonce (Some k) (Some p).
Definition late (p : peer_id) (e : OutElem) : OutElem :=
  mkOutElem (oe_packet e) RejectAfterMessages (oe_keypair e) (Some p).

(** How many of [len] elements the key can still serve. *)
Definition room (n : Z) (len : nat) : nat := Nat.min len (Z.to_nat (RejectAfterMessages - n)).

Definition keptOf (p : peer_id) (k : kp_id) (n : Z) (es : list OutElem) : list OutElem :=
  imap (fun i => stamped p k (n + Z.of_nat i)) (take (room n (length es)) es).
Definition lateOf (p : peer_id) (n : Z) (es : list OutElem) : list OutElem :=
  late p <$> drop (room n (length es)) es.

(** ** Lemmas *)

Lemma setKp_same (w : World) k kp : d_keypairs (dev w) !! k = Some kp ->
  w <| dev ::= fun d => d <| d_keypairs ::= <[k := kp]> |> |> = w.
Proof. intros H. destruct w as [[] ? ? ? ? ? ? ? ?]. cbn in *. by rewrite insert_id. Qed.

Lemma runs_modKp k f w x (Q : unit -> World -> Prop) :
  d_keypairs (dev w) !! k = Some x ->
  Q tt (w <| dev ::= fun d => d <| d_keypairs ::= <[k := f x]> |> |>) -> runs (modKp k f) w Q.
Proof. intros E H. unfold runs, modKp. by rewrite E. Qed.

Lemma room_S n len : 0 <= n <= RejectAfterMessages ->
  room n (S len) = if n >=? RejectAfterMessages then 0%nat else S (room (n + 1) len).
Proof.
  intros Hn. unfold room. rewrite Z.geb_leb. destruct (Z.leb_spec RejectAfterMessages n); lia.
Qed.

(** The nonces go up by one until the key is used up. *)
Lemma assignNonces_runs p k es w kp : d_keypairs (dev w) !! k = Some kp ->
  0 <= sendNonce kp <= RejectAfterMessages ->
  let n := sendNonce kp in
  runs (assignNonces p k es) w (fun r w' => r = (keptOf p k n es, lateOf p n es) /\
    w' = w <| dev ::= fun d => d <| d_keypairs ::=
      <[k := kp <| sendNonce := n + Z.of_nat (room n (length es)) |>]> |> |>).
Proof.
  revert w kp. induction es as [|e es IH]; intros w kp Hk Hn n; cbn [assignNonces].
  { wstep. split; [done|]. unfold room. cbn [length]. rewrite Nat.min_0_l, Z.add_0_r.
    symmetry. apply setKp_same. rewrite Hk. by destruct kp. }
  assert (RejectAfterMessages + 1 < 2 ^ 64) as HR by done.
  wstep. eapply runs_modKp; [exact Hk|]. wstep. wstep. cbv zeta.
  cbn [sendNonce set_field]. rewrite (u64_small (sendNonce kp + 1)) by lia.
  replace (sendNonce kp + 1 - 1) with n by (unfold n; lia). rewrite u64_small by lia.
  unfold keptOf, lateOf. cbn [length]. rewrite room_S by done. fold n in Hn.
  destruct (Z.geb_spec n RejectAfterMessages) as [Hge|Hlt].
  - assert (n = RejectAfterMessages) as En by lia.
    wstep. eapply runs_modKp; [wlookup|]. wstep.
    match goal with |- runs _ ?w1 _ => set (w2 := w1) end.
    eapply runs_mono; [apply (IH w2 (kp <| sendNonce := RejectAfterMessages |>))|].
    { unfold w2. wlookup. }
    { cbn. lia. }
    cbn [sendNonce set_field]. intros [kept ooo] w' [[= -> ->] ->]. wstep. unfold keptOf, lateOf.
    assert (room RejectAfterMessages (length es) = 0%nat) as -> by (unfold room; lia).
    cbn [take drop imap fmap list_fmap]. split; [by rewrite En|].
    unfold w2. cbn. rewrite !insert_insert_eq. cbn. by rewrite En.
  - wstep. match goal with |- runs _ ?w1 _ => set (w2 := w1) end.
    eapply runs_mono; [apply (IH w2 (kp <| sendNonce := n + 1 |>))|].
    { unfold w2. wlookup. }
    { cbn. lia. }
    cbn [sendNonce set_field]. intros [kept ooo] w' [[= -> ->] ->]. wstep.
    unfold keptOf, lateOf. cbn [take drop imap]. split.
    + f_equal. f_equal; [unfold stamped; cbn; f_equal; lia|]. apply imap_ext.
      intros i x _. cbn. f_equal. lia.
    + replace (n + 1 + Z.of_nat (room (n + 1) (length es)))
        with (n + Z.of_nat (S (room (n + 1) (length es)))) by lia.
      unfold w2. cbn. by rewrite !insert_insert_eq.
Qed.

(** ** Staged packets of a live session *)

Section Staged.
Context `{C : Crypto}.

(** The containers as they are queued. *)
Fixpoint stampAll (p : peer_id) (k : kp_id) (n : Z) (ss : list (list OutElem)) : list (list OutElem) :=
  match ss with
  | [] => []
  | es :: ss => imap (fun i => stamped p k (n + Z.of_nat i)) es :: stampAll p k (n + zlen es) ss
  end.

Lemma concat_stampAll p k n ss :
  concat (stampAll p k n ss) = imap (fun i => stamped p k (n + Z.of_nat i)) (concat ss).
Proof.
  revert n. induction ss as [|es ss IH]; intros n; cbn [stampAll concat]; [done|].
  rewrite IH, imap_app. f_equal. apply imap_ext. intros i x _. cbn. f_equal. lia.
Qed.

Lemma runs_share es w (Q : cont_id -> World -> Prop) :
  (forall c, d_outConts (dev w) !! c = None ->
    Q c (w <| dev ::= fun d => d <| d_outConts ::= <[c := mkContainer true es]> |> |>)) ->
  runs (shareContainer es) w Q.
Proof. intros H. apply H, not_elem_of_dom, is_fresh. Qed.

(** What the loop has done once it has worked off [ss]: the nonces given, the
    new containers at the end of both queues, and nothing else. *)
Definition queued (p : peer_id) (k : kp_id) (ss : list (list OutElem)) (w w' : World) : Prop :=
  exists x kp cs cts, d_peers (dev w) !! p = Some x /\ d_keypairs (dev w) !! k = Some kp /\
    Forall2 (fun c es => cts !! c = Some (mkContainer true es)) cs (stampAll p k (sendNonce kp) ss) /\
    (forall c ct, d_outConts (dev w) !! c = Some ct -> cts !! c = Some ct) /\
    w' = w <| dev ::= fun d => d
      <| d_peers ::= <[p := x <| staged := [] |> <| outbound ::= fun q => q ++ cs |>]> |>
      <| d_keypairs ::= <[k := kp <| sendNonce := sendNonce kp + zlen (concat ss) |>]> |>
      <| d_outConts := cts |> <| d_encryption ::= fun q => q ++ cs |> |>.

Lemma queued_nil p k w x kp : d_peers (dev w) !! p = Some x -> staged x = [] ->
  d_keypairs (dev w) !! k = Some kp -> queued p k [] w w.
Proof.
  intros Ex Es Ek. exists x, kp, [], (d_outConts (dev w)).
  split_and!; [done|done|by constructor|done|]. destruct w as [[] ? ? ? ? ? ? ? ?]. cbn in *.
  rewrite !app_nil_r, Z.add_0_r, !insert_id; [done|rewrite Ek; by destruct kp|].
  rewrite Ex, <- Es. by destruct x.
Qed.

Lemma queued_facts p k ss w w' x kp : queued p k ss w w' -> d_peers (dev w) !! p = Some x ->
  d_keypairs (dev w) !! k = Some kp ->
  exists x' cs ess, d_peers (dev w') !! p = Some x' /\ staged x' = [] /\ outbound x' = outbound x ++ cs /\
    d_encryption (dev w') = d_encryption (dev w) ++ cs /\
    Forall2 (fun c es => d_outConts (dev w') !! c = Some (mkContainer true es)) cs ess /\
    concat ess = imap (fun i => stamped p k (sendNonce kp + Z.of_nat i)) (concat ss) /\
    d_keypairs (dev w') !! k = Some (kp <| sendNonce := sendNonce kp + zlen (concat ss) |>).
Proof.
  intros (y & kp' & cs & cts & Ey & Ek' & Hcs & _ & ->) Ex Ek.
  assert (y = x) as -> by congruence. assert (kp' = kp) as -> by congruence.
  eexists _, cs, (stampAll p k (sendNonce kp) ss). split; [apply lookup_insert_eq|].
  split_and!; [done|done|done|exact Hcs|apply concat_stampAll|apply lookup_insert_eq].
Qed.

Lemma SendStagedLoop_live p k ss fuel w x kp :
  (length ss < fuel)%nat -> d_peers (dev w) !! p = Some x -> staged x = ss -> isRunning x = true ->
  Forall (fun es => es <> []) ss -> d_keypairs (dev w) !! k = Some kp ->
  0 <= sendNonce kp -> sendNonce kp + zlen (concat ss) <= RejectAfterMessages ->
  runs (SendStagedLoop fuel false (Some k) p) w (fun _ w' => queued p k ss w w').
Proof.
  revert fuel w x kp. induction ss as [|es ss IH]; intros [|fuel] w x kp Hf Ex Es Hr Hne Ek Hn Hsum;
    cbn [length] in Hf; try lia; cbn [SendStagedLoop].
  - do 2 wstep. rewrite Es. wstep. by eapply queued_nil.
  - apply Forall_cons in Hne as [Hes Hne]. cbn [concat] in Hsum. rewrite length_app, Nat2Z.inj_add in Hsum.
    do 2 wstep. rewrite Es. do 3 wstep.
    match goal with |- runs _ ?w0 _ => set (w1 := w0) end.
    eapply runs_mono; [apply (assignNonces_runs p k es w1 kp); [exact Ek|lia]|].
    assert (room (sendNonce kp) (length es) = length es) as Er by (unfold room; lia).
    unfold keptOf, lateOf. rewrite Er, firstn_all, drop_all. cbn [fmap list_fmap].
    intros [kept ooo] w2 [[= -> ->] ->]. cbn [when]. do 2 wstep.
    set (kept := imap (fun i => stamped p k (sendNonce kp + Z.of_nat i)) es).
    assert (kept <> []) as Hkept by (unfold kept; destruct es; done).
    assert (forall (A B : M unit), match kept with [] => A | _ => B end = B) as Hk by (by destruct kept).
    rewrite Hk. do 2 wstep. cbn [isRunning set_field]. rewrite Hr. do 3 wstep.
    apply runs_share. intros c Hc. do 3 wstep.
    match goal with |- runs _ ?w0 _ => set (w3 := w0) end.
    eapply runs_mono; [eapply (IH fuel w3); [lia|unfold w3; wlookup|done|done|done|unfold w3; wlookup|cbn; lia|cbn; lia]|].
    intros _ w' (y & kp' & cs & cts & Ey & Ek' & Hcs & Hcts & ->).
    unfold w3 in Ey, Ek'. cbn in Ey, Ek'. rewrite !lookup_insert_eq in Ey. rewrite lookup_insert_eq in Ek'.
    injection Ey as <-. injection Ek' as <-.
    exists x, kp, (c :: cs), cts. split_and!; [done|done| | |].
    + cbn [stampAll]. constructor; [|exact Hcs]. apply Hcts. unfold w3. wlookup.
    + intros c' ct Hc'. apply Hcts. unfold w3. cbn. rewrite lookup_insert_ne; [done|intros ->; cbn in Hc; congruence].
    + unfold w3, w1. cbn. rewrite !insert_insert_eq, <- !app_assoc, length_app. cbn.
      rewrite Nat2Z.inj_add, Z.add_assoc. done.
Qed.

(** ** Properties *)

(** C32: with a live session, [SendStagedPackets] puts every staged packet on the
    peer's outbound queue and, in the same containers, on the encryption queue;
    taken together they are the staged packets in order, with consecutive
    nonces from the key's counter on, which moves past the last one. *)
Theorem SendStagedPackets_queues (p : peer_id) (k : kp_id) (w : World) (x : Peer) (kp : Keypair) :
  d_peers (dev w) !! p = Some x -> d_state (dev w) = deviceStateUp -> isRunning x = true ->
  current (keypairs x) = Some k -> d_keypairs (dev w) !! k = Some kp ->
  since (w_now w) (Some (created kp)) < RejectAfterTime ->
  Forall (fun es => es <> []) (staged x) -> 0 <= sendNonce kp ->
  sendNonce kp + zlen (concat (staged x)) <= RejectAfterMessages ->
  exists w' x' cs ess, SendStagedPackets p w = Some (tt, w') /\
    d_peers (dev w') !! p = Some x' /\ staged x' = [] /\ outbound x' = outbound x ++ cs /\
    d_encryption (dev w') = d_encryption (dev w) ++ cs /\
    Forall2 (fun c es => d_outConts (dev w') !! c = Some (mkContainer true es)) cs ess /\
    concat ess = imap (fun i => stamped p k (sendNonce kp + Z.of_nat i)) (concat (staged x)) /\
    d_keypairs (dev w') !! k =
      Some (kp <| sendNonce := sendNonce kp + zlen (concat (staged x)) |>).
Proof.
  intros Ex Hup Hr Ec Ek Ht Hne Hn Hsum.
  assert (runs (SendStagedPackets p) w (fun _ w' => queued p k (staged x) w w')) as H.
  { unfold SendStagedPackets. do 2 wstep.
    replace (3 * length (staged x) + 6)%nat with (S (3 * length (staged x) + 5)) by lia. cbn [SendStagedLoop]. do 4 wstep.
    unfold isUp. rewrite Hup, bool_decide_true by done. cbn [negb]. rewrite orb_false_r.
    destruct (staged x) as [|es ss] eqn:Es.
    - cbn [length Nat.eqb]. wstep. by eapply queued_nil.
    - cbn [length Nat.eqb]. rewrite Ec. do 3 wstep.
      rewrite Z.geb_leb, (proj2 (Z.leb_gt _ _)); cycle 1.
      { apply Forall_cons in Hne as [Hes _]. cbn [concat] in Hsum. rewrite length_app, Nat2Z.inj_add in Hsum.
        destruct es; [done|]. cbn [length] in Hsum. lia. }
      do 1 wstep. rewrite Z.geb_leb, (proj2 (Z.leb_gt _ _)) by done. cbn [orb].
      eapply SendStagedLoop_live; try done. cbn [length]. lia. }
  destruct (runs_exists _ _ _ H) as ([] & w' & E & Hq).
  destruct (queued_facts _ _ _ _ _ _ _ Hq Ex Ek) as (x' & cs & ess & Hf). by exists w', x', cs, ess.
Qed.

End Staged.

(** ** Witnesses *)

Definition staging_peer : Peer :=
  sample_peer true <| keypairs := mkKeypairs (Some 7%positive) None None |>
    <| staged := [[NewOutboundElement [69; 1]; NewOutboundElement [69; 2]]; [NewOutboundElement [69; 3]]] |>.
Definition staging_keypair : Keypair := mkKeypair 41 (zeros 32) (zeros 32) zeroFilter true 0 5 6.
Definition staging_world : World :=
  sample_world 1000 staging_peer <| dev ::= fun d => d <| d_keypairs := {[ 7%positive := staging_keypair ]} |> |>.

Lemma SendStagedPackets_queues_witness :
  exists w' x' cs ess, SendStagedPackets (C := toyCrypto) 1 staging_world = Some (tt, w') /\
    d_peers (dev w') !! 1%positive = Some x' /\ staged x' = [] /\ outbound x' = outbound staging_peer ++ cs /\
    d_encryption (dev w') = d_encryption (dev staging_world) ++ cs /\
    Forall2 (fun c es => d_outConts (dev w') !! c = Some (mkContainer true es)) cs ess /\
    concat ess = imap (fun i => stamped 1 7 (sendNonce staging_keypair + Z.of_nat i))
      (concat (staged staging_peer)) /\
    d_keypairs (dev w') !! 7%positive =
      Some (staging_keypair <| sendNonce := sendNonce staging_keypair + zlen (concat (staged staging_peer)) |>).
Proof.
  apply (SendStagedPackets_queues 1 7 staging_world staging_peer staging_keypair); try reflexivity.
  - repeat (apply Forall_cons; split; [discriminate|]). by apply Forall_nil.
  - vm_compute. discriminate.
  - vm_compute. discriminate.
Defined.
