(* ===== verification/Receive.v ===== *)
(** The inbound flow, [device/receive.go]: the dispatch of datagrams,
    decryption by parallel workers, the handshake worker and the sequential
    delivery to the TUN device. *)
From S2P Require Import Prelude Replay Ratelimiter Messages NoiseHelpers ToyCrypto Cookie AllowedIPs.
From S2P Require Import State IndexTable Timers Handshake Session Send.

(** ** Containers *)

Definition shareInbound (elems : list InElem) : M cont_id := fun w =>
  let c := fresh (dom (d_inConts (dev w))) in
  Some (c, w <| dev ::= fun d => d <| d_inConts ::= <[c := mkContainer true elems]> |> |>).
Definition getIn (c : cont_id) : M (Container InElem) := fun w =>
  match d_inConts (dev w) !! c with Some x => Some (x, w) | None => None end.
Definition putIn (c : cont_id) (x : Container InElem) : M unit :=
  modD (fun d => d <| d_inConts ::= <[c := x]> |>).
Definition dropIn (c : cont_id) : M unit := modD (fun d => d <| d_inConts ::= delete c |>).

(** ** Dispatch of a batch *)

(** The elements gathered so far, by the peer the index table names. *)
Abbreviation inBatch := (list (option peer_id * list InElem)).

(** [select { case handshake.c <- elem: default: }] *)
Definition queueHandshake (e : HsElem) : M unit :=
  modD (fun d => if (length (d_handshakes d) <? QueueHandshakeSize)%nat
                 then d <| d_handshakes ::= fun q => q ++ [e] |> else d).

(** One datagram of the batch. *)
Definition dispatchPacket (packet : bytes) (from : Endpoint) (m : inBatch) : M inBatch :=
  if (length packet <? MinMessageSize)%nat then ret m
  else
    let msgType := getU32 packet 0 in
    let fixedSize (size : nat) :=
      (if negb (length packet =? size)%nat then ret m
       else queueHandshake (mkHsElem msgType packet from);;; ret m) in
    if msgType =? MessageTransportType then
      if (length packet <? MessageTransportSize)%nat then ret m
      else
        let receiver := getU32 packet MessageTransportOffsetReceiver in
        let* value := indexLookup receiver in
        match it_keypair value with
        | None => ret m
        | Some k =>
            let* keypair := getKp k in
            let* now := getNow in
            if created keypair + RejectAfterTime <? now then ret m
            else ret (addFor (it_peer value) (mkInElem (Some packet) 0 k from) m)
        end
    else if msgType =? MessageInitiationType then fixedSize MessageInitiationSize
    else if msgType =? MessageResponseType then fixedSize MessageResponseSize
    else if msgType =? MessageCookieReplyType then fixedSize MessageCookieReplySize
    else unknownPacket from;;; ret m.

Fixpoint dispatchPackets (pkts : list (bytes * Endpoint)) (m : inBatch) : M inBatch :=
  match pkts with
  | [] => ret m
  | (packet, from) :: pkts => let* m := dispatchPacket packet from m in dispatchPackets pkts m
  end.

(** One turn of [RoutineReceiveIncoming] on the datagrams that [recv] read.
    The containers are locked from their creation. *)
Definition receiveIncoming (pkts : list (bytes * Endpoint)) : M unit :=
  let* elemsByPeer := dispatchPackets pkts [] in
  let* elemsByPeer := rangeOrder elemsByPeer in
  forEach elemsByPeer (fun '(p, elems) =>
    match p with
    | None => panic
    | Some p =>
        let* x := getPeer p in
        when (isRunning x)
          (let* c := shareInbound elems in
           modPeer p (fun x => x <| inbound ::= fun q => q ++ [c] |>);;;
           modD (fun d => d <| d_decryption ::= fun q => q ++ [c] |>))
    end).

Section Receive.
Context `{C : Crypto}.

(** ** Decryption *)

(** The body of [RoutineDecryption] for one element. *)
Definition decryptElem (keypair : Keypair) (packet : bytes) (elem : InElem) : InElem :=
  let counter := slice MessageTransportOffsetCounter MessageTransportOffsetContent packet in
  let content := drop MessageTransportOffsetContent packet in
  let counter := le_dec counter in
  let nonce := zeros 4 ++ le_enc 8 counter in
  elem <| ie_counter := counter |> <| ie_packet := aead_open (receive keypair) nonce content [] |>.

Fixpoint decryptElems (elems : list InElem) : M (list InElem) :=
  match elems with
  | [] => ret []
  | elem :: elems =>
      match ie_packet elem with
      | None => panic
      | Some packet =>
          let* keypair := getKp (ie_keypair elem) in
          let* rest := decryptElems elems in
          ret (decryptElem keypair packet elem :: rest)
      end
  end.

(** A worker's turn on a container: decrypt, then [Unlock]. *)
Definition decryptContainer (c : cont_id) : M unit :=
  let* cont := getIn c in
  let* elems := decryptElems (elems cont) in
  putIn c (mkContainer false elems).

(** ** Handshake messages *)

Definition IsUnderLoad : M bool :=
  let* now := getNow in
  let* d := getD in
  if (QueueHandshakeSize / 8 <=? length (d_handshakes d))%nat then
    modD (fun d => d <| d_underLoadUntil := now + UnderLoadAfterTime |>);;;
    ret true
  else ret (d_underLoadUntil d >? now).

Definition handleCookieReply (elem : HsElem) : M unit :=
  match unmarshalCookieReply zeroCookieReply (he_packet elem) with
  | (Some _, _) => ret tt
  | (None, reply) =>
      let* entry := indexLookup (mc_Receiver reply) in
      match it_peer entry with
      | None => ret tt
      | Some p =>
          let* x := getPeer p in
          if negb (isRunning x) then ret tt
          else
            let* now := getNow in
            let '(_, cg) := ConsumeReply (cookieGenerator x) now reply in
            modPeer p (fun x => x <| cookieGenerator := cg |>)
      end
  end.

(** A worker with a message between two of its steps: in the rate limiter, before
    the message is consumed, between its check and the update of the handshake, and
    after the update. *)
Inductive hsWork :=
  | HsLimiter (elem : HsElem) (c : call (Addr := bytes))
  | HsConsume (elem : HsElem)
  | HsRecordInitiation (elem : HsElem) (v : checkedInitiation)
  | HsRecordResponse (elem : HsElem) (v : checkedResponse)
  | HsInitiated (elem : HsElem) (p : peer_id)
  | HsResponded (elem : HsElem) (p : peer_id).

(** The MAC fields, and whether the rate limiter is to be asked. *)
Definition admitHandshake (elem : HsElem) : M (option hsWork) :=
  let* d := getD in
  match CheckMAC1 (d_cookieChecker d) (he_packet elem) with
  | None => panic
  | Some false => ret None
  | Some true =>
      let* underLoad := IsUnderLoad in
      if negb underLoad then ret (Some (HsConsume elem))
      else
        let* d := getD in
        let* now := getNow in
        match CheckMAC2 (d_cookieChecker d) now (he_packet elem) (DstToBytes (he_endpoint elem)) with
        | None => panic
        | Some false => let* _ := SendHandshakeCookie elem in ret None
        | Some true => ret (Some (HsLimiter elem Idle))
        end
  end.

(** A part of [device.rate.limiter.Allow], and what its answer leads to. *)
Definition rateAllow (elem : HsElem) (c : call (Addr := bytes)) : M (option hsWork) :=
  let* d := getD in
  let* now := getNow in
  match callStep now (DstIP (he_endpoint elem)) c (d_limiter d) with
  | None => panic
  | Some (ans, c, limiter) =>
      modD (fun d => d <| d_limiter := limiter |>);;;
      ret (match ans with
           | None => Some (HsLimiter elem c)
           | Some (_, ok) => if ok then Some (HsConsume elem) else None
           end)
  end.

Definition addRxBytes (p : peer_id) (n : Z) : M unit :=
  modPeer p (fun x => x <| rxBytes ::= fun r => u64 (r + n) |>).

Definition consumeInitiation (elem : HsElem) : M (option hsWork) :=
  match unmarshalInitiation zeroInitiation (he_packet elem) with
  | (Some _, _) => ret None
  | (None, msg) => let* v := checkInitiation msg in ret (HsRecordInitiation elem <$> v)
  end.

Definition consumeResponse (elem : HsElem) : M (option hsWork) :=
  match unmarshalResponse zeroResponse (he_packet elem) with
  | (Some _, _) => ret None
  | (None, msg) => let* v := checkResponse msg in ret (HsRecordResponse elem <$> v)
  end.

(** What follows the consumption of an initiation, and of a response. *)
Definition handleInitiation (elem : HsElem) (p : peer_id) : M unit :=
  timersAnyAuthenticatedPacketTraversal p;;;
  timersAnyAuthenticatedPacketReceived p;;;
  SetEndpointFromPacket p (he_endpoint elem);;;
  addRxBytes p (zlen (he_packet elem));;;
  let* _ := SendHandshakeResponse p in
  ret tt.

Definition handleResponse (elem : HsElem) (p : peer_id) : M unit :=
  SetEndpointFromPacket p (he_endpoint elem);;;
  addRxBytes p (zlen (he_packet elem));;;
  timersAnyAuthenticatedPacketTraversal p;;;
  timersAnyAuthenticatedPacketReceived p;;;
  let* ok := BeginSymmetricSession p in
  if negb ok then ret tt
  else
    timersSessionDerived p;;;
    timersHandshakeComplete p;;;
    SendKeepalive p.

(** A message that [RoutineHandshake] takes from the queue, and the rest of its turn
    step by step; [None] is the end of the turn. *)
Definition handshakeBegin (elem : HsElem) : M (option hsWork) :=
  if he_msgType elem =? MessageCookieReplyType then handleCookieReply elem;;; ret None
  else if (he_msgType elem =? MessageInitiationType) || (he_msgType elem =? MessageResponseType) then
    admitHandshake elem
  else ret None.

Definition handshakeGoOn (work : hsWork) : M (option hsWork) :=
  match work with
  | HsLimiter elem c => rateAllow elem c
  | HsConsume elem =>
      if he_msgType elem =? MessageInitiationType then consumeInitiation elem else consumeResponse elem
  | HsRecordInitiation elem v => recordInitiation v;;; ret (Some (HsInitiated elem (ci_peer v)))
  | HsRecordResponse elem v => recordResponse v;;; ret (HsResponded elem <$> cr_peer v)
  | HsInitiated elem p => handleInitiation elem p;;; ret None
  | HsResponded elem p => handleResponse elem p;;; ret None
  end.

(** ** Sequential delivery *)

Definition keepKeyFreshReceiving (p : peer_id) : M unit :=
  let* x := getPeer p in
  if sentLastMinuteHandshake (timers x) then ret tt
  else
    match current (keypairs x) with
    | None => ret tt
    | Some k =>
        let* keypair := getKp k in
        let* now := getNow in
        if isInitiator keypair
           && (since now (Some (created keypair)) >? RejectAfterTime - KeepaliveTimeout - RekeyTimeout)
        then
          modTimers p (fun t => t <| sentLastMinuteHandshake := true |>);;;
          let* _ := SendHandshakeInitiation p false in ret tt
        else ret tt
    end.

(** The [switch] on the IP version: the packet to deliver, if any.  The source
    is cut from the buffer, whatever the length the packet was cut to. *)
Definition checkPacket (p : peer_id) (packet : bytes) : M (option bytes) :=
  let version := Z.shiftr (nth 0 packet 0) 4 in
  if version =? 4 then
    if (length packet <? IPv4HeaderLen)%nat then ret None
    else
      let length_ := be_dec (slice IPv4offsetTotalLength (IPv4offsetTotalLength + 2) packet) in
      if (length_ >? zlen packet) || (length_ <? Z.of_nat IPv4HeaderLen) then ret None
      else
        let* peer := onRoutes (Lookup (slice IPv4offsetSrc (IPv4offsetSrc + IPv4len) packet)) in
        if negb (bool_decide (peer = Some p)) then ret None
        else ret (Some (take (Z.to_nat length_) packet))
  else if version =? 6 then
    if (length packet <? IPv6HeaderLen)%nat then ret None
    else
      let length_ := be_dec (slice IPv6offsetPayloadLength (IPv6offsetPayloadLength + 2) packet) in
      let length_ := u16 (length_ + Z.of_nat IPv6HeaderLen) in
      if length_ >? zlen packet then ret None
      else
        let* peer := onRoutes (Lookup (slice IPv6offsetSrc (IPv6offsetSrc + IPv6len) packet)) in
        if negb (bool_decide (peer = Some p)) then ret None
        else ret (Some (take (Z.to_nat length_) packet))
  else ret None.

(** [elem.keypair.replayFilter.ValidateCounter] *)
Definition validateCounter (k : kp_id) (counter : Z) : M bool :=
  let* keypair := getKp k in
  let '(ok, f) := ValidateCounter (replayFilter keypair) counter RejectAfterMessages in
  modKp k (fun kp => kp <| replayFilter := f |>);;;
  ret ok.

(** What the loop over a container accumulates. *)
Record rxState := mkRx {
  validTail : option Endpoint; dataReceived : bool; rxLen : Z; rxBufs : list bytes }.
#[export] Instance rxState_settable : Settable rxState := fun r =>
  mkRx (validTail r) (dataReceived r) (rxLen r) (rxBufs r).

Definition receiveElem (p : peer_id) (elem : InElem) (r : rxState) : M rxState :=
  match ie_packet elem with
  | None => ret r
  | Some packet =>
      let* ok := validateCounter (ie_keypair elem) (ie_counter elem) in
      if negb ok then ret r
      else
        let r := r <| validTail := Some (ie_endpoint elem) |> in
        let* promoted := ReceivedWithKeypair p (ie_keypair elem) in
        when promoted
          (SetEndpointFromPacket p (ie_endpoint elem);;;
           timersHandshakeComplete p;;;
           SendStagedPackets p);;;
        let r := r <| rxLen ::= fun n => u64 (n + zlen packet + Z.of_nat MinMessageSize) |> in
        match packet with
        | [] => ret r
        | _ =>
            let r := r <| dataReceived := true |> in
            let* out := checkPacket p packet in
            match out with
            | None => ret r
            | Some packet => ret (r <| rxBufs ::= fun bs => bs ++ [packet] |>)
            end
        end
  end.

Fixpoint receiveElems (p : peer_id) (elems : list InElem) (r : rxState) : M rxState :=
  match elems with
  | [] => ret r
  | elem :: elems => let* r := receiveElem p elem r in receiveElems p elems r
  end.

(** A turn of [RoutineSequentialReceiver], once it holds the lock of [c]. *)
Definition sequentialReceive (p : peer_id) (c : cont_id) : M unit :=
  let* cont := getIn c in
  let* r := receiveElems p (elems cont) (mkRx None false 0 []) in
  addRxBytes p (rxLen r);;;
  match validTail r with
  | Some from =>
      SetEndpointFromPacket p from;;;
      keepKeyFreshReceiving p;;;
      timersAnyAuthenticatedPacketTraversal p;;;
      timersAnyAuthenticatedPacketReceived p
  | None => ret tt
  end;;;
  when (dataReceived r) (timersDataReceived p);;;
  when (negb (length (rxBufs r) =? 0)%nat) (tunWrite (rxBufs r));;;
  dropIn c.

End Receive.
