(* ===== verification/Device.v ===== *)
(** Life cycle of peers and devices: [device/peer.go], [device/device.go],
    [device/tun.go], [device/mobilequirks.go] and the flushes of
    [device/channels.go]. *)
From S2P Require Import Prelude Replay Ratelimiter Messages NoiseHelpers ToyCrypto Cookie AllowedIPs.
From S2P Require Import State IndexTable Timers Handshake Session Send Receive.

(** ** Conversions *)

Definition s32 (x : Z) : Z := (x + 2 ^ 31) mod 2 ^ 32 - 2 ^ 31.

Definition modEndpoint (p : peer_id) (f : PeerEndpoint -> PeerEndpoint) : M unit :=
  modPeer p (fun x => x <| endpoint ::= f |>).

(** [for key, peer := range device.peers.keyMap] *)
Definition rangePeers : M (list (bytes * peer_id)) :=
  let* d := getD in rangeOrder (map_to_list (d_keyMap d)).

Definition setState (s : deviceState) : M unit := modD (fun d => d <| d_state := s |>).

(** ** The bind *)

(** [netlinkCancel] only stops the route listener. *)
Definition closeBindLocked : M bool :=
  let* ok := bindCall in
  modD (fun d => d <| d_bindOpen := false |>);;;
  ret ok.

Definition BindClose : M bool := closeBindLocked.

Definition clearPeerSources : M unit :=
  let* peers := rangePeers in
  forEach peers (fun '(_, p) => markEndpointSrcForClearing p).

Definition BindSetMark (mark : Z) : M bool :=
  let* d := getD in
  if d_fwmark d =? mark then ret true
  else
    modD (fun d => d <| d_fwmark := mark |>);;;
    let* ok := (if isUp d then bindCall else ret true) in
    if negb ok then ret false else clearPeerSources;;; ret true.

Definition BindUpdate : M bool :=
  let* ok := closeBindLocked in
  if negb ok then ret false
  else
    let* d := getD in
    if negb (isUp d) then ret true
    else
      let* opened := bindOpen (d_port d) in
      match opened with
      | None => modD (fun d => d <| d_port := 0 |>);;; ret false
      | Some port =>
          modD (fun d => d <| d_port := port |>);;;
          (* device.startRouteListener *)
          let* ok := bindCall in
          if negb ok then
            let* _ := bindCall in
            modD (fun d => d <| d_port := 0 |>);;;
            ret false
          else
            let* ok := (if negb (d_fwmark d =? 0) then bindCall else ret true) in
            if negb ok then ret false
            else
              clearPeerSources;;;
              modD (fun d => d <| d_bindOpen := true |>);;;
              ret true
      end.

(** ** Waiting for a container: the worker that holds it has its turn *)

Section Device.
Context `{C : Crypto}.

Definition lockOut (c : cont_id) : M unit :=
  let* cont := getOut c in
  when (locked cont)
    (modD (fun d => d <| d_encryption ::= filter (fun x => x <> c) |>);;; encryptContainer c).

Definition lockIn (c : cont_id) : M unit :=
  let* cont := getIn c in
  when (locked cont)
    (modD (fun d => d <| d_decryption ::= filter (fun x => x <> c) |>);;; decryptContainer c).

Definition flushOutboundQueue (p : peer_id) : M unit :=
  let* x := getPeer p in
  modPeer p (fun x => x <| outbound := [] |>);;;
  forEach (outbound x) (fun c => lockOut c;;; dropOut c).

Definition flushInboundQueue (p : peer_id) : M unit :=
  let* x := getPeer p in
  modPeer p (fun x => x <| inbound := [] |>);;;
  forEach (inbound x) (fun c => lockIn c;;; dropIn c).

(** ** Peers *)

Definition zeroHandshake : Handshake :=
  mkHandshake handshakeZeroed zeroKey zeroKey zeroKey zeroKey 0 0 zeroKey zeroKey zeroKey
    (zeros 12) None None.

(** [new(Peer)] with its cookie generator, queues and timers. *)
Definition newPeer (pk ss : bytes) : Peer :=
  mkPeer false (mkKeypairs None None None)
    (zeroHandshake <| precomputedStaticStatic := ss |> <| remoteStatic := pk |>) 0 0 0
    (mkPeerEndpoint None false false) timersInit [] [] [] (generatorInit zeroGenerator pk) 0.

Definition NewPeer (pk : bytes) : M (option peer_id) :=
  let* d := getD in
  if isClosed d then ret None
  else if Z.of_nat (size (d_keyMap d)) >=? MaxPeers then ret None
  else
    match d_keyMap d !! pk with
    | Some _ => ret None
    | None =>
        let '(ss, _) := sharedSecret (d_privateKey d) pk in
        let p := fresh (dom (d_peers d)) in
        modD (fun d => d <| d_peers ::= <[p := newPeer pk ss]> |> <| d_keyMap ::= <[pk := p]> |>);;;
        ret (Some p)
    end.

Definition LookupPeer (pk : bytes) : M (option peer_id) :=
  let* d := getD in ret (d_keyMap d !! pk).

Definition Start (p : peer_id) : M unit :=
  let* d := getD in
  if isClosed d then ret tt
  else
    let* x := getPeer p in
    if isRunning x then ret tt
    else
      let* now := getNow in
      modHs p (fun h => h <| lastSentHandshake := Some (now - (RekeyTimeout + second)) |>);;;
      timersStart p;;;
      flushInboundQueue p;;;
      flushOutboundQueue p;;;
      modPeer p (fun x => x <| isRunning := true |>).

(** The routines work off what was queued before the [nil]s, then exit. *)
Definition Stop (p : peer_id) : M unit :=
  let* x := getPeer p in
  if negb (isRunning x) then ret tt
  else
    modPeer p (fun x => x <| isRunning := false |>);;;
    timersStop p;;;
    let* x := getPeer p in
    modPeer p (fun x => x <| inbound := [] |>);;;
    forEach (inbound x) (fun c => lockIn c;;; sequentialReceive p c);;;
    let* x := getPeer p in
    modPeer p (fun x => x <| outbound := [] |>);;;
    forEach (outbound x) (fun c => lockOut c;;; sequentialSend p c);;;
    ZeroAndFlushAll p.

(** ** The peers of a device *)

Definition removePeerLocked (p : peer_id) (key : bytes) : M unit :=
  onRoutes (RemoveByPeer p);;;
  Stop p;;;
  modD (fun d => d <| d_keyMap ::= delete key |>).

Definition RemovePeer (key : bytes) : M unit :=
  let* d := getD in
  match d_keyMap d !! key with
  | Some p => removePeerLocked p key
  | None => ret tt
  end.

Definition RemoveAllPeers : M unit :=
  let* peers := rangePeers in
  forEach peers (fun '(key, p) => removePeerLocked p key);;;
  modD (fun d => d <| d_keyMap := ∅ |>).

Definition SetPrivateKey (sk : bytes) : M unit :=
  let* d := getD in
  if keyEquals sk (d_privateKey d) then ret tt
  else
    (* remove peers with matching public keys *)
    let pub := publicKey sk in
    let* peers := rangePeers in
    forEach peers (fun '(key, p) =>
      let* x := getPeer p in
      when (keyEquals (remoteStatic (handshake x)) pub) (removePeerLocked p key));;;
    (* update key material *)
    modD (fun d => d <| d_privateKey := sk |> <| d_publicKey := pub |>
      <| d_cookieChecker ::= fun ck => checkerInit ck pub |>);;;
    (* do static-static DH pre-computations *)
    let* peers := rangePeers in
    forEach peers (fun '(_, p) =>
      modHs p (fun h => h <| precomputedStaticStatic := (sharedSecret sk (remoteStatic h)).1 |>));;;
    forEach peers (fun '(_, p) => ExpireCurrentKeypairs p).

Definition SendKeepalivesToPeersWithCurrentKeypair : M unit :=
  let* d := getD in
  if negb (isUp d) then ret tt
  else
    let* peers := rangePeers in
    forEach peers (fun '(_, p) =>
      let* x := getPeer p in
      match current (keypairs x) with
      | None => ret tt
      | Some k =>
          let* keypair := getKp k in
          let* now := getNow in
          when (negb (created keypair + RejectAfterTime <? now)) (SendKeepalive p)
      end).

Definition DisableSomeRoamingForBrokenMobileSemantics : M unit :=
  modD (fun d => d <| d_brokenRoaming := true |>);;;
  let* peers := rangePeers in
  forEach peers (fun '(_, p) =>
    modEndpoint p (fun e => e <| disableRoaming := isSome (ep_val e) |>)).

(** ** State changes; the flags are the absence of an error *)

Definition upLocked : M bool :=
  let* ok := BindUpdate in
  if negb ok then ret false
  else
    let* peers := rangePeers in
    forEach peers (fun '(_, p) =>
      Start p;;;
      let* x := getPeer p in
      when (persistentKeepaliveInterval x >? 0) (SendKeepalive p));;;
    ret true.

Definition downLocked : M bool :=
  let* ok := BindClose in
  let* peers := rangePeers in
  forEach peers (fun '(_, p) => Stop p);;;
  ret ok.

Definition changeState (want : deviceState) : M bool :=
  let* d := getD in
  let old := d_state d in
  let bringDown (ok : bool) :=
    (setState deviceStateDown;;;
     let* okDown := downLocked in
     ret (ok && okDown)) in
  if bool_decide (old = deviceStateClosed) then ret true
  else if bool_decide (want = old) then ret true
  else
    match want with
    | deviceStateUp =>
        setState deviceStateUp;;;
        let* ok := upLocked in
        if ok then ret true else bringDown false
    | deviceStateDown => bringDown true
    | deviceStateClosed => ret true
    end.

Definition Up : M bool := changeState deviceStateUp.
Definition Down : M bool := changeState deviceStateDown.

(** [device.rate.limiter.Close] *)
Definition closeLimiter : M unit :=
  let* d := getD in
  match Close (d_limiter d) with
  | None => panic
  | Some r => modD (fun d => d <| d_limiter := r |>)
  end.

Definition CloseDevice : M unit :=
  let* d := getD in
  if isClosed d then ret tt
  else
    setState deviceStateClosed;;;
    let* _ := downLocked in
    RemoveAllPeers;;;
    closeLimiter.

(** [NewDevice], given what [tunDevice.MTU] answers. *)
Definition NewDevice (mtu : option Z) : option Device :=
  limiter ← Init (Addr := bytes) zeroRate;
  Some (mkDevice deviceStateDown 0 0 false false zeroKey zeroKey ∅ 0 limiter emptyTable ∅
    zeroChecker (s32 (default DefaultMTU mtu)) ∅ ∅ ∅ ∅ [] [] [] false).

(** A turn of [RoutineTUNEventReader]: the bits of the event, and what
    [MTU] answers. *)
Definition tunEvent (evMTU evUp evDown : bool) (mtu : option Z) : M unit :=
  let rest :=
    (when evUp (let* _ := Up in ret tt);;;
     when evDown (let* _ := Down in ret tt)) in
  if evMTU then
    match mtu with
    | None => ret tt
    | Some mtu =>
        if mtu <? 0 then ret tt
        else
          let mtu := if mtu >? MaxContentSize then MaxContentSize else mtu in
          modD (fun d => d <| d_mtu := s32 mtu |>);;;
          rest
    end
  else rest.

End Device.
