(* ===== verification/Uapi.v ===== *)
(** The cross-platform configuration protocol, [device/uapi.go]: the [set]
    operation line by line, with the peers it creates, changes and starts, and
    the text of the [get] operation. *)
From S2P Require Import Prelude Replay Ratelimiter Messages NoiseHelpers ToyCrypto Text Netip Cookie AllowedIPs.
From S2P Require Import State IndexTable Timers Handshake Session Send Receive Device.

#[local] Delimit Scope string_scope with string.

(** ** Errors, with the codes of [ipc/uapi_unix.go] on Linux *)

Inductive IPCError := IpcErrorIO | IpcErrorProtocol | IpcErrorInvalid | IpcErrorPortInUse.
#[export] Instance IPCError_eq_dec : EqDecision IPCError.
Proof. solve_decision. Defined.

Definition ErrorCode (e : IPCError) : Z :=
  match e with
  | IpcErrorIO => -5 | IpcErrorProtocol => -71 | IpcErrorInvalid => -22 | IpcErrorPortInUse => -98
  end.

(** ** Endpoints as text, [conn/bind_std.go] *)

(** [ep_addr] is the address and its zone, as [netip.Addr.MarshalBinary] has them. *)
Definition addrOfBytes (b : bytes) : Addr :=
  if (length b =? 4)%nat then mkAddr b [] else mkAddr (take 16 b) (drop 16 b).
Definition ParseEndpoint (s : bytes) : option Endpoint :=
  '(a, port) ← ParseAddrPort s; Some (mkEndpoint (a_bytes a ++ a_zone a) port []).
Definition DstToString (e : Endpoint) : bytes := addrPortString (addrOfBytes (ep_addr e)) (ep_port e).

(** ** The [get] operation *)

Definition line (s : bytes) : bytes := s ++ [10].
(** [keyf] and [sendf("%s=%d", ..)] *)
Definition keyf (prefix : String.string) (key : bytes) : bytes := line (of_string prefix ++ [61] ++ hexEncode key).
Definition sendf (prefix : String.string) (value : bytes) : bytes := line (of_string prefix ++ [61] ++ value).
Arguments keyf prefix%_string key.
Arguments sendf prefix%_string value.

Definition unless (b : bool) (s : bytes) : bytes := if b then [] else s.

Definition getDeviceLines (d : Device) : bytes :=
  unless (keyIsZero (d_privateKey d)) (keyf "private_key" (d_privateKey d)) ++
  unless (d_port d =? 0) (sendf "listen_port" (Itoa (d_port d))) ++
  unless (d_fwmark d =? 0) (sendf "fwmark" (Itoa (d_fwmark d))).

Definition getPeerLines (x : Peer) (ips : list (bytes * Z)) : bytes :=
  keyf "public_key" (remoteStatic (handshake x)) ++
  keyf "preshared_key" (presharedKey (handshake x)) ++
  line (of_string "protocol_version=1") ++
  match ep_val (endpoint x) with Some e => sendf "endpoint" (DstToString e) | None => [] end ++
  sendf "last_handshake_time_sec" (printInt (Z.quot (lastHandshakeNano x) second)) ++
  sendf "last_handshake_time_nsec" (printInt (Z.rem (lastHandshakeNano x) second)) ++
  sendf "tx_bytes" (Itoa (txBytes x)) ++
  sendf "rx_bytes" (Itoa (rxBytes x)) ++
  sendf "persistent_keepalive_interval" (Itoa (persistentKeepaliveInterval x)) ++
  concat ((fun '(ip, c) => sendf "allowed_ip" (prefixString ip c)) <$> ips).

Fixpoint getPeers (peers : list (bytes * peer_id)) : M bytes :=
  match peers with
  | [] => ret []
  | (_, p) :: peers =>
      let* x := getPeer p in
      let* ips := onRoutes (EntriesForPeer p) in
      let* rest := getPeers peers in
      ret (getPeerLines x ips ++ rest)
  end.

(** The text [IpcGet] returns; a [strings.Builder] takes all of it. *)
Definition IpcGet : M bytes :=
  let* d := getD in
  let* peers := rangePeers in
  let* lines := getPeers peers in
  ret (getDeviceLines d ++ lines).

(** ** The [set] operation *)

Record ipcSetPeer := mkSetPeer {
  sp_peer : option peer_id; dummy : bool; sp_created : bool; pkaOn : bool }.
#[export] Instance ipcSetPeer_settable : Settable ipcSetPeer := fun s =>
  mkSetPeer (sp_peer s) (dummy s) (sp_created s) (pkaOn s).
Definition newSetPeer : ipcSetPeer := mkSetPeer None false false false.

(** [&Peer{}] *)
Definition zeroPeer : Peer :=
  mkPeer false (mkKeypairs None None None) zeroHandshake 0 0 0 (mkPeerEndpoint None false false)
    timersInit [] [] [] zeroGenerator 0.
Definition allocPeer : M peer_id := fun w =>
  let p := fresh (dom (d_peers (dev w))) in
  Some (p, w <| dev ::= fun d => d <| d_peers ::= <[p := zeroPeer]> |> |>).

Definition named (s : bytes) (name : String.string) : bool := bytes_eqb s (of_string name).
Arguments named s name%_string.

(** A leading minus sign removes the prefix that follows. *)
Definition cutMinus (value : bytes) : bool * bytes :=
  match value with
  | c :: v => if c =? 45 then (false, v) else (true, value)
  | [] => (true, value)
  end.

Section Uapi.
Context `{C : Crypto}.

Definition handleDeviceLine (key value : bytes) : M (option IPCError) :=
  if named key "private_key" then
    let '(sk, ok) := privateKeyFromMaybeZeroHex zeroKey value in
    if negb ok then ret (Some IpcErrorInvalid)
    else SetPrivateKey sk;;; ret None
  else if named key "listen_port" then
    match ParseUint value 16 with
    | None => ret (Some IpcErrorInvalid)
    | Some port =>
        modD (fun d => d <| d_port := u16 port |>);;;
        let* ok := BindUpdate in
        ret (if ok then None else Some IpcErrorPortInUse)
    end
  else if named key "fwmark" then
    match ParseUint value 32 with
    | None => ret (Some IpcErrorInvalid)
    | Some mark =>
        let* ok := BindSetMark (u32 mark) in
        ret (if ok then None else Some IpcErrorPortInUse)
    end
  else if named key "replace_peers" then
    if negb (named value "true") then ret (Some IpcErrorInvalid)
    else RemoveAllPeers;;; ret None
  else ret (Some IpcErrorInvalid).

Definition handlePostConfig (peer : ipcSetPeer) : M unit :=
  match sp_peer peer with
  | None => ret tt
  | Some p =>
      if dummy peer then ret tt
      else
        let* d := getD in
        when (sp_created peer)
          (modEndpoint p (fun e => e <| disableRoaming := d_brokenRoaming d && isSome (ep_val e) |>));;;
        when (isUp d)
          (Start p;;;
           when (pkaOn peer) (SendKeepalive p);;;
           SendStagedPackets p)
  end.

Definition handlePublicKeyLine (peer : ipcSetPeer) (value : bytes) : M (ipcSetPeer * option IPCError) :=
  let '(pk, ok) := publicKeyFromHex zeroKey value in
  if negb ok then ret (peer, Some IpcErrorInvalid)
  else
    let* d := getD in
    let isDummy := keyEquals (d_publicKey d) pk in
    let* found := (if isDummy then let* p := allocPeer in ret (Some p) else LookupPeer pk) in
    match found with
    | Some p => ret (mkSetPeer (Some p) isDummy false (pkaOn peer), None)
    | None =>
        let* made := NewPeer pk in
        match made with
        | None => ret (mkSetPeer None isDummy true (pkaOn peer), Some IpcErrorInvalid)
        | Some p => ret (mkSetPeer (Some p) isDummy true (pkaOn peer), None)
        end
    end.

(** [device.RemovePeer] of the peer at hand, then a placeholder in its stead. *)
Definition dropPeer (peer : ipcSetPeer) (p : peer_id) (remove : bool) : M ipcSetPeer :=
  when remove (let* x := getPeer p in RemovePeer (remoteStatic (handshake x)));;;
  let* q := allocPeer in
  ret (peer <| sp_peer := Some q |> <| dummy := true |>).

Definition handlePeerLine (peer : ipcSetPeer) (key value : bytes) : M (ipcSetPeer * option IPCError) :=
  match sp_peer peer with
  | None => panic
  | Some p =>
      let invalid := ret (peer, Some IpcErrorInvalid) in
      let done := ret (peer, None) in
      if named key "update_only" then
        if negb (named value "true") then invalid
        else if sp_created peer && negb (dummy peer)
        then let* peer := dropPeer peer p true in ret (peer, None)
        else done
      else if named key "remove" then
        if negb (named value "true") then invalid
        else let* peer := dropPeer peer p (negb (dummy peer)) in ret (peer, None)
      else if named key "preshared_key" then
        let* x := getPeer p in
        let '(psk, ok) := presharedKeyFromHex (presharedKey (handshake x)) value in
        modHs p (fun h => h <| presharedKey := psk |>);;;
        if ok then done else invalid
      else if named key "endpoint" then
        match ParseEndpoint value with
        | None => invalid
        | Some e => modEndpoint p (fun ep => ep <| ep_val := Some e |>);;; done
        end
      else if named key "persistent_keepalive_interval" then
        match ParseUint value 16 with
        | None => invalid
        | Some secs =>
            let* x := getPeer p in
            let old := persistentKeepaliveInterval x in
            modPeer p (fun x => x <| persistentKeepaliveInterval := u32 secs |>);;;
            ret (peer <| pkaOn := (old =? 0) && negb (secs =? 0) |>, None)
        end
      else if named key "replace_allowed_ips" then
        if negb (named value "true") then invalid
        else if dummy peer then done
        else onRoutes (RemoveByPeer p);;; done
      else if named key "allowed_ip" then
        let '(add, value) := cutMinus value in
        match ParsePrefix value with
        | None => invalid
        | Some (ip, c) =>
            if dummy peer then done
            else onRoutes (if add then Insert ip c p else Remove ip c p);;; done
        end
      else if named key "protocol_version" then
        if negb (named value "1") then invalid else done
      else invalid
  end.

(** What a line does to the loop: it goes on with the peer at hand, or returns. *)
Inductive verdict := GoesOn (peer : ipcSetPeer) (deviceConfig : bool) | Returns (err : option IPCError).

(** The body of the loop of [IpcSetOperation]. *)
Definition setLine (peer : ipcSetPeer) (deviceConfig : bool) (l : bytes) : M verdict :=
  match l with
  | [] => handlePostConfig peer;;; ret (Returns None)
  | _ =>
      match cutAt 61 l with
      | None => ret (Returns (Some IpcErrorProtocol))
      | Some (key, value) =>
          if named key "public_key" then
            handlePostConfig peer;;;
            let* '(peer, err) := handlePublicKeyLine peer value in
            ret (match err with Some e => Returns (Some e) | None => GoesOn peer false end)
          else if deviceConfig then
            let* err := handleDeviceLine key value in
            ret (match err with Some e => Returns (Some e) | None => GoesOn peer true end)
          else
            let* '(peer, err) := handlePeerLine peer key value in
            ret (match err with Some e => Returns (Some e) | None => GoesOn peer false end)
      end
  end.

(** The loop over the lines of [s]. *)
Fixpoint setLoop (fuel : nat) (peer : ipcSetPeer) (deviceConfig : bool) (s : bytes) : M (option IPCError) :=
  match fuel with
  | O => panic
  | S fuel =>
      match Scan s with
      | ScanEnd => handlePostConfig peer;;; ret None
      | ScanTooLong => handlePostConfig peer;;; ret (Some IpcErrorIO)
      | ScanLine l s =>
          let* v := setLine peer deviceConfig l in
          match v with
          | GoesOn peer deviceConfig => setLoop fuel peer deviceConfig s
          | Returns err => ret err
          end
      end
  end.

(** Every line takes at least a byte. *)
Definition IpcSet (uapiConf : bytes) : M (option IPCError) :=
  setLoop (S (length uapiConf)) newSetPeer true uapiConf.

End Uapi.
