(* ===== verification/Transport.v ===== *)
(** Transport messages end to end: encryption, dispatch, decryption,
    the anti-replay filter and delivery ([device/send.go], [device/receive.go]). *)
From S2P Require Import Prelude Replay Ratelimiter Messages NoiseHelpers ToyCrypto Cookie AllowedIPs.
From S2P Require Import TrieBits Trie Routing RoutingSpec State IndexTable Timers Handshake Session.
From S2P Require Import Send Receive.

(** ** Transport messages *)

Section Transport.
Context `{C : Crypto} `{CL : !CryptoLaws C}.

(** What the workers make of an element of a session. *)
Definition padded (mtu : Z) (e : OutElem) : bytes :=
  oe_packet e ++ zeros (Z.to_nat (calculatePaddingSize (zlen (oe_packet e)) mtu)).
Definition sealed (mtu : Z) (kp : Keypair) (e : OutElem) : bytes := oe_packet (sealElem kp (padded mtu e) e).

Definition header (kp : Keypair) (e : OutElem) : bytes :=
  le_enc 4 MessageTransportType ++ le_enc 4 (kp_remoteIndex kp) ++ le_enc 8 (oe_nonce e).
Definition content (mtu : Z) (kp : Keypair) (e : OutElem) : bytes :=
  aead_seal (send kp) (zeros 4 ++ le_enc 8 (oe_nonce e)) (padded mtu e) [].

Lemma sealed_split mtu kp e : sealed mtu kp e = header kp e ++ content mtu kp e.
Proof. done. Qed.

Lemma header_length kp e : length (header kp e) = 16%nat.
Proof. unfold header. by rewrite !length_app, !length_le_enc. Qed.

Lemma sealed_length mtu kp e : (32 <= length (sealed mtu kp e))%nat.
Proof.
  rewrite sealed_split, length_app, header_length. unfold content. rewrite aead_seal_length.
  unfold TagSize. lia.
Qed.

Lemma sealed_fields mtu kp e : 0 <= kp_remoteIndex kp < 2 ^ 32 -> 0 <= oe_nonce e < 2 ^ 64 ->
  getU32 (sealed mtu kp e) 0 = MessageTransportType /\
  getU32 (sealed mtu kp e) 4 = kp_remoteIndex kp /\
  slice MessageTransportOffsetCounter MessageTransportOffsetContent (sealed mtu kp e) = le_enc 8 (oe_nonce e) /\
  drop MessageTransportOffsetContent (sealed mtu kp e) = content mtu kp e.
Proof.
  intros Hr Hn. rewrite sealed_split. unfold getU32, header. split_and!.
  - rewrite <- !app_assoc, slice_app_first by by rewrite ?length_le_enc.
    by rewrite le_dec_enc.
  - rewrite <- !app_assoc, slice_app_mid by by rewrite ?length_le_enc. by rewrite le_dec_enc.
  - rewrite <- !app_assoc, (app_assoc (le_enc 4 _)).
    by rewrite slice_app_mid by by rewrite ?length_app, ?length_le_enc.
  - by rewrite drop_app_length' by (by rewrite !length_app, !length_le_enc).
Qed.

(** ** Dispatch *)

Definition arrived (k : kp_id) (from : Endpoint) (packet : bytes) : InElem :=
  mkInElem (Some packet) 0 k from.

(** Datagrams of a live session are gathered in order, and nothing else happens. *)
Lemma dispatchPackets_session w p k kpB entry from ds m r :
  Forall (fun d => (32 <= length d)%nat /\ getU32 d 0 = MessageTransportType /\ getU32 d 4 = r) ds ->
  d_indexTable (dev w) !! r = Some entry -> it_peer entry = Some p -> it_keypair entry = Some k ->
  d_keypairs (dev w) !! k = Some kpB -> w_now w <= created kpB + RejectAfterTime ->
  runs (dispatchPackets ((fun d => (d, from)) <$> ds) m) w (fun m' w' => w' = w /\
    m' = foldl (fun m d => addFor (Some p) (arrived k from d) m) m ds).
Proof.
  intros Hd Ei Ep Ek Ekp Ht. revert m. induction Hd as [|d ds (Hl & Hty & Hr) Hd IH]; intros m.
  { cbn [fmap list_fmap dispatchPackets foldl]. by wstep. }
  cbn [fmap list_fmap dispatchPackets foldl]. wstep. unfold dispatchPacket.
  unfold MinMessageSize, MessageKeepaliveSize, MessageTransportSize, MessageTransportHeaderSize, TagSize.
  rewrite (proj2 (Nat.ltb_ge _ _)) by lia. rewrite Hty. cbn [Z.eqb Pos.eqb MessageTransportType].
  unfold MessageTransportOffsetReceiver. rewrite Hr.
  wstep. eapply runs_indexLookup; [exact Ei|]. rewrite Ek, Ep. do 4 wstep.
  rewrite (proj2 (Z.ltb_ge _ _)) by lia. wstep. apply IH.
Qed.

Lemma foldl_addFor {E D} (f : D -> E) (p : option peer_id) d ds :
  foldl (fun m d => addFor p (f d) m) [] (d :: ds) = [(p, f <$> (d :: ds))].
Proof.
  cbn [foldl addFor]. change [(p, [f d])] with [(p, f <$> [d])]. change (d :: ds) with ([d] ++ ds).
  generalize [d] as pre. induction ds as [|d' ds IH]; intros pre; cbn [foldl]; [by rewrite app_nil_r|].
  cbn [addFor]. rewrite decide_True by done. change [f d'] with (f <$> [d']). rewrite <- fmap_app, IH.
  by rewrite <- app_assoc.
Qed.

(** ** Decryption *)

Definition opened (mtu : Z) (k : kp_id) (from : Endpoint) (e : OutElem) : InElem :=
  mkInElem (Some (padded mtu e)) (oe_nonce e) k from.

Lemma decryptElem_sealed mtu kpA kpB k from e : send kpA = receive kpB ->
  0 <= kp_remoteIndex kpA < 2 ^ 32 -> 0 <= oe_nonce e < 2 ^ 64 ->
  decryptElem kpB (sealed mtu kpA e) (arrived k from (sealed mtu kpA e)) = opened mtu k from e.
Proof.
  intros Hk Hr Hn. destruct (sealed_fields mtu kpA e Hr Hn) as (_ & _ & Hc & Hd).
  unfold decryptElem. rewrite Hc, Hd, le_dec_enc by done. unfold content. rewrite Hk, aead_open_seal. done.
Qed.

Lemma decryptElems_sealed w mtu kpA kpB k from es : send kpA = receive kpB ->
  0 <= kp_remoteIndex kpA < 2 ^ 32 -> Forall (fun e => 0 <= oe_nonce e < 2 ^ 64) es ->
  d_keypairs (dev w) !! k = Some kpB ->
  runs (decryptElems ((fun e => arrived k from (sealed mtu kpA e)) <$> es)) w
    (fun es' w' => w' = w /\ es' = opened mtu k from <$> es).
Proof.
  intros Hk Hr Hn Ekp. induction Hn as [|e es He Hes IH]; cbn [fmap list_fmap decryptElems]; [by wstep|].
  cbn [ie_packet arrived ie_keypair]. do 3 wstep. eapply runs_mono; [exact IH|].
  intros es' w' [-> ->]. wstep. by rewrite decryptElem_sealed.
Qed.

(** ** Delivery *)

(** A packet of a peer: its IP header gives its length, and its source is
    routed to the peer. *)
Definition fromPeer (t : AllowedIPs) (p : peer_id) (packet : bytes) : Prop :=
  let version := Z.shiftr (nth 0 packet 0) 4 in
  version = 4 /\ (IPv4HeaderLen <= length packet)%nat /\
    be_dec (slice IPv4offsetTotalLength (IPv4offsetTotalLength + 2) packet) = zlen packet /\
    Lookup (slice IPv4offsetSrc (IPv4offsetSrc + IPv4len) packet) t = Some (Some p, t) \/
  version = 6 /\ (IPv6HeaderLen <= length packet)%nat /\ zlen packet < 65536 /\
    be_dec (slice IPv6offsetPayloadLength (IPv6offsetPayloadLength + 2) packet)
      = zlen packet - Z.of_nat IPv6HeaderLen /\
    Lookup (slice IPv6offsetSrc (IPv6offsetSrc + IPv6len) packet) t = Some (Some p, t).

Lemma slice_app_l {A} lo hi (a b : list A) : (hi <= length a)%nat -> slice lo hi (a ++ b) = slice lo hi a.
Proof.
  intros H. unfold slice. rewrite drop_app, take_app.
  destruct (decide (lo <= length a)%nat).
  - rewrite length_drop. replace (hi - lo - (length a - lo))%nat with 0%nat by lia.
    by rewrite take_0, app_nil_r.
  - rewrite (drop_ge a) by lia. replace (hi - lo)%nat with 0%nat by lia. done.
Qed.

Lemma runs_Lookup w ip p : Lookup ip (d_allowedips (dev w)) = Some (Some p, d_allowedips (dev w)) ->
  runs (onRoutes (Lookup ip)) w (fun r w' => r = Some p /\ w' = w).
Proof.
  intros E. unfold runs, onRoutes. rewrite E. split; [done|]. by destruct w as [[] ? ? ? ? ? ? ? ?].
Qed.

(** The padding is cut off again. *)
Lemma checkPacket_padded w p packet pad : fromPeer (d_allowedips (dev w)) p packet ->
  runs (checkPacket p (packet ++ pad)) w (fun r w' => r = Some packet /\ w' = w).
Proof.
  assert (forall n, length (packet ++ pad) = n -> (length packet <= n)%nat) as Hlen.
  { intros n <-. rewrite length_app. lia. }
  intros [(Hv & Hl & Ht & Hs)|(Hv & Hl & Hmax & Ht & Hs)]; unfold checkPacket;
    unfold IPv4HeaderLen, IPv6HeaderLen in *; specialize (Hlen _ eq_refl);
    (destruct packet as [|b packet]; [cbn [length] in Hl; lia|]);
    change (nth 0 ((b :: packet) ++ pad) 0) with (nth 0 (b :: packet) 0); rewrite Hv;
    cbn [Z.eqb Pos.eqb]; rewrite (proj2 (Nat.ltb_ge _ _)) by lia;
    rewrite !slice_app_l by (unfold IPv4offsetTotalLength, IPv4offsetSrc, IPv4len, IPv6offsetPayloadLength,
      IPv6offsetSrc, IPv6len; lia); rewrite Ht.
  - rewrite Z.gtb_ltb, (proj2 (Z.ltb_ge _ _)), (proj2 (Z.ltb_ge _ _)) by lia. cbn [orb]. wstep.
    eapply runs_mono; [by apply runs_Lookup|]. intros r w' [-> ->]. rewrite bool_decide_true by done. cbn [negb]. wstep.
    split; [|done]. by rewrite Nat2Z.id, take_app_length.
  - rewrite Z.sub_add, u16_small by lia. rewrite Z.gtb_ltb, (proj2 (Z.ltb_ge _ _)) by lia. wstep.
    eapply runs_mono; [by apply runs_Lookup|]. intros r w' [-> ->]. rewrite bool_decide_true by done. cbn [negb]. wstep.
    split; [|done]. by rewrite Nat2Z.id, take_app_length.
Qed.

Definition setFilter (k : kp_id) (kp : Keypair) (f : Filter) (w : World) : World :=
  w <| dev ::= fun d => d <| d_keypairs ::= <[k := kp <| replayFilter := f |>]> |> |>.

Definition calls (es : list OutElem) : list (Z * Z) := (fun e => (oe_nonce e, RejectAfterMessages)) <$> es.

(** What the loop over the elements accumulates when all are accepted. *)
Record delivered (from : Endpoint) (es : list OutElem) (r r' : rxState) : Prop := {
  dl_tail : validTail r' = if decide (es = []) then validTail r else Some from;
  dl_data : dataReceived r' = if decide (es = []) then dataReceived r else true;
  dl_bufs : rxBufs r' = rxBufs r ++ (oe_packet <$> es) }.

Lemma receiveElems_opened mtu p k from es : forall w x kp r f,
  d_peers (dev w) !! p = Some x -> next (keypairs x) <> Some k -> d_keypairs (dev w) !! k = Some kp ->
  runFilter (replayFilter kp) (calls es) = (replicate (length es) true, f) ->
  Forall (fun e => fromPeer (d_allowedips (dev w)) p (oe_packet e)) es ->
  runs (receiveElems p (opened mtu k from <$> es) r) w (fun r' w' =>
    delivered from es r r' /\ w' = setFilter k kp f w).
Proof.
  induction es as [|e es IH]; intros w x kp r f Ex Hnext Ek Hf Hp; cbn [fmap list_fmap receiveElems].
  { cbn in Hf. injection Hf as <-. wstep. split.
    - constructor; [done|done|by rewrite app_nil_r].
    - unfold setFilter. destruct w as [[] ? ? ? ? ? ? ? ?]. cbn in *. rewrite insert_id; [done|].
      rewrite Ek. by destruct kp. }
  apply Forall_cons in Hp as [Hp Hps].
  change (runFilter (replayFilter kp) (calls (e :: es)))
    with (let '(ok, f) := ValidateCounter (replayFilter kp) (oe_nonce e) RejectAfterMessages in
          let '(oks, f) := runFilter f (calls es) in (ok :: oks, f)) in Hf.
  destruct (ValidateCounter _ _ _) as [ok f1] eqn:Ev. destruct (runFilter f1 _) as [oks f2] eqn:Er.
  cbn [length replicate] in Hf. injection Hf as -> -> ->.
  wstep. unfold receiveElem. cbn [ie_packet opened ie_keypair ie_counter ie_endpoint].
  wstep. unfold validateCounter. do 2 wstep. rewrite Ev. wstep.
  unfold runs at 1, modKp. rewrite Ek. wstep. cbn [negb]. fold (setFilter k kp f1 w).
  wstep. unfold ReceivedWithKeypair. do 2 wstep. rewrite bool_decide_false by done. cbn [negb]. wstep. unfold when. do 2 wstep.
  destruct (padded mtu e) as [|b0 pk] eqn:Epad.
  { exfalso. unfold padded in Epad. apply app_nil in Epad as [Ee _]. rewrite Ee in Hp.
    destruct Hp as [(_ & Hl & _)|(_ & Hl & _)]; cbn in Hl; unfold IPv4HeaderLen, IPv6HeaderLen in Hl; lia. }
  wstep. rewrite <- Epad. unfold padded.
  eapply runs_mono; [by apply checkPacket_padded|]. intros o w' [-> ->]. wstep.
  eapply runs_mono; [eapply (IH (setFilter k kp f1 w) x (kp <| replayFilter := f1 |>));
    [exact Ex|done|unfold setFilter; wlookup|exact Er|exact Hps]|].
  intros r' w' [[H1 H2 H3] ->]. split.
  - constructor; rewrite ?H1, ?H2, ?H3.
    + by destruct es.
    + by destruct es.
    + cbn [rxBufs set_field fmap list_fmap]. by rewrite <- app_assoc.
  - unfold setFilter. cbn. by rewrite insert_insert_eq.
Qed.

End Transport.
