(* ===== verification/Queues.v ===== *)
(** The ownership of the containers that travel through two queues each. *)
From S2P Require Import Prelude State.

(** ** The queues of containers *)

(** [qs] is a queue of every peer, [work] the queue of the workers, [held] the
    containers a routine has taken off its queue, with a flag for those it has
    locked: no container is in two places, and the workers' are the ones that
    nobody else can lock. *)
Abbreviation helds := (list (cont_id * bool)).

Record queuesOk {E} (held : helds) (qs : gmap peer_id (list cont_id))
    (conts : gmap cont_id (Container E)) (work : list cont_id) : Prop := {
  qo_valid : forall p q c, qs !! p = Some q -> c ∈ q -> is_Some (conts !! c) /\ c ∉ held.*1;
  qo_held : NoDup held.*1 /\ forall c b, (c, b) ∈ held ->
    exists ct, conts !! c = Some ct /\ (b = true -> locked ct = false);
  qo_nodup : forall p q, qs !! p = Some q -> NoDup q;
  qo_disj : forall p p' q q' c, qs !! p = Some q -> qs !! p' = Some q' -> c ∈ q -> c ∈ q' -> p = p';
  qo_work : forall c, c ∈ work -> exists ct, conts !! c = Some ct /\ locked ct = true }.

Section Queues.
Context {E : Type}.
Implicit Types (conts : gmap cont_id (Container E)) (qs : gmap peer_id (list cont_id)).

Lemma qo_share held qs conts work c ct : queuesOk held qs conts work -> conts !! c = None ->
  queuesOk ((c, false) :: held) qs (<[c := ct]> conts) work.
Proof.
  intros [Hv [Hn Hh] Hq Hd Hw] Hc.
  assert (forall c' x, conts !! c' = Some x -> <[c := ct]> conts !! c' = Some x) as Hins.
  { intros c' x Hx. rewrite lookup_insert_ne; [done|congruence]. }
  constructor; [|split|done..|].
  - intros p q c' Hp Hin. destruct (Hv p q c' Hp Hin) as [[x Hx] Hnh]. split; [eauto|].
    cbn. rewrite not_elem_of_cons. split; [congruence|done].
  - cbn. apply NoDup_cons. split; [|done]. intros ([c' b] & Ec & Hin)%list_elem_of_fmap.
    cbn in Ec. subst. destruct (Hh _ _ Hin) as (? & ? & _). congruence.
  - intros c' b [[= -> ->]|Hin]%elem_of_cons; [exists ct; by rewrite lookup_insert_eq|].
    destruct (Hh _ _ Hin) as (x & Hx & ?). eauto.
  - intros c' Hin. destruct (Hw c' Hin) as (x & Hx & ?). eauto.
Qed.

Lemma qo_push held qs conts work c b p q : queuesOk ((c, b) :: held) qs conts work ->
  qs !! p = Some q -> queuesOk held (<[p := q ++ [c]]> qs) conts work.
Proof.
  intros [Hv [Hn Hh] Hq Hd Hw] Hp. cbn in Hn. apply NoDup_cons in Hn as [Hn1 Hn2].
  assert (forall p' q', qs !! p' = Some q' -> c ∉ q') as Hnot.
  { intros p' q' Hp' Hin. destruct (Hv _ _ _ Hp' Hin) as [_ Hc]. by apply Hc; left. }
  constructor; [|split|..]; [|done|..].
  - intros p' q' c'. rewrite lookup_insert_Some. intros [[<- <-]|[_ Hp']].
    + rewrite elem_of_app, list_elem_of_singleton. intros [Hin| ->].
      * destruct (Hv _ _ _ Hp Hin) as [? Hc]. split; [done|]. intros Hin'. by apply Hc; right.
      * destruct (Hh c b) as (ct & ? & _); [by left|]. eauto.
    + intros Hin. destruct (Hv _ _ _ Hp' Hin) as [? Hc]. split; [done|]. intros Hin'. by apply Hc; right.
  - intros c' b' Hin. apply (Hh c' b'). by right.
  - intros p' q'. rewrite lookup_insert_Some. intros [[<- <-]|[_ Hp']]; [|by eapply Hq].
    apply NoDup_app. split_and!; [by eapply Hq| |apply NoDup_singleton].
    intros c' Hin ->%list_elem_of_singleton. by eapply Hnot.
  - intros p1 p2 q1 q2 c'. rewrite !lookup_insert_Some.
    intros [[<- <-]|[Hne1 H1]] [[<- <-]|[Hne2 H2]]; [done|..|by eapply Hd];
      rewrite ?elem_of_app, ?list_elem_of_singleton.
    + intros [Hin| ->] Hin2; [by eapply Hd|]. by destruct (Hnot _ _ H2).
    + intros Hin [Hin2| ->]; [by eapply Hd|]. by destruct (Hnot _ _ H1).
  - done.
Qed.

Lemma qo_take held qs conts work p a b : queuesOk held qs conts work -> qs !! p = Some (a ++ b) ->
  queuesOk (((fun c => (c, false)) <$> a) ++ held) (<[p := b]> qs) conts work.
Proof.
  intros [Hv [Hn Hh] Hq Hd Hw] Hp. pose proof (Hq _ _ Hp) as Hab. apply NoDup_app in Hab as (Ha & Hdis & Hb).
  assert ((((fun c => (c, false)) <$> a) ++ held).*1 = a ++ held.*1) as E1.
  { rewrite fmap_app, <- list_fmap_compose. f_equal. etrans; [|apply list_fmap_id]. done. }
  constructor; rewrite ?E1; [|split|..].
  - intros p' q' c'. rewrite lookup_insert_Some, not_elem_of_app. intros [[<- <-]|[Hne Hp']] Hin.
    + destruct (Hv _ _ c' Hp) as [? ?]; [rewrite elem_of_app; by right|].
      split_and!; [done| |done]. intros Hin'. by eapply Hdis.
    + destruct (Hv _ _ c' Hp' Hin) as [? ?]. split_and!; [done| |done]. intros Hin'.
      apply Hne. eapply (Hd p p' (a ++ b) q' c'); [done|done| |done]. rewrite elem_of_app; by left.
  - apply NoDup_app. split_and!; [done| |done]. intros c' Hin.
    apply (Hv _ _ _ Hp). rewrite elem_of_app; by left.
  - intros c' b'. rewrite elem_of_app, list_elem_of_fmap. intros [(c & [= -> ->] & Hin)|Hin]; [|by eapply Hh].
    destruct (Hv _ _ c Hp) as [[ct ?] _]; [rewrite elem_of_app; by left|]. by exists ct.
  - intros p' q'. rewrite lookup_insert_Some. intros [[<- <-]|[_ Hp']]; [done|by eapply Hq].
  - intros p1 p2 q1 q2 c'. rewrite !lookup_insert_Some.
    intros [[<- <-]|[Hne1 H1]] [[<- <-]|[Hne2 H2]] Hin1 Hin2; [done|..|by eapply Hd];
      eapply (Hd _ _ _ _ c'); try eassumption; rewrite elem_of_app; by right.
  - done.
Qed.

Lemma qo_enqueue held qs conts work c ct : queuesOk held qs conts work ->
  conts !! c = Some ct -> locked ct = true -> queuesOk held qs conts (work ++ [c]).
Proof.
  intros [Hv Hh Hq Hd Hw] Hc Hl. constructor; [done..|].
  intros c'. rewrite elem_of_app, list_elem_of_singleton. intros [?| ->]; [auto|eauto].
Qed.

(** A worker is done with [c]. *)
Lemma qo_unlock held held' qs conts work c ct : queuesOk held qs conts work ->
  is_Some (conts !! c) -> locked ct = false -> held'.*1 = held.*1 ->
  (forall c' b, (c', b) ∈ held' -> (c', b) ∈ held \/ c' = c) ->
  queuesOk held' qs (<[c := ct]> conts) (filter (fun x => x <> c) work).
Proof.
  intros [Hv [Hn Hh] Hq Hd Hw] Hc Hl He Hin.
  constructor; rewrite ?He; [|split; [done|]|done..|].
  - intros p q c' Hp Hc'. destruct (Hv _ _ _ Hp Hc'). split; [|done]. apply lookup_insert_is_Some'. by right.
  - intros c' b Hc'. destruct (decide (c = c')) as [<-|Hne]; [exists ct; by rewrite lookup_insert_eq|].
    rewrite lookup_insert_ne by done. apply Hh. destruct (Hin _ _ Hc'); [done|congruence].
  - intros c' [Hne Hc']%list_elem_of_filter. rewrite lookup_insert_ne by done. auto.
Qed.

(** [c] turns out not to be with a worker. *)
Lemma qo_flag held held' qs conts work c ct : queuesOk held qs conts work ->
  conts !! c = Some ct -> locked ct = false -> held'.*1 = held.*1 ->
  (forall c' b, (c', b) ∈ held' -> (c', b) ∈ held \/ c' = c) -> queuesOk held' qs conts work.
Proof.
  intros [Hv [Hn Hh] Hq Hd Hw] Hc Hl He Hin. constructor; rewrite ?He; [done| |done..].
  split; [done|]. intros c' b Hc'. destruct (Hin _ _ Hc') as [?| ->]; [by apply Hh|by exists ct].
Qed.

Lemma qo_drop held qs conts work c : queuesOk ((c, true) :: held) qs conts work ->
  queuesOk held qs (delete c conts) work.
Proof.
  intros [Hv [Hn Hh] Hq Hd Hw]. cbn in Hn. apply NoDup_cons in Hn as [Hn1 Hn2].
  destruct (Hh c true) as (ct & Hct & Hun); [by left|].
  constructor; [|split; [done|]|done..|].
  - intros p q c' Hp Hin. destruct (Hv _ _ _ Hp Hin) as [? Hc]. cbn in Hc.
    apply not_elem_of_cons in Hc as [Hne ?]. split; [|done]. by rewrite lookup_delete_ne.
  - intros c' b Hin. rewrite lookup_delete_ne; [apply Hh; by right|]. intros ->. apply Hn1.
    apply list_elem_of_fmap. by exists (c', b).
  - intros c' Hin. destruct (Hw _ Hin) as (x & Hx & Hl). exists x.
    rewrite lookup_delete_ne; [done|]. intros ->. rewrite Hct in Hx. injection Hx as ->.
    by rewrite Hun in Hl.
Qed.

Lemma qo_peer held qs conts work p : queuesOk held qs conts work -> qs !! p = None ->
  queuesOk held (<[p := []]> qs) conts work.
Proof.
  intros [Hv Hh Hq Hd Hw] Hp. constructor; [|done| | |done].
  - intros p' q' c'. rewrite lookup_insert_Some. intros [[<- <-]|[_ ?]]; [by intros ?%elem_of_nil|eauto].
  - intros p' q'. rewrite lookup_insert_Some. intros [[<- <-]|[_ ?]]; [apply NoDup_nil_2|eauto].
  - intros p1 p2 q1 q2 c'. rewrite !lookup_insert_Some.
    intros [[<- <-]|[Hne1 H1]] [[<- <-]|[Hne2 H2]] Hin1 Hin2; try by apply elem_of_nil in Hin1; try done.
    + by apply elem_of_nil in Hin2.
    + by eapply Hd.
Qed.

End Queues.
