(* ===== verification/WellFormed.v ===== *)
(** The well-formedness invariant of devices, and a calculus in which an
    operation is shown to run without a panic and to keep it. *)
From S2P Require Import Prelude Replay Ratelimiter Messages NoiseHelpers ToyCrypto Cookie AllowedIPs.
From S2P Require Import TrieBits Trie Routing RoutingSpec State IndexTable Timers Handshake Session Initiations.
From S2P Require Import Send Receive Device Queues.

(** ** Well-formed devices *)

Definition hasPeer (d : Device) (p : peer_id) : Prop := is_Some (d_peers d !! p).
Definition hasKp (d : Device) (k : kp_id) : Prop := is_Some (d_keypairs d !! k).
Definition hasSlots (d : Device) (ks : Keypairs) : Prop := forall k, k ∈ slots ks -> hasKp d k.

Record entryOk (d : Device) (e : IndexTableEntry) : Prop := {
  eo_peer : exists p, it_peer e = Some p /\ hasPeer d p;
  eo_handshake : forall p, it_handshake e = Some p -> it_peer e = Some p;
  eo_keypair : forall k, it_keypair e = Some k -> hasKp d k }.

Definition outElemOk (d : Device) (e : OutElem) : Prop :=
  exists k, oe_keypair e = Some k /\ hasKp d k.

(** What is still encrypted is there and whole. *)
Definition inElemOk (d : Device) (lock : bool) (e : InElem) : Prop :=
  hasKp d (ie_keypair e) /\ (lock = true -> is_Some (ie_packet e)) /\
  forall packet, ie_packet e = Some packet -> all_bytes packet.

Definition hsElemOk (e : HsElem) : Prop :=
  all_bytes (he_packet e) /\ (32 <= length (he_packet e))%nat.

(** The counter stops at the limit. *)
Definition nonceOk (kp : Keypair) : Prop := 0 <= sendNonce kp <= RejectAfterMessages.

Definition limiterOpen (r : Ratelimiter (Addr := bytes)) : Prop :=
  stopReset r = gcIdle \/ stopReset r = gcTicking.

Record wf (ho hi : helds) (d : Device) : Prop := {
  wf_slots : forall p x, d_peers d !! p = Some x -> hasSlots d (keypairs x);
  wf_keys : keyMapValid d;
  wf_index : forall i e, d_indexTable d !! i = Some e -> entryOk d e;
  wf_routes : exists m, represents (d_allowedips d) m /\
    forall q p, m !! q = Some p -> hasPeer d p;
  wf_outElems : forall c ct, d_outConts d !! c = Some ct -> Forall (outElemOk d) (elems ct);
  wf_inElems : forall c ct, d_inConts d !! c = Some ct -> Forall (inElemOk d (locked ct)) (elems ct);
  wf_out : queuesOk ho (outbound <$> d_peers d) (d_outConts d) (d_encryption d);
  wf_in : queuesOk hi (inbound <$> d_peers d) (d_inConts d) (d_decryption d);
  wf_nonces : forall k kp, d_keypairs d !! k = Some kp -> nonceOk kp;
  wf_limiter : d_state d <> deviceStateClosed -> limiterOpen (d_limiter d);
  wf_ready : stopReset (d_limiter d) <> gcNil;
  wf_mtu : 0 <= d_mtu d;
  wf_handshakes : Forall hsElemOk (d_handshakes d) }.

(** Objects stay allocated; the state of the device is the caller's. *)
Record ext (d d' : Device) : Prop := {
  ext_peers : forall p, hasPeer d p -> hasPeer d' p;
  ext_kps : forall k, hasKp d k -> hasKp d' k;
  ext_state : d_state d' = d_state d;
  ext_limiter : limiterOpen (d_limiter d) -> limiterOpen (d_limiter d') }.

Lemma ext_refl d : ext d d.
Proof. by split. Qed.
Lemma ext_trans d1 d2 d3 : ext d1 d2 -> ext d2 d3 -> ext d1 d3.
Proof. intros [] []. split; [auto|auto|congruence|auto]. Qed.
Lemma ext_slots d d' ks : ext d d' -> hasSlots d ks -> hasSlots d' ks.
Proof. intros [] H k Hk. auto. Qed.

(** ** Safe runs *)

Definition safe {A} (ho hi : helds) (m : M A) (w : World) (Q : A -> World -> Prop) : Prop :=
  runs m w (fun a w' => wf ho hi (dev w') /\ ext (dev w) (dev w') /\ Q a w').

Lemma safe_bind {A B} ho hi ho' hi' (m : M A) (k : A -> M B) w Q Q' :
  safe ho hi m w Q ->
  (forall a w', wf ho hi (dev w') -> ext (dev w) (dev w') -> Q a w' -> safe ho' hi' (k a) w' Q') ->
  safe ho' hi' (bind m k) w Q'.
Proof.
  intros Hm Hk. apply runs_bind. eapply runs_mono; [exact Hm|]. intros a w' (H1 & H2 & H3).
  eapply runs_mono; [by apply Hk|]. intros b w'' (H4 & H5 & H6). eauto using ext_trans.
Qed.

Lemma safe_ret {A} ho hi (a : A) w (Q : A -> World -> Prop) :
  wf ho hi (dev w) -> Q a w -> safe ho hi (ret a) w Q.
Proof. intros H1 H2. split; [done|]. split; [apply ext_refl|done]. Qed.

Lemma safe_mono {A} ho hi (m : M A) w (Q Q' : A -> World -> Prop) :
  safe ho hi m w Q -> (forall a w', Q a w' -> Q' a w') -> safe ho hi m w Q'.
Proof. intros H HQ. eapply runs_mono; [exact H|]. intros a w' (H1 & H2 & H3). auto. Qed.

Lemma safe_when ho hi (b : bool) (m : M unit) w (Q : unit -> World -> Prop) :
  wf ho hi (dev w) -> (b = true -> safe ho hi m w Q) -> (b = false -> Q tt w) ->
  safe ho hi (when b m) w Q.
Proof. destruct b; cbn [when]; [auto|]. intros H1 _ H2. by apply safe_ret; auto. Qed.

Lemma safe_getD ho hi w (Q : Device -> World -> Prop) :
  wf ho hi (dev w) -> Q (dev w) w -> safe ho hi getD w Q.
Proof. intros H1 H2. split; [done|]. split; [apply ext_refl|done]. Qed.

Lemma safe_getNow ho hi w (Q : Z -> World -> Prop) :
  wf ho hi (dev w) -> Q (w_now w) w -> safe ho hi getNow w Q.
Proof. intros H1 H2. split; [done|]. split; [apply ext_refl|done]. Qed.

Lemma safe_getPeer ho hi p w (Q : Peer -> World -> Prop) :
  wf ho hi (dev w) -> hasPeer (dev w) p ->
  (forall x, d_peers (dev w) !! p = Some x -> hasSlots (dev w) (keypairs x) -> Q x w) ->
  safe ho hi (getPeer p) w Q.
Proof.
  intros H1 [x Hx] H2. eapply runs_getPeer; [exact Hx|]. split; [done|]. split; [apply ext_refl|].
  apply H2; [done|]. by eapply wf_slots.
Qed.

Lemma safe_getKp ho hi k w (Q : Keypair -> World -> Prop) :
  wf ho hi (dev w) -> hasKp (dev w) k ->
  (forall x, d_keypairs (dev w) !! k = Some x -> Q x w) -> safe ho hi (getKp k) w Q.
Proof.
  intros H1 [x Hx] H2. eapply runs_getKp; [exact Hx|]. split; [done|]. split; [apply ext_refl|auto].
Qed.

(** [ext] of a concrete update. *)
Ltac ext_auto :=
  split; [intros ? ?|intros ? ?|reflexivity|done]; unfold hasPeer, hasKp in *; cbn;
  first [assumption | by apply lookup_insert_is_Some'; right].

(** ** Updates that keep the invariant *)

(** Equal as far as the invariant goes. *)
Record similar (d d' : Device) : Prop := {
  si_peers : keypairs <$> d_peers d' = keypairs <$> d_peers d;
  si_outbound : outbound <$> d_peers d' = outbound <$> d_peers d;
  si_inbound : inbound <$> d_peers d' = inbound <$> d_peers d;
  si_kps : d_keypairs d' = d_keypairs d;
  si_state : d_state d' = d_state d;
  si_limiter : d_limiter d' = d_limiter d;
  si_mtu : d_mtu d' = d_mtu d }.

Lemma similar_refl d : similar d d.
Proof. by split. Qed.

Lemma fmap_peers_some {X} (f : Peer -> X) (m m' : gmap peer_id Peer) p :
  f <$> m' = f <$> m -> is_Some (m' !! p) <-> is_Some (m !! p).
Proof.
  intros E. assert ((f <$> m') !! p = (f <$> m) !! p) as Ep by by rewrite E.
  rewrite !lookup_fmap in Ep. destruct (m' !! p), (m !! p); cbn in Ep; try done; by split; eauto.
Qed.

Lemma similar_peer d d' p : similar d d' -> hasPeer d' p <-> hasPeer d p.
Proof. intros H. eapply fmap_peers_some, si_peers, H. Qed.
Lemma similar_kp d d' k : similar d d' -> hasKp d' k <-> hasKp d k.
Proof. intros []. unfold hasKp. by rewrite si_kps0. Qed.
Lemma similar_ext d d' : similar d d' -> ext d d'.
Proof.
  intros H. split; [intros p; apply similar_peer, H|intros k; apply similar_kp, H|apply si_state, H|].
  by rewrite (si_limiter _ _ H).
Qed.

(** The parts of the invariant that look at other objects, in a larger device. *)
Lemma entryOk_ext d d' e : ext d d' -> entryOk d e -> entryOk d' e.
Proof.
  intros [] [(p & ? & ?) ? ?]. split; [exists p|..]; auto.
Qed.
Lemma outElemOk_ext d d' e : ext d d' -> outElemOk d e -> outElemOk d' e.
Proof. intros [] (k & ? & ?). exists k. auto. Qed.
Lemma inElemOk_ext d d' b e : ext d d' -> inElemOk d b e -> inElemOk d' b e.
Proof. intros [] (? & ? & ?). split_and!; auto. Qed.

(** The invariant after an update, field by field: what did not change is
    carried over to the larger device. *)
Lemma carry_slots d d' p x : ext d d' -> (forall p x, d_peers d !! p = Some x -> hasSlots d (keypairs x)) ->
  d_peers d !! p = Some x -> hasSlots d' (keypairs x).
Proof. intros. eapply ext_slots; eauto. Qed.

Ltac carry :=
  match goal with
  | Hext : ext ?d ?d' |- _ =>
    try match goal with
    | H : forall p x, d_peers d !! p = Some x -> hasSlots d (keypairs x)
      |- forall p x, d_peers d' !! p = Some x -> _ =>
        let E := fresh in intros ? ? E; by eapply ext_slots, H, E
    | H : keyMapValid d |- keyMapValid d' =>
        let E := fresh in intros ? ? E; apply (ext_peers _ _ Hext); by eapply H
    | H : forall i e, d_indexTable d !! i = Some e -> entryOk d e
      |- forall i e, d_indexTable d' !! i = Some e -> _ =>
        let E := fresh in intros ? ? E; by eapply entryOk_ext, H, E
    | H : exists m, represents (d_allowedips d) m /\ _ |- exists m, represents (d_allowedips d') m /\ _ =>
        destruct H as (? & ? & ?); eexists; split; [eassumption|];
        let E := fresh in intros ? ? E; by eapply (ext_peers _ _ Hext); eauto
    | H : forall c ct, d_outConts d !! c = Some ct -> _ |- forall c ct, d_outConts d' !! c = Some ct -> _ =>
        let E := fresh in intros ? ? E; eapply Forall_impl; [by eapply H, E|];
        intros; by eapply outElemOk_ext
    | H : forall c ct, d_inConts d !! c = Some ct -> _ |- forall c ct, d_inConts d' !! c = Some ct -> _ =>
        let E := fresh in intros ? ? E; eapply Forall_impl; [by eapply H, E|];
        intros; by eapply inElemOk_ext
    end; try eassumption; try done
  end.
Tactic Notation "wfcarry" hyp(H) := destruct H; constructor; carry.

(** Only fields the invariant does not look at differ. *)
Lemma wf_similar ho hi d d' : wf ho hi d -> similar d d' ->
  d_keyMap d' = d_keyMap d -> d_indexTable d' = d_indexTable d -> d_allowedips d' = d_allowedips d ->
  d_outConts d' = d_outConts d -> d_inConts d' = d_inConts d ->
  d_encryption d' = d_encryption d -> d_decryption d' = d_decryption d ->
  d_limiter d' = d_limiter d -> d_handshakes d' = d_handshakes d -> wf ho hi d'.
Proof.
  intros H Hs E1 E2 E3 E4 E5 E6 E7 E8 E9. pose proof (similar_ext _ _ Hs) as Hext.
  destruct H, Hs. constructor; rewrite ?E1, ?E2, ?E3, ?E4, ?E5, ?E6, ?E7, ?E8, ?E9, ?si_outbound0, ?si_inbound0;
    carry.
  - intros p x Hx. assert ((keypairs <$> d_peers d') !! p = Some (keypairs x)) as Ek
      by by rewrite lookup_fmap, Hx. rewrite si_peers0, lookup_fmap in Ek.
    destruct (d_peers d !! p) as [y|] eqn:Ey; [|done]. cbn in Ek. injection Ek as <-.
    by eapply ext_slots, wf_slots0.
  - intros pk p. rewrite E1. intros Hk. by eapply (ext_peers _ _ Hext), wf_keys0.
  - intros i e He. by eapply entryOk_ext, wf_index0.
  - destruct wf_routes0 as (m & Hm & Hp). exists m. split; [done|]. intros q p Hq.
    by eapply (ext_peers _ _ Hext), Hp.
  - intros c ct Hc. eapply Forall_impl; [by eapply wf_outElems0|]. intros e. by apply outElemOk_ext.
  - intros c ct Hc. eapply Forall_impl; [by eapply wf_inElems0|]. intros e. by apply inElemOk_ext.
  - intros k kp. rewrite si_kps0. apply wf_nonces0.
  - intros Hn. apply wf_limiter0. congruence.
  - by rewrite si_mtu0.
Qed.

Lemma fmap_peers_insert {X} (f : Peer -> X) (m : gmap peer_id Peer) p x y :
  m !! p = Some x -> f y = f x -> f <$> <[p := y]> m = f <$> m.
Proof. intros Hx Hf. rewrite fmap_insert, Hf, <- fmap_insert. by rewrite insert_id. Qed.

Lemma similar_modPeer d p x y : d_peers d !! p = Some x ->
  keypairs y = keypairs x -> outbound y = outbound x -> inbound y = inbound x ->
  similar d (d <| d_peers ::= <[p := y]> |>).
Proof. intros. constructor; cbn; try done; by eapply fmap_peers_insert. Qed.

Lemma safe_modPeer ho hi p f w (Q : unit -> World -> Prop) :
  wf ho hi (dev w) -> hasPeer (dev w) p ->
  (forall x, keypairs (f x) = keypairs x /\ outbound (f x) = outbound x /\ inbound (f x) = inbound x) ->
  (forall w', Q tt w') -> safe ho hi (modPeer p f) w Q.
Proof.
  intros H1 [x Hx] Hf HQ. destruct (Hf x) as (Hk & Ho & Hi). eapply runs_modPeer; [exact Hx|].
  pose proof (similar_modPeer (dev w) p x (f x) Hx Hk Ho Hi) as Hs.
  split; [|split; [by apply similar_ext|auto]]. by apply (wf_similar _ _ _ _ H1 Hs).
Qed.

Lemma safe_modPeer_at ho hi p f w x :
  wf ho hi (dev w) -> d_peers (dev w) !! p = Some x ->
  (forall x, keypairs (f x) = keypairs x /\ outbound (f x) = outbound x /\ inbound (f x) = inbound x) ->
  safe ho hi (modPeer p f) w (fun _ w' => d_peers (dev w') !! p = Some (f x) /\
    d_keypairs (dev w') = d_keypairs (dev w)).
Proof.
  intros H1 Hx Hf. destruct (Hf x) as (Hk & Ho & Hi). eapply runs_modPeer; [exact Hx|].
  pose proof (similar_modPeer (dev w) p x (f x) Hx Hk Ho Hi) as Hs.
  split; [|split; [by apply similar_ext|split; [apply lookup_insert_eq|done]]].
  by apply (wf_similar _ _ _ _ H1 Hs).
Qed.

(** Changing the slots of a peer. *)
Lemma safe_modSlots ho hi p f w (Q : unit -> World -> Prop) :
  wf ho hi (dev w) -> hasPeer (dev w) p ->
  (forall x, hasSlots (dev w) (keypairs x) -> hasSlots (dev w) (keypairs (f x)) /\
    outbound (f x) = outbound x /\ inbound (f x) = inbound x) ->
  (forall w', Q tt w') -> safe ho hi (modPeer p f) w Q.
Proof.
  intros H1 [x Hx] Hf HQ. pose proof (wf_slots _ _ _ H1 _ _ Hx) as Hks.
  destruct (Hf x Hks) as (Hk & Ho & Hi). eapply runs_modPeer; [exact Hx|].
  assert (ext (dev w) (dev (w <| dev ::= fun d => d <| d_peers ::= <[p := f x]> |> |>))) as Hext.
  { split; cbn; [|done|done|done]. intros q Hq. unfold hasPeer. cbn. apply lookup_insert_is_Some'. by right. }
  split; [|split; [done|auto]]. wfcarry H1.
  - cbn. intros q y. rewrite lookup_insert_Some. intros [[<- <-]|[_ Hy]]; eapply ext_slots; eauto.
  - cbn. by rewrite (fmap_peers_insert _ _ _ x).
  - cbn. by rewrite (fmap_peers_insert _ _ _ x).
Qed.

(** An update of fields the invariant ignores. *)
Lemma safe_modD ho hi f w (Q : unit -> World -> Prop) :
  wf ho hi (dev w) -> ext (dev w) (f (dev w)) -> wf ho hi (f (dev w)) -> (forall w', Q tt w') ->
  safe ho hi (modD f) w Q.
Proof. intros H1 H2 H3 HQ. split; [done|]. split; [done|apply HQ]. Qed.

Lemma safe_modKp ho hi k f w (Q : unit -> World -> Prop) :
  wf ho hi (dev w) -> hasKp (dev w) k -> (forall x, nonceOk x -> nonceOk (f x)) -> (forall w', Q tt w') ->
  safe ho hi (modKp k f) w Q.
Proof.
  intros H1 [x Hx] Hf HQ. unfold safe, runs, modKp. rewrite Hx.
  assert (ext (dev w) (dev (w <| dev ::= fun d => d <| d_keypairs ::= <[k := f x]> |> |>))) as Hext by ext_auto.
  split; [|split; [done|auto]]. pose proof (wf_nonces _ _ _ H1 _ _ Hx). wfcarry H1.
  intros k' kp'. cbn. rewrite lookup_insert_Some. intros [[_ <-]|[_ ?]]; eauto.
Qed.

(** The index table: entries may go, and come for existing objects. *)
Lemma wf_indexTable ho hi d t : wf ho hi d ->
  (forall i e, t !! i = Some e -> d_indexTable d !! i = Some e \/ entryOk d e) ->
  wf ho hi (d <| d_indexTable := t |>).
Proof.
  intros H Ht. assert (ext d (d <| d_indexTable := t |>)) as Hext by by split.
  wfcarry H. cbn. intros i e He. eapply entryOk_ext; [done|]. destruct (Ht i e He); eauto.
Qed.

Lemma safe_indexDelete ho hi i w (Q : unit -> World -> Prop) :
  wf ho hi (dev w) -> (forall w', Q tt w') -> safe ho hi (indexDelete i) w Q.
Proof.
  intros H1 HQ. apply safe_modD; [done|by split| |done].
  apply (wf_indexTable ho hi (dev w) (tableDelete i (d_indexTable (dev w)))); [done|].
  intros j e. unfold tableDelete. rewrite lookup_delete_Some. intros [_ ?]. by left.
Qed.

Lemma safe_SwapIndex ho hi i k w (Q : unit -> World -> Prop) :
  wf ho hi (dev w) -> hasKp (dev w) k -> (forall w', Q tt w') ->
  safe ho hi (SwapIndexForKeypair i k) w Q.
Proof.
  intros H1 Hk HQ. apply safe_modD; [done|by split| |done].
  apply (wf_indexTable ho hi (dev w) (tableSwap i k (d_indexTable (dev w)))); [done|].
  intros j e. unfold tableSwap. destruct (d_indexTable (dev w) !! i) as [e0|] eqn:E0; [|by left].
  rewrite lookup_insert_Some. intros [[_ <-]|[_ ?]]; [right|by left].
  destruct (wf_index _ _ _ H1 _ _ E0) as [(p & ? & ?) _ _]. split; cbn; [by exists p|done|congruence].
Qed.

Lemma safe_NewIndex ho hi p w (Q : Z * bool -> World -> Prop) :
  wf ho hi (dev w) -> hasPeer (dev w) p -> (forall r w', Q r w') ->
  safe ho hi (NewIndexForHandshake p p) w Q.
Proof.
  intros H1 Hp HQ. unfold safe, runs, NewIndexForHandshake.
  destruct (newIndex _ _ _ _) as [[[i ok] t] rnd] eqn:E. split_and!; [|by split|auto].
  change (wf ho hi (dev w <| d_indexTable := t |>)). apply wf_indexTable; [done|].
  apply newIndex_spec in E. destruct ok; [|subst; by left]. destruct E as [_ ->].
  intros j e. rewrite lookup_insert_Some. intros [[_ <-]|[_ ?]]; [right|by left].
  split; cbn; [by exists p|congruence|done].
Qed.

Lemma safe_newKeypair `{C : Crypto} ho hi kp w (Q : kp_id -> World -> Prop) :
  wf ho hi (dev w) -> nonceOk kp -> (forall k w', hasKp (dev w') k -> Q k w') ->
  safe ho hi (newKeypair kp) w Q.
Proof.
  intros H1 Hn HQ. unfold safe, runs, newKeypair. set (k := fresh _).
  assert (ext (dev w) (dev (w <| dev ::= fun d => d <| d_keypairs ::= <[k := kp]> |> |>))) as Hext.
  { split; cbn; [done| |done|done]. intros j Hj. unfold hasKp. cbn. apply lookup_insert_is_Some'. by right. }
  split; [|split; [exact Hext|]].
  - wfcarry H1. intros k' kp'. cbn. rewrite lookup_insert_Some. intros [[_ <-]|[_ ?]]; eauto.
  - apply HQ. unfold hasKp. cbn. rewrite lookup_insert_eq. eauto.
Qed.

(** An operation that leaves the device alone. *)
Lemma safe_env {A} ho hi (m : M A) w (Q : A -> World -> Prop) :
  wf ho hi (dev w) -> (exists a w', m w = Some (a, w') /\ dev w' = dev w) -> (forall a w', Q a w') ->
  safe ho hi m w Q.
Proof.
  intros H1 (a & w' & E & Ed) HQ. unfold safe, runs. rewrite E, Ed.
  split; [done|]. split; [apply ext_refl|auto].
Qed.

Lemma safe_randRead ho hi w (Q : option bytes -> World -> Prop) :
  wf ho hi (dev w) -> (forall a w', Q a w') -> safe ho hi randRead w Q.
Proof. intros. apply safe_env; [done| |done]. unfold randRead. destruct (w_rand w); eauto. Qed.
Lemma safe_fastrandn ho hi n w (Q : Z -> World -> Prop) :
  wf ho hi (dev w) -> (forall a w', Q a w') -> safe ho hi (fastrandn n) w Q.
Proof. intros. apply safe_env; [done| |done]. unfold fastrandn. destruct (w_jitter w); eauto. Qed.
Lemma safe_netSend ho hi e bs w (Q : sendResult -> World -> Prop) :
  wf ho hi (dev w) -> (forall a w', Q a w') -> safe ho hi (netSend e bs) w Q.
Proof. intros. apply safe_env; [done| |done]. unfold netSend. destruct (w_net w); eauto. Qed.
Lemma safe_tunWrite ho hi bs w (Q : unit -> World -> Prop) :
  wf ho hi (dev w) -> (forall a w', Q a w') -> safe ho hi (tunWrite bs) w Q.
Proof. intros. apply safe_env; [done| |done]. unfold tunWrite, modW. eauto. Qed.
Lemma safe_bindCall ho hi w (Q : bool -> World -> Prop) :
  wf ho hi (dev w) -> (forall a w', Q a w') -> safe ho hi bindCall w Q.
Proof. intros. apply safe_env; [done| |done]. unfold bindCall. destruct (w_bind w); eauto. Qed.
Lemma safe_bindOpen ho hi port w (Q : option Z -> World -> Prop) :
  wf ho hi (dev w) -> (forall a w', Q a w') -> safe ho hi (bindOpen port) w Q.
Proof. intros. apply safe_env; [done| |done]. unfold bindOpen. destruct (w_open w); eauto. Qed.
Lemma safe_unknownPacket ho hi e w (Q : unit -> World -> Prop) :
  wf ho hi (dev w) -> (forall a w', Q a w') -> safe ho hi (unknownPacket e) w Q.
Proof.
  intros. apply safe_env; [done| |done]. unfold unknownPacket, modW.
  destruct (d_unknownHandler _); eauto.
Qed.

Lemma safe_rangeOrder {A} ho hi (l : list A) w (Q : list A -> World -> Prop) :
  wf ho hi (dev w) -> (forall l' w', dev w' = dev w -> (forall x, x ∈ l' -> x ∈ l) -> Q l' w') ->
  safe ho hi (rangeOrder l) w Q.
Proof.
  intros H HQ. unfold safe, runs, rangeOrder.
  pose proof (fun x => pickOrder_in (length l) (w_order w) l x) as Hin.
  destruct (pickOrder _ _ _) as [l' ord]. split; [done|]. split; [apply ext_refl|]. by apply HQ.
Qed.

(** Operations on the routing table that keep it a table of existing peers. *)
Lemma safe_onRoutes {A} ho hi (m : ST AllowedIPs A) w (P : A -> Prop) (Q : A -> World -> Prop) :
  wf ho hi (dev w) ->
  (forall t r, d_allowedips (dev w) = t -> represents t r -> (forall q p, r !! q = Some p -> hasPeer (dev w) p) ->
    runs m t (fun a t' => P a /\ exists r', represents t' r' /\
      forall q p, r' !! q = Some p -> hasPeer (dev w) p)) ->
  (forall a w', P a -> Q a w') -> safe ho hi (onRoutes m) w Q.
Proof.
  intros H Hm HQ. destruct (wf_routes _ _ _ H) as (r & Hr & Hp).
  destruct (runs_exists _ _ _ (Hm _ r eq_refl Hr Hp)) as (a & t' & E & Ha & r' & Hr' & Hp').
  unfold safe, runs, onRoutes. rewrite E.
  assert (ext (dev w) (dev (w <| dev ::= fun d => d <| d_allowedips := t' |> |>))) as Hext by by split.
  split; [|split; [exact Hext|auto]]. wfcarry H.
Qed.

(** ** Containers *)

Lemma safe_intro {A} ho hi (m : M A) w a d' (Q : A -> World -> Prop) :
  m w = Some (a, w <| dev := d' |>) -> ext (dev w) d' -> wf ho hi d' -> Q a (w <| dev := d' |>) ->
  safe ho hi m w Q.
Proof. intros E H1 H2 H3. unfold safe, runs. by rewrite E. Qed.

Lemma ext_modPeer d p y : ext d (d <| d_peers ::= <[p := y]> |>).
Proof. split; cbn; [|done|done|done]. intros q Hq. unfold hasPeer. cbn. apply lookup_insert_is_Some'. by right. Qed.

(** A container that becomes shared goes to the peer's queue and the workers'. *)
Lemma safe_queueOut ho hi es p w x (Q : unit -> World -> Prop) :
  wf ho hi (dev w) -> d_peers (dev w) !! p = Some x -> Forall (outElemOk (dev w)) es ->
  (forall w' x', d_peers (dev w') !! p = Some x' -> staged x' = staged x -> keypairs x' = keypairs x ->
    d_keypairs (dev w') = d_keypairs (dev w) -> Q tt w') ->
  safe ho hi (let* c := shareContainer es in
    modPeer p (fun x => x <| outbound ::= fun q => q ++ [c] |>);;;
    modD (fun d => d <| d_encryption ::= fun q => q ++ [c] |>)) w Q.
Proof.
  intros H Hx Hes HQ. set (c := fresh (dom (d_outConts (dev w)))).
  pose (d' := dev w <| d_outConts ::= <[c := mkContainer true es]> |>
    <| d_peers ::= <[p := x <| outbound ::= fun q => q ++ [c] |>]> |>
    <| d_encryption ::= fun q => q ++ [c] |>).
  assert (ext (dev w) d') as Hext by ext_auto.
  eapply (safe_intro _ _ _ _ tt d');
    [|exact Hext| |by eapply HQ with (x' := x <| outbound ::= fun q => q ++ [c] |>); [apply lookup_insert_eq|..]].
  - unfold bind, shareContainer, modPeer. cbn. rewrite Hx. reflexivity.
  - wfcarry H.
    + cbn. intros q y. rewrite lookup_insert_Some. intros [[<- <-]|[_ Hy]]; eapply (ext_slots (dev w)); eauto.
      by eapply (wf_slots0 p x).
    + intros c' ct. cbn. rewrite lookup_insert_Some. intros [[_ <-]|[_ Hct]];
        (eapply Forall_impl; [first [exact Hes|by eapply wf_outElems0]|]; intros e; by apply outElemOk_ext).
    + cbn. rewrite fmap_insert. cbn. eapply qo_enqueue; [|by rewrite lookup_insert_eq|done].
      eapply qo_push with (b := false); [|by rewrite lookup_fmap, Hx].
      apply qo_share; [done|]. apply not_elem_of_dom, is_fresh.
    + cbn. by rewrite (fmap_peers_insert _ _ _ x).
Qed.

Lemma safe_queueIn ho hi es p w (Q : unit -> World -> Prop) :
  wf ho hi (dev w) -> hasPeer (dev w) p -> Forall (inElemOk (dev w) true) es -> (forall w', Q tt w') ->
  safe ho hi (let* c := shareInbound es in
    modPeer p (fun x => x <| inbound ::= fun q => q ++ [c] |>);;;
    modD (fun d => d <| d_decryption ::= fun q => q ++ [c] |>)) w Q.
Proof.
  intros H [x Hx] Hes HQ. set (c := fresh (dom (d_inConts (dev w)))).
  pose (d' := dev w <| d_inConts ::= <[c := mkContainer true es]> |>
    <| d_peers ::= <[p := x <| inbound ::= fun q => q ++ [c] |>]> |>
    <| d_decryption ::= fun q => q ++ [c] |>).
  assert (ext (dev w) d') as Hext by ext_auto.
  eapply (safe_intro _ _ _ _ tt d'); [|exact Hext| |apply HQ].
  - unfold bind, shareInbound, modPeer. cbn. rewrite Hx. reflexivity.
  - wfcarry H.
    + cbn. intros q y. rewrite lookup_insert_Some. intros [[<- <-]|[_ Hy]]; eapply (ext_slots (dev w)); eauto.
      by eapply (wf_slots0 p x).
    + intros c' ct. cbn. rewrite lookup_insert_Some. intros [[_ <-]|[_ Hct]];
        (eapply Forall_impl; [first [exact Hes|by eapply wf_inElems0]|]; intros e; by apply inElemOk_ext).
    + cbn. by rewrite (fmap_peers_insert _ _ _ x).
    + cbn. rewrite fmap_insert. cbn. eapply qo_enqueue; [|by rewrite lookup_insert_eq|done].
      eapply qo_push with (b := false); [|by rewrite lookup_fmap, Hx].
      apply qo_share; [done|]. apply not_elem_of_dom, is_fresh.
Qed.

(** A routine takes containers off the front of its queue. *)
Definition taken (a : list cont_id) : helds := (fun c => (c, false)) <$> a.

Lemma safe_takeOut ho hi p x a b w (Q : unit -> World -> Prop) :
  wf ho hi (dev w) -> d_peers (dev w) !! p = Some x -> outbound x = a ++ b -> (forall w', Q tt w') ->
  safe (taken a ++ ho) hi (modPeer p (fun x => x <| outbound := b |>)) w Q.
Proof.
  intros H Hx Hab HQ.
  eapply (safe_intro _ _ _ _ tt (dev w <| d_peers ::= <[p := x <| outbound := b |>]> |>));
    [unfold modPeer; by rewrite Hx|apply ext_modPeer| |apply HQ].
  pose proof (ext_modPeer (dev w) p (x <| outbound := b |>)) as Hext. wfcarry H.
  - cbn. intros q y. rewrite lookup_insert_Some. intros [[<- <-]|[_ Hy]]; eapply (ext_slots (dev w)); eauto.
    by eapply (wf_slots0 p x).
  - cbn. rewrite fmap_insert. cbn. apply qo_take; [done|]. by rewrite lookup_fmap, Hx, <- Hab.
  - cbn. by rewrite (fmap_peers_insert _ _ _ x).
Qed.

Lemma safe_takeIn ho hi p x a b w (Q : unit -> World -> Prop) :
  wf ho hi (dev w) -> d_peers (dev w) !! p = Some x -> inbound x = a ++ b -> (forall w', Q tt w') ->
  safe ho (taken a ++ hi) (modPeer p (fun x => x <| inbound := b |>)) w Q.
Proof.
  intros H Hx Hab HQ.
  eapply (safe_intro _ _ _ _ tt (dev w <| d_peers ::= <[p := x <| inbound := b |>]> |>));
    [unfold modPeer; by rewrite Hx|apply ext_modPeer| |apply HQ].
  pose proof (ext_modPeer (dev w) p (x <| inbound := b |>)) as Hext. wfcarry H.
  - cbn. intros q y. rewrite lookup_insert_Some. intros [[<- <-]|[_ Hy]]; eapply (ext_slots (dev w)); eauto.
    by eapply (wf_slots0 p x).
  - cbn. by rewrite (fmap_peers_insert _ _ _ x).
  - cbn. rewrite fmap_insert. cbn. apply qo_take; [done|]. by rewrite lookup_fmap, Hx, <- Hab.
Qed.

(** It has locked one and is done with it. *)
Lemma safe_dropOut ho hi c w (Q : unit -> World -> Prop) :
  wf ((c, true) :: ho) hi (dev w) -> (forall w', Q tt w') -> safe ho hi (dropOut c) w Q.
Proof.
  intros H HQ. eapply (safe_intro _ _ _ _ tt (dev w <| d_outConts ::= delete c |>));
    [done|by split| |apply HQ].
  assert (ext (dev w) (dev w <| d_outConts ::= delete c |>)) as Hext by by split. wfcarry H.
  - intros c' ct. cbn. rewrite lookup_delete_Some. intros [_ Hct].
    eapply Forall_impl; [by eapply wf_outElems0|]. intros e. by apply outElemOk_ext.
  - cbn. by apply qo_drop.
Qed.

Lemma safe_dropIn ho hi c w (Q : unit -> World -> Prop) :
  wf ho ((c, true) :: hi) (dev w) -> (forall w', Q tt w') -> safe ho hi (dropIn c) w Q.
Proof.
  intros H HQ. eapply (safe_intro _ _ _ _ tt (dev w <| d_inConts ::= delete c |>));
    [done|by split| |apply HQ].
  assert (ext (dev w) (dev w <| d_inConts ::= delete c |>)) as Hext by by split. wfcarry H.
  - intros c' ct. cbn. rewrite lookup_delete_Some. intros [_ Hct].
    eapply Forall_impl; [by eapply wf_inElems0|]. intros e. by apply inElemOk_ext.
  - cbn. by apply qo_drop.
Qed.

(** The container of a queue, of a worker or of a routine that holds it. *)
Lemma safe_getOut ho hi c b w (Q : Container OutElem -> World -> Prop) :
  wf ho hi (dev w) -> (c, b) ∈ ho ->
  (forall ct, d_outConts (dev w) !! c = Some ct -> Forall (outElemOk (dev w)) (elems ct) ->
    (b = true -> locked ct = false) -> Q ct w) ->
  safe ho hi (getOut c) w Q.
Proof.
  intros H Hc HQ. destruct (qo_held _ _ _ _ (wf_out _ _ _ H)) as [_ Hh]. destruct (Hh _ _ Hc) as (ct & Hct & Hl).
  unfold safe, runs, getOut. rewrite Hct. split; [done|]. split; [apply ext_refl|].
  apply HQ; [done| |done]. by eapply wf_outElems.
Qed.

Lemma safe_getIn ho hi c b w (Q : Container InElem -> World -> Prop) :
  wf ho hi (dev w) -> (c, b) ∈ hi ->
  (forall ct, d_inConts (dev w) !! c = Some ct -> Forall (inElemOk (dev w) (locked ct)) (elems ct) ->
    (b = true -> locked ct = false) -> Q ct w) ->
  safe ho hi (getIn c) w Q.
Proof.
  intros H Hc HQ. destruct (qo_held _ _ _ _ (wf_in _ _ _ H)) as [_ Hh]. destruct (Hh _ _ Hc) as (ct & Hct & Hl).
  unfold safe, runs, getIn. rewrite Hct. split; [done|]. split; [apply ext_refl|].
  apply HQ; [done| |done]. by eapply wf_inElems.
Qed.

(** ** The workers *)

Section Workers.
Context `{C : Crypto}.

Lemma encryptElems_runs es w : Forall (outElemOk (dev w)) es -> 0 <= d_mtu (dev w) ->
  runs (encryptElems es) w (fun es' w' => w' = w /\ Forall (outElemOk (dev w)) es').
Proof.
  intros He Hm. induction He as [|e es (k & Ek & kp & Hk) Hes IH]; cbn [encryptElems]; [by wstep|].
  rewrite Ek. do 4 wstep. rewrite encryptElem_some by done. wstep. eapply runs_mono; [exact IH|]. intros es' w' [-> H']. wstep.
  split; [done|]. apply Forall_cons. split; [|done]. exists k. by split; [|exists kp].
Qed.

(** A packet of bytes is decrypted to bytes. *)
Lemma decryptElems_runs `{CL : !CryptoLaws C} es w : Forall (inElemOk (dev w) true) es ->
  runs (decryptElems es) w (fun es' w' => w' = w /\ Forall (inElemOk (dev w) false) es').
Proof.
  induction 1 as [|e es ([kp Hk] & Hp & Hb) Hes IH]; cbn [decryptElems]; [by wstep|].
  destruct (Hp eq_refl) as [packet Epk]. rewrite Epk. do 3 wstep.
  eapply runs_mono; [exact IH|]. intros es' w' [-> H']. wstep.
  split; [done|]. apply Forall_cons. split; [|done]. split_and!; [by exists kp|done|].
  cbn. intros p' Hp'. eapply aead_open_bytes; [|exact Hp']. by apply Forall_drop, Hb.
Qed.

Lemma safe_encryptContainer ho ho' hi c w (Q : unit -> World -> Prop) :
  wf ho hi (dev w) -> is_Some (d_outConts (dev w) !! c) -> ho'.*1 = ho.*1 ->
  (forall c' b, (c', b) ∈ ho' -> (c', b) ∈ ho \/ c' = c) -> (forall w', Q tt w') ->
  safe ho' hi (modD (fun d => d <| d_encryption ::= filter (fun x => x <> c) |>);;; encryptContainer c) w Q.
Proof.
  intros H [ct Hct] He Hin HQ.
  set (w1 := w <| dev ::= fun d => d <| d_encryption ::= filter (fun x => x <> c) |> |>).
  pose proof (wf_outElems _ _ _ H _ _ Hct) as Hes.
  destruct (runs_exists _ _ _ (encryptElems_runs (elems ct) w1 Hes (wf_mtu _ _ _ H))) as (es' & w' & E & -> & Hes').
  set (d' := dev w1 <| d_outConts ::= <[c := mkContainer false es']> |>).
  assert (ext (dev w) d') as Hext by by split.
  eapply (safe_intro _ _ _ _ tt d'); [|exact Hext| |apply HQ].
  - unfold encryptContainer, bind, getOut, modD, modW. cbn. rewrite Hct. unfold w1 in E. cbn in E. by rewrite E.
  - wfcarry H.
    + intros c' ct'. cbn. rewrite lookup_insert_Some. intros [[_ <-]|[_ Hct']];
        (eapply Forall_impl; [first [exact Hes'|by eapply wf_outElems0]|]; intros e; by apply outElemOk_ext).
    + cbn. eapply qo_unlock; [exact wf_out0|by eexists|done|done|done].
Qed.

Lemma safe_lockOut ho hi c w (Q : unit -> World -> Prop) :
  wf ((c, false) :: ho) hi (dev w) -> (forall w', Q tt w') ->
  safe ((c, true) :: ho) hi (lockOut c) w Q.
Proof.
  intros H HQ. unfold lockOut.
  eapply safe_bind with (Q := fun ct w' => d_outConts (dev w') !! c = Some ct);
    [eapply safe_getOut with (b := false); [exact H|by left|done]|].
  assert (forall c' b, (c', b) ∈ (c, true) :: ho -> (c', b) ∈ (c, false) :: ho \/ c' = c) as Hin.
  { intros c' b [[= -> ->]|?]%elem_of_cons; [by right|left; by right]. }
  intros ct w' Hw' _ Hct. destruct (locked ct) eqn:El; cbn [when].
  - by eapply safe_encryptContainer; try done.
  - apply safe_ret; [|done]. destruct Hw'. constructor; try done. by eapply qo_flag.
Qed.

Lemma safe_decryptContainer `{CL : !CryptoLaws C} ho hi hi' c ct w (Q : unit -> World -> Prop) :
  wf ho hi (dev w) -> d_inConts (dev w) !! c = Some ct -> locked ct = true -> hi'.*1 = hi.*1 ->
  (forall c' b, (c', b) ∈ hi' -> (c', b) ∈ hi \/ c' = c) -> (forall w', Q tt w') ->
  safe ho hi' (modD (fun d => d <| d_decryption ::= filter (fun x => x <> c) |>);;; decryptContainer c) w Q.
Proof.
  intros H Hct El He Hin HQ.
  set (w1 := w <| dev ::= fun d => d <| d_decryption ::= filter (fun x => x <> c) |> |>).
  pose proof (wf_inElems _ _ _ H _ _ Hct) as Hes. rewrite El in Hes.
  destruct (runs_exists _ _ _ (decryptElems_runs (elems ct) w1 Hes)) as (es' & w' & E & -> & Hes').
  set (d' := dev w1 <| d_inConts ::= <[c := mkContainer false es']> |>).
  assert (ext (dev w) d') as Hext by by split.
  eapply (safe_intro _ _ _ _ tt d'); [|exact Hext| |apply HQ].
  - unfold decryptContainer, bind, getIn, modD, modW. cbn. rewrite Hct. unfold w1 in E. cbn in E. by rewrite E.
  - wfcarry H.
    + intros c' ct'. cbn. rewrite lookup_insert_Some. intros [[_ <-]|[_ Hct']];
        (eapply Forall_impl; [first [exact Hes'|by eapply wf_inElems0]|]; intros e; by apply inElemOk_ext).
    + cbn. eapply qo_unlock; [exact wf_in0|by eexists|done|done|done].
Qed.

Lemma safe_lockIn `{CL : !CryptoLaws C} ho hi c w (Q : unit -> World -> Prop) :
  wf ho ((c, false) :: hi) (dev w) -> (forall w', Q tt w') ->
  safe ho ((c, true) :: hi) (lockIn c) w Q.
Proof.
  intros H HQ. unfold lockIn.
  eapply safe_bind with (Q := fun ct w' => d_inConts (dev w') !! c = Some ct);
    [eapply safe_getIn with (b := false); [exact H|by left|done]|].
  assert (forall c' b, (c', b) ∈ (c, true) :: hi -> (c', b) ∈ (c, false) :: hi \/ c' = c) as Hin.
  { intros c' b [[= -> ->]|?]%elem_of_cons; [by right|left; by right]. }
  intros ct w' Hw' _ Hct. destruct (locked ct) eqn:El; cbn [when].
  - by eapply safe_decryptContainer; try done.
  - apply safe_ret; [|done]. destruct Hw'. constructor; try done. by eapply qo_flag.
Qed.

End Workers.
