(* ===== verification/Safety.v ===== *)
(** No operation on a well-formed device panics, and every one keeps the
    device well-formed: the outbound and inbound flows, the handshake, the
    timers, and the life cycle of peers and devices. *)
From S2P Require Import Prelude Replay Tai64n Ratelimiter Messages NoiseHelpers ToyCrypto Cookie AllowedIPs.
From S2P Require Import TrieBits Trie Routing RoutingSpec State IndexTable Timers Handshake Session.
From S2P Require Import Initiations Send Staging Receive Device Queues WellFormed.

(** ** Automation: symbolic execution under the invariant *)

Create HintDb safe.

Lemma bind_getPeer {A} ho hi ho' hi' p (k : Peer -> M A) w Q :
  wf ho hi (dev w) -> hasPeer (dev w) p ->
  (forall x, hasPeer (dev w) p -> d_peers (dev w) !! p = Some x -> hasSlots (dev w) (keypairs x) ->
    safe ho' hi' (k x) w Q) ->
  safe ho' hi' (bind (getPeer p) k) w Q.
Proof.
  intros H Hp Hk. destruct (id Hp) as [x Hx]. apply runs_bind. eapply runs_getPeer; [exact Hx|].
  apply Hk; [done|done|]. by eapply wf_slots.
Qed.

Lemma bind_getKp {A} ho hi p (k : Keypair -> M A) w Q :
  hasKp (dev w) p -> (forall x, d_keypairs (dev w) !! p = Some x -> safe ho hi (k x) w Q) ->
  safe ho hi (bind (getKp p) k) w Q.
Proof. intros [x Hx] Hk. apply runs_bind. eapply runs_getKp; [exact Hx|]. by apply Hk. Qed.

Lemma bind_getD {A} ho hi (k : Device -> M A) w Q : safe ho hi (k (dev w)) w Q -> safe ho hi (bind getD k) w Q.
Proof. done. Qed.
Lemma bind_getNow {A} ho hi (k : Z -> M A) w Q : safe ho hi (k (w_now w)) w Q -> safe ho hi (bind getNow k) w Q.
Proof. done. Qed.
Lemma bind_ret {A B} ho hi (a : B) (k : B -> M A) w Q : safe ho hi (k a) w Q -> safe ho hi (bind (ret a) k) w Q.
Proof. done. Qed.
Lemma safe_let {A B} ho hi (t : B) (b : B -> M A) w Q :
  (forall x, x = t -> safe ho hi (b x) w Q) -> safe ho hi (let x := t in b x) w Q.
Proof. intros H. exact (H t eq_refl). Qed.

(** The slots of a peer hold allocated keypairs. *)
Lemma slot_current d ks k : hasSlots d ks -> current ks = Some k -> hasKp d k.
Proof. intros H E. apply H. unfold slots. rewrite E. by left. Qed.
Lemma slot_previous d ks k : hasSlots d ks -> previous ks = Some k -> hasKp d k.
Proof. intros H E. apply H. unfold slots. rewrite list_elem_of_omap. exists (Some k). rewrite E. set_solver. Qed.
Lemma slot_next d ks k : hasSlots d ks -> next ks = Some k -> hasKp d k.
Proof. intros H E. apply H. unfold slots. rewrite list_elem_of_omap. exists (Some k). rewrite E. set_solver. Qed.
#[export] Hint Resolve slot_current slot_previous slot_next : safe.

Lemma key_peer ho hi d pk p : wf ho hi d -> d_keyMap d !! pk = Some p -> hasPeer d p.
Proof. intros H Hk. by eapply wf_keys. Qed.
#[export] Hint Resolve key_peer : safe.

(** An entry of the table, or the zero one. *)
Record entryFound (e : IndexTableEntry) (w : World) : Prop := {
  ef_peer : forall p, it_peer e = Some p -> hasPeer (dev w) p;
  ef_handshake : forall p, it_handshake e = Some p -> it_peer e = Some p;
  ef_keypair : forall k, it_keypair e = Some k -> hasKp (dev w) k /\ is_Some (it_peer e) }.

Lemma safe_indexLookup ho hi i w : wf ho hi (dev w) -> safe ho hi (indexLookup i) w entryFound.
Proof.
  intros H. split; [done|]. split; [apply ext_refl|]. unfold tableLookup.
  destruct (d_indexTable (dev w) !! i) as [e|] eqn:E; cbn [default from_option id]; [|done].
  destruct (wf_index _ _ _ H _ _ E) as [(p & Ep & Hp) Hh Hk]. split; [congruence|done|].
  intros k Ek. split; [auto|by eexists].
Qed.
#[export] Hint Resolve safe_indexLookup ef_peer ef_handshake : safe.

(** The peer an operation answers exists. *)
Definition peerThere (r : option peer_id) (w : World) : Prop := forall p, r = Some p -> hasPeer (dev w) p.
Lemma peerThere_none w : peerThere None w.
Proof. done. Qed.
Lemma peerThere_some p w : hasPeer (dev w) p -> peerThere (Some p) w.
Proof. by intros ? ? [= <-]. Qed.
Lemma peerThere_elim r p w : peerThere r w -> r = Some p -> hasPeer (dev w) p.
Proof. intros H ->. by apply H. Qed.
#[export] Hint Resolve peerThere_none peerThere_some peerThere_elim : safe.

Lemma entryFound_ext e w w' : entryFound e w -> ext (dev w) (dev w') -> entryFound e w'.
Proof. intros [] []. split; [auto..|]. intros k Hk. destruct (ef_keypair0 k Hk). auto. Qed.
Lemma peerThere_ext r w w' : peerThere r w -> ext (dev w) (dev w') -> peerThere r w'.
Proof. intros H [] p Hp. auto. Qed.
Lemma entryFound_there e w : entryFound e w -> peerThere (it_peer e) w.
Proof. intros [] p Hp. auto. Qed.
#[export] Hint Resolve entryFound_there : safe.

(** Facts about allocated objects survive a step. *)
Lemma outElems_ext d d' l : ext d d' -> Forall (outElemOk d) l -> Forall (outElemOk d') l.
Proof. intros He H. eapply Forall_impl; [exact H|]. intros e. by apply outElemOk_ext. Qed.
Lemma inElems_ext d d' b l : ext d d' -> Forall (inElemOk d b) l -> Forall (inElemOk d' b) l.
Proof. intros He H. eapply Forall_impl; [exact H|]. intros e. by apply inElemOk_ext. Qed.

Ltac transport Hext :=
  repeat match goal with
  | H : Forall (outElemOk (dev _)) _ |- _ => apply (outElems_ext _ _ _ Hext) in H
  | H : Forall (inElemOk (dev _) _) _ |- _ => apply (inElems_ext _ _ _ _ Hext) in H
  | H : hasPeer (dev _) _ |- _ => apply (ext_peers _ _ Hext) in H
  | H : hasKp (dev _) _ |- _ => apply (ext_kps _ _ Hext) in H
  | H : hasSlots (dev _) _ |- _ => apply (ext_slots _ _ _ Hext) in H
  | H : entryFound _ _ |- _ => apply (fun H => entryFound_ext _ _ _ H Hext) in H
  | H : peerThere _ _ |- _ => apply (fun H => peerThere_ext _ _ _ H Hext) in H
  | H : d_state (dev _) <> _ |- _ => rewrite <- (ext_state _ _ Hext) in H
  end.

Lemma hasSlots_intro d ks : (forall k, current ks = Some k -> hasKp d k) ->
  (forall k, previous ks = Some k -> hasKp d k) -> (forall k, next ks = Some k -> hasKp d k) -> hasSlots d ks.
Proof.
  intros H1 H2 H3 k. unfold slots. rewrite list_elem_of_omap. intros (o & Ho & Ek).
  apply elem_of_cons in Ho as [->|Ho]; [auto|]. apply elem_of_cons in Ho as [->|Ho]; [auto|].
  apply list_elem_of_singleton in Ho as ->. auto.
Qed.

(** Slots are moved, emptied or given a keypair that exists. *)
Ltac sslots :=
  eapply safe_modSlots with (Q := fun _ _ => True);
  [eassumption|eauto with safe
  |intros ? ?; split_and!; [apply hasSlots_intro; cbn; intros; subst; simplify_eq; eauto with safe|done|done]
  |done].

(** A field the invariant ignores. *)
Ltac sfield :=
  eapply safe_modD with (Q := fun _ _ => True);
  [eassumption|by split|eapply wf_similar; [eassumption|by split|reflexivity..]|done].

Ltac sprim :=
  lazymatch goal with
  | |- safe _ _ (modD _) _ _ => sfield
  | |- safe _ _ (modTimers _ _) _ _ => unfold modTimers; sprim
  | |- safe _ _ (modHs _ _) _ _ => unfold modHs; sprim
  | |- safe _ _ (setHs _ _) _ _ => unfold setHs; sprim
  | |- safe _ _ (modEndpoint _ _) _ _ => unfold modEndpoint; sprim
  | |- safe _ _ (modPeer _ _) _ _ =>
      first [eapply safe_modPeer with (Q := fun _ _ => True);
             [eassumption|eauto with safe|by intros; split_and!|done]
            |sslots]
  | |- safe _ _ (modKp _ _) _ _ => eapply safe_modKp with (Q := fun _ _ => True); [eassumption|eauto with safe|by intros [] ?; unfold nonceOk in *; cbn in *|done]
  | |- safe _ _ (indexDelete _) _ _ => eapply safe_indexDelete with (Q := fun _ _ => True); [eassumption|done]
  | |- safe _ _ randRead _ _ => eapply safe_randRead with (Q := fun _ _ => True); [eassumption|done]
  | |- safe _ _ (fastrandn _) _ _ => eapply safe_fastrandn with (Q := fun _ _ => True); [eassumption|done]
  | |- safe _ _ (netSend _ _) _ _ => eapply safe_netSend with (Q := fun _ _ => True); [eassumption|done]
  | |- safe _ _ (tunWrite _) _ _ => eapply safe_tunWrite with (Q := fun _ _ => True); [eassumption|done]
  | |- safe _ _ bindCall _ _ => eapply safe_bindCall with (Q := fun _ _ => True); [eassumption|done]
  | |- safe _ _ (bindOpen _) _ _ => eapply safe_bindOpen with (Q := fun _ _ => True); [eassumption|done]
  | |- safe _ _ (unknownPacket _) _ _ => eapply safe_unknownPacket with (Q := fun _ _ => True); [eassumption|done]
  | |- safe _ _ (SwapIndexForKeypair _ _) _ _ =>
      eapply safe_SwapIndex with (Q := fun _ _ => True); [eassumption|eauto with safe|done]
  | |- safe _ _ (NewIndexForHandshake _ _) _ _ =>
      eapply safe_NewIndex with (Q := fun _ _ => True); [eassumption|eauto with safe|done]
  | |- safe _ _ (newKeypair _) _ _ =>
      eapply safe_newKeypair with (Q := fun k w' => hasKp (dev w') k); [eassumption|by unfold nonceOk; cbn|done]
  | |- _ => solve [eauto with safe]
  end.

Ltac snext :=
  let a := fresh "a" in let w' := fresh "w" in let Hw := fresh "Hwf" in
  let He := fresh "Hext" in let Hq := fresh "Hq" in
  intros a w' Hw He Hq; cbv beta in Hq; transport He; clear He.

Ltac sstep :=
  lazymatch goal with
  | |- safe ?ho ?hi (let x := ?t in @?b x) ?w ?Q =>
      let h := fresh "h" in let E := fresh "Eh" in
      refine (safe_let ho hi t b w Q _); intros h E
  | |- safe _ _ (bind getD _) _ _ => apply bind_getD
  | |- safe _ _ (bind getNow _) _ _ => apply bind_getNow
  | |- safe _ _ (bind (ret _) _) _ _ => apply bind_ret
  | |- safe _ _ (bind (getPeer _) _) _ _ =>
      let x := fresh "x" in let Hx := fresh "Hx" in let Hs := fresh "Hs" in
      eapply bind_getPeer; [eassumption|eauto with safe|intros x ? Hx Hs]
  | |- safe _ _ (bind (getKp _) _) _ _ =>
      let x := fresh "kp" in let Hx := fresh "Hkp" in
      eapply bind_getKp; [eauto with safe|intros x Hx]
  | |- safe _ _ (bind (match ?x with _ => _ end) _) _ _ => destruct x eqn:?
  | |- safe _ _ (bind (bind _ _) _) _ _ =>
      eapply (safe_bind _ _ _ _ _ _ _ (fun _ _ => True)); [ssteps|snext]
  | |- safe _ _ (bind (when _ _) _) _ _ =>
      eapply (safe_bind _ _ _ _ _ _ _ (fun _ _ => True)); [ssteps|snext]
  | |- safe _ _ (bind _ _) _ _ => eapply safe_bind; [sprim|snext]
  | |- safe _ _ (ret _) _ _ => apply safe_ret; [eassumption|try solve [done|eauto with safe]]
  | |- safe _ _ (match ?x with _ => _ end) _ _ => destruct x eqn:?
  | |- safe _ _ (when _ _) _ _ => apply safe_when; [eassumption|intros ?|try solve [done|eauto with safe]]
  | |- safe _ _ _ _ _ => sprim
  end; cbv beta
with ssteps := repeat sstep.

Abbreviation okRun ho hi m w := (safe ho hi m w (fun _ _ => True)).

(** ** Timers *)

Section Safety.
Context `{C : Crypto}.
Context (ho hi : helds).


Lemma ok_timersActive p w : wf ho hi (dev w) -> hasPeer (dev w) p -> okRun ho hi (timersActive p) w.
Proof. intros. unfold timersActive. ssteps. Qed.
#[local] Hint Resolve ok_timersActive : safe.

Lemma ok_timersDataSent p w : wf ho hi (dev w) -> hasPeer (dev w) p -> okRun ho hi (timersDataSent p) w.
Proof. intros. unfold timersDataSent. ssteps. Qed.
Lemma ok_timersDataReceived p w : wf ho hi (dev w) -> hasPeer (dev w) p -> okRun ho hi (timersDataReceived p) w.
Proof. intros. unfold timersDataReceived. ssteps. Qed.
Lemma ok_timersPacketSent p w :
  wf ho hi (dev w) -> hasPeer (dev w) p -> okRun ho hi (timersAnyAuthenticatedPacketSent p) w.
Proof. intros. unfold timersAnyAuthenticatedPacketSent. ssteps. Qed.
Lemma ok_timersPacketReceived p w :
  wf ho hi (dev w) -> hasPeer (dev w) p -> okRun ho hi (timersAnyAuthenticatedPacketReceived p) w.
Proof. intros. unfold timersAnyAuthenticatedPacketReceived. ssteps. Qed.
Lemma ok_timersInitiated p w : wf ho hi (dev w) -> hasPeer (dev w) p -> okRun ho hi (timersHandshakeInitiated p) w.
Proof. intros. unfold timersHandshakeInitiated. ssteps. Qed.
Lemma ok_timersComplete p w : wf ho hi (dev w) -> hasPeer (dev w) p -> okRun ho hi (timersHandshakeComplete p) w.
Proof. intros. unfold timersHandshakeComplete. ssteps. Qed.
Lemma ok_timersSessionDerived p w : wf ho hi (dev w) -> hasPeer (dev w) p -> okRun ho hi (timersSessionDerived p) w.
Proof. intros. unfold timersSessionDerived. ssteps. Qed.
Lemma ok_timersTraversal p w :
  wf ho hi (dev w) -> hasPeer (dev w) p -> okRun ho hi (timersAnyAuthenticatedPacketTraversal p) w.
Proof. intros. unfold timersAnyAuthenticatedPacketTraversal. ssteps. Qed.
#[local] Hint Resolve ok_timersDataSent ok_timersDataReceived ok_timersPacketSent ok_timersPacketReceived
  ok_timersInitiated ok_timersComplete ok_timersSessionDerived ok_timersTraversal : safe.

Lemma ok_timersStart p w : wf ho hi (dev w) -> hasPeer (dev w) p -> okRun ho hi (timersStart p) w.
Proof. intros. unfold timersStart. ssteps. Qed.
Lemma ok_timersStop p w : wf ho hi (dev w) -> hasPeer (dev w) p -> okRun ho hi (timersStop p) w.
Proof. intros. unfold timersStop. ssteps. Qed.
#[local] Hint Resolve ok_timersStart ok_timersStop : safe.

(** ** Handshake messages and sessions *)

Lemma ok_DeleteKeypair o w : wf ho hi (dev w) -> (forall k, o = Some k -> hasKp (dev w) k) ->
  okRun ho hi (DeleteKeypair o) w.
Proof. intros. unfold DeleteKeypair. ssteps. Qed.
Lemma ok_DeleteCurrent ks w : wf ho hi (dev w) -> hasSlots (dev w) ks -> okRun ho hi (DeleteKeypair (current ks)) w.
Proof. intros. apply ok_DeleteKeypair; eauto with safe. Qed.
Lemma ok_DeletePrevious ks w : wf ho hi (dev w) -> hasSlots (dev w) ks -> okRun ho hi (DeleteKeypair (previous ks)) w.
Proof. intros. apply ok_DeleteKeypair; eauto with safe. Qed.
Lemma ok_DeleteNext ks w : wf ho hi (dev w) -> hasSlots (dev w) ks -> okRun ho hi (DeleteKeypair (next ks)) w.
Proof. intros. apply ok_DeleteKeypair; eauto with safe. Qed.
#[local] Hint Resolve ok_DeleteCurrent ok_DeletePrevious ok_DeleteNext : safe.

Lemma ok_CreateMessageInitiation p w : wf ho hi (dev w) -> hasPeer (dev w) p ->
  okRun ho hi (CreateMessageInitiation p) w.
Proof. intros. unfold CreateMessageInitiation. ssteps. Qed.

Lemma ok_CreateMessageResponse p w : wf ho hi (dev w) -> hasPeer (dev w) p ->
  okRun ho hi (CreateMessageResponse p) w.
Proof. intros. unfold CreateMessageResponse. ssteps. Qed.

(** The peers of what was checked are there. *)
Definition checkedIThere (v : option checkedInitiation) (w : World) : Prop := forall v', v = Some v' -> hasPeer (dev w) (ci_peer v').
Definition checkedRThere (v : option checkedResponse) (w : World) : Prop := forall v', v = Some v' ->
  hasPeer (dev w) (cr_handshake v') /\ peerThere (cr_peer v') w.
Lemma checkedIThere_some v w : hasPeer (dev w) (ci_peer v) -> checkedIThere (Some v) w.
Proof. by intros ? ? [= <-]. Qed.
Lemma checkedRThere_some p q h ck msg w : hasPeer (dev w) p -> peerThere q w -> checkedRThere (Some (mkCheckedR p q h ck msg)) w.
Proof. by intros ? ? ? [= <-]. Qed.
Lemma checkedThere_none w : checkedIThere None w /\ checkedRThere None w.
Proof. done. Qed.
#[local] Hint Resolve checkedIThere_some checkedRThere_some : safe.
#[local] Hint Extern 0 (checkedIThere None _) => done : safe.
#[local] Hint Extern 0 (checkedRThere None _) => done : safe.

Lemma ok_checkInitiation msg w : wf ho hi (dev w) -> safe ho hi (checkInitiation msg) w checkedIThere.
Proof. intros. unfold checkInitiation. ssteps. Qed.

Lemma ok_checkResponse msg w : wf ho hi (dev w) -> safe ho hi (checkResponse msg) w checkedRThere.
Proof. intros. unfold checkResponse. ssteps. Qed.

Lemma ok_recordInitiation v w : wf ho hi (dev w) -> hasPeer (dev w) (ci_peer v) -> okRun ho hi (recordInitiation v) w.
Proof. intros. unfold recordInitiation. ssteps. Qed.

Lemma ok_recordResponse v w : wf ho hi (dev w) -> hasPeer (dev w) (cr_handshake v) -> okRun ho hi (recordResponse v) w.
Proof. intros. unfold recordResponse. ssteps. Qed.

Lemma ok_BeginSymmetricSession p w : wf ho hi (dev w) -> hasPeer (dev w) p ->
  okRun ho hi (BeginSymmetricSession p) w.
Proof. intros. unfold BeginSymmetricSession. repeat (sstep; subst). Qed.

Lemma ok_ReceivedWithKeypair p k w : wf ho hi (dev w) -> hasPeer (dev w) p ->
  okRun ho hi (ReceivedWithKeypair p k) w.
Proof. intros. unfold ReceivedWithKeypair. repeat (sstep; subst). Qed.
#[local] Hint Resolve ok_CreateMessageInitiation ok_CreateMessageResponse ok_recordInitiation
  ok_recordResponse ok_BeginSymmetricSession ok_ReceivedWithKeypair : safe.

(** ** Sending *)

Lemma marshalInitiation_long msg e b :
  marshalInitiation msg (zeros MessageInitiationSize) = (e, b) -> (32 <= length b)%nat.
Proof.
  unfold marshalInitiation, putU32. rewrite decide_False by (intros H; by apply H).
  intros [= _ <-]. rewrite !length_copy. cbn. lia.
Qed.
Lemma marshalResponse_long msg e b :
  marshalResponse msg (zeros MessageResponseSize) = (e, b) -> (32 <= length b)%nat.
Proof.
  unfold marshalResponse, putU32. rewrite decide_False by (intros H; by apply H).
  intros [= _ <-]. rewrite !length_copy. cbn. lia.
Qed.
#[local] Hint Resolve marshalInitiation_long marshalResponse_long : safe.

Lemma ok_addMacs p packet w : wf ho hi (dev w) -> hasPeer (dev w) p -> (32 <= length packet)%nat ->
  okRun ho hi (addMacs p packet) w.
Proof.
  intros ? ? Hl. unfold addMacs. ssteps. exfalso. unfold AddMacs in *.
  destruct (macParts_split packet Hl) as (? & ? & ? & _ & _ & _ & E). rewrite E in *. cbn in *.
  by case_match.
Qed.

Lemma ok_SendBuffers p bs w : wf ho hi (dev w) -> hasPeer (dev w) p -> okRun ho hi (SendBuffers p bs) w.
Proof. intros. unfold SendBuffers. ssteps. Qed.
#[local] Hint Resolve ok_addMacs ok_SendBuffers : safe.

Lemma ok_SetEndpointFromPacket p e w : wf ho hi (dev w) -> hasPeer (dev w) p ->
  okRun ho hi (SetEndpointFromPacket p e) w.
Proof. intros. unfold SetEndpointFromPacket. ssteps. Qed.
Lemma ok_markEndpoint p w : wf ho hi (dev w) -> hasPeer (dev w) p ->
  okRun ho hi (markEndpointSrcForClearing p) w.
Proof. intros. unfold markEndpointSrcForClearing. ssteps. Qed.
Lemma ok_StagePackets p es w : wf ho hi (dev w) -> hasPeer (dev w) p -> okRun ho hi (StagePackets p es) w.
Proof. intros. unfold StagePackets. ssteps. Qed.
Lemma ok_FlushStagedPackets p w : wf ho hi (dev w) -> hasPeer (dev w) p -> okRun ho hi (FlushStagedPackets p) w.
Proof. intros. unfold FlushStagedPackets. ssteps. Qed.
#[local] Hint Resolve ok_SetEndpointFromPacket ok_markEndpoint ok_StagePackets ok_FlushStagedPackets : safe.

Lemma ok_SendHandshakeInitiation p b w : wf ho hi (dev w) -> hasPeer (dev w) p ->
  okRun ho hi (SendHandshakeInitiation p b) w.
Proof. intros. unfold SendHandshakeInitiation. ssteps. Qed.

Lemma ok_SendHandshakeResponse p w : wf ho hi (dev w) -> hasPeer (dev w) p ->
  okRun ho hi (SendHandshakeResponse p) w.
Proof. intros. unfold SendHandshakeResponse. ssteps. Qed.
#[local] Hint Resolve ok_SendHandshakeInitiation ok_SendHandshakeResponse : safe.

Lemma ok_SendHandshakeCookie e w : wf ho hi (dev w) -> hsElemOk e -> okRun ho hi (SendHandshakeCookie e) w.
Proof.
  intros ? [_ Hl]. unfold SendHandshakeCookie. ssteps; exfalso; unfold CreateReply in *.
  all: destruct (macParts_split _ Hl) as (? & ? & ? & _ & _ & _ & E); rewrite E in *; cbn in *.
  all: repeat case_match; simplify_eq.
Qed.

Lemma ok_keepKeyFreshSending p w : wf ho hi (dev w) -> hasPeer (dev w) p ->
  okRun ho hi (keepKeyFreshSending p) w.
Proof. intros. unfold keepKeyFreshSending. ssteps. Qed.
#[local] Hint Resolve ok_keepKeyFreshSending : safe.

(** Elements get nonces; if some came too late, the key is used up. *)
Lemma safe_assignNonces p k es w : wf ho hi (dev w) -> hasKp (dev w) k ->
  safe ho hi (assignNonces p k es) w (fun r w' => Forall (outElemOk (dev w')) r.1 /\
    d_peers (dev w') = d_peers (dev w) /\
    (r.2 <> [] -> exists kp, d_keypairs (dev w') !! k = Some kp /\ sendNonce kp = RejectAfterMessages)).
Proof.
  intros H [kp Hk]. pose proof (wf_nonces _ _ _ H _ _ Hk) as Hn.
  destruct (runs_exists _ _ _ (assignNonces_runs p k es w kp Hk Hn)) as (r & w' & E & -> & ->).
  set (n := sendNonce kp) in *. set (m := room n (length es)).
  assert (nonceOk (kp <| sendNonce := n + Z.of_nat m |>)) as Hn'.
  { unfold nonceOk in *. cbn. fold n in Hn. unfold m, room. lia. }
  pose proof (safe_modKp ho hi k (fun kp => kp <| sendNonce := n + Z.of_nat m |>) w (fun _ _ => True) H
    ltac:(by exists kp) ltac:(intros y Hy; exact Hn') ltac:(done)) as Hs.
  unfold safe, runs, modKp in Hs. rewrite Hk in Hs. destruct Hs as (Hwf & Hext & _).
  unfold safe, runs. rewrite E. split; [exact Hwf|]. split; [exact Hext|]. cbn [fst snd].
  split_and!; [|done|].
  - unfold keptOf. apply Forall_lookup. intros i e. rewrite list_lookup_imap, fmap_Some.
    intros (e0 & _ & ->). exists k. split; [done|]. apply (ext_kps _ _ Hext). by exists kp.
  - intros Hl. eexists. split; [apply lookup_insert_eq|]. cbn. unfold lateOf in Hl. fold m in Hl.
    assert (m < length es)%nat as Hm.
    { destruct (decide (m < length es)%nat); [done|]. rewrite drop_ge in Hl by lia. done. }
    unfold m, room, nonceOk in *. fold n in Hn. lia.
Qed.

(** The three situations of the loop, and the turns that are enough. *)
Inductive loopState (x : Peer) (d : Device) : nat -> bool -> option kp_id -> Prop :=
  | LoopTop f : (2 * length (staged x) + 2 <= f)%nat -> loopState x d f true None
  | LoopUsedUp f k kp : (1 <= f)%nat -> current (keypairs x) = Some k -> d_keypairs d !! k = Some kp ->
      sendNonce kp = RejectAfterMessages -> loopState x d f true None
  | LoopIn f k : (2 * length (staged x) + 1 <= f)%nat -> current (keypairs x) = Some k ->
      loopState x d f false (Some k).

Lemma ok_SendStagedLoop f top k0 p x w : wf ho hi (dev w) -> d_peers (dev w) !! p = Some x ->
  loopState x (dev w) f top k0 -> okRun ho hi (SendStagedLoop f top k0 p) w.
Proof.
  revert top k0 x w. induction f as [|f IH]; intros top k0 x w H Hx Hl; [inversion Hl; lia|].
  assert (hasPeer (dev w) p) as Hp by by eexists.
  cbn [SendStagedLoop]. destruct top.
  - do 2 sstep. replace x0 with x in * by congruence. sstep; [ssteps|]. sstep; [|ssteps].
    sstep. sstep. sstep; [ssteps|]. eapply IH; [done|exact Hx|]. inversion Hl; subst.
    + constructor; [lia|done].
    + exfalso. simplify_eq.
      match goal with E : sendNonce _ = _ |- _ => rewrite E in * end.
      by apply orb_false_iff in Heqb0 as [? _].
  - sstep. replace x0 with x in * by congruence. inversion Hl as [| |? k Hf Hc]; subst.
    destruct (staged x) as [|es rest] eqn:Est; [ssteps|].
    assert (hasKp (dev w) k) as Hk by eauto with safe.
    set (f1 := fun x => x <| staged := rest |>).
    eapply safe_bind; [by eapply (safe_modPeer_at ho hi p f1)|]. snext. destruct Hq as [Hx1 _].
    eapply safe_bind; [by apply safe_assignNonces|]. snext. destruct a0 as [kept ooo]. cbn [fst snd] in Hq.
    destruct Hq as (Hkept & Ep & Hlate). rewrite <- Ep in Hx1.
    destruct ooo as [|o ooo].
    + cbn [when]. sstep. destruct kept as [|e kept].
      { eapply IH; [done|exact Hx1|]. constructor. cbn [staged f1 length] in *. unfold f1. cbn. lia. }
      sstep. replace x1 with (f1 x) in * by congruence. 
      eapply (safe_bind _ _ _ _ _ _ _ (fun _ w' => exists x', d_peers (dev w') !! p = Some x' /\
        staged x' = rest /\ keypairs x' = keypairs x)).
      { apply safe_when; [done| |intros _; by exists (f1 x)]. intros _.
        eapply safe_queueOut; [done|exact Hx1|done|]. intros w' x' Hx' Es Ek _. by exists x'. }
      snext. destruct Hq as (x' & Hx' & Es & Ek). eapply IH; [done|exact Hx'|].
      constructor; [rewrite Es; cbn [length] in Hf; lia|by rewrite Ek].
    + cbn [when]. destruct (Hlate ltac:(done)) as (kp & Hkp & Hused).
      eapply safe_bind; [by eapply (safe_modPeer_at ho hi p); [|exact Hx1|]|]. snext. destruct Hq as [Hx2 Ekp].
      rewrite <- Ekp in Hkp.
      assert (forall x' w', wf ho hi (dev w') -> d_peers (dev w') !! p = Some x' -> keypairs x' = keypairs x ->
        d_keypairs (dev w') !! k = Some kp -> okRun ho hi (SendStagedLoop f true None p) w') as Hend.
      { intros x' w' Hw' Hx' Ek Hkp'. eapply IH; [done|exact Hx'|].
        eapply (LoopUsedUp _ _ _ k kp); [cbn in Hf; lia|by rewrite Ek|done|done]. }
      destruct kept as [|e kept]; [by eapply Hend|].
      sstep. match goal with H : d_peers (dev ?w) !! p = Some x1 |- safe _ _ _ ?w _ => rewrite Hx2 in H; injection H as <- end.
      eapply (safe_bind _ _ _ _ _ _ _ (fun _ w' => exists x', d_peers (dev w') !! p = Some x' /\
        keypairs x' = keypairs x /\ d_keypairs (dev w') !! k = Some kp)).
      { apply safe_when; [done| |intros _; by eexists]. intros _.
        eapply safe_queueOut; [done|exact Hx2|done|]. intros w' x' Hx' _ Ek Ekps. exists x'. by rewrite Ekps. }
      snext. destruct Hq as (x' & Hx' & Ek & Hkp'). by eapply Hend.
Qed.

Lemma ok_SendStagedPackets p w : wf ho hi (dev w) -> hasPeer (dev w) p -> okRun ho hi (SendStagedPackets p) w.
Proof.
  intros. unfold SendStagedPackets. sstep. eapply ok_SendStagedLoop; [done..|]. constructor. lia.
Qed.
#[local] Hint Resolve ok_SendStagedPackets : safe.

Lemma ok_SendKeepalive p w : wf ho hi (dev w) -> hasPeer (dev w) p -> okRun ho hi (SendKeepalive p) w.
Proof. intros. unfold SendKeepalive. ssteps. Qed.
#[local] Hint Resolve ok_SendKeepalive : safe.

(** ** Loops *)

Lemma ok_forEach {A} (f : A -> M unit) l w : wf ho hi (dev w) ->
  (forall x w', x ∈ l -> wf ho hi (dev w') -> ext (dev w) (dev w') -> okRun ho hi (f x) w') ->
  okRun ho hi (forEach l f) w.
Proof.
  revert w. induction l as [|x l IH]; intros w H Hf; cbn [forEach]; [by apply safe_ret|].
  eapply safe_bind; [apply Hf; [by left|done|apply ext_refl]|]. intros _ w' H' He _.
  apply IH; [done|]. intros y w'' Hy H'' He'. apply Hf; [by right|done|by eapply ext_trans].
Qed.

(** Peers under some key, gathered in a list. *)
Definition allThere {K E} (l : list (K * E)) (f : K * E -> option peer_id) (d : Device) : Prop :=
  forall x, x ∈ l -> exists p, f x = Some p /\ hasPeer d p.

Lemma ok_rangeOrder {A} (l : list A) w : wf ho hi (dev w) ->
  safe ho hi (rangeOrder l) w (fun l' w' => dev w' = dev w /\ forall x, x ∈ l' -> x ∈ l).
Proof. intros H. by apply safe_rangeOrder. Qed.

(** ** Reading from the TUN device *)

Lemma ok_Lookup ip w : wf ho hi (dev w) -> address ip -> safe ho hi (onRoutes (Lookup ip)) w peerThere.
Proof.
  intros H Hip. destruct (wf_routes _ _ _ H) as (r & Hr & Hp).
  destruct (runs_exists _ _ _ (Lookup_represents _ _ ip Hr Hip)) as (a & t & E & -> & ->).
  unfold safe, runs, onRoutes. rewrite E.
  assert (w <| dev ::= fun d => d <| d_allowedips := d_allowedips (dev w) |> |> = w) as ->
    by by destruct w as [[] ? ? ? ? ? ? ? ?].
  split; [done|]. split; [apply ext_refl|]. intros p Ep.
  pose proof (specLookup_none_some r ip Hip) as Hs. rewrite Ep in Hs. destruct Hs as (i & _ & Hi & _). eauto.
Qed.

Lemma slice_address lo n packet : all_bytes packet -> (lo + n <= length packet)%nat ->
  n = IPv4len \/ n = IPv6len -> address (slice lo (lo + n) packet).
Proof.
  intros Hb Hl Hn. split; [|by apply slice_bytes]. rewrite length_slice by done.
  destruct Hn as [-> | ->]; [left|right]; lia.
Qed.

Lemma ok_routePacket packet w : wf ho hi (dev w) -> all_bytes packet ->
  safe ho hi (routePacket packet) w peerThere.
Proof.
  intros H Hb. unfold routePacket. destruct packet as [|b packet]; [ssteps|]. ssteps; apply ok_Lookup; try done;
    (apply slice_address; [done| |auto]);
    match goal with H : (_ <? _)%nat = false |- _ => apply Nat.ltb_ge in H; revert H end;
    unfold IPv4HeaderLen, IPv6HeaderLen, IPv4offsetDst, IPv4offsetSrc, IPv6offsetDst, IPv6offsetSrc, IPv4len, IPv6len;
    cbn [length]; lia.
Qed.
#[local] Hint Resolve ok_routePacket : safe.

Lemma addFor_in {K E} `{EqDecision K} (p : K) (e : E) m x : x ∈ addFor p e m ->
  (x.1 = p \/ exists y, y ∈ m /\ y.1 = x.1) /\ forall e', e' ∈ x.2 -> e' = e \/ exists y, y ∈ m /\ y.1 = x.1 /\ e' ∈ y.2.
Proof.
  induction m as [|[q es] m IH]; cbn [addFor].
  - intros ->%list_elem_of_singleton. cbn. split; [by left|]. intros e' ->%list_elem_of_singleton. by left.
  - destruct (decide (p = q)) as [<-|Hne].
    + intros [->|Hin]%elem_of_cons; cbn.
      * split; [by left|]. intros e'. rewrite elem_of_app, list_elem_of_singleton. intros [Hin| ->]; [|by left].
        right. exists (p, es). split_and!; [by left|done|done].
      * split; [right; exists x; split; [by right|done]|]. intros e' He. right. exists x. split_and!; [by right|done|done].
    + intros [->|Hin]%elem_of_cons; cbn.
      * split; [right; exists (q, es); split; [by left|done]|]. intros e' He. right. exists (q, es). split_and!; [by left|done|done].
      * destruct (IH Hin) as [H1 H2]. split.
        -- destruct H1 as [?|(y & ? & ?)]; [by left|]. right. exists y. split; [by right|done].
        -- intros e' He. destruct (H2 e' He) as [?|(y & ? & ? & ?)]; [by left|]. right. exists y. split_and!; [by right|done|done].
Qed.

(** Every key is an existing peer. *)
Definition keysThere {E} (m : list (peer_id * E)) (w : World) : Prop := forall x, x ∈ m -> hasPeer (dev w) x.1.

Lemma keysThere_addFor {E} p (e : E) m w : hasPeer (dev w) p -> keysThere m w -> keysThere (addFor p e m) w.
Proof. intros Hp Hm x Hx. destruct (addFor_in _ _ _ _ Hx) as [[->|(y & Hy & <-)] _]; auto. Qed.

Lemma ok_gatherTUN pkts m w : wf ho hi (dev w) -> Forall (Forall is_byte) pkts -> keysThere m w ->
  safe ho hi (gatherTUN pkts m) w keysThere.
Proof.
  intros H Hb. revert m w H. induction Hb as [|packet pkts Hp Hb IH]; intros m w H Hm; cbn [gatherTUN].
  - by apply safe_ret.
  - eapply safe_bind; [by apply ok_routePacket|]. intros a w' H' He Ha. apply IH; [done|].
    assert (keysThere m w') as Hm' by (intros x Hx; by apply (ext_peers _ _ He), Hm).
    destruct a as [p|]; [|done]. apply keysThere_addFor; [by apply Ha|done].
Qed.

Lemma ok_readFromTUN pkts w : wf ho hi (dev w) -> Forall (Forall is_byte) pkts ->
  okRun ho hi (readFromTUN pkts) w.
Proof.
  intros H Hb. unfold readFromTUN. eapply safe_bind; [apply ok_gatherTUN; [done|done|by intros x ?%elem_of_nil]|].
  intros m w1 H1 _ Hm. eapply safe_bind; [by apply ok_rangeOrder|]. intros m' w2 H2 He [E2 Hin].
  apply ok_forEach; [done|]. intros [p es] w' Hx Hw' He'.
  assert (hasPeer (dev w') p) as Hp by (apply (ext_peers _ _ He'), (ext_peers _ _ He), (Hm (p, es)), Hin, Hx).
  ssteps.
Qed.
End Safety.

#[export] Hint Resolve ok_timersActive ok_timersDataSent ok_timersDataReceived ok_timersPacketSent
  ok_timersPacketReceived ok_timersInitiated ok_timersComplete ok_timersSessionDerived
  ok_timersTraversal ok_timersStart ok_timersStop ok_DeleteCurrent
  ok_DeletePrevious ok_DeleteNext ok_CreateMessageInitiation ok_CreateMessageResponse
  ok_recordInitiation ok_recordResponse ok_BeginSymmetricSession ok_ReceivedWithKeypair
  ok_addMacs ok_SendBuffers ok_SetEndpointFromPacket ok_markEndpoint
  ok_StagePackets ok_FlushStagedPackets ok_SendHandshakeInitiation ok_SendHandshakeResponse
  ok_SendHandshakeCookie ok_keepKeyFreshSending ok_SendStagedPackets ok_SendKeepalive
  ok_routePacket ok_readFromTUN : safe.

(** ** Transmission, and the wiping of keys *)

Section Flows.
Context `{C : Crypto}.

Lemma ok_sequentialSend ho hi p c w : wf ((c, true) :: ho) hi (dev w) -> hasPeer (dev w) p ->
  okRun ho hi (sequentialSend p c) w.
Proof.
  intros H Hp. unfold sequentialSend.
  eapply (safe_bind ((c, true) :: ho) hi _ _ _ _ _ (fun _ _ => True));
    [eapply safe_getOut with (b := true); [done|by left|done]|]. snext.
  sstep. sstep; [apply safe_dropOut; done|].
  do 4 sstep.
  eapply safe_bind; [apply safe_dropOut with (Q := fun _ _ => True); done|snext]. ssteps.
Qed.

Lemma ok_ZeroAndFlushAll ho hi p w : wf ho hi (dev w) -> hasPeer (dev w) p ->
  okRun ho hi (ZeroAndFlushAll p) w.
Proof. intros. unfold ZeroAndFlushAll. ssteps. Qed.

Lemma ok_ExpireCurrentKeypairs ho hi p w : wf ho hi (dev w) -> hasPeer (dev w) p ->
  okRun ho hi (ExpireCurrentKeypairs p) w.
Proof. intros. unfold ExpireCurrentKeypairs. ssteps. Qed.

#[local] Hint Resolve ok_ZeroAndFlushAll ok_ExpireCurrentKeypairs : safe.

Lemma ok_fireTimer ho hi n p w : wf ho hi (dev w) -> hasPeer (dev w) p -> okRun ho hi (fireTimer n p) w.
Proof.
  intros. unfold fireTimer. sstep. sstep; [ssteps|]. sstep. destruct n;
    unfold expiredRetransmitHandshake, expiredSendKeepalive, expiredNewHandshake, expiredZeroKeyMaterial,
      expiredPersistentKeepalive; ssteps.
Qed.

(** ** Receiving *)

Lemma ok_queueHandshake ho hi e w : wf ho hi (dev w) -> hsElemOk e -> okRun ho hi (queueHandshake e) w.
Proof.
  intros H He. unfold queueHandshake. apply safe_modD; [done| | |done].
  - destruct (_ <? _)%nat; [by split|apply ext_refl].
  - destruct (_ <? _)%nat; [|done].
    assert (ext (dev w) (dev w <| d_handshakes ::= fun q => q ++ [e] |>)) as Hext by by split.
    wfcarry H. cbn. apply Forall_app. split; [done|]. by apply Forall_singleton.
Qed.

(** What a batch has gathered. *)
Definition batchOk (m : inBatch) (w : World) : Prop := forall x, x ∈ m ->
  (exists p, x.1 = Some p /\ hasPeer (dev w) p) /\ forall e, e ∈ x.2 -> inElemOk (dev w) true e.

Lemma batchOk_ext m w w' : ext (dev w) (dev w') -> batchOk m w -> batchOk m w'.
Proof.
  intros He Hm x Hx. destruct (Hm x Hx) as [(p & Ep & Hp) Hes]. split.
  - exists p. split; [done|]. by apply (ext_peers _ _ He).
  - intros e Hin. eapply inElemOk_ext; eauto.
Qed.

Lemma batchOk_add p e m w : hasPeer (dev w) p -> inElemOk (dev w) true e -> batchOk m w ->
  batchOk (addFor (Some p) e m) w.
Proof.
  intros Hp He Hm x Hx. destruct (addFor_in _ _ _ _ Hx) as [Hk Hes]. split.
  - destruct Hk as [->|(y & Hy & <-)]; [by exists p|]. by apply Hm.
  - intros e' Hin. destruct (Hes e' Hin) as [->|(y & Hy & _ & Hin')]; [done|]. by apply (Hm y).
Qed.

Lemma ok_dispatchPacket ho hi packet from m w : wf ho hi (dev w) -> all_bytes packet -> batchOk m w ->
  safe ho hi (dispatchPacket packet from m) w batchOk.
Proof.
  intros H Hb Hm. unfold dispatchPacket. sstep; [by apply safe_ret|].
  match goal with Hl : (_ <? _)%nat = false |- _ => apply Nat.ltb_ge in Hl;
    unfold MinMessageSize, MessageKeepaliveSize, MessageTransportSize, MessageTransportHeaderSize, TagSize in Hl end.
  assert (forall w' : World, ext (dev w) (dev w') -> batchOk m w') as Hm' by (intros; by eapply batchOk_ext).
  assert (forall t size, safe ho hi (if negb (length packet =? size)%nat then ret m
    else queueHandshake (mkHsElem t packet from);;; ret m) w batchOk) as Hq.
  { intros t size. sstep; [by apply safe_ret|]. eapply safe_bind; [by apply ok_queueHandshake|].
    intros _ w' H' He _. apply safe_ret; auto. }
  sstep.
  - sstep; [by apply safe_ret|]. eapply safe_bind; [by apply safe_indexLookup|].
    intros e w' H' He Hf. cbv beta in Hf. pose proof (ext_trans _ _ _ (ext_refl _) He).
    destruct (it_keypair e) as [k|] eqn:Ek; [|apply safe_ret; auto].
    destruct (ef_keypair _ _ Hf _ Ek) as [Hk [p Ep]].
    sstep. sstep. sstep; [apply safe_ret; auto|]. apply safe_ret; [done|]. rewrite Ep.
    apply batchOk_add; [by apply (ef_peer _ _ Hf)| |auto]. split_and!; [done|done|]. by intros ? [= <-].
  - sstep; [apply Hq|]. sstep; [apply Hq|]. sstep; [apply Hq|].
    eapply safe_bind; [sprim|]. intros _ w' H' He _. apply safe_ret; auto.
Qed.

Definition datagramsOk (pkts : list (bytes * Endpoint)) : Prop := Forall (fun d => all_bytes d.1) pkts.

Lemma ok_dispatchPackets ho hi pkts m w : wf ho hi (dev w) -> datagramsOk pkts -> batchOk m w ->
  safe ho hi (dispatchPackets pkts m) w batchOk.
Proof.
  intros H Hb. revert m w H. induction Hb as [|[packet from] pkts Hp Hb IH]; intros m w H Hm; cbn [dispatchPackets].
  - by apply safe_ret.
  - eapply safe_bind; [by apply ok_dispatchPacket|]. intros m' w' H' He Hm'. by apply IH.
Qed.

Lemma ok_receiveIncoming ho hi pkts w : wf ho hi (dev w) -> datagramsOk pkts ->
  okRun ho hi (receiveIncoming pkts) w.
Proof.
  intros H Hb. unfold receiveIncoming.
  eapply safe_bind; [apply ok_dispatchPackets; [done|done|by intros x ?%elem_of_nil]|].
  intros m w1 H1 _ Hm. eapply safe_bind; [by apply ok_rangeOrder|]. intros m' w2 H2 He [E2 Hin].
  apply ok_forEach; [done|]. intros [o es] w' Hx Hw' He'.
  destruct (batchOk_ext m w1 w' (ext_trans _ _ _ He He') Hm _ (Hin _ Hx)) as [(p & Ep & Hp) Hes].
  cbn [fst snd] in *. subst o. sstep. apply safe_when; [done| |done]. intros _.
  apply safe_queueIn; [done|done| |done]. by apply Forall_forall.
Qed.

(** ** The handshake worker *)

(** A part of a call that panics in the closed limiter: the insertion of its first
    entry. *)
Definition firstInsertion (r : Ratelimiter (Addr := bytes)) (c : call (Addr := bytes)) : bool :=
  match c with
  | Made ip _ => bool_decide (stopReset r = gcClosed /\ size (<[ip := length (entries r)]> (table r)) = 1%nat)
  | _ => false
  end.

Lemma callStep_spec r now ip c : stopReset r <> gcNil ->
  if firstInsertion r c then callStep now ip c r = None
  else exists ans c' r', callStep now ip c r = Some (ans, c', r') /\ stopReset r' <> gcNil /\ (limiterOpen r -> limiterOpen r').
Proof.
  intros Hr. destruct c as [|ip0 p|ip0|ip0 e]; cbn [firstInsertion callStep].
  - by eexists _, _, _.
  - unfold allowPay. cbv zeta. by eexists _, _, _.
  - by eexists _, _, _.
  - unfold allowInsert, limiterOpen. destruct (stopReset r) eqn:Es; [done|..]; rewrite ?bool_decide_false by naive_solver.
    1,2: destruct (decide _); eexists _, _, _; (split; [reflexivity|]); cbn; rewrite ?Es; auto.
    case_bool_decide as Hd; destruct (decide _) as [E|E]; cbn; [done|naive_solver|naive_solver|].
    eexists _, _, _. split; [reflexivity|]. cbn. rewrite ?Es. split; [done|]. intros [|]; done.
Qed.

Lemma ok_IsUnderLoad ho hi w : wf ho hi (dev w) -> okRun ho hi IsUnderLoad w.
Proof. intros. unfold IsUnderLoad. ssteps. Qed.
#[local] Hint Resolve ok_IsUnderLoad : safe.

(** What a worker holds is there. *)
Definition workOk (d : Device) (work : hsWork) : Prop :=
  match work with
  | HsLimiter elem _ | HsConsume elem => True
  | HsRecordInitiation _ v => hasPeer d (ci_peer v)
  | HsRecordResponse _ v => hasPeer d (cr_handshake v) /\ forall p, cr_peer v = Some p -> hasPeer d p
  | HsInitiated _ p | HsResponded _ p => hasPeer d p
  end.
Definition workThere (work : option hsWork) (w : World) : Prop := forall x, work = Some x -> workOk (dev w) x.
Lemma workThere_none w : workThere None w.
Proof. done. Qed.
Lemma workThere_some work w : workOk (dev w) work -> workThere (Some work) w.
Proof. by intros ? ? [= <-]. Qed.
Lemma workOk_peers d d' work : (forall p, hasPeer d p -> hasPeer d' p) -> workOk d work -> workOk d' work.
Proof. intros H. destruct work; cbn; try done; auto. intros []. auto. Qed.
#[local] Hint Resolve workThere_none : safe.
#[local] Hint Extern 1 (workThere (Some _) _) => apply workThere_some; cbn [workOk] : safe.

Lemma ok_admitHandshake ho hi e w : wf ho hi (dev w) -> hsElemOk e -> safe ho hi (admitHandshake e) w workThere.
Proof.
  intros H He. destruct (macParts_split _ (proj2 He)) as (body & m1 & m2 & _ & _ & _ & E).
  unfold admitHandshake, CheckMAC1, CheckMAC2. rewrite E. cbn [mbind option_bind]. ssteps.
  by case_match.
Qed.

Lemma ok_handleCookieReply ho hi e w : wf ho hi (dev w) -> okRun ho hi (handleCookieReply e) w.
Proof. intros. unfold handleCookieReply. ssteps. Qed.

Lemma ok_addRxBytes ho hi p n w : wf ho hi (dev w) -> hasPeer (dev w) p -> okRun ho hi (addRxBytes p n) w.
Proof. intros. unfold addRxBytes. ssteps. Qed.
#[local] Hint Resolve ok_handleCookieReply ok_addRxBytes : safe.

Lemma ok_handleInitiation ho hi e p w : wf ho hi (dev w) -> hasPeer (dev w) p -> okRun ho hi (handleInitiation e p) w.
Proof. intros. unfold handleInitiation. ssteps. Qed.

Lemma ok_handleResponse ho hi e p w : wf ho hi (dev w) -> hasPeer (dev w) p -> okRun ho hi (handleResponse e p) w.
Proof. intros. unfold handleResponse. ssteps. Qed.
#[local] Hint Resolve ok_handleInitiation ok_handleResponse : safe.

Lemma ok_handshakeBegin ho hi e w : wf ho hi (dev w) -> hsElemOk e -> safe ho hi (handshakeBegin e) w workThere.
Proof.
  intros. unfold handshakeBegin. sstep; [|sstep; [by apply ok_admitHandshake|ssteps]].
  eapply safe_bind; [by apply ok_handleCookieReply|]. snext. ssteps.
Qed.

Lemma ok_rateAllow ho hi e c w : wf ho hi (dev w) ->
  if firstInsertion (d_limiter (dev w)) c then rateAllow e c w = None else safe ho hi (rateAllow e c) w workThere.
Proof.
  intros H. pose proof (callStep_spec _ (w_now w) (DstIP (he_endpoint e)) c (wf_ready _ _ _ H)) as Hs.
  destruct (firstInsertion _ _).
  - unfold rateAllow. unfold bind, getD, getNow. cbn. by rewrite Hs.
  - destruct Hs as (ans & c' & r' & E & Hr & Ho). unfold rateAllow. do 2 sstep. rewrite E.
    eapply (safe_bind _ _ _ _ _ _ _ (fun _ _ => True)).
    + apply safe_modD; [done|by split| |done].
      assert (ext (dev w) (dev w <| d_limiter := r' |>)) as Hext by by split. wfcarry H.
      intros Hn. apply Ho. auto.
    + intros _ w' H' _ _. apply safe_ret; [done|]. destruct ans as [[? []]|]; [by apply workThere_some|done|by apply workThere_some].
Qed.

(** Where a worker panics: at the first insertion into the closed limiter. *)
Definition panics (d : Device) (work : hsWork) : bool :=
  match work with HsLimiter _ c => firstInsertion (d_limiter d) c | _ => false end.

Lemma ok_handshakeGoOn ho hi work w : wf ho hi (dev w) -> workOk (dev w) work ->
  if panics (dev w) work then handshakeGoOn work w = None else safe ho hi (handshakeGoOn work) w workThere.
Proof.
  intros H Hw. destruct work as [e c|e|e v|e v|e p|e p]; cbn [panics handshakeGoOn workOk] in *; [by apply ok_rateAllow|..].
  - destruct (_ =? _); unfold consumeInitiation, consumeResponse.
    + destruct (unmarshalInitiation _ _) as [[?|] msg]; [ssteps|]. eapply safe_bind; [by apply ok_checkInitiation|]. intros v w' H' _ Hv. apply safe_ret; [done|].
      destruct v as [v|]; [|done]. apply workThere_some. by apply Hv.
    + destruct (unmarshalResponse _ _) as [[?|] msg]; [ssteps|]. eapply safe_bind; [by apply ok_checkResponse|]. intros v w' H' _ Hv. apply safe_ret; [done|].
      destruct v as [v|]; [|done]. apply workThere_some. by apply Hv.
  - ssteps.
  - destruct Hw as [Hw Hp]. assert (peerThere (cr_peer v) w) as Hp' by done. eapply safe_bind; [by apply ok_recordResponse|]. snext.
    apply safe_ret; [done|]. destruct (cr_peer v) as [p|]; [|done]. apply workThere_some. by apply Hp'.
  - ssteps.
  - ssteps.
Qed.

(** ** Sequential delivery *)

Lemma ok_keepKeyFreshReceiving ho hi p w : wf ho hi (dev w) -> hasPeer (dev w) p ->
  okRun ho hi (keepKeyFreshReceiving p) w.
Proof. intros. unfold keepKeyFreshReceiving. ssteps. Qed.

Lemma ok_checkPacket ho hi p packet w : wf ho hi (dev w) -> all_bytes packet ->
  okRun ho hi (checkPacket p packet) w.
Proof.
  intros H Hb. unfold checkPacket. sstep; [|sstep; [|ssteps]].
  all: sstep; [ssteps|]; match goal with Hl : (_ <? _)%nat = false |- _ => apply Nat.ltb_ge in Hl;
    unfold IPv4HeaderLen, IPv6HeaderLen in Hl end.
  all: sstep; [ssteps|].
  all: eapply safe_bind; [apply ok_Lookup; [done|apply slice_address; [done| |auto]];
    unfold IPv4offsetSrc, IPv6offsetSrc, IPv4len, IPv6len; lia|snext; ssteps].
Qed.

Lemma ok_validateCounter ho hi k n w : wf ho hi (dev w) -> hasKp (dev w) k ->
  okRun ho hi (validateCounter k n) w.
Proof. intros. unfold validateCounter. ssteps. Qed.
#[local] Hint Resolve ok_keepKeyFreshReceiving ok_checkPacket ok_validateCounter : safe.

Lemma ok_receiveElem ho hi p e r w : wf ho hi (dev w) -> hasPeer (dev w) p -> inElemOk (dev w) false e ->
  okRun ho hi (receiveElem p e r) w.
Proof.
  intros H Hp (Hk & _ & Hb). unfold receiveElem. destruct (ie_packet e) as [packet|]; [|ssteps].
  specialize (Hb _ eq_refl). ssteps.
Qed.

Lemma ok_receiveElems ho hi p es r w : wf ho hi (dev w) -> hasPeer (dev w) p ->
  Forall (inElemOk (dev w) false) es -> okRun ho hi (receiveElems p es r) w.
Proof.
  revert r w. induction es as [|e es IH]; intros r w H Hp Hes; cbn [receiveElems]; [ssteps|].
  apply Forall_cons in Hes as [He Hes]. eapply safe_bind; [by apply ok_receiveElem|]. snext.
  by apply IH.
Qed.

Lemma ok_sequentialReceive ho hi p c w : wf ho ((c, true) :: hi) (dev w) -> hasPeer (dev w) p ->
  okRun ho hi (sequentialReceive p c) w.
Proof.
  intros H Hp. unfold sequentialReceive.
  eapply (safe_bind ho ((c, true) :: hi) _ _ _ _ _ (fun ct w' => Forall (inElemOk (dev w') false) (elems ct)));
    [eapply safe_getIn with (b := true); [done|by left|]|].
  { intros ct _ Hes Hl. by rewrite (Hl eq_refl) in Hes. }
  snext. eapply safe_bind; [by apply ok_receiveElems|]. snext.
  ssteps; by apply safe_dropIn.
Qed.

(** ** Life cycle *)


Context `{CL : !CryptoLaws C}.

(** Working off the containers taken from a queue. *)
Lemma ok_forTaken ho hi ho' hi' (f : cont_id -> M unit) cs p w :
  (forall c ho' hi' w, wf ((c, false) :: ho') hi' (dev w) -> hasPeer (dev w) p -> okRun ho' hi' (f c) w) ->
  ho = taken cs ++ ho' -> hi = hi' -> wf ho hi (dev w) -> hasPeer (dev w) p -> okRun ho' hi' (forEach cs f) w.
Proof.
  intros Hf -> ->. revert w. induction cs as [|c cs IH]; intros w H Hp; cbn [forEach]; [by apply safe_ret|].
  eapply safe_bind; [by apply (Hf c (taken cs ++ ho') hi')|]. snext. by apply IH.
Qed.

Lemma ok_forTakenIn ho hi ho' hi' (f : cont_id -> M unit) cs p w :
  (forall c ho' hi' w, wf ho' ((c, false) :: hi') (dev w) -> hasPeer (dev w) p -> okRun ho' hi' (f c) w) ->
  hi = taken cs ++ hi' -> ho = ho' -> wf ho hi (dev w) -> hasPeer (dev w) p -> okRun ho' hi' (forEach cs f) w.
Proof.
  intros Hf -> ->. revert w. induction cs as [|c cs IH]; intros w H Hp; cbn [forEach]; [by apply safe_ret|].
  eapply safe_bind; [by apply (Hf c ho' (taken cs ++ hi'))|]. snext. by apply IH.
Qed.

Lemma ok_drainOut ho hi f p x w :
  (forall c ho' hi' w, wf ((c, false) :: ho') hi' (dev w) -> hasPeer (dev w) p -> okRun ho' hi' (f c) w) ->
  wf ho hi (dev w) -> d_peers (dev w) !! p = Some x ->
  okRun ho hi (modPeer p (fun x => x <| outbound := [] |>);;; forEach (outbound x) f) w.
Proof.
  intros Hf H Hx. assert (hasPeer (dev w) p) as Hp by by eexists.
  eapply (safe_bind (taken (outbound x) ++ ho) hi _ _ _ _ _ (fun _ _ => True)).
  - eapply safe_takeOut; [done|done|by rewrite app_nil_r|done].
  - snext. by eapply ok_forTaken.
Qed.

Lemma ok_drainIn ho hi f p x w :
  (forall c ho' hi' w, wf ho' ((c, false) :: hi') (dev w) -> hasPeer (dev w) p -> okRun ho' hi' (f c) w) ->
  wf ho hi (dev w) -> d_peers (dev w) !! p = Some x ->
  okRun ho hi (modPeer p (fun x => x <| inbound := [] |>);;; forEach (inbound x) f) w.
Proof.
  intros Hf H Hx. assert (hasPeer (dev w) p) as Hp by by eexists.
  eapply (safe_bind ho (taken (inbound x) ++ hi) _ _ _ _ _ (fun _ _ => True)).
  - eapply safe_takeIn; [done|done|by rewrite app_nil_r|done].
  - snext. by eapply ok_forTakenIn.
Qed.

Lemma bind_assoc {A B D} (m : M A) (k : A -> M B) (h : B -> M D) ho hi w Q :
  safe ho hi (bind (bind m k) h) w Q -> safe ho hi (bind m (fun a => bind (k a) h)) w Q.
Proof. unfold safe, runs. rewrite !bind_eq. by destruct (m w) as [[]|]. Qed.

Lemma ok_sendLocked ho hi p c w : wf ((c, false) :: ho) hi (dev w) -> hasPeer (dev w) p ->
  okRun ho hi (lockOut c;;; sequentialSend p c) w.
Proof.
  intros. eapply safe_bind; [apply safe_lockOut with (Q := fun _ _ => True); done|]. snext.
  by apply ok_sequentialSend.
Qed.
Lemma ok_receiveLocked ho hi p c w : wf ho ((c, false) :: hi) (dev w) -> hasPeer (dev w) p ->
  okRun ho hi (lockIn c;;; sequentialReceive p c) w.
Proof.
  intros. eapply safe_bind; [apply safe_lockIn with (Q := fun _ _ => True); done|]. snext.
  by apply ok_sequentialReceive.
Qed.
Lemma ok_dropLockedOut ho hi c w : wf ((c, false) :: ho) hi (dev w) -> okRun ho hi (lockOut c;;; dropOut c) w.
Proof.
  intros. eapply safe_bind; [apply safe_lockOut with (Q := fun _ _ => True); done|]. snext.
  by apply safe_dropOut.
Qed.
Lemma ok_dropLockedIn ho hi c w : wf ho ((c, false) :: hi) (dev w) -> okRun ho hi (lockIn c;;; dropIn c) w.
Proof.
  intros. eapply safe_bind; [apply safe_lockIn with (Q := fun _ _ => True); done|]. snext.
  by apply safe_dropIn.
Qed.

Lemma ok_flushOutboundQueue ho hi p w : wf ho hi (dev w) -> hasPeer (dev w) p ->
  okRun ho hi (flushOutboundQueue p) w.
Proof.
  intros. unfold flushOutboundQueue. sstep. apply ok_drainOut; [|done|done]. intros. by apply ok_dropLockedOut.
Qed.
Lemma ok_flushInboundQueue ho hi p w : wf ho hi (dev w) -> hasPeer (dev w) p ->
  okRun ho hi (flushInboundQueue p) w.
Proof.
  intros. unfold flushInboundQueue. sstep. apply ok_drainIn; [|done|done]. intros. by apply ok_dropLockedIn.
Qed.
#[local] Hint Resolve ok_flushOutboundQueue ok_flushInboundQueue : safe.

Lemma ok_Start ho hi p w : wf ho hi (dev w) -> hasPeer (dev w) p -> okRun ho hi (Start p) w.
Proof. intros. unfold Start. ssteps. Qed.

Lemma ok_Stop ho hi p w : wf ho hi (dev w) -> hasPeer (dev w) p -> okRun ho hi (Stop p) w.
Proof.
  intros. unfold Stop. sstep. sstep; [ssteps|]. do 3 sstep. apply bind_assoc.
  eapply safe_bind; [apply ok_drainIn; [intros; by apply ok_receiveLocked|done|done]|]. snext.
  sstep. apply bind_assoc.
  eapply safe_bind; [apply ok_drainOut; [intros; by apply ok_sendLocked|done|done]|]. snext. ssteps.
Qed.
#[local] Hint Resolve ok_Start ok_Stop : safe.
End Flows.

#[export] Hint Resolve ok_ZeroAndFlushAll ok_ExpireCurrentKeypairs ok_fireTimer ok_receiveIncoming ok_Start ok_Stop : safe.
