(* ===== verification/DeviceSafety.v ===== *)
(** The same for the operations on a whole device, and the theorem on
    sequences of events. *)
From S2P Require Import Prelude Replay Tai64n Ratelimiter Messages NoiseHelpers ToyCrypto Cookie AllowedIPs.
From S2P Require Import TrieBits Trie Routing RoutingSpec State IndexTable Timers Handshake Session.
From S2P Require Import Initiations Send Staging Receive Device Queues WellFormed Safety.

Section DeviceSafety.
Context `{C : Crypto} `{CL : !CryptoLaws C}.

(** ** Loops over the peers *)

Definition listedThere (l : list (bytes * peer_id)) (w : World) : Prop :=
  forall x, x ∈ l -> hasPeer (dev w) x.2.

Lemma ok_rangePeers ho hi w : wf ho hi (dev w) -> safe ho hi rangePeers w listedThere.
Proof.
  intros H. unfold rangePeers. apply bind_getD. eapply safe_mono; [by apply ok_rangeOrder|].
  intros l w' [E Hin] [pk p] Hx. rewrite E. apply Hin, elem_of_map_to_list in Hx. by eapply wf_keys.
Qed.

Lemma ok_forPeers ho hi l f w : wf ho hi (dev w) -> listedThere l w ->
  (forall key p w', wf ho hi (dev w') -> hasPeer (dev w') p -> okRun ho hi (f (key, p)) w') ->
  okRun ho hi (forEach l f) w.
Proof.
  intros H Hl Hf. apply ok_forEach; [done|]. intros [key p] w' Hx Hw' He. apply Hf; [done|].
  apply (ext_peers _ _ He). by apply (Hl (key, p)).
Qed.

(** [range] over the peers with a body that keeps the invariant. *)
Lemma ok_allPeers ho hi f w : wf ho hi (dev w) ->
  (forall key p w', wf ho hi (dev w') -> hasPeer (dev w') p -> okRun ho hi (f (key, p)) w') ->
  okRun ho hi (let* peers := rangePeers in forEach peers f) w.
Proof.
  intros H Hf. eapply safe_bind; [by apply ok_rangePeers|]. intros l w' H' _ Hl. by apply ok_forPeers.
Qed.

(** ** The bind *)

Lemma ok_closeBind ho hi w : wf ho hi (dev w) -> okRun ho hi closeBindLocked w.
Proof. intros. unfold closeBindLocked. ssteps. Qed.
#[local] Hint Resolve ok_closeBind : safe.

Lemma ok_clearPeerSources ho hi w : wf ho hi (dev w) -> okRun ho hi clearPeerSources w.
Proof. intros. apply ok_allPeers; [done|]. intros. by apply ok_markEndpoint. Qed.
#[local] Hint Resolve ok_clearPeerSources : safe.

Lemma ok_BindSetMark ho hi mark w : wf ho hi (dev w) -> okRun ho hi (BindSetMark mark) w.
Proof. intros. unfold BindSetMark. ssteps. Qed.

Lemma ok_BindUpdate ho hi w : wf ho hi (dev w) -> okRun ho hi BindUpdate w.
Proof. intros. unfold BindUpdate. ssteps. Qed.
#[local] Hint Resolve ok_BindUpdate : safe.

(** ** Peers come and go *)

Lemma wf_keyMap ho hi d m : wf ho hi d -> (forall pk p, m !! pk = Some p -> hasPeer d p) ->
  wf ho hi (d <| d_keyMap := m |>).
Proof.
  intros H Hm. assert (ext d (d <| d_keyMap := m |>)) as Hext by by split. wfcarry H.
Qed.

(** A new peer has no sessions and nothing in its queues. *)
Lemma wf_addPeer ho hi d p x : wf ho hi d -> d_peers d !! p = None -> keypairs x = mkKeypairs None None None ->
  outbound x = [] -> inbound x = [] ->
  wf ho hi (d <| d_peers ::= <[p := x]> |>) /\ ext d (d <| d_peers ::= <[p := x]> |>) /\
  hasPeer (d <| d_peers ::= <[p := x]> |>) p.
Proof.
  intros H Hp Hk Ho Hi. set (d' := d <| d_peers ::= <[p := x]> |>).
  assert (ext d d') as Hext.
  { split; cbn; [|done|done|done]. intros q Hq. unfold hasPeer. cbn. apply lookup_insert_is_Some'. by right. }
  assert (hasPeer d' p) as Hp' by (unfold hasPeer, d'; cbn; rewrite lookup_insert_eq; eauto).
  split_and!; [|done|done]. pose proof (wf_slots _ _ _ H) as Hslots. wfcarry H.
  - intros q y. unfold d'. cbn. rewrite lookup_insert_Some. intros [[_ <-]|[_ Hx]].
    + rewrite Hk. intros k Hk'. by apply elem_of_nil in Hk'.
    + eapply (ext_slots d); [exact Hext|]. by eapply Hslots.
  - unfold d'. cbn. rewrite fmap_insert, Ho. apply qo_peer; [done|]. by rewrite lookup_fmap, Hp.
  - unfold d'. cbn. rewrite fmap_insert, Hi. apply qo_peer; [done|]. by rewrite lookup_fmap, Hp.
Qed.

Lemma fresh_peer (d : Device) : d_peers d !! fresh (dom (d_peers d)) = None.
Proof. apply not_elem_of_dom, is_fresh. Qed.

Lemma ok_NewPeer ho hi pk w : wf ho hi (dev w) -> safe ho hi (NewPeer pk) w peerThere.
Proof.
  intros H. unfold NewPeer. sstep. sstep; [ssteps|]. sstep; [ssteps|]. sstep; [ssteps|]. sstep.
  match goal with |- context [newPeer pk ?ss] => set (x := newPeer pk ss) end.
  destruct (wf_addPeer ho hi _ _ x H (fresh_peer _) eq_refl eq_refl eq_refl) as (Hw & Hext & Hp).
  set (d1 := dev w <| d_peers ::= _ |>) in *. set (p := fresh _) in *.
  eapply (safe_bind ho hi _ _ _ _ _ (fun _ w' => hasPeer (dev w') p)).
  - eapply (safe_intro _ _ _ _ tt (d1 <| d_keyMap ::= <[pk := p]> |>)); [done| | |done].
    + eapply ext_trans; [exact Hext|by split].
    + apply wf_keyMap; [done|]. intros pk' q. rewrite lookup_insert_Some. intros [[_ <-]|[_ Hk]]; [done|].
      by eapply wf_keys.
  - intros _ w' Hw' _ Hq. apply safe_ret; [done|]. by intros ? [= <-].
Qed.

Lemma ok_removePeerLocked ho hi p key w : wf ho hi (dev w) -> hasPeer (dev w) p ->
  okRun ho hi (removePeerLocked p key) w.
Proof.
  intros H Hp. unfold removePeerLocked. eapply safe_bind.
  { eapply safe_onRoutes with (P := fun _ => True) (Q := fun _ _ => True); [done| |done].
    intros t r <- Hr Hrp. eapply runs_mono; [by apply RemoveByPeer_represents|].
    intros [] t' Hr'. split; [done|]. eexists. split; [exact Hr'|].
    intros q p' Hq. apply map_lookup_filter_Some in Hq as [Hq _]. eauto. }
  snext. sstep. apply safe_modD; [done|by split| |done].
  apply (wf_keyMap ho hi (dev w1)); [done|]. intros pk q. rewrite lookup_delete_Some. intros [_ Hpk].
  by eapply wf_keys.
Qed.
#[local] Hint Resolve ok_removePeerLocked : safe.

Lemma ok_RemovePeer ho hi key w : wf ho hi (dev w) -> okRun ho hi (RemovePeer key) w.
Proof. intros. unfold RemovePeer. ssteps. Qed.

Lemma ok_RemoveAllPeers ho hi w : wf ho hi (dev w) -> okRun ho hi RemoveAllPeers w.
Proof.
  intros H. unfold RemoveAllPeers. eapply safe_bind; [by apply ok_rangePeers|].
  intros l w1 H1 _ Hl. eapply safe_bind; [apply ok_forPeers; [done|done|intros; ssteps]|].
  intros _ w2 H2 _ _. apply safe_modD; [done|by split| |done]. by apply (wf_keyMap ho hi (dev w2)).
Qed.

Lemma ok_SetPrivateKey ho hi sk w : wf ho hi (dev w) -> okRun ho hi (SetPrivateKey sk) w.
Proof.
  intros H. unfold SetPrivateKey. sstep. sstep; [ssteps|].
  eapply safe_bind; [by apply ok_rangePeers|]. intros l w1 H1 _ Hl.
  eapply safe_bind; [apply ok_forPeers; [done|done|intros; ssteps]|]. intros _ w2 H2 _ _.
  sstep. eapply safe_bind; [by apply ok_rangePeers|]. intros l' w3 H3 _ Hl'.
  eapply (safe_bind _ _ _ _ _ _ _ (fun _ w' => listedThere l' w')).
  - eapply runs_mono; [apply ok_forPeers; [exact H3|exact Hl'|intros; ssteps]|].
    intros _ w' (Hw' & He & _). split_and!; [done|done|]. intros x Hx. apply (ext_peers _ _ He), Hl', Hx.
  - intros _ w4 H4 _ Hl4. apply ok_forPeers; [done|done|intros; ssteps].
Qed.

Lemma ok_SendKeepalives ho hi w : wf ho hi (dev w) -> okRun ho hi SendKeepalivesToPeersWithCurrentKeypair w.
Proof.
  intros H. unfold SendKeepalivesToPeersWithCurrentKeypair. sstep. sstep; [ssteps|].
  apply ok_allPeers; [done|]. intros. ssteps.
Qed.

Lemma ok_DisableSomeRoaming ho hi w : wf ho hi (dev w) ->
  okRun ho hi DisableSomeRoamingForBrokenMobileSemantics w.
Proof.
  intros H. unfold DisableSomeRoamingForBrokenMobileSemantics. sstep.
  apply ok_allPeers; [done|]. intros. ssteps.
Qed.

End DeviceSafety.
