(* ===== verification/UapiSafety.v ===== *)
(** The configuration protocol keeps devices well-formed and never panics, and
    its texts are read to their end: parsed addresses are addresses, and the
    loop over the lines has rounds enough. *)
From S2P Require Import Prelude Replay Tai64n Ratelimiter Messages NoiseHelpers ToyCrypto Text Netip Cookie AllowedIPs.
From S2P Require Import TrieBits Trie Routing RoutingSpec State IndexTable Timers Handshake Session.
From S2P Require Import Initiations Send Staging Receive Device Uapi Queues WellFormed Safety DeviceSafety.

(** ** What the parsers return *)

Lemma ipv4Fields_ok fs v n st s ip : (length fs <= 3)%nat -> all_bytes fs -> is_byte v ->
  ipv4Fields fs v n st s = Some ip -> length ip = 4%nat /\ all_bytes ip.
Proof.
  revert fs v n st. induction s as [|c s IH]; intros fs v n st Hl Hf Hv; cbn [ipv4Fields].
  - destruct (Nat.ltb_spec (length fs) 3); [done|]. intros [= <-]. rewrite length_app. cbn.
    split; [lia|]. apply Forall_app. split; [done|by apply Forall_singleton].
  - destruct (isDigit c) eqn:Ec.
    + apply isDigit_val in Ec. destruct (_ && _); [done|]. rewrite Z.gtb_ltb.
      destruct (Z.ltb_spec 255 (v * 10 + (c - 48))); [done|]. apply IH; [done|done|]. unfold is_byte in *. lia.
    + destruct (c =? 46); [|done]. destruct (_ || _); [done|]. destruct (Nat.eqb_spec (length fs) 3); [done|].
      apply IH; [rewrite length_app; cbn; lia| |by unfold is_byte].
      apply Forall_app. split; [done|by apply Forall_singleton].
Qed.

Lemma parseIPv4_ok s ip : parseIPv4Fields s = Some ip -> length ip = 4%nat /\ all_bytes ip.
Proof. apply ipv4Fields_ok; [cbn; lia|constructor|by unfold is_byte]. Qed.

Lemma hexGroup_ok off acc s v n rest : group acc -> hexGroup off acc s = Some (v, n, rest) -> group v.
Proof.
  revert off acc. induction s as [|c s IH]; intros off acc Ha; cbn [hexGroup]; [by intros [= <- _ _]|].
  destruct (hexDigit c) as [d|] eqn:Ed; [|by intros [= <- _ _]]. destruct (3 <? off)%nat; [done|].
  rewrite Z.gtb_ltb. destruct (Z.ltb_spec 65535 (16 * acc + d)); [done|]. apply IH.
  assert (0 <= d).
  { unfold hexDigit in Ed. repeat (match type of Ed with context [if ?b then _ else _] => destruct b eqn:? end);
      try done; injection Ed as <-; rewrite andb_true_iff, !Z.leb_le in *; lia. }
  unfold group in *. lia.
Qed.

Lemma group_bytes v : group v -> all_bytes [Z.shiftr v 8; Z.land v 255].
Proof.
  unfold group. intros Hv. assert (Z.land v 255 = v mod 256) as -> by (by apply (land_mask v 8)).
  rewrite Z.shiftr_div_pow2 by done. change (2 ^ 8) with 256. pose proof (Z.div_mod v 256 ltac:(lia)). pose proof (Z.mod_pos_bound v 256 ltac:(lia)).
  repeat (apply Forall_cons; split; [unfold is_byte; lia|]). by apply Forall_nil.
Qed.

(** The bytes so far, two a round, and the place of the ellipsis among them. *)
Definition groupsOk (n : nat) (ip : bytes) (ell : option nat) : Prop :=
  all_bytes ip /\ (length ip <= n)%nat /\ forall e, ell = Some e -> (e <= length ip)%nat.

Lemma groupsOk_snoc n ip ell v : groupsOk n ip ell -> group v ->
  groupsOk (n + 2) (ip ++ [Z.shiftr v 8; Z.land v 255]) ell.
Proof.
  intros (H1 & H2 & H3) Hv. split_and!; [apply Forall_app; split; [done|by apply group_bytes]|rewrite length_app; cbn; lia|].
  intros e He. specialize (H3 e He). rewrite length_app. lia.
Qed.

Lemma ipv6Groups_ok fuel ip ell s ip' ell' s' : groupsOk (16 - 2 * fuel) ip ell -> (fuel <= 8)%nat ->
  ipv6Groups fuel ip ell s = Some (ip', ell', s') -> groupsOk 16 ip' ell'.
Proof.
  revert ip ell s. induction fuel as [|fuel IH]; intros ip ell s H Hf; cbn [ipv6Groups].
  { intros [= <- <- _]. exact H. }
  destruct (hexGroup 0 0 s) as [[[v n] rest]|] eqn:Eg; [|done].
  apply hexGroup_ok in Eg; [|by unfold group]. destruct (n =? 0)%nat; [done|].
  pose proof (groupsOk_snoc _ _ _ _ H Eg) as H'. replace (16 - 2 * S fuel + 2)%nat with (16 - 2 * fuel)%nat in H' by lia.
  assert (groupsOk 16 (ip ++ [Z.shiftr v 8; Z.land v 255]) ell) as Hend
    by (destruct H' as (? & ? & ?); split_and!; [done|lia|done]).
  set (ip1 := ip ++ [Z.shiftr v 8; Z.land v 255]) in *. cbv zeta.
  destruct rest as [|c s1]; [by intros [= <- <- _]|]. destruct (c =? 46).
  { destruct (match ell with None => _ | Some _ => _ end); [done|]. destruct (Nat.ltb_spec 16 (length ip + 4)); [done|].
    destruct (parseIPv4Fields s) as [f|] eqn:Ef; [|done]. apply parseIPv4_ok in Ef as [Hfl Hfb].
    cbn [mbind option_bind]. intros [= <- <- _]. destruct H as (H1 & H2 & H3).
    split_and!; [by apply Forall_app|rewrite length_app; lia|]. intros e He. specialize (H3 e He). rewrite length_app. lia. }
  destruct (negb (c =? 58)); [done|]. destruct s1 as [|c2 s2]; [done|]. destruct (c2 =? 58); [|apply IH; [done|lia]].
  destruct ell; [done|]. destruct H' as (H1 & H2 & _). destruct s2.
  - intros [= <- <- _]. split_and!; [done|lia|]. by intros e [= <-].
  - apply IH; [|lia]. split_and!; [done|done|]. by intros e [= <-].
Qed.

Lemma expand_ok ip ell ip' : groupsOk 16 ip ell -> expand ip ell = Some ip' -> length ip' = 16%nat /\ all_bytes ip'.
Proof.
  intros (H1 & H2 & H3). unfold expand. destruct (Nat.ltb_spec (length ip) 16).
  - destruct ell as [e|]; [|done]. intros [= <-]. specialize (H3 e eq_refl). split.
    + rewrite !length_app, length_take, length_drop. unfold zeros. rewrite length_replicate. lia.
    + repeat (apply Forall_app; split); [by apply Forall_take|by apply Forall_replicate|by apply Forall_drop].
  - destruct ell; [done|]. intros [= <-]. split; [lia|done].
Qed.

Lemma ipv6Bytes_ok s ip : ipv6Bytes s = Some ip -> length ip = 16%nat /\ all_bytes ip.
Proof.
  assert (forall ell s, (forall e, ell = Some e -> e = 0%nat) -> ipv6End (ipv6Groups 8 [] ell s) = Some ip ->
    length ip = 16%nat /\ all_bytes ip) as H.
  { intros ell r He Hend. destruct (ipv6Groups 8 [] ell r) as [[[ip1 ell1] [|]]|] eqn:E; try done.
    apply ipv6Groups_ok in E; [by eapply expand_ok| |lia]. split_and!; [constructor|cbn; lia|].
    intros e Hs. by rewrite (He e Hs). }
  unfold ipv6Bytes. destruct (leading s) as [[|c r]|].
  - intros [= <-]. split; [done|by apply Forall_replicate].
  - apply H. by intros e [= <-].
  - by apply H.
Qed.

Lemma ParseAddr_ok s a : ParseAddr s = Some a -> addrOk a.
Proof.
  unfold ParseAddr. intros E. assert ((exists ip, parseIPv4Fields s = Some ip /\ a = mkAddr ip []) \/ parseIPv6 s = Some a) as H.
  { destruct (family s) as [c|]; [|done]. destruct (decide (c = 46)) as [->|H46].
    { left. destruct (parseIPv4Fields s) as [ip|]; [|done]. injection E as <-. by exists ip. }
    destruct (decide (c = 58)) as [->|H58]; [by right|]. exfalso.
    destruct c as [|p|p]; try done. repeat (destruct p as [p|p|]; try done). }
  destruct H as [(ip & Hp & ->)|Hp].
  - apply parseIPv4_ok in Hp as [? ?]. split; [by left|done].
  - unfold parseIPv6 in Hp. assert (exists ip z r, ipv6Bytes r = Some ip /\ a = mkAddr ip z) as (ip & z & r & Hi & ->).
    { destruct (cutAt 37 s) as [[r [|c z]]|]; [done| |];
        destruct (ipv6Bytes _) as [ip|] eqn:Ei in Hp; try done; injection Hp as <-; by repeat eexists. }
    apply ipv6Bytes_ok in Hi as [? ?]. split; [by right|done].
Qed.

Lemma ParsePrefix_ok s ip c : ParsePrefix s = Some (ip, c) -> address ip /\ 0 <= c <= 8 * zlen ip.
Proof.
  unfold ParsePrefix. destruct (cutLast 47 s) as [[a b]|]; [|done]. cbn [mbind option_bind].
  destruct (ParseAddr a) as [addr|] eqn:Ea; [|done]. apply ParseAddr_ok in Ea as [Hl Hb]. cbn [mbind option_bind].
  destruct (negb _); [done|]. destruct (_ && _); [done|]. destruct (Atoi b) as [n|]; [|done]. cbn [mbind option_bind].
  destruct (Z.ltb_spec n 0); [done|]. cbn [orb].
  destruct (Z.ltb_spec (if (length (a_bytes addr) =? 16)%nat then 128 else 32) n); [done|].
  intros [= <- <-]. assert (length (a_bytes addr) = 4%nat \/ length (a_bytes addr) = 16%nat) as Hl' by (destruct Hl as [[? _]|?]; auto).
  split; [split; [by unfold IPv4len, IPv6len|done]|]. destruct Hl' as [E|E]; rewrite E in *; cbn [Nat.eqb] in *; lia.
Qed.

(** ** Reading lines *)

(** A line and its end are gone from what is left. *)
Lemma Scan_shrinks s l rest : Scan s = ScanLine l rest -> (length rest < length s)%nat.
Proof.
  unfold Scan. destruct (cutAt 10 _) as [[a b]|] eqn:E.
  - intros [= <- <-]. apply cutAt_some in E as [E _]. rewrite length_drop.
    assert (length (take MaxScanTokenSize s) <= length s)%nat as H by (rewrite length_take; lia).
    rewrite E, length_app in H. cbn [length] in H. lia.
  - destruct (_ <=? _)%nat; [done|]. destruct s; [done|]. intros [= _ <-]. cbn. lia.
Qed.

Section UapiSafety.
Context `{C : Crypto} `{CL : !CryptoLaws C}.

#[local] Hint Resolve ok_NewPeer ok_RemovePeer ok_RemoveAllPeers ok_SetPrivateKey ok_BindSetMark ok_BindUpdate : safe.

(** ** The operations *)

Lemma ok_allocPeer ho hi w : wf ho hi (dev w) -> safe ho hi allocPeer w (fun p w' => hasPeer (dev w') p).
Proof.
  intros H. destruct (wf_addPeer ho hi _ _ zeroPeer H (fresh_peer _) eq_refl eq_refl eq_refl) as (Hw & He & Hp).
  split; [exact Hw|]. by split.
Qed.

Lemma ok_dropPeer ho hi sp p remove w : wf ho hi (dev w) -> hasPeer (dev w) p ->
  safe ho hi (dropPeer sp p remove) w (fun sp' w' => exists q, sp_peer sp' = Some q /\ hasPeer (dev w') q).
Proof.
  intros H Hp. unfold dropPeer. sstep. eapply safe_bind; [by apply ok_allocPeer|].
  intros q w' Hw' _ Hthere. apply safe_ret; [done|]. by exists q.
Qed.

Lemma ok_handleDeviceLine ho hi key value w : wf ho hi (dev w) -> okRun ho hi (handleDeviceLine key value) w.
Proof. intros H. unfold handleDeviceLine. ssteps. Qed.

(** The peer at hand exists. *)
Definition atHand (sp : ipcSetPeer) (w : World) : Prop := exists p, sp_peer sp = Some p /\ hasPeer (dev w) p.
Definition maybeAtHand (sp : ipcSetPeer) (w : World) : Prop := sp_peer sp = None \/ atHand sp w.

Lemma atHand_ext sp w w' : ext (dev w) (dev w') -> atHand sp w -> atHand sp w'.
Proof. intros He (p & E & Hp). exists p. split; [done|]. by apply (ext_peers _ _ He). Qed.

Lemma ok_handlePostConfig ho hi sp w : wf ho hi (dev w) -> maybeAtHand sp w -> okRun ho hi (handlePostConfig sp) w.
Proof.
  intros H [E|(p & E & Hp)]; unfold handlePostConfig; rewrite E; [by apply safe_ret|]. ssteps.
Qed.

(** After a line that is accepted there is a peer at hand. *)
Definition lineDone (r : ipcSetPeer * option IPCError) (w : World) : Prop := r.2 = None -> atHand r.1 w.

Lemma ok_handlePublicKeyLine ho hi sp value w : wf ho hi (dev w) ->
  safe ho hi (handlePublicKeyLine sp value) w lineDone.
Proof.
  intros H. unfold handlePublicKeyLine. destruct (publicKeyFromHex _ _) as [pk ok].
  destruct (negb ok); [by apply safe_ret|]. sstep. cbv zeta.
  eapply (safe_bind _ _ _ _ _ _ _ (fun found w' => forall p, found = Some p -> hasPeer (dev w') p)).
  { destruct (keyEquals _ _).
    - eapply safe_bind; [by apply ok_allocPeer|]. intros p w' Hw _ Hp. apply safe_ret; [done|]. by intros ? [= <-].
    - unfold LookupPeer. sstep. apply safe_ret; [done|]. intros p Hp. by eapply wf_keys. }
  intros [p|] w1 H1 _ Hf.
  - apply safe_ret; [done|]. intros _. exists p. split; [done|by apply Hf].
  - eapply safe_bind; [by apply ok_NewPeer|]. intros [p|] w2 H2 _ Hp; (apply safe_ret; [done|]); [|done].
    intros _. exists p. split; [done|by apply Hp].
Qed.

Lemma ok_routeLine ho hi p (add : bool) ip c w : wf ho hi (dev w) -> hasPeer (dev w) p -> address ip ->
  0 <= c <= 8 * zlen ip -> okRun ho hi (onRoutes (if add then Insert ip c p else Remove ip c p)) w.
Proof.
  intros H Hp Hip Hc. assert (c = Z.of_nat (Z.to_nat c)) as Ec by lia. set (n := Z.to_nat c) in *. rewrite Ec.
  eapply safe_onRoutes with (P := fun _ => True) (Q := fun _ _ => True); [done| |done].
  intros t r _ Hr Hrp. destruct add.
  - eapply runs_mono; [apply Insert_represents; [exact Hr|done|lia]|]. intros [] t' Hr'. split; [done|].
    eexists. split; [exact Hr'|]. intros q p'. rewrite lookup_insert_Some. intros [[_ <-]|[_ Hq]]; eauto.
  - eapply runs_mono; [apply Remove_represents; [exact Hr|done|lia]|]. intros [] t' Hr'. split; [done|].
    eexists. split; [exact Hr'|]. intros q p'. destruct (decide _); [rewrite lookup_delete_Some; intros [_ ?]|]; eauto.
Qed.

Lemma ok_RemoveByPeer ho hi p w : wf ho hi (dev w) -> okRun ho hi (onRoutes (RemoveByPeer p)) w.
Proof.
  intros H. eapply safe_onRoutes with (P := fun _ => True) (Q := fun _ _ => True); [done| |done].
  intros t r _ Hr Hrp. eapply runs_mono; [by apply RemoveByPeer_represents|].
  intros [] t' Hr'. split; [done|]. eexists. split; [exact Hr'|].
  intros q p' Hq. apply map_lookup_filter_Some in Hq as [Hq _]. eauto.
Qed.

Lemma ok_handlePeerLine ho hi sp key value w : wf ho hi (dev w) -> atHand sp w ->
  safe ho hi (handlePeerLine sp key value) w lineDone.
Proof.
  intros H (p & E & Hp). unfold handlePeerLine. rewrite E.
  assert (forall w', wf ho hi (dev w') -> hasPeer (dev w') p -> safe ho hi (ret (sp, @None IPCError)) w' lineDone) as Hdone
    by (intros; apply safe_ret; [done|]; by exists p).
  assert (forall w', wf ho hi (dev w') -> safe ho hi (ret (sp, Some IpcErrorInvalid)) w' lineDone) as Hbad
    by (intros; by apply safe_ret).
  assert (forall remove, safe ho hi (let* peer := dropPeer sp p remove in ret (peer, None)) w lineDone) as Hdrop.
  { intros remove. eapply safe_bind; [by apply ok_dropPeer|]. intros sp' w' Hw _ Hq. apply safe_ret; [done|]. intros _. exact Hq. }
  assert (forall (m : M unit), okRun ho hi m w -> safe ho hi (m;;; ret (sp, None)) w lineDone) as Hthen.
  { intros m Hm. eapply safe_bind; [exact Hm|]. intros _ w' Hw He _. apply Hdone; [done|]. by apply (ext_peers _ _ He). }
  cbv zeta. repeat match goal with
  | |- safe _ _ (if negb (named value _) then _ else _) _ _ => destruct (negb _); [by apply Hbad|]
  | |- safe _ _ (if named key _ then _ else _) _ _ => destruct (named key _)
  end; try by apply Hdone.
  - destruct (_ && _); [apply Hdrop|by apply Hdone].
  - apply Hdrop.
  - sstep. destruct (presharedKeyFromHex _ _) as [psk ok]. eapply (safe_bind _ _ _ _ _ _ _ (fun _ _ => True)); [ssteps|].
    intros _ w' Hw He _. destruct ok; [|by apply Hbad]. apply Hdone; [done|]. by apply (ext_peers _ _ He).
  - destruct (ParseEndpoint value); [|by apply Hbad]. apply Hthen. ssteps.
  - destruct (ParseUint value 16); [|by apply Hbad]. sstep.
    eapply (safe_bind _ _ _ _ _ _ _ (fun _ _ => True)); [ssteps|]. intros _ w' Hw He _.
    apply safe_ret; [done|]. exists p. split; [done|]. by apply (ext_peers _ _ He).
  - destruct (dummy sp); [by apply Hdone|]. by apply Hthen, ok_RemoveByPeer.
  - assert (forall add v, safe ho hi (match ParsePrefix v with
      | None => ret (sp, Some IpcErrorInvalid)
      | Some (ip, c) => if dummy sp then ret (sp, None)
          else onRoutes (if add : bool then Insert ip c p else Remove ip c p);;; ret (sp, None)
      end) w lineDone) as Hr.
    { intros add v. destruct (ParsePrefix v) as [[ip c]|] eqn:Ep; [|by apply Hbad].
      apply ParsePrefix_ok in Ep as [Hip Hc]. destruct (dummy sp); [by apply Hdone|].
      by apply Hthen, ok_routeLine. }
    destruct (cutMinus value) as [add v]. apply Hr.
  - by apply Hbad.
Qed.

(** The loop goes on with a peer at hand, past the lines of the device. *)
Definition lineGoes (v : verdict) (w : World) : Prop :=
  match v with GoesOn sp dc => maybeAtHand sp w /\ (dc = false -> atHand sp w) | Returns _ => True end.

Lemma ok_setLine sp dc l w : wf [] [] (dev w) -> maybeAtHand sp w -> (dc = false -> atHand sp w) ->
  safe [] [] (setLine sp dc l) w lineGoes.
Proof.
  intros H Hsp Hdc. unfold setLine. destruct l as [|c l].
  { eapply safe_bind; [by apply ok_handlePostConfig|]. intros _ w' Hw _ _. by apply safe_ret. }
  destruct (cutAt 61 (c :: l)) as [[key value]|]; [|by apply safe_ret]. destruct (named key _).
  - eapply safe_bind; [by apply ok_handlePostConfig|]. intros _ w1 H1 _ _.
    eapply safe_bind; [by apply ok_handlePublicKeyLine|]. intros [sp' err] w2 H2 _ Hq.
    destruct err; (apply safe_ret; [done|]); [done|]. specialize (Hq eq_refl). split; [by right|done].
  - destruct dc.
    + eapply safe_bind; [by apply ok_handleDeviceLine|]. intros err w1 H1 He _.
      destruct err; (apply safe_ret; [done|]); [done|]. split; [|done].
      destruct Hsp as [?|?]; [by left|right; by eapply atHand_ext].
    + eapply safe_bind; [apply ok_handlePeerLine; [done|by apply Hdc]|]. intros [sp' err] w1 H1 _ Hq.
      destruct err; (apply safe_ret; [done|]); [done|]. specialize (Hq eq_refl). split; [by right|done].
Qed.

Lemma ok_setLoop fuel : forall sp dc s w, (length s < fuel)%nat -> wf [] [] (dev w) ->
  maybeAtHand sp w -> (dc = false -> atHand sp w) -> okRun [] [] (setLoop fuel sp dc s) w.
Proof.
  induction fuel as [|fuel IH]; intros sp dc s w Hf H Hsp Hdc; [lia|]. cbn [setLoop].
  assert (forall e : option IPCError, okRun [] [] (handlePostConfig sp;;; ret e) w) as Hend.
  { intros e. eapply safe_bind; [by apply ok_handlePostConfig|]. intros _ w' Hw _ _. by apply safe_ret. }
  destruct (Scan s) as [l rest| |] eqn:Es; [|apply Hend..]. apply Scan_shrinks in Es.
  eapply safe_bind; [by apply ok_setLine|]. intros [sp' dc'|e] w1 H1 _ Hg; [|by apply safe_ret].
  destruct Hg. apply IH; [lia|done..].
Qed.

Lemma ok_IpcSet s w : wf [] [] (dev w) -> okRun [] [] (IpcSet s) w.
Proof. intros H. apply ok_setLoop; [lia|done|by left|done]. Qed.

Lemma ok_getPeers l w : wf [] [] (dev w) -> listedThere l w -> okRun [] [] (getPeers l) w.
Proof.
  revert w. induction l as [|[key p] l IH]; intros w H Hl; cbn [getPeers]; [by apply safe_ret|].
  assert (hasPeer (dev w) p) as Hp by (apply (Hl (key, p)); by left). sstep.
  eapply (safe_bind _ _ _ _ _ _ _ (fun _ w' => listedThere l w')).
  - eapply runs_mono; [eapply safe_onRoutes with (P := fun _ => True) (Q := fun _ _ => True); [done| |done]|].
    + intros t r _ Hr Hrp. destruct (EntriesForPeer_lists t r p Hr) as (ips & E & _). unfold runs. rewrite E.
      split; [done|]. by exists r.
    + intros ips w' (Hw & He & _). split_and!; [done|done|]. intros q Hq. apply (ext_peers _ _ He), Hl. by right.
  - intros ips w' Hw _ Hl'. eapply safe_bind; [by apply IH|]. intros rest w2 H2 _ _. by apply safe_ret.
Qed.

Lemma ok_IpcGet w : wf [] [] (dev w) -> okRun [] [] IpcGet w.
Proof.
  intros H. unfold IpcGet. sstep. eapply safe_bind; [by apply ok_rangePeers|]. intros l w' Hw _ Hl.
  eapply safe_bind; [by apply ok_getPeers|]. intros t w2 H2 _ _. by apply safe_ret.
Qed.

End UapiSafety.
