(* ===== verification/Machine.v ===== *)
(** The device as a state machine: the changes of its state, and the events
    that drive it, none of which panics on a device grown from [NewDevice]. *)
From S2P Require Import Prelude Replay Tai64n Ratelimiter Messages NoiseHelpers ToyCrypto Text Netip Cookie AllowedIPs.
From S2P Require Import TrieBits Trie Routing RoutingSpec State IndexTable Timers Handshake Session.
From S2P Require Import Initiations Send Staging Receive Device Uapi Queues WellFormed Safety DeviceSafety UapiSafety.

(** ** Events *)

Inductive event :=
  | EvEnv (now : Z) (rand : list (option bytes)) (jitter : list Z) (net : list sendResult)
      (bind : list bool) (open : list (option Z)) (order : list nat)
  | EvTUN (pkts : list bytes)                    (** [RoutineReadFromTUN] *)
  | EvUDP (pkts : list (bytes * Endpoint))       (** [RoutineReceiveIncoming] *)
  | EvEncrypt (c : cont_id)                      (** [RoutineEncryption] *)
  | EvDecrypt (c : cont_id)                      (** [RoutineDecryption] *)
  | EvHandshake                                  (** [RoutineHandshake] takes a message *)
  | EvWorker (i : nat)                           (** and goes on with it *)
  | EvLimiterTick                                (** the rate limiter's collector *)
  | EvSend (p : peer_id)                         (** [RoutineSequentialSender] *)
  | EvReceive (p : peer_id)                      (** [RoutineSequentialReceiver] *)
  | EvTimer (n : timerName) (p : peer_id)
  | EvInterface (evMTU evUp evDown : bool) (mtu : option Z)  (** [RoutineTUNEventReader] *)
  | EvUp | EvDown | EvClose
  | EvNewPeer (pk : bytes) | EvRemovePeer (pk : bytes) | EvRemoveAllPeers
  | EvPrivateKey (sk : bytes)
  | EvIpcSet (uapiConf : bytes) | EvIpcGet | EvMark (mark : Z)
  | EvKeepalives | EvBrokenRoaming.

(** Packets and datagrams are byte strings. *)
Definition eventOk (e : event) : Prop :=
  match e with
  | EvTUN pkts => Forall (fun b => all_bytes b) pkts
  | EvUDP pkts => datagramsOk pkts
  | _ => True
  end.
#[export] Instance eventOk_dec e : Decision (eventOk e).
Proof. destruct e; unfold eventOk, datagramsOk; apply _. Defined.

Section Machine.
Context `{C : Crypto}.

(** The head of a peer's queue, once its lock is free. *)
Definition sendTurn (p : peer_id) : M unit := fun w =>
  match d_peers (dev w) !! p with
  | Some x =>
      match outbound x with
      | c :: rest =>
          match d_outConts (dev w) !! c with
          | Some ct =>
              if locked ct then ret tt w
              else (modPeer p (fun x => x <| outbound := rest |>);;; sequentialSend p c) w
          | None => panic w
          end
      | [] => ret tt w
      end
  | None => ret tt w
  end.

Definition receiveTurn (p : peer_id) : M unit := fun w =>
  match d_peers (dev w) !! p with
  | Some x =>
      match inbound x with
      | c :: rest =>
          match d_inConts (dev w) !! c with
          | Some ct =>
              if locked ct then ret tt w
              else (modPeer p (fun x => x <| inbound := rest |>);;; sequentialReceive p c) w
          | None => panic w
          end
      | [] => ret tt w
      end
  | None => ret tt w
  end.

(** The workers take any of the containers that were given to them. *)
Definition encryptTurn (c : cont_id) : M unit := fun w =>
  (if decide (c ∈ d_encryption (dev w)) then
     modD (fun d => d <| d_encryption ::= filter (fun x => x <> c) |>);;; encryptContainer c
   else ret tt) w.
Definition decryptTurn (c : cont_id) : M unit := fun w =>
  (if decide (c ∈ d_decryption (dev w)) then
     modD (fun d => d <| d_decryption ::= filter (fun x => x <> c) |>);;; decryptContainer c
   else ret tt) w.

(** A handshake worker takes a message, whatever the state of the device, and any of
    those that have one goes on with it: [works] are the messages under way. *)
Definition handshakeTurn (works : list hsWork) : M (list hsWork) := fun w =>
  match d_handshakes (dev w) with
  | e :: rest =>
      (modD (fun d => d <| d_handshakes := rest |>);;;
       let* work := handshakeBegin e in
       ret (works ++ option_list work)) w
  | [] => ret works w
  end.
Definition workerTurn (i : nat) (works : list hsWork) : M (list hsWork) :=
  match works !! i with
  | Some work =>
      let* work := handshakeGoOn work in
      ret (match work with Some work => <[i := work]> works | None => delete i works end)
  | None => ret works
  end.

Definition limiterTick : M unit :=
  let* now := getNow in modD (fun d => d <| d_limiter ::= tickerFired now |>).

Definition timerTurn (n : timerName) (p : peer_id) : M unit := fun w =>
  match d_peers (dev w) !! p with Some _ => fireTimer n p w | None => ret tt w end.

Definition ignore {A} (m : M A) : M unit := let* _ := m in ret tt.

(** [runSimple] is for the events that are not a handshake worker's. *)
Definition runSimple (e : event) : M unit :=
  match e with
  | EvEnv now rand jitter net bind open order =>
      modW (fun w => mkWorld (dev w) now rand jitter net bind open order (w_out w))
  | EvTUN pkts => readFromTUN pkts
  | EvUDP pkts => receiveIncoming pkts
  | EvEncrypt c => encryptTurn c
  | EvDecrypt c => decryptTurn c
  | EvHandshake | EvWorker _ => ret tt
  | EvLimiterTick => limiterTick
  | EvSend p => sendTurn p
  | EvReceive p => receiveTurn p
  | EvTimer n p => timerTurn n p
  | EvInterface evMTU evUp evDown mtu => tunEvent evMTU evUp evDown mtu
  | EvUp => ignore Up
  | EvDown => ignore Down
  | EvClose => CloseDevice
  | EvNewPeer pk => ignore (NewPeer pk)
  | EvRemovePeer pk => RemovePeer pk
  | EvRemoveAllPeers => RemoveAllPeers
  | EvPrivateKey sk => SetPrivateKey sk
  | EvIpcSet uapiConf => ignore (IpcSet uapiConf)
  | EvIpcGet => ignore IpcGet
  | EvMark mark => ignore (BindSetMark mark)
  | EvKeepalives => SendKeepalivesToPeersWithCurrentKeypair
  | EvBrokenRoaming => DisableSomeRoamingForBrokenMobileSemantics
  end.

Definition runEvent (e : event) (works : list hsWork) : M (list hsWork) :=
  match e with
  | EvHandshake => handshakeTurn works
  | EvWorker i => workerTurn i works
  | e => runSimple e;;; ret works
  end.

Fixpoint runEvents (es : list event) (works : list hsWork) : M (list hsWork) :=
  match es with
  | [] => ret works
  | e :: es => let* works := runEvent e works in runEvents es works
  end.

(** A worker that sends on the channel of the closed rate limiter. *)
Definition sendsOnClosed (d : Device) (works : list hsWork) (e : event) : bool :=
  match e with
  | EvWorker i => match works !! i with Some work => panics d work | None => false end
  | _ => false
  end.

(** A device fresh from [NewDevice]. *)
Definition started (mtu : option Z) (w : World) : Prop := NewDevice mtu = Some (dev w).

(** ** Lemmas *)

Context `{CL : !CryptoLaws C}.

(** Well-formed again, with all objects still there; the state may differ. *)
Definition whole (w w' : World) : Prop :=
  wf [] [] (dev w') /\ (forall p, hasPeer (dev w) p -> hasPeer (dev w') p).

(** And not closed unless it was. *)
Definition grown (w w' : World) : Prop :=
  whole w w' /\ (d_state (dev w) <> deviceStateClosed -> d_state (dev w') <> deviceStateClosed).

Lemma grown_safe {A} (m : M A) w Q : safe [] [] m w Q -> runs m w (fun _ w' => grown w w').
Proof. intros H. eapply runs_mono; [exact H|]. intros a w' (H1 & H2 & _). split; [split; [done|apply H2]|]. by rewrite (ext_state _ _ H2). Qed.

Lemma wf_setState ho hi d s : wf ho hi d -> (s <> deviceStateClosed -> limiterOpen (d_limiter d)) ->
  wf ho hi (d <| d_state := s |>).
Proof.
  intros H Hl. pose proof (wf_index _ _ _ H) as Hi. destruct H. constructor; try done.
  intros i e He. destruct (Hi i e He). by constructor.
Qed.

Lemma wf_setMTU ho hi d mtu : wf ho hi d -> 0 <= mtu -> wf ho hi (d <| d_mtu := mtu |>).
Proof.
  intros H Hm. pose proof (wf_index _ _ _ H) as Hi. destruct H. constructor; try done.
  intros i e He. destruct (Hi i e He). by constructor.
Qed.

Lemma ok_upLocked w : wf [] [] (dev w) -> okRun [] [] upLocked w.
Proof.
  intros. unfold upLocked. eapply safe_bind; [by apply ok_BindUpdate|]. snext. sstep; [ssteps|].
  eapply safe_bind; [by apply ok_rangePeers|]. intros l w1 H1 _ Hl.
  eapply safe_bind; [apply ok_forPeers; [done|done|intros; ssteps]|]. snext. ssteps.
Qed.

Lemma ok_downLocked w : wf [] [] (dev w) -> okRun [] [] downLocked w.
Proof.
  intros. unfold downLocked, BindClose. eapply safe_bind; [by apply ok_closeBind|]. snext.
  eapply safe_bind; [by apply ok_rangePeers|]. intros l w1 H1 _ Hl.
  eapply safe_bind; [apply ok_forPeers; [done|done|intros; ssteps]|]. snext. ssteps.
Qed.

(** What a change of state ends in. *)
Definition changed (want : deviceState) (w : World) (ok : bool) (w' : World) : Prop :=
  whole w w' /\ (limiterOpen (d_limiter (dev w)) -> limiterOpen (d_limiter (dev w'))) /\
  if decide (d_state (dev w) = deviceStateClosed \/ want = d_state (dev w) \/ want = deviceStateClosed)
  then ok = true /\ w' = w
  else d_state (dev w') = if ok then want else deviceStateDown.

Lemma changeState_runs want w : wf [] [] (dev w) -> runs (changeState want) w (changed want w).
Proof.
  intros H. unfold changeState. wstep. wstep. cbv zeta. unfold changed.
  assert (whole w w) as Hg by by split.
  destruct (decide (d_state (dev w) = deviceStateClosed)) as [Hc|Hc].
  { rewrite bool_decide_true by done. wstep. split_and!; [done|done|]. by rewrite decide_True by auto. }
  rewrite (bool_decide_false (d_state (dev w) = _)) by done.
  destruct (decide (want = d_state (dev w))) as [Hw|Hw].
  { rewrite bool_decide_true by done. wstep. split_and!; [done|done|]. by rewrite decide_True by auto. }
  rewrite bool_decide_false by done. pose proof (wf_limiter _ _ _ H Hc) as Hl.
  assert (forall s ok w0, wf [] [] (dev w0) -> ext (dev w <| d_state := s |>) (dev w0) ->
    runs (setState deviceStateDown;;; let* okDown := downLocked in ret (ok && okDown)) w0 (fun ok' w' =>
      whole w w' /\ (limiterOpen (d_limiter (dev w)) -> limiterOpen (d_limiter (dev w'))) /\
      (ok' = true -> ok = true) /\ d_state (dev w') = deviceStateDown)) as Hdown.
  { intros s ok w0 H0 He. wstep. unfold setState. do 2 wstep.
    match goal with |- runs _ ?w1 _ => set (w1' := w1) end.
    assert (wf [] [] (dev w1')) as H1 by (apply (wf_setState _ _ (dev w0)); [done|intros _; by apply (ext_limiter _ _ He)]).
    eapply runs_mono; [by apply ok_downLocked|]. intros ok2 w2 (H2 & He2 & _). wstep.
    split_and!; [split; [done|]|intros _|by destruct ok|by rewrite (ext_state _ _ He2)].
    - intros p Hp. apply (ext_peers _ _ He2). by apply (ext_peers _ _ He).
    - apply (ext_limiter _ _ He2). by apply (ext_limiter _ _ He). }
  destruct want.
  - eapply runs_mono; [apply (Hdown (d_state (dev w)) true w); [done|by split]|].
    intros ok w' (G1 & G2 & _ & G4). split_and!; [done|done|]. rewrite decide_False by naive_solver. by destruct ok.
  - wstep. unfold setState at 1. wstep. wstep.
    match goal with |- runs _ ?w1 _ => set (w1' := w1) end.
    assert (wf [] [] (dev w1')) as H1 by (apply (wf_setState _ _ (dev w)); done).
    eapply runs_mono; [by apply ok_upLocked|]. intros ok w2 (H2 & He2 & _).
    destruct ok.
    + wstep. split_and!; [split; [done|]|by apply (ext_limiter _ _ He2)|].
      * intros p Hp. by apply (ext_peers _ _ He2).
      * rewrite decide_False by naive_solver. by rewrite (ext_state _ _ He2).
    + eapply runs_mono; [apply (Hdown deviceStateUp false w2); [done|exact He2]|].
      intros ok w' (G1 & G2 & G3 & G4). split_and!; [done|done|]. rewrite decide_False by naive_solver.
      destruct ok; [by specialize (G3 eq_refl)|done].
  - wstep. split_and!; [done|done|]. by rewrite decide_True by auto.
Qed.

Lemma grown_trans w1 w2 w3 : grown w1 w2 -> grown w2 w3 -> grown w1 w3.
Proof. intros [[_ H1] H1'] [[H2 H3] H3']. split; [split|]; auto. Qed.

Lemma grown_bind {A B} (m : M A) (k : A -> M B) w :
  runs m w (fun _ w' => grown w w') ->
  (forall a w', wf [] [] (dev w') -> runs (k a) w' (fun _ w'' => grown w' w'')) ->
  runs (bind m k) w (fun _ w' => grown w w').
Proof.
  intros Hm Hk. apply runs_bind. eapply runs_mono; [exact Hm|]. intros a w' G.
  eapply runs_mono; [apply Hk, G|]. intros b w''. by apply grown_trans.
Qed.

Lemma grown_refl w : wf [] [] (dev w) -> grown w w.
Proof. intros H. split; [by split|done]. Qed.
Lemma grown_ret {A} (a : A) w : wf [] [] (dev w) -> runs (ret a) w (fun _ w' => grown w w').
Proof. apply grown_refl. Qed.

Lemma grown_ignore {A} (m : M A) w : runs m w (fun _ w' => grown w w') ->
  runs (ignore m) w (fun _ w' => grown w w').
Proof. intros H. apply grown_bind; [done|]. intros. by apply grown_ret. Qed.

Lemma grown_change want w : wf [] [] (dev w) -> runs (changeState want) w (fun _ w' => grown w w').
Proof.
  intros H. eapply runs_mono; [by apply changeState_runs|]. intros ok w' (G & _ & Hs). split; [done|].
  destruct (decide _) as [_|Hd]; [by destruct Hs as [_ ->]|]. rewrite Hs. intros _. destruct ok; [naive_solver|done].
Qed.

Lemma grown_tunEvent a b c mtu w : wf [] [] (dev w) -> runs (tunEvent a b c mtu) w (fun _ w' => grown w w').
Proof.
  intros H. unfold tunEvent. cbv zeta.
  assert (forall want (b : bool) w, wf [] [] (dev w) ->
    runs (when b (let* _ := changeState want in ret tt)) w (fun _ w' => grown w w')) as Hw.
  { intros want [] w' H'; cbn [when]; [|by apply grown_ret]. by apply grown_ignore, grown_change. }
  assert (forall w, wf [] [] (dev w) -> runs (when b (let* _ := Up in ret tt);;; when c (let* _ := Down in ret tt)) w
    (fun _ w' => grown w w')) as Hr.
  { intros w' H'. apply grown_bind; [by apply Hw|]. intros _ w'' H''. by apply Hw. }
  destruct a; [|by apply Hr]. destruct mtu as [m|]; [|by apply grown_ret].
  destruct (Z.ltb_spec m 0) as [|Hm]; [by apply grown_ret|]. apply grown_bind; [|auto].
  eapply grown_safe, safe_modD with (Q := fun _ _ => True); [done|by split| |done].
  apply wf_setMTU; [done|]. change MaxContentSize with 65503. unfold s32. rewrite Z.gtb_ltb.
  destruct (Z.ltb_spec 65503 m); rewrite Z.mod_small; lia.
Qed.

(** A tick stops the ticker at most. *)
Lemma ticker_running (now : Z) (r : Ratelimiter (Addr := bytes)) :
  (stopReset r <> gcNil -> stopReset (tickerFired now r) <> gcNil) /\ (limiterOpen r -> limiterOpen (tickerFired now r)).
Proof.
  unfold limiterOpen, tickerFired, cleanup. destruct (stopReset r) eqn:E; rewrite ?E; auto.
  case_bool_decide; cbn; rewrite ?E; auto.
Qed.

Lemma grown_limiterTick w : wf [] [] (dev w) -> runs limiterTick w (fun _ w' => grown w w').
Proof.
  intros H. unfold limiterTick. eapply grown_safe. sstep.
  destruct (ticker_running (w_now w) (d_limiter (dev w))) as [H1 H2].
  eapply safe_modD with (Q := fun _ _ => True); [done|by split| |done].
  assert (ext (dev w) (dev w <| d_limiter ::= tickerFired (w_now w) |>)) as Hext by by split. wfcarry H; auto.
Qed.

Lemma Close_open (r : Ratelimiter (Addr := bytes)) : limiterOpen r -> exists r', Close r = Some r' /\ stopReset r' <> gcNil.
Proof. unfold limiterOpen, Close. intros [-> | ->]; by eexists. Qed.

Lemma whole_close w : wf [] [] (dev w) -> runs CloseDevice w (fun _ w' => whole w w' /\
  d_state (dev w') = deviceStateClosed).
Proof.
  intros H. unfold CloseDevice, isClosed. do 2 wstep.
  destruct (decide (d_state (dev w) = deviceStateClosed)) as [Hc|Hc].
  { rewrite bool_decide_true by done. by wstep. }
  rewrite bool_decide_false by done. pose proof (wf_limiter _ _ _ H Hc) as Hl.
  unfold setState. do 2 wstep. match goal with |- runs _ ?w1 _ => set (w1' := w1) end.
  assert (wf [] [] (dev w1')) as H1 by (by apply (wf_setState _ _ (dev w))).
  wstep. eapply runs_mono; [by apply ok_downLocked|]. intros _ w2 (H2 & He2 & _).
  wstep. eapply runs_mono; [by apply ok_RemoveAllPeers|]. intros _ w3 (H3 & He3 & _).
  pose proof (ext_trans _ _ _ He2 He3) as He. unfold closeLimiter. do 2 wstep.
  destruct (Close_open (d_limiter (dev w3))) as (r & -> & Hr); [by apply (ext_limiter _ _ He)|]. wstep.
  split; [split|exact (ext_state _ _ He)].
  - pose proof (ext_state _ _ He) as Es.
    pose proof (wf_index _ _ _ H3) as Hi. destruct H3. constructor; try done.
    intros i e Hie. destruct (Hi i e Hie). by constructor.
  - intros p Hp. by apply (ext_peers _ _ He).
Qed.

Lemma hasPeer_some d p x : d_peers d !! p = Some x -> hasPeer d p.
Proof. intros H. by eexists. Qed.

Lemma ok_sendTurn p w : wf [] [] (dev w) -> okRun [] [] (sendTurn p) w.
Proof.
  intros H. unfold sendTurn, safe, runs.
  destruct (d_peers (dev w) !! p) as [x|] eqn:Ex; [|by apply safe_ret].
  destruct (outbound x) as [|c rest] eqn:Eo; [by apply safe_ret|].
  destruct (qo_valid _ _ _ _ (wf_out _ _ _ H) p (outbound x) c) as [[ct Ect] _];
    [by rewrite lookup_fmap, Ex|rewrite Eo; by left|].
  rewrite Ect. destruct (locked ct) eqn:El; [by apply safe_ret|].
  change (okRun [] [] (modPeer p (fun x => x <| outbound := rest |>);;; sequentialSend p c) w).
  assert (hasPeer (dev w) p) as Hp by by eapply hasPeer_some.
  eapply (safe_bind [(c, true)] [] _ _ _ _ _ (fun _ _ => True)).
  - assert (okRun (taken [c]) [] (modPeer p (fun x => x <| outbound := rest |>)) w) as Hs
      by (eapply (safe_takeOut [] [] p x [c] rest); done).
    unfold safe, runs, modPeer in Hs |- *. rewrite Ex in *. destruct Hs as (Hw & He & _).
    split; [|done]. destruct Hw. constructor; try done. eapply qo_flag; [done|exact Ect|done|done|].
    intros c' b [[= -> ->]|[]%elem_of_nil]%elem_of_cons. by right.
  - snext. by apply ok_sequentialSend.
Qed.

Lemma ok_receiveTurn p w : wf [] [] (dev w) -> okRun [] [] (receiveTurn p) w.
Proof.
  intros H. unfold receiveTurn, safe, runs.
  destruct (d_peers (dev w) !! p) as [x|] eqn:Ex; [|by apply safe_ret].
  destruct (inbound x) as [|c rest] eqn:Eo; [by apply safe_ret|].
  destruct (qo_valid _ _ _ _ (wf_in _ _ _ H) p (inbound x) c) as [[ct Ect] _];
    [by rewrite lookup_fmap, Ex|rewrite Eo; by left|].
  rewrite Ect. destruct (locked ct) eqn:El; [by apply safe_ret|].
  change (okRun [] [] (modPeer p (fun x => x <| inbound := rest |>);;; sequentialReceive p c) w).
  assert (hasPeer (dev w) p) as Hp by by eapply hasPeer_some.
  eapply (safe_bind [] [(c, true)] _ _ _ _ _ (fun _ _ => True)).
  - assert (okRun [] (taken [c]) (modPeer p (fun x => x <| inbound := rest |>)) w) as Hs
      by (eapply (safe_takeIn [] [] p x [c] rest); done).
    unfold safe, runs, modPeer in Hs |- *. rewrite Ex in *. destruct Hs as (Hw & He & _).
    split; [|done]. destruct Hw. constructor; try done. eapply qo_flag; [done|exact Ect|done|done|].
    intros c' b [[= -> ->]|[]%elem_of_nil]%elem_of_cons. by right.
  - snext. by apply ok_sequentialReceive.
Qed.

Lemma ok_encryptTurn c w : wf [] [] (dev w) -> okRun [] [] (encryptTurn c) w.
Proof.
  intros H. unfold encryptTurn, safe, runs. destruct (decide _) as [Hc|]; [|by apply safe_ret].
  destruct (qo_work _ _ _ _ (wf_out _ _ _ H) c Hc) as (ct & Ect & _).
  eapply (safe_encryptContainer [] [] []); [done|by eexists|done|by intros ? ? ?%elem_of_nil|done].
Qed.

Lemma ok_decryptTurn c w : wf [] [] (dev w) -> okRun [] [] (decryptTurn c) w.
Proof.
  intros H. unfold decryptTurn, safe, runs. destruct (decide _) as [Hc|]; [|by apply safe_ret].
  destruct (qo_work _ _ _ _ (wf_in _ _ _ H) c Hc) as (ct & Ect & El).
  eapply (safe_decryptContainer [] [] []); [done|exact Ect|done|done|by intros ? ? ?%elem_of_nil|done].
Qed.

(** The workers' messages after an event. *)
Definition worksOk (w : World) (works : list hsWork) : Prop := Forall (workOk (dev w)) works.
Lemma worksOk_grown w w' works : (forall p, hasPeer (dev w) p -> hasPeer (dev w') p) -> worksOk w works -> worksOk w' works.
Proof. intros Hp Hw. eapply Forall_impl; [exact Hw|]. intros x. by apply workOk_peers. Qed.

Lemma ok_handshakeTurn w works : wf [] [] (dev w) -> worksOk w works ->
  safe [] [] (handshakeTurn works) w (fun works' w' => worksOk w' works').
Proof.
  intros H Hw. unfold handshakeTurn, safe, runs.
  destruct (d_handshakes (dev w)) as [|e rest] eqn:Eh; [by apply safe_ret|].
  pose proof (wf_handshakes _ _ _ H) as Hh. rewrite Eh in Hh. apply Forall_cons in Hh as [He Hr].
  change (safe [] [] (modD (fun d => d <| d_handshakes := rest |>);;;
    let* work := handshakeBegin e in ret (works ++ option_list work)) w (fun works' w' => worksOk w' works')).
  eapply (safe_bind [] [] _ _ _ _ _ (fun _ _ => True)).
  - apply safe_modD; [done|by split| |done].
    assert (ext (dev w) (dev w <| d_handshakes := rest |>)) as Hext by by split. wfcarry H.
  - intros _ w1 H1 He1 _. eapply safe_bind; [by apply ok_handshakeBegin|]. intros work w2 H2 He2 Hwork.
    apply safe_ret; [done|]. apply Forall_app. split.
    + eapply worksOk_grown; [|exact Hw]. intros p Hp. by apply (ext_peers _ _ He2), (ext_peers _ _ He1).
    + destruct work as [x|]; [|done]. apply Forall_singleton. by apply Hwork.
Qed.

Lemma ok_workerTurn i w works : wf [] [] (dev w) -> worksOk w works ->
  if sendsOnClosed (dev w) works (EvWorker i) then workerTurn i works w = None
  else safe [] [] (workerTurn i works) w (fun works' w' => worksOk w' works').
Proof.
  intros H Hw. unfold workerTurn. cbn [sendsOnClosed]. destruct (works !! i) as [x|] eqn:Ei; [|by apply safe_ret].
  pose proof (ok_handshakeGoOn [] [] x w H (Forall_lookup_1 _ _ _ _ Hw Ei)) as Hx. destruct (panics (dev w) x).
  - by rewrite bind_eq, Hx.
  - eapply safe_bind; [exact Hx|]. intros y w' H' He Hy. apply safe_ret; [done|].
    apply (worksOk_grown w w' works (ext_peers _ _ He)) in Hw. destruct y as [y|]; [|by apply Forall_delete].
    apply Forall_insert; [done|]. by apply Hy.
Qed.

Lemma ok_timerTurn n p w : wf [] [] (dev w) -> okRun [] [] (timerTurn n p) w.
Proof.
  intros H. unfold timerTurn, safe, runs. destruct (d_peers (dev w) !! p) as [x|] eqn:Ex; [|by apply safe_ret].
  apply ok_fireTimer; [done|by eapply hasPeer_some].
Qed.

Lemma runSimple_grown e w : wf [] [] (dev w) -> eventOk e -> e <> EvClose -> runs (runSimple e) w (fun _ w' => grown w w').
Proof.
  intros H He Hc.
  assert (forall A (m : M A) Q, safe [] [] m w Q -> runs (ignore m) w (fun _ w' => grown w w')) as Hi
    by (intros A m Q Hs; eapply grown_ignore, grown_safe, Hs).
  destruct e; cbn [runSimple eventOk] in *.
  - split; [by split|done].
  - by eapply grown_safe, ok_readFromTUN.
  - by eapply grown_safe, ok_receiveIncoming.
  - by eapply grown_safe, ok_encryptTurn.
  - by eapply grown_safe, ok_decryptTurn.
  - by apply grown_ret.
  - by apply grown_ret.
  - by apply grown_limiterTick.
  - by eapply grown_safe, ok_sendTurn.
  - by eapply grown_safe, ok_receiveTurn.
  - by eapply grown_safe, ok_timerTurn.
  - by apply grown_tunEvent.
  - by apply grown_ignore, grown_change.
  - by apply grown_ignore, grown_change.
  - done.
  - by eapply Hi, ok_NewPeer.
  - by eapply grown_safe, ok_RemovePeer.
  - by eapply grown_safe, ok_RemoveAllPeers.
  - by eapply grown_safe, ok_SetPrivateKey.
  - by eapply Hi, ok_IpcSet.
  - by eapply Hi, ok_IpcGet.
  - by eapply Hi, ok_BindSetMark.
  - by eapply grown_safe, ok_SendKeepalives.
  - by eapply grown_safe, ok_DisableSomeRoaming.
Qed.

Lemma isClose e : e = EvClose \/ e <> EvClose.
Proof. destruct e; first [by left|by right]. Qed.

(** One event: a worker that sends on the closed channel stops the program, and
    nothing else does. *)
Lemma runEvent_spec e works w : wf [] [] (dev w) -> worksOk w works -> eventOk e ->
  if sendsOnClosed (dev w) works e then runEvent e works w = None
  else runs (runEvent e works) w (fun works' w' => wf [] [] (dev w') /\ worksOk w' works' /\
    (e <> EvClose -> d_state (dev w) <> deviceStateClosed -> d_state (dev w') <> deviceStateClosed)).
Proof.
  intros H Hw He.
  assert (forall (m : M (list hsWork)), safe [] [] m w (fun works' w' => worksOk w' works') ->
    runs m w (fun works' w' => wf [] [] (dev w') /\ worksOk w' works' /\
      (e <> EvClose -> d_state (dev w) <> deviceStateClosed -> d_state (dev w') <> deviceStateClosed))) as Hsafe.
  { intros m Hm. eapply runs_mono; [exact Hm|]. intros ws w' (H1 & H2 & H3). split_and!; [done|done|]. intros _. by rewrite (ext_state _ _ H2). }
  destruct (isClose e) as [->|Hne].
  { cbn [sendsOnClosed runEvent runSimple]. wstep. eapply runs_mono; [by apply whole_close|]. intros _ w' [[H1 Hp] _]. wstep.
    split_and!; [done|by eapply worksOk_grown|done]. }
  assert (runs (runSimple e;;; ret works) w (fun works' w' => wf [] [] (dev w') /\ worksOk w' works' /\
    (e <> EvClose -> d_state (dev w) <> deviceStateClosed -> d_state (dev w') <> deviceStateClosed))) as Hsimple.
  { wstep. eapply runs_mono; [by apply runSimple_grown|]. intros _ w' [[H1 Hp] Hs]. wstep. split_and!; [done|by eapply worksOk_grown|auto]. }
  destruct e; try exact Hsimple; cbn [runEvent]; [by apply Hsafe, ok_handshakeTurn|].
  pose proof (ok_workerTurn i w works H Hw) as Hi. destruct (sendsOnClosed _ _ _); [done|]. by apply Hsafe.
Qed.

Lemma open_never_sends w works e : wf [] [] (dev w) -> d_state (dev w) <> deviceStateClosed -> sendsOnClosed (dev w) works e = false.
Proof.
  intros H Hs. destruct e as [| | | | | |i| | | | | | | | | | | | | | | | |]; try done. cbn. destruct (works !! i) as [[e [| | |ip c]|e|e v|e v|e p|e p]|]; try done.
  cbn. apply bool_decide_eq_false. intros [Hc _]. destruct (wf_limiter _ _ _ H Hs); congruence.
Qed.

(** A run ends, or stops where a worker sends on the closed channel. *)
Definition stopsAt (es : list event) (works : list hsWork) (w : World) : Prop :=
  exists es1 e es2 works1 w1, es = es1 ++ e :: es2 /\ runEvents es1 works w = Some (works1, w1)
    /\ wf [] [] (dev w1) /\ d_state (dev w1) = deviceStateClosed /\ sendsOnClosed (dev w1) works1 e = true /\ runEvent e works1 w1 = None.

Lemma runEvents_spec es works w : wf [] [] (dev w) -> worksOk w works -> Forall eventOk es ->
  (exists works' w', runEvents es works w = Some (works', w') /\ wf [] [] (dev w'))
  \/ stopsAt es works w /\ (d_state (dev w) <> deviceStateClosed -> EvClose ∈ es).
Proof.
  intros H Hw He. revert works w H Hw. induction He as [|e es He Hes IH]; intros works w H Hw; [left; by exists works, w|].
  pose proof (runEvent_spec e works w H Hw He) as Hr. destruct (sendsOnClosed (dev w) works e) eqn:Es.
  - right. split; [|intros Hs; by rewrite open_never_sends in Es].
    exists [], e, es, works, w. split_and!; try done. destruct (decide (d_state (dev w) = deviceStateClosed)) as [|Hs]; [done|].
    by rewrite open_never_sends in Es.
  - destruct (runs_exists _ _ _ Hr) as (works1 & w1 & E & H1 & Hw1 & Hs1).
    destruct (IH works1 w1 H1 Hw1) as [(works' & w' & E' & H')|[(es1 & e' & es2 & works2 & w2 & -> & E' & Hrest) Hc]].
    + left. exists works', w'. split; [|done]. cbn [runEvents]. by rewrite bind_eq, E.
    + right. split.
      * exists (e :: es1), e', es2, works2, w2. split; [done|]. split; [|done]. cbn [runEvents]. by rewrite bind_eq, E.
      * intros Hs. destruct (isClose e) as [->|Hne]; [by left|]. right. auto.
Qed.

Lemma wf_NewDevice mtu d : NewDevice mtu = Some d -> 0 <= d_mtu d -> wf [] [] d.
Proof.
  unfold NewDevice. cbn. intros [= <-] Hm. constructor; cbn.
  - intros p x Hx. by rewrite lookup_empty in Hx.
  - intros pk p Hk. cbn in Hk. by rewrite lookup_empty in Hk.
  - intros i e Hx. by rewrite lookup_empty in Hx.
  - exists ∅. split; [apply represents_empty|]. intros q p Hq. by rewrite lookup_empty in Hq.
  - intros c ct Hx. by rewrite lookup_empty in Hx.
  - intros c ct Hx. by rewrite lookup_empty in Hx.
  - rewrite fmap_empty. constructor; try by (intros ? ? * Hx; rewrite lookup_empty in Hx).
    + split; [apply NoDup_nil_2|]. by intros ? ? ?%elem_of_nil.
    + by intros ? ?%elem_of_nil.
  - rewrite fmap_empty. constructor; try by (intros ? ? * Hx; rewrite lookup_empty in Hx).
    + split; [apply NoDup_nil_2|]. by intros ? ? ?%elem_of_nil.
    + by intros ? ?%elem_of_nil.
  - intros k kp Hx. by rewrite lookup_empty in Hx.
  - intros _. by left.
  - done.
  - exact Hm.
  - constructor.
Qed.

(** ** Properties *)

(** C1: a device grown from [NewDevice], with an MTU that is not negative, panics in
    no event but one.  Whatever arrives from the TUN device and the network, however the
    encryption and decryption workers, the sequential routines, the timers and the steps of
    the handshake workers interleave, and whatever is reconfigured meanwhile, either
    every event runs to its end and the device is well-formed (no dangling peer or
    keypair, no container in two places, a routing table that is a table, nonces within
    the limit), or the run stops at a handshake worker that still runs after [Close] and
    inserts the first entry into the closed rate limiter, a send on a closed channel; see
    [insert_after_close].  Without a [Close] every event runs to its end.  (The locks
    are not modelled: a step takes its locks at once, and never waits for one.) *)
Theorem device_never_panics (mtu : option Z) (w : World) (es : list event) :
  started mtu w -> 0 <= d_mtu (dev w) -> Forall eventOk es ->
  ((exists works w', runEvents es [] w = Some (works, w') /\ wf [] [] (dev w')) \/ stopsAt es [] w)
  /\ (EvClose ∉ es -> exists works w', runEvents es [] w = Some (works, w') /\ wf [] [] (dev w')).
Proof.
  intros Hs Hm He. pose proof (wf_NewDevice _ _ Hs Hm) as H.
  assert (d_state (dev w) <> deviceStateClosed) as Hst.
  { unfold started, NewDevice in Hs. cbn in Hs. by injection Hs as <-. }
  destruct (runEvents_spec es [] w H ltac:(by apply Forall_nil) He) as [?|[? Hc]]; [tauto|]. split; [by right|].
  intros Hn. by apply Hc in Hst.
Qed.

(** C35: the states of a device.  Closed is absorbing: whatever is asked, nothing
    changes.  Asking for the state the device is in, or for closed, changes
    nothing.  Otherwise the device ends in the state asked for if there was no
    error, and down if there was one; [Close] always ends closed. *)
Theorem changeState_correct (want : deviceState) (w : World) :
  wf [] [] (dev w) ->
  (exists ok w', changeState want w = Some (ok, w') /\
    (d_state (dev w) = deviceStateClosed -> ok = true /\ w' = w) /\
    (want = d_state (dev w) -> ok = true /\ w' = w) /\
    (d_state (dev w) <> deviceStateClosed -> want = deviceStateUp \/ want = deviceStateDown ->
      want <> d_state (dev w) -> d_state (dev w') = if ok then want else deviceStateDown)) /\
  exists w', CloseDevice w = Some (tt, w') /\ d_state (dev w') = deviceStateClosed.
Proof.
  intros H. split.
  - destruct (runs_exists _ _ _ (changeState_runs want w H)) as (ok & w' & E & _ & _ & Hc).
    exists ok, w'. split; [done|]. destruct (decide _) as [Hd|Hd].
    + split_and!; [done|done|]. intros H1 H2 H3. exfalso. destruct Hd as [?|[?| ->]]; [done|done|]. naive_solver.
    + split_and!; [naive_solver|naive_solver|done].
  - destruct (runs_exists _ _ _ (whole_close w H)) as ([] & w' & E & _ & Hc). by exists w'.
Qed.

End Machine.

(** ** Witnesses *)

#[local] Delimit Scope string_scope with string.

Definition fresh_device : Device :=
  match NewDevice (Some 1420) with Some d => d | None => sample_device (sample_peer false) end.
Definition fresh_world : World := mkWorld fresh_device 0 [] [] [] [] [] [] [].

(** A configuration in the text of the protocol: the device, and a peer with an
    endpoint and two prefixes. *)
Definition sample_config : bytes :=
  keyf "private_key" (replicate 32 7) ++ sendf "listen_port" (of_string "51820") ++ sendf "fwmark" (of_string "7") ++
  sendf "replace_peers" (of_string "true") ++ keyf "public_key" (replicate 32 8) ++
  sendf "preshared_key" (hexEncode (replicate 32 5)) ++ sendf "endpoint" (of_string "192.0.2.7:51820") ++
  sendf "persistent_keepalive_interval" (of_string "25") ++ sendf "replace_allowed_ips" (of_string "true") ++
  sendf "allowed_ip" (of_string "10.0.0.0/8") ++ sendf "allowed_ip" (of_string "2001:db8::/32") ++
  sendf "allowed_ip" (of_string "-2001:db8::/32") ++ sendf "protocol_version" (of_string "1") ++ [10].

(** A key, a port and a peer are configured, the interface goes up, packets and
    noise arrive, timers fire, and everything is closed. *)
Definition sample_run : list event :=
  [EvEnv second [Some (replicate 32 7); None] [3] [SendErr] [true; true; true; false] [Some 51820] [1%nat];
   EvIpcSet sample_config; EvPrivateKey (replicate 32 9); EvInterface true true false (Some 1280);
   EvUDP [([4; 0; 0; 0] ++ zeros 40, sample_endpoint); (1 :: zeros 147, sample_endpoint)]; EvHandshake; EvWorker 0; EvLimiterTick;
   EvTUN [[69; 0; 0; 20]; 69 :: zeros 15 ++ [10; 1; 2; 3]]; EvTimer TRetransmit 1; EvKeepalives; EvMark 7; EvIpcGet;
   EvSend 1; EvReceive 1; EvRemovePeer (replicate 32 8); EvDown; EvClose; EvUp].

(** Initiations under load, the second with the cookie that the reply to the first
    draws: its worker has made its entry of the rate limiter when the device closes. *)
Definition loadSecret : bytes := replicate 32 5.
Definition loadBody : bytes := 1 :: zeros 115.
Definition loadMAC1 : bytes := blake2s128 (Crypto := toyCrypto) zeroKey loadBody.
Definition loadMAC2 : bytes :=
  blake2s128 (Crypto := toyCrypto) (blake2s128 (Crypto := toyCrypto) loadSecret (DstToBytes sample_endpoint)) (loadBody ++ loadMAC1).
Definition closing_run : list event :=
  let noise := (loadBody ++ loadMAC1 ++ zeros 16, sample_endpoint) in
  [EvEnv 1 [Some loadSecret; Some (zeros 24)] [] [] [] [] [];
   EvUDP (noise :: (loadBody ++ loadMAC1 ++ loadMAC2, sample_endpoint) :: replicate 130 noise);
   EvHandshake; EvHandshake; EvWorker 0; EvWorker 0].

Definition panicsNext (es : list event) (e : event) : option bool :=
  match runEvents (C := toyCrypto) es [] fresh_world with
  | Some (works, w) => Some (bool_decide (runEvent (C := toyCrypto) e works w = None))
  | None => None
  end.
#[export] Instance runs_None_dec {S A} (o : option (A * S)) : Decision (o = None).
Proof. destruct o as [x|]; [by right|by left]. Defined.

Example insert_after_close :
  panicsNext (closing_run ++ [EvClose]) (EvWorker 0) = Some true /\ panicsNext closing_run (EvWorker 0) = Some false.
Proof. split; vm_compute; reflexivity. Qed.

Lemma device_never_panics_witness :
  ((exists works w', runEvents (C := toyCrypto) sample_run [] fresh_world = Some (works, w') /\ wf [] [] (dev w')) \/
   stopsAt (C := toyCrypto) sample_run [] fresh_world) /\
  exists works w', runEvents (C := toyCrypto) closing_run [] fresh_world = Some (works, w') /\ wf [] [] (dev w').
Proof.
  split.
  - apply (device_never_panics (C := toyCrypto) (Some 1420)); [reflexivity|vm_compute; discriminate|].
    apply (bool_decide_unpack _). vm_compute. exact I.
  - apply (device_never_panics (C := toyCrypto) (Some 1420)); [reflexivity|vm_compute; discriminate| |].
    + apply (bool_decide_unpack _). vm_compute. exact I.
    + unfold closing_run. cbv zeta. repeat (apply not_elem_of_cons; split; [discriminate|]). apply not_elem_of_nil.
Defined.

Lemma changeState_correct_witness :
  (exists ok w', changeState (C := toyCrypto) deviceStateUp fresh_world = Some (ok, w') /\
    (d_state (dev fresh_world) = deviceStateClosed -> ok = true /\ w' = fresh_world) /\
    (deviceStateUp = d_state (dev fresh_world) -> ok = true /\ w' = fresh_world) /\
    (d_state (dev fresh_world) <> deviceStateClosed -> deviceStateUp = deviceStateUp \/ deviceStateUp = deviceStateDown ->
      deviceStateUp <> d_state (dev fresh_world) ->
      d_state (dev w') = if ok then deviceStateUp else deviceStateDown)) /\
  exists w', CloseDevice (C := toyCrypto) fresh_world = Some (tt, w') /\ d_state (dev w') = deviceStateClosed.
Proof.
  apply (changeState_correct (C := toyCrypto) deviceStateUp fresh_world).
  apply (wf_NewDevice (Some 1420)); [reflexivity|vm_compute; discriminate].
Defined.
