(* ===== verification/UapiSpec.v ===== *)
(** What the configuration protocol promises: texts are read line by line, a
    refused line changes nothing and ends the operation, and the [set] operation
    on a device that is down implements an abstract configuration machine. *)
From S2P Require Import Prelude Replay Tai64n Ratelimiter Messages NoiseHelpers ToyCrypto Text Netip Cookie AllowedIPs.
From S2P Require Import TrieBits Trie Routing RoutingSpec State IndexTable Timers Handshake Session.
From S2P Require Import Initiations Send Staging Receive Device Uapi Queues WellFormed Safety DeviceSafety UapiSafety Machine.

#[local] Delimit Scope string_scope with string.

(** ** Abstract specification *)

Record settings := mkSettings { s_psk : bytes; s_endpoint : option Endpoint; s_keepalive : Z }.
Definition noSettings : settings := mkSettings zeroKey None 0.

(** Peers by public key, and prefixes to public keys. *)
Record config := mkConfig { g_peers : gmap bytes settings; g_routes : gmap (bool * list bool) bytes }.
#[export] Instance config_settable : Settable config := fun g => mkConfig (g_peers g) (g_routes g).

(** The peer that the lines are about: none yet, one to be ignored, or a peer
    that is or is not new. *)
Inductive cursor := Nobody | Ignored | At (pk : bytes) (created : bool).

Inductive command :=
  | ReplacePeers
  | PublicKey (pk : bytes)
  | UpdateOnly
  | RemoveThis
  | PresharedKey (psk : bytes)
  | SetEndpoint (a : Addr) (port : Z)
  | Keepalive (secs : Z)
  | ReplaceAllowedIPs
  | AllowedIP (add : bool) (ip : bytes) (c : nat)
  | ProtocolVersion.

Definition withoutRoutes (pk : bytes) (g : config) : config :=
  g <| g_routes ::= filter (fun kv => kv.2 <> pk) |>.
Definition withoutPeer (pk : bytes) (g : config) : config :=
  withoutRoutes pk g <| g_peers ::= delete pk |>.
Definition onSettings (pk : bytes) (f : settings -> settings) (g : config) : config :=
  g <| g_peers ::= alter f pk |>.
Definition withRoute (pk : bytes) (add : bool) (q : bool * list bool) (g : config) : config :=
  if add then g <| g_routes ::= <[q := pk]> |>
  else if decide (g_routes g !! q = Some pk) then g <| g_routes ::= delete q |> else g.

(** One command of a device with public key [own]; [None] is a refusal. *)
Definition specCommand (own : bytes) (c : command) (cur : cursor) (g : config) : option (cursor * config) :=
  match c, cur with
  | PublicKey pk, _ =>
      if decide (own = pk) then Some (Ignored, g)
      else if decide (is_Some (g_peers g !! pk)) then Some (At pk false, g)
      else if decide (MaxPeers <= Z.of_nat (size (g_peers g))) then None
      else Some (At pk true, g <| g_peers ::= <[pk := noSettings]> |>)
  | ReplacePeers, Nobody => Some (Nobody, mkConfig ∅ ∅)
  | ReplacePeers, _ | _, Nobody => None
  | _, Ignored => Some (Ignored, g)
  | UpdateOnly, At pk created => Some (if created then (Ignored, withoutPeer pk g) else (cur, g))
  | RemoveThis, At pk _ => Some (Ignored, withoutPeer pk g)
  | PresharedKey psk, At pk _ => Some (cur, onSettings pk (fun s => mkSettings psk (s_endpoint s) (s_keepalive s)) g)
  | SetEndpoint a port, At pk _ =>
      Some (cur, onSettings pk (fun s => mkSettings (s_psk s) (Some (mkEndpoint (a_bytes a ++ a_zone a) port [])) (s_keepalive s)) g)
  | Keepalive secs, At pk _ => Some (cur, onSettings pk (fun s => mkSettings (s_psk s) (s_endpoint s) secs) g)
  | ReplaceAllowedIPs, At pk _ => Some (cur, withoutRoutes pk g)
  | AllowedIP add ip c, At pk _ => Some (cur, withRoute pk add (keyOf ip c) g)
  | ProtocolVersion, At _ _ => Some (cur, g)
  end.

(** The configuration at the end, or at the first command that is refused. *)
Fixpoint specSet (own : bytes) (cs : list command) (cur : cursor) (g : config) : config * bool :=
  match cs with
  | [] => (g, true)
  | c :: cs =>
      match specCommand own c cur g with
      | Some (cur, g) => specSet own cs cur g
      | None => (g, false)
      end
  end.

(** The text of a command. *)
Definition commandKey (c : command) : String.string :=
  match c with
  | ReplacePeers => "replace_peers"
  | PublicKey _ => "public_key"
  | UpdateOnly => "update_only"
  | RemoveThis => "remove"
  | PresharedKey _ => "preshared_key"
  | SetEndpoint _ _ => "endpoint"
  | Keepalive _ => "persistent_keepalive_interval"
  | ReplaceAllowedIPs => "replace_allowed_ips"
  | AllowedIP _ _ _ => "allowed_ip"
  | ProtocolVersion => "protocol_version"
  end%string.
Definition commandValue (c : command) : bytes :=
  match c with
  | ReplacePeers | UpdateOnly | RemoveThis | ReplaceAllowedIPs => of_string "true"
  | PublicKey k | PresharedKey k => hexEncode k
  | SetEndpoint a port => addrPortString a port
  | Keepalive secs => Itoa secs
  | AllowedIP add ip c => (if add then [] else [45]) ++ prefixString ip (Z.of_nat c)
  | ProtocolVersion => of_string "1"
  end.
Definition commandText (c : command) : bytes := of_string (commandKey c) ++ 61 :: commandValue c.
Definition configText (cs : list command) : bytes := concat (line ∘ commandText <$> cs).

Definition key32 (k : bytes) : Prop := length k = 32%nat /\ all_bytes k.

(** Commands that have a text, each of at most a buffer. *)
Definition validCommand (c : command) : Prop :=
  zlen (commandText c) < 65536 /\
  match c with
  | PublicKey k | PresharedKey k => key32 k
  | SetEndpoint a port => addrOk a /\ Forall (fun x => x <> 10 /\ x <> 13) (a_zone a) /\ 0 <= port < 65536
  | Keepalive secs => 0 <= secs < 65536
  | AllowedIP _ ip c => addrOk (mkAddr ip []) /\ (c <= 8 * length ip)%nat
  | _ => True
  end.
#[export] Instance validCommand_dec c : Decision (validCommand c).
Proof. unfold validCommand. apply and_dec; [apply _|]. destruct c; unfold key32, addrOk; apply _. Defined.

(** ** The device and the configuration *)

Definition settingsOf (x : Peer) : settings :=
  mkSettings (presharedKey (handshake x)) (ep_val (endpoint x)) (persistentKeepaliveInterval x).

(** Routes to peers, and to their keys. *)
Definition tracks (keys : gmap bytes peer_id) (r : routes) (rs : gmap (bool * list bool) bytes) : Prop :=
  (forall q p, r !! q = Some p -> exists pk, keys !! pk = Some p /\ rs !! q = Some pk) /\
  (forall q, r !! q = None -> rs !! q = None).

(** A device in some state, its peers stopped, holds a configuration. *)
Record holdsIn (st : deviceState) (own : bytes) (d : Device) (g : config) : Prop := {
  h_state : d_state d = st;
  h_own : d_publicKey d = own;
  h_peer : forall pk p, d_keyMap d !! pk = Some p -> exists x, d_peers d !! p = Some x /\
    remoteStatic (handshake x) = pk /\ isRunning x = false /\ length (presharedKey (handshake x)) = 32%nat /\
    g_peers g !! pk = Some (settingsOf x);
  h_none : forall pk, d_keyMap d !! pk = None -> g_peers g !! pk = None;
  h_routes : exists r, represents (d_allowedips d) r /\ tracks (d_keyMap d) r (g_routes g) }.
Arguments h_state {st} own d g _.
Arguments h_own {st} own d g _.
Arguments h_peer {st} own d g _.
Arguments h_none {st} own d g _.
Arguments h_routes {st} own d g _.

(** The same of a device that is down. *)
Definition holds : bytes -> Device -> config -> Prop := holdsIn deviceStateDown.

(** The state of the loop and the cursor. *)
Definition pointsAt (d : Device) (sp : ipcSetPeer) (dc : bool) (cur : cursor) : Prop :=
  match cur with
  | Nobody => sp_peer sp = None /\ dc = true
  | Ignored => dc = false /\ dummy sp = true /\ exists p x, sp_peer sp = Some p /\ d_peers d !! p = Some x /\
      length (presharedKey (handshake x)) = 32%nat /\ forall pk, d_keyMap d !! pk <> Some p
  | At pk created => dc = false /\ dummy sp = false /\ sp_created sp = created /\
      exists p, sp_peer sp = Some p /\ d_keyMap d !! pk = Some p
  end.

(** ** Lines *)

(** The lines the scanner gives, and whether it stops at one that is too long. *)
Fixpoint scanAll (fuel : nat) (s : bytes) : list bytes * bool :=
  match fuel with
  | O => ([], false)
  | S fuel =>
      match Scan s with
      | ScanLine l s => let '(ls, long) := scanAll fuel s in (l :: ls, long)
      | ScanEnd => ([], false)
      | ScanTooLong => ([], true)
      end
  end.
Definition linesOf (s : bytes) : list bytes * bool := scanAll (S (length s)) s.

Section UapiSpec.
Context `{C : Crypto}.

(** The lines one after the other, until one returns. *)
Fixpoint setLines (ls : list bytes) (sp : ipcSetPeer) (dc : bool) : M verdict :=
  match ls with
  | [] => ret (GoesOn sp dc)
  | l :: ls =>
      let* v := setLine sp dc l in
      match v with GoesOn sp dc => setLines ls sp dc | Returns err => ret (Returns err) end
  end.

Definition finish (long : bool) (v : verdict) : M (option IPCError) :=
  match v with
  | GoesOn sp _ => handlePostConfig sp;;; ret (if long then Some IpcErrorIO else None)
  | Returns err => ret err
  end.

Lemma setLoop_lines fuel : forall sp dc s w, (length s < fuel)%nat ->
  setLoop fuel sp dc s w =
    (let '(ls, long) := scanAll fuel s in let* v := setLines ls sp dc in finish long v) w.
Proof.
  induction fuel as [|fuel IH]; intros sp dc s w Hf; [lia|]. cbn [setLoop scanAll].
  destruct (Scan s) as [l rest| |] eqn:Es; [|done|done]. apply Scan_shrinks in Es.
  specialize (fun sp dc w => IH sp dc rest w ltac:(lia)). destruct (scanAll fuel rest) as [ls long].
  cbn [setLines]. rewrite !bind_eq. destruct (setLine sp dc l w) as [[[sp' dc'|err] w']|]; [apply IH|done..].
Qed.

Lemma IpcSet_lines s w :
  IpcSet s w = (let '(ls, long) := linesOf s in let* v := setLines ls newSetPeer true in finish long v) w.
Proof. apply setLoop_lines. lia. Qed.

(** ** A refused line *)

Definition refusal (e : IPCError) : Prop := e = IpcErrorInvalid \/ e = IpcErrorProtocol.

Lemma bind_some {A B} (m : M A) (k : A -> M B) w b w' : bind m k w = Some (b, w') ->
  exists a w1, m w = Some (a, w1) /\ k a w1 = Some (b, w').
Proof. rewrite bind_eq. destruct (m w) as [[a w1]|]; [eauto|done]. Qed.

Lemma then_ret {A B} (m : M A) (a b : B) w w' : (m;;; ret a) w = Some (b, w') -> b = a.
Proof. intros (? & ? & _ & E)%bind_some. by injection E. Qed.

Lemma refused_device key value w e w' : handleDeviceLine key value w = Some (Some e, w') -> refusal e -> w' = w.
Proof.
  unfold handleDeviceLine. intros E He.
  repeat match type of E with
  | (if ?b then _ else _) _ = _ => destruct b
  | (let '(_, _) := ?p in _) _ = _ => destruct p
  | (match ?o with Some _ => _ | None => _ end) _ = _ => destruct o
  end; try (by injection E); try (by apply then_ret in E).
  - apply bind_some in E as (? & ? & _ & E). apply bind_some in E as (ok & ? & _ & E).
    destruct ok; [by injection E|]. injection E as <- <-. by destruct He.
  - apply bind_some in E as (ok & ? & _ & E). destruct ok; [by injection E|]. injection E as <- <-. by destruct He.
Qed.

Lemma modPeer_id p f w x : d_peers (dev w) !! p = Some x -> f x = x -> modPeer p f w = Some (tt, w).
Proof.
  intros Ex Ef. rewrite (modPeer_some _ _ _ _ Ex), Ef. destruct w as [d]. destruct d. cbn in *.
  by rewrite (insert_id _ _ _ Ex).
Qed.

Lemma loadExactHex_refused dst src psk : loadExactHex dst src = (psk, false) -> psk = dst.
Proof.
  unfold loadExactHex. destruct (hexDecode src); [|by intros [= <-]].
  destruct (decide _); [by intros [= <-]|done].
Qed.

Lemma refused_peer sp key value w sp' e w' :
  handlePeerLine sp key value w = Some ((sp', Some e), w') -> refusal e -> w' = w.
Proof.
  unfold handlePeerLine. destruct (sp_peer sp) as [p|]; [|done]. cbv zeta. intros E He.
  assert (forall (m : M ipcSetPeer) w1, bind m (fun q => ret (q, None)) w1 <> Some ((sp', Some e), w')) as Hdrop.
  { intros m w1 (q & w2 & _ & E1)%bind_some. by injection E1. }
  destruct (named key "preshared_key") eqn:Ek.
  - assert (named key "update_only" = false /\ named key "remove" = false) as [E1 E2].
    { unfold named in *. apply bytes_eqb_true in Ek as ->. done. }
    rewrite E1, E2 in E. apply bind_some in E as (x & w1 & Ex & E). unfold getPeer in Ex.
    destruct (d_peers (dev w) !! p) as [y|] eqn:Ey; [|done]. injection Ex as <- <-.
    destruct (presharedKeyFromHex _ _) as [psk ok] eqn:Ep. apply bind_some in E as ([] & w1 & Em & E).
    destruct ok; [by injection E|]. injection E as <- <- <-.
    apply loadExactHex_refused in Ep as ->. unfold modHs in Em. erewrite modPeer_id in Em; [by injection Em|exact Ey|].
    destruct y as [? ? h]. by destruct h.
  - repeat match type of E with
    | (if ?b then _ else _) _ = _ => destruct b
    | (let '(_, _) := ?p in _) _ = _ => destruct p
    | (match ?o with Some _ => _ | None => _ end) _ = _ => destruct o
    end; try (by injection E); try (by apply then_ret in E); try (by apply Hdrop in E).
    apply bind_some in E as (? & ? & _ & E). by apply then_ret in E.
Qed.

Lemma refused_publicKey sp value w sp' e w' :
  handlePublicKeyLine sp value w = Some ((sp', Some e), w') -> w' = w.
Proof.
  unfold handlePublicKeyLine. destruct (publicKeyFromHex _ _) as [pk ok]. destruct (negb ok); [by intros [= _ _ <-]|].
  intros E. apply bind_some in E as (d & w1 & Ed & E). injection Ed as <- <-. cbv zeta in E.
  apply bind_some in E as (found & w1 & Ef & E). destruct found as [p|]; [by injection E|].
  destruct (keyEquals _ _).
  { apply bind_some in Ef as (? & ? & _ & Ef). by injection Ef. }
  assert (w1 = w) as -> by (unfold LookupPeer in Ef; apply bind_some in Ef as (? & ? & Ed & Ef); injection Ed as <- <-; by injection Ef).
  apply bind_some in E as (made & w1 & Em & E). destruct made as [p|]; [by injection E|]. injection E as <- <- <-.
  unfold NewPeer in Em. apply bind_some in Em as (d & w2 & Ed & Em). injection Ed as <- <-.
  destruct (isClosed _); [by injection Em|]. destruct (_ >=? _); [by injection Em|].
  destruct (d_keyMap _ !! pk); [by injection Em|]. destruct (sharedSecret _ _). by apply then_ret in Em.
Qed.

(** What is done to a device before a line is refused: the peer before it is
    finished, when the line is about a new one. *)
Definition beforeRefusal (sp : ipcSetPeer) (l : bytes) : M unit :=
  match cutAt 61 l with
  | Some (key, _) => when (named key "public_key") (handlePostConfig sp)
  | None => ret tt
  end.

Lemma refused_line sp dc l w e w' : setLine sp dc l w = Some (Returns (Some e), w') -> refusal e ->
  beforeRefusal sp l w = Some (tt, w').
Proof.
  intros E He. unfold setLine in E. unfold beforeRefusal. destruct l as [|c l].
  { by apply then_ret in E. }
  destruct (cutAt 61 (c :: l)) as [[key value]|]; [|by injection E as <- <-].
  destruct (named key "public_key"); cbn [when].
  - apply bind_some in E as ([] & w1 & Ep & E). rewrite Ep. apply bind_some in E as ([sp' err] & w2 & Eh & E).
    destruct err; [|by injection E]. injection E as <- <-. by apply refused_publicKey in Eh as ->.
  - destruct dc.
    + apply bind_some in E as (err & w2 & Eh & E). destruct err; [|by injection E]. injection E as <- <-.
      by apply refused_device in Eh as ->.
    + apply bind_some in E as ([sp' err] & w2 & Eh & E). destruct err; [|by injection E]. injection E as <- <-.
      by apply refused_peer in Eh as ->.
Qed.

(** The call that reports a port, or the socket of a mark, in use. *)
Definition busyLine (l : bytes) : M bool :=
  match cutAt 61 l with
  | Some (key, value) =>
      if named key "listen_port" then
        match ParseUint value 16 with
        | Some port => modD (fun d => d <| d_port := u16 port |>);;; BindUpdate
        | None => ret true
        end
      else if named key "fwmark" then
        match ParseUint value 32 with Some mark => BindSetMark (u32 mark) | None => ret true end
      else ret true
  | None => ret true
  end.

Lemma device_errors key value l w e w' : cutAt 61 l = Some (key, value) -> handleDeviceLine key value w = Some (Some e, w') ->
  refusal e \/ e = IpcErrorPortInUse /\ busyLine l w = Some (false, w').
Proof.
  intros El. unfold handleDeviceLine, busyLine. rewrite El. intros E.
  destruct (named key "private_key").
  { destruct (privateKeyFromMaybeZeroHex _ _) as [sk ok]. destruct (negb ok); [injection E as <- <-; left; by left|by apply then_ret in E]. }
  destruct (named key "listen_port").
  { destruct (ParseUint value 16) as [port|]; [|injection E as <- <-; left; by left]. right.
    apply bind_some in E as ([] & w1 & E1 & E). apply bind_some in E as (ok & w2 & E2 & E). destruct ok; [by injection E|].
    injection E as <- <-. split; [done|]. by rewrite bind_eq, E1. }
  destruct (named key "fwmark").
  { destruct (ParseUint value 32) as [mark|]; [|injection E as <- <-; left; by left]. right.
    apply bind_some in E as (ok & w2 & E2 & E). destruct ok; [by injection E|]. by injection E as <- <-. }
  destruct (named key "replace_peers"); [|injection E as <- <-; left; by left].
  destruct (negb _); [injection E as <- <-; left; by left|by apply then_ret in E].
Qed.

Lemma peer_errors sp key value w sp' e w' : handlePeerLine sp key value w = Some ((sp', Some e), w') -> refusal e.
Proof.
  unfold handlePeerLine. destruct (sp_peer sp) as [p|]; [|done]. cbv zeta. intros E.
  assert (forall (m : M ipcSetPeer) w1, bind m (fun q => ret (q, None)) w1 <> Some ((sp', Some e), w')) as Hdrop.
  { intros m w1 (q & w2 & _ & E1)%bind_some. by injection E1. }
  destruct (named key "preshared_key") eqn:Ek.
  - assert (named key "update_only" = false /\ named key "remove" = false) as [E1 E2].
    { unfold named in *. apply bytes_eqb_true in Ek as ->. done. }
    rewrite E1, E2 in E. apply bind_some in E as (x & w1 & _ & E).
    destruct (presharedKeyFromHex _ _) as [psk ok]. apply bind_some in E as ([] & w2 & _ & E).
    destruct ok; [by injection E|]. injection E as <- <- <-. by left.
  - repeat match type of E with
    | (if ?b then _ else _) _ = _ => destruct b
    | (let '(_, _) := ?p in _) _ = _ => destruct p
    | (match ?o with Some _ => _ | None => _ end) _ = _ => destruct o
    end; try (injection E as <- <- <-; by left); try (by injection E); try (by apply then_ret in E); try (by apply Hdrop in E).
    apply bind_some in E as (? & ? & _ & E). by apply then_ret in E.
Qed.

Lemma publicKey_errors sp value w sp' e w' : handlePublicKeyLine sp value w = Some ((sp', Some e), w') -> refusal e.
Proof.
  unfold handlePublicKeyLine. destruct (publicKeyFromHex _ _) as [pk ok]. destruct (negb ok); [intros [= _ <- _]; by left|].
  intros E. apply bind_some in E as (d & w1 & _ & E). cbv zeta in E. apply bind_some in E as (found & w2 & _ & E).
  destruct found as [p|]; [by injection E|]. apply bind_some in E as (made & w3 & _ & E). destruct made as [p|]; [by injection E|].
  injection E as <- <- <-. by left.
Qed.

(** The errors of a line, and the state each leaves. *)
Lemma line_errors sp dc l w e w' : setLine sp dc l w = Some (Returns (Some e), w') ->
  refusal e /\ beforeRefusal sp l w = Some (tt, w') \/ e = IpcErrorPortInUse /\ dc = true /\ busyLine l w = Some (false, w').
Proof.
  intros E. assert (refusal e -> refusal e /\ beforeRefusal sp l w = Some (tt, w')) as Hr
    by (intros He; split; [done|by eapply refused_line]).
  pose proof E as E0. unfold setLine in E. destruct l as [|c l]; [by apply then_ret in E|].
  destruct (cutAt 61 (c :: l)) as [[key value]|] eqn:El; [|injection E as <- <-; left; apply Hr; by right].
  destruct (named key "public_key").
  - left. apply Hr. apply bind_some in E as ([] & w1 & _ & E). apply bind_some in E as ([sp' err] & w2 & Eh & E).
    destruct err; [|by injection E]. injection E as <- <-. by eapply publicKey_errors.
  - destruct dc.
    + apply bind_some in E as (err & w2 & Eh & E). destruct err; [|by injection E]. injection E as <- <-.
      destruct (device_errors _ _ _ _ _ _ El Eh) as [?|[? ?]]; [left; by apply Hr|by right].
    + left. apply Hr. apply bind_some in E as ([sp' err] & w2 & Eh & E). destruct err; [|by injection E]. injection E as <- <-.
      by eapply peer_errors.
Qed.

Lemma refused_lines ls : forall sp dc w e w', setLines ls sp dc w = Some (Returns (Some e), w') ->
  exists pre l post sp' dc' w1, ls = pre ++ l :: post /\ setLines pre sp dc w = Some (GoesOn sp' dc', w1) /\
    setLine sp' dc' l w1 = Some (Returns (Some e), w').
Proof.
  induction ls as [|l ls IH]; intros sp dc w e w' E; [by injection E|]. cbn [setLines] in E.
  apply bind_some in E as ([sp' dc'|err] & w1 & El & E).
  - destruct (IH _ _ _ _ _ E) as (pre & l' & post & sp2 & dc2 & w2 & -> & E1 & E2).
    exists (l :: pre), l', post, sp2, dc2, w2. split_and!; [done| |done]. cbn [setLines]. by rewrite bind_eq, El.
  - injection E as -> ->. by exists [], l, ls, sp, dc, w.
Qed.

(** ** The text of commands *)

Lemma Scan_line l rest : zlen l < 65536 -> 10 ∉ l -> 13 ∉ l ->
  Scan (line l ++ rest) = ScanLine l rest.
Proof.
  intros Hl H10 H13. assert (length l < MaxScanTokenSize)%nat as Hn by (unfold MaxScanTokenSize; lia).
  unfold Scan, line. rewrite <- app_assoc. cbn [app].
  rewrite take_app_ge by lia. destruct (MaxScanTokenSize - length l)%nat as [|n] eqn:En; [lia|].
  rewrite firstn_cons, cutAt_app by done. f_equal.
  - unfold dropCR. destruct (reverse l) as [|z r] eqn:Er; [done|].
    assert (z <> 13) as Hz.
    { intros ->. apply H13. apply elem_of_reverse. rewrite Er. by left. }
    repeat (destruct z as [|z|z]; try done).
  - rewrite drop_app_ge by lia. by replace (S (length l) - length l)%nat with 1%nat by lia.
Qed.

Lemma free_of_string s c : Forall (fun x => x <> c) (of_string s) -> c ∉ of_string s.
Proof. intros H Hc. rewrite Forall_forall in H. by apply (H c Hc). Qed.

Lemma free_app (c : Z) a b : c ∉ a -> c ∉ b -> c ∉ a ++ b.
Proof. rewrite elem_of_app. tauto. Qed.

Lemma addrString_free a c : addrOk a -> (forall x, addrChar x -> x <> c) -> c <> 37 -> c ∉ a_zone a -> c ∉ addrString a.
Proof.
  intros Ha Hc Hp Hz. rewrite addrString_body by done. apply free_app; [by apply addrBody_free|].
  unfold zoneSuffix. destruct (a_zone a); [apply not_elem_of_nil|]. rewrite not_elem_of_cons. done.
Qed.

Lemma commandText_free c x : validCommand c -> x = 10 \/ x = 13 -> x ∉ commandText c.
Proof.
  intros [_ Hv] Hx.
  assert (forall y, addrChar y -> y <> x) as Ha by (apply addrChar_ne; destruct Hx as [-> | ->]; first [done|lia]).
  assert (isDigit x = false /\ hexDigit x = None) as [Hd Hh] by (by destruct Hx as [-> | ->]).
  assert (forall y, (y =? 10) || (y =? 13) = false -> x <> y) as Hne.
  { intros y Hy%orb_false_iff. destruct Hy as [?%Z.eqb_neq ?%Z.eqb_neq]. destruct Hx; congruence. }
  assert (forall s, Forall (fun y => (y =? 10) || (y =? 13) = false) (of_string s) -> x ∉ of_string s) as Hs.
  { intros s Hf. apply free_of_string. eapply Forall_impl; [exact Hf|]. intros y Hy Heq. by apply (Hne y). }
  apply free_app; [destruct c; apply Hs; by repeat constructor|]. apply not_elem_of_cons. split; [by apply Hne|].
  destruct c; cbn [commandValue]; repeat (apply free_app);
    try (by apply Hs; repeat constructor); try (by apply hexEncode_free; [apply Hv|]); try (apply Itoa_free; [lia|done]).
  - destruct Hv as (Hok & Hz & Hp). assert (x ∉ addrString a) as Hf.
    { apply addrString_free; [done|done|by intros ->; destruct Hx|]. intros Hin. rewrite Forall_forall in Hz. destruct (Hz x Hin). by destruct Hx. }
    unfold addrPortString. destruct (_ =? _)%nat; repeat apply free_app; try done; try (apply Itoa_free; [lia|done]);
      repeat (rewrite not_elem_of_cons; split; [by apply Hne|]); apply not_elem_of_nil.
  - destruct add; [apply not_elem_of_nil|]. rewrite not_elem_of_cons. split; [by apply Hne|apply not_elem_of_nil].
  - apply addrString_free; [apply Hv|done|by intros ->; destruct Hx|apply not_elem_of_nil].
  - rewrite not_elem_of_cons. split; [by apply Hne|apply not_elem_of_nil].
Qed.

Lemma scanAll_config cs : Forall validCommand cs -> forall fuel, (length (configText cs) < fuel)%nat ->
  scanAll fuel (configText cs) = (commandText <$> cs, false).
Proof.
  induction 1 as [|c cs Hc Hv IH]; intros fuel Hf; (destruct fuel as [|fuel]; [lia|]); [done|].
  cbn [scanAll]. unfold configText in *. cbn [fmap list_fmap concat] in *.
  unfold compose at 1. rewrite Scan_line by (try apply Hc; apply commandText_free; auto).
  rewrite IH; [done|]. rewrite length_app in Hf. unfold compose at 1, line at 1 in Hf. rewrite length_app in Hf. cbn [length] in Hf. lia.
Qed.

Lemma linesOf_config cs : Forall validCommand cs -> linesOf (configText cs) = (commandText <$> cs, false).
Proof. intros Hv. apply scanAll_config; [done|lia]. Qed.

(** A line of another kind before the commands. *)
Lemma linesOf_before l cs : zlen l < 65536 -> 10 ∉ l -> 13 ∉ l -> Forall validCommand cs ->
  linesOf (line l ++ configText cs) = (l :: (commandText <$> cs), false).
Proof.
  intros Hl H10 H13 Hv. unfold linesOf. cbn [scanAll]. rewrite Scan_line by done. rewrite scanAll_config; [done|done|].
  unfold line. rewrite !length_app. cbn [length]. lia.
Qed.

(** ** The device holds the configuration *)

Section Holds.
Context (st : deviceState) (Hopen : st <> deviceStateClosed).
#[local] Abbreviation holds := (holdsIn st).


Lemma copy_full_key {A} (dst src : list A) : length src = length dst -> copy_at dst 0 src = src.
Proof.
  intros E. unfold copy_at. rewrite take_0, (take_ge src), drop_ge by lia. apply app_nil_r.
Qed.

Lemma key_roundtrip dst k : length dst = 32%nat -> key32 k -> loadExactHex dst (hexEncode k) = (k, true).
Proof.
  intros Hd [Hk Hb]. unfold loadExactHex. rewrite hexDecode_hexEncode by done.
  rewrite decide_False by lia. by rewrite copy_full_key by lia.
Qed.

Lemma holds_inj own d g pk pk' p : holds own d g -> d_keyMap d !! pk = Some p -> d_keyMap d !! pk' = Some p -> pk = pk'.
Proof.
  intros H E E'. destruct (h_peer _ _ _ H _ _ E) as (x & Ex & <- & _).
  destruct (h_peer _ _ _ H _ _ E') as (x' & Ex' & <- & _). congruence.
Qed.

(** A change of the settings of a peer. *)
Lemma holds_settings own d g pk p x y f : holds own d g -> d_keyMap d !! pk = Some p -> d_peers d !! p = Some x ->
  remoteStatic (handshake y) = remoteStatic (handshake x) -> isRunning y = isRunning x ->
  length (presharedKey (handshake y)) = 32%nat -> settingsOf y = f (settingsOf x) ->
  holds own (d <| d_peers ::= <[p := y]> |>) (onSettings pk f g).
Proof.
  intros H E Ex Hr Hrun Hl Hs. pose proof (holds_inj own d g) as Hinj. destruct (h_peer _ _ _ H _ _ E) as (x' & Ex' & Hk & Hrn & _ & Hg).
  rewrite Ex in Ex'. injection Ex' as <-. destruct H as [H1 H2 H3 H4 H5]. constructor; cbn; try done.
  - intros pk' p' E'. destruct (decide (p' = p)) as [->|Hp].
    + assert (pk' = pk) as -> by by eapply Hinj. exists y. rewrite lookup_insert_eq, lookup_alter_eq, Hg. cbn.
      rewrite Hs. split_and!; congruence.
    + destruct (H3 _ _ E') as (x' & ? & ? & ? & ? & ?). exists x'. rewrite lookup_insert_ne by done.
      rewrite lookup_alter_ne; [done|]. intros <-. congruence.
  - intros pk' E'. rewrite lookup_alter_ne; [by apply H4|]. intros <-. congruence.
Qed.

(** A change of a peer that is not in the configuration, or of nothing in it. *)
Lemma holds_other own d g p y : holds own d g -> (forall pk, d_keyMap d !! pk <> Some p) ->
  holds own (d <| d_peers ::= <[p := y]> |>) g.
Proof.
  intros [H1 H2 H3 H4 H5] Hp. constructor; cbn; try done. intros pk p' E.
  destruct (H3 _ _ E) as (x & ? & ?). exists x. rewrite lookup_insert_ne; [done|]. intros <-. by apply (Hp pk).
Qed.

Lemma holds_same own d g pk p x y : holds own d g -> d_keyMap d !! pk = Some p -> d_peers d !! p = Some x ->
  handshake y = handshake x -> isRunning y = isRunning x -> settingsOf y = settingsOf x ->
  holds own (d <| d_peers ::= <[p := y]> |>) g.
Proof.
  intros H E Ex Hr Hrun Hs. destruct (h_peer _ _ _ H _ _ E) as (x' & Ex' & _ & _ & Hl & Hg).
  rewrite Ex in Ex'. injection Ex' as <-. pose proof (holds_settings own d g pk p x y id H E Ex) as Hh.
  replace (onSettings pk id g) with g in Hh; [by apply Hh; rewrite ?Hr|].
  destruct g as [ps rs]. unfold onSettings. cbn. f_equal. apply map_eq. intros k. destruct (decide (k = pk)) as [->|].
  - rewrite lookup_alter_eq. by destruct (ps !! pk).
  - by rewrite lookup_alter_ne.
Qed.

(** New routes. *)
Lemma holds_routes own d g t r g' : holds own d g -> represents t r -> tracks (d_keyMap d) r (g_routes g') ->
  g_peers g' = g_peers g -> holds own (d <| d_allowedips := t |>) g'.
Proof. intros [H1 H2 H3 H4 H5] Ht Hr Hp. constructor; cbn; rewrite ?Hp; try done. by exists r. Qed.

Definition injective (keys : gmap bytes peer_id) : Prop :=
  forall pk pk' p, keys !! pk = Some p -> keys !! pk' = Some p -> pk = pk'.

Section Tracks.
Context (keys : gmap bytes peer_id) (r : routes) (rs : gmap (bool * list bool) bytes).
Context (Hi : injective keys) (Ht : tracks keys r rs).

Lemma tracks_at pk p q : keys !! pk = Some p -> r !! q = Some p <-> rs !! q = Some pk.
Proof.
  intros Ek. destruct Ht as [H1 H2]. split; intros E.
  - destruct (H1 _ _ E) as (pk' & Ek' & Er). by rewrite (Hi _ _ _ Ek Ek').
  - destruct (r !! q) as [p'|] eqn:Er; [|by rewrite H2 in E]. destruct (H1 _ _ Er) as (pk' & Ek' & Er'). congruence.
Qed.

Lemma tracks_insert pk p q : keys !! pk = Some p -> tracks keys (<[q := p]> r) (<[q := pk]> rs).
Proof.
  intros Ek. destruct Ht as [H1 H2]. split; intros q'.
  - intros p'. destruct (decide (q' = q)) as [->|]; [rewrite !lookup_insert_eq; intros [= <-]; eauto|].
    rewrite !lookup_insert_ne by done. apply H1.
  - destruct (decide (q' = q)) as [->|]; [by rewrite lookup_insert_eq|]. rewrite !lookup_insert_ne by done. apply H2.
Qed.

Lemma tracks_delete q : tracks keys (delete q r) (delete q rs).
Proof.
  destruct Ht as [H1 H2]. split; intros q'.
  - intros p' [Hq E]%lookup_delete_Some. rewrite lookup_delete_ne by done. by apply H1.
  - intros [->|E]%lookup_delete_None; [apply lookup_delete_eq|]. apply lookup_delete_None. right. by apply H2.
Qed.

Lemma tracks_filter pk p : keys !! pk = Some p ->
  tracks keys (specRemoveByPeer p r) (filter (fun kv => kv.2 <> pk) rs).
Proof.
  intros Ek. destruct Ht as [H1 H2]. unfold specRemoveByPeer. split; intros q.
  - intros p' [E Hp]%map_lookup_filter_Some. destruct (H1 _ _ E) as (pk' & Ek' & Er). exists pk'. split; [done|].
    apply map_lookup_filter_Some. split; [done|]. cbn in *. intros ->. congruence.
  - intros [E|E]%map_lookup_filter_None; apply map_lookup_filter_None; [left; by apply H2|].
    destruct (r !! q) as [p'|] eqn:Er; [|left; by apply H2]. right. intros pk' E'. cbn. intros Hn.
    apply (E p' eq_refl). cbn. intros ->. apply (tracks_at _ _ _ Ek) in Er. congruence.
Qed.

End Tracks.

Lemma runs_onRoutes {A} (m : ST AllowedIPs A) w (Q : A -> World -> Prop) :
  runs m (d_allowedips (dev w)) (fun a t => Q a (w <| dev ::= fun d => d <| d_allowedips := t |> |>)) ->
  runs (onRoutes m) w Q.
Proof. unfold runs, onRoutes. by destruct (m _) as [[]|]. Qed.

Lemma holds_injective own d g : holds own d g -> injective (d_keyMap d).
Proof. intros H pk pk' p. by eapply holds_inj. Qed.

(** A peer that is stopped is removed with its routes. *)
Lemma remove_holds own pk p w g : holds own (dev w) g -> d_keyMap (dev w) !! pk = Some p ->
  runs (removePeerLocked p pk) w (fun _ w' => holds own (dev w') (withoutPeer pk g) /\
    d_keyMap (dev w') = delete pk (d_keyMap (dev w))).
Proof.
  intros H E. pose proof (holds_injective _ _ _ H) as Hi. destruct (h_peer _ _ _ H _ _ E) as (x & Ex & _ & Hrun & _).
  destruct H as [H1 H2 H3 H4 (r & Hr & Ht)]. unfold removePeerLocked. wstep. apply runs_onRoutes.
  eapply runs_mono; [by apply RemoveByPeer_represents|]. intros [] t Ht'. wstep. unfold Stop. wstep. wstep.
  rewrite Hrun. cbn [negb]. do 2 wstep. cbn. split; [|done]. constructor; cbn; try done.
  - intros pk' p' [Hk E']%lookup_delete_Some. destruct (H3 _ _ E') as (x' & ? & ? & ? & ? & ?). exists x'.
    rewrite lookup_delete_ne by done. done.
  - intros pk' [->|E']%lookup_delete_None; apply lookup_delete_None; auto.
  - exists (specRemoveByPeer p r). split; [done|]. destruct (tracks_filter _ _ _ Hi Ht pk p E) as [F1 F2].
    split; [|done]. intros q p' Hq. destruct (F1 q p' Hq) as (pk' & Ek' & Er). exists pk'. split; [|done].
    apply lookup_delete_Some. split; [|done]. intros ->.
    apply map_lookup_filter_Some in Hq as [_ Hq]. cbn in Hq. congruence.
Qed.

Lemma removeAll_holds own w g : holds own (dev w) g ->
  runs RemoveAllPeers w (fun _ w' => holds own (dev w') (mkConfig ∅ ∅)).
Proof.
  intros H. unfold RemoveAllPeers, rangePeers. do 3 wstep. unfold rangeOrder at 1.
  pose proof (pickOrder_all (length (map_to_list (d_keyMap (dev w)))) (w_order w) _ eq_refl) as Hperm.
  unfold runs at 1. destruct (pickOrder _ _ _) as [l ord]. cbn [fst] in Hperm. wstep.
  apply runs_forEach with (I := fun l w' => exists g', holds own (dev w') g' /\ NoDup l.*1 /\
    (forall pk p, d_keyMap (dev w') !! pk = Some p <-> (pk, p) ∈ l)).
  - exists g. split; [done|]. split.
    + rewrite Hperm. apply NoDup_fst_map_to_list.
    + intros pk p. rewrite Hperm. cbn. by rewrite elem_of_map_to_list.
  - intros [pk p] l' w' (g' & Hg & Hnd & Hin). cbn in Hnd. apply NoDup_cons in Hnd as [Hn Hnd].
    eapply runs_mono; [apply remove_holds; [exact Hg|apply Hin; by left]|]. intros _ w2 [Hg2 Ek].
    exists (withoutPeer pk g'). split_and!; [done|done|]. intros pk' p'. rewrite Ek, lookup_delete_Some, Hin.
    rewrite elem_of_cons. split; [by intros [Hp [[= -> ->]|?]]|]. intros Hl. split; [|by right].
    intros <-. apply Hn. apply (list_elem_of_fmap_2 fst _ _ Hl).
  - intros w' (g' & [H1 H2 H3 H4 (r & Hr & T1 & T2)] & _ & Hin). wstep.
    assert (d_keyMap (dev w') = ∅) as Ek.
    { apply map_eq. intros pk. rewrite lookup_empty. destruct (_ !! pk) eqn:E; [|done]. by apply Hin, elem_of_nil in E. }
    constructor; cbn; try done. exists r. split; [done|]. rewrite Ek in T1.
    split; [|done]. intros q p E. by destruct (T1 _ _ E) as (? & ? & _).
Qed.

(** Unless the device is up and there is a peer to start, nothing more is done. *)
Definition startsNone (sp : ipcSetPeer) : Prop := st = deviceStateDown \/ sp_peer sp = None.

Lemma post_holds own sp dc cur w g : holds own (dev w) g -> pointsAt (dev w) sp dc cur -> startsNone sp ->
  runs (handlePostConfig sp) w (fun _ w' => holds own (dev w') g).
Proof.
  intros H Hp Hst. unfold handlePostConfig. destruct cur as [| |pk created]; cbn in Hp.
  - destruct Hp as [-> _]. by wstep.
  - destruct Hp as (_ & -> & p & x & -> & _). by wstep.
  - destruct Hp as (_ & -> & -> & p & Ep & Ek). unfold startsNone in Hst. rewrite Ep in Hst |- *. destruct (h_peer _ _ _ H _ _ Ek) as (x & Ex & _).
    destruct Hst as [Hst|[=]]. do 3 wstep. unfold isUp, modEndpoint. rewrite (eq_trans (h_state _ _ _ H) Hst), bool_decide_false by done.
    destruct created; cbn [when]; repeat wstep; [|done]. by eapply holds_same.
Qed.

(** How a line leaves the loop and the device, against the specification. *)
Definition stepped (own : bytes) (g : config) (r : option (cursor * config)) (v : verdict) (w' : World) : Prop :=
  match r with
  | Some (cur', g') => exists sp' dc', v = GoesOn sp' dc' /\ holds own (dev w') g' /\ pointsAt (dev w') sp' dc' cur'
  | None => v = Returns (Some IpcErrorInvalid) /\ holds own (dev w') g
  end.

Lemma setLine_command sp dc c : setLine sp dc (commandText c) =
  let key := of_string (commandKey c) in
  let value := commandValue c in
  if named key "public_key" then
    handlePostConfig sp;;;
    let* '(peer, err) := handlePublicKeyLine sp value in
    ret (match err with Some e => Returns (Some e) | None => GoesOn peer false end)
  else if dc then
    let* err := handleDeviceLine key value in
    ret (match err with Some e => Returns (Some e) | None => GoesOn sp true end)
  else
    let* '(peer, err) := handlePeerLine sp key value in
    ret (match err with Some e => Returns (Some e) | None => GoesOn peer false end).
Proof.
  unfold setLine, commandText. rewrite cutAt_app; [by destruct c|].
  apply free_of_string. destruct c; by repeat constructor.
Qed.

Lemma peers_dom own d g : holds own d g -> size (g_peers g) = size (d_keyMap d).
Proof.
  intros [_ _ H3 H4 _]. rewrite <- !size_dom. f_equal. apply leibniz_equiv. intros pk. rewrite !elem_of_dom.
  destruct (d_keyMap d !! pk) as [p|] eqn:E.
  - destruct (H3 _ _ E) as (x & _ & _ & _ & _ & ->). by split; eauto.
  - by rewrite (H4 _ E).
Qed.

Lemma holds_alloc own d g p y : holds own d g -> d_peers d !! p = None ->
  holds own (d <| d_peers ::= <[p := y]> |>) g.
Proof.
  intros H Hn. apply holds_other; [done|]. intros pk E. destruct (h_peer _ _ _ H _ _ E) as (x & Ex & _). congruence.
Qed.

(** A new peer: no settings, no routes. *)
Lemma holds_new own d g p pk ss : holds own d g -> d_peers d !! p = None -> d_keyMap d !! pk = None ->
  holds own (d <| d_peers ::= <[p := newPeer pk ss]> |> <| d_keyMap ::= <[pk := p]> |>)
    (g <| g_peers ::= <[pk := noSettings]> |>).
Proof.
  intros [H1 H2 H3 H4 (r & Hr & T1 & T2)] Hp Hk. constructor; cbn; try done.
  - intros pk' p' [[<- <-]|[Hne E]]%lookup_insert_Some.
    + exists (newPeer pk ss). by rewrite !lookup_insert_eq.
    + destruct (H3 _ _ E) as (x & ? & ? & ? & ? & ?). exists x. rewrite !lookup_insert_ne; [done|done|].
      intros <-. congruence.
  - intros pk' [E Hne]%lookup_insert_None. rewrite lookup_insert_ne by done. by apply H4.
  - exists r. split; [done|]. split; [|done]. intros q p' E. destruct (T1 _ _ E) as (pk' & Ek & Er). exists pk'.
    split; [|done]. rewrite lookup_insert_ne; [done|]. intros <-. congruence.
Qed.

Lemma step_publicKey own pk sp cur w g : holds own (dev w) g -> key32 pk ->
  runs (let* '(peer, err) := handlePublicKeyLine sp (hexEncode pk) in
        ret (match err with Some e => Returns (Some e) | None => GoesOn peer false end)) w
    (stepped own g (specCommand own (PublicKey pk) cur g)).
Proof.
  intros H Hk. wstep. unfold handlePublicKeyLine, publicKeyFromHex. rewrite (key_roundtrip zeroKey) by done.
  cbn [negb]. do 2 wstep. cbv zeta. unfold keyEquals, specCommand. rewrite (h_own _ _ _ H).
  destruct (decide (own = pk)) as [->|Hne].
  { rewrite bytes_eqb_refl. cbv iota. repeat wstep. unfold allocPeer at 1, runs at 1. repeat wstep.
    exists (mkSetPeer (Some (fresh (dom (d_peers (dev w))))) true false (pkaOn sp)), false.
    split; [done|]. split; [by apply holds_alloc, fresh_peer|]. split; [done|]. split; [done|].
    exists (fresh (dom (d_peers (dev w)))), zeroPeer. split_and!; [done|by cbn; rewrite lookup_insert_eq|done|].
    intros pk' E. cbn in E. destruct (h_peer _ _ _ H _ _ E) as (x & Ex & _). by rewrite fresh_peer in Ex. }
  destruct (bytes_eqb own pk) eqn:Eb; [by apply bytes_eqb_true in Eb|].
  unfold LookupPeer. cbv iota. repeat wstep. destruct (d_keyMap (dev w) !! pk) as [p|] eqn:Ek.
  { destruct (h_peer _ _ _ H _ _ Ek) as (x & Ex & _ & _ & _ & Eg). rewrite Eg, decide_True by done. repeat wstep.
    exists (mkSetPeer (Some p) false false (pkaOn sp)), false. do 5 (split; [done|]). by exists p. }
  pose proof (h_none _ _ _ H _ Ek) as Eg. rewrite decide_False by (rewrite Eg; by intros [? ?]).
  unfold NewPeer. repeat wstep. unfold isClosed. rewrite (h_state _ _ _ H).
  rewrite bool_decide_false by done. rewrite (peers_dom _ _ _ H).
  destruct (decide (MaxPeers <= Z.of_nat (size (d_keyMap (dev w))))) as [Hm|Hm].
  { destruct (Z.geb_spec (Z.of_nat (size (d_keyMap (dev w)))) MaxPeers); [|lia]. by repeat wstep. }
  destruct (Z.geb_spec (Z.of_nat (size (d_keyMap (dev w)))) MaxPeers); [lia|]. rewrite Ek.
  destruct (sharedSecret _ _) as [ss ok]. repeat wstep.
  eexists (mkSetPeer (Some (fresh (dom (d_peers (dev w))))) false true (pkaOn sp)), false.
  split; [done|]. split; [apply holds_new; [done|apply fresh_peer|done]|]. do 3 (split; [done|]).
  eexists. split; [done|]. cbn. by rewrite lookup_insert_eq.
Qed.

(** The names of the lines are decided by computation. *)
Ltac names :=
  cbn [commandKey commandValue]; cbv zeta;
  repeat match goal with
  | |- context [named (of_string ?k) ?n] =>
      let b := eval vm_compute in (named (of_string k) n) in change (named (of_string k) n) with b
  end; cbn [negb andb]; cbv iota.

Lemma step_device own c sp w g : holds own (dev w) g -> sp_peer sp = None -> (forall pk, c <> PublicKey pk) ->
  runs (setLine sp true (commandText c)) w (stepped own g (specCommand own c Nobody g)).
Proof.
  intros H Hp Hc. rewrite setLine_command.
  destruct c; try (by edestruct Hc); unfold handleDeviceLine; names; repeat wstep; try (by split).
  eapply runs_mono; [by eapply removeAll_holds|]. intros [] w' H'. repeat wstep.
  by exists sp, true.
Qed.

(** What happens to a peer that is to be ignored. *)
Lemma ignored_insert own d sp g p y : holds own d g -> pointsAt d sp false Ignored -> sp_peer sp = Some p ->
  length (presharedKey (handshake y)) = 32%nat ->
  holds own (d <| d_peers ::= <[p := y]> |>) g /\ pointsAt (d <| d_peers ::= <[p := y]> |>) sp false Ignored.
Proof.
  intros H (_ & Hd & p' & x & Ep & Ex & Hl & Hn) Ep' Hy. rewrite Ep in Ep'. injection Ep' as <-.
  split; [by apply holds_other|]. do 2 (split; [done|]). exists p', y. cbn. by rewrite lookup_insert_eq.
Qed.

(** A placeholder takes the place of the peer at hand. *)
Lemma placeholder own sp w g : holds own (dev w) g ->
  runs (let* q := allocPeer in ret (sp <| sp_peer := Some q |> <| dummy := true |>)) w
    (fun sp' w' => holds own (dev w') g /\ pointsAt (dev w') sp' false Ignored).
Proof.
  intros H. wstep. unfold allocPeer at 1, runs at 1. wstep. split; [by apply holds_alloc, fresh_peer|].
  do 2 (split; [done|]). exists (fresh (dom (d_peers (dev w)))), zeroPeer. split; [done|].
  split; [by cbn; rewrite lookup_insert_eq|]. split; [done|]. intros pk E. cbn in E.
  destruct (h_peer _ _ _ H _ _ E) as (x & Ex & _). by rewrite fresh_peer in Ex.
Qed.

Lemma endpoint_roundtrip a port : addrOk a -> 0 <= port < 65536 ->
  ParseEndpoint (addrPortString a port) = Some (mkEndpoint (a_bytes a ++ a_zone a) port []).
Proof. intros Ha Hp. unfold ParseEndpoint. by rewrite ParseAddrPort_addrPortString. Qed.

Lemma prefix_roundtrip (add : bool) ip c : addrOk (mkAddr ip []) -> (c <= 8 * length ip)%nat ->
  cutMinus ((if add then [] else [45]) ++ prefixString ip (Z.of_nat c)) = (add, prefixString ip (Z.of_nat c)) /\
  ParsePrefix (prefixString ip (Z.of_nat c)) = Some (ip, Z.of_nat c).
Proof.
  intros Hok Hc. split; [|apply ParsePrefix_prefixString; [done|lia]].
  destruct add; [|done]. cbn [app].
  assert (45 ∉ prefixString ip (Z.of_nat c)) as Hn.
  { apply free_app; [apply addrString_free; [done| |done|apply not_elem_of_nil]|].
    - apply addrChar_ne; first [done|lia].
    - apply not_elem_of_cons. split; [done|]. apply Itoa_free; [lia|done]. }
  destruct (prefixString _ _) as [|z s]; [done|]. cbn [cutMinus]. apply not_elem_of_cons in Hn as [Hn _].
  by destruct (Z.eqb_spec z 45) as [->|].
Qed.

(** Steps that also open the pairs that are returned. *)
Ltac steps := repeat (wstep; cbv iota).

Lemma step_ignored own c sp w g : holds own (dev w) g -> pointsAt (dev w) sp false Ignored ->
  validCommand c -> (forall pk, c <> PublicKey pk) ->
  runs (setLine sp false (commandText c)) w (stepped own g (specCommand own c Ignored g)).
Proof.
  intros H Hp [_ Hv] Hc. rewrite setLine_command. pose proof Hp as (_ & Hd & p & x & Ep & Ex & Hl & Hn).
  assert (forall w' sp', holds own (dev w') g -> pointsAt (dev w') sp' false Ignored ->
    stepped own g (Some (Ignored, g)) (GoesOn sp' false) w') as Hgo by (intros w' sp' H1 H2; by exists sp', false).
  assert (forall y, length (presharedKey (handshake y)) = 32%nat ->
    stepped own g (Some (Ignored, g)) (GoesOn sp false) (w <| dev ::= fun d => d <| d_peers ::= <[p := y]> |> |>)) as Hins.
  { intros y Hy. destruct (ignored_insert own (dev w) sp g p y H Hp Ep Hy). by apply Hgo. }
  destruct c as [|pk| | |psk|a port|secs| |add ip c|]; try (by edestruct Hc); unfold handlePeerLine; rewrite Ep;
    names; rewrite ?Hd; cbn [negb andb]; rewrite ?andb_false_r; cbv iota; wstep; try (solve [steps; by apply Hgo]);
    try (by steps).
  - unfold dropPeer. do 3 wstep. eapply runs_mono; [by eapply placeholder|]. intros sp' w' [H1 H2].
    steps. by apply Hgo.
  - steps. unfold presharedKeyFromHex, modHs. rewrite key_roundtrip by done. steps.
    apply Hins. apply Hv.
  - rewrite endpoint_roundtrip by apply Hv. unfold modEndpoint. steps. by apply Hins.
  - rewrite ParseUint_Itoa by done. steps. apply Hgo.
    + apply (ignored_insert own (dev w) sp g p); [done..|]. done.
    + destruct (ignored_insert own (dev w) sp g p (x <| persistentKeepaliveInterval := u32 secs |>)) as [_ H2]; [done..|]. exact H2.
  - destruct Hv as [H1 H2]. destruct (prefix_roundtrip add ip c H1 H2) as [-> ->]. steps. by apply Hgo.
Qed.

Lemma step_at own c sp pk created w g : holds own (dev w) g -> pointsAt (dev w) sp false (At pk created) ->
  validCommand c -> (forall k, c <> PublicKey k) ->
  runs (setLine sp false (commandText c)) w (stepped own g (specCommand own c (At pk created) g)).
Proof.
  intros H Hp [_ Hv] Hc. rewrite setLine_command. pose proof Hp as (_ & Hd & Hcr & p & Ep & Ek).
  destruct (h_peer _ _ _ H _ _ Ek) as (x & Ex & Hx & Hrun & Hl & Hg).
  pose proof (holds_injective _ _ _ H) as Hi. destruct (h_routes _ _ _ H) as (r & Hr & Ht).
  assert (forall sp' w' cur' g', holds own (dev w') g' -> pointsAt (dev w') sp' false cur' ->
    stepped own g (Some (cur', g')) (GoesOn sp' false) w') as Hgo by (intros sp' w' cur' g' H1 H2; by exists sp', false).
  assert (forall y f, remoteStatic (handshake y) = remoteStatic (handshake x) -> isRunning y = isRunning x ->
    length (presharedKey (handshake y)) = 32%nat -> settingsOf y = f (settingsOf x) ->
    holds own (dev w <| d_peers ::= <[p := y]> |>) (onSettings pk f g)) as Hset by (intros; by eapply holds_settings).
  assert (forall t r' g', represents t r' -> tracks (d_keyMap (dev w)) r' (g_routes g') -> g_peers g' = g_peers g ->
    holds own (dev w <| d_allowedips := t |>) g') as Hroutes by (intros; by eapply holds_routes).
  assert (runs (dropPeer sp p true) w (fun sp' w' => holds own (dev w') (withoutPeer pk g) /\
    pointsAt (dev w') sp' false Ignored)) as Hdrop.
  { unfold dropPeer. do 4 wstep. unfold RemovePeer. do 2 wstep. rewrite Hx, Ek.
    eapply runs_mono; [by apply remove_holds|]. intros _ w' [H' _]. by apply placeholder. }
  destruct c as [|k| | |psk|a port|secs| |add ip c|]; try (by edestruct Hc); unfold handlePeerLine; rewrite Ep;
    names; rewrite ?Hd; cbn [negb andb]; rewrite ?andb_true_r; cbv iota; try (solve [steps; by apply Hgo]);
    try (by steps); cbn [specCommand].
  - rewrite Hcr. destruct created.
    + do 2 wstep. eapply runs_mono; [exact Hdrop|]. intros sp' w' [H1 H2]. steps. by apply Hgo.
    + steps. by apply Hgo.
  - do 2 wstep. eapply runs_mono; [exact Hdrop|]. intros sp' w' [H1 H2]. steps. by apply Hgo.
  - steps. unfold presharedKeyFromHex, modHs. rewrite key_roundtrip by done. steps. apply Hgo; [|done].
    apply Hset; [done|done|apply Hv|done].
  - rewrite endpoint_roundtrip by apply Hv. unfold modEndpoint. steps. apply Hgo; [|done]. by apply Hset.
  - rewrite ParseUint_Itoa by done. steps. apply Hgo; [|done]. apply Hset; [done|done|done|].
    unfold settingsOf. cbn. by rewrite u32_small by lia.
  - do 2 wstep. apply runs_onRoutes. eapply runs_mono; [by apply RemoveByPeer_represents|]. intros [] t Ht'.
    steps. apply Hgo; [|done]. eapply Hroutes; [done|by apply tracks_filter|done].
  - destruct Hv as [H1 H2]. destruct (prefix_roundtrip add ip c H1 H2) as [-> ->]. do 2 wstep. apply runs_onRoutes.
    assert (address ip) as Ha by (destruct H1 as [[[? _]|?] ?]; split; [by left|done|by right|done]).
    unfold withRoute. destruct add.
    + eapply runs_mono; [by apply Insert_represents|]. intros [] t Ht'.
      steps. apply Hgo; [|done]. eapply Hroutes; [done|by apply tracks_insert|done].
    + eapply runs_mono; [by apply Remove_represents|]. intros [] t Ht'. steps.
      pose proof (tracks_at _ _ _ Hi Ht pk p (keyOf ip c) Ek) as Hiff. apply Hgo; [|by destruct (decide _)].
      destruct (decide (r !! _ = _)) as [E|E]; destruct (decide (g_routes g !! _ = _)) as [E'|E']; try tauto.
      * eapply Hroutes; [done|by apply tracks_delete|done].
      * by eapply Hroutes.
Qed.

Lemma step_command own c sp dc cur w g : holds own (dev w) g -> pointsAt (dev w) sp dc cur -> validCommand c ->
  (forall pk, c = PublicKey pk -> startsNone sp) ->
  runs (setLine sp dc (commandText c)) w (stepped own g (specCommand own c cur g)).
Proof.
  intros H Hp Hv Hst. destruct (match c with PublicKey _ => true | _ => false end) eqn:Ec.
  - destruct c as [|pk| | | | | | | |]; try done. specialize (Hst pk eq_refl). rewrite setLine_command. names. wstep.
    eapply runs_mono; [by eapply post_holds|]. intros ? w' H'. apply step_publicKey; [done|apply Hv].
  - assert (forall pk, c <> PublicKey pk) as Hc by (by intros pk ->). destruct cur as [| |pk created].
    + destruct Hp as [Hp ->]. by apply step_device.
    + pose proof Hp as (-> & _). by apply step_ignored.
    + pose proof Hp as (-> & _). by apply step_at.
Qed.

(** One more command is accepted. *)
Lemma setLines_more own c cs sp dc cur cur' w g g' Q : holds own (dev w) g -> pointsAt (dev w) sp dc cur ->
  validCommand c -> (forall pk, c = PublicKey pk -> startsNone sp) -> specCommand own c cur g = Some (cur', g') ->
  (forall sp' dc' w', holds own (dev w') g' -> pointsAt (dev w') sp' dc' cur' -> runs (setLines cs sp' dc') w' Q) ->
  runs (setLines (commandText c :: cs) sp dc) w Q.
Proof.
  intros H Hp Hv Hst Hs Hk. cbn [setLines]. wstep. eapply runs_mono; [by eapply (step_command own)|]. intros v w' Hv'.
  unfold stepped in Hv'. rewrite Hs in Hv'. destruct Hv' as (sp' & dc' & -> & H' & Hp'). by apply Hk.
Qed.

End Holds.

Lemma setLines_spec own cs : forall sp dc cur w g, holds own (dev w) g -> pointsAt (dev w) sp dc cur ->
  Forall validCommand cs ->
  runs (let* v := setLines (commandText <$> cs) sp dc in finish false v) w (fun err w' =>
    let '(g', accepted) := specSet own cs cur g in
    err = (if accepted then None else Some IpcErrorInvalid) /\ holds own (dev w') g').
Proof.
  induction cs as [|c cs IH]; intros sp dc cur w g H Hp Hv; cbn [fmap list_fmap setLines specSet].
  - do 2 wstep. cbn [finish]. wstep. eapply runs_mono; [eapply (post_holds deviceStateDown); [exact H|exact Hp|by left]|]. intros ? w' H'. by wstep.
  - apply Forall_cons in Hv as [Hc Hv]. do 2 wstep.
    eapply runs_mono; [eapply (step_command deviceStateDown); [done|exact H|exact Hp|exact Hc|by left]|]. intros v w' Hs. unfold stepped in Hs.
    destruct (specCommand own c cur g) as [[cur' g']|].
    + destruct Hs as (sp' & dc' & -> & H' & Hp'). specialize (IH _ _ _ _ _ H' Hp' Hv).
      unfold runs in IH. rewrite bind_eq in IH. unfold runs. by destruct (setLines _ _ _ _) as [[]|].
    + destruct Hs as [-> H']. by wstep.
Qed.

(** How a configuration is refused: at a line too long for the scanner, after all the
    lines before it; at a line that is invalid; at one whose port or mark is in use. *)
Definition refusedAt (s : bytes) (w : World) (e : IPCError) (w' : World) : Prop :=
  (e = IpcErrorIO /\ (linesOf s).2 = true /\ exists sp dc w1,
     setLines (linesOf s).1 newSetPeer true w = Some (GoesOn sp dc, w1) /\ handlePostConfig sp w1 = Some (tt, w'))
  \/ exists pre l post sp dc w1, (linesOf s).1 = pre ++ l :: post /\
    setLines pre newSetPeer true w = Some (GoesOn sp dc, w1) /\
    (refusal e /\ beforeRefusal sp l w1 = Some (tt, w') \/
     e = IpcErrorPortInUse /\ dc = true /\ busyLine l w1 = Some (false, w')).

Lemma IpcSet_refused s w e w' : IpcSet s w = Some (Some e, w') -> refusedAt s w e w'.
Proof.
  rewrite IpcSet_lines. unfold refusedAt. generalize (linesOf s). intros [ls long] E. cbn [fst snd].
  apply bind_some in E as ([sp dc|err] & w1 & El & Ef).
  - left. cbn [finish] in Ef. apply bind_some in Ef as ([] & w2 & Ep & Ef). destruct long; [|by injection Ef].
    injection Ef as <- <-. split_and!; [done|done|]. by exists sp, dc, w1.
  - right. injection Ef as -> ->. apply refused_lines in El as (pre & l & post & sp & dc & w1 & -> & E1 & E2).
    exists pre, l, post, sp, dc, w1. split_and!; [done|done|]. by apply line_errors in E2.
Qed.

(** ** Properties *)

Context `{CL : !CryptoLaws C}.

(** C31: the configuration protocol, as an abstract machine.  The device is down
    and holds a configuration: peers with their settings, and prefixes routed to
    public keys.  Setting it from the text of any commands ends: either with no
    error in the configuration that the commands describe, or, at the first
    command the specification refuses, with [IpcErrorInvalid] in the
    configuration the commands before it describe.  The text goes through the
    scanner, the printers of [netip], [strconv] and [hex] and their parsers, and
    the pointer trie of the routes. *)
Theorem IpcSet_configures (own : bytes) (cs : list command) (w : World) (g : config) :
  holds own (dev w) g -> Forall validCommand cs ->
  exists w', IpcSet (configText cs) w =
    Some (if (specSet own cs Nobody g).2 then None else Some IpcErrorInvalid, w') /\
    holds own (dev w') (specSet own cs Nobody g).1.
Proof.
  intros H Hv. pose proof (setLines_spec own cs newSetPeer true Nobody w g H (conj eq_refl eq_refl) Hv) as Hr.
  rewrite IpcSet_lines, linesOf_config by done. destruct (runs_exists _ _ _ Hr) as (err & w' & E & Hs).
  destruct (specSet own cs Nobody g) as [g' accepted]. destruct Hs as [-> H']. by exists w'.
Qed.

(** C34: setting a configuration, whatever bytes are given, does not panic and leaves a
    well-formed device (the locks it takes are not modelled: [SetPrivateKey], which a
    private_key line calls, can wait for ever).  If it ends with an error, one line was
    refused: the lines before it were all accepted and none after it was looked at.  A line
    refused with [IpcErrorInvalid] or [IpcErrorProtocol] changed nothing, but for the
    peer before it, which is finished when the line is a public_key; one refused with
    [IpcErrorPortInUse] is a listen_port or fwmark line, whose number was parsed and,
    for a port, already stored when the sockets refused it; and with [IpcErrorIO] it is
    a line too long to be read, before which the last peer was finished. *)
Theorem IpcSet_refuses (s : bytes) (w : World) :
  wf [] [] (dev w) ->
  exists err w', IpcSet s w = Some (err, w') /\ wf [] [] (dev w') /\ forall e, err = Some e -> refusedAt s w e w'.
Proof.
  intros H. destruct (runs_exists _ _ _ (grown_safe _ _ _ (ok_IpcSet s w H))) as (err & w' & E & [Hw _] & _).
  exists err, w'. split; [exact E|]. split; [exact Hw|]. intros e ->. by apply IpcSet_refused.
Qed.

End UapiSpec.

(** ** Witnesses *)

(** Two peers that trade a prefix, one of which goes again, the device itself
    among its own peers, and a command out of place at the end. *)
Definition sample_commands : list command :=
  [ReplacePeers; PublicKey (replicate 32 8); PresharedKey (replicate 32 5);
   SetEndpoint (mkAddr [192; 0; 2; 7] []) 51820; Keepalive 25; ReplaceAllowedIPs;
   AllowedIP true [10; 0; 0; 0] 8; ProtocolVersion;
   PublicKey (replicate 32 9); SetEndpoint (mkAddr ([254; 128] ++ zeros 13 ++ [1]) (of_string "eth0")) 1;
   AllowedIP true [10; 0; 0; 0] 8; AllowedIP true (zeros 16) 0; AllowedIP false [10; 0; 0; 0] 8;
   PublicKey (d_publicKey fresh_device); AllowedIP true [10; 0; 0; 0] 8; RemoveThis;
   PublicKey (replicate 32 8); UpdateOnly; AllowedIP true [10; 1; 0; 0] 16; RemoveThis; ReplacePeers].

Lemma IpcSet_configures_witness :
  exists w', IpcSet (C := toyCrypto) (configText sample_commands) fresh_world =
    Some (if (specSet (d_publicKey fresh_device) sample_commands Nobody (mkConfig ∅ ∅)).2
          then None else Some IpcErrorInvalid, w') /\
    holds (d_publicKey fresh_device) (dev w')
      (specSet (d_publicKey fresh_device) sample_commands Nobody (mkConfig ∅ ∅)).1.
Proof.
  apply (IpcSet_configures (C := toyCrypto) (d_publicKey fresh_device) sample_commands fresh_world (mkConfig ∅ ∅)).
  - constructor; [reflexivity|reflexivity| | |].
    + intros pk p E. discriminate E.
    + intros pk E. reflexivity.
    + exists ∅. split; [apply represents_empty|]. split; [intros q p E; discriminate E|reflexivity].
  - apply (bool_decide_unpack _). vm_compute. exact I.
Defined.

(** A port that is in use is stored when the line is refused. *)
Definition busyWorld : World := fresh_world <| w_bind := [false] |>.
Example busy_port_stored :
  (fun '(err, w) => (err, d_port (dev w))) <$> IpcSet (C := toyCrypto) (sendf "listen_port" (of_string "51820")) busyWorld
    = Some (Some IpcErrorPortInUse, 51820).
Proof. vm_compute. reflexivity. Qed.

Lemma IpcSet_refuses_witness :
  exists err w', IpcSet (C := toyCrypto) (configText sample_commands) fresh_world = Some (err, w') /\
    wf [] [] (dev w') /\ forall e, err = Some e -> refusedAt (C := toyCrypto) (configText sample_commands) fresh_world e w'.
Proof.
  apply (IpcSet_refuses (C := toyCrypto) (configText sample_commands) fresh_world).
  apply (wf_NewDevice (Some 1420)); [reflexivity|vm_compute; discriminate].
Defined.
