(* ===== verification/UapiServe.v ===== *)
(** Serving a connection of the configuration protocol ([IpcHandle] of
    [device/uapi.go]): the operations one after the other, with their answers. *)
From S2P Require Import Prelude Replay Tai64n Ratelimiter Messages NoiseHelpers ToyCrypto Text Netip Cookie AllowedIPs.
From S2P Require Import TrieBits Trie Routing RoutingSpec State IndexTable Timers Handshake Session.
From S2P Require Import Initiations Send Staging Receive Device Uapi Queues WellFormed Safety DeviceSafety UapiSafety Machine UapiSpec.

#[local] Delimit Scope string_scope with string.

Section UapiServe.
Context `{C : Crypto}.

(** ** The loop *)

(** What a scanner that has filled its buffer leaves. *)
Definition beyondToken (s : bytes) : bytes := drop MaxScanTokenSize s.
Lemma beyondToken_length s : (length (beyondToken s) <= length s)%nat.
Proof. unfold beyondToken. rewrite length_drop. lia. Qed.
#[local] Opaque beyondToken Scan.

(** [IpcSetOperation] on what the client sends until it closes: the error, and
    what the lines have left. *)
Fixpoint setStream (fuel : nat) (peer : ipcSetPeer) (deviceConfig : bool) (s : bytes) : M (option IPCError * bytes) :=
  match fuel with
  | O => panic
  | S fuel =>
      match Scan s with
      | ScanEnd => handlePostConfig peer;;; ret (None, [])
      | ScanTooLong => handlePostConfig peer;;; ret (Some IpcErrorIO, beyondToken s)
      | ScanLine l s =>
          let* v := setLine peer deviceConfig l in
          match v with
          | GoesOn peer deviceConfig => setStream fuel peer deviceConfig s
          | Returns err => ret (err, s)
          end
      end
  end.
Definition IpcSetOperation (r : bytes) : M (option IPCError * bytes) := setStream (S (length r)) newSetPeer true r.

Definition errnoText (err : option IPCError) : bytes :=
  of_string "errno=" ++ printInt (match err with Some e => ErrorCode e | None => 0 end) ++ [10; 10].

(** The answers to what the client sends until it closes.  The scanner of a [set]
    may have read on, and what it has read is lost: [ahead] tells how much. *)
Fixpoint IpcHandle (fuel : nat) (ahead : nat -> nat) (s : bytes) : M bytes :=
  match fuel with
  | O => panic
  | S fuel =>
      match cutAt 10 s with
      | None => ret []
      | Some (op, s) =>
          if named op "set=1" then
            let* '(err, r) := IpcSetOperation s in
            let* out := IpcHandle fuel (ahead ∘ S) (drop (ahead 0%nat) r) in
            ret (errnoText err ++ out)
          else if named op "get=1" then
            match s with
            | [] => ret []
            | nextByte :: s =>
                if negb (nextByte =? 10) then
                  let* out := IpcHandle fuel ahead s in ret (errnoText (Some IpcErrorInvalid) ++ out)
                else
                  let* text := IpcGet in
                  let* out := IpcHandle fuel ahead s in
                  ret (text ++ errnoText None ++ out)
            end
          else ret []
      end
  end.

(** ** The operation on a stream and on a text *)

Lemma setStream_error fuel : forall sp dc s w,
  setLoop fuel sp dc s w = (let* '(e, _) := setStream fuel sp dc s in ret e) w.
Proof.
  induction fuel as [|fuel IH]; intros sp dc s w; cbn [setLoop setStream]; [done|].
  destruct (Scan s) as [l r| |]; rewrite !bind_eq.
  - destruct (setLine sp dc l w) as [[[sp' dc'|e] w']|]; [|done|done]. rewrite IH. by rewrite bind_eq.
  - by destruct (handlePostConfig sp w) as [[]|].
  - by destruct (handlePostConfig sp w) as [[]|].
Qed.

(** What a step over the next line leaves is no longer. *)
Lemma setStream_shrinks fuel : forall sp dc s w, runs (setStream fuel sp dc s) w (fun x _ => (length x.2 <= length s)%nat) \/ setStream fuel sp dc s w = None.
Proof.
  unfold runs. induction fuel as [|fuel IH]; intros sp dc s w; cbn [setStream]; [by right|].
  destruct (Scan s) as [l s'| |] eqn:Es; rewrite bind_eq.
  - apply Scan_shrinks in Es. destruct (setLine sp dc l w) as [[[sp' dc'|err] w']|]; [|left; cbn; lia|by right].
    destruct (IH sp' dc' s' w') as [H| ->]; [left|by right]. destruct (setStream _ _ _ _ _) as [[x w2]|]; [lia|done].
  - destruct (handlePostConfig sp w) as [[]|]; [left; cbn; lia|by right].
  - destruct (handlePostConfig sp w) as [[]|]; [left; apply beyondToken_length|by right].
Qed.

Context `{CL : !CryptoLaws C}.

(** ** A connection ends, and keeps the device well-formed *)

Lemma ok_IpcSetOperation s w : wf [] [] (dev w) -> safe [] [] (IpcSetOperation s) w (fun x _ => (length x.2 <= length s)%nat).
Proof.
  intros H. pose proof (ok_IpcSet s w H) as Hs. unfold safe in *. unfold runs in *. unfold IpcSet in Hs.
  rewrite setStream_error, bind_eq in Hs.
  destruct (setStream _ newSetPeer true s w) as [[[e r] w']|] eqn:E; [|done]. unfold IpcSetOperation. unfold runs in *. rewrite E.
  destruct Hs as (Hw & He & _). split_and!; [done|done|]. destruct (setStream_shrinks (S (length s)) newSetPeer true s w) as [H'|H']; unfold runs in H'; rewrite E in H'; done.
Qed.

Lemma ok_IpcHandle fuel : forall ahead s w, (length s < fuel)%nat -> wf [] [] (dev w) -> okRun [] [] (IpcHandle fuel ahead s) w.
Proof.
  induction fuel as [|fuel IH]; intros ahead s w Hf H; [lia|]. cbn [IpcHandle].
  destruct (cutAt 10 s) as [[op s']|] eqn:Ec; [|by apply safe_ret]. apply cutAt_some in Ec as [-> _]. rewrite length_app in Hf. cbn in Hf.
  destruct (named op _).
  - eapply safe_bind; [by apply ok_IpcSetOperation|]. intros [e r] w1 H1 _ Hl. cbn in Hl.
    eapply safe_bind; [apply IH; [rewrite length_drop; lia|done]|]. intros out w2 H2 _ _. by apply safe_ret.
  - destruct (named op _); [|by apply safe_ret]. destruct s' as [|c s']; [by apply safe_ret|]. cbn in Hf. destruct (negb (c =? 10)).
    + eapply safe_bind; [apply IH; [lia|done]|]. intros out w2 H2 _ _. by apply safe_ret.
    + eapply safe_bind; [by apply ok_IpcGet|]. intros text w1 H1 _ _.
      eapply safe_bind; [apply IH; [lia|done]|]. intros out w2 H2 _ _. by apply safe_ret.
Qed.

(** ** A client that waits for each answer *)

(** A request: lines to set, or the state to get. *)
Inductive request := SetReq (lines : list bytes) | GetReq.
Definition lineOk (l : bytes) : Prop := l <> [] /\ zlen l < 65536 /\ 10 ∉ l /\ 13 ∉ l.
Definition requestOk (r : request) : Prop := match r with SetReq ls => Forall lineOk ls | GetReq => True end.
Definition linesText (ls : list bytes) : bytes := concat (line <$> ls).
Definition requestText (r : request) : bytes :=
  match r with
  | SetReq ls => line (of_string "set=1") ++ linesText ls ++ line []
  | GetReq => line (of_string "get=1") ++ line []
  end.

(** The answers that the operations give when they are called one by one, up to
    the first refusal, and whether there is none. *)
Fixpoint answers (rs : list request) : M (bytes * bool) :=
  match rs with
  | [] => ret ([], true)
  | SetReq ls :: rs =>
      let* e := IpcSet (linesText ls) in
      match e with
      | Some e => ret (errnoText (Some e), false)
      | None => let* '(out, fine) := answers rs in ret (errnoText None ++ out, fine)
      end
  | GetReq :: rs =>
      let* text := IpcGet in
      let* '(out, fine) := answers rs in
      ret (text ++ errnoText None ++ out, fine)
  end.

(** The lines of an operation that is ended by a blank line. *)
Lemma Scan_blank s : Scan (line [] ++ s) = ScanLine [] s.
Proof. apply Scan_line; [done| |]; apply not_elem_of_nil. Qed.

Lemma setLine_returns l sp dc w w' : l <> [] -> setLine sp dc l w <> Some (Returns None, w').
Proof.
  intros Hl. unfold setLine. destruct l as [|c l]; [done|]. destruct (cutAt 61 (c :: l)) as [[key value]|]; [|done].
  destruct (named key "public_key"); [rewrite bind_eq; destruct (handlePostConfig sp w) as [[]|]; [|done]; rewrite bind_eq|
    destruct dc; rewrite bind_eq].
  - by destruct (handlePublicKeyLine sp value w0) as [[[? []] ?]|].
  - by destruct (handleDeviceLine key value w) as [[[] ?]|].
  - by destruct (handlePeerLine sp key value w) as [[[? []] ?]|].
Qed.

Lemma setStream_lines ls s : Forall lineOk ls -> forall fuel sp dc w, (length ls < fuel)%nat ->
  match setLines ls sp dc w with
  | Some (GoesOn sp' _, w') => setStream fuel sp dc (linesText ls ++ line [] ++ s) w = (handlePostConfig sp';;; ret (None, s)) w'
  | Some (Returns e, w') => e <> None /\ exists r, setStream fuel sp dc (linesText ls ++ line [] ++ s) w = Some ((e, r), w')
  | None => True
  end.
Proof.
  induction 1 as [|l ls (Hne & Hl & H10 & H13) _ IH]; intros [|fuel] sp dc w Hf; cbn in Hf; try lia; cbn [setLines setStream].
  - change (linesText [] ++ line [] ++ s) with (line [] ++ s). rewrite Scan_blank, bind_eq. unfold setLine. rewrite bind_eq. unfold ret at 1.
    rewrite bind_eq. by destruct (handlePostConfig sp w) as [[]|].
  - replace (linesText (l :: ls) ++ line [] ++ s) with (line l ++ linesText ls ++ line [] ++ s) by (unfold linesText; cbn [fmap list_fmap concat]; by rewrite <-app_assoc).
    rewrite Scan_line by done. rewrite !bind_eq. destruct (setLine sp dc l w) as [[[sp' dc'|[e|]] w']|] eqn:E; [|by split; [|eexists]|by apply setLine_returns in E|done].
    apply IH. lia.
Qed.

Lemma linesText_length ls : (length ls <= length (linesText ls))%nat.
Proof.
  induction ls as [|l ls IH]; [done|]. change (linesText (l :: ls)) with (line l ++ linesText ls).
  rewrite length_app. unfold line. rewrite length_app. cbn [length]. lia.
Qed.

Lemma IpcSet_text ls w : Forall lineOk ls -> IpcSet (linesText ls) w = (let* v := setLines ls newSetPeer true in finish false v) w.
Proof.
  intros H. rewrite IpcSet_lines. unfold linesOf. 
  assert (forall fuel, (length ls < fuel)%nat -> scanAll fuel (linesText ls) = (ls, false)) as ->; [|done|].
  - induction H as [|l ls (_ & Hl & H10 & H13) _ IH]; intros [|fuel] Hf; cbn in Hf; try lia; cbn [scanAll]; [done|].
    replace (linesText (l :: ls)) with (line l ++ linesText ls) by done. rewrite Scan_line by done. by rewrite IH by lia.
  - pose proof (linesText_length ls). lia.
Qed.

(** One [set] on the connection and on a text. *)
Lemma IpcSetOperation_text ls s w : Forall lineOk ls ->
  match IpcSet (linesText ls) w with
  | Some (None, w') => IpcSetOperation (linesText ls ++ line [] ++ s) w = Some ((None, s), w')
  | Some (Some e, w') => exists r, (length r <= length (linesText ls ++ line [] ++ s))%nat
      /\ IpcSetOperation (linesText ls ++ line [] ++ s) w = Some ((Some e, r), w')
  | None => True
  end.
Proof.
  intros H. rewrite IpcSet_text, bind_eq by done. unfold IpcSetOperation. set (fuel := S (length _)).
  pose proof (setStream_lines ls s H fuel newSetPeer true w) as Hs. specialize (Hs ltac:(unfold fuel; rewrite length_app; pose proof (linesText_length ls); lia)).
  destruct (setLines ls newSetPeer true w) as [[[sp dc|e] w']|]; [|destruct Hs as [He (r & E)]|done]; unfold finish.
  - rewrite bind_eq in Hs. rewrite bind_eq. destruct (handlePostConfig sp w') as [[? w2]|]; [exact Hs|done].
  - destruct e as [e|]; [|done]. exists r. split; [|exact E].
    destruct (setStream_shrinks fuel newSetPeer true (linesText ls ++ line [] ++ s) w) as [Hn|Hn]; unfold runs in Hn; rewrite E in Hn; done.
Qed.

Lemma cutAt_op op s : 10 ∉ op -> cutAt 10 (line op ++ s) = Some (op, s).
Proof. intros H. unfold line. rewrite <-app_assoc. by apply cutAt_app. Qed.

Lemma answers_served rs : Forall requestOk rs -> forall fuel w out fine w', answers rs w = Some ((out, fine), w') ->
  (length (concat (requestText <$> rs)) < fuel)%nat ->
  exists fuel' rest, (length rest < fuel')%nat /\ (fine = true -> rest = []) /\
    IpcHandle fuel (fun _ => 0%nat) (concat (requestText <$> rs)) w = (let* more := IpcHandle fuel' (fun _ => 0%nat) rest in ret (out ++ more)) w'.
Proof.
  induction 1 as [|r rs Hr _ IH]; intros fuel w out fine w' Ha Hf; cbn [answers fmap list_fmap concat] in *.
  { injection Ha as <- <- <-. exists fuel, []. split_and!; [done|done|]. destruct fuel as [|fuel]; [cbn in Hf; lia|]. done. }
  destruct fuel as [|fuel]; [lia|]. rewrite length_app in Hf. destruct r as [ls|]; cbn [requestText] in Hf |- *; rewrite <-!app_assoc; cbn [IpcHandle];
    rewrite cutAt_op by (by apply (bool_decide_unpack _)).
  - change (named (of_string "set=1") "set=1") with true. cbn match. rewrite bind_eq in Ha. rewrite bind_eq.
    rewrite !length_app in Hf. change (length (line (of_string "set=1"))) with 6%nat in Hf.
    pose proof (IpcSetOperation_text ls (concat (requestText <$> rs)) w Hr) as Hs. 
    destruct (IpcSet (linesText ls) w) as [[[e|] w1]|]; [| |done].
    + destruct Hs as (r & Hn & ->). injection Ha as <- <- <-. exists fuel, r. split_and!; [rewrite !length_app in Hn; lia|done|done].
    + rewrite Hs. rewrite bind_eq in Ha. destruct (answers rs w1) as [[[out1 fine1] w2]|] eqn:E1; [|done]. injection Ha as <- <- <-.
      destruct (IH fuel w1 out1 fine1 w2 E1) as (fuel' & rest & H1 & H2 & H3); [lia|]. exists fuel', rest. split_and!; [done|done|].
      change ((fun _ : nat => 0%nat) ∘ S) with (fun _ : nat => 0%nat). rewrite drop_0, bind_eq, H3, !bind_eq. 
      destruct (IpcHandle fuel' _ rest w2) as [[more w3]|]; [|done]. unfold ret. cbv beta iota. by rewrite app_assoc.
  - change (named (of_string "get=1") "set=1") with false. change (named (of_string "get=1") "get=1") with true. 
    change (line [] ++ concat (requestText <$> rs)) with (10 :: concat (requestText <$> rs)). cbn [negb Z.eqb Pos.eqb].
    rewrite bind_eq in Ha. rewrite bind_eq. destruct (IpcGet w) as [[text w1]|]; [|done].
    rewrite bind_eq in Ha. destruct (answers rs w1) as [[[out1 fine1] w2]|] eqn:E1; [|done].
    assert (out = text ++ errnoText None ++ out1 /\ fine = fine1 /\ w' = w2) as (-> & -> & ->) by (unfold ret in Ha; split_and!; congruence).
    destruct (IH fuel w1 out1 fine1 w2 E1) as (fuel' & rest & H1 & H2 & H3); [change (length (line (of_string "get=1") ++ line [])) with 7%nat in Hf; lia|]. exists fuel', rest. split_and!; [done|done|].
    rewrite bind_eq, H3, !bind_eq. destruct (IpcHandle fuel' _ rest w2) as [[more w3]|]; [|done]. unfold ret. cbv beta iota. by rewrite <-!app_assoc.
Qed.

Lemma ok_answers rs : forall w, wf [] [] (dev w) -> okRun [] [] (answers rs) w.
Proof.
  induction rs as [|[ls|] rs IH]; intros w H; cbn [answers]; [by apply safe_ret| |].
  - eapply safe_bind; [by apply ok_IpcSet|]. intros [e|] w1 H1 _ _; [by apply safe_ret|].
    eapply safe_bind; [by apply IH|]. intros [out fine] w2 H2 _ _. by apply safe_ret.
  - eapply safe_bind; [by apply ok_IpcGet|]. intros text w1 H1 _ _.
    eapply safe_bind; [by apply IH|]. intros [out fine] w2 H2 _ _. by apply safe_ret.
Qed.

(** C24: whatever a client sends, and however far the scanner reads ahead, its
    connection is served to the end without a panic, and leaves a well-formed
    device.  A client that waits for each answer gets those of [IpcSet] and [IpcGet]
    in the order of its requests, each with the number of its error, up to the first
    that is refused; if none is, nothing else happens. *)
Theorem IpcHandle_serves rs ahead s w : wf [] [] (dev w) -> Forall requestOk rs ->
  (exists out w', IpcHandle (S (length s)) ahead s w = Some (out, w') /\ wf [] [] (dev w'))
  /\ exists out fine w' more w'', answers rs w = Some ((out, fine), w')
     /\ IpcHandle (S (length (concat (requestText <$> rs)))) (fun _ => 0%nat) (concat (requestText <$> rs)) w = Some (out ++ more, w'')
     /\ wf [] [] (dev w'') /\ (fine = true -> more = [] /\ w'' = w').
Proof.
  intros H Hrs. split.
  - destruct (runs_exists _ _ _ (grown_safe _ _ _ (ok_IpcHandle (S (length s)) ahead s w ltac:(lia) H))) as (out & w' & E & [Hw _] & _). by exists out, w'.
  - destruct (runs_exists _ _ _ (grown_safe _ _ _ (ok_answers rs w H))) as ([out fine] & w' & Ea & [Hw _] & _).
    destruct (answers_served rs Hrs (S (length (concat (requestText <$> rs)))) w out fine w' Ea) as (fuel & rest & Hf & Hfine & E); [lia|].
    destruct (runs_exists _ _ _ (grown_safe _ _ _ (ok_IpcHandle fuel (fun _ => 0%nat) rest w' Hf Hw))) as (more & w'' & Em & [Hw'' _] & _).
    rewrite bind_eq, Em in E. exists out, fine, w', more, w''. split_and!; [done|exact E|done|].
    intros ->. rewrite (Hfine eq_refl) in Em. destruct fuel as [|fuel]; [lia|]. by injection Em as <- <-.
Qed.

End UapiServe.

(** A port, a peer, and the state. *)
Definition sampleRequests : list request :=
  [SetReq [of_string "listen_port=51820"; of_string "public_key=" ++ hexEncode (replicate 32 8)]; GetReq].

Lemma IpcHandle_serves_witness :
  (exists out w', IpcHandle (C := toyCrypto) 5 (fun _ => 3%nat) [1; 2; 10; 4] fresh_world = Some (out, w') /\ wf [] [] (dev w'))
  /\ exists out fine w' more w'', answers (C := toyCrypto) sampleRequests fresh_world = Some ((out, fine), w')
     /\ IpcHandle (C := toyCrypto) (S (length (concat (requestText <$> sampleRequests)))) (fun _ => 0%nat)
          (concat (requestText <$> sampleRequests)) fresh_world = Some (out ++ more, w'')
     /\ wf [] [] (dev w'') /\ (fine = true -> more = [] /\ w'' = w').
Proof.
  apply (IpcHandle_serves (C := toyCrypto) sampleRequests (fun _ => 3%nat) [1; 2; 10; 4] fresh_world).
  - apply (wf_NewDevice (Some 1420)); [reflexivity|vm_compute; discriminate].
  - repeat constructor; try done; try (apply (bool_decide_unpack _); vm_compute; exact I).
Defined.

(** A client that sends two requests at once: when the scanner of the first has
    read the second with it, that one is not answered. *)
Definition bothAtOnce : bytes := concat (requestText <$> [SetReq []; SetReq []]).
Example read_ahead_loses_request :
  option_map fst (IpcHandle (C := toyCrypto) 20 (fun _ => 0%nat) bothAtOnce fresh_world) = Some (errnoText None ++ errnoText None)
  /\ option_map fst (IpcHandle (C := toyCrypto) 20 (fun _ => 7%nat) bothAtOnce fresh_world) = Some (errnoText None).
Proof. by vm_compute. Qed.
