(* ===== verification/Delivery.v ===== *)
(** Transport from one device to another: what the sending device encrypts and
    transmits is what the receiving device writes to its TUN device. *)
From S2P Require Import Prelude Replay Ratelimiter Messages NoiseHelpers ToyCrypto Cookie AllowedIPs.
From S2P Require Import TrieBits Trie Routing RoutingSpec State IndexTable Timers Handshake Session.
From S2P Require Import Send Receive Transport Device Queues WellFormed Safety DeviceSafety Machine.

(** ** What notifications leave alone *)

(** The parts of a peer the timers never touch. *)
Definition calmPart (x : Peer) : Keypairs * PeerEndpoint * bool := (keypairs x, endpoint x, isRunning x).

Record calm (p : peer_id) (w w' : World) : Prop := {
  calm_out : w_out w' = w_out w;
  calm_now : w_now w' = w_now w;
  calm_net : w_net w' = w_net w;
  calm_state : d_state (dev w') = d_state (dev w);
  calm_keypairs : d_keypairs (dev w') = d_keypairs (dev w);
  calm_peer : calmPart <$> d_peers (dev w') !! p = calmPart <$> d_peers (dev w) !! p }.

#[export] Instance calm_preorder p : PreOrder (calm p).
Proof. split; [by split|]. intros ??? [] []. split; congruence. Qed.

(** The operation runs and keeps what [calm] lists, from wherever the peer is. *)
Definition quietly (p : peer_id) {A} (m : M A) : Prop :=
  forall w, is_Some (d_peers (dev w) !! p) -> runs m w (fun _ w' => calm p w w').

Lemma calm_some p w w' : calm p w w' -> is_Some (d_peers (dev w) !! p) -> is_Some (d_peers (dev w') !! p).
Proof.
  intros H [x Ex]. pose proof (calm_peer _ _ _ H) as E. rewrite Ex in E.
  destruct (d_peers (dev w') !! p); [by eexists|done].
Qed.

Lemma quietly_bind p {A B} (m : M A) (k : A -> M B) :
  quietly p m -> (forall a, quietly p (k a)) -> quietly p (bind m k).
Proof.
  intros Hm Hk w H. apply runs_bind. eapply runs_mono; [by apply Hm|]. intros a w1 H1.
  eapply runs_mono; [apply Hk, (calm_some p w); [exact H1|exact H]|]. intros b w2 H2. by transitivity w1.
Qed.

Lemma quietly_ret p {A} (a : A) : quietly p (ret a).
Proof. by intros w _. Qed.
Lemma quietly_getPeer p : quietly p (getPeer p).
Proof. intros w [x E]. by eapply runs_getPeer. Qed.
Lemma quietly_getNow p : quietly p getNow.
Proof. by intros w _. Qed.
Lemma quietly_getD p : quietly p getD.
Proof. by intros w _. Qed.
Lemma quietly_fastrandn p n : quietly p (fastrandn n).
Proof. intros w _. unfold runs, fastrandn. destruct (w_jitter w); by split. Qed.
Lemma quietly_modPeer p f : (forall x, calmPart (f x) = calmPart x) -> quietly p (modPeer p f).
Proof.
  intros Hf w [x E]. eapply runs_modPeer; [exact E|]. split; try done. cbn. rewrite lookup_insert_eq, E.
  cbn. by rewrite Hf.
Qed.
Lemma quietly_when p b (m : M unit) : quietly p m -> quietly p (when b m).
Proof. intros H. destruct b; [done|apply quietly_ret]. Qed.

Create HintDb calm.
#[export] Hint Resolve quietly_ret quietly_getPeer quietly_getNow quietly_getD quietly_fastrandn quietly_when : calm.

Ltac quiet_step :=
  match goal with
  | |- forall _, quietly _ _ => intros ?
  | |- quietly _ (bind _ _) => apply quietly_bind
  | |- quietly _ (modTimers _ _) => by apply quietly_modPeer
  | |- quietly _ (modPeer _ _) => by apply quietly_modPeer
  | |- quietly _ (if ?b then _ else _) => destruct b
  | |- quietly _ (match ?o with Some _ => _ | None => _ end) => destruct o
  | _ => solve [eauto with calm]
  | |- quietly _ (when _ _) => apply quietly_when
  end.
Ltac quieten := repeat quiet_step.

Lemma quietly_active p : quietly p (timersActive p).
Proof. unfold timersActive. quieten. Qed.
#[export] Hint Resolve quietly_active : calm.

(** No notification of a peer's timers touches its keypairs or its endpoint. *)
Lemma quietly_runCall c p : quietly p (runCall c p).
Proof.
  destruct c; cbn [runCall]; unfold timersDataSent, timersDataReceived,
    timersAnyAuthenticatedPacketSent, timersAnyAuthenticatedPacketReceived, timersHandshakeInitiated,
    timersHandshakeComplete, timersSessionDerived, timersAnyAuthenticatedPacketTraversal, timersStart,
    timersStop; quieten.
Qed.

Section Delivery.
Context `{C : Crypto} `{CL : !CryptoLaws C}.

(** ** The two ends of a session *)

(** Peer [p] of the device runs the session [k], its current one. *)
Record session (p : peer_id) (k : kp_id) (x : Peer) (kp : Keypair) (w : World) : Prop := {
  ss_peer : d_peers (dev w) !! p = Some x;
  ss_running : isRunning x = true;
  ss_current : current (keypairs x) = Some k;
  ss_kp : d_keypairs (dev w) !! k = Some kp }.

(** The sending end: elements [es] of the session wait in container [c], the
    first for [p] and in the hands of the encryption workers; the peer's address
    is [e], the next send goes well and the session needs no new handshake. *)
Record sending (p : peer_id) (k : kp_id) (x : Peer) (kp : Keypair) (c : cont_id) (es : list OutElem)
    (e : Endpoint) (w : World) : Prop := {
  sd_session : session p k x kp w;
  sd_state : d_state (dev w) = deviceStateUp;
  sd_cont : d_outConts (dev w) !! c = Some (mkContainer true es);
  sd_outbound : exists rest, outbound x = c :: rest;
  sd_worker : c ∈ d_encryption (dev w);
  sd_keypair : Forall (fun e => oe_keypair e = Some k) es;
  sd_endpoint : ep_val (endpoint x) = Some e /\ clearSrcOnTx (endpoint x) = false;
  sd_net : hd SendOk (w_net w) = SendOk;
  sd_fresh : sendNonce kp <= RekeyAfterMessages /\
    (isInitiator kp = true -> since (w_now w) (Some (created kp)) <= RekeyAfterTime);
  sd_mtu : 0 <= d_mtu (dev w) }.

(** The receiving end: the session is in the index table under its own index,
    it is young enough, and nothing received before waits. *)
Record receiving (p : peer_id) (k : kp_id) (x : Peer) (kp : Keypair) (w : World) : Prop := {
  rv_session : session p k x kp w;
  rv_next : next (keypairs x) <> Some k;
  rv_inbound : inbound x = [];
  rv_entry : exists h, d_indexTable (dev w) !! kp_localIndex kp = Some (mkIndexEntry (Some p) h (Some k));
  rv_age : w_now w <= created kp + RejectAfterTime;
  rv_fresh : isInitiator kp = true ->
    since (w_now w) (Some (created kp)) <= RejectAfterTime - KeepaliveTimeout - RekeyTimeout }.

(** The keypairs of the two ends of one session, as seen from the sender. *)
Record matched (kpA kpB : Keypair) : Prop := {
  mt_key : send kpA = receive kpB;
  mt_index : kp_remoteIndex kpA = kp_localIndex kpB;
  mt_range : 0 <= kp_remoteIndex kpA < 2 ^ 32 }.

(** The filter has seen the counters [s] and none of the elements'; they are
    distinct and lie in one window. *)
Record unseen (f : Filter) (es : list OutElem) : Prop := {
  us_nodup : NoDup (oe_nonce <$> es);
  us_range : exists s hi, repr f s /\ spec.top s <= hi /\ Forall (fun e =>
    0 <= oe_nonce e < RejectAfterMessages /\ hi - 8128 <= oe_nonce e <= hi /\
    oe_nonce e ∉ spec.seen s) es }.

(** ** The filter lets them through *)

Lemma spec_run_unseen es : forall s hi, spec.top s <= hi -> NoDup (oe_nonce <$> es) ->
  Forall (fun e => 0 <= oe_nonce e < RejectAfterMessages /\ hi - 8128 <= oe_nonce e <= hi /\
    oe_nonce e ∉ spec.seen s) es ->
  (spec.run s (calls es)).1 = replicate (length es) true.
Proof.
  induction es as [|e es IH]; intros s hi Hs Hn He; [done|].
  apply Forall_cons in He as [(H1 & H2 & H3) He]. cbn [fmap list_fmap] in Hn. apply NoDup_cons in Hn as [Hn1 Hn].
  cbn [calls fmap list_fmap spec.run]. unfold spec.validate. rewrite decide_True by (split_and!; [lia|lia|done]).
  specialize (IH (spec.mk (Z.max (spec.top s) (oe_nonce e)) ({[oe_nonce e]} ∪ spec.seen s)) hi).
  unfold calls in IH. cbn [spec.top spec.seen] in IH. destruct (spec.run _ _) as [oks s']. cbn [fst] in *.
  cbn [length replicate]. f_equal. apply IH; [lia|done|].
  rewrite Forall_forall in He |- *. intros e' He'. destruct (He e' He') as (? & ? & ?).
  split_and!; [lia|lia|lia|lia|]. rewrite elem_of_union, elem_of_singleton. intros [E|E]; [|done].
  apply Hn1. rewrite <- E. by apply list_elem_of_fmap_2.
Qed.

Lemma unseen_accepted f es : unseen f es ->
  exists f', runFilter f (calls es) = (replicate (length es) true, f').
Proof.
  intros [Hn (s & hi & Hr & Hs & He)]. exists (runFilter f (calls es)).2.
  destruct (runFilter_spec (calls es) f s Hr) as [E _].
  - unfold calls, counter_ok. apply Forall_fmap. eapply Forall_impl; [exact He|]. cbn.
    unfold RejectAfterMessages. intros e' (? & _). cbn. lia.
  - rewrite (spec_run_unseen es s hi Hs Hn He) in E. rewrite <- E. by destruct (runFilter f (calls es)).
Qed.

(** ** The sending end *)

Lemma encryptElems_sealed k kp es w : 0 <= d_mtu (dev w) -> Forall (fun e => oe_keypair e = Some k) es ->
  d_keypairs (dev w) !! k = Some kp ->
  runs (encryptElems es) w (fun es' w' => w' = w /\ oe_packet <$> es' = sealed (d_mtu (dev w)) kp <$> es).
Proof.
  intros Hm Hk Ekp. induction Hk as [|e es He Hk IH]; cbn [encryptElems]; [by wstep|].
  rewrite He. do 4 wstep. rewrite encryptElem_some by done. wstep. eapply runs_mono; [exact IH|]. intros es' w' [-> E]. wstep. split; [done|].
  cbn [fmap list_fmap]. by rewrite E.
Qed.

Lemma encryptTurn_seals p k x kp c es e w : sending p k x kp c es e w ->
  exists es' work, oe_packet <$> es' = sealed (d_mtu (dev w)) kp <$> es /\
  encryptTurn c w = Some (tt, w <| dev ::= fun d => d <| d_encryption := work |>
    <| d_outConts ::= <[c := mkContainer false es']> |> |>).
Proof.
  intros H. pose proof (sd_session _ _ _ _ _ _ _ _ H) as Hs. unfold encryptTurn.
  rewrite decide_True by exact (sd_worker _ _ _ _ _ _ _ _ H). set (work := filter (fun x => x <> c) (d_encryption (dev w))).
  set (w1 := w <| dev ::= fun d => d <| d_encryption := work |> |>).
  change (exists es' work', oe_packet <$> es' = sealed (d_mtu (dev w)) kp <$> es /\
    encryptContainer c w1 = Some (tt, w <| dev ::= fun d => d <| d_encryption := work' |>
    <| d_outConts ::= <[c := mkContainer false es']> |> |>)).
  destruct (runs_exists _ _ _ (encryptElems_sealed k kp es w1 (sd_mtu _ _ _ _ _ _ _ _ H) (sd_keypair _ _ _ _ _ _ _ _ H)
    (ss_kp _ _ _ _ _ Hs))) as (es' & w' & E & -> & Ep).
  exists es', work. split; [done|]. unfold encryptContainer. rewrite bind_eq. unfold getOut.
  change (d_outConts (dev w1)) with (d_outConts (dev w)). rewrite (sd_cont _ _ _ _ _ _ _ _ H).
  cbn [elems]. rewrite bind_eq, E. done.
Qed.

(** A session that needs no new handshake starts none. *)
Lemma keepKeyFreshSending_idle p k w kp ks : (calmPart <$> d_peers (dev w) !! p) = Some ks ->
  current ks.1.1 = Some k -> d_keypairs (dev w) !! k = Some kp -> sendNonce kp <= RekeyAfterMessages ->
  (isInitiator kp = true -> since (w_now w) (Some (created kp)) <= RekeyAfterTime) ->
  keepKeyFreshSending p w = Some (tt, w).
Proof.
  intros E Hc Hk Hn Ht. destruct (d_peers (dev w) !! p) as [x|] eqn:Ex; [|done].
  cbn in E. injection E as <-. cbn in Hc. unfold keepKeyFreshSending.
  rewrite bind_eq, (getPeer_some _ _ _ Ex), Hc, bind_eq. unfold getKp. rewrite Hk, bind_eq. cbn [getNow].
  rewrite !Z.gtb_ltb, (proj2 (Z.ltb_ge _ _)) by done. destruct (isInitiator kp); [|done].
  by rewrite (proj2 (Z.ltb_ge _ _)) by auto.
Qed.

Lemma keepKeyFreshReceiving_idle p k w kp ks : (calmPart <$> d_peers (dev w) !! p) = Some ks ->
  current ks.1.1 = Some k -> d_keypairs (dev w) !! k = Some kp ->
  (isInitiator kp = true ->
    since (w_now w) (Some (created kp)) <= RejectAfterTime - KeepaliveTimeout - RekeyTimeout) ->
  keepKeyFreshReceiving p w = Some (tt, w).
Proof.
  intros E Hc Hk Ht. destruct (d_peers (dev w) !! p) as [x|] eqn:Ex; [|done].
  cbn in E. injection E as <-. cbn in Hc. unfold keepKeyFreshReceiving.
  rewrite bind_eq, (getPeer_some _ _ _ Ex). destruct (sentLastMinuteHandshake _); [done|].
  rewrite Hc, bind_eq. unfold getKp. rewrite Hk, bind_eq. cbn [getNow].
  destruct (isInitiator kp); [|done]. by rewrite Z.gtb_ltb, (proj2 (Z.ltb_ge _ _)) by auto.
Qed.

Lemma runs_netSend e bufs w (Q : sendResult -> World -> Prop) : hd SendOk (w_net w) = SendOk ->
  (forall net, Q SendOk (w <| w_out ::= fun o => o ++ [OutUDP e bufs] |> <| w_net := net |>)) ->
  runs (netSend e bufs) w Q.
Proof.
  intros Hn HQ. unfold runs, netSend. destruct (w_net w) as [|r rs] eqn:E.
  - specialize (HQ []). rewrite <- E in HQ. by destruct w.
  - cbn [hd] in Hn. rewrite Hn. apply HQ.
Qed.

Lemma runs_getOut c ct w Q : d_outConts (dev w) !! c = Some ct -> Q ct w -> runs (getOut c) w Q.
Proof. intros E H. unfold runs, getOut. by rewrite E. Qed.
Lemma runs_getIn c ct w Q : d_inConts (dev w) !! c = Some ct -> Q ct w -> runs (getIn c) w Q.
Proof. intros E H. unfold runs, getIn. by rewrite E. Qed.

(** The sequential sender of a session at rest: one datagram batch, no more. *)
Lemma sequentialSend_transmits p c w x ct e ks k kp :
  d_outConts (dev w) !! c = Some ct -> d_peers (dev w) !! p = Some x -> isRunning x = true ->
  d_state (dev w) = deviceStateUp -> calmPart x = ks -> current ks.1.1 = Some k ->
  ep_val ks.1.2 = Some e -> clearSrcOnTx ks.1.2 = false -> hd SendOk (w_net w) = SendOk ->
  d_keypairs (dev w) !! k = Some kp -> sendNonce kp <= RekeyAfterMessages ->
  (isInitiator kp = true -> since (w_now w) (Some (created kp)) <= RekeyAfterTime) ->
  runs (sequentialSend p c) w (fun _ w' => w_out w' = w_out w ++ [OutUDP e (oe_packet <$> elems ct)]).
Proof.
  intros Ec Ex Hrun Hst Hks Hcur Hep Hcl Hnet Hkp Hn Ht. unfold sequentialSend.
  wstep. eapply runs_getOut; [exact Ec|]. do 2 wstep. rewrite Hrun. cbn [negb].
  wstep. eapply runs_mono; [apply (quietly_runCall AnyTraversal); by eexists|]. intros ? w1 C1.
  wstep. eapply runs_mono; [apply (quietly_runCall AnySent), (calm_some _ _ _ C1); by eexists|].
  intros ? w2 C2. assert (calm p w w2) as HC by by transitivity w1. clear C1 C2 w1.
  destruct HC as [Co Cn Cnet Cs Ck Cp]. rewrite Ex in Cp. cbn [fmap option_fmap option_map] in Cp. rewrite Hks in Cp.
  destruct (d_peers (dev w2) !! p) as [x2|] eqn:Ex2; [|done]. injection Cp as Cp.
  assert (ep_val (endpoint x2) = Some e) as Hep2 by (rewrite <- Hep, <- Cp; done).
  assert (clearSrcOnTx (endpoint x2) = false) as Hcl2 by (rewrite <- Hcl, <- Cp; done).
  wstep. unfold SendBuffers. do 2 wstep. unfold isClosed. rewrite Cs, Hst, bool_decide_false by done.
  do 2 wstep. rewrite Hep2, Hcl2. do 3 wstep.
  rewrite <- Cnet in Hnet. eapply runs_netSend; [done|]. intros net. do 3 wstep.
  match goal with |- runs _ ?w3 _ => set (w3' := w3) end.
  assert (w_out w3' = w_out w ++ [OutUDP e (oe_packet <$> elems ct)]) as Eout by (cbn; by rewrite Co).
  assert (calmPart <$> d_peers (dev w3') !! p = Some ks) as Ep
    by (cbn; rewrite lookup_insert_eq; by rewrite <- Cp).
  assert (d_keypairs (dev w3') !! k = Some kp) as Ek by (cbn; by rewrite Ck).
  assert (w_now w3' = w_now w) as Enow by done. clearbody w3'.
  wstep. eapply runs_mono; [apply quietly_when with (p := p); [apply (quietly_runCall DataSent)|]|].
  { destruct (d_peers (dev w3') !! p); [by eexists|done]. }
  intros ? w4 [Do Dn Dnet Ds Dk Dp]. unfold dropOut. do 2 wstep. unfold runs.
  erewrite (keepKeyFreshSending_idle p k _ kp ks); [|cbn; by rewrite Dp|done|cbn; by rewrite Dk|done|].
  - cbn. by rewrite Do.
  - cbn. by rewrite Dn, Enow.
Qed.

Lemma transmission p k x kp c es e w : sending p k x kp c es e w ->
  exists w', runEvents [EvEncrypt c; EvSend p] [] w = Some ([], w') /\
    w_out w' = w_out w ++ [OutUDP e (sealed (d_mtu (dev w)) kp <$> es)].
Proof.
  intros H. destruct (encryptTurn_seals _ _ _ _ _ _ _ _ H) as (es' & work & Ep & E).
  destruct (sd_outbound _ _ _ _ _ _ _ _ H) as [rest Eo]. destruct (sd_session _ _ _ _ _ _ _ _ H) as [Ex Hrun Hcur Hk].
  destruct (sd_endpoint _ _ _ _ _ _ _ _ H) as [He Hcl]. destruct (sd_fresh _ _ _ _ _ _ _ _ H) as [Hn Ht].
  cbn [runEvents runEvent runSimple]. rewrite !bind_eq, E.
  match type of E with _ = Some (_, ?w1) => set (w1' := w1) end.
  assert (runs (sendTurn p) w1' (fun _ w' =>
    w_out w' = w_out w ++ [OutUDP e (sealed (d_mtu (dev w)) kp <$> es)])) as Hs.
  { unfold runs, sendTurn. change (d_peers (dev w1')) with (d_peers (dev w)). rewrite Ex, Eo.
    assert (d_outConts (dev w1') !! c = Some (mkContainer false es')) as Ec by (cbn; by rewrite lookup_insert_eq).
    rewrite Ec. cbn [locked]. fold (runs (modPeer p (fun x => x <| outbound := rest |>);;; sequentialSend p c) w1'
      (fun _ w' => w_out w' = w_out w ++ [OutUDP e (sealed (d_mtu (dev w)) kp <$> es)])).
    wstep. eapply runs_modPeer; [exact Ex|]. rewrite <- Ep.
    eapply runs_mono; [eapply (sequentialSend_transmits p c _ _ (mkContainer false es') e (calmPart x) k kp);
      [exact Ec|cbn; by rewrite lookup_insert_eq|done|exact (sd_state _ _ _ _ _ _ _ _ H)|done|done|done|done
      |exact (sd_net _ _ _ _ _ _ _ _ H)|done|done|done]|].
    by intros ? w'. }
  destruct (runs_exists _ _ _ Hs) as ([] & w' & E' & Eout). exists w'. split; [|done]. cbn [ret]. unfold ret, bind. by rewrite E'.
Qed.

(** ** The receiving end *)

(** A container of the peer stands alone in its queue, [w0] being the state
    before anything arrived. *)
Record waiting (p : peer_id) (c : cont_id) (ct : Container InElem) (w0 w : World) : Prop := {
  wt_out : w_out w = w_out w0;
  wt_now : w_now w = w_now w0;
  wt_keypairs : d_keypairs (dev w) = d_keypairs (dev w0);
  wt_routes : d_allowedips (dev w) = d_allowedips (dev w0);
  wt_cont : d_inConts (dev w) !! c = Some ct;
  wt_worker : locked ct = true -> c ∈ d_decryption (dev w);
  wt_peer : exists x x', d_peers (dev w0) !! p = Some x /\ d_peers (dev w) !! p = Some x' /\
    calmPart x' = calmPart x /\ inbound x' = [c] }.

Lemma runs_shareInbound es w (Q : cont_id -> World -> Prop) :
  Q (fresh (dom (d_inConts (dev w))))
    (w <| dev ::= fun d => d <| d_inConts ::= <[fresh (dom (d_inConts (dev w))) := mkContainer true es]> |> |>) ->
  runs (shareInbound es) w Q.
Proof. done. Qed.

Lemma receiveIncoming_queues mtu p k x kpA kpB es from w :
  receiving p k x kpB w -> matched kpA kpB -> es <> [] -> Forall (fun e => 0 <= oe_nonce e < 2 ^ 64) es ->
  runs (receiveIncoming ((fun d => (d, from)) <$> (sealed mtu kpA <$> es))) w (fun _ w' =>
    waiting p (fresh (dom (d_inConts (dev w)))) (mkContainer true (arrived k from <$> (sealed mtu kpA <$> es))) w w').
Proof.
  intros H [Hkey Hidx Hrg] Hne Hn. destruct (rv_session _ _ _ _ _ H) as [Ex Hrun Hcur Hk].
  destruct (rv_entry _ _ _ _ _ H) as [h Eidx]. unfold receiveIncoming. wstep.
  eapply runs_mono; [eapply (dispatchPackets_session w p k kpB _ from _ [] (kp_remoteIndex kpA))|].
  - apply Forall_fmap. eapply Forall_impl; [exact Hn|]. intros e He. cbn.
    destruct (sealed_fields mtu kpA e Hrg He) as (? & ? & _). split_and!; [apply sealed_length|done|done].
  - rewrite Hidx. exact Eidx.
  - done.
  - done.
  - done.
  - exact (rv_age _ _ _ _ _ H).
  - intros m w' [-> ->]. destruct es as [|e es]; [done|].
    change (sealed mtu kpA <$> e :: es) with (sealed mtu kpA e :: (sealed mtu kpA <$> es)).
    rewrite (foldl_addFor (arrived k from)). set (ies := arrived k from <$> _). wstep.
    unfold runs at 1, rangeOrder. cbn [length pickOrder]. rewrite Nat.mod_1_r. cbn [take drop app nth pickOrder].
    cbn [forEach]. do 3 wstep. rewrite Hrun. do 2 wstep.
    apply runs_shareInbound. do 4 wstep.
    split; try done; cbn.
    + by rewrite lookup_insert_eq.
    + intros _. apply elem_of_app. right. by left.
    + exists x. eexists. split_and!; [done|by rewrite lookup_insert_eq|done|].
      cbn. by rewrite (rv_inbound _ _ _ _ _ H).
Qed.

Lemma decryptTurn_opens mtu p k kpA kpB es from c w0 w :
  send kpA = receive kpB -> 0 <= kp_remoteIndex kpA < 2 ^ 32 ->
  Forall (fun e => 0 <= oe_nonce e < 2 ^ 64) es -> d_keypairs (dev w0) !! k = Some kpB ->
  waiting p c (mkContainer true (arrived k from <$> (sealed mtu kpA <$> es))) w0 w ->
  runs (decryptTurn c) w (fun _ w' => waiting p c (mkContainer false (opened mtu k from <$> es)) w0 w').
Proof.
  intros Hk Hr Hn Ek [Ho Hnow Hkps Hrt Hc Hw (x & x' & Hx)]. unfold runs, decryptTurn.
  rewrite decide_True by by apply Hw. set (work := filter (fun x => x <> c) (d_decryption (dev w))).
  change (runs (modD (fun d => d <| d_decryption := work |>);;; decryptContainer c) w
    (fun _ w' => waiting p c (mkContainer false (opened mtu k from <$> es)) w0 w')).
  do 2 wstep. unfold decryptContainer. wstep. eapply runs_getIn; [exact Hc|]. wstep. cbn [elems].
  rewrite <- list_fmap_compose.
  eapply runs_mono; [apply (decryptElems_sealed _ mtu kpA kpB k from es); [done|done|done|by rewrite <- Ek, <- Hkps]|].
  intros es' w' [-> ->]. unfold putIn. wstep. split; try done.
  - cbn. by rewrite lookup_insert_eq.
  - by exists x, x'.
Qed.

(** The peer's keypairs are [ks]. *)
Definition hasKeys (p : peer_id) (ks : Keypairs) (w : World) : Prop :=
  exists x, d_peers (dev w) !! p = Some x /\ keypairs x = ks.

Lemma calm_hasKeys p ks w w' : calm p w w' -> hasKeys p ks w -> hasKeys p ks w'.
Proof.
  intros H (x & Ex & Hk). pose proof (calm_peer _ _ _ H) as E. rewrite Ex in E.
  destruct (d_peers (dev w') !! p) as [x'|] eqn:Ex'; [|done]. exists x'. split; [done|].
  cbn in E. injection E as E _ _. congruence.
Qed.

Lemma hasKeys_peer p ks w : hasKeys p ks w -> is_Some (d_peers (dev w) !! p).
Proof. intros (x & E & _). by eexists. Qed.

(** From the loop to the write: nothing is sent and no handshake starts. *)
Lemma receiveTail p from k x kp w0 w r (rest : M unit) Q :
  (w_out w = w_out w0 /\ w_now w = w_now w0 /\ hasKeys p (keypairs x) w) ->
  (exists kp', d_keypairs (dev w) !! k = Some kp' /\ isInitiator kp' = isInitiator kp /\ created kp' = created kp) ->
  current (keypairs x) = Some k ->
  (isInitiator kp = true ->
    since (w_now w0) (Some (created kp)) <= RejectAfterTime - KeepaliveTimeout - RekeyTimeout) ->
  validTail r = Some from -> dataReceived r = true ->
  (forall w', w_out w' = w_out w0 -> runs rest w' Q) ->
  runs (addRxBytes p (rxLen r);;;
    match validTail r with
    | Some from =>
        SetEndpointFromPacket p from;;;
        keepKeyFreshReceiving p;;;
        timersAnyAuthenticatedPacketTraversal p;;;
        timersAnyAuthenticatedPacketReceived p
    | None => ret tt
    end;;;
    when (dataReceived r) (timersDataReceived p);;; rest) w Q.
Proof.
  intros (Ho & Hn & Hks) (kp' & Ek & Hi & Hcr) Hcur Ht -> -> Hrest. wstep.
  eapply runs_mono; [apply (quietly_modPeer p); [done|by eapply hasKeys_peer]|]. intros ? w1 C1.
  pose proof (calm_hasKeys _ _ _ _ C1 Hks) as (x1 & Ex1 & Hk1). destruct C1 as [Co1 Cn1 _ _ Ck1 _].
  wstep. wstep. apply (runs_mono _ _ (fun _ w2 => w_out w2 = w_out w0 /\ w_now w2 = w_now w0 /\
    d_keypairs (dev w2) !! k = Some kp' /\ hasKeys p (keypairs x) w2)).
  { unfold SetEndpointFromPacket. do 2 wstep. destruct (disableRoaming _); wstep;
      (split_and!; [by rewrite <- Ho|by rewrite <- Hn|cbn; by rewrite Ck1|]).
    - by exists x1.
    - eexists. split; [cbn; apply lookup_insert_eq|done]. }
  intros _ w2 (Ho2 & Hn2 & Ek2 & Hks2). pose proof Hks2 as (x2 & Ex2 & Hk2).
  wstep. unfold runs at 1. erewrite (keepKeyFreshReceiving_idle p k w2 kp' (calmPart x2));
    [|by rewrite Ex2|by cbn; rewrite Hk2|done|by rewrite Hi, Hn2, Hcr].
  assert (forall c, quietly p (runCall c p)) as Hq by (intros; apply quietly_runCall).
  pose proof (hasKeys_peer _ _ _ Hks2) as Hp2. wstep.
  eapply runs_mono; [by apply (Hq AnyTraversal)|]. intros ? w3 C3. pose proof (calm_some _ _ _ C3 Hp2) as Hp3.
  eapply runs_mono; [by apply (Hq AnyReceived)|]. intros ? w4 C4. pose proof (calm_some _ _ _ C4 Hp3) as Hp4.
  wstep. wstep. eapply runs_mono; [by apply (Hq DataReceived)|]. intros ? w5 C5. apply Hrest.
  by rewrite (calm_out _ _ _ C5), (calm_out _ _ _ C4), (calm_out _ _ _ C3).
Qed.

Lemma receiveTurn_delivers mtu p k x kp es from c w0 w f : es <> [] ->
  session p k x kp w0 -> next (keypairs x) <> Some k ->
  (isInitiator kp = true ->
    since (w_now w0) (Some (created kp)) <= RejectAfterTime - KeepaliveTimeout - RekeyTimeout) ->
  runFilter (replayFilter kp) (calls es) = (replicate (length es) true, f) ->
  Forall (fun e => fromPeer (d_allowedips (dev w0)) p (oe_packet e)) es ->
  waiting p c (mkContainer false (opened mtu k from <$> es)) w0 w ->
  runs (receiveTurn p) w (fun _ w' => w_out w' = w_out w0 ++ [OutTUN (oe_packet <$> es)]).
Proof.
  intros Hne [Ex0 Hrun Hcur Hk] Hnext Ht Hf Hp [Ho Hnow Hkps Hrt Hc _ (x0 & x' & Ex & Ex' & Hcalm & Hin)].
  rewrite Ex0 in Ex. injection Ex as <-. unfold runs, receiveTurn. rewrite Ex', Hin, Hc. cbn [locked].
  set (Q := fun (_ : unit) w' => w_out w' = w_out w0 ++ [OutTUN (oe_packet <$> es)]).
  change (runs (modPeer p (fun x => x <| inbound := [] |>);;; sequentialReceive p c) w Q).
  wstep. eapply runs_modPeer; [exact Ex'|].
  match goal with |- runs _ ?w1 _ => set (w1' := w1) end.
  assert (d_peers (dev w1') !! p = Some (x' <| inbound := [] |>)) as Ex1 by (cbn; by rewrite lookup_insert_eq).
  assert (calmPart (x' <| inbound := [] |>) = calmPart x) as Hc1 by done.
  assert (w_out w1' = w_out w0 /\ w_now w1' = w_now w0 /\ d_keypairs (dev w1') !! k = Some kp /\
    d_allowedips (dev w1') = d_allowedips (dev w0) /\
    d_inConts (dev w1') !! c = Some (mkContainer false (opened mtu k from <$> es))) as (Ho1 & Hn1 & Hk1 & Hr1 & Ec1)
    by (cbn; split_and!; [done|done|by rewrite Hkps|done|done]).
  clearbody w1'. set (x1 := x' <| inbound := [] |>) in *. clearbody x1. clear dependent w.
  unfold sequentialReceive. wstep. eapply runs_getIn; [exact Ec1|]. wstep. cbn [elems].
  eapply runs_mono; [eapply (receiveElems_opened mtu p k from es w1' x1 kp _ f);
    [done| |done|done|by rewrite Hr1]|].
  { injection Hc1 as Hkp _ _. by rewrite Hkp. }
  intros r w2 [[Htail Hdata Hbufs] ->]. rewrite decide_False in Htail by done. rewrite decide_False in Hdata by done. cbn [rxBufs app] in Hbufs.
  set (w2 := setFilter k kp f w1').
  assert (w_out w2 = w_out w0 /\ w_now w2 = w_now w0 /\ hasKeys p (keypairs x) w2) as Hw2.
  { split_and!; [done|done|]. exists x1. split; [done|]. by injection Hc1 as ->. }
  assert (exists kp', d_keypairs (dev w2) !! k = Some kp' /\ isInitiator kp' = isInitiator kp /\ created kp' = created kp)
    as Hk2 by (eexists; split_and!; [cbn; by rewrite lookup_insert_eq|done|done]).
  clearbody w2. eapply (receiveTail p from k x kp w0 w2 r); [done..|].
  intros w3 Ho3. wstep. rewrite Hbufs, length_fmap. destruct es as [|e es]; [done|]. cbn [length Nat.eqb negb].
  wstep. unfold tunWrite. wstep. unfold dropIn. wstep. unfold Q. cbn. by rewrite Ho3.
Qed.

Lemma reception mtu p k x kpA kpB es from w :
  receiving p k x kpB w -> matched kpA kpB -> es <> [] -> unseen (replayFilter kpB) es ->
  Forall (fun e => fromPeer (d_allowedips (dev w)) p (oe_packet e)) es ->
  exists w', runEvents [EvUDP ((fun d => (d, from)) <$> (sealed mtu kpA <$> es));
      EvDecrypt (fresh (dom (d_inConts (dev w)))); EvReceive p] [] w = Some ([], w') /\
    w_out w' = w_out w ++ [OutTUN (oe_packet <$> es)].
Proof.
  intros H Hm Hne Hu Hp. destruct (unseen_accepted _ _ Hu) as [f Hf].
  assert (Forall (fun e => 0 <= oe_nonce e < 2 ^ 64) es) as Hn.
  { destruct Hu as [_ (s & hi & _ & _ & He)]. eapply Forall_impl; [exact He|].
    unfold RejectAfterMessages. intros e (? & _). cbn. lia. }
  pose proof (rv_session _ _ _ _ _ H) as Hs. pose proof (ss_kp _ _ _ _ _ Hs) as Hk. destruct Hm as [Hkey Hi Hr].
  destruct (runs_exists _ _ _ (receiveIncoming_queues mtu p k x kpA kpB es from w H (Build_matched _ _ Hkey Hi Hr) Hne Hn))
    as ([] & w1 & E1 & W1).
  destruct (runs_exists _ _ _ (decryptTurn_opens mtu p k kpA kpB es from _ w w1 Hkey Hr Hn Hk W1))
    as ([] & w2 & E2 & W2).
  destruct (runs_exists _ _ _ (receiveTurn_delivers mtu p k x kpB es from _ w w2 f Hne Hs (rv_next _ _ _ _ _ H)
    (rv_fresh _ _ _ _ _ H) Hf Hp W2)) as ([] & w3 & E3 & Ho).
  exists w3. split; [|done]. cbn [runEvents runEvent runSimple].
  unfold bind at 1. unfold bind at 1. rewrite E1. cbn. unfold bind. rewrite E2. cbn. by rewrite E3.
Qed.

(** ** Properties *)

(** C2: packets cross a session, the sender's MTU not being negative.  The elements
    of a container that waits at the sender are encrypted by a worker and transmitted by the sequential
    sender in one batch, to the peer's endpoint; when that batch reaches the
    other end, the receiver finds the session by its index, a worker decrypts it,
    the anti-replay filter passes it, and the sequential receiver writes exactly
    the packets that were sent, in order and without their padding, in one write
    to its TUN device; neither end sends or writes anything else. *)
Theorem transport_delivery (pA pB : peer_id) (kA kB : kp_id) (xA xB : Peer) (kpA kpB : Keypair)
    (c : cont_id) (es : list OutElem) (e from : Endpoint) (wA wB : World) :
  sending pA kA xA kpA c es e wA -> receiving pB kB xB kpB wB -> matched kpA kpB ->
  es <> [] -> unseen (replayFilter kpB) es ->
  Forall (fun el => fromPeer (d_allowedips (dev wB)) pB (oe_packet el)) es ->
  exists wA' wB' batch,
    runEvents [EvEncrypt c; EvSend pA] [] wA = Some ([], wA') /\
    w_out wA' = w_out wA ++ [OutUDP e batch] /\
    runEvents [EvUDP ((fun d => (d, from)) <$> batch);
      EvDecrypt (fresh (dom (d_inConts (dev wB)))); EvReceive pB] [] wB = Some ([], wB') /\
    w_out wB' = w_out wB ++ [OutTUN (oe_packet <$> es)].
Proof.
  intros HA HB Hm Hne Hu Hp. destruct (transmission _ _ _ _ _ _ _ _ HA) as (wA' & EA & OA).
  destruct (reception (d_mtu (dev wA)) _ _ _ kpA _ es from _ HB Hm Hne Hu Hp) as (wB' & EB & OB).
  by exists wA', wB', (sealed (d_mtu (dev wA)) kpA <$> es).
Qed.

End Delivery.

(** ** Witness *)

(** Two packets from 10.0.0.1 cross the session whose indices are 6 and 5. *)
Definition delivery_packet (b : Z) : bytes :=
  [69; 0; 0; 21; 0; 0; 0; 0; 64; 17; 0; 0; 10; 0; 0; 1; 10; 0; 0; 2; b].
Definition delivery_elems : list OutElem :=
  [mkOutElem (delivery_packet 1) 41 (Some 7%positive) (Some 1%positive);
   mkOutElem (delivery_packet 2) 42 (Some 7%positive) (Some 1%positive)].
Definition delivery_sendKp : Keypair := mkKeypair 43 (replicate 32 1) (zeros 32) zeroFilter true 0 5 6.
Definition delivery_recvKp : Keypair := mkKeypair 0 (zeros 32) (replicate 32 1) zeroFilter false 0 6 5.
Definition delivery_sender : Peer :=
  sample_peer true <| keypairs := mkKeypairs (Some 7%positive) None None |> <| outbound := [3%positive] |>.
Definition delivery_receiver : Peer :=
  sample_peer true <| keypairs := mkKeypairs (Some 9%positive) None None |>.
Definition delivery_A : World := sample_world second delivery_sender
  <| dev ::= fun d => d <| d_keypairs := {[ 7%positive := delivery_sendKp ]} |>
     <| d_outConts := {[ 3%positive := mkContainer true delivery_elems ]} |>
     <| d_encryption := [3%positive] |> |>.
Definition delivery_B : World := sample_world second delivery_receiver
  <| dev ::= fun d => d <| d_keypairs := {[ 9%positive := delivery_recvKp ]} |>
     <| d_indexTable := {[ 6 := mkIndexEntry (Some 1%positive) None (Some 9%positive) ]} |>
     <| d_allowedips := match Insert [10; 0; 0; 0] 8 1%positive emptyTable with
                        | Some (_, t) => t | None => emptyTable end |> |>.

Lemma transport_delivery_witness :
  exists wA' wB' batch,
    runEvents (C := toyCrypto) [EvEncrypt 3; EvSend 1] [] delivery_A = Some ([], wA') /\
    w_out wA' = w_out delivery_A ++ [OutUDP sample_endpoint batch] /\
    runEvents (C := toyCrypto) [EvUDP ((fun d => (d, sample_endpoint)) <$> batch);
      EvDecrypt (fresh (dom (d_inConts (dev delivery_B)))); EvReceive 1] [] delivery_B = Some ([], wB') /\
    w_out wB' = w_out delivery_B ++ [OutTUN [delivery_packet 1; delivery_packet 2]].
Proof.
  apply (transport_delivery 1 1 7 9 delivery_sender delivery_receiver delivery_sendKp delivery_recvKp 3
    delivery_elems sample_endpoint sample_endpoint delivery_A delivery_B).
  - constructor; try reflexivity; [by constructor|by exists []|by left|by repeat constructor|done| |].
    + split; [|intros _]; vm_compute; discriminate.
    + vm_compute; discriminate.
  - constructor; try reflexivity; try discriminate; [by constructor|by exists None].
  - constructor; [reflexivity|reflexivity|]. vm_compute. split; [discriminate|reflexivity].
  - discriminate.
  - constructor; [apply (bool_decide_unpack _); vm_compute; exact I|]. exists spec.empty, 42.
    split_and!; [apply (repr_empty zeroFilter); reflexivity|vm_compute; discriminate|].
    repeat (apply Forall_cons; split); [| |by apply Forall_nil];
      (split_and!; try (vm_compute; by (reflexivity || discriminate)); apply not_elem_of_empty).
  - repeat (apply Forall_cons; split); [| |by apply Forall_nil];
      (left; split_and!; [reflexivity|apply (bool_decide_unpack _); vm_compute; exact I|reflexivity|
        vm_compute; reflexivity]).
Defined.
