(* ===== verification/Offload.v ===== *)
(** Generic segmentation offload of the Linux TUN device: the virtio header,
    splitting a large packet into segments, and the checksum of a single one
    ([tun/offload_linux.go] and [handleVirtioRead] of [tun/tun_linux.go]).

    The bounds of slices are those of their lengths, where Go allows them up to
    the capacity: the model panics wherever the code does, and in some cases
    where the code would read what an earlier packet left in the buffer. *)
From S2P Require Import Prelude Checksum.

(** ** Slices, whose bounds are checked *)

Definition orElse (b : bool) : option unit := if b then Some tt else None.

(** [b[off:]] *)
Definition sliceFrom (b : bytes) (off : nat) : option bytes :=
  _ ← orElse (off <=? length b)%nat; Some (drop off b).
(** [b[lo:hi]] *)
Definition sliceOf (b : bytes) (lo hi : nat) : option bytes :=
  _ ← orElse ((lo <=? hi) && (hi <=? length b))%nat; Some (slice lo hi b).
(** [b[i] = x] *)
Definition putByte (b : bytes) (i : nat) (x : Z) : option bytes :=
  _ ← orElse (i <? length b)%nat; Some (<[i := x]> b).
(** [binary.BigEndian.Uint16(b[off:])] and the other widths *)
Definition getBE (n : nat) (b : bytes) (off : nat) : option Z :=
  _ ← orElse (off + n <=? length b)%nat; Some (be_dec (slice off (off + n) b)).
(** [binary.BigEndian.PutUint16(b[off:], x)] *)
Definition putBE (n : nat) (b : bytes) (off : nat) (x : Z) : option bytes :=
  _ ← orElse (off + n <=? length b)%nat; Some (copy_at b off (be_enc n x)).
(** [copy(b[lo:hi], src)] *)
Definition copyTo (b : bytes) (lo hi : nat) (src : bytes) : option bytes :=
  _ ← orElse ((lo <=? hi) && (hi <=? length b))%nat; Some (copy_at b lo (take (hi - lo) src)).

(** [^x] on 16 bits. *)
Definition not16 (x : Z) : Z := 65535 - x.

(** ** Constants *)

Definition tcpFlagsOffset : Z := 13.
Definition tcpFlagFIN : Z := 1.
Definition tcpFlagPSH : Z := 8.
Definition tcpFlagACK : Z := 16.
Definition ipv4SrcAddrOffset : nat := 12.
Definition ipv6SrcAddrOffset : nat := 8.
Definition udphLen : Z := 8.
Definition virtioNetHdrLen : nat := 10.

(** Of [golang.org/x/sys/unix]. *)
Definition IPPROTO_TCP : Z := 6.
Definition IPPROTO_UDP : Z := 17.
Definition VIRTIO_NET_HDR_F_NEEDS_CSUM : Z := 1.
Definition VIRTIO_NET_HDR_GSO_NONE : Z := 0.
Definition VIRTIO_NET_HDR_GSO_TCPV4 : Z := 1.
Definition VIRTIO_NET_HDR_GSO_TCPV6 : Z := 4.
Definition VIRTIO_NET_HDR_GSO_UDP_L4 : Z := 5.

(** ** The virtio header, in the byte order of the machine *)

Record virtioNetHdr := mkHdr {
  vh_flags : Z; vh_gsoType : Z; vh_hdrLen : Z; vh_gsoSize : Z; vh_csumStart : Z; vh_csumOffset : Z }.
#[export] Instance virtioNetHdr_settable : Settable virtioNetHdr := fun h =>
  mkHdr (vh_flags h) (vh_gsoType h) (vh_hdrLen h) (vh_gsoSize h) (vh_csumStart h) (vh_csumOffset h).

(** Every read that fails, by the message it fails with. *)
Inductive readError :=
  | ErrShortBuffer | ErrOverflows | ErrUnsupportedGSO | ErrVersionGSO | ErrVersion
  | ErrTooShort | ErrTCPHeader | ErrHdrLen | ErrCsumStart | ErrCsumAt | ErrTooManySegments.

Section Offload.
Variable native : endian.

(** [None] is [io.ErrShortBuffer]. *)
Definition hdrDecode (b : bytes) : option virtioNetHdr :=
  if (length b <? virtioNetHdrLen)%nat then None
  else
    Some (mkHdr (nth 0 b 0) (nth 1 b 0) (native_dec native (slice 2 4 b)) (native_dec native (slice 4 6 b))
      (native_dec native (slice 6 8 b)) (native_dec native (slice 8 10 b))).

Definition hdrBytes (v : virtioNetHdr) : bytes :=
  [vh_flags v; vh_gsoType v] ++ native_enc native 2 (vh_hdrLen v) ++ native_enc native 2 (vh_gsoSize v) ++
  native_enc native 2 (vh_csumStart v) ++ native_enc native 2 (vh_csumOffset v).

Definition hdrEncode (v : virtioNetHdr) (b : bytes) : option bytes :=
  if (length b <? virtioNetHdrLen)%nat then None else Some (copy_at b 0 (hdrBytes v)).

(** ** Splitting *)

Definition addrs (isV6 : bool) : nat * nat :=
  if isV6 then (ipv6SrcAddrOffset, 16%nat) else (ipv4SrcAddrOffset, 4%nat).

(** The sum of the pseudo header of the packet [b]. *)
Definition pseudoOf (protocol : Z) (isV6 : bool) (b : bytes) (totalLen : Z) : option Z :=
  let '(srcAt, addrLen) := addrs isV6 in
  src ← sliceOf b srcAt (srcAt + addrLen);
  dst ← sliceOf b (srcAt + addrLen) (srcAt + addrLen * 2);
  Some (pseudoHeaderChecksumNoFold native protocol src dst totalLen).

(** Whether the transport checksum of [pkt] is right. *)
Definition checksumValid (pkt : bytes) (iphLen proto : Z) (isV6 : bool) : option bool :=
  sum ← pseudoOf proto isV6 pkt (u16 (Z.of_nat (length pkt) - iphLen));
  transport ← sliceFrom pkt (Z.to_nat iphLen);
  Some (not16 (checksum native transport sum) =? 0).

(** The IP header of segment [i]: the fields that differ from the first. *)
Definition segmentIP (isV6 : bool) (iphLen i : nat) (totalLen : Z) (out : bytes) : option bytes :=
  if negb isV6 then
    out ← (if (0 <? i)%nat then id ← getBE 2 out 4; putBE 2 out 4 (u16 (id + u16 (Z.of_nat i))) else Some out);
    out ← putBE 2 out 2 (u16 totalLen);
    iph ← sliceOf out 0 iphLen;
    putBE 2 out 10 (not16 (checksum native iph 0))
  else putBE 2 out 4 (u16 (totalLen - Z.of_nat iphLen)).

(** Its transport header. *)
Definition segmentTransport (hdr : virtioNetHdr) (tcp last : bool) (firstTCPSeqNum : Z) (i : nat) (segmentDataLen : Z)
    (out : bytes) : option bytes :=
  let at_ (off : Z) := Z.to_nat (u16 (vh_csumStart hdr + off)) in
  if tcp then
    out ← putBE 4 out (at_ 4) (u32 (firstTCPSeqNum + u16 (vh_gsoSize hdr * u16 (Z.of_nat i))));
    if last then Some out
    else
      f ← out !! at_ tcpFlagsOffset;
      putByte out (at_ tcpFlagsOffset) (Z.ldiff f (Z.lor tcpFlagFIN tcpFlagPSH))
  else putBE 2 out (at_ 4) (u16 (segmentDataLen + u16 (vh_hdrLen hdr - vh_csumStart hdr))).

(** The checksum of the packet in [out[:totalLen]], its pseudo header from [inp]. *)
Definition segmentChecksum (hdr : virtioNetHdr) (protocol : Z) (isV6 : bool) (inp : bytes) (totalLen : nat)
    (segmentDataLen : Z) (out : bytes) : option bytes :=
  let transportHeaderLen := u16 (vh_hdrLen hdr - vh_csumStart hdr) in
  sum ← pseudoOf protocol isV6 inp (u16 (transportHeaderLen + segmentDataLen));
  segment ← sliceOf out (Z.to_nat (vh_csumStart hdr)) totalLen;
  putBE 2 out (Z.to_nat (u16 (vh_csumStart hdr + vh_csumOffset hdr))) (not16 (checksum native segment sum)).

(** One segment, with the payload [inp[dataAt:dataEnd]], written to [out]. *)
Definition segment (hdr : virtioNetHdr) (isV6 tcp : bool) (firstTCPSeqNum : Z) (inp : bytes) (i dataAt dataEnd : nat)
    (out : bytes) : option bytes :=
  let start := Z.to_nat (vh_csumStart hdr) in
  let hdrLen := Z.to_nat (vh_hdrLen hdr) in
  let segmentDataLen := (dataEnd - dataAt)%nat in
  let totalLen := (hdrLen + segmentDataLen)%nat in
  iph ← sliceOf inp 0 start;
  let out := copy_at out 0 iph in
  out ← segmentIP isV6 start i (Z.of_nat totalLen) out;
  transport ← sliceOf inp start hdrLen;
  out ← copyTo out start hdrLen transport;
  out ← segmentTransport hdr tcp (dataEnd =? length inp)%nat firstTCPSeqNum i (Z.of_nat segmentDataLen) out;
  payload ← sliceOf inp dataAt dataEnd;
  out ← copyTo out hdrLen (length out) payload;
  segmentChecksum hdr (if tcp then IPPROTO_TCP else IPPROTO_UDP) isV6 inp totalLen (Z.of_nat segmentDataLen) out.

(** The loop; it ends at the last when the buffers are used up. *)
Fixpoint splitLoop (fuel : nat) (hdr : virtioNetHdr) (isV6 tcp : bool) (firstTCPSeqNum : Z) (inp : bytes)
    (outOffset i dataAt : nat) (outBuffs : list bytes) (sizes : list Z)
    : option (list bytes * list Z * Z * option readError) :=
  match fuel with
  | O => None
  | S fuel =>
      if (dataAt <? length inp)%nat then
        if (i =? length outBuffs)%nat then Some (outBuffs, sizes, Z.of_nat i - 1, Some ErrTooManySegments)
        else
          let dataEnd := Nat.min (dataAt + Z.to_nat (vh_gsoSize hdr)) (length inp) in
          _ ← orElse (i <? length sizes)%nat;
          let sizes := <[i := vh_hdrLen hdr + Z.of_nat (dataEnd - dataAt)]> sizes in
          buf ← outBuffs !! i;
          out ← sliceFrom buf outOffset;
          out ← segment hdr isV6 tcp firstTCPSeqNum inp i dataAt dataEnd out;
          splitLoop fuel hdr isV6 tcp firstTCPSeqNum inp outOffset (S i) (dataAt + Z.to_nat (vh_gsoSize hdr))
            (<[i := take outOffset buf ++ out]> outBuffs) sizes
      else Some (outBuffs, sizes, Z.of_nat i, None)
  end.

Definition isTCP (hdr : virtioNetHdr) : bool :=
  (vh_gsoType hdr =? VIRTIO_NET_HDR_GSO_TCPV4) || (vh_gsoType hdr =? VIRTIO_NET_HDR_GSO_TCPV6).

(** [None] is a panic; otherwise the buffers, the sizes, the number of segments
    and the error. *)
Definition gsoSplit (inp : bytes) (hdr : virtioNetHdr) (outBuffs : list bytes) (sizes : list Z) (outOffset : nat)
    (isV6 : bool) : option (list bytes * list Z * Z * option readError) :=
  inp ← (if negb isV6 then inp ← putByte inp 10 0; putByte inp 11 0 else Some inp);
  let transportCsumAt := Z.to_nat (u16 (vh_csumStart hdr + vh_csumOffset hdr)) in
  inp ← putByte inp transportCsumAt 0;
  inp ← putByte inp (S transportCsumAt) 0;
  firstTCPSeqNum ← (if isTCP hdr then getBE 4 inp (Z.to_nat (u16 (vh_csumStart hdr + 4))) else Some 0);
  splitLoop (S (S (length outBuffs))) hdr isV6 (isTCP hdr) firstTCPSeqNum inp outOffset 0
    (Z.to_nat (vh_hdrLen hdr)) outBuffs sizes.

Definition gsoNoneChecksum (inp : bytes) (cSumStart cSumOffset : Z) : option bytes :=
  let cSumAt := Z.to_nat (u16 (cSumStart + cSumOffset)) in
  initial ← getBE 2 inp cSumAt;
  inp ← putByte inp cSumAt 0;
  inp ← putByte inp (S cSumAt) 0;
  covered ← sliceFrom inp (Z.to_nat cSumStart);
  putBE 2 inp cSumAt (not16 (checksum native covered initial)).

(** The header length, not trusted but parsed: an error, or the header with it. *)
Definition parseHdrLen (inp : bytes) (hdr : virtioNetHdr) : option (virtioNetHdr + readError) :=
  if vh_gsoType hdr =? VIRTIO_NET_HDR_GSO_UDP_L4
  then Some (inl (hdr <| vh_hdrLen := u16 (vh_csumStart hdr + 8) |>))
  else if Z.of_nat (length inp) <=? u16 (vh_csumStart hdr + 12) then Some (inr ErrTooShort)
  else
    b ← inp !! Z.to_nat (u16 (vh_csumStart hdr + 12));
    let tcpHLen := u8 (Z.shiftr b 4 * 4) in
    Some (if (tcpHLen <? 20) || (60 <? tcpHLen) then inr ErrTCPHeader
          else inl (hdr <| vh_hdrLen := u16 (vh_csumStart hdr + tcpHLen) |>)).

(** The checks of [handleVirtioRead] between the header and [gsoSplit]. *)
Definition checkVirtio (inp : bytes) (hdr : virtioNetHdr) : option (virtioNetHdr * bool + readError) :=
  if negb (isTCP hdr) && negb (vh_gsoType hdr =? VIRTIO_NET_HDR_GSO_UDP_L4) then Some (inr ErrUnsupportedGSO)
  else
    b ← inp !! 0%nat;
    let ipVersion := Z.shiftr b 4 in
    if negb (ipVersion =? 4) && negb (ipVersion =? 6) then Some (inr ErrVersion)
    else if negb (vh_gsoType hdr =? (if ipVersion =? 4 then VIRTIO_NET_HDR_GSO_TCPV4 else VIRTIO_NET_HDR_GSO_TCPV6)) &&
      negb (vh_gsoType hdr =? VIRTIO_NET_HDR_GSO_UDP_L4) then Some (inr ErrVersionGSO)
    else
      r ← parseHdrLen inp hdr;
      Some match r with
      | inr err => inr err
      | inl hdr =>
          if Z.of_nat (length inp) <? vh_hdrLen hdr then inr ErrHdrLen
          else if vh_hdrLen hdr <? vh_csumStart hdr then inr ErrCsumStart
          else if Z.of_nat (length inp) <=? u16 (vh_csumStart hdr + vh_csumOffset hdr) + 1 then inr ErrCsumAt
          else inl (hdr, ipVersion =? 6)
      end.

Definition handleVirtioRead (inp : bytes) (bufs : list bytes) (sizes : list Z) (offset : nat)
    : option (list bytes * list Z * Z * option readError) :=
  match hdrDecode inp with
  | None => Some (bufs, sizes, 0, Some ErrShortBuffer)
  | Some hdr =>
      let inp := drop virtioNetHdrLen inp in
      if vh_gsoType hdr =? VIRTIO_NET_HDR_GSO_NONE then
        inp ← (if negb (Z.land (vh_flags hdr) VIRTIO_NET_HDR_F_NEEDS_CSUM =? 0)
               then gsoNoneChecksum inp (vh_csumStart hdr) (vh_csumOffset hdr) else Some inp);
        buf ← bufs !! 0%nat;
        out ← sliceFrom buf offset;
        if (length out <? length inp)%nat then Some (bufs, sizes, 0, Some ErrOverflows)
        else
          _ ← orElse (0 <? length sizes)%nat;
          Some (<[0%nat := copy_at buf offset inp]> bufs, <[0%nat := Z.of_nat (length inp)]> sizes, 1, None)
      else
        r ← checkVirtio inp hdr;
        match r with
        | inr err => Some (bufs, sizes, 0, Some err)
        | inl (hdr, isV6) => gsoSplit inp hdr bufs sizes offset isV6
        end
  end.

End Offload.

(** ** Reading where there is something to read *)

Lemma orElse_true b {A} (k : unit -> option A) : b = true -> (x ← orElse b; k x) = k tt.
Proof. by intros ->. Qed.

Lemma sliceOf_some (b : bytes) lo hi : (lo <= hi <= length b)%nat -> sliceOf b lo hi = Some (slice lo hi b).
Proof. intros H. unfold sliceOf. by rewrite orElse_true by (apply andb_true_iff; split; apply Nat.leb_le; lia). Qed.

Lemma sliceFrom_some b off : (off <= length b)%nat -> sliceFrom b off = Some (drop off b).
Proof. intros H. unfold sliceFrom. by rewrite orElse_true by by apply Nat.leb_le. Qed.

Lemma getBE_some n b off : (off + n <= length b)%nat -> getBE n b off = Some (be_dec (slice off (off + n) b)).
Proof. intros H. unfold getBE. by rewrite orElse_true by by apply Nat.leb_le. Qed.
