(* ===== verification/GsoSpec.v ===== *)
(** Splitting by [gsoSplit]: the segments are packets of their own, with right
    headers and checksums, and together carry the payload. *)
From S2P Require Import Prelude Checksum Offload.

(** ** Writes and slices *)

(** [b'] is [b] with [src] at [off]. *)
Definition written (b b' : bytes) (off : nat) (src : bytes) : Prop :=
  length b' = length b /\ slice off (off + length src) b' = src /\
  forall k, (k < off \/ off + length src <= k)%nat -> b' !! k = b !! k.

Lemma slice_lookup {A} lo hi (l : list A) k : slice lo hi l !! k = if decide (k < hi - lo)%nat then l !! (lo + k)%nat else None.
Proof.
  unfold slice. case_decide.
  - by rewrite lookup_take_lt, lookup_drop by lia.
  - by rewrite lookup_take_ge by lia.
Qed.

Lemma slice_same {A} lo hi (l l' : list A) : (forall k, (lo <= k < hi)%nat -> l' !! k = l !! k) -> slice lo hi l' = slice lo hi l.
Proof.
  intros H. apply list_eq. intros k. rewrite !slice_lookup. case_decide; [|done]. apply H. lia.
Qed.

Lemma slice_join {A} a b c (l : list A) : (a <= b <= c)%nat ->
  slice a (Nat.min b (length l)) l ++ slice b c l = slice a c l.
Proof.
  intros H. apply list_eq. intros k. assert (length (slice a (Nat.min b (length l)) l) = Nat.min b (length l) - a)%nat as Hl
    by (unfold slice; rewrite length_take, length_drop; lia).
  destruct (decide (k < Nat.min b (length l) - a)%nat).
  - rewrite lookup_app_l by lia. rewrite !slice_lookup, !decide_True by lia. done.
  - rewrite lookup_app_r, Hl, !slice_lookup by lia. destruct (decide (b <= length l)%nat).
    + destruct (decide (k < c - a)%nat); [rewrite decide_True by lia; f_equal; lia|by rewrite decide_False by lia].
    + transitivity (@None A); [|symmetry]; (case_decide; [apply lookup_ge_None; lia|done]).
Qed.

Lemma copy_at_written (b : bytes) off src : (off + length src <= length b)%nat -> written b (copy_at b off src) off src.
Proof.
  intros H. unfold written, copy_at. rewrite Nat.min_r, (take_ge src) by lia. split_and!.
  - rewrite !length_app, length_take, length_drop. lia.
  - unfold slice. rewrite drop_app_ge by (rewrite length_take; lia). rewrite length_take.
    replace (off - off `min` length b)%nat with 0%nat by lia. rewrite drop_0.
    by replace (off + length src - off)%nat with (length src) by lia; rewrite take_app_length.
  - intros k Hk. destruct Hk.
    + rewrite lookup_app_l by (rewrite length_take; lia). by rewrite lookup_take_lt.
    + rewrite lookup_app_r by (rewrite length_take; lia). rewrite lookup_app_r by (rewrite length_take; lia).
      rewrite length_take, lookup_drop. f_equal. lia.
Qed.

Lemma putBE_written n b off x : (off + n <= length b)%nat -> exists b', putBE n b off x = Some b' /\ written b b' off (be_enc n x).
Proof.
  intros H. unfold putBE. rewrite orElse_true by by apply Nat.leb_le. eexists. split; [done|].
  apply copy_at_written. by rewrite length_be_enc.
Qed.

Lemma copyTo_written b lo hi src : (lo <= hi <= length b)%nat -> (length src <= hi - lo)%nat ->
  exists b', copyTo b lo hi src = Some b' /\ written b b' lo src.
Proof.
  intros H Hs. unfold copyTo. rewrite orElse_true by (apply andb_true_iff; split; apply Nat.leb_le; lia).
  rewrite take_ge by lia. eexists. split; [done|]. apply copy_at_written. lia.
Qed.

Lemma putByte_written b i x : (i < length b)%nat -> exists b', putByte b i x = Some b' /\ written b b' i [x].
Proof.
  intros H. unfold putByte. rewrite orElse_true by by apply Nat.ltb_lt. eexists. split; [done|]. unfold written. cbn [length].
  split_and!; [by rewrite length_insert| |intros k Hk; apply list_lookup_insert_ne; lia].
  apply list_eq. intros k. rewrite slice_lookup. destruct k as [|k]; cbn.
  - rewrite decide_True by lia. rewrite Nat.add_0_r. by rewrite list_lookup_insert_eq.
  - rewrite decide_False by lia. done.
Qed.

Lemma written_bytes b b' off src : written b b' off src -> all_bytes b -> all_bytes src -> all_bytes b'.
Proof.
  intros (Hl & Hs & Hk) Hb Hsrc. apply Forall_lookup. intros k x E.
  destruct (decide (off <= k < off + length src)%nat) as [Hin|Hout].
  - assert (src !! (k - off)%nat = Some x) as E'.
    { rewrite <- Hs, slice_lookup, decide_True by lia. by replace (off + (k - off))%nat with k by lia. }
    by eapply Forall_lookup in Hsrc.
  - rewrite Hk in E by lia. by eapply Forall_lookup in Hb.
Qed.

(** A slice that a write does not touch, or contains. *)
Lemma written_slice b b' off src lo hi : written b b' off src -> (hi <= off \/ off + length src <= lo)%nat ->
  slice lo hi b' = slice lo hi b.
Proof. intros (_ & _ & Hk) H. apply slice_same. intros k ?. apply Hk. lia. Qed.

Lemma written_within b b' off src lo hi : written b b' off src -> (lo <= off)%nat -> (off + length src <= hi)%nat ->
  (hi <= length b)%nat -> written (slice lo hi b) (slice lo hi b') (off - lo) src.
Proof.
  intros (Hl & Hs & Hk) H1 H2 H3. unfold written. rewrite !length_slice by lia. split_and!; [done| |].
  - transitivity (slice off (off + length src) b'); [|done]. apply list_eq. intros k. rewrite !slice_lookup.
    destruct (decide (k < off + length src - off)%nat).
    + rewrite !decide_True by lia. f_equal. lia.
    + by rewrite decide_False by lia.
  - intros k Hk'. rewrite !slice_lookup. case_decide; [|done]. apply Hk. lia.
Qed.

(** ** Checksums *)

(** Two bytes written over zeros at an even place add their value to the sum. *)
Lemma sum16_written b b' off v : written b b' off (be_enc 2 v) -> Nat.Even off -> (off + 2 <= length b)%nat ->
  0 <= v < 65536 -> slice off (off + 2) b = [0; 0] -> sum16 b' = sum16 b + v.
Proof.
  intros (Hl & Hs & Hk) He Hlen Hv Hz. rewrite length_be_enc in *.
  assert (forall c : bytes, (off + 2 <= length c)%nat ->
    sum16 c = sum16 (take off c) + sum16 (slice off (off + 2) c) + sum16 (drop (off + 2) c)) as Hsplit.
  { intros c Hc. rewrite <- (take_drop off c) at 1. rewrite sum16_app by (rewrite length_take; by replace (off `min` length c)%nat with off by lia).
    rewrite <- (take_drop 2 (drop off c)) at 1. rewrite sum16_app by (rewrite length_take, length_drop; replace (2 `min` (length c - off))%nat with 2%nat by lia; by exists 1%nat).
    unfold slice. rewrite drop_drop. replace (off + 2 - off)%nat with 2%nat by lia. lia. }
  rewrite (Hsplit b), (Hsplit b') by lia. rewrite Hz, Hs.
  replace (take off b') with (take off b).
  2:{ apply list_eq. intros k. destruct (decide (k < off)%nat).
      - rewrite !lookup_take_lt by done. symmetry. apply Hk. lia.
      - by rewrite !lookup_take_ge by lia. }
  replace (drop (off + 2) b') with (drop (off + 2) b).
  2:{ apply list_eq. intros k. rewrite !lookup_drop. symmetry. apply Hk. lia. }
  assert (sum16 (be_enc 2 v) = v) as ->; [|cbn; lia].
  unfold be_enc. cbn. pose proof (Z.div_mod v 256 ltac:(lia)). rewrite (Z.mod_small (v / 256)); [lia|].
  split; [by apply Z.div_pos; lia|apply Z.div_lt_upper_bound; lia].
Qed.

Lemma ones_range s : 0 <= s -> 0 <= ones_complement s <= 65535.
Proof. intros H. unfold ones_complement. pose proof (Z.mod_pos_bound (s - 1) 65535). destruct (s =? 0); lia. Qed.

(** A sum and the complement of it give the sum that verifies. *)
Lemma ones_verify s : 0 <= s -> ones_complement (s + not16 (ones_complement s)) = 65535.
Proof.
  intros H. unfold not16, ones_complement. destruct (Z.eqb_spec s 0) as [->|Hs]; [done|].
  pose proof (Z.mod_pos_bound (s - 1) 65535 ltac:(lia)). pose proof (Z.div_mod (s - 1) 65535 ltac:(lia)).
  destruct (Z.eqb_spec (s + (65535 - ((s - 1) mod 65535 + 1))) 0); [lia|].
  replace (s + (65535 - ((s - 1) mod 65535 + 1)) - 1) with (65534 + ((s - 1) / 65535) * 65535) by lia.
  rewrite Z.mod_add by lia. done.
Qed.

(** Putting the complement of the checksum over zeros makes it verify. *)
Lemma checksum_verifies native b b' off initial : all_bytes b -> 0 <= initial < 2 ^ 64 ->
  written b b' off (be_enc 2 (not16 (checksum native b initial))) -> Nat.Even off -> (off + 2 <= length b)%nat ->
  slice off (off + 2) b = [0; 0] -> checksum native b' initial = 65535.
Proof.
  intros Hb Hi Hw He Hlen Hz. pose proof (sum16_nonneg b Hb). rewrite checksum_ones in Hw by done.
  pose proof (ones_range (initial + sum16 b) ltac:(lia)).
  assert (0 <= not16 (ones_complement (initial + sum16 b)) < 65536) as Hr by (unfold not16; lia).
  assert (all_bytes b') as Hb' by (eapply written_bytes; [done..|apply be_enc_bytes]).
  rewrite checksum_ones by done. rewrite (sum16_written _ _ _ _ Hw) by done. rewrite Z.add_assoc. by apply ones_verify; lia.
Qed.

Section Gso.
Context (native : endian).

Definition ipMin (isV6 : bool) : nat := if isV6 then 40 else 20.

Lemma pseudoOf_some protocol isV6 b totalLen : all_bytes b -> is_byte protocol -> (ipMin isV6 <= length b)%nat ->
  exists r, pseudoOf native protocol isV6 b totalLen = Some r /\ 0 <= r < 2 ^ 64.
Proof.
  intros Hb Hp Hl. unfold pseudoOf, pseudoHeaderChecksumNoFold.
  assert (exists s n, addrs isV6 = (s, n) /\ (s + n * 2 <= ipMin isV6)%nat) as (s & n & -> & Hs) by (destruct isV6; cbn; eauto).
  rewrite !sliceOf_some by lia. eexists. split; [done|].
  assert (all_bytes [0; protocol]) as Hpr by (repeat constructor; unfold is_byte in *; lia).
  pose proof (fun l i Hb Hi => proj1 (checksumNoFold_spec native l i Hb Hi)) as Hr.
  apply Hr; [apply be_enc_bytes|]. apply Hr; [done|]. apply Hr; [by apply slice_bytes|]. apply Hr; [by apply slice_bytes|lia].
Qed.

Lemma pseudoOf_same protocol isV6 b b' totalLen : length b' = length b \/ (ipMin isV6 <= length b /\ ipMin isV6 <= length b')%nat ->
  (forall k, (fst (addrs isV6) <= k < ipMin isV6)%nat -> b' !! k = b !! k) ->
  pseudoOf native protocol isV6 b' totalLen = pseudoOf native protocol isV6 b totalLen.
Proof.
  intros Hl Hk. unfold pseudoOf.
  assert (exists s n, addrs isV6 = (s, n) /\ (s + n * 2 = ipMin isV6)%nat) as (s & n & E & Hs) by (destruct isV6; cbn; eauto).
  rewrite E in *. cbn [fst] in Hk.
  assert (forall lo hi, (s <= lo)%nat -> (hi <= ipMin isV6)%nat -> sliceOf b' lo hi = sliceOf b lo hi) as Hsl.
  { intros lo hi H1 H2. unfold sliceOf.
    assert ((hi <=? length b')%nat = (hi <=? length b)%nat) as ->.
    { destruct Hl as [->|[H3 H4]]; [done|]. by rewrite !leb_correct by lia. }
    destruct (orElse _); [|done]. cbn. f_equal. apply slice_same. intros k ?. apply Hk. lia. }
  by rewrite !Hsl by lia.
Qed.

(** ** The headers of a segment *)

Definition ipRewritten (isV6 : bool) (k : nat) : Prop :=
  if isV6 then (4 <= k < 6)%nat else (2 <= k < 6 \/ 10 <= k < 12)%nat.
Definition transportRewritten (tcp : bool) (start k : nat) : Prop :=
  if tcp then (start + 4 <= k < start + 8 \/ k = start + 13)%nat else (start + 4 <= k < start + 6)%nat.

(** What the stages of a segment keep: the length, and that bytes are bytes. *)
Definition buffer (out out' : bytes) : Prop := length out' = length out /\ all_bytes out'.

Lemma written_buffer b b' off src : written b b' off src -> all_bytes b -> all_bytes src -> buffer b b'.
Proof. intros H Hb Hs. split; [apply H|by eapply written_bytes]. Qed.

Lemma be_dec_enc2 x : 0 <= x < 65536 -> be_dec (be_enc 2 x) = x.
Proof. intros H. apply be_dec_enc. lia. Qed.

Lemma not16_range native' b i : all_bytes b -> 0 <= i < 2 ^ 64 -> 0 <= not16 (checksum native' b i) < 65536.
Proof.
  intros Hb Hi. rewrite checksum_ones by done. pose proof (sum16_nonneg b Hb).
  pose proof (ones_range (i + sum16 b) ltac:(lia)). unfold not16. lia.
Qed.

Lemma segmentIP4 start i total out : (20 <= start <= length out)%nat -> all_bytes out -> Z.of_nat total < 65536 ->
  slice 10 12 out = [0; 0] ->
  exists out', segmentIP native false start i (Z.of_nat total) out = Some out' /\ buffer out out' /\
    (forall k, ~ ipRewritten false k -> out' !! k = out !! k) /\
    be_dec (slice 2 4 out') = Z.of_nat total /\
    be_dec (slice 4 6 out') = u16 (be_dec (slice 4 6 out) + u16 (Z.of_nat i)) /\
    checksum native (slice 0 start out') 0 = 65535.
Proof.
  intros Hs Hb Ht Hz. unfold segmentIP. cbn [negb].
  assert (exists o1, (if (0 <? i)%nat then id ← getBE 2 out 4; putBE 2 out 4 (u16 (id + u16 (Z.of_nat i))) else Some out) = Some o1 /\
    buffer out o1 /\ (forall k, ~ (4 <= k < 6)%nat -> o1 !! k = out !! k) /\
    be_dec (slice 4 6 o1) = u16 (be_dec (slice 4 6 out) + u16 (Z.of_nat i))) as (o1 & -> & [L1 B1] & K1 & D1).
  { assert (all_bytes (slice 4 6 out)) as Hsl by by apply slice_bytes.
    pose proof (be_dec_range _ Hsl) as Hr. rewrite length_slice in Hr by lia. cbn in Hr.
    destruct (Nat.ltb_spec 0 i).
    - rewrite getBE_some by lia. cbn [mbind option_bind].
      set (id := u16 (_ + _)). destruct (putBE_written 2 out 4 id ltac:(lia)) as (o1 & E & Hw). exists o1.
      split; [done|]. split; [eapply written_buffer; [done..|apply be_enc_bytes]|].
      destruct Hw as (_ & Hw & Hk). rewrite length_be_enc in *. cbn [Nat.add] in Hw. split; [intros k ?; apply Hk; lia|].
      rewrite Hw. apply be_dec_enc2. apply u16_range.
    - exists out. split; [done|]. split; [done|]. split; [done|]. replace i with 0%nat by lia. cbn. rewrite Z.add_0_r, u16_small; lia. }
  cbn [mbind option_bind].
  destruct (putBE_written 2 o1 2 (u16 (Z.of_nat total)) ltac:(lia)) as (o2 & -> & W2). cbn [mbind option_bind].
  assert (all_bytes o2) as B2 by (eapply written_bytes; [done..|apply be_enc_bytes]). pose proof W2 as (L2 & S2 & K2).
  rewrite length_be_enc in *. cbn [Nat.add] in S2, K2. rewrite sliceOf_some by lia. cbn [mbind option_bind].
  destruct (putBE_written 2 o2 10 (not16 (checksum native (slice 0 start o2) 0)) ltac:(lia)) as (o3 & -> & W3).
  pose proof W3 as (L3 & S3 & K3). rewrite length_be_enc in *. cbn [Nat.add] in S3, K3.
  exists o3. split; [done|]. split; [split; [lia|eapply written_bytes; [done..|apply be_enc_bytes]]|]. split_and!.
  - intros k Hk. cbn in Hk. rewrite K3, K2, K1 by lia. done.
  - rewrite (slice_same 2 4 o2 o3) by (intros; apply K3; lia). rewrite S2, be_dec_enc2; [apply u16_small; lia|apply u16_range].
  - rewrite (slice_same 4 6 o1 o3); [done|]. intros k ?. rewrite K3, K2 by lia. done.
  - eapply (checksum_verifies native (slice 0 start o2) _ 10); [by apply slice_bytes|lia| |by exists 5%nat|rewrite length_slice by lia; lia|].
    + by apply (written_within _ _ _ _ 0 start W3); rewrite ?length_be_enc; lia.
    + rewrite <- Hz. apply list_eq. intros k. rewrite !slice_lookup.
      destruct (decide (k < 12 - 10)%nat); [|by rewrite decide_False by lia].
      rewrite !decide_True by lia. cbn [Nat.add]. rewrite K2, K1 by lia. done.
Qed.

Lemma segmentIP6 start i total out : (40 <= start <= length out)%nat -> all_bytes out -> (start <= total)%nat -> Z.of_nat total < 65536 ->
  exists out', segmentIP native true start i (Z.of_nat total) out = Some out' /\ buffer out out' /\
    (forall k, ~ ipRewritten true k -> out' !! k = out !! k) /\ be_dec (slice 4 6 out') = Z.of_nat (total - start).
Proof.
  intros Hs Hb Ht Ht'. unfold segmentIP. cbn [negb].
  destruct (putBE_written 2 out 4 (u16 (Z.of_nat total - Z.of_nat start)) ltac:(lia)) as (o & -> & W).
  exists o. split; [done|]. split; [eapply written_buffer; [done..|apply be_enc_bytes]|].
  destruct W as (_ & S & K). rewrite length_be_enc in *. cbn [Nat.add] in S, K. split; [intros k Hk; apply K; cbn in Hk; lia|].
  rewrite S, be_dec_enc2 by apply u16_range. rewrite u16_small by lia. lia.
Qed.

(** A packet that can be split: the header describes it. *)
Record splittable (hdr : virtioNetHdr) (isV6 tcp : bool) (inp : bytes) : Prop := {
  sp_bytes : all_bytes inp;
  sp_length : zlen inp < 65536;
  sp_start : Z.of_nat (ipMin isV6) <= vh_csumStart hdr;
  sp_hdrLen : vh_csumStart hdr + (if tcp then 20 else 8) <= vh_hdrLen hdr <= zlen inp;
  sp_csum : vh_csumOffset hdr = if tcp then 16 else 6;
  sp_gso : 0 < vh_gsoSize hdr < 65536 }.

Lemma segmentTransport_spec hdr isV6 tcp last seq i dataLen inp out : splittable hdr isV6 tcp inp -> all_bytes out ->
  vh_hdrLen hdr <= zlen out -> 0 <= dataLen -> vh_hdrLen hdr + dataLen < 65536 ->
  let start := Z.to_nat (vh_csumStart hdr) in
  exists out', segmentTransport hdr tcp last seq i dataLen out = Some out' /\ buffer out out' /\
    (forall k, ~ transportRewritten tcp start k -> out' !! k = out !! k) /\
    if tcp
    then be_dec (slice (start + 4) (start + 8) out') = u32 (seq + u16 (vh_gsoSize hdr * u16 (Z.of_nat i))) /\
         out' !! (start + 13)%nat = (fun f => if last then f else Z.ldiff f 9) <$> out !! (start + 13)%nat
    else be_dec (slice (start + 4) (start + 6) out') = vh_hdrLen hdr - vh_csumStart hdr + dataLen.
Proof.
  intros [Hb Hl Hs Hh Hc Hg] Ho Hlen Hd Ht start. unfold segmentTransport. cbv zeta.
  assert (0 <= Z.of_nat (ipMin isV6)) as H0 by lia. assert (Z.of_nat start = vh_csumStart hdr) as Es by (unfold start; lia).
  destruct tcp.
  - rewrite !(u16_small (vh_csumStart hdr + _)) by (unfold tcpFlagsOffset; lia). unfold tcpFlagsOffset.
    replace (Z.to_nat (vh_csumStart hdr + 4)) with (start + 4)%nat by lia.
    replace (Z.to_nat (vh_csumStart hdr + 13)) with (start + 13)%nat by lia.
    set (s := u32 _). destruct (putBE_written 4 out (start + 4) s ltac:(lia)) as (o1 & -> & W1).
    assert (all_bytes o1) as B1 by (eapply written_bytes; [done..|apply be_enc_bytes]).
    destruct W1 as (L1 & S1 & K1). rewrite length_be_enc in *. cbn [mbind option_bind].
    assert (be_dec (slice (start + 4) (start + 8) o1) = s) as D1.
    { replace (start + 8)%nat with (start + 4 + 4)%nat by lia. rewrite S1. apply be_dec_enc, u32_range. }
    destruct last.
    + exists o1. split; [done|]. split; [by split|]. split; [intros k Hk; apply K1; cbn in Hk; lia|].
      split; [done|]. rewrite K1 by lia. by destruct (out !! _).
    + destruct (lookup_lt_is_Some_2 o1 (start + 13)) as [f Ef]; [lia|]. rewrite Ef. cbn [mbind option_bind].
      set (g := Z.ldiff f _). destruct (putByte_written o1 (start + 13) g ltac:(lia)) as (o2 & -> & W2). exists o2. split; [done|].
      assert (is_byte g) as Hbg.
      { pose proof (proj1 (Forall_lookup _ _) B1 _ _ Ef) as Hf.
        pose proof (bounded_cases 256 (fun f => (0 <=? Z.ldiff f 9) && (Z.ldiff f 9 <? 256)) ltac:(by vm_compute) f Hf) as Hg'.
        apply andb_true_iff in Hg' as [?%Z.leb_le ?%Z.ltb_lt]. by split. }
      split; [split; [destruct W2; lia|by eapply written_bytes; [..|by apply Forall_singleton]]|]. destruct W2 as (L2 & S2 & K2). cbn [length] in *.
      split; [intros k Hk; cbn in Hk; rewrite K2, K1 by lia; done|]. split.
      * rewrite (slice_same (start + 4) (start + 8) o1 o2) by (intros; apply K2; lia). done.
      * assert (out !! (start + 13)%nat = Some f) as -> by (rewrite <- K1 by lia; done). cbn.
        assert (slice (start + 13) (start + 13 + 1) o2 !! 0%nat = Some g) as E by by rewrite S2.
        rewrite slice_lookup, decide_True, Nat.add_0_r in E by lia. done.
  - rewrite !(u16_small (vh_csumStart hdr + _)), !(u16_small (vh_hdrLen hdr - _)) by lia.
    replace (Z.to_nat (vh_csumStart hdr + 4)) with (start + 4)%nat by lia.
    destruct (putBE_written 2 out (start + 4) (u16 (dataLen + (vh_hdrLen hdr - vh_csumStart hdr))) ltac:(lia)) as (o1 & -> & W1).
    exists o1. split; [done|]. split; [eapply written_buffer; [done..|apply be_enc_bytes]|]. destruct W1 as (L1 & S1 & K1).
    rewrite length_be_enc in *. split; [intros k Hk; apply K1; cbn in Hk; lia|].
    replace (start + 6)%nat with (start + 4 + 2)%nat by lia. rewrite S1, be_dec_enc2 by apply u16_range.
    rewrite u16_small by lia. lia.
Qed.

(** The transport checksum goes over zeros, and then verifies. *)
Lemma segmentChecksum_spec hdr isV6 tcp inp total dataLen out : splittable hdr isV6 tcp inp -> all_bytes out ->
  let start := Z.to_nat (vh_csumStart hdr) in
  let csumAt := (start + Z.to_nat (vh_csumOffset hdr))%nat in
  let protocol := if tcp then IPPROTO_TCP else IPPROTO_UDP in
  Z.of_nat total = vh_hdrLen hdr + dataLen -> 0 <= dataLen -> (total <= length out)%nat -> Z.of_nat total < 65536 ->
  slice csumAt (csumAt + 2) out = [0; 0] ->
  (forall k, (fst (addrs isV6) <= k < ipMin isV6)%nat -> out !! k = inp !! k) ->
  exists out', segmentChecksum native hdr protocol isV6 inp total dataLen out = Some out' /\ buffer out out' /\
    (forall k, ~ (csumAt <= k < csumAt + 2)%nat -> out' !! k = out !! k) /\
    checksumValid native (take total out') (vh_csumStart hdr) protocol isV6 = Some true.
Proof.
  intros Hsp Ho start csumAt protocol Ht Hd Hl Ht' Hz Haddr. destruct Hsp as [Hb Hln Hs Hh Hc Hg].
  assert (0 <= Z.of_nat (ipMin isV6)) as H0 by lia.
  assert (Z.of_nat start = vh_csumStart hdr) as Es by (unfold start; lia).
  assert (csumAt + 2 <= total)%nat as Hat by (unfold csumAt, start; rewrite Hc; destruct tcp; lia).
  assert (Z.to_nat (u16 (vh_csumStart hdr + vh_csumOffset hdr)) = csumAt) as Eat
    by (rewrite u16_small; unfold csumAt, start; rewrite Hc; destruct tcp; lia).
  unfold segmentChecksum. rewrite Eat, (u16_small (vh_hdrLen hdr - _)) by (destruct tcp; lia).
  destruct (pseudoOf_some protocol isV6 inp (u16 (vh_hdrLen hdr - vh_csumStart hdr + dataLen))) as (r & Er & Hr);
    [done|by destruct tcp|destruct tcp; lia|].
  rewrite Er. cbn [mbind option_bind]. rewrite sliceOf_some by (unfold csumAt in Hat; lia). cbn [mbind option_bind].
  fold start. set (c := not16 _). destruct (putBE_written 2 out csumAt c ltac:(lia)) as (o & -> & W).
  exists o. split; [done|]. split; [eapply written_buffer; [done..|apply be_enc_bytes]|].
  pose proof W as (L & S & K). rewrite length_be_enc in *. split; [intros k Hk; apply K; lia|].
  unfold checksumValid. rewrite length_take, Nat.min_l by lia.
  rewrite (pseudoOf_same protocol isV6 inp (take total o)); [| |].
  - replace (u16 (Z.of_nat total - vh_csumStart hdr)) with (u16 (vh_hdrLen hdr - vh_csumStart hdr + dataLen)) by (f_equal; lia).
    rewrite Er. cbn [mbind option_bind]. rewrite sliceFrom_some by (rewrite length_take; unfold csumAt in Hat; lia).
    cbn [mbind option_bind]. fold start.
    assert (drop start (take total o) = slice start total o) as -> by (unfold slice; apply skipn_firstn_comm).
    assert (checksum native (slice start total o) r = 65535) as ->; [|done].
    eapply (checksum_verifies native (slice start total out) _ (csumAt - start)); [by apply slice_bytes|done| | | |].
    + apply (written_within _ _ _ _ start total W); rewrite ?length_be_enc; unfold csumAt; lia.
    + unfold csumAt. replace (start + _ - start)%nat with (Z.to_nat (vh_csumOffset hdr)) by lia. rewrite Hc.
      destruct tcp; [by exists 8%nat|by exists 3%nat].
    + rewrite length_slice by lia. unfold csumAt. lia.
    + rewrite <- Hz. apply list_eq. intros k. rewrite !slice_lookup.
      destruct (decide (k < csumAt + 2 - csumAt)%nat); [|by rewrite decide_False by (unfold csumAt in *; lia)].
      rewrite !decide_True by (unfold csumAt in *; lia). f_equal. unfold csumAt. lia.
  - right. rewrite length_take. destruct tcp; lia.
  - intros k Hk. rewrite lookup_take_lt by (unfold csumAt in Hat; lia). rewrite K by (unfold csumAt; lia). by apply Haddr.
Qed.

(** What is rewritten of the headers. *)
Definition rewritten (isV6 tcp : bool) (hdr : virtioNetHdr) (k : nat) : Prop :=
  let start := Z.to_nat (vh_csumStart hdr) in
  let csumAt := (start + Z.to_nat (vh_csumOffset hdr))%nat in
  ipRewritten isV6 k \/ transportRewritten tcp start k \/ (csumAt <= k < csumAt + 2)%nat.

(** The packet [p] is segment [i] of [inp], with the payload [inp[dataAt:dataEnd]]. *)
Record segmentOf (hdr : virtioNetHdr) (isV6 tcp : bool) (seq : Z) (inp : bytes) (i dataAt dataEnd : nat) (p : bytes) : Prop := {
  sg_length : zlen p = vh_hdrLen hdr + Z.of_nat (dataEnd - dataAt);
  sg_bytes : all_bytes p;
  sg_payload : drop (Z.to_nat (vh_hdrLen hdr)) p = slice dataAt dataEnd inp;
  sg_header : forall k, (k < Z.to_nat (vh_hdrLen hdr))%nat -> ~ rewritten isV6 tcp hdr k -> p !! k = inp !! k;
  sg_ip : if isV6 then be_dec (slice 4 6 p) = zlen p - vh_csumStart hdr
          else be_dec (slice 2 4 p) = zlen p /\
            be_dec (slice 4 6 p) = u16 (be_dec (slice 4 6 inp) + u16 (Z.of_nat i)) /\
            checksum native (take (Z.to_nat (vh_csumStart hdr)) p) 0 = 65535;
  sg_transport : let start := Z.to_nat (vh_csumStart hdr) in
    if tcp
    then be_dec (slice (start + 4) (start + 8) p) = u32 (seq + u16 (vh_gsoSize hdr * u16 (Z.of_nat i))) /\
         p !! (start + 13)%nat = (fun f => if (dataEnd =? length inp)%nat then f else Z.ldiff f 9) <$> inp !! (start + 13)%nat
    else be_dec (slice (start + 4) (start + 6) p) = zlen p - vh_csumStart hdr;
  sg_valid : checksumValid native p (vh_csumStart hdr) (if tcp then IPPROTO_TCP else IPPROTO_UDP) isV6 = Some true }.

(** The checksum fields are cleared before the loop. *)
Definition cleared (hdr : virtioNetHdr) (isV6 : bool) (inp : bytes) : Prop :=
  let csumAt := (Z.to_nat (vh_csumStart hdr) + Z.to_nat (vh_csumOffset hdr))%nat in
  slice csumAt (csumAt + 2) inp = [0; 0] /\ (isV6 = false -> slice 10 12 inp = [0; 0]).

(** One segment, step by step: the buffer after the IP header, after the transport
    header, after the payload, and at the end. *)
Section Segment.
Context (hdr : virtioNetHdr) (isV6 tcp : bool) (seq : Z) (inp : bytes) (i dataAt dataEnd : nat) (out : bytes).
Context (Hsp : splittable hdr isV6 tcp inp) (Hcl : cleared hdr isV6 inp) (Hout : all_bytes out).
Let start := Z.to_nat (vh_csumStart hdr).
Let hl := Z.to_nat (vh_hdrLen hdr).
Let co := Z.to_nat (vh_csumOffset hdr).
Let total := (hl + (dataEnd - dataAt))%nat.
Context (Hd : (hl <= dataAt <= dataEnd)%nat) (Hde : (dataEnd <= length inp)%nat) (Hlo : (total <= length out)%nat).

Record layers (o1 o3 o4 o5 : bytes) : Prop := {
  ly_buffer : buffer out o5;
  ly_ip : if isV6 then be_dec (slice 4 6 o1) = Z.of_nat (total - start)
    else be_dec (slice 2 4 o1) = Z.of_nat total /\ be_dec (slice 4 6 o1) = u16 (be_dec (slice 4 6 inp) + u16 (Z.of_nat i)) /\
      checksum native (slice 0 start o1) 0 = 65535;
  ly_head : forall k, (k < start)%nat -> o4 !! k = o1 !! k;
  ly_transport : if tcp
    then be_dec (slice (start + 4) (start + 8) o3) = u32 (seq + u16 (vh_gsoSize hdr * u16 (Z.of_nat i))) /\
         o3 !! (start + 13)%nat = (fun f => if (dataEnd =? length inp)%nat then f else Z.ldiff f 9) <$> inp !! (start + 13)%nat
    else be_dec (slice (start + 4) (start + 6) o3) = Z.of_nat (dataEnd - dataAt) + (vh_hdrLen hdr - vh_csumStart hdr);
  ly_headers : forall k, (k < hl)%nat -> o4 !! k = o3 !! k;
  ly_kept : forall k, (k < hl)%nat -> ~ ipRewritten isV6 k -> ~ transportRewritten tcp start k -> o4 !! k = inp !! k;
  ly_payload : slice hl total o4 = slice dataAt dataEnd inp;
  ly_rest : drop total o4 = drop total out;
  ly_sum : forall k, ~ (start + co <= k < start + co + 2)%nat -> o5 !! k = o4 !! k;
  ly_valid : checksumValid native (take total o5) (vh_csumStart hdr) (if tcp then IPPROTO_TCP else IPPROTO_UDP) isV6 = Some true }.

Lemma segment_sizes : (ipMin isV6 <= start)%nat /\ (20 <= start)%nat /\ (start + 8 <= hl)%nat /\ Z.of_nat total < 65536 /\
  Z.of_nat start = vh_csumStart hdr /\ Z.of_nat hl = vh_hdrLen hdr /\
  (if tcp then co = 16 else co = 6)%nat /\ (start + co + 2 <= hl)%nat.
Proof.
  destruct Hsp as [Hb Hln Hs Hh Hc Hg]. assert (0 <= Z.of_nat (ipMin isV6)) as H0 by lia.
  assert ((if tcp then 20 else 8) >= 8) as Htc by (destruct tcp; lia).
  assert (20 <= Z.of_nat (ipMin isV6)) by (destruct isV6; cbn; lia).
  split_and!; unfold total, start, hl, co; try lia; rewrite Hc; destruct tcp; lia.
Qed.

(** The header fields that are rewritten, within the headers. *)
Lemma rewritten_where : (forall k, (start + co <= k < start + co + 2)%nat -> ~ transportRewritten tcp start k) /\
  (forall k, transportRewritten tcp start k -> (start + 4 <= k < hl)%nat) /\
  (forall k, ipRewritten isV6 k -> (2 <= k < 12)%nat).
Proof.
  destruct segment_sizes as (H1 & H2 & H3 & _ & _ & _ & H4 & H5).
  split_and!; intros k; destruct tcp, isV6; cbn; lia.
Qed.

(** A buffer that a piece of another has been copied to. *)
Lemma written_piece b b' off lo hi : written b b' off (slice lo hi inp) -> (lo <= hi <= length inp)%nat ->
  forall k, (off <= k < off + (hi - lo))%nat -> b' !! k = inp !! (k - off + lo)%nat.
Proof.
  intros (_ & Hs & _) Hlh k Hk. rewrite length_slice in Hs by lia.
  assert (slice off (off + (hi - lo)) b' !! (k - off)%nat = slice lo hi inp !! (k - off)%nat) as E by by rewrite Hs.
  rewrite !slice_lookup, !decide_True in E by lia. replace (off + (k - off))%nat with k in E by lia. rewrite E. f_equal. lia.
Qed.

(** The headers. *)
Lemma segment_headers : exists o1 o2,
  segmentIP native isV6 start i (Z.of_nat total) (copy_at out 0 (slice 0 start inp)) = Some o1 /\
  copyTo o1 start hl (slice start hl inp) = Some o2 /\ buffer out o2 /\
  (if isV6 then be_dec (slice 4 6 o1) = Z.of_nat (total - start)
   else be_dec (slice 2 4 o1) = Z.of_nat total /\ be_dec (slice 4 6 o1) = u16 (be_dec (slice 4 6 inp) + u16 (Z.of_nat i)) /\
     checksum native (slice 0 start o1) 0 = 65535) /\
  (forall k, (k < start)%nat -> o2 !! k = o1 !! k) /\
  (forall k, (k < start)%nat -> ~ ipRewritten isV6 k -> o1 !! k = inp !! k) /\
  (forall k, (start <= k < hl)%nat -> o2 !! k = inp !! k) /\
  (forall k, (hl <= k)%nat -> o2 !! k = out !! k).
Proof.
  destruct segment_sizes as (Hst & H20 & Hsh & Htot & _). destruct rewritten_where as (_ & _ & Hir). pose proof Hsp as [Hb _ _ _ _ _].
  set (o0 := copy_at out 0 (slice 0 start inp)).
  pose proof (copy_at_written out 0 (slice 0 start inp)) as W0. rewrite length_slice in W0 by lia. specialize (W0 ltac:(lia)). fold o0 in W0.
  assert (all_bytes o0) as B0 by (eapply written_bytes; [done..|by apply slice_bytes]).
  assert (forall k, (k < start)%nat -> o0 !! k = inp !! k) as A0.
  { intros k Hk. rewrite (written_piece _ _ _ _ _ W0) by lia. f_equal. lia. }
  destruct W0 as (L0 & _ & K0). rewrite length_slice in K0 by lia.
  assert (exists o1, segmentIP native isV6 start i (Z.of_nat total) o0 = Some o1 /\ buffer o0 o1 /\
    (forall k, ~ ipRewritten isV6 k -> o1 !! k = o0 !! k) /\
    if isV6 then be_dec (slice 4 6 o1) = Z.of_nat (total - start)
    else be_dec (slice 2 4 o1) = Z.of_nat total /\ be_dec (slice 4 6 o1) = u16 (be_dec (slice 4 6 o0) + u16 (Z.of_nat i)) /\
      checksum native (slice 0 start o1) 0 = 65535) as (o1 & -> & [L1 B1] & K1 & P1).
  { destruct isV6; cbn in Hst.
    - destruct (segmentIP6 start i total o0) as (o1 & ? & ? & ? & ?); [lia|done|lia|done|]. by exists o1.
    - destruct (segmentIP4 start i total o0) as (o1 & ? & ? & ? & ? & ? & ?); [lia|done|done| |by exists o1].
      rewrite <- (proj2 Hcl) by done. apply slice_same. intros k ?. apply A0. lia. }
  destruct (copyTo_written o1 start hl (slice start hl inp)) as (o2 & E2 & W2); [lia|rewrite length_slice by lia; lia|].
  exists o1, o2. split; [done|]. split; [done|].
  pose proof (written_bytes _ _ _ _ W2 B1 (slice_bytes _ _ _ Hb)) as B2. pose proof (written_piece _ _ _ _ _ W2) as A2.
  destruct W2 as (L2 & _ & K2). rewrite length_slice in K2 by lia. split_and!.
  - split; [lia|done].
  - destruct isV6; [done|]. rewrite (slice_same 4 6 inp o0) in P1 by (intros; apply A0; lia). done.
  - intros k Hk. apply K2. lia.
  - intros k Hk Hn. rewrite K1 by done. by apply A0.
  - intros k Hk. rewrite A2 by lia. f_equal. lia.
  - intros k Hk. rewrite K2, K1, K0 by (lia || (intros ?%Hir; lia)). done.
Qed.

(** The whole of it. *)
Lemma segment_layers : exists o1 o3 o4 o5,
  segment native hdr isV6 tcp seq inp i dataAt dataEnd out = Some o5 /\ layers o1 o3 o4 o5.
Proof.
  destruct segment_sizes as (Hst & H20 & Hsh & Htot & Es & Eh & Hco & Hcs). destruct rewritten_where as (Hnt & Htr & Hir).
  pose proof Hsp as [Hb _ _ _ _ _]. destruct segment_headers as (o1 & o2 & E1 & E2 & [L2 B2] & P1 & A2 & A1 & A2' & K2).
  unfold segment. cbv zeta. fold start hl. change (hl + (dataEnd - dataAt))%nat with total.
  rewrite (sliceOf_some inp 0 start) by lia. cbn [mbind option_bind]. rewrite E1. cbn [mbind option_bind].
  rewrite (sliceOf_some inp start hl) by lia. cbn [mbind option_bind]. rewrite E2. cbn [mbind option_bind].
  destruct (segmentTransport_spec hdr isV6 tcp (dataEnd =? length inp)%nat seq i (Z.of_nat (dataEnd - dataAt)) inp o2 Hsp B2)
    as (o3 & E3 & [L3 B3] & K3 & P3); [lia..|]. fold start in K3, P3. rewrite E3. cbn [mbind option_bind].
  rewrite (sliceOf_some inp dataAt dataEnd) by lia. cbn [mbind option_bind].
  destruct (copyTo_written o3 hl (length o3) (slice dataAt dataEnd inp)) as (o4 & E4 & W4); [lia|rewrite length_slice by lia; lia|].
  rewrite E4. cbn [mbind option_bind]. pose proof (written_bytes _ _ _ _ W4 B3 (slice_bytes _ _ _ Hb)) as B4.
  destruct W4 as (L4 & S4 & K4). rewrite length_slice in S4, K4 by lia.
  assert (forall k, (k < start)%nat -> o4 !! k = o1 !! k) as H41.
  { intros k Hk. rewrite K4, K3 by (lia || (intros ?%Htr; lia)). by apply A2. }
  assert (forall k, (k < hl)%nat -> ~ ipRewritten isV6 k -> ~ transportRewritten tcp start k -> o4 !! k = inp !! k) as A4.
  { intros k Hk Hi Ht. destruct (decide (start <= k)%nat); [rewrite K4, K3 by (done || lia); apply A2'; lia|].
    rewrite H41 by lia. apply A1; [lia|done]. }
  destruct (segmentChecksum_spec hdr isV6 tcp inp total (Z.of_nat (dataEnd - dataAt)) o4 Hsp B4) as (o5 & E5 & [L5 B5] & K5 & V5);
    fold start co; [lia..| | |].
  { rewrite <- (proj1 Hcl). apply slice_same. intros k Hk. fold start co in Hk. apply A4; [lia| |by apply Hnt]. intros ?%Hir. lia. }
  { intros k Hk. assert (8 <= k < ipMin isV6)%nat by (destruct isV6; unfold addrs, ipv6SrcAddrOffset, ipv4SrcAddrOffset in Hk; cbn [fst] in Hk; lia).
    apply A4; [lia| |intros ?%Htr; lia]. destruct isV6; unfold addrs, ipv4SrcAddrOffset in Hk; cbn in Hk |- *; lia. }
  exists o1, o3, o4, o5. split; [done|]. constructor; try done.
  - split; [lia|done].
  - destruct tcp; [|rewrite P3; lia]. destruct P3 as [P3 P4]. split; [done|]. rewrite P4. f_equal. apply A2'. lia.
  - intros k Hk. apply K4. lia.
  - apply list_eq. intros k. rewrite !lookup_drop, K4, K3 by (lia || (intros ?%Htr; lia)). apply K2. lia.
Qed.

(** What the layers make. *)
Lemma layers_segment o1 o3 o4 o5 : layers o1 o3 o4 o5 ->
  drop total o5 = drop total out /\ segmentOf hdr isV6 tcp seq inp i dataAt dataEnd (take total o5).
Proof.
  destruct segment_sizes as (Hst & H20 & Hsh & Htot & Es & Eh & Hco & Hcs). intros [[L5 B5] P1 H41 P3 H43 A4 S4 K4 K5 V5].
  assert (forall lo hi, (hi <= total)%nat -> slice lo hi (take total o5) = slice lo hi o5) as Htake.
  { intros lo hi Hhi. apply slice_same. intros k ?. apply lookup_take_lt. lia. }
  assert (zlen (take total o5) = vh_hdrLen hdr + Z.of_nat (dataEnd - dataAt)) as Hzt by (rewrite length_take; lia).
  assert (forall lo hi, (hi <= start)%nat -> slice lo hi (take total o5) = slice lo hi o1) as Hhead.
  { intros lo hi Hhi. rewrite Htake by lia. apply slice_same. intros k ?. rewrite K5, H41 by lia. done. }
  assert (forall k, (start <= k < start + co)%nat -> o5 !! k = o3 !! k) as Htrans by (intros k ?; rewrite K5, H43 by lia; done).
  split; [apply list_eq; intros k; rewrite <- K4, !lookup_drop; apply K5; lia|].
  constructor; fold start hl; [done|by apply Forall_take| | | | |done].
  - transitivity (slice hl total o5); [unfold slice; apply skipn_firstn_comm|].
    rewrite (slice_same hl total o4 o5) by (intros; apply K5; lia). exact S4.
  - intros k Hk Hr. unfold rewritten in Hr. fold start co in Hr. rewrite lookup_take_lt by lia.
    rewrite K5 by tauto. apply A4; tauto.
  - rewrite Hzt. destruct isV6; [rewrite Hhead, P1 by (cbn in Hst; lia); lia|]. cbn in Hst. destruct P1 as (P1 & P2 & P3').
    rewrite !Hhead by lia. split_and!; [rewrite P1; lia|done|]. rewrite <- P3'. f_equal. rewrite <- Hhead by lia.
    unfold slice. by rewrite drop_0, Nat.sub_0_r.
  - cbv zeta. fold start. rewrite Hzt. destruct tcp.
    + destruct P3 as [P3 P4]. rewrite Htake by lia. rewrite lookup_take_lt, Htrans by lia.
      rewrite (slice_same _ _ o3 o5); [done|]. intros k ?. apply Htrans. lia.
    + rewrite Htake by lia. rewrite (slice_same _ _ o3 o5), P3; [lia|]. intros k ?. apply Htrans. lia.
Qed.

Lemma segment_spec : exists out', segment native hdr isV6 tcp seq inp i dataAt dataEnd out = Some out' /\ buffer out out' /\
  drop total out' = drop total out /\ segmentOf hdr isV6 tcp seq inp i dataAt dataEnd (take total out').
Proof.
  destruct segment_layers as (o1 & o3 & o4 & o5 & E & H). exists o5. split; [done|]. split; [apply H|]. by eapply layers_segment.
Qed.

End Segment.

(** ** The loop *)

(** The buffers have room for a segment, and every one has a size. *)
Definition roomFor (hdr : virtioNetHdr) (offset : nat) (outs : list bytes) (sizes : list Z) : Prop :=
  Forall (fun b => all_bytes b /\ Z.of_nat offset + vh_hdrLen hdr + vh_gsoSize hdr <= zlen b) outs /\
  (length outs <= length sizes)%nat.

(** The packets [ps] are in the buffers from [i] on, as segments from [i] on. *)
Definition holdsSegments (hdr : virtioNetHdr) (isV6 tcp : bool) (seq : Z) (inp : bytes) (offset i : nat)
    (outs outs' : list bytes) (sizes' : list Z) (ps : list bytes) : Prop :=
  forall j p, ps !! j = Some p ->
    let at_ := (Z.to_nat (vh_hdrLen hdr) + (i + j) * Z.to_nat (vh_gsoSize hdr))%nat in
    (at_ < length inp)%nat /\
    segmentOf hdr isV6 tcp seq inp (i + j) at_ (Nat.min (at_ + Z.to_nat (vh_gsoSize hdr)) (length inp)) p /\
    sizes' !! (i + j)%nat = Some (zlen p) /\
    exists buf, outs !! (i + j)%nat = Some buf /\
      outs' !! (i + j)%nat = Some (take offset buf ++ p ++ drop (offset + length p) buf).

Lemma splitLoop_spec hdr isV6 tcp seq inp offset : splittable hdr isV6 tcp inp -> cleared hdr isV6 inp ->
  forall fuel i outs sizes, roomFor hdr offset outs sizes -> (i <= length outs)%nat -> (length outs - i + 2 <= fuel)%nat ->
  let g := Z.to_nat (vh_gsoSize hdr) in
  let dataAt := (Z.to_nat (vh_hdrLen hdr) + i * g)%nat in
  let fits := (length inp <=? dataAt + (length outs - i) * g)%nat in
  exists outs' sizes' ps,
    splitLoop native fuel hdr isV6 tcp seq inp offset i dataAt outs sizes =
      Some (outs', sizes', if fits then Z.of_nat (i + length ps) else Z.of_nat (length outs) - 1,
        if fits then None else Some ErrTooManySegments) /\
    (fits = false -> i + length ps = length outs)%nat /\
    holdsSegments hdr isV6 tcp seq inp offset i outs outs' sizes' ps /\
    length outs' = length outs /\
    (forall k, (k < i)%nat -> outs' !! k = outs !! k /\ sizes' !! k = sizes !! k) /\
    concat (drop (Z.to_nat (vh_hdrLen hdr)) <$> ps) = slice dataAt (dataAt + (length outs - i) * g) inp.
Proof.
  intros Hsp Hcl. pose proof Hsp as [Hb Hln Hs Hh Hc Hg].
  assert ((if tcp then 20 else 8) >= 8) as Htc by (destruct tcp; lia).
  induction fuel as [|fuel IH]; intros i outs sizes [Hroom Hsz] Hi Hf g dataAt fits; [lia|]. cbn [splitLoop].
  assert (0 < g)%nat as Hgp by (unfold g; lia).
  destruct (Nat.ltb_spec dataAt (length inp)) as [Hlt|Hge].
  2:{ assert (fits = true) as -> by (apply Nat.leb_le; etransitivity; [exact Hge|apply Nat.le_add_r]). exists outs, sizes, []. cbn [length concat fmap list_fmap].
      rewrite Nat.add_0_r. split_and!; [done|done|by intros j p|done|done|].
      symmetry. apply list_eq. intros k. rewrite slice_lookup, lookup_nil. case_decide; [|done]. apply lookup_ge_None. lia. }
  destruct (Nat.eqb_spec i (length outs)) as [->|Hne].
  { assert (fits = false) as -> by (apply Nat.leb_gt; lia). exists outs, sizes, []. cbn [length concat fmap list_fmap].
    split_and!; [done|lia|by intros j p|done|done|].
    symmetry. apply list_eq. intros k. rewrite slice_lookup, lookup_nil. rewrite decide_False by lia. done. }
  set (dataEnd := Nat.min (dataAt + Z.to_nat (vh_gsoSize hdr)) (length inp)). fold g in dataEnd.
  rewrite orElse_true by (apply Nat.ltb_lt; lia).
  destruct (lookup_lt_is_Some_2 outs i) as [buf Ebuf]; [lia|]. rewrite Ebuf. cbn [mbind option_bind].
  pose proof (proj1 (Forall_lookup _ _) Hroom _ _ Ebuf) as [Hbb Hbl]. cbv beta in Hbl.
  rewrite sliceFrom_some by lia. cbn [mbind option_bind].
  destruct (segment_spec hdr isV6 tcp seq inp i dataAt dataEnd (drop offset buf) Hsp Hcl)
    as (out' & -> & [Lo Bo] & Hdrop & Hseg); [by apply Forall_drop|unfold dataEnd, dataAt; lia|unfold dataEnd; lia|rewrite length_drop; unfold dataEnd; lia|].
  cbn [mbind option_bind]. rewrite length_drop in Lo. set (total := (Z.to_nat (vh_hdrLen hdr) + (dataEnd - dataAt))%nat) in *.
  set (p := take total out') in *. assert (length p = total) as Lp by (unfold p, total, dataEnd; rewrite length_take; lia).
  set (buf' := take offset buf ++ out'). assert (buf' = take offset buf ++ p ++ drop (offset + length p) buf) as Ebuf'.
  { unfold buf'. f_equal. rewrite Lp, <- drop_drop, <- Hdrop. unfold p. symmetry. apply take_drop. }
  assert (all_bytes buf' /\ length buf' = length buf) as [Bb' Lb'].
  { unfold buf'. split; [apply Forall_app; split; [by apply Forall_take|done]|]. rewrite length_app, length_take, Lo. lia. }
  set (size := vh_hdrLen hdr + _). destruct (IH (S i) (<[i := buf']> outs) (<[i := size]> sizes)) as (outs' & sizes' & ps & E & H1 & H2 & H3 & H4 & H5).
  { split; [|by rewrite !length_insert]. apply Forall_insert; [done|]. split; [done|]. rewrite Lb'. lia. }
  { rewrite length_insert. lia. }
  { rewrite length_insert. lia. }
  cbv zeta in E, H1, H5. rewrite length_insert in *. fold g in E, H1, H5.
  assert (dataAt + g = Z.to_nat (vh_hdrLen hdr) + S i * g)%nat as Enext by (unfold dataAt; lia).
  replace (dataAt + Z.to_nat (vh_gsoSize hdr))%nat with (Z.to_nat (vh_hdrLen hdr) + S i * g)%nat by done.
  assert ((length inp <=? Z.to_nat (vh_hdrLen hdr) + S i * g + (length outs - S i) * g)%nat = fits) as Efits.
  { unfold fits. f_equal. rewrite <- Enext. replace (length outs - i)%nat with (S (length outs - S i)) by lia. lia. }
  rewrite Efits in *. exists outs', sizes', (p :: ps). rewrite E. cbn [length].
  replace (S i + length ps)%nat with (i + S (length ps))%nat in * by lia. split; [done|]. split; [intros F; specialize (H1 F); lia|]. split; [|split; [done|split]].
  - intros [|j] q; cbn [lookup list_lookup].
    + intros [= <-]. rewrite Nat.add_0_r. destruct (H4 i ltac:(lia)) as [E1 E2]. split; [exact Hlt|]. split; [exact Hseg|].
      rewrite E2, list_lookup_insert_eq by lia. split; [f_equal; unfold size, total in *; lia|].
      exists buf. split; [done|]. by rewrite E1, list_lookup_insert_eq, Ebuf' by lia.
    + intros Eq. specialize (H2 j q Eq). replace (S i + j)%nat with (i + S j)%nat in H2 by lia.
      destruct H2 as (G0 & G1 & G2 & b & G3 & G4). split; [exact G0|]. split; [exact G1|]. split; [done|]. exists b. split; [|done].
      by rewrite list_lookup_insert_ne in G3 by lia.
  - intros k Hk. destruct (H4 k ltac:(lia)) as [-> ->]. by rewrite !list_lookup_insert_ne by lia.
  - cbn [fmap list_fmap concat]. rewrite (sg_payload _ _ _ _ _ _ _ _ _ Hseg). etransitivity; [apply f_equal, H5|].
    rewrite <- Enext. replace (length outs - i)%nat with (S (length outs - S i)) by lia.
    rewrite Nat.mul_succ_l. generalize ((length outs - S i) * g)%nat as r. intros r. unfold dataEnd.
    rewrite (slice_join dataAt (dataAt + g) (dataAt + g + r)) by lia. f_equal. lia.
Qed.

(** ** The whole read *)

Lemma segmentOf_cleared hdr isV6 tcp seq inp inp' i a b p : splittable hdr isV6 tcp inp ->
  (Z.to_nat (vh_hdrLen hdr) <= a)%nat -> length inp' = length inp ->
  (forall k, ~ rewritten isV6 tcp hdr k \/ (4 <= k < 6)%nat \/ k = (Z.to_nat (vh_csumStart hdr) + 13)%nat \/
    (Z.to_nat (vh_hdrLen hdr) <= k)%nat -> inp' !! k = inp !! k) ->
  segmentOf hdr isV6 tcp seq inp' i a b p -> segmentOf hdr isV6 tcp seq inp i a b p.
Proof.
  intros Hsp Ha Hl Hk [H1 H2 H3 H4 H5 H6 H7]. constructor; try done.
  - rewrite H3. apply slice_same. intros k ?. apply Hk. lia.
  - intros k Hlt Hr. rewrite H4 by done. apply Hk. by left.
  - destruct isV6; [done|]. destruct H5 as (? & E & ?). split_and!; [done| |done]. rewrite E.
    rewrite (slice_same 4 6 inp inp'); [done|]. intros k ?. apply Hk. lia.
  - cbv zeta in *. destruct tcp; [|done]. destruct H6 as [? E]. split; [done|]. rewrite E, Hl.
    f_equal. apply Hk. lia.
Qed.

Lemma putByte_zero b i : (i < length b)%nat -> exists b', putByte b i 0 = Some b' /\ length b' = length b /\
  (all_bytes b -> all_bytes b') /\ b' !! i = Some 0 /\ forall k, k <> i -> b' !! k = b !! k.
Proof.
  intros H. unfold putByte. rewrite orElse_true by by apply Nat.ltb_lt. eexists. split; [done|].
  split; [by rewrite length_insert|]. split; [intros Hb; apply Forall_insert; [done|by unfold is_byte]|].
  split; [by apply list_lookup_insert_eq|]. intros k Hk. by apply list_lookup_insert_ne.
Qed.

Lemma slice_two (b : bytes) i x y : b !! i = Some x -> b !! S i = Some y -> slice i (i + 2) b = [x; y].
Proof.
  intros Hx Hy. apply list_eq. intros k. rewrite slice_lookup.
  destruct k as [|[|k]]; [rewrite decide_True, Nat.add_0_r by lia; done|rewrite decide_True by lia; by rewrite Nat.add_1_r|].
  by rewrite decide_False by lia.
Qed.

(** The sequence number of the first segment. *)
Definition firstSeq (hdr : virtioNetHdr) (inp : bytes) : Z :=
  let start := Z.to_nat (vh_csumStart hdr) in
  if isTCP hdr then be_dec (slice (start + 4) (start + 8) inp) else 0.

Lemma gsoSplit_loop hdr isV6 inp outs sizes offset : splittable hdr isV6 (isTCP hdr) inp ->
  exists inp', gsoSplit native inp hdr outs sizes offset isV6 =
      splitLoop native (S (S (length outs))) hdr isV6 (isTCP hdr) (firstSeq hdr inp) inp' offset 0
        (Z.to_nat (vh_hdrLen hdr)) outs sizes /\
    splittable hdr isV6 (isTCP hdr) inp' /\ cleared hdr isV6 inp' /\ length inp' = length inp /\
    (forall k, ~ rewritten isV6 (isTCP hdr) hdr k \/ (4 <= k < 6)%nat \/ k = (Z.to_nat (vh_csumStart hdr) + 13)%nat \/
      (Z.to_nat (vh_hdrLen hdr) <= k)%nat -> inp' !! k = inp !! k).
Proof.
  intros [Hb Hln Hs Hh Hc Hg]. set (tcp := isTCP hdr) in *.
  assert (Z.of_nat (ipMin isV6) >= 20) as H20 by (destruct isV6; cbn; lia).
  assert ((if tcp then 20 else 8) >= 8) as Htc by (destruct tcp; lia).
  assert (exists i0, (if negb isV6 then inp ← putByte inp 10 0; putByte inp 11 0 else Some inp) = Some i0 /\
    length i0 = length inp /\ all_bytes i0 /\ (isV6 = false -> i0 !! 10%nat = Some 0 /\ i0 !! 11%nat = Some 0) /\
    forall k, isV6 = true \/ ~ (10 <= k < 12)%nat -> i0 !! k = inp !! k) as (i0 & E0 & L0 & B0 & Z0 & K0).
  { destruct isV6; cbn [negb]; [by exists inp|].
    destruct (putByte_zero inp 10) as (a & -> & La & Ba & Za & Ka); [lia|]. cbn [mbind option_bind].
    destruct (putByte_zero a 11) as (b & -> & Lb & Bb & Zb & Kb); [lia|]. exists b. split; [done|].
    split; [lia|]. split; [auto|]. split; [by rewrite Kb by lia|]. intros k [?|Hk]; [done|]. rewrite Kb, Ka by lia. done. }
  set (co := vh_csumOffset hdr) in *. set (at_ := (Z.to_nat (vh_csumStart hdr) + Z.to_nat co)%nat).
  assert (co = 6 \/ co = 16 /\ tcp = true) as Hco by (destruct tcp; auto).
  assert (Z.to_nat (u16 (vh_csumStart hdr + co)) = at_) as Eat by (rewrite u16_small; unfold at_; destruct tcp; lia).
  unfold gsoSplit. rewrite E0. cbn [mbind option_bind]. fold co. rewrite Eat.
  destruct (putByte_zero i0 at_) as (i1 & -> & L1 & B1 & Z1 & K1); [unfold at_; destruct tcp; lia|]. cbn [mbind option_bind].
  destruct (putByte_zero i1 (S at_)) as (i2 & -> & L2 & B2 & Z2 & K2); [unfold at_; destruct tcp; lia|]. cbn [mbind option_bind].
  assert (forall k, (isV6 = true \/ ~ (10 <= k < 12)%nat) -> ~ (at_ <= k < at_ + 2)%nat -> i2 !! k = inp !! k) as K.
  { intros k ? ?. rewrite K2, K1, K0 by (done || lia). done. }
  exists i2. split; [|split; [|split; [|split; [lia|]]]].
  - fold tcp. unfold firstSeq. fold tcp. destruct tcp eqn:Et; [|done]. rewrite u16_small by lia.
    rewrite getBE_some by lia. cbn [mbind option_bind].
    replace (Z.to_nat (vh_csumStart hdr + 4)) with (Z.to_nat (vh_csumStart hdr) + 4)%nat by lia.
    rewrite (slice_same _ _ inp i2); [by replace (Z.to_nat (vh_csumStart hdr) + 4 + 4)%nat with (Z.to_nat (vh_csumStart hdr) + 8)%nat by lia|].
    intros k ?. apply K; [right; lia|unfold at_; lia].
  - constructor; rewrite ?L2, ?L1, ?L0; auto.
  - split; [apply slice_two; [rewrite K2 by lia; done|done]|]. intros E. destruct (Z0 E) as [H10 H11].
    apply (slice_two _ 10); rewrite K2, K1 by (unfold at_; lia); done.
  - intros k Hk. assert (isV6 = true \/ ~ (10 <= k < 12)%nat) as Hv.
    { destruct isV6; [by left|]. right. unfold rewritten in Hk. cbn in Hk. destruct tcp; lia. }
    apply K; [done|]. unfold rewritten in Hk. fold co at_ in Hk. unfold at_ in *. destruct tcp; lia.
Qed.

Lemma gsoSplit_spec hdr isV6 inp outs sizes offset : splittable hdr isV6 (isTCP hdr) inp ->
  roomFor hdr offset outs sizes ->
  let hl := Z.to_nat (vh_hdrLen hdr) in
  let room := (length outs * Z.to_nat (vh_gsoSize hdr))%nat in
  let fits := (length inp <=? hl + room)%nat in
  exists outs' sizes' ps,
    gsoSplit native inp hdr outs sizes offset isV6 =
      Some (outs', sizes', if fits then zlen ps else zlen outs - 1, if fits then None else Some ErrTooManySegments) /\
    (fits = false -> length ps = length outs) /\
    holdsSegments hdr isV6 (isTCP hdr) (firstSeq hdr inp) inp offset 0 outs outs' sizes' ps /\
    concat (drop hl <$> ps) = slice hl (hl + room) inp.
Proof.
  intros Hsp Hroom hl room fits. destruct (gsoSplit_loop hdr isV6 inp outs sizes offset Hsp) as (inp' & -> & Hsp' & Hcl & Hl & Hk).
  destruct (splitLoop_spec hdr isV6 (isTCP hdr) (firstSeq hdr inp) inp' offset Hsp' Hcl (S (S (length outs))) 0 outs sizes Hroom)
    as (outs' & sizes' & ps & E & H1 & H2 & _ & _ & H5); [lia..|].
  cbv zeta in E, H1, H5. rewrite Nat.mul_0_l, Nat.add_0_r, Nat.sub_0_r in E, H1, H5.
  rewrite Hl in E, H1. fold hl room in E, H1, H5. fold fits in E, H1.
  exists outs', sizes', ps. cbn [Nat.add] in *. split; [done|]. split; [done|]. split.
  - intros j p Ej. destruct (H2 j p Ej) as (G0 & G1 & G2). cbv zeta in G0, G1. rewrite Hl in G0, G1. split; [exact G0|]. split; [|exact G2].
    eapply segmentOf_cleared; [done| |done|done|exact G1]. lia.
  - rewrite H5. apply slice_same. intros k ?. apply Hk. unfold hl in *. lia.
Qed.

(** ** The virtio header *)

Definition hdrOk (v : virtioNetHdr) : Prop :=
  is_byte (vh_flags v) /\ is_byte (vh_gsoType v) /\ 0 <= vh_hdrLen v < 65536 /\ 0 <= vh_gsoSize v < 65536 /\
  0 <= vh_csumStart v < 65536 /\ 0 <= vh_csumOffset v < 65536.

Lemma native_enc2 x : exists a b, native_enc native 2 x = [a; b].
Proof.
  pose proof (length_native_enc native 2 x) as Hl. destruct (native_enc native 2 x) as [|a [|b [|c l]]]; try done. eauto.
Qed.

Lemma hdrDecode_hdrBytes v rest : hdrOk v -> hdrDecode native (hdrBytes native v ++ rest) = Some v.
Proof.
  intros (_ & _ & H1 & H2 & H3 & H4). unfold hdrDecode, hdrBytes.
  pose proof (fun x => native_dec_enc native 2 x) as Hd.
  destruct (native_enc2 (vh_hdrLen v)) as (a1 & b1 & E1). destruct (native_enc2 (vh_gsoSize v)) as (a2 & b2 & E2).
  destruct (native_enc2 (vh_csumStart v)) as (a3 & b3 & E3). destruct (native_enc2 (vh_csumOffset v)) as (a4 & b4 & E4).
  rewrite E1, E2, E3, E4. cbn -[native_dec]. rewrite take_0.
  rewrite <- E1, <- E2, <- E3, <- E4, !Hd by lia. by destruct v.
Qed.

Lemma hdrBytes_drop v rest : drop virtioNetHdrLen (hdrBytes native v ++ rest) = rest.
Proof.
  unfold hdrBytes. destruct (native_enc2 (vh_hdrLen v)) as (a1 & b1 & ->). destruct (native_enc2 (vh_gsoSize v)) as (a2 & b2 & ->).
  destruct (native_enc2 (vh_csumStart v)) as (a3 & b3 & ->). by destruct (native_enc2 (vh_csumOffset v)) as (a4 & b4 & ->).
Qed.

(** The header with the length of the headers as parsed. *)
Definition parsed (v : virtioNetHdr) (inp : bytes) : virtioNetHdr :=
  v <| vh_hdrLen := vh_csumStart v +
    (if isTCP v then Z.shiftr (nth (Z.to_nat (vh_csumStart v + 12)) inp 0) 4 * 4 else 8) |>.

Lemma checkVirtio_splittable v inp (isV6 : bool) : hdrOk v ->
  vh_gsoType v = (if isV6 then VIRTIO_NET_HDR_GSO_TCPV6 else VIRTIO_NET_HDR_GSO_TCPV4) \/
    vh_gsoType v = VIRTIO_NET_HDR_GSO_UDP_L4 ->
  Z.shiftr (nth 0 inp 0) 4 = (if isV6 then 6 else 4) ->
  splittable (parsed v inp) isV6 (isTCP v) inp ->
  checkVirtio inp v = Some (inl (parsed v inp, isV6)).
Proof.
  intros (_ & _ & Hok1 & _ & Hok2 & Hok3) Ht Hver [Hb Hln Hs Hh Hc Hg].
  assert (Z.of_nat (ipMin isV6) >= 20) as H20 by (destruct isV6; cbn; lia).
  change (vh_csumStart (parsed v inp)) with (vh_csumStart v) in *. change (vh_csumOffset (parsed v inp)) with (vh_csumOffset v) in *.
  set (tcp := isTCP v) in *. assert ((if tcp then 20 else 8) >= 8) as Htc by (destruct tcp; lia).
  unfold checkVirtio.
  assert (tcp = negb (vh_gsoType v =? VIRTIO_NET_HDR_GSO_UDP_L4)) as Etcp.
  { unfold tcp, isTCP. destruct Ht as [-> | ->]; destruct isV6; done. }
  fold tcp. assert (negb tcp && negb (vh_gsoType v =? VIRTIO_NET_HDR_GSO_UDP_L4) = false) as ->
    by (rewrite Etcp; by destruct (_ =? _)).
  destruct inp as [|b0 inp0] eqn:Einp; [cbn in Hh; lia|]. rewrite <- Einp in *.
  assert (inp !! 0%nat = Some b0) as -> by by rewrite Einp. cbn [mbind option_bind].
  assert (Z.shiftr b0 4 = if isV6 then 6 else 4) as -> by by rewrite Einp in Hver.
  assert (negb ((if isV6 then 6 else 4) =? 4) && negb ((if isV6 then 6 else 4) =? 6) = false) as -> by by destruct isV6.
  assert (negb (vh_gsoType v =? (if (if isV6 then 6 else 4) =? 4 then VIRTIO_NET_HDR_GSO_TCPV4 else VIRTIO_NET_HDR_GSO_TCPV6)) &&
    negb (vh_gsoType v =? VIRTIO_NET_HDR_GSO_UDP_L4) = false) as -> by (destruct Ht as [-> | ->]; by destruct isV6).
  assert (parseHdrLen inp v = Some (inl (parsed v inp))) as ->.
  { unfold parseHdrLen. unfold parsed in *. fold tcp in Hh |- *. cbn [vh_hdrLen set_field] in Hh. destruct tcp.
    - destruct (vh_gsoType v =? VIRTIO_NET_HDR_GSO_UDP_L4); [done|]. rewrite u16_small by lia.
      destruct (Z.leb_spec (zlen inp) (vh_csumStart v + 12)); [lia|].
      destruct (lookup_lt_is_Some_2 inp (Z.to_nat (vh_csumStart v + 12))) as [b Eb]; [lia|]. rewrite Eb. cbn [mbind option_bind].
      rewrite (nth_lookup_Some _ _ _ _ Eb) in *. pose proof (proj1 (Forall_lookup _ _) Hb _ _ Eb) as Hbb.
      assert (0 <= Z.shiftr b 4 < 16) as Hsh.
      { rewrite Z.shiftr_div_pow2 by lia. change (2 ^ 4) with 16. unfold is_byte in Hbb.
        split; [apply Z.div_pos; lia|apply Z.div_lt_upper_bound; lia]. }
      rewrite u8_small by lia. change (Z.of_nat 4) with 4 in *.
      destruct (Z.ltb_spec (Z.shiftr b 4 * 4) 20); [cbn in Hh; lia|]. destruct (Z.ltb_spec 60 (Z.shiftr b 4 * 4)); [lia|]. cbn [orb].
      by rewrite u16_small by (cbn in Hh; lia).
    - destruct (vh_gsoType v =? VIRTIO_NET_HDR_GSO_UDP_L4); [|done]. by rewrite u16_small by (cbn in Hh; lia). }
  cbn [mbind option_bind]. change (vh_csumStart (parsed v inp)) with (vh_csumStart v).
  change (vh_csumOffset (parsed v inp)) with (vh_csumOffset v).
  destruct (Z.ltb_spec (zlen inp) (vh_hdrLen (parsed v inp))); [lia|].
  destruct (Z.ltb_spec (vh_hdrLen (parsed v inp)) (vh_csumStart v)); [lia|].
  rewrite u16_small by (destruct tcp; lia). destruct (Z.leb_spec (zlen inp) (vh_csumStart v + vh_csumOffset v + 1)); [destruct tcp; lia|].
  by destruct isV6.
Qed.

(** ** Properties *)

(** C30: a large packet that the kernel hands over is split into packets of their
    own.  When the buffers suffice, the read returns as many packets as there
    are segments, and the payloads of the packets in order are the payload that
    was read.  Each packet has the size reported for it and the headers that were
    read, but for its own total length, IPv4 identification, TCP sequence number
    and flags (FIN and PSH only on the last), UDP length; the IPv4 header checksum
    verifies, and so does the transport checksum.  When the buffers do not
    suffice, all of them hold a segment, and the read returns one less with
    [ErrTooManySegments]. *)
Theorem handleVirtioRead_segments (v : virtioNetHdr) (isV6 : bool) (inp : bytes) (bufs : list bytes) (sizes : list Z)
    (offset : nat) :
  hdrOk v ->
  vh_gsoType v = (if isV6 then VIRTIO_NET_HDR_GSO_TCPV6 else VIRTIO_NET_HDR_GSO_TCPV4) \/
    vh_gsoType v = VIRTIO_NET_HDR_GSO_UDP_L4 ->
  Z.shiftr (nth 0 inp 0) 4 = (if isV6 then 6 else 4) ->
  splittable (parsed v inp) isV6 (isTCP v) inp ->
  roomFor (parsed v inp) offset bufs sizes ->
  let hl := Z.to_nat (vh_hdrLen (parsed v inp)) in
  let room := (length bufs * Z.to_nat (vh_gsoSize v))%nat in
  let fits := (length inp <=? hl + room)%nat in
  exists bufs' sizes' ps,
    handleVirtioRead native (hdrBytes native v ++ inp) bufs sizes offset =
      Some (bufs', sizes', if fits then zlen ps else zlen bufs - 1, if fits then None else Some ErrTooManySegments) /\
    concat (drop hl <$> ps) = (if fits then drop hl inp else slice hl (hl + room) inp) /\
    (fits = false -> length ps = length bufs) /\
    holdsSegments (parsed v inp) isV6 (isTCP v) (firstSeq v inp) inp offset 0 bufs bufs' sizes' ps.
Proof.
  intros Hok Ht Hver Hsp Hroom hl room fits. unfold handleVirtioRead. rewrite hdrDecode_hdrBytes, hdrBytes_drop by done.
  assert (vh_gsoType v =? VIRTIO_NET_HDR_GSO_NONE = false) as -> by (destruct Ht as [-> | ->]; by destruct isV6).
  rewrite (checkVirtio_splittable v inp isV6) by done. cbn [mbind option_bind].
  destruct (gsoSplit_spec (parsed v inp) isV6 inp bufs sizes offset Hsp Hroom) as (outs' & sizes' & ps & -> & H1 & H2 & H3).
  exists outs', sizes', ps. split; [done|]. split; [|by split]. etransitivity; [exact H3|].
  change (length bufs * Z.to_nat (vh_gsoSize (parsed v inp)))%nat with room. fold hl.
  destruct fits eqn:Ef; [|done]. apply Nat.leb_le in Ef. unfold slice. apply take_ge. rewrite length_drop. lia.
Qed.

End Gso.

(** ** Witnesses *)

(** Five bytes over TCP with FIN, PSH and ACK, two bytes to a segment. *)
Definition sample_virtio : virtioNetHdr := mkHdr 1 VIRTIO_NET_HDR_GSO_TCPV4 45 2 20 16.
Definition sample_tcp : bytes :=
  [0x45; 0; 0; 45; 0xff; 0xff; 0x40; 0; 64; 6; 1; 2; 10; 0; 0; 1; 10; 0; 0; 2;
   0x1f; 0x90; 0xc3; 0x50; 0xff; 0xff; 0xff; 0xff; 0; 0; 0; 9; 0x50; 25; 0; 64; 3; 4; 0; 0; 104; 101; 108; 108; 111].
Definition sample_bufs : list bytes := replicate 4 (replicate 60 170).

Lemma handleVirtioRead_segments_witness :
  exists bufs' sizes' ps,
    handleVirtioRead little (hdrBytes little sample_virtio ++ sample_tcp) sample_bufs (replicate 4 0) 16 =
      Some (bufs', sizes', zlen ps, None) /\
    concat (drop 40 <$> ps) = [104; 101; 108; 108; 111] /\
    (true = false -> length ps = length sample_bufs) /\
    holdsSegments little (parsed sample_virtio sample_tcp) false true (2 ^ 32 - 1) sample_tcp 16 0 sample_bufs bufs' sizes' ps.
Proof.
  apply (handleVirtioRead_segments little sample_virtio false sample_tcp sample_bufs (replicate 4 0) 16).
  - repeat split; vm_compute; reflexivity || discriminate.
  - by left.
  - reflexivity.
  - constructor; try (repeat split; vm_compute; reflexivity || discriminate). apply (bool_decide_unpack _). vm_compute. exact I.
  - split; [|vm_compute; lia]. apply (bool_decide_unpack _). vm_compute. exact I.
Defined.
