(* ===== verification/Gro.v ===== *)
(** Generic receive offload of the Linux TUN device: packets of one TCP or UDP
    flow are merged before they are written ([tun/offload_linux.go], and [Write]
    of [tun/tun_linux.go]).

    The buffers do not overlap.  The pools of the tables recycle empty slices:
    only how many are left is kept. *)
From S2P Require Import Prelude Checksum Offload.

(** ** Data *)

(** A buffer with the capacity behind its length. *)
Record buf := mkBuf { b_data : bytes; b_cap : nat }.
#[export] Instance buf_settable : Settable buf := fun b => mkBuf (b_data b) (b_cap b).

Definition IdealBatchSize : nat := 128.

(** [tcpFlowKey] and [udpFlowKey]; UDP has no acknowledgement. *)
Record flowKey := mkFlow {
  srcAddr : bytes; dstAddr : bytes; srcPort : Z; dstPort : Z; rxAck : Z; k_isV6 : bool }.
#[export] Instance flowKey_eq_dec : EqDecision flowKey.
Proof. solve_decision. Defined.
#[export] Program Instance flowKey_countable : Countable flowKey :=
  inj_countable' (fun k => (srcAddr k, dstAddr k, srcPort k, dstPort k, rxAck k, k_isV6 k))
    (fun '(a, b, c, d, e, f) => mkFlow a b c d e f) _.
Next Obligation. by intros []. Qed.

Record tcpGROItem := mkTcpItem {
  ti_key : flowKey; ti_sentSeq : Z; ti_bufsIndex : nat; ti_numMerged : Z; ti_gsoSize : Z;
  ti_iphLen : Z; ti_tcphLen : Z; ti_pshSet : bool }.
#[export] Instance tcpGROItem_settable : Settable tcpGROItem := fun i =>
  mkTcpItem (ti_key i) (ti_sentSeq i) (ti_bufsIndex i) (ti_numMerged i) (ti_gsoSize i) (ti_iphLen i) (ti_tcphLen i) (ti_pshSet i).

Record udpGROItem := mkUdpItem {
  ui_key : flowKey; ui_bufsIndex : nat; ui_numMerged : Z; ui_gsoSize : Z; ui_iphLen : Z; ui_cSumKnownInvalid : bool }.
#[export] Instance udpGROItem_settable : Settable udpGROItem := fun i =>
  mkUdpItem (ui_key i) (ui_bufsIndex i) (ui_numMerged i) (ui_gsoSize i) (ui_iphLen i) (ui_cSumKnownInvalid i).

(** [tcpGROTable] and [udpGROTable]. *)
Record groTable (item : Type) := mkTable { itemsByFlow : gmap flowKey (list item); itemsPool : nat }.
Arguments mkTable {item} _ _.
Arguments itemsByFlow {item} _.
Arguments itemsPool {item} _.
#[export] Instance groTable_settable {item} : Settable (groTable item) := fun t => mkTable (itemsByFlow t) (itemsPool t).

Inductive canCoalesce := coalescePrepend | coalesceUnavailable | coalesceAppend.
Inductive coalesceResult :=
  | coalesceInsufficientCap | coalescePSHEnding | coalesceItemInvalidCSum | coalescePktInvalidCSum | coalesceSuccess.
Inductive groResult := groResultNoop | groResultTableInsert | groResultCoalesced.
Inductive groCandidateType :=
  | notGROCandidate | tcp4GROCandidate | tcp6GROCandidate | udp4GROCandidate | udp6GROCandidate.
#[export] Instance canCoalesce_eq_dec : EqDecision canCoalesce.
Proof. solve_decision. Defined.

(** ** The tables *)

Definition newTable {item} : groTable item := mkTable ∅ IdealBatchSize.

(** [lookupOrInsert] finds the items of a flow; [insert] appends one, for a new
    flow in a slice of the pool, which panics when there is none. *)
Definition insertItem {item} (key : flowKey) (x : item) (t : groTable item) : option (groTable item) :=
  match itemsByFlow t !! key with
  | Some items => Some (t <| itemsByFlow ::= <[key := items ++ [x]]> |>)
  | None =>
      match itemsPool t with
      | O => None
      | S n => Some (mkTable (<[key := [x]]> (itemsByFlow t)) n)
      end
  end.

Definition updateAt {item} (key : flowKey) (x : item) (i : nat) (t : groTable item) : option (groTable item) :=
  let items := default [] (itemsByFlow t !! key) in
  _ ← orElse (i <? length items)%nat;
  Some (t <| itemsByFlow ::= <[key := <[i := x]> items]> |>).

Definition deleteAt {item} (key : flowKey) (i : nat) (t : groTable item) : option (groTable item) :=
  let items := default [] (itemsByFlow t !! key) in
  _ ← orElse (i <? length items)%nat;
  Some (t <| itemsByFlow ::= <[key := take i items ++ drop (S i) items]> |>).

Definition resetTable {item} (t : groTable item) : groTable item :=
  mkTable ∅ (itemsPool t + size (itemsByFlow t)).

(** [newTCPFlowKey] with [rxAck], [newUDPFlowKey] without. *)
Definition newFlowKey (tcp : bool) (pkt : bytes) (srcAddrOffset dstAddrOffset hdrOffset : nat) : option flowKey :=
  let addrSize := (dstAddrOffset - srcAddrOffset)%nat in
  src ← sliceOf pkt srcAddrOffset dstAddrOffset;
  dst ← sliceOf pkt dstAddrOffset (dstAddrOffset + addrSize);
  srcPort ← getBE 2 pkt hdrOffset;
  dstPort ← getBE 2 pkt (hdrOffset + 2);
  rxAck ← (if tcp then getBE 4 pkt (hdrOffset + 8) else Some 0);
  Some (mkFlow (copy_at (replicate 16 0) 0 src) (copy_at (replicate 16 0) 0 dst) srcPort dstPort rxAck (addrSize =? 16)%nat).

(** The item [insert] makes. *)
Definition newTcpItem (key : flowKey) (pkt : bytes) (tcphOffset tcphLen bufsIndex : nat) : option tcpGROItem :=
  payload ← sliceFrom pkt (tcphOffset + tcphLen);
  seq ← getBE 4 pkt (tcphOffset + 4);
  flags ← pkt !! (tcphOffset + Z.to_nat tcpFlagsOffset)%nat;
  Some (mkTcpItem key seq (Z.to_nat (u16 (Z.of_nat bufsIndex))) 0 (u16 (Z.of_nat (length payload)))
    (u8 (Z.of_nat tcphOffset)) (u8 (Z.of_nat tcphLen)) (negb (Z.land flags tcpFlagPSH =? 0))).

Definition newUdpItem (key : flowKey) (pkt : bytes) (udphOffset bufsIndex : nat) (cSumKnownInvalid : bool) : option udpGROItem :=
  payload ← sliceFrom pkt (udphOffset + Z.to_nat udphLen);
  Some (mkUdpItem key (Z.to_nat (u16 (Z.of_nat bufsIndex))) 0 (u16 (Z.of_nat (length payload)))
    (u8 (Z.of_nat udphOffset)) cSumKnownInvalid).

(** ** Whether packets coalesce *)

Definition ipHeadersCanCoalesce (pktA pktB : bytes) : bool :=
  let a (i : nat) := nth i pktA 0 in
  let b (i : nat) := nth i pktB 0 in
  if (length pktA <? 9)%nat || (length pktB <? 9)%nat then false
  else if Z.shiftr (a 0%nat) 4 =? 6 then
    if negb (a 0%nat =? b 0%nat) || negb (Z.shiftr (a 1%nat) 4 =? Z.shiftr (b 1%nat) 4) then false
    else a 7%nat =? b 7%nat
  else if negb (a 1%nat =? b 1%nat) then false
  else if negb (Z.shiftr (a 6%nat) 5 =? Z.shiftr (b 6%nat) 5) then false
  else a 8%nat =? b 8%nat.

(** [bufs[i][offset:]] *)
Definition packetAt (bufs : list buf) (i offset : nat) : option bytes :=
  b ← bufs !! i; sliceFrom (b_data b) offset.

(** [len(b)%int(gsoSize) != 0], which panics for size zero. *)
Definition ragged (b : bytes) (gsoSize : Z) : option bool :=
  _ ← orElse (negb (gsoSize =? 0)); Some (negb (zlen b mod gsoSize =? 0)).

Definition udpPacketsCanCoalesce (pkt : bytes) (iphLen gsoSize : Z) (item : udpGROItem) (bufs : list buf) (bufsOffset : nat)
    : option canCoalesce :=
  pktTarget ← packetAt bufs (ui_bufsIndex item) bufsOffset;
  if negb (ipHeadersCanCoalesce pkt pktTarget) then Some coalesceUnavailable
  else
    payload ← sliceFrom pktTarget (Z.to_nat (u8 (iphLen + udphLen)));
    r ← ragged payload (ui_gsoSize item);
    Some (if (r : bool) then coalesceUnavailable
          else if gsoSize >? ui_gsoSize item then coalesceUnavailable
          else coalesceAppend).

Definition tcpPacketsCanCoalesce (pkt : bytes) (iphLen tcphLen seq : Z) (pshSet : bool) (gsoSize : Z) (item : tcpGROItem)
    (bufs : list buf) (bufsOffset : nat) : option canCoalesce :=
  pktTarget ← packetAt bufs (ti_bufsIndex item) bufsOffset;
  if negb (tcphLen =? ti_tcphLen item) then Some coalesceUnavailable
  else
    sameOptions ← (if tcphLen >? 20 then
        a ← sliceOf pkt (Z.to_nat (u8 (iphLen + 20))) (Z.to_nat (u8 (iphLen + tcphLen)));
        b ← sliceOf pktTarget (Z.to_nat (u8 (ti_iphLen item + 20))) (Z.to_nat (u8 (iphLen + tcphLen)));
        Some (bytes_eqb a b)
      else Some true);
    if negb sameOptions then Some coalesceUnavailable
    else if negb (ipHeadersCanCoalesce pkt pktTarget) then Some coalesceUnavailable
    else
      let lhsLen := u16 (ti_gsoSize item + u16 (ti_numMerged item * ti_gsoSize item)) in
      if seq =? u32 (ti_sentSeq item + lhsLen) then
        if ti_pshSet item then Some coalesceUnavailable
        else
          payload ← sliceFrom pktTarget (Z.to_nat (u8 (iphLen + tcphLen)));
          r ← ragged payload (ti_gsoSize item);
          Some (if (r : bool) then coalesceUnavailable
                else if gsoSize >? ti_gsoSize item then coalesceUnavailable
                else coalesceAppend)
      else if u32 (seq + gsoSize) =? ti_sentSeq item then
        Some (if pshSet then coalesceUnavailable
              else if gsoSize <? ti_gsoSize item then coalesceUnavailable
              else if (gsoSize >? ti_gsoSize item) && (0 <? ti_numMerged item) then coalesceUnavailable
              else coalescePrepend)
      else Some coalesceUnavailable.

(** ** Coalescing *)

Section Gro.
Variable native : endian.

(** [append(bufs[i], make([]byte, n)...)]; a length below zero panics. *)
Definition extend (b : buf) (n : Z) : option buf :=
  _ ← orElse (0 <=? n);
  let data := b_data b ++ replicate (Z.to_nat n) 0 in
  Some (mkBuf data (Nat.max (b_cap b) (length data))).

(** [copy(b[at:], src)] *)
Definition copyInto (b : buf) (off : nat) (src : bytes) : option buf :=
  _ ← orElse (off <=? length (b_data b))%nat; Some (b <| b_data ::= fun d => copy_at d off src |>).

Definition coalesceUDPPackets (pkt : bytes) (item : udpGROItem) (bufs : list buf) (bufsOffset : nat) (isV6 : bool)
    : option (coalesceResult * udpGROItem * list buf) :=
  b ← bufs !! ui_bufsIndex item;
  pktHead ← sliceFrom (b_data b) bufsOffset;
  let headersLen := u8 (ui_iphLen item + udphLen) in
  let coalescedLen := zlen pktHead + zlen pkt - headersLen in
  if Z.of_nat (b_cap b) - Z.of_nat bufsOffset - Z.of_nat bufsOffset <? coalescedLen
  then Some (coalesceInsufficientCap, item, bufs)
  else
    itemValid ← (if ui_numMerged item =? 0 then
        if ui_cSumKnownInvalid item then Some false
        else checksumValid native pktHead (ui_iphLen item) IPPROTO_UDP isV6
      else Some true);
    if negb itemValid then Some (coalesceItemInvalidCSum, item, bufs)
    else
      pktValid ← checksumValid native pkt (ui_iphLen item) IPPROTO_UDP isV6;
      if negb pktValid then Some (coalescePktInvalidCSum, item, bufs)
      else
        b ← extend b (zlen pkt - headersLen);
        payload ← sliceFrom pkt (Z.to_nat headersLen);
        b ← copyInto b (bufsOffset + length pktHead) payload;
        Some (coalesceSuccess, item <| ui_numMerged ::= fun n => u16 (n + 1) |>, <[ui_bufsIndex item := b]> bufs).

(** The end of [coalesceTCPPackets]. *)
Definition mergedTcp (gsoSize : Z) (item : tcpGROItem) : tcpGROItem :=
  let item := if gsoSize >? ti_gsoSize item then item <| ti_gsoSize := gsoSize |> else item in
  item <| ti_numMerged ::= fun n => u16 (n + 1) |>.

Definition coalesceTCPPackets (mode : canCoalesce) (pkt : bytes) (pktBuffsIndex : nat) (gsoSize seq : Z) (pshSet : bool)
    (item : tcpGROItem) (bufs : list buf) (bufsOffset : nat) (isV6 : bool)
    : option (coalesceResult * tcpGROItem * list buf) :=
  b ← bufs !! ti_bufsIndex item;
  target ← sliceFrom (b_data b) bufsOffset;
  let headersLen := u8 (ti_iphLen item + ti_tcphLen item) in
  let coalescedLen := zlen target + zlen pkt - headersLen in
  let tooSmall (b : buf) := Z.of_nat (b_cap b) - Z.of_nat bufsOffset - Z.of_nat bufsOffset <? coalescedLen in
  let itemValid := if ti_numMerged item =? 0 then checksumValid native target (ti_iphLen item) IPPROTO_TCP isV6 else Some true in
  let pktValid := checksumValid native pkt (ti_iphLen item) IPPROTO_TCP isV6 in
  match mode with
  | coalescePrepend =>
      pb ← bufs !! pktBuffsIndex;
      if tooSmall pb then Some (coalesceInsufficientCap, item, bufs)
      else if pshSet then Some (coalescePSHEnding, item, bufs)
      else
        v ← itemValid;
        if negb v then Some (coalesceItemInvalidCSum, item, bufs)
        else
          v ← pktValid;
          if negb v then Some (coalescePktInvalidCSum, item, bufs)
          else
            let item := item <| ti_sentSeq := seq |> in
            pb ← extend pb (coalescedLen - zlen pkt);
            payload ← sliceFrom (b_data b) (bufsOffset + Z.to_nat headersLen);
            pb ← copyInto pb (bufsOffset + length pkt) payload;
            Some (coalesceSuccess, mergedTcp gsoSize item, <[ti_bufsIndex item := pb]> (<[pktBuffsIndex := b]> bufs))
  | _ =>
      if tooSmall b then Some (coalesceInsufficientCap, item, bufs)
      else
        v ← itemValid;
        if negb v then Some (coalesceItemInvalidCSum, item, bufs)
        else
          v ← pktValid;
          if negb v then Some (coalescePktInvalidCSum, item, bufs)
          else
            let flagsAt := Z.to_nat (u8 (ti_iphLen item + tcpFlagsOffset)) in
            b ← (if pshSet then
                f ← target !! flagsAt;
                Some (b <| b_data ::= <[(bufsOffset + flagsAt)%nat := Z.lor f tcpFlagPSH]> |>)
              else Some b);
            let item := if pshSet then item <| ti_pshSet := pshSet |> else item in
            b ← extend b (zlen pkt - headersLen);
            payload ← sliceFrom pkt (Z.to_nat headersLen);
            b ← copyInto b (bufsOffset + length target) payload;
            Some (coalesceSuccess, mergedTcp gsoSize item, <[ti_bufsIndex item := b]> bufs)
  end.

(** ** One packet *)

(** [clear(bufs[i][offset-virtioNetHdrLen : offset])] *)
Definition clearHdr (bufs : list buf) (i offset : nat) : option (list buf) :=
  b ← bufs !! i;
  data ← copyTo (b_data b) (offset - virtioNetHdrLen) offset (replicate virtioNetHdrLen 0);
  Some (<[i := b <| b_data := data |>]> bufs).

(** The length of the IP header when the packet has the length its header says. *)
Definition ipLengthOk (pkt : bytes) (isV6 : bool) : option (option nat) :=
  if isV6 then
    l ← getBE 2 pkt 4;
    Some (if l =? zlen pkt - 40 then Some 40%nat else None)
  else
    b ← pkt !! 0%nat;
    l ← getBE 2 pkt 2;
    Some (if l =? zlen pkt then Some (Z.to_nat (u8 (Z.land b 15 * 4))) else None).

(** Not a fragment. *)
Definition unfragmented (pkt : bytes) (isV6 : bool) : option bool :=
  if isV6 then Some true
  else
    a ← pkt !! 6%nat;
    b ← pkt !! 7%nat;
    Some (negb (negb (Z.land a 32 =? 0) || negb (u8 (Z.shiftl a 3) =? 0) || negb (b =? 0))).

(** The loop of [tcpGRO] over the items of the flow, the last first; [n] of them
    are left.  [None] at the end stands for falling out of the loop. *)
Fixpoint tcpItems (n : nat) (items : list tcpGROItem) (pkt : bytes) (pktI iphLen tcphLen : nat) (seq : Z) (pshSet : bool)
    (gsoSize : Z) (bufs : list buf) (offset : nat) (isV6 : bool) (table : groTable tcpGROItem)
    : option (option groResult * list buf * groTable tcpGROItem) :=
  match n with
  | O => Some (None, bufs, table)
  | S i =>
      let continue := tcpItems i items pkt pktI iphLen tcphLen seq pshSet gsoSize in
      item ← items !! i;
      can ← tcpPacketsCanCoalesce pkt (u8 (Z.of_nat iphLen)) (u8 (Z.of_nat tcphLen)) seq pshSet gsoSize item bufs offset;
      match can with
      | coalesceUnavailable => continue bufs offset isV6 table
      | _ =>
          r ← coalesceTCPPackets can pkt pktI gsoSize seq pshSet item bufs offset isV6;
          match r with
          | (coalesceSuccess, item, bufs) =>
              table ← updateAt (ti_key item) item i table;
              Some (Some groResultCoalesced, bufs, table)
          | (coalesceItemInvalidCSum, item, bufs) =>
              table ← deleteAt (ti_key item) i table;
              bufs ← clearHdr bufs (ti_bufsIndex item) offset;
              continue bufs offset isV6 table
          | (coalescePktInvalidCSum, _, bufs) => Some (Some groResultNoop, bufs, table)
          | (_, _, bufs) => continue bufs offset isV6 table
          end
      end
  end.

Definition noop (bufs : list buf) {item} (table : groTable item) : option (groResult * list buf * groTable item) :=
  Some (groResultNoop, bufs, table).

Definition maxUint16 : Z := 65535.

(** What [tcpGRO] finds out about a packet before it looks at the table. *)
Record packetMeta := mkMeta {
  m_iphLen : nat; m_hdrLen : nat; m_pshSet : bool; m_gsoSize : Z; m_seq : Z; m_key : flowKey }.

(** [Some None] is [groResultNoop]. *)
Definition tcpMeta (pkt : bytes) (isV6 : bool) : option (option packetMeta) :=
  if zlen pkt >? maxUint16 then Some None
  else
    ok ← ipLengthOk pkt isV6;
    match ok with
    | None => Some None
    | Some iphLen =>
        if (length pkt <? iphLen)%nat then Some None
        else
          b ← pkt !! (iphLen + 12)%nat;
          let tcphLen := Z.to_nat (u8 (Z.shiftr b 4 * 4)) in
          if (tcphLen <? 20)%nat || (60 <? tcphLen)%nat then Some None
          else if (length pkt <? iphLen + tcphLen)%nat then Some None
          else
            whole ← unfragmented pkt isV6;
            if negb whole then Some None
            else
              tcpFlags ← pkt !! (iphLen + Z.to_nat tcpFlagsOffset)%nat;
              let pshSet := negb (tcpFlags =? tcpFlagACK) in
              if pshSet && negb (tcpFlags =? Z.lor tcpFlagACK tcpFlagPSH) then Some None
              else
                let gsoSize := u16 (Z.of_nat (length pkt - tcphLen - iphLen)) in
                if gsoSize <? 1 then Some None
                else
                  seq ← getBE 4 pkt (iphLen + 4);
                  let '(srcAddrOffset, addrLen) := addrs isV6 in
                  key ← newFlowKey true pkt srcAddrOffset (srcAddrOffset + addrLen) iphLen;
                  Some (Some (mkMeta iphLen tcphLen pshSet gsoSize seq key))
    end.

Definition udpMeta (pkt : bytes) (isV6 : bool) : option (option packetMeta) :=
  if zlen pkt >? maxUint16 then Some None
  else
    ok ← ipLengthOk pkt isV6;
    match ok with
    | None => Some None
    | Some iphLen =>
        if (length pkt <? iphLen)%nat then Some None
        else if (length pkt <? iphLen + Z.to_nat udphLen)%nat then Some None
        else
          whole ← unfragmented pkt isV6;
          if negb whole then Some None
          else
            let gsoSize := u16 (Z.of_nat (length pkt - Z.to_nat udphLen - iphLen)) in
            if gsoSize <? 1 then Some None
            else
              let '(srcAddrOffset, addrLen) := addrs isV6 in
              key ← newFlowKey false pkt srcAddrOffset (srcAddrOffset + addrLen) iphLen;
              Some (Some (mkMeta iphLen (Z.to_nat udphLen) false gsoSize 0 key))
    end.

Definition tcpGRO (bufs : list buf) (offset pktI : nat) (table : groTable tcpGROItem) (isV6 : bool)
    : option (groResult * list buf * groTable tcpGROItem) :=
  pkt ← packetAt bufs pktI offset;
  meta ← tcpMeta pkt isV6;
  match meta with
  | None => noop bufs table
  | Some m =>
      let insert table :=
        item ← newTcpItem (m_key m) pkt (m_iphLen m) (m_hdrLen m) pktI; insertItem (m_key m) item table in
      match itemsByFlow table !! m_key m with
      | None => table ← insert table; Some (groResultTableInsert, bufs, table)
      | Some items =>
          r ← tcpItems (length items) items pkt pktI (m_iphLen m) (m_hdrLen m) (m_seq m) (m_pshSet m) (m_gsoSize m)
                bufs offset isV6 table;
          match r with
          | (Some result, bufs, table) => Some (result, bufs, table)
          | (None, bufs, table) => table ← insert table; Some (groResultTableInsert, bufs, table)
          end
      end
  end.

Definition udpGRO (bufs : list buf) (offset pktI : nat) (table : groTable udpGROItem) (isV6 : bool)
    : option (groResult * list buf * groTable udpGROItem) :=
  pkt ← packetAt bufs pktI offset;
  meta ← udpMeta pkt isV6;
  match meta with
  | None => noop bufs table
  | Some m =>
      let insert known bufs :=
        item ← newUdpItem (m_key m) pkt (m_iphLen m) pktI known;
        table ← insertItem (m_key m) item table;
        Some (groResultTableInsert, bufs, table) in
      match itemsByFlow table !! m_key m with
      | None => insert false bufs
      | Some items =>
          item ← last items;
          can ← udpPacketsCanCoalesce pkt (u8 (Z.of_nat (m_iphLen m))) (m_gsoSize m) item bufs offset;
          match can with
          | coalesceAppend =>
              r ← coalesceUDPPackets pkt item bufs offset isV6;
              match r with
              | (coalesceSuccess, item, bufs) =>
                  table ← updateAt (ui_key item) item (length items - 1) table;
                  Some (groResultCoalesced, bufs, table)
              | (coalescePktInvalidCSum, _, bufs) => insert true bufs
              | (_, _, bufs) => insert false bufs
              end
          | _ => insert false bufs
          end
      end
  end.

(** ** A vector of packets *)

Definition packetIsGROCandidate (b : bytes) (canUDPGRO : bool) : groCandidateType :=
  let at_ (i : nat) := nth i b 0 in
  if (length b <? 28)%nat then notGROCandidate
  else if Z.shiftr (at_ 0%nat) 4 =? 4 then
    if negb (Z.land (at_ 0%nat) 15 =? 5) then notGROCandidate
    else if (at_ 9%nat =? IPPROTO_TCP) && (40 <=? length b)%nat then tcp4GROCandidate
    else if (at_ 9%nat =? IPPROTO_UDP) && canUDPGRO then udp4GROCandidate
    else notGROCandidate
  else if Z.shiftr (at_ 0%nat) 4 =? 6 then
    if (at_ 6%nat =? IPPROTO_TCP) && (60 <=? length b)%nat then tcp6GROCandidate
    else if (at_ 6%nat =? IPPROTO_UDP) && (48 <=? length b)%nat && canUDPGRO then udp6GROCandidate
    else notGROCandidate
  else notGROCandidate.

(** What both accountings do to the packet of a merged item: the lengths and the
    IPv4 header checksum, the virtio header in front, and the sum of the pseudo
    header at the transport checksum. *)
Definition accountIP (pkt : bytes) (iphLen : Z) (isV6 : bool) : option bytes :=
  if isV6 then putBE 2 pkt 4 (u16 (u16 (zlen pkt) - u16 iphLen))
  else
    pkt ← putByte pkt 10 0;
    pkt ← putByte pkt 11 0;
    pkt ← putBE 2 pkt 2 (u16 (zlen pkt));
    iph ← sliceOf pkt 0 (Z.to_nat iphLen);
    putBE 2 pkt 10 (not16 (checksum native iph 0)).

(** [encode] into the bytes before the packet, then the rest of the packet:
    [None] inside is the error of [encode]. *)
Definition account (hdr : virtioNetHdr) (protocol iphLen : Z) (isV6 : bool) (offset : nat) (b : buf) : option (option buf) :=
  pkt ← sliceFrom (b_data b) offset;
  pkt ← accountIP pkt iphLen isV6;
  let data := take offset (b_data b) ++ pkt in
  front ← sliceFrom data (offset - virtioNetHdrLen);
  match hdrEncode native hdr front with
  | None => Some None
  | Some front =>
      let data := take (offset - virtioNetHdrLen) data ++ front in
      pkt ← sliceFrom data offset;
      pkt ← (if protocol =? IPPROTO_UDP
             then l ← sliceFrom pkt (Z.to_nat iphLen); putBE 2 pkt (Z.to_nat (u8 (iphLen + 4))) (u16 (zlen l))
             else Some pkt);
      psum ← pseudoOf native protocol isV6 pkt (u16 (zlen pkt - iphLen));
      pkt ← putBE 2 pkt (Z.to_nat (u16 (vh_csumStart hdr + vh_csumOffset hdr))) (checksum native [] psum);
      Some (Some (b <| b_data := take offset data ++ pkt |>))
  end.

Definition tcpHdr (item : tcpGROItem) : virtioNetHdr :=
  mkHdr VIRTIO_NET_HDR_F_NEEDS_CSUM (if k_isV6 (ti_key item) then VIRTIO_NET_HDR_GSO_TCPV6 else VIRTIO_NET_HDR_GSO_TCPV4)
    (u16 (u8 (ti_iphLen item + ti_tcphLen item))) (ti_gsoSize item) (u16 (ti_iphLen item)) 16.
Definition udpHdr (item : udpGROItem) : virtioNetHdr :=
  mkHdr VIRTIO_NET_HDR_F_NEEDS_CSUM VIRTIO_NET_HDR_GSO_UDP_L4 (u16 (u8 (ui_iphLen item + udphLen))) (ui_gsoSize item)
    (u16 (ui_iphLen item)) 6.

(** The loops over the items, [true] at the end unless an encoding failed. *)
Fixpoint applyItems {item} (merged : item -> bool) (index : item -> nat) (f : item -> buf -> option (option buf)) (offset : nat)
    (items : list item) (bufs : list buf) : option (list buf * bool) :=
  match items with
  | [] => Some (bufs, true)
  | x :: items =>
      if merged x then
        b ← bufs !! index x;
        r ← f x b;
        match r with
        | None => Some (bufs, false)
        | Some b => applyItems merged index f offset items (<[index x := b]> bufs)
        end
      else
        bufs ← clearHdr bufs (index x) offset;
        applyItems merged index f offset items bufs
  end.

(** The items in the order a [range] over the flows meets them. *)
Definition rangeItems {item} (order : list nat) (t : groTable item) : list item :=
  let flows := map_to_list (itemsByFlow t) in concat (snd <$> (pickOrder (length flows) order flows).1).

Definition applyTCPCoalesceAccounting (order : list nat) (bufs : list buf) (offset : nat) (t : groTable tcpGROItem)
    : option (list buf * bool) :=
  applyItems (fun x => 0 <? ti_numMerged x) ti_bufsIndex
    (fun x => account (tcpHdr x) IPPROTO_TCP (ti_iphLen x) (k_isV6 (ti_key x)) offset) offset (rangeItems order t) bufs.
Definition applyUDPCoalesceAccounting (order : list nat) (bufs : list buf) (offset : nat) (t : groTable udpGROItem)
    : option (list buf * bool) :=
  applyItems (fun x => 0 <? ui_numMerged x) ui_bufsIndex
    (fun x => account (udpHdr x) IPPROTO_UDP (ui_iphLen x) (k_isV6 (ui_key x)) offset) offset (rangeItems order t) bufs.

Record groState := mkGro {
  g_bufs : list buf; g_tcp : groTable tcpGROItem; g_udp : groTable udpGROItem; g_toWrite : list nat }.

(** One turn of the loop of [handleGRO]; [None] inside is the invalid offset. *)
Definition groStep (offset : nat) (canUDPGRO : bool) (s : groState) (i : nat) : option (option groState) :=
  b ← g_bufs s !! i;
  if (offset <? virtioNetHdrLen)%nat || (Z.of_nat (length (b_data b)) - 1 <? Z.of_nat offset) then Some None
  else
    pkt ← sliceFrom (b_data b) offset;
    let tcp isV6 :=
      r ← tcpGRO (g_bufs s) offset i (g_tcp s) isV6;
      let '(result, bufs, t) := r in Some (result, mkGro bufs t (g_udp s) (g_toWrite s)) in
    let udp isV6 :=
      r ← udpGRO (g_bufs s) offset i (g_udp s) isV6;
      let '(result, bufs, t) := r in Some (result, mkGro bufs (g_tcp s) t (g_toWrite s)) in
    r ← match packetIsGROCandidate pkt canUDPGRO with
        | tcp4GROCandidate => tcp false
        | tcp6GROCandidate => tcp true
        | udp4GROCandidate => udp false
        | udp6GROCandidate => udp true
        | notGROCandidate => Some (groResultNoop, s)
        end;
    let '(result, s) := r in
    match result with
    | groResultNoop =>
        bufs ← clearHdr (g_bufs s) i offset;
        Some (Some (mkGro bufs (g_tcp s) (g_udp s) (g_toWrite s ++ [i])))
    | groResultTableInsert => Some (Some (mkGro (g_bufs s) (g_tcp s) (g_udp s) (g_toWrite s ++ [i])))
    | groResultCoalesced => Some (Some s)
    end.

Fixpoint groLoop (offset : nat) (canUDPGRO : bool) (s : groState) (todo : list nat) : option (groState * bool) :=
  match todo with
  | [] => Some (s, true)
  | i :: todo =>
      r ← groStep offset canUDPGRO s i;
      match r with None => Some (s, false) | Some s => groLoop offset canUDPGRO s todo end
  end.

(** The state at the end, and whether there was no error. *)
Definition handleGRO (tcpOrder udpOrder : list nat) (offset : nat) (canUDPGRO : bool) (s : groState) : option (groState * bool) :=
  r ← groLoop offset canUDPGRO s (seq 0 (length (g_bufs s)));
  let '(s, ok) := r in
  if negb ok then Some (s, false)
  else
    t ← applyTCPCoalesceAccounting tcpOrder (g_bufs s) offset (g_tcp s);
    u ← applyUDPCoalesceAccounting udpOrder t.1 offset (g_udp s);
    Some (mkGro u.1 (g_tcp s) (g_udp s) (g_toWrite s), t.2 && u.2).

(** ** Writing *)

(** The outcomes of writes to the TUN file. *)
Inductive writeResult := Wrote (n : Z) | WriteClosed | WriteFailed.

(** The write side of [NativeTun]. *)
Record NativeTun := mkTun {
  vnetHdr : bool; udpGSO : bool; tun_tcp : groTable tcpGROItem; tun_udp : groTable udpGROItem }.

(** The loop over [toWrite]: what goes to the file, the total and the error;
    an outcome beyond those given is a full write. *)
Fixpoint writeLoop (offset : nat) (bufs : list buf) (results : list writeResult) (toWrite : list nat) (total : Z) (failed : bool)
    : option (list bytes * Z * bool) :=
  match toWrite with
  | [] => Some ([], total, failed)
  | i :: toWrite =>
      data ← packetAt bufs i offset;
      match hd (Wrote (zlen data)) results with
      | WriteClosed => Some ([data], total, true)
      | WriteFailed =>
          '(out, total, failed) ← writeLoop offset bufs (tl results) toWrite total true; Some (data :: out, total, failed)
      | Wrote n =>
          '(out, total, failed) ← writeLoop offset bufs (tl results) toWrite (total + n) failed; Some (data :: out, total, failed)
      end
  end.

(** What is written, the total and whether there was an error, and the device
    with its tables reset. *)
Definition Write (tcpOrder udpOrder : list nat) (results : list writeResult) (tun : NativeTun) (bufs : list buf) (offset : nat)
    : option (list bytes * Z * bool * NativeTun) :=
  r ← (if vnetHdr tun then
      r ← handleGRO tcpOrder udpOrder offset (udpGSO tun) (mkGro bufs (tun_tcp tun) (tun_udp tun) []);
      let '(s, ok) := r in
      let tun := mkTun (vnetHdr tun) (udpGSO tun) (resetTable (g_tcp s)) (resetTable (g_udp s)) in
      if negb ok then Some ([], 0, true, tun)
      else w ← writeLoop (offset - virtioNetHdrLen) (g_bufs s) results (g_toWrite s) 0 false; Some (w, tun)
    else
      w ← writeLoop offset bufs results (seq 0 (length bufs)) 0 false;
      Some (w, mkTun (vnetHdr tun) (udpGSO tun) (resetTable (tun_tcp tun)) (resetTable (tun_udp tun))));
  Some r.

(** ** Reading *)

(** The outcomes of a read of the TUN file; a read fills no more than its buffer. *)
Inductive fileRead := ReadData (data : bytes) | ReadClosed | ReadFailed.

(** The errors of [Read]: one a listener has reported, one of the file, one of
    [handleVirtioRead]. *)
Inductive tunError := TunReported | TunClosed | TunFile | TunVirtio (err : readError).

(** The length of [readBuff]. *)
Definition readBuffLen : Z := Z.of_nat virtioNetHdrLen + 65535.

Definition Read (tun : NativeTun) (reported : bool) (answer : fileRead) (bufs : list bytes) (sizes : list Z) (offset : nat)
    : option (list bytes * list Z * Z * option tunError) :=
  if reported then Some (bufs, sizes, 0, Some TunReported)
  else
    b ← bufs !! 0%nat;
    readInto ← sliceFrom b offset;
    match answer with
    | ReadClosed => Some (bufs, sizes, 0, Some TunClosed)
    | ReadFailed => Some (bufs, sizes, 0, Some TunFile)
    | ReadData data =>
        if vnetHdr tun then
          option_map (fun '(bufs, sizes, n, err) => (bufs, sizes, n, option_map TunVirtio err))
            (handleVirtioRead native (take (Z.to_nat readBuffLen) data) bufs sizes offset)
        else
          let data := take (length readInto) data in
          _ ← orElse (0 <? length sizes)%nat;
          Some (<[0%nat := copy_at b offset data]> bufs, <[0%nat := zlen data]> sizes, 1, None)
    end.

End Gro.
