(* ===== verification/GroSpec.v ===== *)
(** What generic receive offload keeps: how packets of a flow make up a merged
    packet, and the lemmas on it. *)
From S2P Require Import Prelude Checksum Offload GsoSpec Gro.

(** ** Payloads *)

Lemma length_concat_drop (hl : nat) (qs : list bytes) :
  length (concat (drop hl <$> qs)) = sum_list ((fun q => length (drop hl q)) <$> qs).
Proof. induction qs as [|q qs IH]; [done|]. cbn [fmap list_fmap concat sum_list]. rewrite length_app. by rewrite IH. Qed.

(** ** The flow of a packet *)

(** The sequence number, past an IP header of length [iph]. *)
Definition seqOf (iph : nat) (q : bytes) : Z := be_dec (slice (iph + 4) (iph + 8) q).

Fixpoint contiguous (iph hl : nat) (s : Z) (qs : list bytes) : Prop :=
  match qs with
  | [] => True
  | q :: qs => seqOf iph q = s /\ contiguous iph hl (u32 (s + zlen (drop hl q))) qs
  end.

Lemma u32_add_l a b : u32 (u32 a + b) = u32 (a + b).
Proof. unfold u32, uwrap. by rewrite Zplus_mod_idemp_l. Qed.

Lemma contiguous_snoc iph hl s qs q : 0 <= s < 2 ^ 32 -> contiguous iph hl s qs ->
  seqOf iph q = u32 (s + zlen (concat (drop hl <$> qs))) -> contiguous iph hl s (qs ++ [q]).
Proof.
  revert s. induction qs as [|p qs IH]; intros s Hs Hc E; cbn [app contiguous fmap list_fmap concat] in *.
  - split; [|done]. rewrite E. cbn. rewrite Z.add_0_r. by apply u32_small.
  - destruct Hc as [Hp Hc]. split; [done|]. apply IH; [apply u32_range|done|]. rewrite E, u32_add_l.
    f_equal. rewrite length_app. lia.
Qed.

Definition iphOf (isV6 : bool) : nat := if isV6 then 40 else 20.

(** What an item says of its packet. *)
Record view := mkView {
  v_tcp : bool; v_key : flowKey; v_index : nat; v_hl : nat; v_gso : Z; v_merged : Z; v_seq : Z }.

Definition v_isV6 (v : view) : bool := k_isV6 (v_key v).
Definition v_iph (v : view) : nat := iphOf (v_isV6 v).
Definition v_proto (v : view) : Z := if v_tcp v then IPPROTO_TCP else IPPROTO_UDP.

Definition tcpView (x : tcpGROItem) : view :=
  mkView true (ti_key x) (ti_bufsIndex x) (Z.to_nat (ti_iphLen x + ti_tcphLen x)) (ti_gsoSize x) (ti_numMerged x) (ti_sentSeq x).
Definition udpView (x : udpGROItem) : view :=
  mkView false (ui_key x) (ui_bufsIndex x) (Z.to_nat (ui_iphLen x + udphLen)) (ui_gsoSize x) (ui_numMerged x) 0.

Definition candidate (tcp isV6 : bool) : groCandidateType :=
  if tcp then if isV6 then tcp6GROCandidate else tcp4GROCandidate
  else if isV6 then udp6GROCandidate else udp4GROCandidate.

(** The flow key of a packet. *)
Definition keyOfPacket (tcp isV6 : bool) (q : bytes) : option flowKey :=
  let '(srcAddrOffset, addrLen) := addrs isV6 in newFlowKey tcp q srcAddrOffset (srcAddrOffset + addrLen) (iphOf isV6).

Section Merge.
Context (native : endian) (canUDP : bool).

(** A packet of the flow: of its protocol and key, whole, with a payload, and
    with headers of the length that the item says. *)
Record ofFlow (v : view) (q : bytes) : Prop := {
  of_bytes : all_bytes q;
  of_candidate : packetIsGROCandidate q canUDP = candidate (v_tcp v) (v_isV6 v);
  of_key : keyOfPacket (v_tcp v) (v_isV6 v) q = Some (v_key v);
  of_length : ipLengthOk q (v_isV6 v) = Some (Some (v_iph v));
  of_size : (v_hl v < length q)%nat /\ zlen q <= maxUint16;
  of_headers : Z.of_nat (v_hl v) = Z.of_nat (v_iph v) + (if v_tcp v then Z.shiftr (nth (v_iph v + 12) q 0) 4 * 4 else 8) }.

Definition valid (v : view) (q : bytes) : Prop := checksumValid native q (Z.of_nat (v_iph v)) (v_proto v) (v_isV6 v) = Some true.

(** [pkt] is the packets [qs] merged: the headers of the first (but for the PSH
    flag) and the payloads in order, in chunks of the segment size, contiguous in
    their sequence numbers; more than one only when all checksums are right. *)
Record mergeOf (v : view) (qs : list bytes) (pkt : bytes) : Prop := {
  mo_count : v_merged v + 1 = zlen qs;
  mo_flow : Forall (ofFlow v) qs;
  mo_payload : drop (v_hl v) pkt = concat (drop (v_hl v) <$> qs);
  mo_chunks : chunked (Z.to_nat (v_gso v)) ((fun q => length (drop (v_hl v) q)) <$> qs);
  mo_seq : v_tcp v = true -> contiguous (v_iph v) (v_hl v) (v_seq v) qs;
  mo_head : forall q k, head qs = Some q -> (k < v_hl v)%nat -> (v_tcp v = true -> k <> v_iph v + 13)%nat -> pkt !! k = q !! k;
  mo_length : (v_hl v <= length pkt)%nat;
  mo_bytes : all_bytes pkt;
  mo_single : forall q, qs = [q] -> pkt = q;
  mo_valid : (2 <= length qs)%nat -> Forall (valid v) qs }.

Lemma mergeOf_size v qs pkt : mergeOf v qs pkt ->
  length pkt = (v_hl v + sum_list ((fun q => length (drop (v_hl v) q)) <$> qs))%nat /\ (v_hl v < length pkt)%nat.
Proof.
  intros [H1 H2 H3 H4 H5 H6 H7 H8 H9 H10]. assert (length pkt - v_hl v = sum_list ((fun q => length (drop (v_hl v) q)) <$> qs))%nat as E.
  { rewrite <- length_concat_drop, <- H3, length_drop. done. }
  split; [lia|]. destruct qs as [|q qs]; [done|]. apply Forall_cons in H2 as [Hq _]. destruct (of_size _ _ Hq) as [Hs _].
  change (sum_list _) with (length (drop (v_hl v) q) + sum_list ((fun q => length (drop (v_hl v) q)) <$> qs))%nat in E.
  rewrite (length_drop q) in E. lia.
Qed.

End Merge.

(** ** What is found out about a packet *)

Record metaOk (tcp isV6 : bool) (q : bytes) (m : packetMeta) : Prop := {
  me_iph : m_iphLen m = iphOf isV6;
  me_hdr : if tcp then (20 <= m_hdrLen m <= 60)%nat else m_hdrLen m = 8%nat;
  me_key : keyOfPacket tcp isV6 q = Some (m_key m);
  me_isV6 : k_isV6 (m_key m) = isV6;
  me_length : ipLengthOk q isV6 = Some (Some (iphOf isV6));
  me_size : (iphOf isV6 + m_hdrLen m < length q)%nat /\ zlen q <= maxUint16;
  me_gso : m_gsoSize m = zlen (drop (iphOf isV6 + m_hdrLen m) q);
  me_seq : tcp = true -> m_seq m = seqOf (iphOf isV6) q;
  me_headers : Z.of_nat (m_hdrLen m) = if tcp then Z.shiftr (nth (iphOf isV6 + 12) q 0) 4 * 4 else 8;
  me_noSeq : tcp = false -> m_seq m = 0;
  me_flags : tcp = true -> q !! (iphOf isV6 + 13)%nat = Some (if m_pshSet m then 24 else 16) }.

Lemma candidate_facts canUDP tcp isV6 q : packetIsGROCandidate q canUDP = candidate tcp isV6 ->
  (28 <= length q)%nat /\ (iphOf isV6 + (if tcp then 20 else 8) <= length q)%nat /\ (isV6 = false -> Z.land (nth 0 q 0) 15 = 5).
Proof.
  unfold packetIsGROCandidate. destruct (Nat.ltb_spec (length q) 28); [by destruct tcp, isV6|].
  destruct (Z.shiftr _ 4 =? 4).
  - destruct (Z.eqb_spec (Z.land (nth 0 q 0) 15) 5); cbn [negb]; [|by destruct tcp, isV6].
    destruct (_ =? IPPROTO_TCP); cbn [andb].
    + destruct (Nat.leb_spec 40 (length q)); [|destruct (_ && _)]; destruct tcp, isV6; try done; cbn; intros _; split_and!; first [done|lia].
    + destruct (_ && _); destruct tcp, isV6; try done; cbn; intros _; split_and!; first [done|lia].
  - destruct (Z.shiftr _ 4 =? 6); [|by destruct tcp, isV6].
    destruct (Nat.leb_spec 60 (length q)), (Nat.leb_spec 48 (length q)), (_ =? IPPROTO_TCP), (_ =? IPPROTO_UDP), canUDP;
      cbn [andb]; destruct tcp, isV6; try done; cbn; intros _; split_and!; first [done|lia].
Qed.

Lemma ipLengthOk_some isV6 q : (28 <= length q)%nat -> (isV6 = false -> Z.land (nth 0 q 0) 15 = 5) ->
  ipLengthOk q isV6 = Some None \/ ipLengthOk q isV6 = Some (Some (iphOf isV6)).
Proof.
  intros Hl H5. unfold ipLengthOk. destruct isV6.
  - rewrite getBE_some by lia. cbn [mbind option_bind]. destruct (_ =? _); auto.
  - destruct q as [|b q]; [cbn in Hl; lia|]. cbn [lookup list_lookup mbind option_bind]. rewrite getBE_some by lia.
    cbn [mbind option_bind]. specialize (H5 eq_refl). cbn in H5. rewrite H5. destruct (_ =? _); auto.
Qed.

Lemma unfragmented_some isV6 q : (28 <= length q)%nat -> exists b, unfragmented q isV6 = Some b.
Proof.
  intros Hl. unfold unfragmented. destruct isV6; [by eexists|].
  destruct (lookup_lt_is_Some_2 q 6) as [a ->]; [lia|]. destruct (lookup_lt_is_Some_2 q 7) as [b ->]; [lia|].
  cbn [mbind option_bind]. by eexists.
Qed.

Lemma keyOfPacket_some (tcp isV6 : bool) q : (iphOf isV6 + (if tcp then 20 else 8) <= length q)%nat ->
  exists key, keyOfPacket tcp isV6 q = Some key /\ k_isV6 key = isV6.
Proof.
  intros Hl. unfold keyOfPacket, newFlowKey.
  assert (exists s n, addrs isV6 = (s, n) /\ (s + n + n <= iphOf isV6)%nat /\ (n =? 16)%nat = isV6) as (s & n & -> & Hs & Hn)
    by (destruct isV6; cbn; eauto).
  replace (s + n - s)%nat with n by lia. rewrite !sliceOf_some by lia. cbn [mbind option_bind].
  destruct tcp; rewrite !(getBE_some 2) by lia; cbn [mbind option_bind]; [rewrite getBE_some by lia|]; cbn [mbind option_bind]; eauto.
Qed.

Lemma headerLength b : is_byte b -> 0 <= Z.shiftr b 4 * 4 <= 60.
Proof.
  intros H. pose proof (bounded_cases 256 (fun b => (0 <=? Z.shiftr b 4 * 4) && (Z.shiftr b 4 * 4 <=? 60)) ltac:(by vm_compute) b H) as Hc.
  apply andb_true_iff in Hc as [?%Z.leb_le ?%Z.leb_le]. done.
Qed.

Lemma tcpMeta_spec canUDP isV6 q : all_bytes q -> packetIsGROCandidate q canUDP = candidate true isV6 ->
  tcpMeta q isV6 = Some None \/ exists m, tcpMeta q isV6 = Some (Some m) /\ metaOk true isV6 q m.
Proof.
  intros Hb Hc. apply candidate_facts in Hc as (H28 & Hl & H5). cbv iota in Hl. unfold tcpMeta.
  destruct (Z.gtb_spec (zlen q) maxUint16); [by left|].
  destruct (ipLengthOk_some isV6 q H28 H5) as [-> | El]; [by left|]. rewrite El. cbn [mbind option_bind].
  destruct (Nat.ltb_spec (length q) (iphOf isV6)); [by left|].
  destruct (lookup_lt_is_Some_2 q (iphOf isV6 + 12)) as [b Eb]; [lia|]. rewrite Eb. cbn [mbind option_bind].
  pose proof (headerLength b (proj1 (Forall_lookup _ _) Hb _ _ Eb)) as Hhl. rewrite u8_small by lia.
  set (h := Z.to_nat _). destruct ((h <? 20)%nat || (60 <? h)%nat) eqn:Eh; [by left|].
  apply orb_false_iff in Eh as [H20%Nat.ltb_ge H60%Nat.ltb_ge].
  destruct (Nat.ltb_spec (length q) (iphOf isV6 + h)); [by left|].
  destruct (unfragmented_some isV6 q H28) as [w ->]. cbn [mbind option_bind]. destruct w; cbn [negb]; [|by left].
  change (Z.to_nat tcpFlagsOffset) with 13%nat.
  destruct (lookup_lt_is_Some_2 q (iphOf isV6 + 13)) as [f Ef]; [lia|]. rewrite Ef. cbn [mbind option_bind].
  set (psh := negb (f =? tcpFlagACK)). destruct (psh && negb (f =? Z.lor tcpFlagACK tcpFlagPSH)) eqn:Epsh; [by left|].
  assert (f = if psh then 24 else 16) as Hf.
  { change (Z.lor tcpFlagACK tcpFlagPSH) with 24 in Epsh. unfold psh, tcpFlagACK in *. destruct (Z.eqb_spec f 16); [done|]. cbn [negb andb] in *. by destruct (Z.eqb_spec f 24). }
  rewrite u16_small by (unfold maxUint16 in *; lia).
  destruct (Z.ltb_spec (Z.of_nat (length q - h - iphOf isV6)) 1); [by left|]. rewrite getBE_some by lia. cbn [mbind option_bind].
  destruct (keyOfPacket_some true isV6 q) as (key & Ek & E6); [lia|]. pose proof Ek as Ek'. unfold keyOfPacket in Ek'.
  destruct (addrs isV6) as [s n]. rewrite Ek'. cbn [mbind option_bind]. right. eexists. split; [done|].
  constructor; cbn [m_iphLen m_hdrLen m_pshSet m_gsoSize m_seq m_key]; try done.
  - split; [lia|done].
  - rewrite length_drop. lia.
  - intros _. unfold seqOf. f_equal. f_equal. lia.
  - rewrite (nth_lookup_Some _ _ _ _ Eb). unfold h. lia.
  - intros _. by rewrite <- Hf.
Qed.

Lemma udpMeta_spec canUDP isV6 q : all_bytes q -> packetIsGROCandidate q canUDP = candidate false isV6 ->
  udpMeta q isV6 = Some None \/ exists m, udpMeta q isV6 = Some (Some m) /\ metaOk false isV6 q m.
Proof.
  intros Hb Hc. apply candidate_facts in Hc as (H28 & Hl & H5). cbv iota in Hl. unfold udpMeta. change (Z.to_nat udphLen) with 8%nat.
  destruct (Z.gtb_spec (zlen q) maxUint16); [by left|].
  destruct (ipLengthOk_some isV6 q H28 H5) as [-> | El]; [by left|]. rewrite El. cbn [mbind option_bind].
  destruct (Nat.ltb_spec (length q) (iphOf isV6)); [by left|].
  destruct (Nat.ltb_spec (length q) (iphOf isV6 + 8)); [by left|].
  destruct (unfragmented_some isV6 q H28) as [w ->]. cbn [mbind option_bind]. destruct w; cbn [negb]; [|by left].
  rewrite u16_small by (unfold maxUint16 in *; lia).
  destruct (Z.ltb_spec (Z.of_nat (length q - 8 - iphOf isV6)) 1); [by left|].
  destruct (keyOfPacket_some false isV6 q) as (key & Ek & E6); [lia|]. pose proof Ek as Ek'. unfold keyOfPacket in Ek'.
  destruct (addrs isV6) as [s n]. rewrite Ek'. cbn [mbind option_bind]. right. eexists. split; [done|].
  constructor; cbn [m_iphLen m_hdrLen m_pshSet m_gsoSize m_seq m_key]; try done.
  - split; [lia|done].
  - rewrite length_drop. lia.
Qed.

(** The view of a packet that is on its own. *)
Definition viewOf (tcp : bool) (index : nat) (m : packetMeta) : view :=
  mkView tcp (m_key m) index (m_iphLen m + m_hdrLen m) (m_gsoSize m) 0 (m_seq m).

Lemma metaOk_ofFlow canUDP tcp isV6 i q m : all_bytes q -> packetIsGROCandidate q canUDP = candidate tcp isV6 ->
  metaOk tcp isV6 q m -> ofFlow canUDP (viewOf tcp i m) q.
Proof.
  intros Hb Hc [H1 H2 H3 H4 H5 H6 H7 H8 H9 _ _]. constructor; unfold v_iph, v_isV6, viewOf; cbn; rewrite ?H4, ?H1; try done; lia.
Qed.

(** A packet on its own is a merge of itself. *)
Lemma mergeOf_single native canUDP tcp isV6 i q m : all_bytes q -> packetIsGROCandidate q canUDP = candidate tcp isV6 ->
  metaOk tcp isV6 q m -> mergeOf native canUDP (viewOf tcp i m) [q] q.
Proof.
  intros Hb Hc Hm. pose proof (metaOk_ofFlow canUDP tcp isV6 i q m Hb Hc Hm) as Hf. destruct Hm as [H1 H2 H3 H4 H5 H6 H7 H8 _ _ _].
  constructor; cbn [v_hl v_gso v_merged v_seq v_tcp viewOf]; try done.
  - by apply Forall_singleton.
  - cbn. by rewrite app_nil_r.
  - rewrite H7, H1. cbn. rewrite length_drop. lia.
  - intros ->. split; [|done]. unfold v_iph, v_isV6. cbn. rewrite H4. symmetry. by apply H8.
  - by intros p k [= <-].
  - lia.
  - by intros p [= <-].
  - cbn. lia.
Qed.

(** ** Merging *)

Section Merging.
Context (native : endian) (canUDP : bool).

Definition payloadLens (v : view) (qs : list bytes) : list nat := (fun q => length (drop (v_hl v) q)) <$> qs.

(** The same flow and headers, whatever else. *)
Definition sameFlow (v v' : view) : Prop := v_tcp v' = v_tcp v /\ v_key v' = v_key v /\ v_hl v' = v_hl v.

Lemma ofFlow_same v v' q : sameFlow v v' -> ofFlow canUDP v q -> ofFlow canUDP v' q.
Proof.
  intros (E1 & E2 & E3) [H1 H2 H3 H4 H5 H6]. unfold v_iph, v_isV6 in *.
  constructor; unfold v_iph, v_isV6; by rewrite ?E1, ?E2, ?E3.
Qed.

Lemma valid_same v v' q : sameFlow v v' -> valid native v q -> valid native v' q.
Proof. intros (E1 & E2 & E3). unfold valid, v_iph, v_isV6, v_proto. by rewrite E1, E2. Qed.

(** [q] after the merge: the last of the chunks so far was whole. *)
Lemma mergeOf_append v v' qs target target' q : mergeOf native canUDP v qs target -> sameFlow v v' ->
  v_gso v' = v_gso v -> v_merged v' = v_merged v + 1 -> v_seq v' = v_seq v -> 0 <= v_seq v < 2 ^ 32 ->
  ofFlow canUDP v q -> (sum_list (payloadLens v qs) mod Z.to_nat (v_gso v) = 0)%nat ->
  (length (drop (v_hl v) q) <= Z.to_nat (v_gso v))%nat ->
  (v_tcp v = true -> seqOf (v_iph v) q = u32 (v_seq v + zlen (drop (v_hl v) target))) ->
  Forall (valid native v) (qs ++ [q]) ->
  length target' = length target -> all_bytes target' ->
  (forall k, (v_tcp v = true -> k <> v_iph v + 13)%nat -> target' !! k = target !! k) ->
  (v_iph v + 13 < v_hl v \/ v_tcp v = false)%nat ->
  mergeOf native canUDP v' (qs ++ [q]) (target' ++ drop (v_hl v) q).
Proof.
  intros Hm Hs Eg Em Es Hseq Hq Hmod Hlen Hsq Hval Ht' Hbt Hk Hiph. pose proof (mergeOf_size _ _ _ _ _ Hm) as [Hsz Hlt].
  pose proof Hs as (E1 & E2 & E3). destruct Hm as [H1 H2 H3 H4 H5 H6 H7 H8 H9 H10].
  assert (v_iph v' = v_iph v) as Ei by (unfold v_iph, v_isV6; by rewrite E2).
  assert (drop (v_hl v) target' = drop (v_hl v) target) as Ed.
  { apply list_eq. intros k. rewrite !lookup_drop. apply Hk. intros ?. destruct Hiph; [lia|congruence]. }
  constructor; rewrite ?E3, ?Eg, ?Em, ?Es, ?E1, ?Ei.
  - rewrite length_app. cbn [length]. lia.
  - eapply Forall_impl; [apply Forall_app; split; [exact H2|by apply Forall_singleton]|]. intros p. by apply ofFlow_same.
  - rewrite drop_app_le by lia. rewrite Ed, H3, fmap_app, concat_app. cbn. by rewrite app_nil_r.
  - rewrite fmap_app. apply chunked_snoc; [done|done|]. destruct (of_size _ _ _ Hq). rewrite length_drop in *. lia.
  - intros Et. apply contiguous_snoc; [done|by apply H5|]. rewrite (Hsq Et). by rewrite H3.
  - intros p k Ep Hkl Hkn. rewrite lookup_app_l by lia. rewrite Hk by done.
    destruct qs as [|q0 qs]; [done|]. apply H6; [done|done|done].
  - rewrite length_app. lia.
  - apply Forall_app. split; [done|]. apply Forall_drop, (of_bytes _ _ _ Hq).
  - intros p Ep. destruct qs as [|q0 [|]]; done.
  - intros _. eapply Forall_impl; [exact Hval|]. intros p. by apply valid_same.
Qed.

(** [q] before the merge: as large as its chunks, or larger than its only one. *)
Lemma mergeOf_prepend v v' qs target q : mergeOf native canUDP v qs target -> sameFlow v v' ->
  v_tcp v = true -> v_merged v' = v_merged v + 1 -> v_seq v' = seqOf (v_iph v) q ->
  ofFlow canUDP v q -> v_gso v' = zlen (drop (v_hl v) q) -> v_gso v <= v_gso v' ->
  (v_gso v < v_gso v' -> v_merged v = 0) ->
  v_seq v = u32 (seqOf (v_iph v) q + zlen (drop (v_hl v) q)) ->
  Forall (valid native v) (q :: qs) ->
  mergeOf native canUDP v' (q :: qs) (q ++ drop (v_hl v) target).
Proof.
  intros Hm Hs Et Em Es Hq Eg Hge Hgt Esq Hval. pose proof Hs as (E1 & E2 & E3).
  destruct Hm as [H1 H2 H3 H4 H5 H6 H7 H8 H9 H10].
  assert (v_iph v' = v_iph v) as Ei by (unfold v_iph, v_isV6; by rewrite E2).
  destruct (of_size _ _ _ Hq) as [Hs1 Hs2].
  constructor; rewrite ?E3, ?Em, ?E1, ?Ei.
  - cbn [length]. lia.
  - eapply Forall_impl; [apply Forall_cons; split; [exact Hq|exact H2]|]. intros p. by apply ofFlow_same.
  - rewrite drop_app_le by lia. by rewrite H3.
  - cbn [fmap list_fmap]. apply chunked_cons; [by destruct qs|]. split; [rewrite Eg; lia|].
    destruct (decide (v_gso v = v_gso v')) as [<-|Hne]; [done|]. assert (v_merged v = 0) as E0 by (apply Hgt; lia).
    destruct qs as [|p [|]]; cbn [length] in H1; [lia| |lia]. cbn in *. lia.
  - intros _. cbn [contiguous]. split; [done|]. rewrite Es, <- Esq. by apply H5.
  - intros p k [= <-] Hkl _. by rewrite lookup_app_l by lia.
  - rewrite length_app. lia.
  - apply Forall_app. split; [apply (of_bytes _ _ _ Hq)|by apply Forall_drop].
  - intros p [= _ ->]. done.
  - intros _. eapply Forall_impl; [exact Hval|]. intros p. by apply valid_same.
Qed.

End Merging.
