(* ===== verification/GroCoalesce.v ===== *)
(** Coalescing two packets: the checks never panic, and a success makes a merge
    of one packet more. *)
From S2P Require Import Prelude Checksum Offload GsoSpec Gro GroSpec.

Section GroCoalesce.
Context (native : endian) (canUDP : bool) (offset : nat).

(** A buffer with a packet at the offset and the virtio header before it. *)
Record bufOk (b : buf) : Prop := {
  bo_bytes : all_bytes (b_data b);
  bo_length : (offset <= length (b_data b) <= b_cap b)%nat;
  bo_cap : Z.of_nat (b_cap b) <= 65535;
  bo_offset : (virtioNetHdrLen <= offset)%nat }.

Definition packetOf (b : buf) : bytes := drop offset (b_data b).

Record tcpItemOk (x : tcpGROItem) : Prop := {
  ti_iph : ti_iphLen x = Z.of_nat (iphOf (k_isV6 (ti_key x)));
  ti_tcph : 20 <= ti_tcphLen x <= 60;
  ti_gso : 0 < ti_gsoSize x < 65536;
  ti_seq : 0 <= ti_sentSeq x < 2 ^ 32;
  ti_merged : 0 <= ti_numMerged x }.

Record udpItemOk (x : udpGROItem) : Prop := {
  ui_iph : ui_iphLen x = Z.of_nat (iphOf (k_isV6 (ui_key x)));
  ui_gso : 0 < ui_gsoSize x < 65536;
  ui_merged : 0 <= ui_numMerged x }.

Lemma packetAt_some bufs i b : bufs !! i = Some b -> bufOk b -> packetAt bufs i offset = Some (packetOf b).
Proof. intros E [_ Hl _ _]. unfold packetAt. rewrite E. cbn [mbind option_bind]. apply sliceFrom_some. lia. Qed.

Lemma packet_size b : bufOk b -> zlen (packetOf b) <= 65535 - 10 /\ all_bytes (packetOf b).
Proof.
  intros [Hb Hl Hc Ho]. unfold packetOf, virtioNetHdrLen in *. rewrite length_drop. split; [lia|by apply Forall_drop].
Qed.

Lemma iphOf_bounds isV6 : (20 <= iphOf isV6 <= 40)%nat.
Proof. destruct isV6; cbn; lia. Qed.

Lemma checksumValid_some isV6 proto q : all_bytes q -> is_byte proto -> (iphOf isV6 <= length q)%nat ->
  exists b, checksumValid native q (Z.of_nat (iphOf isV6)) proto isV6 = Some b.
Proof.
  intros Hb Hp Hl. unfold checksumValid.
  destruct (pseudoOf_some native proto isV6 q (u16 (zlen q - Z.of_nat (iphOf isV6)))) as (r & -> & _); [done|done|by destruct isV6|].
  cbn [mbind option_bind]. rewrite sliceFrom_some by lia. cbn [mbind option_bind]. eauto.
Qed.

Lemma ragged_some b g : 0 < g -> ragged b g = Some (negb (zlen b mod g =? 0)).
Proof. intros H. unfold ragged. rewrite orElse_true; [done|]. destruct (Z.eqb_spec g 0); [lia|done]. Qed.

Lemma mod_nat n g : 0 < g -> Z.of_nat n mod g = 0 <-> (n mod Z.to_nat g = 0)%nat.
Proof.
  intros Hg. assert (g = Z.of_nat (Z.to_nat g)) as Eg by lia. rewrite Eg at 1. rewrite <- Nat2Z.inj_mod. lia.
Qed.

(** The header length of the item, without wrap-around. *)
Lemma tcp_hl x : tcpItemOk x -> u8 (ti_iphLen x + ti_tcphLen x) = Z.of_nat (v_hl (tcpView x)) /\
  v_iph (tcpView x) = Z.to_nat (ti_iphLen x) /\ Z.of_nat (v_hl (tcpView x)) = ti_iphLen x + ti_tcphLen x /\
  (v_iph (tcpView x) + 20 <= v_hl (tcpView x) <= 100)%nat.
Proof.
  intros [H1 H2 _ _ _]. pose proof (iphOf_bounds (k_isV6 (ti_key x))). unfold v_iph, v_isV6. cbn [v_hl v_key tcpView].
  rewrite u8_small; lia.
Qed.

Lemma udp_hl x : udpItemOk x -> u8 (ui_iphLen x + udphLen) = Z.of_nat (v_hl (udpView x)) /\
  v_iph (udpView x) = Z.to_nat (ui_iphLen x) /\ Z.of_nat (v_hl (udpView x)) = ui_iphLen x + 8 /\
  (v_hl (udpView x) = v_iph (udpView x) + 8)%nat.
Proof.
  intros [H1 _ _]. pose proof (iphOf_bounds (k_isV6 (ui_key x))). unfold v_iph, v_isV6, udphLen. cbn [v_hl v_key udpView].
  unfold udphLen. rewrite u8_small; lia.
Qed.

(** ** Whether packets coalesce *)

Lemma udpCan_spec x m q qs b bufs : udpItemOk x -> metaOk false (k_isV6 (ui_key x)) q m ->
  bufs !! ui_bufsIndex x = Some b -> bufOk b -> mergeOf native canUDP (udpView x) qs (packetOf b) ->
  exists can, udpPacketsCanCoalesce q (u8 (Z.of_nat (m_iphLen m))) (m_gsoSize m) x bufs offset = Some can /\
    can <> coalescePrepend /\
    (can = coalesceAppend -> (sum_list (payloadLens (udpView x) qs) mod Z.to_nat (ui_gsoSize x) = 0)%nat /\
      m_gsoSize m <= ui_gsoSize x).
Proof.
  intros Hx Hm Eb Hb Hmo. destruct (udp_hl x Hx) as (U1 & U2 & U3 & U4). pose proof (mergeOf_size _ _ _ _ _ Hmo) as [Hsz Hlt].
  pose proof (iphOf_bounds (k_isV6 (ui_key x))) as Hib. pose proof Hx as [X1 X2 X3].
  unfold udpPacketsCanCoalesce. rewrite (packetAt_some _ _ _ Eb Hb). cbn [mbind option_bind].
  destruct (ipHeadersCanCoalesce q (packetOf b)); cbn [negb]; [|by exists coalesceUnavailable].
  rewrite (me_iph _ _ _ _ Hm), (u8_small (Z.of_nat (iphOf _))) by lia. rewrite <- X1, U1, Nat2Z.id.
  rewrite sliceFrom_some by lia. cbn [mbind option_bind]. rewrite ragged_some by lia. cbn [mbind option_bind].
  eexists. split; [done|]. destruct (Z.eqb_spec (zlen (drop (v_hl (udpView x)) (packetOf b)) mod ui_gsoSize x) 0) as [E|]; cbn [negb]; [|done].
  destruct (Z.gtb_spec (m_gsoSize m) (ui_gsoSize x)); [done|]. split; [done|]. intros _. split; [|lia].
  rewrite (mo_payload _ _ _ _ _ Hmo), length_concat_drop, mod_nat in E by lia. exact E.
Qed.

(** What it takes to go after, or before, the packet of an item. *)
Definition canAppend (x : tcpGROItem) (m : packetMeta) (qs : list bytes) : Prop :=
  ti_pshSet x = false /\ (sum_list (payloadLens (tcpView x) qs) mod Z.to_nat (ti_gsoSize x) = 0)%nat /\
  m_gsoSize m <= ti_gsoSize x /\ m_seq m = u32 (ti_sentSeq x + Z.of_nat (sum_list (payloadLens (tcpView x) qs))).
Definition canPrepend (x : tcpGROItem) (m : packetMeta) : Prop :=
  m_pshSet m = false /\ ti_sentSeq x = u32 (m_seq m + m_gsoSize m) /\ ti_gsoSize x <= m_gsoSize m /\
  (ti_gsoSize x < m_gsoSize m -> ti_numMerged x = 0).

Lemma tcpCan_spec x m q qs b bufs : tcpItemOk x -> metaOk true (k_isV6 (ti_key x)) q m ->
  bufs !! ti_bufsIndex x = Some b -> bufOk b -> mergeOf native canUDP (tcpView x) qs (packetOf b) ->
  exists can, tcpPacketsCanCoalesce q (u8 (Z.of_nat (m_iphLen m))) (u8 (Z.of_nat (m_hdrLen m))) (m_seq m) (m_pshSet m)
      (m_gsoSize m) x bufs offset = Some can /\
    match can with
    | coalesceUnavailable => True
    | coalesceAppend => Z.of_nat (m_hdrLen m) = ti_tcphLen x /\ canAppend x m qs
    | coalescePrepend => Z.of_nat (m_hdrLen m) = ti_tcphLen x /\ canPrepend x m
    end.
Proof.
  intros Hx Hm Eb Hb Hmo. destruct (tcp_hl x Hx) as (U1 & U2 & U3 & U4). pose proof (mergeOf_size _ _ _ _ _ Hmo) as [Hsz Hlt].
  pose proof (iphOf_bounds (k_isV6 (ti_key x))) as Hib. pose proof Hx as [X1 X2 X3 X4 X5].
  pose proof (me_hdr _ _ _ _ Hm) as Hh. cbv iota in Hh. pose proof (me_size _ _ _ _ Hm) as [Hq _].
  unfold tcpPacketsCanCoalesce. rewrite (packetAt_some _ _ _ Eb Hb). cbn [mbind option_bind].
  rewrite (me_iph _ _ _ _ Hm), (u8_small (Z.of_nat (m_hdrLen m))) by lia. rewrite (u8_small (Z.of_nat (iphOf _))) by lia.
  destruct (Z.eqb_spec (Z.of_nat (m_hdrLen m)) (ti_tcphLen x)) as [Eh|]; cbn [negb]; [|by exists coalesceUnavailable].
  rewrite X1 in U3. rewrite X1, !u8_small by lia.
  assert (exists same, (if Z.of_nat (m_hdrLen m) >? 20 then
      a ← sliceOf q (Z.to_nat (Z.of_nat (iphOf (k_isV6 (ti_key x))) + 20)) (Z.to_nat (Z.of_nat (iphOf (k_isV6 (ti_key x))) + Z.of_nat (m_hdrLen m)));
      b0 ← sliceOf (packetOf b) (Z.to_nat (Z.of_nat (iphOf (k_isV6 (ti_key x))) + 20)) (Z.to_nat (Z.of_nat (iphOf (k_isV6 (ti_key x))) + Z.of_nat (m_hdrLen m)));
      Some (bytes_eqb a b0) else Some true) = Some same) as [same ->].
  { destruct (Z.gtb_spec (Z.of_nat (m_hdrLen m)) 20); [|by eexists]. rewrite !sliceOf_some by lia. by eexists. }
  cbn [mbind option_bind]. destruct same; cbn [negb]; [|by exists coalesceUnavailable].
  destruct (ipHeadersCanCoalesce q (packetOf b)); cbn [negb]; [|by exists coalesceUnavailable].
  destruct (Z.eqb_spec (m_seq m) (u32 (ti_sentSeq x + u16 (ti_gsoSize x + u16 (ti_numMerged x * ti_gsoSize x))))) as [Es|_].
  - destruct (ti_pshSet x) eqn:Ep; [by exists coalesceUnavailable|].
    rewrite sliceFrom_some by lia. cbn [mbind option_bind]. rewrite ragged_some by lia. cbn [mbind option_bind].
    eexists. split; [done|]. match goal with |- context [drop ?n (packetOf b)] => replace n with (v_hl (tcpView x)) by lia end.
    destruct (Z.eqb_spec (zlen (drop (v_hl (tcpView x)) (packetOf b)) mod ti_gsoSize x) 0) as [E|]; cbn [negb]; [|done].
    destruct (Z.gtb_spec (m_gsoSize m) (ti_gsoSize x)); [done|]. split; [done|].
    rewrite (mo_payload _ _ _ _ _ Hmo), length_concat_drop, mod_nat in E by lia. split_and!; [done|exact E|lia|].
    pose proof (chunked_total _ _ (mo_chunks _ _ _ _ _ Hmo) E) as Htot. fold (payloadLens (tcpView x) qs) in *.
    pose proof (mo_count _ _ _ _ _ Hmo) as Hc. cbn [v_merged v_gso tcpView] in Hc, Htot.
    assert (length (payloadLens (tcpView x) qs) = length qs) as Hpl by apply length_fmap. rewrite Hpl in Htot.
    pose proof (packet_size b Hb) as [Hps _]. rewrite Hsz in Hps. rewrite Es. f_equal. f_equal.
    assert (Z.of_nat (sum_list (payloadLens (tcpView x) qs)) = ti_gsoSize x + ti_numMerged x * ti_gsoSize x) as Ez.
    { rewrite Htot, Nat2Z.inj_mul, <- Hc. rewrite Z2Nat.id by lia. ring. }
    assert (0 <= ti_numMerged x * ti_gsoSize x) as Hnn by nia. rewrite Ez.
    assert (ti_gsoSize x + ti_numMerged x * ti_gsoSize x < 65536) by (rewrite <- Ez; unfold payloadLens in *; lia).
    rewrite (u16_small (ti_numMerged x * ti_gsoSize x)) by lia. apply u16_small. lia.
  - destruct (Z.eqb_spec (u32 (m_seq m + m_gsoSize m)) (ti_sentSeq x)) as [Es|_]; [|by exists coalesceUnavailable].
    eexists. split; [done|]. destruct (m_pshSet m) eqn:Ep; [done|].
    destruct (Z.ltb_spec (m_gsoSize m) (ti_gsoSize x)); [done|].
    destruct (Z.gtb_spec (m_gsoSize m) (ti_gsoSize x)) as [Hg|Hg]; cbn [andb].
    + destruct (Z.ltb_spec 0 (ti_numMerged x)); [done|]. split; [done|]. split_and!; [done|done|done|lia].
    + split; [done|]. split_and!; [done|done|done|lia].
Qed.

(** ** Growing a buffer *)

Definition grown (b : buf) (src : bytes) : buf := mkBuf (b_data b ++ src) (b_cap b).

Lemma extend_some b n : 0 <= n -> Z.of_nat (length (b_data b)) + n <= Z.of_nat (b_cap b) ->
  extend b n = Some (grown b (replicate (Z.to_nat n) 0)).
Proof.
  intros H1 H2. unfold extend, grown. rewrite orElse_true by (by apply Z.leb_le). rewrite length_app, length_replicate.
  by rewrite Nat.max_l by lia.
Qed.

Lemma copyInto_some b n off src : off = length (b_data b) -> length src = n -> copyInto (grown b (replicate n 0)) off src = Some (grown b src).
Proof.
  intros -> Hn. unfold copyInto, grown. cbn [b_data]. rewrite length_app, length_replicate.
  rewrite orElse_true by (apply Nat.leb_le; lia). do 2 f_equal. cbn. unfold copy_at.
  rewrite length_app, length_replicate, take_app_length, drop_ge by (rewrite length_app, length_replicate; lia).
  rewrite take_ge by lia. by rewrite app_nil_r.
Qed.

Lemma grown_packet b src : bufOk b -> packetOf (grown b src) = packetOf b ++ src.
Proof. intros [_ H _ _]. unfold packetOf, grown. cbn [b_data]. by rewrite drop_app_le by lia. Qed.

Lemma grown_ok b src : bufOk b -> all_bytes src -> (length (b_data b) + length src <= b_cap b)%nat -> bufOk (grown b src).
Proof.
  intros [H1 H2 H3 H4] Hs Hl. constructor; cbn [grown b_data b_cap]; [by apply Forall_app|rewrite length_app; lia|done|done].
Qed.

Lemma length_packet b : bufOk b -> length (b_data b) = (offset + length (packetOf b))%nat.
Proof. intros [_ H _ _]. unfold packetOf. rewrite length_drop. lia. Qed.

Lemma merge_valid v qs pkt : mergeOf native canUDP v qs pkt -> 0 <= v_merged v -> (v_merged v = 0 -> valid native v pkt) ->
  Forall (valid native v) qs.
Proof.
  intros Hm H0 Hv. pose proof (mo_count _ _ _ _ _ Hm) as Hc. destruct (decide (v_merged v = 0)) as [E|].
  - destruct qs as [|q [|]]; cbn [length] in Hc; [lia| |lia]. apply Forall_singleton.
    rewrite <- (mo_single _ _ _ _ _ Hm q eq_refl). auto.
  - apply (mo_valid _ _ _ _ _ Hm). lia.
Qed.

(** The count of a merge does not wrap around. *)
Lemma merge_count v qs b : bufOk b -> mergeOf native canUDP v qs (packetOf b) -> v_merged v + 1 < 65535.
Proof.
  intros Hb Hm. destruct (mergeOf_size _ _ _ _ _ Hm) as [Hl _]. pose proof (packet_size b Hb) as [Hs _].
  rewrite (mo_count _ _ _ _ _ Hm). pose proof (mo_flow _ _ _ _ _ Hm) as Hf.
  assert (length qs <= sum_list ((fun q => length (drop (v_hl v) q)) <$> qs))%nat; [|lia]. clear -Hf.
  induction Hf as [|q qs Hq _ IH]; [done|]. cbn [fmap list_fmap length]. destruct (of_size _ _ _ Hq) as [Hq' _].
  change (sum_list _) with (length (drop (v_hl v) q) + sum_list ((fun q => length (drop (v_hl v) q)) <$> qs))%nat.
  rewrite length_drop. unfold list_fmap in *. lia.
Qed.

Lemma psh_byte f : is_byte f -> is_byte (Z.lor f tcpFlagPSH).
Proof.
  intros H. pose proof (bounded_cases 256 (fun f => (0 <=? Z.lor f tcpFlagPSH) && (Z.lor f tcpFlagPSH <? 256)) ltac:(by vm_compute) f H) as E.
  apply andb_true_iff in E as [?%Z.leb_le ?%Z.ltb_lt]. done.
Qed.

(** ** Coalescing *)

Lemma valid_item v qs b proto isV6 iph : mergeOf native canUDP v qs (packetOf b) -> bufOk b -> is_byte proto ->
  proto = v_proto v -> isV6 = v_isV6 v -> iph = Z.of_nat (v_iph v) -> (v_iph v <= v_hl v)%nat ->
  exists r, checksumValid native (packetOf b) iph proto isV6 = Some r /\ (r = true -> valid native v (packetOf b)).
Proof.
  intros Hm Hb Hp -> -> -> Hi. destruct (mergeOf_size _ _ _ _ _ Hm) as [_ Hl].
  destruct (checksumValid_some (v_isV6 v) (v_proto v) (packetOf b)) as [r E]; [apply Hm|done|unfold v_iph in *; lia|].
  exists r. split; [exact E|]. intros ->. exact E.
Qed.

Lemma valid_packet v q : ofFlow canUDP v q -> (v_iph v <= v_hl v)%nat ->
  exists r, checksumValid native q (Z.of_nat (v_iph v)) (v_proto v) (v_isV6 v) = Some r /\ (r = true -> valid native v q).
Proof.
  intros Hq Hi. destruct (of_size _ _ _ Hq) as [Hl _].
  destruct (checksumValid_some (v_isV6 v) (v_proto v) q) as [r E]; [apply Hq|by destruct v as [[] ?]|unfold v_iph in *; lia|].
  exists r. split; [exact E|]. intros ->. exact E.
Qed.

#[local] Ltac outcome := do 3 eexists; split; [reflexivity|cbv iota; try done].

Lemma coalesceUDP_spec x q qs b bufs : udpItemOk x -> ofFlow canUDP (udpView x) q ->
  bufs !! ui_bufsIndex x = Some b -> bufOk b -> mergeOf native canUDP (udpView x) qs (packetOf b) ->
  (sum_list (payloadLens (udpView x) qs) mod Z.to_nat (ui_gsoSize x) = 0)%nat ->
  zlen (drop (v_hl (udpView x)) q) <= ui_gsoSize x ->
  exists r x' bufs', coalesceUDPPackets native q x bufs offset (k_isV6 (ui_key x)) = Some (r, x', bufs') /\
    match r with
    | coalesceSuccess => udpItemOk x' /\ ui_key x' = ui_key x /\ ui_bufsIndex x' = ui_bufsIndex x /\
        exists b', bufs' = <[ui_bufsIndex x := b']> bufs /\ bufOk b' /\ mergeOf native canUDP (udpView x') (qs ++ [q]) (packetOf b')
    | _ => bufs' = bufs
    end.
Proof.
  intros Hx Hq Eb Hb Hm Hmod Hlen. destruct (udp_hl x Hx) as (U1 & U2 & U3 & U4). set (v := udpView x) in *.
  pose proof (mergeOf_size _ _ _ _ _ Hm) as [Hsz Hlt]. destruct (of_size _ _ _ Hq) as [Hql _]. pose proof (length_packet b Hb) as Hlb.
  assert (ui_iphLen x = Z.of_nat (v_iph v)) as Ei by apply Hx. pose proof (merge_count v qs b Hb Hm) as Hcnt.
  unfold coalesceUDPPackets. rewrite Eb. cbn [mbind option_bind]. rewrite (sliceFrom_some (b_data b)) by lia. fold (packetOf b).
  cbn [mbind option_bind]. rewrite U1. fold v.
  match goal with |- context [if ?c then Some (coalesceInsufficientCap, _, _) else _] => destruct c eqn:Ecap end; [outcome|].
  apply Z.ltb_ge in Ecap.
  destruct (valid_item v qs b IPPROTO_UDP (k_isV6 (ui_key x)) (ui_iphLen x)) as (r & -> & Hr); [done..|lia|].
  assert (exists iv : bool, (if ui_numMerged x =? 0 then if ui_cSumKnownInvalid x then Some false else Some r else Some true) = Some iv /\
    (iv = true -> v_merged v = 0 -> valid native v (packetOf b))) as (iv & -> & Hiv).
  { cbn [v v_merged udpView]. destruct (Z.eqb_spec (ui_numMerged x) 0); [|by exists true].
    destruct (ui_cSumKnownInvalid x); [by exists false|]. exists r. split; [done|]. auto. }
  cbn [mbind option_bind]. destruct iv; cbn [negb]; [|outcome].
  destruct (valid_packet v q Hq) as (pv & Epv & Hpv); [lia|].
  rewrite Ei. change (checksumValid native q _ _ _) with (checksumValid native q (Z.of_nat (v_iph v)) (v_proto v) (v_isV6 v)).
  rewrite Epv. cbn [mbind option_bind]. destruct pv; cbn [negb]; [|outcome].
  rewrite extend_some by lia. cbn [mbind option_bind]. rewrite Nat2Z.id, (sliceFrom_some q) by lia. cbn [mbind option_bind].
  rewrite copyInto_some by (rewrite ?length_drop; lia). cbn [mbind option_bind]. do 3 eexists. split; [done|]. cbv iota.
  destruct Hx as [X1 X2 X3]. cbn [v v_merged udpView] in Hcnt.
  assert (udpItemOk (x <| ui_numMerged ::= fun n => u16 (n + 1) |>)) as Hx'
    by (constructor; cbn; [done|done|apply u16_range]).
  split_and!; [done|done|done|]. eexists. split; [done|]. split.
  { apply grown_ok; [done|apply Forall_drop, Hq|]. rewrite length_drop. lia. }
  rewrite grown_packet by done. change (v_hl v) with (v_hl v). eapply (mergeOf_append native canUDP v); try done.
  - cbn. by rewrite u16_small by lia.
  - cbn [v v_gso udpView]. rewrite length_drop in *. lia.
  - apply Forall_app. split; [|apply Forall_singleton; auto].
    eapply merge_valid; [done|exact X3|]. auto.
  - apply Hm.
  - by right.
Qed.

(** The item after a merge. *)
Lemma mergedTcp_ok x gso : tcpItemOk x -> 0 < gso < 65536 ->
  tcpItemOk (mergedTcp gso x) /\ ti_key (mergedTcp gso x) = ti_key x /\ ti_bufsIndex (mergedTcp gso x) = ti_bufsIndex x /\
  ti_gsoSize (mergedTcp gso x) = Z.max gso (ti_gsoSize x) /\ ti_numMerged (mergedTcp gso x) = u16 (ti_numMerged x + 1) /\
  ti_sentSeq (mergedTcp gso x) = ti_sentSeq x /\ ti_iphLen (mergedTcp gso x) = ti_iphLen x /\ ti_tcphLen (mergedTcp gso x) = ti_tcphLen x.
Proof.
  intros [H1 H2 H3 H4 H5] Hg. pose proof (u16_range (ti_numMerged x + 1)). unfold mergedTcp.
  destruct (Z.gtb_spec gso (ti_gsoSize x)); (split; [constructor|]); cbn; split_and?; try done; lia.
Qed.

(** The buffer with the PSH flag of the packet. *)
Definition flagged (psh : bool) (at_ : nat) (f : Z) (b : buf) : buf :=
  if psh then b <| b_data ::= <[(offset + at_)%nat := Z.lor f tcpFlagPSH]> |> else b.

Lemma flagged_spec psh at_ f b : bufOk b -> is_byte f ->
  let b' := flagged psh at_ f b in
  bufOk b' /\ length (b_data b') = length (b_data b) /\ b_cap b' = b_cap b /\
  forall k, k <> at_ -> packetOf b' !! k = packetOf b !! k.
Proof.
  intros [H1 H2 H3 H4] Hf. unfold flagged. destruct psh; cbn; [|done]. split_and!.
  - constructor; cbn; rewrite ?length_insert; try done. apply Forall_insert; [done|by apply psh_byte].
  - apply length_insert.
  - done.
  - intros k Hk. unfold packetOf. cbn. rewrite !lookup_drop. apply list_lookup_insert_ne. lia.
Qed.

Definition modeOk (mode : canCoalesce) (x : tcpGROItem) (m : packetMeta) (qs : list bytes) : Prop :=
  match mode with coalesceUnavailable => False | coalesceAppend => canAppend x m qs | coalescePrepend => canPrepend x m end.

Definition joined (mode : canCoalesce) (q : bytes) (qs : list bytes) : list bytes :=
  match mode with coalescePrepend => q :: qs | _ => qs ++ [q] end.

(** What both directions of a merge start from. *)
Record mergeable (x : tcpGROItem) (m : packetMeta) (q : bytes) (qs : list bytes) (b : buf) : Prop := {
  mg_item : tcpItemOk x;
  mg_meta : metaOk true (k_isV6 (ti_key x)) q m;
  mg_flow : ofFlow canUDP (tcpView x) q;
  mg_hdr : Z.of_nat (m_hdrLen m) = ti_tcphLen x;
  mg_buf : bufOk b;
  mg_merge : mergeOf native canUDP (tcpView x) qs (packetOf b) }.

Lemma mergeable_facts x m q qs b : mergeable x m q qs b ->
  0 < m_gsoSize m < 65536 /\ m_gsoSize m = zlen (drop (v_hl (tcpView x)) q) /\ m_seq m = seqOf (v_iph (tcpView x)) q /\
  0 <= m_seq m < 2 ^ 32 /\ u16 (ti_numMerged x + 1) = ti_numMerged x + 1 /\
  exists iv pv : bool,
    (if ti_numMerged x =? 0 then checksumValid native (packetOf b) (ti_iphLen x) IPPROTO_TCP (k_isV6 (ti_key x)) else Some true) = Some iv /\
    (iv = true -> Forall (valid native (tcpView x)) qs) /\ (iv = false -> ti_numMerged x = 0) /\
    checksumValid native q (ti_iphLen x) IPPROTO_TCP (k_isV6 (ti_key x)) = Some pv /\ (pv = true -> valid native (tcpView x) q).
Proof.
  intros [Hx Hmt Hq Ehl Hb Hm]. destruct (tcp_hl x Hx) as (U1 & U2 & U3 & U4). set (v := tcpView x) in *.
  destruct (of_size _ _ _ Hq) as [Hql _]. assert (ti_iphLen x = Z.of_nat (v_iph v)) as Ei by apply Hx.
  pose proof (merge_count v qs b Hb Hm) as Hcnt. cbn [v v_merged tcpView] in Hcnt. pose proof (ti_merged x Hx) as X5.
  assert (m_gsoSize m = zlen (drop (v_hl v) q)) as Egso.
  { rewrite (me_gso _ _ _ _ Hmt). do 3 f_equal. destruct Hx. lia. }
  assert (m_seq m = seqOf (v_iph v) q) as Eseq by (by rewrite (me_seq _ _ _ _ Hmt eq_refl)).
  pose proof (me_size _ _ _ _ Hmt) as [_ Hz]. unfold maxUint16 in Hz. split_and!; try done.
  - rewrite Egso, length_drop. lia.
  - rewrite Egso, length_drop. lia.
  - rewrite Eseq. unfold seqOf. assert (all_bytes (slice (v_iph v + 4) (v_iph v + 8) q)) as Hsl by (apply Forall_take, Forall_drop, Hq).
    apply (be_dec_range _ Hsl).
  - rewrite Eseq. unfold seqOf. assert (all_bytes (slice (v_iph v + 4) (v_iph v + 8) q)) as Hsl by (apply Forall_take, Forall_drop, Hq).
    pose proof (be_dec_range _ Hsl) as Hr'. rewrite length_slice in Hr' by lia.
    replace (v_iph v + 8 - (v_iph v + 4))%nat with 4%nat in Hr' by lia. apply Hr'.
  - apply u16_small. lia.
  - destruct (valid_item v qs b IPPROTO_TCP (k_isV6 (ti_key x)) (ti_iphLen x)) as (r & -> & Hr); [done..|lia|].
    destruct (valid_packet v q Hq) as (pv & Epv & Hpv); [lia|].
    exists (if ti_numMerged x =? 0 then r else true), pv. rewrite Ei. split_and!; try done.
    + by destruct (ti_numMerged x =? 0).
    + intros E. eapply merge_valid; [exact Hm|exact X5|]. cbn [v v_merged tcpView]. intros E0. rewrite E0 in E. by apply Hr.
    + by destruct (Z.eqb_spec (ti_numMerged x) 0).
Qed.

Definition coalesced (mode : canCoalesce) (x : tcpGROItem) (pktI : nat) (q : bytes) (qs : list bytes) (bufs : list buf)
    (r : coalesceResult) (x' : tcpGROItem) (bufs' : list buf) : Prop :=
  match r with
  | coalesceSuccess => tcpItemOk x' /\ ti_key x' = ti_key x /\ ti_bufsIndex x' = ti_bufsIndex x /\
      exists b' pb', bufs' = <[ti_bufsIndex x := b']> (<[pktI := pb']> bufs) /\ bufOk b' /\ bufOk pb' /\
        mergeOf native canUDP (tcpView x') (joined mode q qs) (packetOf b')
  | coalesceItemInvalidCSum => bufs' = bufs /\ x' = x /\ ti_numMerged x = 0
  | _ => bufs' = bufs
  end.

Lemma prependTCP_spec x m pktI qs b pb bufs : mergeable x m (packetOf pb) qs b -> bufOk pb ->
  bufs !! ti_bufsIndex x = Some b -> bufs !! pktI = Some pb -> canPrepend x m ->
  exists r x' bufs', coalesceTCPPackets native coalescePrepend (packetOf pb) pktI (m_gsoSize m) (m_seq m) (m_pshSet m) x bufs offset
      (k_isV6 (ti_key x)) = Some (r, x', bufs') /\ coalesced coalescePrepend x pktI (packetOf pb) qs bufs r x' bufs'.
Proof.
  intros Hmg Hpb Eb Epb (M1 & M2 & M3 & M4). set (q := packetOf pb) in *.
  destruct (mergeable_facts _ _ _ _ _ Hmg) as (Hgso & Egso & Eseq & Hseq & Ecnt & iv & pv & Eiv & Hiv & Hiv' & Epv & Hpv).
  destruct Hmg as [Hx Hmt Hq Ehl Hb Hm]. destruct (tcp_hl x Hx) as (U1 & U2 & U3 & U4). set (v := tcpView x) in *.
  pose proof (mergeOf_size _ _ _ _ _ Hm) as [Hsz Hlt]. destruct (of_size _ _ _ Hq) as [Hql _].
  pose proof (length_packet b Hb) as Hlb. pose proof (length_packet pb Hpb) as Hlpb. fold q in Hlpb.
  unfold coalesceTCPPackets. rewrite Eb. cbn [mbind option_bind]. rewrite (sliceFrom_some (b_data b) offset) by lia. fold (packetOf b).
  cbn [mbind option_bind]. rewrite U1, Eiv, Epv, Epb. fold v. cbn [mbind option_bind].
  match goal with |- context [if ?c then Some (coalesceInsufficientCap, _, _) else _] => destruct c eqn:Ecap end; [outcome|].
  apply Z.ltb_ge in Ecap. rewrite M1. destruct iv; cbn [negb]; [|outcome; cbn; auto]. destruct pv; cbn [negb]; [|outcome].
  rewrite extend_some by lia. cbn [mbind option_bind]. rewrite Nat2Z.id.
  rewrite (sliceFrom_some (b_data b) (offset + v_hl v)) by lia. cbn [mbind option_bind].
  rewrite copyInto_some by (rewrite ?length_drop; fold q; lia). cbn [mbind option_bind].
  assert (tcpItemOk (x <| ti_sentSeq := m_seq m |>)) as Hx1 by (destruct Hx; constructor; cbn; done).
  destruct (mergedTcp_ok _ (m_gsoSize m) Hx1 Hgso) as (Hx2 & E1 & E2 & E3 & E4 & E5 & E6 & E7).
  set (x2 := mergedTcp _ _) in *. cbn in E1, E2, E3, E4, E5, E6, E7. do 3 eexists. split; [done|]. cbv iota.
  split_and!; [done..|]. do 2 eexists. split; [done|].
  replace (drop (offset + v_hl v) (b_data b)) with (drop (v_hl v) (packetOf b)) by (unfold packetOf; apply drop_drop).
  split_and!; [|done|].
  { apply grown_ok; [done|apply Forall_drop, Hm|]. rewrite length_drop. lia. }
  rewrite grown_packet by done. cbn [joined]. apply (mergeOf_prepend native canUDP v); try done.
  - unfold sameFlow, v. cbn. by rewrite E1, E6, E7.
  - cbn. by rewrite E4.
  - cbn. by rewrite E5.
  - fold q. rewrite <- Egso. cbn. rewrite E3. lia.
  - cbn. rewrite E3. lia.
  - cbn. rewrite E3. intros. apply M4. lia.
  - fold q. rewrite <- Egso, <- Eseq. cbn. by rewrite M2.
  - apply Forall_cons. auto.
Qed.

Lemma appendTCP_spec x m pktI qs b pb bufs : mergeable x m (packetOf pb) qs b -> bufOk pb ->
  bufs !! ti_bufsIndex x = Some b -> bufs !! pktI = Some pb -> canAppend x m qs ->
  exists r x' bufs', coalesceTCPPackets native coalesceAppend (packetOf pb) pktI (m_gsoSize m) (m_seq m) (m_pshSet m) x bufs offset
      (k_isV6 (ti_key x)) = Some (r, x', bufs') /\ coalesced coalesceAppend x pktI (packetOf pb) qs bufs r x' bufs'.
Proof.
  intros Hmg Hpb Eb Epb (M1 & M2 & M3 & M4). set (q := packetOf pb) in *.
  destruct (mergeable_facts _ _ _ _ _ Hmg) as (Hgso & Egso & Eseq & Hseq & Ecnt & iv & pv & Eiv & Hiv & Hiv' & Epv & Hpv).
  destruct Hmg as [Hx Hmt Hq Ehl Hb Hm]. destruct (tcp_hl x Hx) as (U1 & U2 & U3 & U4). set (v := tcpView x) in *.
  pose proof (mergeOf_size _ _ _ _ _ Hm) as [Hsz Hlt]. destruct (of_size _ _ _ Hq) as [Hql _].
  pose proof (length_packet b Hb) as Hlb. assert (ti_iphLen x = Z.of_nat (v_iph v)) as Ei by apply Hx.
  unfold coalesceTCPPackets. rewrite Eb. cbn [mbind option_bind]. rewrite (sliceFrom_some (b_data b) offset) by lia. fold (packetOf b).
  cbn [mbind option_bind]. rewrite U1, Eiv, Epv. fold v. cbn [mbind option_bind].
  match goal with |- context [if ?c then Some (coalesceInsufficientCap, _, _) else _] => destruct c eqn:Ecap end; [outcome|].
  apply Z.ltb_ge in Ecap. destruct iv; cbn [negb]; [|outcome; cbn; auto]. destruct pv; cbn [negb]; [|outcome].
  rewrite Ei, (u8_small (Z.of_nat (v_iph v) + tcpFlagsOffset)) by (unfold tcpFlagsOffset; lia).
  replace (Z.to_nat (Z.of_nat (v_iph v) + tcpFlagsOffset)) with (v_iph v + 13)%nat by (unfold tcpFlagsOffset; lia).
  destruct (lookup_lt_is_Some_2 (packetOf b) (v_iph v + 13)) as [f Ef]; [lia|]. rewrite Ef. cbn [mbind option_bind].
  assert (is_byte f) as Hf by (eapply (Forall_lookup_1 is_byte); [apply Hm|exact Ef]).
  destruct (flagged_spec (m_pshSet m) (v_iph v + 13) f b Hb Hf) as (Hb1 & Hl1 & Hc1 & Hk1).
  set (b1 := flagged _ _ _ b) in *.
  assert ((if m_pshSet m then Some (b <| b_data ::= <[(offset + (v_iph v + 13))%nat:=Z.lor f tcpFlagPSH]> |>) else Some b) = Some b1) as ->
    by (unfold b1, flagged; by destruct (m_pshSet m)). cbn [mbind option_bind].
  set (x1 := if m_pshSet m then x <| ti_pshSet := m_pshSet m |> else x).
  assert (tcpItemOk x1 /\ tcpView x1 = v) as [Hx1 Ev] by (unfold x1; destruct Hx, (m_pshSet m); split; [constructor| |constructor|]; cbn; done).
  rewrite extend_some by (rewrite ?Hl1, ?Hc1; lia). cbn [mbind option_bind]. rewrite Nat2Z.id.
  rewrite (sliceFrom_some q) by lia. cbn [mbind option_bind].
  rewrite copyInto_some by (rewrite ?length_drop, ?Hl1; lia). cbn [mbind option_bind].
  destruct (mergedTcp_ok _ (m_gsoSize m) Hx1 Hgso) as (Hx2 & E1 & E2 & E3 & E4 & E5 & E6 & E7).
  set (x2 := mergedTcp _ _) in *. injection Ev as V1 V2 V3 V4 V5 V6. do 3 eexists. split; [reflexivity|]. cbv iota.
  clearbody x2. unfold coalesced. rewrite E1, E2, V1, V2. split_and!; [done..|].
  do 2 eexists. split; [by rewrite (list_insert_id _ _ _ Epb)|].
  split_and!; [|done|].
  { apply grown_ok; [done|apply Forall_drop, Hq|]. rewrite length_drop. lia. }
  rewrite grown_packet by done. cbn [joined].
  assert (0 <= ti_iphLen x1 + ti_tcphLen x1) by (destruct Hx1; lia).
  apply (mergeOf_append native canUDP v _ _ (packetOf b)); try done.
  - unfold sameFlow, v. cbn. by rewrite E1, E6, E7, V1, V3.
  - unfold v. cbn. rewrite E3, V4. lia.
  - unfold v. cbn. by rewrite E4, V5.
  - unfold v. cbn. by rewrite E5.
  - apply Hx.
  - assert (v_gso v = ti_gsoSize x) by done. lia.
  - intros _. rewrite <- Eseq, M4. do 3 f_equal. rewrite (mo_payload _ _ _ _ _ Hm), length_concat_drop. done.
  - apply Forall_app. split; [auto|]. apply Forall_singleton. auto.
  - unfold packetOf. rewrite !length_drop, Hl1. done.
  - by apply packet_size.
  - auto.
  - left. lia.
Qed.

End GroCoalesce.
