(* ===== verification/GroInvariant.v ===== *)
(** The invariant of the loop of [handleGRO]: the packets taken so far are
    parted into groups, each with the buffer that is written for it; a group is
    one packet, or the packets that the item of its buffer has merged. *)
From S2P Require Import Prelude Checksum Offload GsoSpec Gro GroSpec GroCoalesce.

Section GroInvariant.
Context (native : endian) (canUDP : bool) (offset : nat) (origs : list bytes).

Notation bufOk := (bufOk offset).
Notation packetOf := (packetOf offset).
Notation mergeOf := (mergeOf native canUDP).

(** A buffer index and the numbers of the packets in that buffer. *)
Abbreviation groups_t := (list (nat * list nat)).

Definition packets (js : list nat) : list bytes := (fun j => nth j origs []) <$> js.

Definition holdsMerge (groups : groups_t) (bufs : list buf) (v : view) : Prop :=
  exists js b, (v_index v, js) ∈ groups /\ bufs !! v_index v = Some b /\ mergeOf v (packets js) (packetOf b).

(** [clear]ed: no offload is asked for. *)
Definition plainHdr (b : buf) : Prop := slice (offset - virtioNetHdrLen) offset (b_data b) = replicate virtioNetHdrLen 0.

Definition single (bufs : list buf) (k : nat) (js : list nat) : Prop :=
  exists j b, js = [j] /\ bufs !! k = Some b /\ packetOf b = nth j origs [] /\ plainHdr b.

(** All but one group stay the same. *)
Definition changedOnly (k : nat) (groups : groups_t) (bufs : list buf) (groups' : groups_t) (bufs' : list buf) : Prop :=
  forall k' js, k' <> k -> (k', js) ∈ groups -> (k', js) ∈ groups' /\ bufs' !! k' = bufs !! k'.

Lemma holdsMerge_frame k groups bufs groups' bufs' v : changedOnly k groups bufs groups' bufs' -> v_index v <> k ->
  holdsMerge groups bufs v -> holdsMerge groups' bufs' v.
Proof.
  intros Hc Hk (js & b & Hg & Eb & Hm). destruct (Hc _ _ Hk Hg) as [Hg' E]. exists js, b. by rewrite E.
Qed.

Lemma group_unique (groups : groups_t) k js js' : NoDup groups.*1 -> (k, js) ∈ groups -> (k, js') ∈ groups -> js = js'.
Proof.
  induction groups as [|[k0 js0] groups IH]; cbn; [by intros _ ?%elem_of_nil|].
  intros [Hn Hd]%NoDup_cons. rewrite !elem_of_cons. intros [E1|H1] [E2|H2]; simplify_eq; auto.
  - destruct Hn. by apply (list_elem_of_fmap_2 fst) in H2.
  - destruct Hn. by apply (list_elem_of_fmap_2 fst) in H1.
Qed.

(** The packets of a group tell the protocol and the flow. *)
Lemma merge_unique groups bufs v v' : NoDup groups.*1 -> holdsMerge groups bufs v -> holdsMerge groups bufs v' ->
  v_index v = v_index v' -> v_tcp v = v_tcp v' /\ v_key v = v_key v'.
Proof.
  intros Hd (js & b & Hg & Eb & Hm) (js' & b' & Hg' & Eb' & Hm') E. rewrite <- E in Hg', Eb'.
  pose proof (group_unique _ _ _ _ Hd Hg Hg') as <-. pose proof (mo_chunks _ _ _ _ _ Hm) as Hc.
  pose proof (mo_flow _ _ _ _ _ Hm) as Hf. pose proof (mo_flow _ _ _ _ _ Hm') as Hf'.
  destruct (packets js) as [|q qs]; [done|]. apply Forall_cons in Hf as [Hf _]. apply Forall_cons in Hf' as [Hf' _].
  pose proof (of_candidate _ _ _ Hf) as C1. rewrite (of_candidate _ _ _ Hf') in C1.
  pose proof (of_key _ _ _ Hf) as K1. pose proof (of_key _ _ _ Hf') as K2.
  assert (v_tcp v = v_tcp v' /\ v_isV6 v = v_isV6 v') as [E1 E2] by (by destruct (v_tcp v), (v_tcp v'), (v_isV6 v), (v_isV6 v')).
  split; [done|]. rewrite E1, E2, K2 in K1. congruence.
Qed.

(** ** Tables *)

Section Table.
Context {item : Type} (tcp : bool) (viewF : item -> view) (itemOk : item -> Prop).

Definition itemFits (groups : groups_t) (bufs : list buf) (key : flowKey) (x : item) : Prop :=
  itemOk x /\ v_key (viewF x) = key /\ v_tcp (viewF x) = tcp /\ holdsMerge groups bufs (viewF x).

Definition indices (items : list item) : list nat := (fun x => v_index (viewF x)) <$> items.

Record tableOk (n : nat) (groups : groups_t) (bufs : list buf) (t : groTable item) : Prop := {
  to_items : map_Forall (fun key items => Forall (itemFits groups bufs key) items /\ NoDup (indices items)) (itemsByFlow t);
  to_pool : (itemsPool t + size (itemsByFlow t))%nat = IdealBatchSize;
  to_size : (size (itemsByFlow t) <= n)%nat }.

Definition liveIn (t : groTable item) (k : nat) : Prop :=
  exists key items, itemsByFlow t !! key = Some items /\ k ∈ indices items.

Definition itemsOf (t : groTable item) (key : flowKey) : list item := default [] (itemsByFlow t !! key).

Lemma fits_frame k groups bufs groups' bufs' key x : changedOnly k groups bufs groups' bufs' -> v_index (viewF x) <> k ->
  itemFits groups bufs key x -> itemFits groups' bufs' key x.
Proof. intros Hc Hk (H1 & H2 & H3 & H4). split_and!; try done. by eapply holdsMerge_frame. Qed.

(** The item at another key is about another buffer. *)
Lemma other_key groups bufs v key x : NoDup groups.*1 -> holdsMerge groups bufs v -> v_tcp v <> tcp \/ v_key v <> key ->
  itemFits groups bufs key x -> v_index (viewF x) <> v_index v.
Proof.
  intros Hd Hv Hne (H1 & H2 & H3 & H4) E. destruct (merge_unique groups bufs _ _ Hd H4 Hv E) as [E1 E2].
  rewrite H3 in E1. rewrite H2 in E2. destruct Hne; congruence.
Qed.

Lemma tableOk_frame n n' k groups bufs groups' bufs' t : tableOk n groups bufs t -> (n <= n')%nat ->
  changedOnly k groups bufs groups' bufs' ->
  (forall key x, itemFits groups bufs key x -> v_index (viewF x) <> k) -> tableOk n' groups' bufs' t.
Proof.
  intros [H1 H2 H3] Hn Hc Hk. constructor; [|done|lia]. eapply map_Forall_impl; [exact H1|].
  intros key items [Hf Hd]. split; [|done]. eapply Forall_impl; [exact Hf|]. intros x Hx. eapply fits_frame; [done|by eapply Hk|done].
Qed.

(** One flow gets other items. *)
Lemma tableOk_set n n' k groups bufs groups' bufs' t key items' pool' : tableOk n groups bufs t ->
  changedOnly k groups bufs groups' bufs' ->
  (forall key' x, key' <> key -> itemFits groups bufs key' x -> v_index (viewF x) <> k) ->
  Forall (itemFits groups' bufs' key) items' -> NoDup (indices items') ->
  (pool' + size (<[key := items']> (itemsByFlow t)))%nat = IdealBatchSize ->
  (size (<[key := items']> (itemsByFlow t)) <= n')%nat ->
  tableOk n' groups' bufs' (mkTable (<[key := items']> (itemsByFlow t)) pool').
Proof.
  intros [H1 H2 H3] Hc Hk Hf Hd Hp Hs. constructor; [|done|done]. intros key' items E. cbn in E.
  destruct (decide (key' = key)) as [->|Hne].
  - rewrite lookup_insert_eq in E. by injection E as <-.
  - rewrite lookup_insert_ne in E by done. destruct (H1 _ _ E) as [Hf' Hd']. split; [|done].
    eapply Forall_impl; [exact Hf'|]. intros x Hx. eapply fits_frame; [done|by eapply Hk|done].
Qed.

Lemma tableOk_items n groups bufs t key : tableOk n groups bufs t ->
  Forall (itemFits groups bufs key) (itemsOf t key) /\ NoDup (indices (itemsOf t key)).
Proof.
  intros H. unfold itemsOf. destruct (itemsByFlow t !! key) as [items|] eqn:E; cbn; [by apply (to_items _ _ _ _ H)|].
  split; constructor.
Qed.

Lemma live_set t key items' pool' k k' : (forall j, j <> k -> j ∈ indices (itemsOf t key) -> j ∈ indices items') ->
  k' <> k -> liveIn t k' -> liveIn (mkTable (<[key := items']> (itemsByFlow t)) pool') k'.
Proof.
  intros Hi Hk (key' & items & E & Hin). destruct (decide (key' = key)) as [->|Hne].
  - exists key, items'. cbn. rewrite lookup_insert_eq. split; [done|]. apply Hi; [done|]. unfold itemsOf. by rewrite E.
  - exists key', items. cbn. by rewrite lookup_insert_ne.
Qed.

(** A new item is about a new buffer. *)
Lemma insert_ok n groups bufs groups' bufs' t key x : tableOk n groups bufs t -> (n < IdealBatchSize)%nat ->
  changedOnly (v_index (viewF x)) groups bufs groups' bufs' ->
  (forall key y, itemFits groups bufs key y -> v_index (viewF y) <> v_index (viewF x)) -> itemFits groups' bufs' key x ->
  exists t', insertItem key x t = Some t' /\ tableOk (S n) groups' bufs' t' /\ liveIn t' (v_index (viewF x)) /\
    (forall k, liveIn t k -> liveIn t' k) /\ forall key, itemsOf t' key <> [] \/ itemsByFlow t' !! key = itemsByFlow t !! key.
Proof.
  intros Ht Hn Hc Hk Hx. destruct (tableOk_items _ _ _ _ key Ht) as [Hf Hd].
  assert (Forall (itemFits groups' bufs' key) (itemsOf t key ++ [x]) /\ NoDup (indices (itemsOf t key ++ [x]))) as [Hf' Hd'].
  { split.
    - apply Forall_app. split; [|by apply Forall_singleton]. eapply Forall_impl; [exact Hf|].
      intros y Hy. eapply fits_frame; [done|by eapply Hk|done].
    - unfold indices in *. rewrite fmap_app. apply NoDup_app. split_and!; [done| |apply NoDup_singleton].
      intros j (y & -> & Hy)%list_elem_of_fmap Hj. apply list_elem_of_singleton in Hj. rewrite Forall_forall in Hf.
      by apply (Hk _ y (Hf y Hy)). }
  assert (forall pool', (pool' + size (<[key := itemsOf t key ++ [x]]> (itemsByFlow t)))%nat = IdealBatchSize ->
    (size (<[key := itemsOf t key ++ [x]]> (itemsByFlow t)) <= S n)%nat ->
    let t' := mkTable (<[key := itemsOf t key ++ [x]]> (itemsByFlow t)) pool' in
    tableOk (S n) groups' bufs' t' /\ liveIn t' (v_index (viewF x)) /\ (forall k, liveIn t k -> liveIn t' k) /\
    forall key, itemsOf t' key <> [] \/ itemsByFlow t' !! key = itemsByFlow t !! key) as Hgo.
  { intros pool' Hp Hs. split_and!.
    - eapply tableOk_set; try done. intros; by eapply Hk.
    - exists key, (itemsOf t key ++ [x]). cbn. rewrite lookup_insert_eq. split; [done|].
      unfold indices. rewrite fmap_app. apply elem_of_app. right. by apply list_elem_of_singleton.
    - intros k Hl. apply (live_set _ _ _ _ (S k)); [|lia|done]. intros j _ Hj. unfold indices in *. rewrite fmap_app. apply elem_of_app. by left.
    - intros key'. unfold itemsOf at 1. cbn. destruct (decide (key' = key)) as [->|Hne].
      + left. rewrite lookup_insert_eq. cbn. by destruct (itemsOf t key).
      + right. by rewrite lookup_insert_ne. }
  pose proof (to_pool _ _ _ _ Ht) as Hp. pose proof (to_size _ _ _ _ Ht) as Hs. unfold insertItem.
  unfold itemsOf in Hgo at 1. unfold itemsOf in Hgo. destruct (itemsByFlow t !! key) as [items|] eqn:E; cbn [default] in Hgo.
  - eexists. split; [done|]. apply (Hgo (itemsPool t)); rewrite map_size_insert_Some by (by eexists); lia.
  - destruct (itemsPool t) as [|pool']; [lia|]. eexists. split; [done|].
    apply (Hgo pool'); rewrite map_size_insert_None by done; lia.
Qed.

Lemma same_size t key x j (items' : list item) : itemsOf t key !! j = Some x ->
  size (<[key := items']> (itemsByFlow t)) = size (itemsByFlow t).
Proof.
  intros E. apply map_size_insert_Some. unfold itemsOf in E. destruct (itemsByFlow t !! key); [by eexists|done].
Qed.

Lemma fits_at n groups bufs t key j x : tableOk n groups bufs t -> itemsOf t key !! j = Some x -> itemFits groups bufs key x.
Proof. intros Ht E. destruct (tableOk_items _ _ _ _ key Ht) as [Hf _]. by eapply Forall_lookup_1. Qed.

(** The other items at the key of [x]. *)
Lemma others_at n groups bufs t key j x : tableOk n groups bufs t -> itemsOf t key !! j = Some x ->
  forall j' y, j' <> j -> itemsOf t key !! j' = Some y -> v_index (viewF y) <> v_index (viewF x).
Proof.
  intros Ht E j' y Hj Ey Ei. destruct (tableOk_items _ _ _ _ key Ht) as [_ Hd]. apply Hj.
  eapply (NoDup_lookup (indices _)); [exact Hd| |]; unfold indices; rewrite list_lookup_fmap;
    [by rewrite Ey|rewrite E; cbn; by rewrite Ei].
Qed.

(** The item of a buffer whose group has grown. *)
Lemma update_ok n n' groups bufs groups' bufs' t key j x x' : tableOk n groups bufs t -> (n <= n')%nat -> NoDup groups.*1 ->
  itemsOf t key !! j = Some x -> v_index (viewF x') = v_index (viewF x) ->
  changedOnly (v_index (viewF x)) groups bufs groups' bufs' -> itemFits groups' bufs' key x' ->
  exists t', updateAt key x' j t = Some t' /\ tableOk n' groups' bufs' t' /\ (forall k, liveIn t k -> liveIn t' k) /\
    (forall key, itemsByFlow t' !! key <> Some [] \/ itemsByFlow t !! key = Some []).
Proof.
  intros Ht Hn Hd E Ei Hc Hx'. pose proof (fits_at _ _ _ _ _ _ _ Ht E) as Hx. unfold updateAt. fold (itemsOf t key).
  rewrite orElse_true by (apply Nat.ltb_lt, (lookup_lt_Some _ _ _ E)). eexists. split; [done|].
  assert (indices (<[j := x']> (itemsOf t key)) = indices (itemsOf t key)) as Eind.
  { unfold indices. rewrite list_fmap_insert. apply list_insert_id. rewrite list_lookup_fmap, E. cbn. by rewrite Ei. }
  split_and!.
  - eapply tableOk_set; [exact Ht|exact Hc|..].
    + intros key' y Hne Hy. eapply other_key; [done|apply Hx| |done]. right. destruct Hx as (_ & -> & _). done.
    + apply Forall_lookup. intros j' y Ey. destruct (decide (j' = j)) as [->|Hj].
      * rewrite list_lookup_insert_eq in Ey by apply (lookup_lt_Some _ _ _ E). by injection Ey as <-.
      * rewrite list_lookup_insert_ne in Ey by done. eapply fits_frame; [done|by eapply others_at|by eapply fits_at].
    + rewrite Eind. by apply (tableOk_items _ _ _ _ key Ht).
    + rewrite (same_size t key x j) by done. apply Ht.
    + rewrite (same_size t key x j) by done. destruct Ht. lia.
  - intros k Hk. apply (live_set t key _ _ (S k)); [|lia|done]. by rewrite Eind.
  - intros key'. cbn. destruct (decide (key' = key)) as [->|Hne].
    + left. rewrite lookup_insert_eq. intros [= El]. apply (f_equal length) in El. rewrite length_insert in El.
      apply lookup_lt_Some in E. cbn in El. lia.
    + rewrite lookup_insert_ne by done. destruct (itemsByFlow t !! key') as [[|]|]; [by right|by left|by left].
Qed.

Lemma delete_ok n groups bufs bufs' t key j x : tableOk n groups bufs t -> NoDup groups.*1 ->
  itemsOf t key !! j = Some x -> changedOnly (v_index (viewF x)) groups bufs groups bufs' ->
  exists t', deleteAt key j t = Some t' /\ tableOk n groups bufs' t' /\
    (forall k, k <> v_index (viewF x) -> liveIn t k -> liveIn t' k) /\ forall j', (j' < j)%nat -> itemsOf t' key !! j' = itemsOf t key !! j'.
Proof.
  intros Ht Hd E Hc. pose proof (fits_at _ _ _ _ _ _ _ Ht E) as Hx. unfold deleteAt. fold (itemsOf t key).
  pose proof (lookup_lt_Some _ _ _ E) as Hj.
  rewrite orElse_true by (by apply Nat.ltb_lt). eexists. split; [done|]. rewrite <- delete_take_drop. split_and!.
  - eapply tableOk_set; [exact Ht|exact Hc|..].
    + intros key' y Hne Hy. eapply other_key; [done|apply Hx| |done]. right. destruct Hx as (_ & -> & _). done.
    + apply Forall_lookup. intros j' y Ey. rewrite list_lookup_delete in Ey.
      assert (exists j0, j0 <> j /\ itemsOf t key !! j0 = Some y) as (j0 & Hj0 & Ey0)
        by (destruct (decide (j' < j)%nat); [exists j'|exists (S j')]; split; [lia|done|lia|done]).
      eapply fits_frame; [done|by eapply others_at|by eapply fits_at].
    + unfold indices. rewrite list_fmap_delete. eapply sublist_NoDup; [|apply sublist_delete]. by apply (tableOk_items _ _ _ _ key Ht).
    + rewrite (same_size t key x j) by done. apply Ht.
    + rewrite (same_size t key x j) by done. apply Ht.
  - intros k Hk. apply (live_set t key _ _ (v_index (viewF x))); [|done]. intros i Hi. unfold indices. rewrite list_fmap_delete.
    intros (i0 & Ei)%list_elem_of_lookup. apply list_elem_of_lookup. assert (i0 <> j).
    { intros ->. rewrite list_lookup_fmap, E in Ei. cbn in Ei. congruence. }
    destruct (decide (i0 < j)%nat).
    + exists i0. by rewrite list_lookup_delete_lt.
    + exists (pred i0). rewrite list_lookup_delete_ge by lia. by replace (S (pred i0)) with i0 by lia.
  - intros j' Hj'. unfold itemsOf at 1. cbn. rewrite lookup_insert_eq. cbn. by apply list_lookup_delete_lt.
Qed.

End Table.

End GroInvariant.
