(* ===== verification/GroLoop.v ===== *)
(** The steps that keep the invariant of the loop of [handleGRO]: a packet on
    its own, a new item, a packet merged into the one of an item, and an item
    that is given up; and that the loop keeps it and never panics. *)
From S2P Require Import Prelude Checksum Offload GsoSpec Gro GroSpec GroCoalesce GroInvariant.

(** ** Groups *)

Lemma groups_new (groups : list (nat * list nat)) n : NoDup groups.*1 -> Forall (fun g => g.1 < n)%nat groups ->
  concat groups.*2 ≡ₚ seq 0 n ->
  NoDup (groups ++ [(n, [n])]).*1 /\ Forall (fun g => g.1 < S n)%nat (groups ++ [(n, [n])]) /\
  concat (groups ++ [(n, [n])]).*2 ≡ₚ seq 0 (S n).
Proof.
  intros H1 H2 H3. rewrite !fmap_app, concat_app. split_and!.
  - apply NoDup_app. split_and!; [done| |apply NoDup_singleton]. intros k ([k' js] & -> & Hk)%list_elem_of_fmap Hn.
    apply list_elem_of_singleton in Hn. rewrite Forall_forall in H2. apply H2 in Hk. cbn in *. lia.
  - apply Forall_app. split; [|by apply Forall_singleton; cbn; lia]. eapply Forall_impl; [exact H2|]. cbn. lia.
  - rewrite H3, seq_S. done.
Qed.

Lemma groups_grow (groups : list (nat * list nat)) k js js' n : NoDup groups.*1 -> (k, js) ∈ groups -> js' ≡ₚ js ++ [n] ->
  Forall (fun g => g.1 < n)%nat groups -> concat groups.*2 ≡ₚ seq 0 n ->
  exists groups', groups'.*1 = groups.*1 /\ Forall (fun g => g.1 < S n)%nat groups' /\ concat groups'.*2 ≡ₚ seq 0 (S n) /\
    (k, js') ∈ groups' /\ forall k0 js0, k0 <> k -> (k0, js0) ∈ groups' <-> (k0, js0) ∈ groups.
Proof.
  intros Hd (g1 & g2 & ->)%list_elem_of_split Hp Hb Hc. exists (g1 ++ (k, js') :: g2).
  apply Forall_app in Hb as [Hb1 Hb2]. apply Forall_cons in Hb2 as [Hbk Hb2]. rewrite !fmap_app, !fmap_cons in *. cbn [fst snd] in *.
  split_and!; [done| | |..].
  - apply Forall_app. split; [|apply Forall_cons; split].
    + eapply Forall_impl; [exact Hb1|]. cbn. lia.
    + cbn in *. lia.
    + eapply Forall_impl; [exact Hb2|]. cbn. lia.
  - rewrite concat_app in *. cbn [concat] in *. rewrite Hp, seq_S, <- Hc. cbn. solve_Permutation.
  - apply elem_of_app. right. by left.
  - intros k0 js0 Hk. rewrite !elem_of_app, !elem_of_cons. naive_solver.
Qed.

Section Steps.
Context (native : endian) (canUDP : bool) (offset : nat) (origs : list bytes).
Context {A B : Type} (flag : bool) (viewA : A -> view) (okA : A -> Prop) (viewB : B -> view) (okB : B -> Prop).

Notation bufOk := (bufOk offset).
Notation packetOf := (packetOf offset).
Notation tableOk := (tableOk native canUDP offset origs).
Notation single := (single offset origs).
Notation itemFits := (itemFits native canUDP offset origs).

(** The packets before [n] are taken.  Each group is live, with an item in one of
    the tables, or a single packet with a plain header. *)
Record groInv (n : nat) (groups : list (nat * list nat)) (bufs : list buf) (tA : groTable A) (tB : groTable B) : Prop := {
  gi_length : length bufs = length origs;
  gi_bufs : Forall bufOk bufs;
  gi_rest : forall j b, (n <= j)%nat -> bufs !! j = Some b -> packetOf b = nth j origs [];
  gi_nodup : NoDup groups.*1;
  gi_below : Forall (fun g => g.1 < n)%nat groups;
  gi_part : concat groups.*2 ≡ₚ seq 0 n;
  gi_A : tableOk flag viewA okA n groups bufs tA;
  gi_B : tableOk (negb flag) viewB okB n groups bufs tB;
  gi_cover : forall k js, (k, js) ∈ groups -> liveIn viewA tA k \/ liveIn viewB tB k \/ single bufs k js }.

Lemma bufs_insert bufs k b b' : Forall bufOk bufs -> bufs !! k = Some b -> bufOk b' -> Forall bufOk (<[k := b']> bufs).
Proof. intros. by apply Forall_insert. Qed.

Lemma clearHdr_spec bufs k b : bufs !! k = Some b -> bufOk b ->
  exists b', clearHdr bufs k offset = Some (<[k := b']> bufs) /\ bufOk b' /\ packetOf b' = packetOf b /\ plainHdr offset b'.
Proof.
  intros E [H1 H2 H3 H4]. unfold clearHdr. rewrite E. cbn [mbind option_bind].
  destruct (copyTo_written (b_data b) (offset - virtioNetHdrLen) offset (replicate virtioNetHdrLen 0)) as (data & Ed & Hw);
    [lia|rewrite length_replicate; lia|].
  rewrite Ed. cbn [mbind option_bind]. eexists. split; [done|]. pose proof Hw as (Hl & Hs & Hlook).
  assert (all_bytes (replicate virtioNetHdrLen 0)) by (apply Forall_replicate; unfold is_byte; lia).
  rewrite length_replicate in Hlook, Hs. split_and!.
  - constructor; cbn; [by eapply written_bytes|lia|done|done].
  - unfold GroCoalesce.packetOf. cbn. apply list_eq. intros j. rewrite !lookup_drop. apply Hlook. lia.
  - unfold plainHdr. cbn. by replace (offset - virtioNetHdrLen + virtioNetHdrLen)%nat with offset in Hs by lia.
Qed.

Lemma single_frame k groups bufs groups' bufs' k' js : changedOnly k groups bufs groups' bufs' -> k' <> k -> (k', js) ∈ groups ->
  single bufs k' js -> single bufs' k' js.
Proof. intros Hc Hk Hg (j & b & -> & Eb & H). exists j, b. destruct (Hc _ _ Hk Hg) as [_ ->]. done. Qed.

(** Groups are about buffers before [n]. *)
Lemma changed_new groups bufs bufs' n g : Forall (fun g => g.1 < n)%nat groups ->
  (forall k, (k < n)%nat -> bufs' !! k = bufs !! k) -> changedOnly n groups bufs (groups ++ g) bufs'.
Proof.
  intros Hb He k js Hk Hg. split; [apply elem_of_app; by left|]. rewrite Forall_forall in Hb. apply He, (Hb _ Hg).
Qed.

Lemma fits_below {item} (f : bool) (view : item -> view) ok n groups bufs key x : Forall (fun g => g.1 < n)%nat groups ->
  itemFits f view ok groups bufs key x -> (v_index (view x) < n)%nat.
Proof. intros Hb (_ & _ & _ & js & b & Hg & _). rewrite Forall_forall in Hb. apply (Hb _ Hg). Qed.

(** A packet that no item is made for. *)
Lemma inv_noop n groups bufs tA tB : groInv n groups bufs tA tB -> (n < length origs)%nat ->
  exists bufs', clearHdr bufs n offset = Some bufs' /\ groInv (S n) (groups ++ [(n, [n])]) bufs' tA tB.
Proof.
  intros [H1 H2 H3 H4 H5 H6 H7 H8 H9] Hn. destruct (lookup_lt_is_Some_2 bufs n) as [b Eb]; [lia|].
  assert (bufOk b) as Hb by (by eapply Forall_lookup_1).
  destruct (clearHdr_spec bufs n b Eb Hb) as (b' & -> & Hb' & Ep & Hp). eexists. split; [done|].
  destruct (groups_new groups n H4 H5 H6) as (G1 & G2 & G3).
  assert (changedOnly n groups bufs (groups ++ [(n, [n])]) (<[n := b']> bufs)) as Hc
    by (apply changed_new; [done|]; intros k Hk; apply list_lookup_insert_ne; lia).
  constructor; [by rewrite length_insert|by eapply bufs_insert| |done|done|done| | |].
  - intros j b0 Hj Ej. rewrite list_lookup_insert_ne in Ej by lia. apply H3; [lia|done].
  - eapply tableOk_frame; [exact H7|lia|exact Hc|]. intros key x Hx. pose proof (fits_below _ _ _ _ _ _ _ _ H5 Hx). lia.
  - eapply tableOk_frame; [exact H8|lia|exact Hc|]. intros key x Hx. pose proof (fits_below _ _ _ _ _ _ _ _ H5 Hx). lia.
  - intros k js Hk. apply elem_of_app in Hk as [Hk|Hk].
    + destruct (H9 _ _ Hk) as [|[|]]; [by left|by right; left|right; right].
      eapply single_frame; [exact Hc| |exact Hk|done]. rewrite Forall_forall in H5. apply H5 in Hk. cbn in Hk. lia.
    + apply list_elem_of_singleton in Hk as [= -> ->]. right; right. exists n, b'. rewrite Ep.
      split_and!; [done|apply list_lookup_insert_eq; lia|by apply H3|done].
Qed.

(** A packet that an item is made for. *)
Lemma inv_insert n groups bufs tA tB key x : groInv n groups bufs tA tB -> (n < length origs)%nat -> (n < IdealBatchSize)%nat ->
  okA x -> v_index (viewA x) = n -> v_key (viewA x) = key -> v_tcp (viewA x) = flag ->
  mergeOf native canUDP (viewA x) [nth n origs []] (nth n origs []) ->
  exists t', insertItem key x tA = Some t' /\ groInv (S n) (groups ++ [(n, [n])]) bufs t' tB /\
    forall key, itemsOf t' key <> [] \/ itemsByFlow t' !! key = itemsByFlow tA !! key.
Proof.
  intros [H1 H2 H3 H4 H5 H6 H7 H8 H9] Hn Hi Hx Ex Ek Ef Hm. destruct (lookup_lt_is_Some_2 bufs n) as [b Eb]; [lia|].
  destruct (groups_new groups n H4 H5 H6) as (G1 & G2 & G3).
  assert (changedOnly n groups bufs (groups ++ [(n, [n])]) bufs) as Hc by (by apply changed_new).
  destruct (insert_ok native canUDP offset origs flag viewA okA n groups bufs (groups ++ [(n, [n])]) bufs tA key x) as (t' & Et & T1 & T2 & T3 & T4);
    [done|done|by rewrite Ex| | |].
  - intros key' y Hy. pose proof (fits_below _ _ _ _ _ _ _ _ H5 Hy). lia.
  - split_and!; [done..|]. exists [n], b. rewrite Ex. split_and!; [apply elem_of_app; right; by apply list_elem_of_singleton|done|].
    by rewrite (H3 n b).
  - exists t'. split; [done|]. split; [|done]. constructor; try done.
    + intros j b0 Hj. apply H3. lia.
    + eapply tableOk_frame; [exact H8|lia|exact Hc|]. intros key' y Hy. pose proof (fits_below _ _ _ _ _ _ _ _ H5 Hy). lia.
    + intros k js Hk. apply elem_of_app in Hk as [Hk|Hk]; [destruct (H9 _ _ Hk) as [|[|]]; auto|].
      apply list_elem_of_singleton in Hk as [= -> ->]. left. by rewrite Ex in T2.
Qed.

(** A packet that is merged into the one of an item. *)
Lemma inv_grow n groups bufs tA tB key j x x' js js' b' pb' : groInv n groups bufs tA tB -> (n < length origs)%nat ->
  itemsOf tA key !! j = Some x -> (v_index (viewA x), js) ∈ groups -> js' ≡ₚ js ++ [n] -> bufOk b' -> bufOk pb' ->
  okA x' -> v_index (viewA x') = v_index (viewA x) -> v_key (viewA x') = key -> v_tcp (viewA x') = flag ->
  mergeOf native canUDP (viewA x') (packets origs js') (packetOf b') ->
  exists t' groups', updateAt key x' j tA = Some t' /\ groups'.*1 = groups.*1 /\
    groInv (S n) groups' (<[v_index (viewA x) := b']> (<[n := pb']> bufs)) t' tB /\
    (forall key, itemsByFlow t' !! key <> Some [] \/ itemsByFlow tA !! key = Some []).
Proof.
  intros [H1 H2 H3 H4 H5 H6 H7 H8 H9] Hn Ej Hg Hjs Hb' Hpb' Hx' Ei Ek Ef Hm. set (k := v_index (viewA x)) in *.
  assert (k < n)%nat as Hk by (rewrite Forall_forall in H5; apply (H5 _ Hg)).
  destruct (groups_grow groups k js js' n H4 Hg Hjs H5 H6) as (groups' & G1 & G2 & G3 & G4 & G5).
  set (bufs' := <[k := b']> (<[n := pb']> bufs)).
  assert (forall k0, k0 <> k -> (k0 < n)%nat -> bufs' !! k0 = bufs !! k0) as Hsame
    by (intros k0 Hk0 Hkn; unfold bufs'; rewrite !list_lookup_insert_ne by lia; done).
  assert (changedOnly k groups bufs groups' bufs') as Hc.
  { intros k0 js0 Hk0 Hin. split; [by apply G5|]. rewrite Forall_forall in H5. by apply Hsame, (H5 _ Hin). }
  pose proof (fits_at _ _ _ _ _ _ _ _ _ _ _ _ _ _ H7 Ej) as Hfit.
  destruct (update_ok native canUDP offset origs flag viewA okA n (S n) groups bufs groups' bufs' tA key j x x') as (t' & Et & T1 & T2 & T3);
    [done|lia|done|done|done|done| |].
  { split_and!; [done..|]. exists js', b'. rewrite Ei. split_and!; [done| |done]. unfold bufs'.
    apply list_lookup_insert_eq. rewrite length_insert. lia. }
  exists t', groups'. split; [done|]. split; [done|]. split; [|done]. constructor; try done.
  - unfold bufs'. by rewrite !length_insert.
  - by apply Forall_insert; [apply Forall_insert|].
  - intros i b0 Hi. unfold bufs'. rewrite !list_lookup_insert_ne by lia. apply H3. lia.
  - by rewrite G1.
  - eapply tableOk_frame; [exact H8|lia|exact Hc|]. intros key' y Hy. eapply other_key; [exact H4|apply Hfit| |exact Hy].
    left. destruct Hfit as (_ & _ & -> & _). by destruct flag.
  - intros k0 js0 Hin. destruct (decide (k0 = k)) as [->|Hk0].
    + left. apply T2. exists key, (itemsOf tA key). split; [|apply list_elem_of_fmap; exists x; split; [done|by apply list_elem_of_lookup_2 in Ej]].
      unfold itemsOf in *. by destruct (itemsByFlow tA !! key).
    + apply G5 in Hin; [|done]. destruct (H9 _ _ Hin) as [|[|]]; [left; auto|by right; left|right; right].
      by eapply single_frame.
Qed.

(** An item on its own that is given up, its checksum being wrong. *)
Lemma inv_delete n groups bufs tA tB key j x : groInv n groups bufs tA tB -> itemsOf tA key !! j = Some x ->
  v_merged (viewA x) = 0 ->
  exists t' bufs', deleteAt key j tA = Some t' /\ clearHdr bufs (v_index (viewA x)) offset = Some bufs' /\
    groInv n groups bufs' t' tB /\ forall j', (j' < j)%nat -> itemsOf t' key !! j' = itemsOf tA key !! j'.
Proof.
  intros [H1 H2 H3 H4 H5 H6 H7 H8 H9] Ej E0. pose proof (fits_at _ _ _ _ _ _ _ _ _ _ _ _ _ _ H7 Ej) as Hfit.
  pose proof (fits_below _ _ _ _ _ _ _ _ H5 Hfit) as Hk. pose proof Hfit as (Hx & Ek & Ef & js & b & Hg & Eb & Hm).
  set (k := v_index (viewA x)) in *. assert (bufOk b) as Hb by (by eapply Forall_lookup_1).
  destruct (clearHdr_spec bufs k b Eb Hb) as (b' & Ec & Hb' & Ep & Hp).
  assert (changedOnly k groups bufs groups (<[k := b']> bufs)) as Hc.
  { intros k0 js0 Hk0 Hin. split; [done|]. by apply list_lookup_insert_ne. }
  destruct (delete_ok native canUDP offset origs flag viewA okA n groups bufs (<[k := b']> bufs) tA key j x) as (t' & Et & T1 & T2 & T3);
    [done..|]. exists t', (<[k := b']> bufs). split_and!; try done.
  pose proof (mo_count _ _ _ _ _ Hm) as Hcnt. rewrite E0 in Hcnt. unfold packets in Hcnt, Hm. rewrite length_fmap in Hcnt.
  destruct js as [|j0 [|]]; cbn [length] in Hcnt; [lia| |lia].
  constructor; try done.
  - by rewrite length_insert.
  - by apply Forall_insert.
  - intros i b0 Hi Ei. rewrite list_lookup_insert_ne in Ei by lia. by apply H3.
  - eapply tableOk_frame; [exact H8|lia|exact Hc|]. intros key' y Hy. eapply other_key; [exact H4|apply Hfit| |exact Hy].
    left. rewrite Ef. by destruct flag.
  - intros k0 js0 Hin. destruct (decide (k0 = k)) as [->|Hk0].
    + right; right. pose proof (group_unique _ _ _ _ H4 Hg Hin) as <-. exists j0, b'. split_and!; [done| | |done].
      * apply list_lookup_insert_eq. by eapply lookup_lt_Some.
      * rewrite Ep. by apply (mo_single _ _ _ _ _ Hm).
    + destruct (H9 _ _ Hin) as [|[|]]; [left; auto|by right; left|right; right]. by eapply single_frame.
Qed.

End Steps.

Section Loop.
Context (native : endian) (canUDP : bool) (offset : nat) (origs : list bytes).

Notation tcpInv := (groInv native canUDP offset origs true tcpView tcpItemOk udpView udpItemOk).
Notation udpInv := (groInv native canUDP offset origs false udpView udpItemOk tcpView tcpItemOk).

Abbreviation groups_t := (list (nat * list nat)).

Lemma inv_swap n groups bufs t u : tcpInv n groups bufs t u <-> udpInv n groups bufs u t.
Proof.
  split; intros [H1 H2 H3 H4 H5 H6 H7 H8 H9]; constructor; try done; intros k js Hk; destruct (H9 k js Hk) as [|[|]]; auto.
Qed.

(** What a result says of the groups, the invariant being [inv]. *)
Definition outcomeOf (inv : nat -> groups_t -> Prop) (n : nat) (groups : groups_t) (r : groResult) : Prop :=
  match r with
  | groResultNoop => inv n groups
  | groResultTableInsert => exists groups', groups'.*1 = groups.*1 ++ [n] /\ inv (S n) groups'
  | groResultCoalesced => exists groups', groups'.*1 = groups.*1 /\ inv (S n) groups'
  end.

(** ** TCP *)

(** The packet at hand. *)
Record atHand (tcp : bool) (n : nat) (isV6 : bool) (m : packetMeta) : Prop := {
  ah_lt : (n < length origs)%nat;
  ah_bytes : all_bytes (nth n origs []);
  ah_candidate : packetIsGROCandidate (nth n origs []) canUDP = candidate tcp isV6;
  ah_meta : metaOk tcp isV6 (nth n origs []) m }.

Lemma atHand_buf tcp n isV6 m groups bufs t u : atHand tcp n isV6 m -> tcpInv n groups bufs t u ->
  exists pb, bufs !! n = Some pb /\ bufOk offset pb /\ packetOf offset pb = nth n origs [].
Proof.
  intros [H _ _ _] Hi. destruct (lookup_lt_is_Some_2 bufs n) as [pb E]; [rewrite (gi_length _ _ _ _ _ _ _ _ _ _ _ _ _ _ Hi); lia|].
  exists pb. split; [done|]. split; [eapply Forall_lookup_1; [apply Hi|exact E]|]. by eapply (gi_rest _ _ _ _ _ _ _ _ _ _ _ _ _ _ Hi).
Qed.

Lemma atHand_flow (v : view) n m : atHand (v_tcp v) n (v_isV6 v) m -> v_key v = m_key m -> v_hl v = (m_iphLen m + m_hdrLen m)%nat ->
  ofFlow canUDP v (nth n origs []).
Proof.
  intros [H1 H2 H3 H4] Ek Eh. eapply ofFlow_same; [|by eapply (metaOk_ofFlow canUDP (v_tcp v) _ n)]. by split_and!.
Qed.

Lemma packets_joined mode js n : packets origs (match mode with coalescePrepend => n :: js | _ => js ++ [n] end) =
  joined mode (nth n origs []) (packets origs js).
Proof. destruct mode; cbn [joined]; unfold packets; by rewrite ?fmap_app. Qed.

Lemma joined_perm mode (js : list nat) n : match mode with coalescePrepend => n :: js | _ => js ++ [n] end ≡ₚ js ++ [n].
Proof. destruct mode; [by rewrite Permutation_app_comm|done|done]. Qed.

(** One item: it cannot take the packet, or what [coalesceTCPPackets] does. *)
Lemma tcpItem_spec n isV6 m groups bufs t u x i : atHand true n isV6 m -> tcpInv n groups bufs t u ->
  itemsOf t (m_key m) !! i = Some x ->
  exists can, tcpPacketsCanCoalesce (nth n origs []) (u8 (Z.of_nat (m_iphLen m))) (u8 (Z.of_nat (m_hdrLen m))) (m_seq m)
      (m_pshSet m) (m_gsoSize m) x bufs offset = Some can /\
    (can <> coalesceUnavailable -> exists r x' bufs',
      coalesceTCPPackets native can (nth n origs []) n (m_gsoSize m) (m_seq m) (m_pshSet m) x bufs offset isV6 = Some (r, x', bufs') /\
      ti_key x = m_key m /\
      exists js, (ti_bufsIndex x, js) ∈ groups /\ coalesced native canUDP offset can x n (nth n origs []) (packets origs js) bufs r x' bufs').
Proof.
  intros Hm Hi Ei. pose proof (fits_at _ _ _ _ _ _ _ _ _ _ _ _ _ _ (gi_A _ _ _ _ _ _ _ _ _ _ _ _ _ _ Hi) Ei) as (Hx & Ek & _ & js & b & Hg & Eb & Hmo).
  cbn [v_key v_index tcpView] in *. destruct (atHand_buf _ _ _ _ _ _ _ _ Hm Hi) as (pb & Epb & Hpb & Eq).
  assert (k_isV6 (ti_key x) = isV6) as E6 by (rewrite Ek; apply Hm).
  assert (bufOk offset b) as Hb by (eapply Forall_lookup_1; [apply Hi|exact Eb]).
  pose proof (ah_meta _ _ _ _ Hm) as Hmt. rewrite <- E6 in Hmt.
  destruct (tcpCan_spec native canUDP offset x m _ _ b bufs Hx Hmt Eb Hb Hmo) as (can & Ecan & Hcan).
  exists can. split; [done|]. intros Hne.
  assert (Z.of_nat (m_hdrLen m) = ti_tcphLen x) as Eh by (destruct can; [apply Hcan|done|apply Hcan]).
  assert (mergeable native canUDP offset x m (packetOf offset pb) (packets origs js) b) as Hmg.
  { constructor; try done; rewrite ?Eq; [done|]. apply (atHand_flow _ _ m); cbn.
    - unfold v_isV6. cbn. by rewrite E6.
    - done.
    - rewrite (me_iph _ _ _ _ Hmt), (ti_iph _ Hx). lia. }
  rewrite <- Eq, <- E6. destruct can; [|done|].
  - destruct (prependTCP_spec native canUDP offset x m n _ b pb bufs Hmg Hpb Eb Epb (proj2 Hcan)) as (r & x' & bufs' & E & Hr). eauto 10.
  - destruct (appendTCP_spec native canUDP offset x m n _ b pb bufs Hmg Hpb Eb Epb (proj2 Hcan)) as (r & x' & bufs' & E & Hr). eauto 10.
Qed.

Definition itemsOutcome (n : nat) (groups : groups_t) (bufs : list buf) (t : groTable tcpGROItem) (u : groTable udpGROItem)
    (r : option groResult) : Prop :=
  match r with
  | None => tcpInv n groups bufs t u
  | Some r => r <> groResultTableInsert /\ outcomeOf (fun n groups => tcpInv n groups bufs t u) n groups r
  end.

Lemma tcpItems_spec n isV6 m groups u items : atHand true n isV6 m ->
  forall c bufs t, tcpInv n groups bufs t u -> (c <= length items)%nat ->
  (forall i, (i < c)%nat -> itemsOf t (m_key m) !! i = items !! i) ->
  exists r bufs' t', tcpItems native c items (nth n origs []) n (m_iphLen m) (m_hdrLen m) (m_seq m) (m_pshSet m) (m_gsoSize m)
      bufs offset isV6 t = Some (r, bufs', t') /\ itemsOutcome n groups bufs' t' u r.
Proof.
  intros Hm. induction c as [|i IH]; intros bufs t Hi Hc Hsame; [by do 3 eexists|].
  cbn [tcpItems]. destruct (lookup_lt_is_Some_2 items i) as [x Ex]; [lia|]. rewrite Ex. cbn [mbind option_bind].
  assert (itemsOf t (m_key m) !! i = Some x) as Ei by (rewrite Hsame by lia; done).
  assert (forall bufs t, tcpInv n groups bufs t u -> (forall j, (j < i)%nat -> itemsOf t (m_key m) !! j = items !! j) ->
    exists r bufs' t', tcpItems native i items (nth n origs []) n (m_iphLen m) (m_hdrLen m) (m_seq m) (m_pshSet m) (m_gsoSize m)
      bufs offset isV6 t = Some (r, bufs', t') /\ itemsOutcome n groups bufs' t' u r) as Hgo by (intros; apply IH; [done|lia|done]).
  assert (forall j, (j < i)%nat -> itemsOf t (m_key m) !! j = items !! j) as Hsame' by (intros; apply Hsame; lia).
  destruct (tcpItem_spec n isV6 m groups bufs t u x i Hm Hi Ei) as (can & -> & Hcan). cbn [mbind option_bind].
  destruct (decide (can = coalesceUnavailable)) as [->|Hne]; [by apply Hgo|].
  destruct (Hcan Hne) as (r & x' & bufs' & Er & Ek & js & Hg & Hr). clear Hcan.
  assert (forall T (a b : T), match can with coalesceUnavailable => a | _ => b end = b) as Ematch by (by destruct can).
  rewrite Ematch. clear Ematch. rewrite Er. cbn [mbind option_bind]. destruct r; cbn [coalesced] in Hr.
  - subst bufs'. by apply Hgo.
  - subst bufs'. by apply Hgo.
  - destruct Hr as (-> & -> & E0). destruct (inv_delete _ _ _ _ _ _ _ _ _ _ _ _ _ _ (m_key m) i x Hi Ei E0) as (t' & bufs' & Ed & Ec & Hi' & Hp).
    rewrite Ek, Ed. cbn [mbind option_bind]. cbn [v_index tcpView] in Ec. rewrite Ec. cbn [mbind option_bind].
    apply Hgo; [done|]. intros j Hj. by rewrite Hp, Hsame'.
  - subst bufs'. by do 3 eexists.
  - destruct Hr as (Hx' & Ek' & Ei' & b' & pb' & -> & Hb' & Hpb' & Hmo).
    destruct (inv_grow _ _ _ _ _ _ _ _ _ n groups bufs t u (m_key m) i x x' js _ b' pb' Hi (ah_lt _ _ _ _ Hm) Ei Hg (joined_perm can js n))
      as (t' & groups' & Et & Eg & Hi' & _); try done.
    + cbn. by rewrite Ek'.
    + by rewrite packets_joined.
    + rewrite Ek', Ek, Et. cbn [mbind option_bind]. do 3 eexists. split; [done|]. split; [done|]. by exists groups'.
Qed.

(** The item of a new packet. *)
Lemma newTcpItem_spec n isV6 m : atHand true n isV6 m -> (n < IdealBatchSize)%nat ->
  exists x, newTcpItem (m_key m) (nth n origs []) (m_iphLen m) (m_hdrLen m) n = Some x /\ tcpItemOk x /\ tcpView x = viewOf true n m.
Proof.
  intros [Hn Hb Hc Hm] Hi. unfold IdealBatchSize in Hi. destruct (me_size _ _ _ _ Hm) as [Hs Hs']. pose proof (me_hdr _ _ _ _ Hm) as Hh. cbv iota in Hh.
  pose proof (iphOf_bounds isV6) as Hib. pose proof (me_gso _ _ _ _ Hm) as Hg. pose proof (me_seq _ _ _ _ Hm eq_refl) as Hsq.
  unfold newTcpItem, maxUint16 in *. rewrite (me_iph _ _ _ _ Hm), sliceFrom_some, getBE_some by lia. cbn [mbind option_bind].
  destruct (lookup_lt_is_Some_2 (nth n origs []) (iphOf isV6 + Z.to_nat tcpFlagsOffset)) as [f ->]; [change (Z.to_nat tcpFlagsOffset) with 13%nat; lia|]. cbn [mbind option_bind].
  eexists. split; [done|]. rewrite <- Hg. rewrite length_drop in Hg. rewrite !u8_small, !u16_small by lia.
  assert (be_dec (slice (iphOf isV6 + 4) (iphOf isV6 + 4 + 4) (nth n origs [])) = m_seq m) as ->
    by (rewrite Hsq; unfold seqOf; do 2 f_equal; lia).
  split.
  - constructor; cbn; rewrite ?(me_isV6 _ _ _ _ Hm); try lia.
    rewrite Hsq. unfold seqOf.
    assert (all_bytes (slice (iphOf isV6 + 4) (iphOf isV6 + 8) (nth n origs []))) as Hsl by (by apply Forall_take, Forall_drop).
    pose proof (be_dec_range _ Hsl) as Hr. rewrite length_slice in Hr by lia.
    by replace (iphOf isV6 + 8 - (iphOf isV6 + 4))%nat with 4%nat in Hr by lia.
  - unfold tcpView, viewOf. cbn. rewrite (me_iph _ _ _ _ Hm). f_equal; lia.
Qed.

Lemma newUdpItem_spec n isV6 m known : atHand false n isV6 m -> (n < IdealBatchSize)%nat ->
  exists x, newUdpItem (m_key m) (nth n origs []) (m_iphLen m) n known = Some x /\ udpItemOk x /\ udpView x = viewOf false n m.
Proof.
  intros [Hn Hb Hc Hm] Hi. unfold IdealBatchSize in Hi. destruct (me_size _ _ _ _ Hm) as [Hs Hs']. pose proof (me_hdr _ _ _ _ Hm) as Hh. cbv iota in Hh.
  pose proof (iphOf_bounds isV6) as Hib. pose proof (me_gso _ _ _ _ Hm) as Hg.
  unfold newUdpItem, maxUint16 in *. change (Z.to_nat udphLen) with 8%nat. rewrite (me_iph _ _ _ _ Hm), sliceFrom_some by lia.
  cbn [mbind option_bind]. eexists. split; [done|]. rewrite Hh in Hg. rewrite <- Hg. rewrite length_drop in Hg.
  rewrite !u8_small, !u16_small by lia. split.
  - constructor; cbn; rewrite ?(me_isV6 _ _ _ _ Hm); lia.
  - unfold udpView, viewOf, udphLen. cbn. rewrite (me_iph _ _ _ _ Hm), (me_noSeq _ _ _ _ Hm) by done. f_equal; lia.
Qed.

Lemma tcpInsert_spec n isV6 m groups bufs t u : atHand true n isV6 m -> (n < IdealBatchSize)%nat -> tcpInv n groups bufs t u ->
  exists t', (item ← newTcpItem (m_key m) (nth n origs []) (m_iphLen m) (m_hdrLen m) n; insertItem (m_key m) item t) = Some t' /\
    tcpInv (S n) (groups ++ [(n, [n])]) bufs t' u.
Proof.
  intros Hm Hn Hi. destruct (newTcpItem_spec n isV6 m Hm Hn) as (x & -> & Hx & Ev). cbn [mbind option_bind].
  destruct (inv_insert _ _ _ _ _ _ _ _ _ n groups bufs t u (m_key m) x Hi) as (t' & Et & Hi' & _); rewrite ?Ev; try done; [apply Hm| |].
  - by eapply mergeOf_single; apply Hm.
  - eauto.
Qed.

Lemma tcpGRO_spec n isV6 groups bufs t u : (n < length origs)%nat -> (n < IdealBatchSize)%nat -> tcpInv n groups bufs t u ->
  packetIsGROCandidate (nth n origs []) canUDP = candidate true isV6 ->
  exists r bufs' t', tcpGRO native bufs offset n t isV6 = Some (r, bufs', t') /\
    outcomeOf (fun n groups => tcpInv n groups bufs' t' u) n groups r.
Proof.
  intros Hl Hn Hi Hc. destruct (lookup_lt_is_Some_2 bufs n) as [pb Epb]; [rewrite (gi_length _ _ _ _ _ _ _ _ _ _ _ _ _ _ Hi); lia|].
  assert (bufOk offset pb) as Hpb by (eapply Forall_lookup_1; [apply Hi|exact Epb]).
  assert (packetOf offset pb = nth n origs []) as Eq by (by eapply (gi_rest _ _ _ _ _ _ _ _ _ _ _ _ _ _ Hi)).
  assert (all_bytes (nth n origs [])) as Hb by (rewrite <- Eq; by apply packet_size).
  unfold tcpGRO. rewrite (packetAt_some offset _ _ _ Epb Hpb), Eq. cbn [mbind option_bind].
  destruct (tcpMeta_spec canUDP isV6 _ Hb Hc) as [-> | (m & -> & Hm)]; cbn [mbind option_bind]; [by do 3 eexists|].
  assert (atHand true n isV6 m) as Ha by done.
  assert (forall bufs t, tcpInv n groups bufs t u -> exists r bufs' t',
    (table ← (item ← newTcpItem (m_key m) (nth n origs []) (m_iphLen m) (m_hdrLen m) n; insertItem (m_key m) item t);
      Some (groResultTableInsert, bufs, table)) = Some (r, bufs', t') /\
    outcomeOf (fun n groups => tcpInv n groups bufs' t' u) n groups r) as Hins.
  { intros bufs0 t0 Hi0. destruct (tcpInsert_spec n isV6 m groups bufs0 t0 u Ha Hn Hi0) as (t' & -> & Hi'). cbn [mbind option_bind].
    do 3 eexists. split; [done|]. eexists. split; [|done]. by rewrite fmap_app. }
  destruct (itemsByFlow t !! m_key m) as [items|] eqn:E; [|by apply Hins].
  destruct (tcpItems_spec n isV6 m groups u items Ha (length items) bufs t) as (r & bufs' & t' & -> & Hr);
    [done|lia|intros; unfold itemsOf; by rewrite E|].
  cbn [mbind option_bind]. destruct r as [r|]; [|by apply Hins]. do 3 eexists. split; [done|]. apply Hr.
Qed.

(** ** UDP *)

Definition filled (u : groTable udpGROItem) : Prop := forall key, itemsByFlow u !! key <> Some [].

Lemma udpInsert_spec n isV6 m known groups bufs t u : atHand false n isV6 m -> (n < IdealBatchSize)%nat -> tcpInv n groups bufs t u -> filled u ->
  exists u', (item ← newUdpItem (m_key m) (nth n origs []) (m_iphLen m) n known; table ← insertItem (m_key m) item u;
      Some (groResultTableInsert, bufs, table)) = Some (groResultTableInsert, bufs, u') /\
    tcpInv (S n) (groups ++ [(n, [n])]) bufs t u' /\ filled u'.
Proof.
  intros Hm Hn Hi Hf. destruct (newUdpItem_spec n isV6 m known Hm Hn) as (x & -> & Hx & Ev). cbn [mbind option_bind].
  apply inv_swap in Hi.
  destruct (inv_insert _ _ _ _ _ _ _ _ _ n groups bufs u t (m_key m) x Hi) as (u' & -> & Hi' & Hf'); rewrite ?Ev; try done; [apply Hm| |].
  - by eapply mergeOf_single; apply Hm.
  - cbn [mbind option_bind]. exists u'. split; [done|]. split; [by apply inv_swap|]. intros key E.
    destruct (Hf' key) as [H|H]; [apply H; unfold itemsOf; by rewrite E|rewrite H in E; by apply (Hf key)].
Qed.

Lemma udpGRO_spec n isV6 groups bufs t u : (n < length origs)%nat -> (n < IdealBatchSize)%nat -> tcpInv n groups bufs t u -> filled u ->
  packetIsGROCandidate (nth n origs []) canUDP = candidate false isV6 ->
  exists r bufs' u', udpGRO native bufs offset n u isV6 = Some (r, bufs', u') /\
    outcomeOf (fun n groups => tcpInv n groups bufs' t u') n groups r /\ filled u'.
Proof.
  intros Hl Hn Hi Hf Hc. destruct (lookup_lt_is_Some_2 bufs n) as [pb Epb]; [rewrite (gi_length _ _ _ _ _ _ _ _ _ _ _ _ _ _ Hi); lia|].
  assert (bufOk offset pb) as Hpb by (eapply Forall_lookup_1; [apply Hi|exact Epb]).
  assert (packetOf offset pb = nth n origs []) as Eq by (by eapply (gi_rest _ _ _ _ _ _ _ _ _ _ _ _ _ _ Hi)).
  assert (all_bytes (nth n origs [])) as Hb by (rewrite <- Eq; by apply packet_size).
  unfold udpGRO. rewrite (packetAt_some offset _ _ _ Epb Hpb), Eq. cbn [mbind option_bind].
  destruct (udpMeta_spec canUDP isV6 _ Hb Hc) as [-> | (m & -> & Hm)]; cbn [mbind option_bind]; [by do 3 eexists|].
  assert (atHand false n isV6 m) as Ha by done.
  assert (forall known, exists r bufs' u',
    (item ← newUdpItem (m_key m) (nth n origs []) (m_iphLen m) n known; table ← insertItem (m_key m) item u;
      Some (groResultTableInsert, bufs, table)) = Some (r, bufs', u') /\
    outcomeOf (fun n groups => tcpInv n groups bufs' t u') n groups r /\ filled u') as Hins.
  { intros known. destruct (udpInsert_spec n isV6 m known groups bufs t u Ha Hn Hi Hf) as (u' & -> & Hi' & Hf'). cbn [mbind option_bind].
    do 3 eexists. split; [done|]. split; [|done]. eexists. split; [|done]. by rewrite fmap_app. }
  destruct (itemsByFlow u !! m_key m) as [items|] eqn:E; [|by apply Hins].
  destruct (last items) as [x|] eqn:El; [|by apply last_None in El as ->; destruct (Hf _ E)]. cbn [mbind option_bind].
  pose proof Hi as Hiu. apply inv_swap in Hiu.
  assert (itemsOf u (m_key m) !! pred (length items) = Some x) as Ei by (unfold itemsOf; rewrite E; by rewrite <- last_lookup).
  pose proof (fits_at _ _ _ _ _ _ _ _ _ _ _ _ _ _ (gi_A _ _ _ _ _ _ _ _ _ _ _ _ _ _ Hiu) Ei) as (Hx & Ek & _ & js & b & Hg & Eb & Hmo).
  cbn [v_key v_index udpView] in *.
  assert (k_isV6 (ui_key x) = isV6) as E6 by (rewrite Ek; apply Hm).
  assert (bufOk offset b) as Hb' by (eapply Forall_lookup_1; [apply Hi|exact Eb]).
  pose proof Hm as Hmt. rewrite <- E6 in Hmt.
  destruct (udpCan_spec native canUDP offset x m _ _ b bufs Hx Hmt Eb Hb' Hmo) as (can & -> & Hnp & Hcan). cbn [mbind option_bind].
  destruct can; [done|by apply Hins|]. destruct (Hcan eq_refl) as [Hmod Hgso].
  assert (ofFlow canUDP (udpView x) (nth n origs [])) as Hfl.
  { apply (atHand_flow _ _ m); cbn.
    - unfold v_isV6. cbn. by rewrite E6.
    - done.
    - rewrite (me_iph _ _ _ _ Hmt), (ui_iph _ Hx). pose proof (me_hdr _ _ _ _ Hmt) as Hh. cbv iota in Hh. unfold udphLen. lia. }
  assert (zlen (drop (v_hl (udpView x)) (nth n origs [])) <= ui_gsoSize x) as Hlen.
  { rewrite (me_gso _ _ _ _ Hmt) in Hgso. destruct (udp_hl x Hx) as (_ & _ & _ & U4). rewrite U4. unfold v_iph, v_isV6. cbn [v_key udpView].
    pose proof (me_hdr _ _ _ _ Hmt) as Hh. cbv iota in Hh. rewrite Hh in Hgso. done. }
  destruct (coalesceUDP_spec native canUDP offset x _ _ b bufs Hx Hfl Eb Hb' Hmo Hmod Hlen) as (r & x' & bufs' & Er & Hr).
  rewrite <- E6, Er. cbn [mbind option_bind]. destruct r; try (subst bufs'; by apply Hins).
  destruct Hr as (Hx' & Ek' & Eix' & b' & -> & Hb1 & Hmo').
  destruct (inv_grow _ _ _ _ _ _ _ _ _ n groups bufs u t (m_key m) (pred (length items)) x x' js (js ++ [n]) b' pb Hiu Hl Ei Hg)
      as (u' & groups' & Eu & Eg & Hi' & Hf'); try done.
  - cbn. by rewrite Ek'.
  - by rewrite (packets_joined coalesceAppend).
  - rewrite Ek', Ek. replace (length items - 1)%nat with (pred (length items)) by lia. rewrite Eu. cbn [mbind option_bind].
    do 3 eexists. split; [done|]. rewrite (list_insert_id _ _ _ Epb) in Hi'. split.
    + exists groups'. split; [done|]. by apply inv_swap.
    + intros key E'. destruct (Hf' key) as [|]; [done|by apply (Hf key)].
Qed.

End Loop.
