(* ===== verification/GroAccount.v ===== *)
(** The accounting at the end of [handleGRO]: the lengths and checksums of a
    merged packet, and the virtio header in front of it. *)
From S2P Require Import Prelude Checksum Offload GsoSpec Gro GroSpec GroCoalesce GroInvariant GroLoop.

(** The fold of a sum may be summed on. *)
Lemma ones_fold a b : 0 <= a -> 0 <= b -> ones_complement (ones_complement a + b) = ones_complement (a + b).
Proof.
  intros Ha Hb. unfold ones_complement at 2. destruct (Z.eqb_spec a 0) as [->|Hne]; [done|].
  pose proof (Z.mod_pos_bound (a - 1) 65535 ltac:(lia)). pose proof (Z.div_mod (a - 1) 65535 ltac:(lia)).
  unfold ones_complement. destruct (Z.eqb_spec ((a - 1) mod 65535 + 1 + b) 0); [lia|]. destruct (Z.eqb_spec (a + b) 0); [lia|].
  f_equal. replace (a + b - 1) with ((a - 1) mod 65535 + 1 + b - 1 + (a - 1) / 65535 * 65535) by lia. by rewrite Z.mod_add by lia.
Qed.

Lemma copy_at_front (a h p : bytes) : length a = length h -> copy_at (a ++ p) 0 h = h ++ p.
Proof.
  intros E. unfold copy_at. rewrite length_app, take_0, Nat.min_r, take_ge by lia. cbn [app Nat.add].
  by rewrite drop_app_length'.
Qed.

Lemma putBE_same (b : bytes) n off x b' : written b b' off (be_enc n x) -> all_bytes b -> length b' = length b /\ all_bytes b'.
Proof. intros Hw Hb. split; [apply Hw|]. eapply written_bytes; [done|done|apply be_enc_bytes]. Qed.

Section Account.
Context (native : endian) (canUDP : bool) (offset : nat).

Definition csumOff (v : view) : nat := if v_tcp v then 16 else 6.

(** The header that is written for a merged packet. *)
Definition hdrOf (v : view) : virtioNetHdr :=
  mkHdr VIRTIO_NET_HDR_F_NEEDS_CSUM
    (if v_tcp v then if v_isV6 v then VIRTIO_NET_HDR_GSO_TCPV6 else VIRTIO_NET_HDR_GSO_TCPV4 else VIRTIO_NET_HDR_GSO_UDP_L4)
    (Z.of_nat (v_hl v)) (v_gso v) (Z.of_nat (v_iph v)) (Z.of_nat (csumOff v)).

(** The bytes that the accounting changes. *)
Definition ipAccounted (isV6 : bool) (k : nat) : Prop :=
  if isV6 then (4 <= k < 6)%nat else (2 <= k < 4 \/ 10 <= k < 12)%nat.
Definition accountedAt (v : view) (k : nat) : Prop :=
  ipAccounted (v_isV6 v) k \/ (v_tcp v = false /\ v_iph v + 4 <= k < v_iph v + 6)%nat \/
  (v_iph v + csumOff v <= k < v_iph v + csumOff v + 2)%nat.

(** The lengths are those of the merged packet, the checksum of the IPv4 header
    verifies, and so does that of the transport once the receiver has completed
    it, as [gsoNoneChecksum] does. *)
Record accounted (v : view) (pkt pkt' : bytes) : Prop := {
  ac_length : length pkt' = length pkt;
  ac_bytes : all_bytes pkt';
  ac_same : forall k, ~ accountedAt v k -> pkt' !! k = pkt !! k;
  ac_ip : if v_isV6 v then be_dec (slice 4 6 pkt') = zlen pkt' - Z.of_nat (v_iph v)
          else be_dec (slice 2 4 pkt') = zlen pkt' /\ checksum native (take (v_iph v) pkt') 0 = 65535;
  ac_udp : v_tcp v = false -> be_dec (slice (v_iph v + 4) (v_iph v + 6) pkt') = zlen pkt' - Z.of_nat (v_iph v);
  ac_csum : exists p, gsoNoneChecksum native pkt' (Z.of_nat (v_iph v)) (Z.of_nat (csumOff v)) = Some p /\ valid native v p }.

Lemma accountIP_spec isV6 pkt : all_bytes pkt -> (iphOf isV6 <= length pkt)%nat -> zlen pkt < 65536 ->
  exists pkt', accountIP native pkt (Z.of_nat (iphOf isV6)) isV6 = Some pkt' /\ length pkt' = length pkt /\ all_bytes pkt' /\
    (forall k, ~ ipAccounted isV6 k -> pkt' !! k = pkt !! k) /\
    if isV6 then be_dec (slice 4 6 pkt') = zlen pkt' - Z.of_nat (iphOf isV6)
    else be_dec (slice 2 4 pkt') = zlen pkt' /\ checksum native (take (iphOf isV6) pkt') 0 = 65535.
Proof.
  intros Hb Hl Hs. unfold accountIP. destruct isV6; cbn [iphOf] in *.
  - rewrite (u16_small (zlen pkt)), (u16_small (Z.of_nat 40)), u16_small by lia.
    destruct (putBE_written 2 pkt 4 (zlen pkt - Z.of_nat 40) ltac:(lia)) as (p & -> & W).
    exists p. split; [done|]. destruct (putBE_same _ _ _ _ _ W Hb) as [L B]. split_and!; [done..| |].
    + intros k Hk. apply W. cbn in *. rewrite ?length_be_enc. lia.
    + destruct W as (_ & S & _). rewrite length_be_enc in S. cbn [Nat.add] in S. rewrite S, be_dec_enc2 by lia. lia.
  - destruct (putByte_zero pkt 10) as (p1 & -> & L1 & B1 & Z1 & K1); [lia|]. cbn [mbind option_bind].
    destruct (putByte_zero p1 11) as (p2 & -> & L2 & B2 & Z2 & K2); [lia|]. cbn [mbind option_bind].
    rewrite u16_small by lia. destruct (putBE_written 2 p2 2 (zlen p2) ltac:(lia)) as (p3 & -> & W3). cbn [mbind option_bind].
    destruct (putBE_same _ _ _ _ _ W3 (B2 (B1 Hb))) as [L3 B3]. pose proof W3 as (_ & S3 & K3). rewrite length_be_enc in *. cbn [Nat.add] in S3, K3.
    rewrite Nat2Z.id, sliceOf_some by lia. cbn [mbind option_bind].
    destruct (putBE_written 2 p3 10 (not16 (checksum native (slice 0 20 p3) 0)) ltac:(lia)) as (p4 & -> & W4).
    destruct (putBE_same _ _ _ _ _ W4 B3) as [L4 B4]. pose proof W4 as (_ & S4 & K4). rewrite length_be_enc in *. cbn [Nat.add] in S4, K4.
    exists p4. split; [done|]. split; [lia|]. split; [done|]. split_and!.
    + intros k Hk. cbn in Hk. rewrite K4, K3, K2, K1 by lia. done.
    + rewrite (slice_same 2 4 p3 p4) by (intros; apply K4; lia). rewrite S3, be_dec_enc2 by lia. lia.
    + assert (take 20 p4 = slice 0 20 p4) as -> by done.
      eapply (checksum_verifies native (slice 0 20 p3) _ 10); [by apply slice_bytes|lia| |by exists 5%nat|rewrite length_slice by lia; lia|].
      * by apply (written_within _ _ _ _ 0 20 W4); rewrite ?length_be_enc; lia.
      * apply slice_two; rewrite slice_lookup, decide_True by lia; cbn [Nat.add]; rewrite K3 by lia; [by rewrite K2|done].
Qed.

(** The field holds the folded sum of the pseudo header: completing it gives a
    valid packet. *)
Lemma completed v pkt psum : all_bytes pkt -> 0 <= psum < 2 ^ 64 -> (v_iph v + csumOff v + 2 <= length pkt)%nat -> zlen pkt < 65536 ->
  pseudoOf native (v_proto v) (v_isV6 v) pkt (u16 (zlen pkt - Z.of_nat (v_iph v))) = Some psum ->
  be_dec (slice (v_iph v + csumOff v) (v_iph v + csumOff v + 2) pkt) = checksum native [] psum ->
  exists p, gsoNoneChecksum native pkt (Z.of_nat (v_iph v)) (Z.of_nat (csumOff v)) = Some p /\ valid native v p.
Proof.
  intros Hb Hps Hl Hs Ep Ef. set (i := v_iph v) in *. set (at_ := (i + csumOff v)%nat) in *.
  assert (ipMin (v_isV6 v) = i) as Emin by (unfold i, v_iph; by destruct (v_isV6 v)).
  assert (0 <= checksum native [] psum < 65536) as Hc.
  { rewrite checksum_ones by done. pose proof (ones_range (psum + sum16 [])) as Hr. cbn in *. lia. }
  unfold gsoNoneChecksum. rewrite u16_small by (unfold at_ in *; lia). replace (Z.to_nat (Z.of_nat i + Z.of_nat (csumOff v))) with at_ by (unfold at_; lia).
  rewrite getBE_some by lia. cbn [mbind option_bind]. rewrite Ef.
  destruct (putByte_zero pkt at_) as (p1 & -> & L1 & B1 & Z1 & K1); [lia|]. cbn [mbind option_bind].
  destruct (putByte_zero p1 (S at_)) as (p2 & -> & L2 & B2 & Z2 & K2); [lia|]. cbn [mbind option_bind].
  rewrite Nat2Z.id, sliceFrom_some by (unfold at_ in *; lia). cbn [mbind option_bind].
  assert (all_bytes p2) as Hb2 by auto. assert (all_bytes (drop i p2)) as Hbd by by apply Forall_drop.
  destruct (putBE_written 2 p2 at_ (not16 (checksum native (drop i p2) (checksum native [] psum))) ltac:(lia)) as (p3 & -> & W3).
  exists p3. split; [done|]. destruct (putBE_same _ _ _ _ _ W3 Hb2) as [L3 B3]. pose proof W3 as (_ & _ & K3). rewrite length_be_enc in K3.
  assert (length p3 = length pkt) as L by lia. unfold valid, checksumValid. fold i. rewrite L.
  rewrite (pseudoOf_same native (v_proto v) (v_isV6 v) pkt p3); [|by left|].
  2:{ intros k Hk. rewrite K3, K2, K1 by (unfold at_; lia). done. }
  rewrite Ep. cbn [mbind option_bind]. rewrite Nat2Z.id, sliceFrom_some by (unfold at_ in *; lia). cbn [mbind option_bind].
  assert (checksum native (drop i p3) (checksum native [] psum) = 65535) as Hv.
  { assert (drop i p2 = slice i (length p2) p2) as Ed2 by (unfold slice; rewrite take_ge; [done|rewrite length_drop; lia]).
    assert (drop i p3 = slice i (length p2) p3) as Ed3 by (unfold slice; rewrite take_ge; [done|rewrite length_drop; lia]).
    eapply (checksum_verifies native (drop i p2) _ (csumOff v)); [done|lia| | | |].
    - rewrite Ed3, Ed2 at 1. replace (csumOff v) with (at_ - i)%nat by (unfold at_; lia). apply written_within; rewrite ?length_be_enc; [done|unfold at_; lia|lia|lia].
    - unfold csumOff. destruct (v_tcp v); [by exists 8%nat|by exists 3%nat].
    - rewrite length_drop. unfold at_ in *. lia.
    - apply slice_two; rewrite lookup_drop; [rewrite K2 by (unfold at_; lia); exact Z1|].
      replace (i + S (csumOff v))%nat with (S at_) by (unfold at_; lia). exact Z2. }
  assert (checksum native (drop i p3) psum = 65535) as ->; [|done].
  assert (all_bytes (drop i p3)) as Hb3 by by apply Forall_drop.
  rewrite !checksum_ones in Hv by (done || lia). rewrite checksum_ones by done. cbn [sum16] in Hv. rewrite Z.add_0_r in Hv.
  rewrite ones_fold in Hv; [done|lia|by apply sum16_nonneg].
Qed.

Lemma hdrBytes_bytes h : is_byte (vh_flags h) -> is_byte (vh_gsoType h) -> all_bytes (hdrBytes native h).
Proof.
  intros H1 H2. unfold hdrBytes. repeat (apply Forall_app; split); try apply native_enc_bytes.
  apply Forall_cons. split; [done|]. by apply Forall_singleton.
Qed.

Definition headersFit (v : view) : Prop := (v_iph v + (if v_tcp v then 20 else 8) <= v_hl v <= 100)%nat.

(** The UDP length and the folded sum of the pseudo header. *)
Lemma accountTransport_spec v pkt : headersFit v -> all_bytes pkt -> (v_hl v <= length pkt)%nat -> zlen pkt < 65536 ->
  exists p1 psum pkt',
    (if v_proto v =? IPPROTO_UDP
     then l ← sliceFrom pkt (Z.to_nat (Z.of_nat (v_iph v))); putBE 2 pkt (Z.to_nat (u8 (Z.of_nat (v_iph v) + 4))) (u16 (zlen l))
     else Some pkt) = Some p1 /\
    pseudoOf native (v_proto v) (v_isV6 v) p1 (u16 (zlen p1 - Z.of_nat (v_iph v))) = Some psum /\
    putBE 2 p1 (Z.to_nat (u16 (Z.of_nat (v_iph v) + Z.of_nat (csumOff v)))) (checksum native [] psum) = Some pkt' /\
    length pkt' = length pkt /\ all_bytes pkt' /\
    (forall k, ~ (v_tcp v = false /\ v_iph v + 4 <= k < v_iph v + 6)%nat ->
       ~ (v_iph v + csumOff v <= k < v_iph v + csumOff v + 2)%nat -> pkt' !! k = pkt !! k) /\
    (v_tcp v = false -> be_dec (slice (v_iph v + 4) (v_iph v + 6) pkt') = zlen pkt' - Z.of_nat (v_iph v)) /\
    exists p, gsoNoneChecksum native pkt' (Z.of_nat (v_iph v)) (Z.of_nat (csumOff v)) = Some p /\ valid native v p.
Proof.
  intros Hf Hb Hl Hs. unfold headersFit in Hf. set (i := v_iph v) in *.
  assert (ipMin (v_isV6 v) = i) as Emin by (unfold i, v_iph; by destruct (v_isV6 v)).
  assert (i + csumOff v + 2 <= length pkt)%nat as Hat by (unfold csumOff; destruct (v_tcp v); lia).
  rewrite Nat2Z.id. rewrite !u16_small by lia.
  assert (exists p1, (if v_proto v =? IPPROTO_UDP then l ← sliceFrom pkt i; putBE 2 pkt (Z.to_nat (u8 (Z.of_nat i + 4))) (u16 (zlen l)) else Some pkt) = Some p1 /\
    length p1 = length pkt /\ all_bytes p1 /\ (forall k, ~ (v_tcp v = false /\ i + 4 <= k < i + 6)%nat -> p1 !! k = pkt !! k) /\
    (v_tcp v = false -> be_dec (slice (i + 4) (i + 6) p1) = zlen p1 - Z.of_nat i)) as (p1 & -> & L1 & B1 & K1 & U1).
  { unfold v_proto. destruct (v_tcp v); cbn [IPPROTO_TCP IPPROTO_UDP Z.eqb Pos.eqb]; [by exists pkt|].
    rewrite sliceFrom_some, u8_small by lia. cbn [mbind option_bind]. rewrite length_drop, u16_small by lia.
    replace (Z.to_nat (Z.of_nat i + 4)) with (i + 4)%nat by lia.
    destruct (putBE_written 2 pkt (i + 4) (Z.of_nat (length pkt - i)) ltac:(lia)) as (p & -> & W). exists p. split; [done|].
    destruct (putBE_same _ _ _ _ _ W Hb) as [L B]. destruct W as (_ & S & K). rewrite length_be_enc in *. split_and!; [done..| |].
    - intros k Hk. apply K. lia.
    - intros _. replace (i + 6)%nat with (i + 4 + 2)%nat by lia. rewrite S, be_dec_enc2 by lia. lia. }
  destruct (pseudoOf_some native (v_proto v) (v_isV6 v) p1 (u16 (zlen p1 - Z.of_nat i))) as (psum & Ep & Hps);
    [done|by destruct v as [[] ?]|lia|].
  assert (0 <= checksum native [] psum < 65536) as Hc.
  { rewrite checksum_ones by done. pose proof (ones_range (psum + sum16 [])) as Hr. cbn in *. lia. }
  replace (Z.to_nat (Z.of_nat i + Z.of_nat (csumOff v))) with (i + csumOff v)%nat by lia.
  destruct (putBE_written 2 p1 (i + csumOff v) (checksum native [] psum) ltac:(lia)) as (p2 & E2 & W).
  exists p1, psum, p2. destruct (putBE_same _ _ _ _ _ W B1) as [L2 B2]. pose proof W as (_ & S & K). rewrite length_be_enc in *.
  split_and!; [done|done|done|lia|done| | |].
  - intros k H1 H2. rewrite K by lia. by apply K1.
  - intros Eu. rewrite L2, <- (U1 Eu). f_equal. apply slice_same. intros k Hk. apply K. unfold csumOff. rewrite Eu. lia.
  - apply (completed v p2 psum); [done|done|lia|lia| |].
    + rewrite L2, (pseudoOf_same _ _ _ p1 p2); [done|by left|]. intros k Hk. apply K. lia.
    + fold i. rewrite S. by apply be_dec_enc2.
Qed.

Lemma account_spec v qs b : mergeOf native canUDP v qs (packetOf offset b) -> bufOk offset b -> headersFit v ->
  exists b' pkt', account native (hdrOf v) (v_proto v) (Z.of_nat (v_iph v)) (v_isV6 v) offset b = Some (Some b') /\
    bufOk offset b' /\ drop (offset - virtioNetHdrLen) (b_data b') = hdrBytes native (hdrOf v) ++ pkt' /\
    accounted v (packetOf offset b) pkt'.
Proof.
  intros Hm Hb Hf. set (pkt := packetOf offset b). pose proof (packet_size offset b Hb) as [Hs Hbp]. fold pkt in Hs, Hbp.
  pose proof (mergeOf_size _ _ _ _ _ Hm) as [_ Hl]. fold pkt in Hl. pose proof (length_packet offset b Hb) as Hlb. fold pkt in Hlb.
  pose proof Hb as [_ _ _ Ho]. assert (v_iph v <= v_hl v)%nat as Hi by (unfold headersFit in Hf; lia).
  unfold account. rewrite (sliceFrom_some (b_data b)) by lia. fold (packetOf offset b). fold pkt. cbn [mbind option_bind].
  destruct (accountIP_spec (v_isV6 v) pkt) as (p1 & E1 & L1 & B1 & K1 & I1); [done|unfold v_iph in Hi; lia|lia|].
  change (iphOf (v_isV6 v)) with (v_iph v) in *. rewrite E1. cbn [mbind option_bind].
  set (data := take offset (b_data b) ++ p1).
  assert (drop (offset - virtioNetHdrLen) data = drop (offset - virtioNetHdrLen) (take offset (b_data b)) ++ p1) as Ed
    by (unfold data; rewrite drop_app_le by (rewrite length_take; lia); done).
  assert (length (drop (offset - virtioNetHdrLen) (take offset (b_data b))) = virtioNetHdrLen) as Elf by (rewrite length_drop, length_take; lia).
  rewrite sliceFrom_some by (unfold data; rewrite length_app, length_take; lia). cbn [mbind option_bind].
  assert (length (hdrBytes native (hdrOf v)) = virtioNetHdrLen) as Elh by (unfold hdrBytes; rewrite !length_app, !length_native_enc; done).
  unfold hdrEncode. rewrite Ed, length_app, Elf.
  destruct (Nat.ltb_spec (virtioNetHdrLen + length p1) virtioNetHdrLen); [lia|]. rewrite copy_at_front by (by rewrite Elf).
  set (data2 := take (offset - virtioNetHdrLen) data ++ hdrBytes native (hdrOf v) ++ p1).
  assert (take (offset - virtioNetHdrLen) data = take (offset - virtioNetHdrLen) (b_data b)) as Etk.
  { unfold data. rewrite take_app_le by (rewrite length_take; lia). rewrite take_take. f_equal. lia. }
  assert (length (take (offset - virtioNetHdrLen) data) = offset - virtioNetHdrLen)%nat as Elt by (rewrite Etk, length_take; lia).
  assert (drop offset data2 = p1 /\ take offset data2 = take (offset - virtioNetHdrLen) (b_data b) ++ hdrBytes native (hdrOf v)) as [Ed2 Et2].
  { unfold data2. rewrite app_assoc. split.
    - rewrite drop_app_length'; [done|]. rewrite length_app, Elt, Elh. lia.
    - rewrite take_app_length'; [by rewrite Etk|]. rewrite length_app, Elt, Elh. lia. }
  rewrite (sliceFrom_some data2) by (unfold data2; rewrite !length_app, Elt, Elh; lia). cbn [mbind option_bind]. rewrite Ed2.
  destruct (accountTransport_spec v p1) as (p2 & psum & p3 & -> & Eps & E3 & L3 & B3 & K3 & U3 & C3); [done|done|lia|lia|].
  cbn [mbind option_bind]. rewrite Eps. cbn [mbind option_bind]. cbn [hdrOf vh_csumStart vh_csumOffset]. rewrite E3. cbn [mbind option_bind].
  rewrite Et2.
  exists (mkBuf ((take (offset - virtioNetHdrLen) (b_data b) ++ hdrBytes native (hdrOf v)) ++ p3) (b_cap b)), p3.
  split; [done|]. unfold headersFit in Hf. split; [|split].
  - constructor; cbn [b_data b_cap]; [|rewrite !length_app, length_take, Elh; destruct Hb; lia|by destruct Hb|done].
    apply Forall_app. split; [apply Forall_app; split; [apply Forall_take, Hb|]|done].
    apply hdrBytes_bytes; [done|]. unfold hdrOf. cbn [vh_gsoType]. by destruct (v_tcp v), (v_isV6 v).
  - cbn [b_data]. rewrite <- app_assoc, drop_app_length'; [done|]. rewrite length_take. lia.
  - constructor; [lia|done| | |done|done].
    2:{ pose proof (iphOf_bounds (v_isV6 v)) as Hib. change (iphOf (v_isV6 v)) with (v_iph v) in Hib. rewrite L3.
        assert (forall lo hi, (hi <= v_iph v)%nat -> slice lo hi p3 = slice lo hi p1) as Hsl.
        { intros lo hi Hhi. apply slice_same. intros k Hk. apply K3; unfold csumOff; destruct (v_tcp v); lia. }
        destruct (v_isV6 v); [by rewrite Hsl by lia|]. rewrite Hsl by lia. split; [apply I1|].
        assert (take (v_iph v) p3 = take (v_iph v) p1) as ->; [|apply I1].
        apply list_eq. intros k. destruct (decide (k < v_iph v)%nat); [|by rewrite !lookup_take_ge by lia].
        rewrite !lookup_take_lt by lia. apply K3; unfold csumOff; destruct (v_tcp v); lia. }
    intros k Hk. rewrite K3, K1; [done|..]; intros ?; apply Hk; unfold accountedAt; auto.
Qed.

End Account.
