(* ===== verification/GroWrite.v ===== *)
(** The whole of [handleGRO], and [Write] of the TUN device. *)
From S2P Require Import Prelude Checksum Offload GsoSpec Gro GroSpec GroCoalesce GroInvariant GroLoop GroAccount.

(** ** What is written for a group of packets *)

Section Emission.
Context (native : endian) (canUDP : bool) (origs : list bytes).

(** A packet as it came, behind a header that asks for nothing; or packets merged
    into one, behind the header that tells how to part it. *)
Definition emission (js : list nat) (out : bytes) : Prop :=
  (exists j, js = [j] /\ out = replicate virtioNetHdrLen 0 ++ nth j origs []) \/
  (exists v pkt pkt', (2 <= length js)%nat /\ mergeOf native canUDP v (packets origs js) pkt /\ headersFit v /\
    zlen pkt' <= maxUint16 /\ accounted native v pkt pkt' /\ out = hdrBytes native (hdrOf v) ++ pkt').

End Emission.

Section Finish.
Context (native : endian) (canUDP : bool) (offset : nat) (origs : list bytes).

Notation bufOk := (bufOk offset).
Notation packetOf := (packetOf offset).
Notation mergeOf := (mergeOf native canUDP).
Notation holdsMerge := (holdsMerge native canUDP offset origs).
Notation emission := (emission native canUDP origs).
Abbreviation groups_t := (list (nat * list nat)).

Definition written_at (b : buf) : bytes := drop (offset - virtioNetHdrLen) (b_data b).

Definition emitted (bufs : list buf) (k : nat) (js : list nat) : Prop := exists b, bufs !! k = Some b /\ emission js (written_at b).

Lemma single_emitted bufs k js : Forall bufOk bufs -> single offset origs bufs k js -> emitted bufs k js.
Proof.
  intros Hb (j & b & -> & Eb & Ep & Hp). exists b. split; [done|]. left. exists j. split; [done|]. rewrite <- Ep.
  assert (bufOk b) as [_ Hl _ Ho] by (by eapply Forall_lookup_1). unfold written_at, GroCoalesce.packetOf. rewrite <- Hp.
  rewrite <- (take_drop virtioNetHdrLen (drop (offset - virtioNetHdrLen) (b_data b))), drop_drop. unfold slice. f_equal; f_equal; lia.
Qed.

(** The accounting is about the views [vs] still. *)
Record pending (groups : groups_t) (bufs : list buf) (vs : list view) : Prop := {
  pd_length : length bufs = length origs;
  pd_bufs : Forall bufOk bufs;
  pd_nodup : NoDup groups.*1;
  pd_views : Forall (fun v => headersFit v /\ 0 <= v_merged v /\ holdsMerge groups bufs v) vs;
  pd_distinct : NoDup (v_index <$> vs);
  pd_rest : forall k js, (k, js) ∈ groups -> k ∈ v_index <$> vs \/ emitted bufs k js }.

Lemma pending_step groups bufs v vs js b' : pending groups bufs (v :: vs) -> (v_index v, js) ∈ groups -> bufOk b' ->
  emission js (written_at b') -> pending groups (<[v_index v := b']> bufs) vs.
Proof.
  intros [H1 H2 H3 H4 H5 H6] Hg Hb' He. apply Forall_cons in H4 as [(Hf & Hv & js0 & b & Hg0 & Eb & Hm) H4].
  rewrite fmap_cons in H5, H6. apply NoDup_cons in H5 as [Hn Hd].
  assert (changedOnly (v_index v) groups bufs groups (<[v_index v := b']> bufs)) as Hc
    by (intros k js1 Hk Hin; split; [done|by apply list_lookup_insert_ne]).
  constructor; [by rewrite length_insert|by apply Forall_insert|done| |done|].
  - apply Forall_forall. intros w Hw. rewrite Forall_forall in H4. destruct (H4 w Hw) as (Hfw & Hvw & Hmw). split_and!; [done..|].
    eapply holdsMerge_frame; [exact Hc| |done]. intros E. apply Hn. rewrite <- E. by apply list_elem_of_fmap_2.
  - intros k js1 Hk. destruct (decide (k = v_index v)) as [->|Hne].
    + right. rewrite (group_unique _ _ _ _ H3 Hk Hg). exists b'. split; [|done]. apply list_lookup_insert_eq. by eapply lookup_lt_Some.
    + destruct (H6 _ _ Hk) as [Hin|(b1 & Eb1 & He1)].
      * left. apply elem_of_cons in Hin as [|]; done.
      * right. exists b1. by rewrite list_lookup_insert_ne.
Qed.

(** The loop over the items of a table. *)
Lemma applyItems_spec {item} (viewF : item -> view) (f : item -> buf -> option (option buf)) groups rest items :
  (forall x b qs, x ∈ items -> mergeOf (viewF x) qs (packetOf b) -> bufOk b -> headersFit (viewF x) ->
    exists b' pkt', f x b = Some (Some b') /\ bufOk b' /\ written_at b' = hdrBytes native (hdrOf (viewF x)) ++ pkt' /\
      accounted native (viewF x) (packetOf b) pkt') ->
  forall bufs, pending groups bufs ((viewF <$> items) ++ rest) ->
  exists bufs', applyItems (fun x => 0 <? v_merged (viewF x)) (fun x => v_index (viewF x)) f offset items bufs = Some (bufs', true) /\
    pending groups bufs' rest.
Proof.
  induction items as [|x items IH]; intros Hf bufs Hp; cbn [applyItems]; [by exists bufs|].
  assert (forall bufs, pending groups bufs ((viewF <$> items) ++ rest) -> exists bufs',
    applyItems (fun x => 0 <? v_merged (viewF x)) (fun x => v_index (viewF x)) f offset items bufs = Some (bufs', true) /\
    pending groups bufs' rest) as Hgo by (apply IH; intros y b qs Hy; apply Hf; by right).
  rewrite fmap_cons in Hp. cbn [app] in Hp. pose proof (pd_views _ _ _ Hp) as Hv. apply Forall_cons in Hv as [(Hfit & H0 & js & b & Hg & Eb & Hm) _].
  assert (bufOk b) as Hb by (eapply Forall_lookup_1; [apply (pd_bufs _ _ _ Hp)|exact Eb]).
  pose proof (mo_count _ _ _ _ _ Hm) as Hcnt. unfold packets in Hcnt. rewrite length_fmap in Hcnt.
  destruct (Z.ltb_spec 0 (v_merged (viewF x))) as [Hpos|Hz].
  - rewrite Eb. cbn [mbind option_bind]. destruct (Hf x b (packets origs js)) as (b' & pkt' & -> & Hb' & Ew & Ha); [by left|done..|].
    cbn [mbind option_bind]. apply Hgo. eapply pending_step; [exact Hp|exact Hg|exact Hb'|]. right.
    exists (viewF x), (packetOf b), pkt'. pose proof (packet_size offset b Hb) as [Hs _]. pose proof (ac_length _ _ _ _ Ha) as Hl.
    split_and!; [lia|done|done|unfold maxUint16; lia|done|done].
  - destruct (clearHdr_spec offset bufs (v_index (viewF x)) b Eb Hb) as (b' & -> & Hb' & Ep & Hpl). cbn [mbind option_bind].
    apply Hgo. eapply pending_step; [exact Hp|exact Hg|exact Hb'|]. destruct js as [|j [|]]; cbn [length] in Hcnt; [lia| |lia].
    assert (emitted [b'] 0 [j]) as (b0 & [= <-] & He); [|done]. apply single_emitted; [by apply Forall_singleton|].
    exists j, b'. split_and!; [done|done| |done]. rewrite Ep. by apply (mo_single _ _ _ _ _ Hm).
Qed.

(** ** The items of both tables *)

Lemma range_perm {item} order (t : groTable item) : exists flows, rangeItems order t = concat flows.*2 /\ flows ≡ₚ map_to_list (itemsByFlow t).
Proof. unfold rangeItems. eexists. split; [done|]. by apply pickOrder_all. Qed.

Lemma range_nodup {item} (tcp : bool) (viewF : item -> view) ok n groups bufs (t : groTable item) order : NoDup groups.*1 ->
  tableOk native canUDP offset origs tcp viewF ok n groups bufs t -> NoDup (v_index <$> (viewF <$> rangeItems order t)).
Proof.
  intros Hd Ht. destruct (range_perm order t) as (flows & -> & Hp).
  assert (NoDup flows.*1) as Hk by (rewrite Hp; apply NoDup_fst_map_to_list).
  assert (Forall (fun '(key, items) => itemsByFlow t !! key = Some items) flows) as Hf.
  { apply Forall_forall. intros [key items]. rewrite Hp. by apply elem_of_map_to_list. }
  clear Hp. induction flows as [|[key items] flows IH]; [constructor|]. rewrite fmap_cons in *. cbn [concat fst snd] in *.
  apply NoDup_cons in Hk as [Hn Hk]. apply Forall_cons in Hf as [E Hf]. rewrite !fmap_app. apply NoDup_app.
  destruct (to_items _ _ _ _ _ _ _ _ _ _ _ Ht _ _ E) as [Hfit Hdi]. split_and!; [|intros k Hk1 Hk2|by apply IH].
  - by rewrite <- list_fmap_compose.
  - apply list_elem_of_fmap in Hk1 as (v1 & -> & (x & -> & Hx)%list_elem_of_fmap).
    apply list_elem_of_fmap in Hk2 as (v2 & Ei & (y & -> & Hy)%list_elem_of_fmap).
    apply list_elem_of_In, in_concat in Hy as (items' & Hi' & Hy). apply list_elem_of_In in Hi', Hy.
    apply list_elem_of_fmap in Hi' as ([key' items''] & -> & Hin). cbn in Hy.
    rewrite Forall_forall in Hf. pose proof (Hf _ Hin) as E'. cbn in E'.
    destruct (to_items _ _ _ _ _ _ _ _ _ _ _ Ht _ _ E') as [Hfit' _]. rewrite Forall_forall in Hfit, Hfit'.
    destruct (Hfit _ Hx) as (_ & K1 & _ & M1). destruct (Hfit' _ Hy) as (_ & K2 & _ & M2).
    destruct (merge_unique _ _ _ _ _ _ _ _ Hd M1 M2 Ei) as [_ EK]. rewrite K1, K2 in EK.
    apply Hn. rewrite EK. apply (list_elem_of_fmap_2 fst) in Hin. exact Hin.
Qed.

Lemma range_fits {item} (tcp : bool) (viewF : item -> view) ok n groups bufs (t : groTable item) order :
  tableOk native canUDP offset origs tcp viewF ok n groups bufs t ->
  Forall (fun x => itemFits native canUDP offset origs tcp viewF ok groups bufs (v_key (viewF x)) x) (rangeItems order t).
Proof.
  intros Ht. destruct (range_perm order t) as (flows & -> & Hp). apply Forall_forall. intros x Hx.
  apply list_elem_of_In, in_concat in Hx as (items & Hi & Hx). apply list_elem_of_In in Hi, Hx.
  apply list_elem_of_fmap in Hi as ([key items'] & -> & Hin). rewrite Hp in Hin. apply elem_of_map_to_list in Hin.
  destruct (to_items _ _ _ _ _ _ _ _ _ _ _ Ht _ _ Hin) as [Hfit _]. rewrite Forall_forall in Hfit.
  pose proof (Hfit _ Hx) as Hf. destruct (Hf) as (_ & K & _). by rewrite K.
Qed.

Lemma range_live {item} (viewF : item -> view) (t : groTable item) order k : liveIn viewF t k -> k ∈ v_index <$> (viewF <$> rangeItems order t).
Proof.
  intros (key & items & E & Hk). destruct (range_perm order t) as (flows & -> & Hp). unfold indices in Hk.
  apply list_elem_of_fmap in Hk as (x & -> & Hx). apply (list_elem_of_fmap_2 v_index), (list_elem_of_fmap_2 viewF).
  apply list_elem_of_In, in_concat. exists items. split; apply list_elem_of_In; [|done].
  apply list_elem_of_fmap. exists (key, items). split; [done|]. rewrite Hp. by apply elem_of_map_to_list.
Qed.

(** ** The loop over the packets *)

Notation tcpInv := (groInv native canUDP offset origs true tcpView tcpItemOk udpView udpItemOk).

Definition loopInv (n : nat) (s : groState) : Prop :=
  exists groups, g_toWrite s = groups.*1 /\ tcpInv n groups (g_bufs s) (g_tcp s) (g_udp s) /\ filled (g_udp s).

Lemma outcome_next (toWrite : list nat) n groups r bufs t u : toWrite = groups.*1 -> (n < length origs)%nat -> filled u ->
  outcomeOf (fun n groups => tcpInv n groups bufs t u) n groups r ->
  exists s, match r with
    | groResultNoop => bufs ← clearHdr bufs n offset; Some (Some (mkGro bufs t u (toWrite ++ [n])))
    | groResultTableInsert => Some (Some (mkGro bufs t u (toWrite ++ [n])))
    | groResultCoalesced => Some (Some (mkGro bufs t u toWrite))
    end = Some (Some s) /\ loopInv (S n) s.
Proof.
  intros -> Hn Hf Ho. destruct r; cbn [outcomeOf] in Ho.
  - destruct (inv_noop _ _ _ _ _ _ _ _ _ n groups bufs t u Ho Hn) as (bufs' & -> & Hi). cbn [mbind option_bind].
    eexists. split; [done|]. eexists. cbn. split; [|done]. by rewrite fmap_app.
  - destruct Ho as (groups' & Eg & Hi). eexists. split; [done|]. by exists groups'.
  - destruct Ho as (groups' & Eg & Hi). eexists. split; [done|]. by exists groups'.
Qed.

Lemma groStep_spec n s : loopInv n s -> (n < length origs)%nat -> (n < IdealBatchSize)%nat ->
  exists r, groStep native offset canUDP s n = Some r /\
    match r with None => nth n origs [] = [] | Some s' => nth n origs [] <> [] /\ loopInv (S n) s' end.
Proof.
  intros (groups & Ew & Hi & Hf) Hn Hn'. destruct s as [bufs t u toWrite]. cbn [g_toWrite g_bufs g_tcp g_udp] in *.
  destruct (lookup_lt_is_Some_2 bufs n) as [b Eb]; [rewrite (gi_length _ _ _ _ _ _ _ _ _ _ _ _ _ _ Hi); lia|].
  assert (bufOk b) as Hb by (eapply Forall_lookup_1; [apply Hi|exact Eb]).
  assert (packetOf b = nth n origs []) as Eq by (by eapply (gi_rest _ _ _ _ _ _ _ _ _ _ _ _ _ _ Hi)).
  pose proof (length_packet offset b Hb) as Hl. rewrite Eq in Hl. pose proof Hb as [_ _ _ Ho].
  unfold groStep. cbn [g_bufs g_tcp g_udp g_toWrite]. rewrite Eb. cbn [mbind option_bind].
  destruct (Nat.ltb_spec offset virtioNetHdrLen); [lia|]. cbn [orb].
  destruct (Z.ltb_spec (Z.of_nat (length (b_data b)) - 1) (Z.of_nat offset)).
  { exists None. split; [done|]. apply nil_length_inv. lia. }
  assert (nth n origs [] <> []) as Hne by (intros E; rewrite E in Hl; cbn in Hl; lia).
  rewrite sliceFrom_some by lia. fold (packetOf b). rewrite Eq. cbn [mbind option_bind].
  assert (forall isV6, packetIsGROCandidate (nth n origs []) canUDP = candidate true isV6 ->
    exists r bufs' t', tcpGRO native bufs offset n t isV6 = Some (r, bufs', t') /\
      exists s, match r with
        | groResultNoop => bufs ← clearHdr bufs' n offset; Some (Some (mkGro bufs t' u (toWrite ++ [n])))
        | groResultTableInsert => Some (Some (mkGro bufs' t' u (toWrite ++ [n])))
        | groResultCoalesced => Some (Some (mkGro bufs' t' u toWrite))
        end = Some (Some s) /\ loopInv (S n) s) as Htcp.
  { intros isV6 Hc. destruct (tcpGRO_spec native canUDP offset origs n isV6 groups bufs t u Hn Hn' Hi Hc) as (r & bufs' & t' & E & Hr).
    exists r, bufs', t'. split; [done|]. by eapply outcome_next. }
  assert (forall isV6, packetIsGROCandidate (nth n origs []) canUDP = candidate false isV6 ->
    exists r bufs' u', udpGRO native bufs offset n u isV6 = Some (r, bufs', u') /\
      exists s, match r with
        | groResultNoop => bufs ← clearHdr bufs' n offset; Some (Some (mkGro bufs t u' (toWrite ++ [n])))
        | groResultTableInsert => Some (Some (mkGro bufs' t u' (toWrite ++ [n])))
        | groResultCoalesced => Some (Some (mkGro bufs' t u' toWrite))
        end = Some (Some s) /\ loopInv (S n) s) as Hudp.
  { intros isV6 Hc. destruct (udpGRO_spec native canUDP offset origs n isV6 groups bufs t u Hn Hn' Hi Hf Hc) as (r & bufs' & u' & E & Hr & Hf').
    exists r, bufs', u'. split; [done|]. by eapply outcome_next. }
  destruct (packetIsGROCandidate (nth n origs []) canUDP) eqn:Ec; cbn [mbind option_bind g_bufs g_tcp g_udp g_toWrite].
  - destruct (outcome_next toWrite n groups groResultNoop bufs t u Ew Hn Hf Hi) as (s & -> & Hs). by exists (Some s).
  - destruct (Htcp false eq_refl) as (r & bufs' & t' & -> & s & Es & Hs). exists (Some s). split; [|done]. by destruct r.
  - destruct (Htcp true eq_refl) as (r & bufs' & t' & -> & s & Es & Hs). exists (Some s). split; [|done]. by destruct r.
  - destruct (Hudp false eq_refl) as (r & bufs' & u' & -> & s & Es & Hs). exists (Some s). split; [|done]. by destruct r.
  - destruct (Hudp true eq_refl) as (r & bufs' & u' & -> & s & Es & Hs). exists (Some s). split; [|done]. by destruct r.
Qed.

Lemma groLoop_spec m : forall n s, loopInv n s -> (n + m = length origs)%nat -> (length origs <= IdealBatchSize)%nat ->
  exists s' n', groLoop native offset canUDP s (seq n m) = Some (s', forallb (fun q => negb (bool_decide (q = []))) (drop n origs)) /\
    loopInv n' s' /\ (forallb (fun q => negb (bool_decide (q = []))) (drop n origs) = true -> n' = length origs).
Proof.
  induction m as [|m IH]; intros n s Hi Hn Hl; cbn [seq groLoop].
  - rewrite drop_ge by lia. exists s, n. split; [done|]. split; [done|]. lia.
  - destruct (lookup_lt_is_Some_2 origs n) as [q Eq]; [lia|]. rewrite (drop_S _ _ _ Eq). cbn [forallb].
    pose proof (nth_lookup_Some _ _ [] _ Eq) as Enth.
    destruct (groStep_spec n s Hi) as (r & -> & Hr); [lia|lia|]. cbn [mbind option_bind]. rewrite Enth in Hr. destruct r as [s'|].
    + destruct Hr as [Hne Hs']. rewrite bool_decide_false by done. cbn [negb andb]. apply IH; [done|lia|done].
    + rewrite bool_decide_true by done. exists s, n. by split.
Qed.

(** ** The end of [handleGRO] *)

Lemma table_pending {item} (tcp : bool) (viewF : item -> view) ok n groups bufs (t : groTable item) order :
  (forall x, ok x -> headersFit (viewF x) /\ 0 <= v_merged (viewF x)) ->
  tableOk native canUDP offset origs tcp viewF ok n groups bufs t ->
  Forall (fun v => headersFit v /\ 0 <= v_merged v /\ holdsMerge groups bufs v) (viewF <$> rangeItems order t).
Proof.
  intros Hok Ht. apply Forall_fmap. eapply Forall_impl; [by apply (range_fits tcp viewF ok n groups bufs t order)|].
  intros x (Hx & _ & _ & Hm). cbn. destruct (Hok x Hx). by split_and!.
Qed.

Lemma tcp_fits x : tcpItemOk x -> headersFit (tcpView x) /\ 0 <= v_merged (tcpView x).
Proof. intros Hx. destruct (tcp_hl x Hx) as (_ & _ & _ & U4). split; [exact U4|apply Hx]. Qed.

Lemma udp_fits x : udpItemOk x -> headersFit (udpView x) /\ 0 <= v_merged (udpView x).
Proof.
  intros Hx. destruct (udp_hl x Hx) as (_ & _ & _ & U4). split; [|apply Hx]. unfold headersFit. cbn [v_tcp udpView].
  pose proof (iphOf_bounds (v_isV6 (udpView x))) as Hb. change (iphOf (v_isV6 (udpView x))) with (v_iph (udpView x)) in Hb. lia.
Qed.

Lemma loop_pending n groups bufs t u tcpOrder udpOrder : tcpInv n groups bufs t u ->
  pending groups bufs ((tcpView <$> rangeItems tcpOrder t) ++ (udpView <$> rangeItems udpOrder u)).
Proof.
  intros Hi. pose proof (gi_nodup _ _ _ _ _ _ _ _ _ _ _ _ _ _ Hi) as Hd.
  pose proof (gi_A _ _ _ _ _ _ _ _ _ _ _ _ _ _ Hi) as Ht. pose proof (gi_B _ _ _ _ _ _ _ _ _ _ _ _ _ _ Hi) as Hu.
  pose proof (gi_bufs _ _ _ _ _ _ _ _ _ _ _ _ _ _ Hi) as Hb.
  constructor; [apply Hi|done|done| | |].
  - apply Forall_app. split; eapply table_pending; [exact tcp_fits|exact Ht|exact udp_fits|exact Hu].
  - rewrite fmap_app. apply NoDup_app. split_and!; [by eapply range_nodup| |by eapply range_nodup].
    intros k (v1 & -> & (x & -> & Hx)%list_elem_of_fmap)%list_elem_of_fmap (v2 & Ei & (y & -> & Hy)%list_elem_of_fmap)%list_elem_of_fmap.
    pose proof (range_fits _ _ _ _ _ _ _ tcpOrder Ht) as Hft. pose proof (range_fits _ _ _ _ _ _ _ udpOrder Hu) as Hfu.
    rewrite Forall_forall in Hft. rewrite Forall_forall in Hfu. destruct (Hft _ Hx) as (_ & _ & T1 & M1). destruct (Hfu _ Hy) as (_ & _ & T2 & M2).
    destruct (merge_unique _ _ _ _ _ _ _ _ Hd M1 M2 Ei) as [ET _]. rewrite T1, T2 in ET. done.
  - intros k js Hk. rewrite fmap_app, elem_of_app.
    destruct (gi_cover _ _ _ _ _ _ _ _ _ _ _ _ _ _ Hi _ _ Hk) as [Hl|[Hl|Hs]].
    + left; left. by apply range_live.
    + left; right. by apply range_live.
    + right. by apply single_emitted.
Qed.

Lemma tcpAccounting_spec t order groups bufs rest : (forall x, x ∈ rangeItems order t -> tcpItemOk x) ->
  pending groups bufs ((tcpView <$> rangeItems order t) ++ rest) ->
  exists bufs', applyTCPCoalesceAccounting native order bufs offset t = Some (bufs', true) /\ pending groups bufs' rest.
Proof.
  intros Hok. apply (applyItems_spec tcpView). intros x b qs Hin Hm Hb Hf. apply Hok in Hin as Hx.
  destruct (tcp_hl x Hx) as (U1 & U2 & U3 & U4). destruct Hx as [X1 X2 X3 X4 X5].
  assert (tcpHdr x = hdrOf (tcpView x)) as ->.
  { unfold tcpHdr, hdrOf. rewrite U1, !u16_small by lia. cbn [v_tcp tcpView csumOff v_gso]. f_equal. rewrite U2. lia. }
  assert (ti_iphLen x = Z.of_nat (v_iph (tcpView x))) as -> by (rewrite X1; done).
  destruct (account_spec native canUDP offset (tcpView x) qs b Hm Hb Hf) as (b' & pkt' & E & ?). exists b', pkt'. split; [exact E|done].
Qed.

Lemma udpAccounting_spec u order groups bufs rest : (forall x, x ∈ rangeItems order u -> udpItemOk x) ->
  pending groups bufs ((udpView <$> rangeItems order u) ++ rest) ->
  exists bufs', applyUDPCoalesceAccounting native order bufs offset u = Some (bufs', true) /\ pending groups bufs' rest.
Proof.
  intros Hok. apply (applyItems_spec udpView). intros x b qs Hin Hm Hb Hf. apply Hok in Hin as Hx.
  destruct (udp_hl x Hx) as (U1 & U2 & U3 & U4). destruct Hx as [X1 X2 X3]. pose proof (iphOf_bounds (k_isV6 (ui_key x))).
  assert (udpHdr x = hdrOf (udpView x)) as ->.
  { unfold udpHdr, hdrOf. rewrite U1, !u16_small by lia. cbn [v_tcp udpView csumOff v_gso]. f_equal. rewrite U2. lia. }
  assert (ui_iphLen x = Z.of_nat (v_iph (udpView x))) as -> by (rewrite X1; done).
  destruct (account_spec native canUDP offset (udpView x) qs b Hm Hb Hf) as (b' & pkt' & E & ?). exists b', pkt'. split; [exact E|done].
Qed.

Lemma reset_pool {item} (tcp : bool) (viewF : item -> view) ok n groups bufs (t : groTable item) :
  tableOk native canUDP offset origs tcp viewF ok n groups bufs t -> resetTable t = newTable.
Proof. intros Ht. unfold resetTable, newTable. by rewrite (to_pool _ _ _ _ _ _ _ _ _ _ _ Ht). Qed.

(** Whatever the packets, the tables are as new after a reset; and when none is
    empty, the packets to write are the groups. *)
Lemma handleGRO_spec bufs tcpOrder udpOrder : Forall bufOk bufs -> packetOf <$> bufs = origs -> (length origs <= IdealBatchSize)%nat ->
  let ok := forallb (fun q => negb (bool_decide (q = []))) origs in
  exists s, handleGRO native tcpOrder udpOrder offset canUDP (mkGro bufs newTable newTable []) = Some (s, ok) /\
    resetTable (g_tcp s) = newTable /\ resetTable (g_udp s) = newTable /\
    (ok = true -> exists groups, g_toWrite s = groups.*1 /\ concat groups.*2 ≡ₚ seq 0 (length origs) /\ pending groups (g_bufs s) []).
Proof.
  intros Hb Eo Hl ok. assert (length bufs = length origs) as Elen by (rewrite <- Eo; by rewrite length_fmap).
  assert (loopInv 0 (mkGro bufs newTable newTable [])) as Hi.
  { assert (forall {item} (tcp : bool) (viewF : item -> view) ok,
      tableOk native canUDP offset origs tcp viewF ok 0 [] bufs newTable) as Hnew.
    { intros. constructor; [apply map_Forall_empty|done|done]. }
    exists []. split; [done|]. split; [|done].
    constructor; cbn [g_bufs g_tcp g_udp]; try done; try apply NoDup_nil_2; try (by intros k js ?%elem_of_nil).
    intros j b _ E. rewrite <- Eo. symmetry. apply nth_lookup_Some. by rewrite list_lookup_fmap, E. }
  destruct (groLoop_spec (length origs) 0 _ Hi eq_refl Hl) as (s' & n' & E & (groups & Ew & Hi' & Hf) & En).
  rewrite drop_0 in E, En. fold ok in E, En. unfold handleGRO. cbn [g_bufs]. rewrite Elen, E. cbn [mbind option_bind].
  pose proof (reset_pool _ _ _ _ _ _ _ (gi_A _ _ _ _ _ _ _ _ _ _ _ _ _ _ Hi')) as Rt.
  pose proof (reset_pool _ _ _ _ _ _ _ (gi_B _ _ _ _ _ _ _ _ _ _ _ _ _ _ Hi')) as Ru.
  destruct ok eqn:Eok; cbn [negb]; [|by exists s'].
  pose proof (loop_pending _ _ _ _ _ tcpOrder udpOrder Hi') as Hp.
  destruct (tcpAccounting_spec (g_tcp s') tcpOrder groups (g_bufs s') (udpView <$> rangeItems udpOrder (g_udp s'))) as (b1 & -> & Hp1); [|exact Hp|].
  { pose proof (range_fits _ _ _ _ _ _ _ tcpOrder (gi_A _ _ _ _ _ _ _ _ _ _ _ _ _ _ Hi')) as Hr. rewrite Forall_forall in Hr.
    intros x Hx. apply (Hr _ Hx). }
  cbn [mbind option_bind fst]. rewrite <- (app_nil_r (udpView <$> _)) in Hp1.
  destruct (udpAccounting_spec (g_udp s') udpOrder groups b1 []) as (b2 & -> & Hp2); [|exact Hp1|].
  { pose proof (range_fits _ _ _ _ _ _ _ udpOrder (gi_B _ _ _ _ _ _ _ _ _ _ _ _ _ _ Hi')) as Hr. rewrite Forall_forall in Hr.
    intros x Hx. apply (Hr _ Hx). }
  cbn [mbind option_bind fst snd andb]. eexists. split; [done|]. split; [done|]. split; [done|]. intros _. exists groups. split; [done|]. split; [|done].
  rewrite <- (En eq_refl). apply Hi'.
Qed.

End Finish.

(** ** Writing *)

Lemma writeLoop_spec bufs off ks outs : Forall2 (fun k out => packetAt bufs k off = Some out) ks outs ->
  forall results total failed, exists outs' total' failed',
    writeLoop off bufs results ks total failed = Some (outs', total', failed') /\ outs' `prefix_of` outs /\
    (WriteClosed ∉ results -> outs' = outs) /\
    (results = [] -> total' = total + zlen (concat outs) /\ failed' = failed).
Proof.
  induction 1 as [|k out ks outs E _ IH]; intros results total failed; cbn [writeLoop].
  - do 3 eexists. split; [done|]. split; [done|]. split; [done|]. intros _. cbn. split; [lia|done].
  - rewrite E. cbn [mbind option_bind].
    destruct (hd (Wrote (zlen out)) results) as [n| |] eqn:Eh.
    + destruct (IH (tl results) (total + n) failed) as (o & t & f & -> & H1 & H2 & H3). cbn [mbind option_bind]. do 3 eexists.
      split; [done|]. split; [by apply prefix_cons|]. split.
      * intros Hc. f_equal. apply H2. destruct results; [done|]. intros Hin. apply Hc. by right.
      * intros ->. injection Eh as <-. destruct (H3 eq_refl) as [-> ->]. split; [|done]. cbn [concat]. rewrite length_app. lia.
    + do 3 eexists. split; [done|]. split; [apply prefix_cons, prefix_nil|]. split.
      * intros Hc. destruct results as [|r results]; [done|]. cbn in Eh. subst. destruct Hc. by left.
      * by intros ->.
    + destruct (IH (tl results) total true) as (o & t & f & -> & H1 & H2 & H3). cbn [mbind option_bind]. do 3 eexists.
      split; [done|]. split; [by apply prefix_cons|]. split.
      * intros Hc. f_equal. apply H2. destruct results; [done|]. intros Hin. apply Hc. by right.
      * by intros ->.
Qed.

(** A device whose tables are empty, as a write leaves them. *)
Definition ready (tun : NativeTun) : Prop := tun_tcp tun = newTable /\ tun_udp tun = newTable.

Lemma ready_eta tun v t u : ready tun -> vnetHdr tun = v -> resetTable t = newTable -> resetTable u = newTable ->
  mkTun v (udpGSO tun) (resetTable t) (resetTable u) = tun.
Proof. intros [E1 E2] <- -> ->. rewrite <- E1 at 1. rewrite <- E2. by destruct tun. Qed.

Lemma emitted_packets native canUDP offset origs groups bufs : pending native canUDP offset origs groups bufs [] ->
  exists outs, Forall2 (fun k out => packetAt bufs k (offset - virtioNetHdrLen) = Some out) groups.*1 outs /\
    Forall2 (emission native canUDP origs) groups.*2 outs.
Proof.
  intros [_ Hb _ _ _ Hr].
  assert (Forall (fun g => exists out, packetAt bufs g.1 (offset - virtioNetHdrLen) = Some out /\ emission native canUDP origs g.2 out) groups) as Hg.
  { apply Forall_forall. intros [k js] Hk. destruct (Hr k js Hk) as [[]%elem_of_nil|(b & Eb & He)]. exists (written_at offset b).
    split; [|exact He]. unfold packetAt. cbn [fst]. rewrite Eb. cbn [mbind option_bind]. apply sliceFrom_some.
    assert (bufOk offset b) as [_ H _ Ho] by (by eapply Forall_lookup_1). lia. }
  clear Hr. induction Hg as [|[k js] groups (out & H1 & H2) _ (outs & I1 & I2)]; [by exists []|].
  exists (out :: outs). by split; constructor.
Qed.

(** C9: what a write does with packets, none of them empty.  The device merges
    TCP and UDP packets of a flow.  The packets are parted into groups, in
    whatever order they came; one packet is written for each group.  A group of
    one is written as it is, behind a header that asks for nothing.  For a larger
    group the packet written has the headers of its first packet and the payloads
    in order, all of one size but the last, with their sequence numbers
    contiguous and all their checksums valid; the lengths and the IPv4 header
    checksum are set right, the transport checksum is left for the receiver to
    complete, and the virtio header says how to part it again.  Without the
    virtio header every packet is written as it is.  The tables are ready for
    the next write. *)
Theorem Write_coalesces native (tcpOrder udpOrder : list nat) (results : list writeResult) (tun : NativeTun) (bufs : list buf)
    (offset : nat) :
  ready tun -> Forall (bufOk offset) bufs -> Forall (fun b => packetOf offset b <> []) bufs ->
  (length bufs <= IdealBatchSize)%nat -> WriteClosed ∉ results ->
  exists outs total failed,
    Write native tcpOrder udpOrder results tun bufs offset = Some (outs, total, failed, tun) /\
    (results = [] -> total = zlen (concat outs) /\ failed = false) /\
    if vnetHdr tun
    then exists groups, concat groups ≡ₚ seq 0 (length bufs) /\
      Forall2 (emission native (udpGSO tun) (packetOf offset <$> bufs)) groups outs
    else outs = packetOf offset <$> bufs.
Proof.
  intros Hr Hb Hne Hl Hc. unfold Write. destruct (vnetHdr tun) eqn:Ev.
  - pose proof Hr as [-> ->].
    destruct (handleGRO_spec native (udpGSO tun) offset (packetOf offset <$> bufs) bufs tcpOrder udpOrder Hb eq_refl) as (s & -> & Rt & Ru & Hok);
      [by rewrite length_fmap|].
    assert (forallb (fun q => negb (bool_decide (q = []))) (packetOf offset <$> bufs) = true) as Eok.
    { apply forallb_forall. intros q Hq. apply list_elem_of_In, list_elem_of_fmap in Hq as (b & -> & Hq).
      rewrite Forall_forall in Hne. by rewrite bool_decide_false by auto. }
    rewrite Eok in *. cbn [mbind option_bind negb]. destruct (Hok eq_refl) as (groups & -> & Hp & Hpd). rewrite ready_eta by done.
    destruct (emitted_packets _ _ _ _ _ _ Hpd) as (outs & Ho & He).
    destruct (writeLoop_spec _ _ _ _ Ho results 0 false) as (o & t & f & -> & _ & H2 & H3). rewrite (H2 Hc) in *. cbn [mbind option_bind].
    exists outs, t, f. rewrite length_fmap in Hp. split; [done|]. split; [exact H3|]. by exists groups.*2.
  - pose proof Hr as [Et Eu].
    destruct (writeLoop_spec bufs offset (seq 0 (length bufs)) (packetOf offset <$> bufs)) with (results := results) (total := 0) (failed := false)
      as (o & t & f & -> & _ & H2 & H3).
    { apply Forall2_same_length_lookup_2; [by rewrite length_seq, length_fmap|]. intros i k out Ek Eo.
      apply lookup_seq in Ek as [-> Hk]. rewrite list_lookup_fmap in Eo. destruct (bufs !! i) as [b|] eqn:Eb; [|done].
      injection Eo as <-. cbn [Nat.add]. eapply packetAt_some; [done|by eapply Forall_lookup_1]. }
    rewrite (H2 Hc) in *. cbn [mbind option_bind]. rewrite ready_eta by (by rewrite ?Et, ?Eu).
    exists (packetOf offset <$> bufs), t, f. split; [done|]. by split.
Qed.

(** An empty packet among those to write is an error, and nothing is written:
    not the packets before it either, which may be merged by then.  The tables
    are ready for the next write all the same. *)
Theorem Write_refuses_empty native (tcpOrder udpOrder : list nat) (results : list writeResult) (tun : NativeTun) (bufs : list buf)
    (offset : nat) :
  ready tun -> vnetHdr tun = true -> Forall (bufOk offset) bufs -> Exists (fun b => packetOf offset b = []) bufs ->
  (length bufs <= IdealBatchSize)%nat ->
  Write native tcpOrder udpOrder results tun bufs offset = Some ([], 0, true, tun).
Proof.
  intros Hr Ev Hb He Hl. unfold Write. pose proof Hr as [-> ->]. rewrite Ev.
  destruct (handleGRO_spec native (udpGSO tun) offset (packetOf offset <$> bufs) bufs tcpOrder udpOrder Hb eq_refl) as (s & -> & Rt & Ru & _);
    [by rewrite length_fmap|].
  assert (forallb (fun q => negb (bool_decide (q = []))) (packetOf offset <$> bufs) = false) as ->.
  { clear -He. induction He as [b bufs E|b bufs _ IH]; rewrite fmap_cons; cbn [forallb].
    - by rewrite bool_decide_true by done.
    - rewrite IH. apply andb_false_r. }
  cbn [mbind option_bind negb]. by rewrite ready_eta.
Qed.

(** ** Witnesses *)

(** A TCP packet in a buffer, behind room for the virtio header. *)
Definition sample_buffer (payload : bytes) (id1 id2 ipsum1 ipsum2 s1 s2 s3 s4 flags sum1 sum2 : Z) : buf :=
  mkBuf (replicate 16 170 ++
    [69; 0; 0; 40 + zlen payload; id1; id2; 64; 0; 64; 6; ipsum1; ipsum2; 10; 0; 0; 1; 10; 0; 0; 2;
     31; 144; 195; 80; s1; s2; s3; s4; 0; 0; 0; 9; 80; flags; 0; 64; sum1; sum2; 0; 0] ++ payload) 200.

(** The three segments of [hello], the sequence number wrapping around. *)
Definition sample_segments : list buf :=
  [sample_buffer [104; 101] 255 255 38 204 255 255 255 255 16 80 65;
   sample_buffer [108; 108] 0 0 38 204 0 0 0 1 16 76 57;
   sample_buffer [111] 0 1 38 204 0 0 0 3 24 73 156].

Definition sample_tun : NativeTun := mkTun true true newTable newTable.

Lemma sample_ok : Forall (bufOk 16) sample_segments /\ Forall (fun b => packetOf 16 b <> []) sample_segments.
Proof.
  assert (forallb (fun b => forallb (fun x => (0 <=? x) && (x <? 256)) (b_data b) && (16 <=? length (b_data b))%nat &&
    (length (b_data b) <=? b_cap b)%nat && (Z.of_nat (b_cap b) <=? 65535) && (17 <=? length (b_data b))%nat) sample_segments = true) as H
    by by vm_compute.
  rewrite forallb_forall in H. split; apply Forall_forall; intros b Hb; apply list_elem_of_In, H in Hb; repeat (apply andb_true_iff in Hb as [Hb ?]).
  - constructor; [|split; by apply Nat.leb_le|by apply Z.leb_le|unfold virtioNetHdrLen; lia].
    apply Forall_forall. intros x Hx. rewrite forallb_forall in Hb. apply list_elem_of_In, Hb in Hx.
    apply andb_true_iff in Hx as [?%Z.leb_le ?%Z.ltb_lt]. by split.
  - intros E. apply (f_equal length) in E. unfold packetOf in E. rewrite length_drop in E.
    assert (17 <= length (b_data b))%nat by by apply Nat.leb_le. cbn [length] in E. lia.
Qed.

Lemma Write_coalesces_witness :
  exists outs total failed,
    Write little [] [] [] sample_tun sample_segments 16 = Some (outs, total, failed, sample_tun) /\
    ([] = ([] : list writeResult) -> total = zlen (concat outs) /\ failed = false) /\
    exists groups, concat groups ≡ₚ seq 0 3 /\ Forall2 (emission little true (packetOf 16 <$> sample_segments)) groups outs.
Proof.
  apply (Write_coalesces little [] [] [] sample_tun sample_segments 16).
  - done.
  - apply sample_ok.
  - apply sample_ok.
  - apply Nat.leb_le. reflexivity.
  - apply not_elem_of_nil.
Defined.

Lemma Write_refuses_empty_witness :
  Write little [] [] [] sample_tun (sample_segments ++ [mkBuf (replicate 16 0) 200]) 16 = Some ([], 0, true, sample_tun).
Proof.
  apply (Write_refuses_empty little [] [] [] sample_tun _ 16).
  - done.
  - done.
  - apply Forall_app. split; [apply sample_ok|]. apply Forall_singleton.
    constructor; cbn [b_data b_cap]; [by apply Forall_replicate|rewrite length_replicate; lia|lia|unfold virtioNetHdrLen; lia].
  - apply Exists_app. right. by constructor.
  - apply Nat.leb_le. reflexivity.
Defined.

(** The last of two segments comes first: its PSH flag is not in the merged packet. *)
Example prepend_drops_psh :
  match sample_segments !! 2%nat with Some b => packetOf 16 b !! 33%nat | None => None end = Some 24 /\
  match Write little [] [] [] sample_tun (reverse (drop 1 sample_segments)) 16 with
  | Some ([out], _, _, _) => out !! (virtioNetHdrLen + 33)%nat
  | _ => None
  end = Some 16.
Proof. split; vm_compute; reflexivity. Qed.
