(* ===== verification/GroRoundtrip.v ===== *)
(** Merging and parting are inverse: what a write puts out for a group, a read
    takes apart into the packets of the group. *)
From S2P Require Import Prelude Checksum Offload GsoSpec Gro GroSpec GroCoalesce GroInvariant GroLoop GroAccount GroWrite.

(** ** Positions of chunks *)

(** All chunks before the last are whole, so a position tells the number. *)
Lemma contiguous_at iph hl g s (qs : list bytes) i q : 0 <= s < 2 ^ 32 -> contiguous iph hl s qs ->
  chunked g (payloadLens (mkView true (mkFlow [] [] 0 0 0 false) 0 hl 0 0 0) qs) -> qs !! i = Some q ->
  seqOf iph q = u32 (s + Z.of_nat (i * g)).
Proof.
  unfold payloadLens. cbn [v_hl]. revert s i. induction qs as [|p [|p' qs] IH]; intros s i Hs Hc Hch E; [done| |].
  - destruct i; [|done]. injection E as <-. destruct Hc as [-> _]. cbn. rewrite Z.add_0_r. symmetry. by apply u32_small.
  - rewrite !fmap_cons in Hch. apply chunked_cons in Hch as [Hp Hch]; [|done]. destruct Hc as [Hs0 Hc]. destruct i as [|i]; cbn [lookup list_lookup] in E.
    + injection E as <-. rewrite Hs0. cbn. rewrite Z.add_0_r. symmetry. by apply u32_small.
    + rewrite (IH _ i (u32_range _) Hc Hch E), u32_add_l. f_equal. rewrite Hp. lia.
Qed.

(** ** Packets of a flow *)

(** Where a packet and a segment agree that are of one flow. *)
Definition sameHeader (v : view) (q p : bytes) : Prop :=
  forall k, (k < v_hl v)%nat -> ~ rewritten (v_isV6 v) (v_tcp v) (hdrOf v) k -> p !! k = q !! k.

Lemma nth_agree (p q : bytes) k : p !! k = q !! k -> nth k p 0 = nth k q 0.
Proof. intros E. by rewrite !nth_lookup, E. Qed.

Lemma candidate_same canUDP (tcp isV6 : bool) (p q : bytes) : packetIsGROCandidate q canUDP = candidate tcp isV6 ->
  (iphOf isV6 + (if tcp then 20 else 8) <= length p)%nat ->
  p !! 0%nat = q !! 0%nat -> p !! 6%nat = q !! 6%nat -> p !! 9%nat = q !! 9%nat ->
  packetIsGROCandidate p canUDP = candidate tcp isV6.
Proof.
  intros Hq Hl E0 E6 E9. apply nth_agree in E0, E6, E9. revert Hq. unfold packetIsGROCandidate. rewrite E0, E6, E9.
  destruct (Nat.ltb_spec (length p) 28); [destruct tcp, isV6; cbn in Hl; lia|].
  destruct (Nat.ltb_spec (length q) 28); [by destruct tcp, isV6|].
  destruct (Z.shiftr (nth 0 q 0) 4 =? 4).
  - destruct (Z.land (nth 0 q 0) 15 =? 5); cbn [negb]; [|done].
    destruct (nth 9 q 0 =? IPPROTO_TCP) eqn:Et; cbn [andb].
    + assert (nth 9 q 0 =? IPPROTO_UDP = false) as -> by (apply Z.eqb_eq in Et; by rewrite Et). cbn [andb].
      destruct (Nat.leb_spec 40 (length q)); [|by destruct tcp, isV6].
      destruct (Nat.leb_spec 40 (length p)); [done|]. destruct tcp, isV6; try done. cbn in Hl. lia.
    + done.
  - destruct (Z.shiftr (nth 0 q 0) 4 =? 6); [|done]. destruct (nth 6 q 0 =? IPPROTO_TCP) eqn:Et; cbn [andb].
    + assert (nth 6 q 0 =? IPPROTO_UDP = false) as -> by (apply Z.eqb_eq in Et; by rewrite Et). cbn [andb].
      destruct (Nat.leb_spec 60 (length q)); [|by destruct tcp, isV6].
      destruct (Nat.leb_spec 60 (length p)); [done|]. destruct tcp, isV6; try done. cbn in Hl. lia.
    + destruct (nth 6 q 0 =? IPPROTO_UDP); cbn [andb]; [|done].
      destruct (Nat.leb_spec 48 (length q)); cbn [andb]; [|by destruct tcp, isV6].
      destruct (Nat.leb_spec 48 (length p)); cbn [andb]; [done|]. destruct canUDP, tcp, isV6; try done; cbn in Hl; lia.
Qed.

Lemma key_same (tcp isV6 : bool) (p q : bytes) : (iphOf isV6 + (if tcp then 20 else 8) <= length p)%nat ->
  (iphOf isV6 + (if tcp then 20 else 8) <= length q)%nat ->
  (forall k, (fst (addrs isV6) <= k < iphOf isV6 + 4)%nat -> p !! k = q !! k) ->
  (tcp = true -> forall k, (iphOf isV6 + 8 <= k < iphOf isV6 + 12)%nat -> p !! k = q !! k) ->
  keyOfPacket tcp isV6 p = keyOfPacket tcp isV6 q.
Proof.
  intros Hp Hq Hk Ht. unfold keyOfPacket, newFlowKey.
  assert (exists s n, addrs isV6 = (s, n) /\ (s + n + n = iphOf isV6)%nat) as (s & n & E & Hs) by (destruct isV6; cbn; eauto).
  rewrite E in *. cbn [fst] in Hk. replace (s + n - s)%nat with n by lia.
  rewrite !(sliceOf_some p), !(sliceOf_some q) by lia. cbn [mbind option_bind].
  rewrite (slice_same s (s + n) q p), (slice_same (s + n) (s + n + n) q p) by (intros; apply Hk; lia).
  rewrite !(getBE_some 2 p), !(getBE_some 2 q) by (destruct tcp; lia). cbn [mbind option_bind].
  rewrite (slice_same (iphOf isV6) (iphOf isV6 + 2) q p), (slice_same (iphOf isV6 + 2) (iphOf isV6 + 2 + 2) q p) by (intros; apply Hk; lia).
  destruct tcp; [|done]. rewrite (getBE_some 4 p), (getBE_some 4 q) by lia. cbn [mbind option_bind].
  rewrite (slice_same (iphOf isV6 + 8) (iphOf isV6 + 8 + 4) q p); [done|]. intros; apply Ht; [done|lia].
Qed.

Lemma version_of canUDP tcp isV6 q : packetIsGROCandidate q canUDP = candidate tcp isV6 -> Z.shiftr (nth 0 q 0) 4 = if isV6 then 6 else 4.
Proof.
  unfold packetIsGROCandidate. destruct (length q <? 28)%nat; [by destruct tcp, isV6|].
  destruct (Z.eqb_spec (Z.shiftr (nth 0 q 0) 4) 4) as [->|].
  - destruct isV6; [|done]. repeat case_match; by destruct tcp.
  - destruct (Z.eqb_spec (Z.shiftr (nth 0 q 0) 4) 6) as [->|]; [|by destruct tcp, isV6].
    destruct isV6; [done|]. repeat case_match; by destruct tcp.
Qed.

Section Roundtrip.
Context (native : endian) (canUDP : bool).

Lemma isTCP_hdrOf v : isTCP (hdrOf v) = v_tcp v.
Proof. unfold isTCP, hdrOf. cbn [vh_gsoType]. by destruct (v_tcp v), (v_isV6 v). Qed.

(** The accounting rewrites no more than the segmentation will. *)
Lemma accounted_rewritten v k : accountedAt v k -> rewritten (v_isV6 v) (v_tcp v) (hdrOf v) k.
Proof.
  unfold accountedAt, rewritten, hdrOf. cbn [vh_csumStart vh_csumOffset]. rewrite !Nat2Z.id. intros [H|[H|H]].
  - left. unfold ipAccounted, ipRewritten in *. destruct (v_isV6 v); lia.
  - right; left. destruct H as [-> H]. cbn. lia.
  - by right; right.
Qed.

Lemma ofFlow_fits v q : ofFlow canUDP v q -> headersFit v ->
  (v_iph v + (if v_tcp v then 20 else 8) <= v_hl v)%nat /\ (v_hl v <= 100)%nat /\ (20 <= v_iph v <= 40)%nat.
Proof. intros Hq Hf. unfold headersFit in Hf. pose proof (iphOf_bounds (v_isV6 v)). unfold v_iph in *. lia. Qed.

(** A packet that was read, as the one that was written. *)
Definition sameData (q p : bytes) : Prop :=
  p = q \/ exists v, ofFlow canUDP v q /\ ofFlow canUDP v p /\ valid native v q /\ valid native v p /\
    drop (v_hl v) p = drop (v_hl v) q /\ (v_tcp v = true -> seqOf (v_iph v) p = seqOf (v_iph v) q).

Section Merged.
Context (v : view) (qs : list bytes) (pkt pkt' q0 : bytes).
Context (Hm : mergeOf native canUDP v qs pkt) (Hf : headersFit v) (Ha : accounted native v pkt pkt').
Context (Hl : (2 <= length qs)%nat) (H0 : head qs = Some q0).

Lemma head_flow : ofFlow canUDP v q0.
Proof. pose proof (mo_flow _ _ _ _ _ Hm) as H. destruct qs as [|q l]; [done|]. injection H0 as ->. by apply Forall_cons in H as [H _]. Qed.

(** The first packet is a whole chunk. *)
Lemma head_gso : v_gso v = zlen (drop (v_hl v) q0) /\ 0 < v_gso v /\ v_gso v + Z.of_nat (v_hl v) = zlen q0.
Proof.
  pose proof (mo_chunks _ _ _ _ _ Hm) as Hc. pose proof head_flow as Hq. destruct qs as [|q [|q1 l]]; cbn [length] in Hl; [lia..|].
  injection H0 as ->. rewrite !fmap_cons in Hc. apply chunked_cons in Hc as [Hg _]; [|done].
  destruct (of_size _ _ _ Hq) as [Hs _]. rewrite length_drop in *. lia.
Qed.

Lemma merged_header : sameHeader v q0 pkt'.
Proof.
  intros k Hk Hr. rewrite (ac_same _ _ _ _ Ha) by (intros H; by apply Hr, accounted_rewritten).
  apply (mo_head _ _ _ _ _ Hm); [done|done|]. intros Et ->. apply Hr. right; left. rewrite Et. unfold hdrOf. cbn [vh_csumStart].
  rewrite Nat2Z.id. cbn. by right.
Qed.

Lemma merged_length : length pkt' = (v_hl v + sum_list (payloadLens v qs))%nat.
Proof. rewrite (ac_length _ _ _ _ Ha). by destruct (mergeOf_size _ _ _ _ _ Hm). Qed.

Lemma merged_payload : drop (v_hl v) pkt' = concat (drop (v_hl v) <$> qs).
Proof.
  rewrite <- (mo_payload _ _ _ _ _ Hm). apply list_eq. intros k. rewrite !lookup_drop. apply (ac_same _ _ _ _ Ha).
  pose proof (ofFlow_fits _ _ head_flow Hf). unfold accountedAt, csumOff, ipAccounted.
  destruct (v_isV6 v), (v_tcp v); intros [?|[[? ?]|?]]; first [lia|done].
Qed.

Lemma merged_hdrOk : hdrOk (hdrOf v).
Proof.
  pose proof (ofFlow_fits _ _ head_flow Hf). destruct head_gso as (Hg & Hp & Hs). destruct (of_size _ _ _ head_flow) as [_ Hz].
  unfold maxUint16, hdrOk, hdrOf in *. cbn. split_and!; try lia; try (by destruct (v_tcp v), (v_isV6 v)).
  all: unfold is_byte; unfold csumOff; destruct (v_tcp v), (v_isV6 v); cbv; split; congruence.
Qed.

Lemma plain_byte k : (k < v_iph v)%nat -> (k < 2 \/ 6 <= k < 10)%nat -> pkt' !! k = q0 !! k.
Proof.
  intros Hk H. pose proof (ofFlow_fits _ _ head_flow Hf). apply merged_header; [lia|].
  unfold rewritten, hdrOf, ipRewritten, transportRewritten, csumOff. cbn [vh_csumStart vh_csumOffset]. rewrite !Nat2Z.id.
  destruct (v_isV6 v), (v_tcp v); lia.
Qed.

Lemma merged_version : Z.shiftr (nth 0 pkt' 0) 4 = if v_isV6 v then 6 else 4.
Proof.
  pose proof (ofFlow_fits _ _ head_flow Hf). rewrite (nth_agree pkt' q0) by (apply plain_byte; lia).
  eapply version_of, (of_candidate _ _ _ head_flow).
Qed.

Lemma merged_parsed : parsed (hdrOf v) pkt' = hdrOf v.
Proof.
  pose proof (ofFlow_fits _ _ head_flow Hf) as Hi. pose proof (of_headers _ _ _ head_flow) as Hh. unfold parsed. rewrite isTCP_hdrOf.
  unfold hdrOf. cbn. f_equal. rewrite Hh. f_equal. destruct (v_tcp v) eqn:Et; [|done].
  replace (Z.to_nat (Z.of_nat (v_iph v) + 12)) with (v_iph v + 12)%nat by lia. rewrite (nth_agree pkt' q0); [done|].
  apply merged_header; [lia|]. unfold rewritten, hdrOf, ipRewritten, transportRewritten, csumOff. cbn [vh_csumStart vh_csumOffset].
  rewrite !Nat2Z.id, Et. destruct (v_isV6 v); lia.
Qed.

Lemma merged_splittable : zlen pkt' < 65536 -> splittable (hdrOf v) (v_isV6 v) (v_tcp v) pkt'.
Proof.
  intros Hz. pose proof (ofFlow_fits _ _ head_flow Hf) as Hi. destruct head_gso as (Hg & Hp & Hs).
  destruct (of_size _ _ _ head_flow) as [_ Hq]. unfold maxUint16 in Hq. pose proof merged_length as Hlen.
  constructor; unfold hdrOf; cbn [vh_csumStart vh_hdrLen vh_csumOffset vh_gsoSize]; try done.
  - apply Ha.
  - destruct (v_tcp v); lia.
  - unfold csumOff. by destruct (v_tcp v).
  - lia.
Qed.

Lemma merged_seq : v_tcp v = true -> firstSeq (hdrOf v) pkt' = v_seq v /\ 0 <= v_seq v < 2 ^ 32.
Proof.
  intros Et. pose proof (ofFlow_fits _ _ head_flow Hf) as Hi. pose proof (mo_seq _ _ _ _ _ Hm Et) as Hc.
  pose proof (of_bytes _ _ _ head_flow) as Hb. destruct (of_size _ _ _ head_flow) as [Hs _]. rewrite Et in Hi.
  assert (seqOf (v_iph v) q0 = v_seq v) as <- by (destruct qs; [done|]; injection H0 as ->; by destruct Hc).
  assert (slice (v_iph v + 4) (v_iph v + 8) pkt' = slice (v_iph v + 4) (v_iph v + 8) q0) as E.
  { apply slice_same. intros k Hk. rewrite (ac_same _ _ _ _ Ha).
    - apply (mo_head _ _ _ _ _ Hm); [done|lia|lia].
    - unfold accountedAt, ipAccounted, csumOff. rewrite Et. destruct (v_isV6 v); lia. }
  unfold firstSeq. rewrite isTCP_hdrOf, Et. unfold hdrOf. cbn [vh_csumStart]. rewrite Nat2Z.id, E. split; [done|]. unfold seqOf.
  assert (all_bytes (slice (v_iph v + 4) (v_iph v + 8) q0)) as Hsl by by apply slice_bytes.
  pose proof (be_dec_range _ Hsl) as Hr. rewrite length_slice in Hr by lia. replace (v_iph v + 8 - (v_iph v + 4))%nat with 4%nat in Hr by lia. exact Hr.
Qed.

Lemma segment_payload i q p : qs !! i = Some q ->
  drop (v_hl v) p = slice (v_hl v + i * Z.to_nat (v_gso v)) (Nat.min (v_hl v + i * Z.to_nat (v_gso v) + Z.to_nat (v_gso v)) (length pkt')) pkt' ->
  drop (v_hl v) p = drop (v_hl v) q.
Proof.
  intros Eq ->. set (g := Z.to_nat (v_gso v)). set (a := (v_hl v + i * g)%nat).
  transitivity (take g (drop a pkt')).
  - unfold slice. destruct (decide (a + g <= length pkt')%nat).
    + by replace (Nat.min (a + g) (length pkt') - a)%nat with g by lia.
    + rewrite !take_ge by (rewrite length_drop; lia). done.
  - unfold a. rewrite <- drop_drop, merged_payload. apply chunk_at; [|by rewrite list_lookup_fmap, Eq].
    rewrite <- list_fmap_compose. apply (mo_chunks _ _ _ _ _ Hm).
Qed.

Lemma segment_of_flow i q p seq a b : qs !! i = Some q -> (a < b)%nat -> (b - a <= Z.to_nat (v_gso v))%nat ->
  segmentOf native (hdrOf v) (v_isV6 v) (v_tcp v) seq pkt' i a b p -> ofFlow canUDP v p.
Proof.
  intros Eq Hab Hg [S1 S2 S3 S4 S5 S6 S7]. unfold hdrOf in S1, S4, S5. cbn [vh_hdrLen vh_csumStart] in S1, S4, S5. rewrite Nat2Z.id in *.
  pose proof (ofFlow_fits _ _ head_flow Hf) as Hi. pose proof head_flow as [F1 F2 F3 F4 F5 F6]. destruct head_gso as (_ & Hgp & Hgs).
  assert (sameHeader v q0 p) as Hsame by (intros k Hk Hr; rewrite S4 by done; by apply merged_header).
  assert (forall k, (k < v_hl v)%nat -> (k < 2 \/ 6 <= k < 10 \/ (v_isV6 v = true \/ 12 <= k) /\ 6 <= k < v_iph v + 4 \/
      v_iph v + 8 <= k < v_iph v + 13)%nat -> v_tcp v = true \/ (k < v_iph v + 4)%nat -> p !! k = q0 !! k) as Hk.
  { intros k Hk Hin Ht. apply Hsame; [done|]. unfold rewritten, hdrOf, ipRewritten, transportRewritten, csumOff.
    cbn [vh_csumStart vh_csumOffset]. rewrite !Nat2Z.id. destruct (v_isV6 v), (v_tcp v); intuition (lia || congruence). }
  assert (v_hl v < length p)%nat as Hlp by lia.
  constructor; [done| | | | |].
  - eapply candidate_same; [exact F2| |apply Hk; lia..]. unfold v_iph in *. lia.
  - rewrite <- F3. apply key_same; [unfold v_iph in *; lia..| |].
    + intros k Hr. apply Hk; [unfold v_iph in *; destruct (v_tcp v); lia| |right; exact (proj2 Hr)].
      right; right; left. unfold v_iph, ipv6SrcAddrOffset, ipv4SrcAddrOffset in *.
      destruct (v_isV6 v); cbn in Hr |- *; unfold ipv6SrcAddrOffset, ipv4SrcAddrOffset in Hr; (split; [first [by left|right; lia]|lia]).
    + intros Et k Hr. rewrite Et in *. apply Hk; [unfold v_iph in *; lia|unfold v_iph in *; lia|by left].
  - unfold ipLengthOk in *. destruct (v_isV6 v) eqn:E6.
    + rewrite getBE_some in * by lia. cbn [mbind option_bind] in *. cbn [Nat.add]. rewrite S5.
      unfold v_iph. rewrite E6. cbn [iphOf]. by rewrite Z.eqb_refl.
    + assert (p !! 0%nat = q0 !! 0%nat) as -> by (apply Hk; lia). destruct (q0 !! 0%nat) as [x|]; [|done]. cbn [mbind option_bind] in *.
      rewrite getBE_some in * by lia. cbn [mbind option_bind Nat.add] in *. destruct S5 as (S5 & _). rewrite S5, Z.eqb_refl.
      by destruct (_ =? _) in F4.
  - split; [done|]. destruct F5 as [_ F5]. lia.
  - rewrite F6. f_equal. destruct (v_tcp v) eqn:Et; [|done]. rewrite (nth_agree p q0); [done|]. apply Hk; [lia|lia|by left].
Qed.

Lemma segment_data i q p : qs !! i = Some q -> zlen pkt' < 65536 ->
  let a := (v_hl v + i * Z.to_nat (v_gso v))%nat in
  (a < length pkt')%nat ->
  segmentOf native (hdrOf v) (v_isV6 v) (v_tcp v) (firstSeq (hdrOf v) pkt') pkt' i a (Nat.min (a + Z.to_nat (v_gso v)) (length pkt')) p ->
  sameData q p.
Proof.
  intros Eq Hz a Hlt Hs. right. exists v. remember (firstSeq (hdrOf v) pkt') as s0 eqn:Es0. pose proof Hs as [S1 S2 S3 S4 S5 S6 S7]. destruct head_gso as (_ & Hgp & _).
  unfold hdrOf in S3, S6, S7. cbn [vh_hdrLen vh_csumStart vh_gsoSize] in S3, S6, S7. rewrite Nat2Z.id in *. split_and!.
  - eapply Forall_lookup_1; [apply (mo_flow _ _ _ _ _ Hm)|exact Eq].
  - eapply segment_of_flow; [exact Eq| | |exact Hs]; unfold a in *; lia.
  - eapply Forall_lookup_1; [apply (mo_valid _ _ _ _ _ Hm Hl)|exact Eq].
  - exact S7.
  - by eapply segment_payload.
  - intros Et. rewrite Et in S6. destruct S6 as [S6 _]. destruct (merged_seq Et) as [E Hr].
    rewrite (contiguous_at (v_iph v) (v_hl v) (Z.to_nat (v_gso v)) (v_seq v) qs i q Hr (mo_seq _ _ _ _ _ Hm Et) (mo_chunks _ _ _ _ _ Hm) Eq).
    unfold seqOf. rewrite S6, Es0, E. f_equal. f_equal.
    assert (Z.of_nat (i * Z.to_nat (v_gso v)) = v_gso v * Z.of_nat i) as -> by lia. assert (1 <= v_gso v) by lia.
    assert (Z.of_nat i <= v_gso v * Z.of_nat i < 65536) as Hb by (unfold a in Hlt; nia).
    rewrite (u16_small (Z.of_nat i)), u16_small by lia. done.
Qed.

End Merged.

(** ** Reading what was written *)

(** Buffers for the packets [qs], each with room for any of them. *)
Definition roomToRead (offset : nat) (bufs : list bytes) (sizes : list Z) (qs : list bytes) : Prop :=
  (length qs <= length bufs <= length sizes)%nat /\
  Forall (fun b => all_bytes b /\ Forall (fun q => Z.of_nat offset + zlen q <= zlen b) qs) bufs.

(** The packets [ps] are in the buffers, with their sizes. *)
Definition holdsPackets (offset : nat) (bufs bufs' : list bytes) (sizes' : list Z) (ps : list bytes) : Prop :=
  forall i p, ps !! i = Some p -> sizes' !! i = Some (zlen p) /\
    exists b, bufs !! i = Some b /\ bufs' !! i = Some (take offset b ++ p ++ drop (offset + length p) b).

Lemma read_single q bufs sizes offset : roomToRead offset bufs sizes [q] ->
  exists bufs' sizes', handleVirtioRead native (replicate virtioNetHdrLen 0 ++ q) bufs sizes offset = Some (bufs', sizes', 1, None) /\
    holdsPackets offset bufs bufs' sizes' [q].
Proof.
  intros [Hl Hr]. cbn [length] in Hl. set (h := mkHdr 0 0 0 0 0 0).
  assert (replicate virtioNetHdrLen 0 = hdrBytes native h) as -> by (by destruct native).
  unfold handleVirtioRead. rewrite hdrDecode_hdrBytes, hdrBytes_drop by (unfold hdrOk, is_byte, h; cbn; lia).
  change (vh_gsoType h =? VIRTIO_NET_HDR_GSO_NONE) with true. change (negb (Z.land (vh_flags h) VIRTIO_NET_HDR_F_NEEDS_CSUM =? 0)) with false.
  cbn [mbind option_bind].
  destruct bufs as [|b bufs]; [cbn [length] in Hl; lia|]. apply Forall_cons in Hr as [[Hb Hq] _]. apply Forall_cons in Hq as [Hq _].
  cbn [lookup list_lookup mbind option_bind]. rewrite sliceFrom_some by lia. cbn [mbind option_bind]. rewrite length_drop.
  destruct (Nat.ltb_spec (length b - offset) (length q)); [lia|]. rewrite orElse_true by (apply Nat.ltb_lt; lia).
  do 2 eexists. split; [done|]. intros [|i] p E; [|done]. injection E as <-. split; [by rewrite list_lookup_insert_eq by lia|].
  exists b. split; [done|]. cbn. f_equal. unfold copy_at. rewrite Nat.min_r, (take_ge q) by lia. done.
Qed.

Lemma read_merged v qs pkt pkt' q0 bufs sizes offset : mergeOf native canUDP v qs pkt -> headersFit v -> accounted native v pkt pkt' ->
  (2 <= length qs)%nat -> head qs = Some q0 -> zlen pkt' < 65536 -> roomToRead offset bufs sizes qs ->
  exists bufs' sizes' ps,
    handleVirtioRead native (hdrBytes native (hdrOf v) ++ pkt') bufs sizes offset = Some (bufs', sizes', zlen qs, None) /\
    holdsPackets offset bufs bufs' sizes' ps /\ Forall2 sameData qs ps.
Proof.
  intros Hm Hf Ha Hl H0 Hz [Hlen Hroom]. pose proof (merged_splittable v qs pkt pkt' q0 Hm Hf Ha Hl H0 Hz) as Hsp.
  destruct (head_gso v qs pkt q0 Hm Hl H0) as (Eg & Hgp & Hgs). pose proof (chunked_bounds _ _ (mo_chunks _ _ _ _ _ Hm)) as Hcb.
  rewrite length_fmap in Hcb. pose proof (merged_length v qs pkt pkt' Hm Ha) as Hpl. unfold payloadLens in Hpl.
  set (total := sum_list _) in *. set (g := Z.to_nat (v_gso v)) in *.
  unfold handleVirtioRead. rewrite hdrDecode_hdrBytes, hdrBytes_drop by (by eapply merged_hdrOk).
  assert (vh_gsoType (hdrOf v) =? VIRTIO_NET_HDR_GSO_NONE = false) as -> by (unfold hdrOf; cbn [vh_gsoType]; by destruct (v_tcp v), (v_isV6 v)).
  rewrite (checkVirtio_splittable (hdrOf v) pkt' (v_isV6 v)).
  2:{ by eapply merged_hdrOk. }
  2:{ unfold hdrOf; cbn [vh_gsoType]. destruct (v_tcp v), (v_isV6 v); auto. }
  2:{ by eapply merged_version. }
  2:{ rewrite isTCP_hdrOf. by erewrite merged_parsed. }
  cbn [mbind option_bind]. erewrite merged_parsed by done. rewrite <- (isTCP_hdrOf v) in Hsp.
  assert (roomFor (hdrOf v) offset bufs sizes) as Hrf.
  { split; [|lia]. eapply Forall_impl; [exact Hroom|]. intros b [Hb Hq]. split; [done|]. unfold hdrOf. cbn [vh_hdrLen vh_gsoSize].
    destruct qs as [|q1 qs']; [done|]. injection H0 as ->. apply Forall_cons in Hq as [Hq _]. lia. }
  destruct (gsoSplit_spec native (hdrOf v) (v_isV6 v) pkt' bufs sizes offset Hsp Hrf) as (bufs' & sizes' & ps & -> & _ & Hh & Hc).
  rewrite isTCP_hdrOf in Hh. change (Z.to_nat (vh_gsoSize (hdrOf v))) with g in *.
  assert (Z.to_nat (vh_hdrLen (hdrOf v)) = v_hl v) as Ehl by apply Nat2Z.id. rewrite Ehl in *.
  assert (forall i p, ps !! i = Some p -> (v_hl v + i * g < length pkt')%nat /\
    segmentOf native (hdrOf v) (v_isV6 v) (v_tcp v) (firstSeq (hdrOf v) pkt') pkt' i (v_hl v + i * g)
      (Nat.min (v_hl v + i * g + g) (length pkt')) p) as Hseg.
  { intros i p Ep. destruct (Hh i p Ep) as (G0 & G1 & _). cbv zeta in G0, G1. rewrite Ehl in G0, G1. by split. }
  assert (g * length qs <= length bufs * g)%nat as Hfit by (rewrite Nat.mul_comm; apply Nat.mul_le_mono_r; lia).
  destruct (Nat.leb_spec (length pkt') (v_hl v + length bufs * g)); [|lia].
  assert (length (concat (drop (v_hl v) <$> ps)) = total) as Hct by (rewrite Hc; unfold slice; rewrite length_take, length_drop; lia).
  assert (length ps = length qs) as Hps.
  { assert (length (concat (drop (v_hl v) <$> ps)) <= g * length ps)%nat as Hle.
    { rewrite <- (length_fmap (drop (v_hl v))). apply length_concat_le, Forall_fmap, Forall_lookup. intros i p Ep. cbn.
      destruct (Hseg i p Ep) as [Hi Hs]. pose proof (sg_length _ _ _ _ _ _ _ _ _ _ Hs) as Hsl. cbn [vh_hdrLen hdrOf] in Hsl. rewrite length_drop. lia. }
    assert (length qs - 1 < length ps)%nat by (apply (Nat.mul_lt_mono_pos_l g); lia).
    destruct (decide (length ps = 0)%nat); [lia|]. destruct (lookup_lt_is_Some_2 ps (length ps - 1)) as [p Ep]; [lia|].
    destruct (Hseg _ _ Ep) as [Hi _]. assert (length ps - 1 < length qs)%nat by (apply (Nat.mul_lt_mono_pos_l g); lia). lia. }
  exists bufs', sizes', ps. rewrite Hps. split; [done|]. split.
  - intros i p Ep. destruct (Hh i p Ep) as (_ & _ & G2 & G3). by split.
  - apply Forall2_same_length_lookup_2; [done|]. intros i q p Eq Ep. destruct (Hseg i p Ep) as [Hi Hs].
    by eapply (segment_data v qs pkt pkt' q0 Hm Hf Ha Hl H0).
Qed.

End Roundtrip.

(** C10: what a write puts out for a group of packets, a read takes apart into as
    many packets, in the order of the group, in buffers that have room for them.
    A single packet is read as it was.  Each packet of a merged group has the
    protocol, the addresses, the ports and the acknowledgement, the payload and
    the sequence number of the one that was merged, its own total length, and a
    valid checksum. *)
Theorem emission_read_back native canUDP (origs : list bytes) (js : list nat) (out : bytes) (bufs : list bytes) (sizes : list Z)
    (offset : nat) :
  emission native canUDP origs js out -> roomToRead offset bufs sizes (packets origs js) ->
  exists bufs' sizes' ps, handleVirtioRead native out bufs sizes offset = Some (bufs', sizes', zlen js, None) /\
    holdsPackets offset bufs bufs' sizes' ps /\ Forall2 (sameData native canUDP) (packets origs js) ps.
Proof.
  intros [(j & -> & ->)|(v & pkt & pkt' & Hl & Hm & Hf & Hz & Ha & ->)] Hr.
  - destruct (read_single native (nth j origs []) bufs sizes offset Hr) as (bufs' & sizes' & E & Hh).
    exists bufs', sizes', [nth j origs []]. split; [exact E|]. split; [done|]. constructor; [by left|done].
  - assert (length (packets origs js) = length js) as El by apply length_fmap.
    destruct (packets origs js) as [|q0 qs] eqn:Eq; [cbn in El; lia|]. rewrite <- El. unfold maxUint16 in Hz.
    apply (read_merged native canUDP v (q0 :: qs) pkt pkt' q0); try done; lia.
Qed.

(** ** Witnesses *)

Lemma sample_emission : exists js out, js ≡ₚ seq 0 3 /\ emission little true (packetOf 16 <$> sample_segments) js out.
Proof.
  destruct (handleGRO_spec little true 16 (packetOf 16 <$> sample_segments) sample_segments [] []) as (s & E & _ & _ & Hok);
    [apply sample_ok|done|by apply Nat.leb_le|].
  assert (handleGRO little [] [] 16 true (mkGro sample_segments newTable newTable []) = Some (s, true)) as E' by exact E.
  destruct (Hok eq_refl) as (groups & Ew & Hp & Hpd). destruct (emitted_packets _ _ _ _ _ _ Hpd) as (outs & _ & He).
  assert (g_toWrite <$> (fst <$> handleGRO little [] [] 16 true (mkGro sample_segments newTable newTable [])) = Some [0%nat]) as E0 by by vm_compute.
  rewrite E' in E0. cbn in E0. injection E0 as E0. rewrite E0 in Ew.
  destruct groups as [|[k js] [|]]; cbn in Ew; [done| |done]. destruct outs as [|out outs]; cbn in He; [by inversion He|].
  apply Forall2_cons in He as [He _]. exists js, out. split; [|done]. cbn [fmap list_fmap snd concat] in Hp. by rewrite app_nil_r in Hp.
Qed.

Lemma emission_read_back_witness :
  exists js out, js ≡ₚ seq 0 3 /\
    exists bufs' sizes' ps, handleVirtioRead little out sample_bufs (replicate 4 0) 16 = Some (bufs', sizes', zlen js, None) /\
      holdsPackets 16 sample_bufs bufs' sizes' ps /\
      Forall2 (sameData little true) (packets (packetOf 16 <$> sample_segments) js) ps.
Proof.
  destruct sample_emission as (js & out & Hp & He). exists js, out. split; [exact Hp|].
  apply (emission_read_back little true (packetOf 16 <$> sample_segments) js out sample_bufs (replicate 4 0) 16); [exact He|].
  assert (length (packets (packetOf 16 <$> sample_segments) js) = 3%nat) as El by (unfold packets; rewrite length_fmap, Hp; reflexivity).
  split; [rewrite El; split; apply Nat.leb_le; reflexivity|].
  apply Forall_replicate. split; [by apply Forall_replicate|]. unfold packets. apply Forall_fmap. rewrite Hp.
  cbn [seq]. repeat (apply Forall_cons; split; [vm_compute; discriminate|]). by apply Forall_nil.
Defined.
