(* ===== verification/Sockets.v ===== *)
(** Control messages of UDP sockets on Linux: the segment size that the kernel
    is told and tells ([conn/gso_linux.go]), and the source address of an
    endpoint ([conn/sticky_linux.go]), over the layout of control messages that
    golang.org/x/sys/unix knows. *)
From S2P Require Import Prelude Checksum.

(** ** What golang.org/x/sys/unix provides *)

Record Cmsghdr := mkCmsghdr { h_Len : Z; h_Level : Z; h_Type : Z }.

Class Sys := {
  native : endian;
  SizeofCmsghdr : nat;
  SizeofInet4Pktinfo : nat;
  SizeofInet6Pktinfo : nat;
  CmsgLen : nat -> nat;
  CmsgSpace : nat -> nat;
  (** a header as it lies in memory *)
  cmsgBytes : Cmsghdr -> bytes;
  (** the header, the data and what comes after the first message; [None] is an error *)
  ParseOneSocketControlMessage : bytes -> option (Cmsghdr * bytes * bytes) }.

Class SysLaws `(Sys) := {
  length_cmsgBytes h : length (cmsgBytes h) = SizeofCmsghdr;
  header_pos : (0 < SizeofCmsghdr)%nat;
  CmsgLen_add n : CmsgLen n = (SizeofCmsghdr + n)%nat;
  CmsgSpace_ge n : (CmsgLen n <= CmsgSpace n)%nat;
  parse_message l t n data pad rest :
    length data = n -> length pad = (CmsgSpace n - CmsgLen n)%nat -> 0 <= l < 2 ^ 31 -> 0 <= t < 2 ^ 31 ->
    Z.of_nat n < 2 ^ 16 ->
    ParseOneSocketControlMessage (cmsgBytes (mkCmsghdr (Z.of_nat (CmsgLen n)) l t) ++ data ++ pad ++ rest)
    = Some (mkCmsghdr (Z.of_nat (CmsgLen n)) l t, data, rest);
  parse_shorter b h data rest :
    ParseOneSocketControlMessage b = Some (h, data, rest) -> (length rest < length b)%nat }.

Definition SOL_UDP : Z := 17.
Definition UDP_SEGMENT : Z := 103.
Definition UDP_GRO : Z := 104.
Definition IPPROTO_IP : Z := 0.
Definition IP_PKTINFO : Z := 8.
Definition IPPROTO_IPV6 : Z := 41.
Definition IPV6_PKTINFO : Z := 50.
Definition sizeOfGSOData : nat := 2.

(** ** The code *)

(** The control bytes of a message: a slice [b[:len]] of memory of its own. *)
Record oob := mkOob { o_mem : bytes; o_len : nat }.
Definition control (o : oob) : bytes := take (o_len o) (o_mem o).

(** The loops over the messages of [control]: what the first message that [f]
    takes gives, if no error comes before it. *)
Inductive scanned (A : Type) := Found (a : A) | NotFound | ScanError.
Arguments Found {A} a.
Arguments NotFound {A}.
Arguments ScanError {A}.

Section Sockets.
Context `{OS : Sys}.

Definition gsoControlSize : nat := CmsgSpace sizeOfGSOData.
Definition stickyControlSize : nat := CmsgSpace SizeofInet6Pktinfo.

(** Every message is shorter than what it is cut from, so the length of
    [control] is enough fuel. *)
Fixpoint scanLoop {A} (f : Cmsghdr -> bytes -> option A) (fuel : nat) (rem : bytes) : option (scanned A) :=
  match fuel with
  | O => None
  | S fuel =>
      if (SizeofCmsghdr <? length rem)%nat then
        match ParseOneSocketControlMessage rem with
        | None => Some ScanError
        | Some (hdr, data, rem) =>
            match f hdr data with
            | Some a => Some (Found a)
            | None => scanLoop f fuel rem
            end
        end
      else Some NotFound
  end.
Definition scan {A} (f : Cmsghdr -> bytes -> option A) (b : bytes) : option (scanned A) :=
  scanLoop f (S (length b)) b.

Definition isMessage (hdr : Cmsghdr) (level type : Z) : bool := (h_Level hdr =? level) && (h_Type hdr =? type).

(** The size in a message of this type. *)
Definition gsoData (type : Z) (hdr : Cmsghdr) (data : bytes) : option Z :=
  if isMessage hdr SOL_UDP type && (sizeOfGSOData <=? length data)%nat
  then Some (native_dec native (take sizeOfGSOData data)) else None.

(** [inl] is the size, 0 when there is none. *)
Definition getGSOSize (b : bytes) : option (Z + unit) :=
  r ← scan (gsoData UDP_GRO) b;
  Some (match r with Found n => inl n | NotFound => inl 0 | ScanError => inr tt end).

Definition setGSOSize (o : oob) (gsoSize : Z) : oob :=
  let existingLen := o_len o in
  let space := CmsgSpace sizeOfGSOData in
  if (length (o_mem o) - existingLen <? space)%nat then o
  else
    let hdr := mkCmsghdr (Z.of_nat (CmsgLen sizeOfGSOData)) SOL_UDP UDP_SEGMENT in
    let mem := copy_at (o_mem o) existingLen (cmsgBytes hdr) in
    let mem := copy_at mem (existingLen + CmsgLen 0) (native_enc native sizeOfGSOData gsoSize) in
    mkOob mem (existingLen + space).

(** The source that the first message with one of the two types gives: its
    header and its data, in a slice made for it. *)
Definition srcData (hdr : Cmsghdr) (data : bytes) : option bytes :=
  let keep (size : nat) := copy_at (copy_at (replicate (CmsgSpace size) 0) 0 (cmsgBytes hdr)) (CmsgLen 0) data in
  if isMessage hdr IPPROTO_IP IP_PKTINFO then Some (keep SizeofInet4Pktinfo)
  else if isMessage hdr IPPROTO_IPV6 IPV6_PKTINFO then Some (keep SizeofInet6Pktinfo)
  else None.

(** The [src] of an endpoint that had none; every caller passes a new one. *)
Definition getSrcFromControl (b : bytes) : option bytes :=
  r ← scan srcData b;
  Some (match r with Found src => src | NotFound | ScanError => [] end).

(** [append] within the capacity. *)
Definition setSrcControl (o : oob) (src : bytes) : oob :=
  if (length (o_mem o) <? length src)%nat then o
  else mkOob (copy_at (o_mem o) 0 src) (length src).

(** ** Lemmas *)

Lemma scanLoop_fuel {A} `{!SysLaws OS} (f : Cmsghdr -> bytes -> option A) fuel rem :
  (length rem < fuel)%nat -> exists r, scanLoop f fuel rem = Some r.
Proof.
  revert rem. induction fuel as [|fuel IH]; intros rem Hf; [lia|]. cbn [scanLoop].
  destruct (SizeofCmsghdr <? length rem)%nat; [|eauto].
  destruct (ParseOneSocketControlMessage rem) as [[[hdr data] rest]|] eqn:E; [|eauto].
  apply parse_shorter in E. destruct (f hdr data); [eauto|]. apply IH. lia.
Qed.

Lemma scan_total {A} `{!SysLaws OS} (f : Cmsghdr -> bytes -> option A) b : exists r, scan f b = Some r.
Proof. apply scanLoop_fuel. lia. Qed.

Lemma scanLoop_mono {A} (f : Cmsghdr -> bytes -> option A) n m b r :
  (n <= m)%nat -> scanLoop f n b = Some r -> scanLoop f m b = Some r.
Proof.
  revert m b. induction n as [|n IH]; intros m b Hnm E; [done|]. destruct m as [|m]; [lia|]. cbn [scanLoop] in *.
  destruct (SizeofCmsghdr <? length b)%nat; [|done].
  destruct (ParseOneSocketControlMessage b) as [[[hdr data] rest]|]; [|done].
  destruct (f hdr data); [done|]. apply IH; [lia|done].
Qed.

(** A message at the front, as [setGSOSize] and the kernel write it. *)
Definition message (l t : Z) (data pad : bytes) : bytes :=
  cmsgBytes (mkCmsghdr (Z.of_nat (CmsgLen (length data))) l t) ++ data ++ pad.

Definition messageOk (l t : Z) (data pad : bytes) : Prop :=
  0 <= l < 2 ^ 31 /\ 0 <= t < 2 ^ 31 /\ 0 < zlen data < 2 ^ 16 /\
  length pad = (CmsgSpace (length data) - CmsgLen (length data))%nat.

Lemma length_message `{!SysLaws OS} l t data pad :
  messageOk l t data pad -> length (message l t data pad) = CmsgSpace (length data).
Proof.
  intros (_ & _ & _ & Hp). unfold message. rewrite !length_app, length_cmsgBytes, Hp.
  pose proof (CmsgLen_add (length data)). pose proof (CmsgSpace_ge (length data)). lia.
Qed.

Lemma scan_message {A} `{!SysLaws OS} (f : Cmsghdr -> bytes -> option A) l t data pad rest :
  messageOk l t data pad ->
  scan f (message l t data pad ++ rest)
  = match f (mkCmsghdr (Z.of_nat (CmsgLen (length data))) l t) data with
    | Some a => Some (Found a)
    | None => scan f rest
    end.
Proof.
  intros Hm. pose proof (length_message _ _ _ _ Hm) as Hlen. destruct Hm as (Hl & Ht & Hd & Hp).
  pose proof (CmsgSpace_ge (length data)) as Hs. pose proof (CmsgLen_add (length data)) as Hc.
  unfold scan at 1. cbn [scanLoop]. rewrite length_app, Hlen.
  rewrite (proj2 (Nat.ltb_lt _ _)) by lia.
  unfold message. rewrite <- !(assoc_L app). rewrite parse_message by (done || lia).
  destruct (f _ data); [done|]. unfold scan.
  destruct (scanLoop_fuel f (S (length rest)) rest) as [r E]; [lia|]. rewrite E.
  eapply scanLoop_mono; [|exact E]. lia.
Qed.

Lemma scan_nil {A} `{!SysLaws OS} (f : Cmsghdr -> bytes -> option A) : scan f [] = Some NotFound.
Proof.
  unfold scan. cbn [scanLoop length]. pose proof header_pos. by rewrite (proj2 (Nat.ltb_ge _ _)) by lia.
Qed.

End Sockets.

(** ** A concrete instance: 64-bit little-endian Linux *)

Definition cmsgAlign (n : nat) : nat := ((n + 7) / 8 * 8)%nat.

Definition linuxParse (b : bytes) : option (Cmsghdr * bytes * bytes) :=
  let len := Z.to_nat (le_dec (slice 0 8 b)) in
  if (len <? 16)%nat || (length b <? len)%nat then None
  else Some (mkCmsghdr (le_dec (slice 0 8 b)) (le_dec (slice 8 12 b)) (le_dec (slice 12 16 b)),
             slice 16 len b, drop (cmsgAlign len) b).

Definition linuxSys : Sys := {|
  native := little;
  SizeofCmsghdr := 16;
  SizeofInet4Pktinfo := 12;
  SizeofInet6Pktinfo := 20;
  CmsgLen n := (16 + n)%nat;
  CmsgSpace n := (16 + cmsgAlign n)%nat;
  cmsgBytes h := le_enc 8 (h_Len h) ++ le_enc 4 (h_Level h) ++ le_enc 4 (h_Type h);
  ParseOneSocketControlMessage := linuxParse |}.

Lemma cmsgAlign_ge n : (n <= cmsgAlign n)%nat.
Proof. unfold cmsgAlign. pose proof (Nat.div_mod_eq (n + 7) 8). pose proof (Nat.mod_upper_bound (n + 7) 8). lia. Qed.

Lemma cmsgAlign_16 n : cmsgAlign (16 + n) = (16 + cmsgAlign n)%nat.
Proof. unfold cmsgAlign. replace (16 + n + 7)%nat with (n + 7 + 2 * 8)%nat by lia. rewrite Nat.div_add by lia. lia. Qed.

#[export] Instance linuxSys_laws : SysLaws linuxSys.
Proof.
  split; cbn [SizeofCmsghdr CmsgLen CmsgSpace cmsgBytes ParseOneSocketControlMessage linuxSys].
  - intros [? ? ?]. by rewrite !length_app, !length_le_enc.
  - lia.
  - done.
  - intros n. pose proof (cmsgAlign_ge n). lia.
  - intros l t n data pad rest Hd Hp Hl Ht Hn. pose proof (cmsgAlign_ge n) as Hge. cbn [h_Len h_Level h_Type].
    set (b1 := le_enc 8 _). set (b2 := le_enc 4 l). set (b3 := le_enc 4 t).
    assert (length b1 = 8%nat /\ length b2 = 4%nat /\ length b3 = 4%nat) as (L1 & L2 & L3) by (unfold b1, b2, b3; by rewrite !length_le_enc).
    rewrite <- !(assoc_L app). unfold linuxParse.
    rewrite (slice_app_first b1) by (done || lia). rewrite (slice_app_mid b1 b2) by lia.
    assert (E3 : slice 12 16 (b1 ++ b2 ++ b3 ++ data ++ pad ++ rest) = b3).
    { rewrite (assoc_L app b1). apply slice_app_mid; rewrite ?length_app; lia. }
    assert (le_dec b1 = Z.of_nat (16 + n) /\ le_dec b2 = l /\ le_dec b3 = t) as (-> & D2 & D3).
    { unfold b1, b2, b3. rewrite !le_dec_enc by (cbn; lia). done. }
    rewrite E3, D2, D3, Nat2Z.id.
    rewrite (proj2 (Nat.ltb_ge (16 + n) 16)) by lia.
    rewrite (proj2 (Nat.ltb_ge _ (16 + n))) by (rewrite !length_app; lia). cbn [orb].
    do 3 f_equal.
    + replace (b1 ++ b2 ++ b3 ++ data ++ pad ++ rest) with ((b1 ++ b2 ++ b3) ++ data ++ pad ++ rest) by (by rewrite <- !(assoc_L app)).
      apply slice_app_mid; rewrite ?length_app; lia.
    + rewrite cmsgAlign_16, !(assoc_L app). apply drop_app_length'. rewrite !length_app. lia.
  - intros b h data rest. unfold linuxParse. set (len := Z.to_nat _).
    destruct (Nat.ltb_spec len 16) as [|H1], (Nat.ltb_spec (length b) len) as [|H2]; cbn [orb]; try done.
    intros [= <- <- <-]. rewrite length_drop. pose proof (cmsgAlign_ge len). lia.
Qed.
