(* ===== verification/BindStd.v ===== *)
(** The UDP bind on Linux, [conn/bind_std.go]: opening and closing the two
    sockets, sending batches with segmentation offload and receiving them.

    Buffers are slices of arrays in a store, so that the code's aliasing is the
    model's: a slice is an array and a length, and what one slice writes another
    of the same array reads.  The answers of the system calls are arguments.
    [None] is a panic, or a system call that has not answered. *)
From S2P Require Import Prelude Replay Ratelimiter Checksum Messages NoiseHelpers Cookie AllowedIPs State.
From S2P Require Import Sockets Offload Gro.

(** ** Data *)

Inductive bindError :=
  | EAFNOSUPPORT | EADDRINUSE | EIO | ErrBindAlreadyOpen | ErrSplitOverflow | ErrControl | ErrSystem (code : Z).
#[export] Instance bindError_eq_dec : EqDecision bindError.
Proof. solve_decision. Defined.

(** What [Send] returns: an error of its own wraps that of the second attempt. *)
Inductive sendError := SendErr (e : bindError) | ErrUDPGSODisabled (RetryErr : option bindError).

(** [errShouldDisableUDPGSO] *)
Definition errShouldDisableUDPGSO (e : bindError) : bool := bool_decide (e = EIO).

(** [b[:len]] of an array of the store. *)
Record Slice := mkSlice { s_arr : nat; s_len : nat }.

Definition capOf (arrs : list bytes) (b : Slice) : option nat := a ← arrs !! s_arr b; Some (length a).
(** [b[start:end]], which Go allows up to the capacity. *)
Definition bytesOf (arrs : list bytes) (b : Slice) (start end_ : nat) : option bytes :=
  a ← arrs !! s_arr b;
  _ ← orElse ((start <=? end_) && (end_ <=? length a))%nat;
  Some (slice start end_ a).
Definition dataOf (arrs : list bytes) (b : Slice) : option bytes := bytesOf arrs b 0 (s_len b).
(** [copy(b, data)] *)
Definition copyIn (arrs : list bytes) (b : Slice) (data : bytes) : option (list bytes) :=
  a ← arrs !! s_arr b; Some (<[s_arr b := copy_at a 0 (take (s_len b) data)]> arrs).

Abbreviation udpAddr := (bytes * Z)%type.

(** [ipv6.Message], with one buffer. *)
Record Message := mkMessage { m_buf : Slice; m_oob : oob; m_addr : option udpAddr; m_N : nat; m_NN : nat }.
#[export] Instance Message_settable : Settable Message := fun m =>
  mkMessage (m_buf m) (m_oob m) (m_addr m) (m_N m) (m_NN m).

(** A [net.UDPAddr] of the pool: the 16 bytes behind its [IP], and its length. *)
Record UDPAddr := mkUDPAddr { ua_mem : bytes; ua_len : nat; ua_Port : Z }.
Definition newUDPAddr : UDPAddr := mkUDPAddr (replicate 16 0) 16 0.

(** A socket is the port it is bound to. *)
Record StdNetBind := mkBind {
  ipv4 : option Z; ipv6 : option Z;
  ipv4TxOffload : bool; ipv4RxOffload : bool; ipv6TxOffload : bool; ipv6RxOffload : bool;
  blackhole4 : bool; blackhole6 : bool }.
#[export] Instance StdNetBind_settable : Settable StdNetBind := fun s =>
  mkBind (ipv4 s) (ipv6 s) (ipv4TxOffload s) (ipv4RxOffload s) (ipv6TxOffload s) (ipv6RxOffload s)
    (blackhole4 s) (blackhole6 s).
Definition NewStdNetBind : StdNetBind := mkBind None None false false false false false false.

Definition maxIPv4PayloadLen : nat := Z.to_nat (65535 - 20 - 8).
Definition maxIPv6PayloadLen : nat := Z.to_nat (65535 - 8).
Definition udpSegmentMaxDatagrams : nat := 64.

(** ** Opening and closing *)

(** [listenNet]: the port of the new socket, or an error. *)
Abbreviation listened := (Z + bindError)%type.

(** The socket, and the port that the variable [port] has afterwards: 0 when
    there is an error.  [inr] when [Open] gives up. *)
Definition socketOf (r : listened) : (option Z * Z) + bindError :=
  match r with
  | inl port => inl (Some port, port)
  | inr EAFNOSUPPORT => inl (None, 0)
  | inr e => inr e
  end.

(** The attempts that are left; [listen] answers by family, attempt and port. *)
Fixpoint openSockets (listen : bool -> nat -> Z -> listened) (uport : Z) (more tries : nat)
    : (option Z * option Z * Z) + bindError :=
  match socketOf (listen false tries uport) with
  | inr e => inr e
  | inl (v4conn, port) =>
      let r := listen true tries port in
      match more with
      | S more =>
          if (uport =? 0) && bool_decide (r = inr EADDRINUSE) then openSockets listen uport more (S tries)
          else match socketOf r with inr e => inr e | inl (v6conn, port) => inl (v4conn, v6conn, port) end
      | O => match socketOf r with inr e => inr e | inl (v6conn, port) => inl (v4conn, v6conn, port) end
      end
  end.

(** A [ReceiveFunc] is its family and whether it splits what it reads.
    [offload] is what [supportsUDPOffload] says of a socket: TX and RX. *)
Definition Open (listen : bool -> nat -> Z -> listened) (offload : bool -> bool * bool) (uport : Z) (s : StdNetBind)
    : StdNetBind * (list (bool * bool) * Z + bindError) :=
  match ipv4 s, ipv6 s with
  | None, None =>
      match openSockets listen uport 100 0 with
      | inr e => (s, inr e)
      | inl (v4conn, v6conn, port) =>
          let '(s, fns) :=
            match v4conn with
            | Some c =>
                let '(tx, rx) := offload false in
                (s <| ipv4TxOffload := tx |> <| ipv4RxOffload := rx |> <| ipv4 := Some c |>, [(false, rx)])
            | None => (s, [])
            end in
          let '(s, fns) :=
            match v6conn with
            | Some c =>
                let '(tx, rx) := offload true in
                (s <| ipv6TxOffload := tx |> <| ipv6RxOffload := rx |> <| ipv6 := Some c |>, fns ++ [(true, rx)])
            | None => (s, fns)
            end in
          if bool_decide (fns = []) then (s, inr EAFNOSUPPORT) else (s, inl (fns, u16 port))
      end
  | _, _ => (s, inr ErrBindAlreadyOpen)
  end.

(** [err4] and [err6] are what closing the sockets answers. *)
Definition Close (err4 err6 : option bindError) (s : StdNetBind) : StdNetBind * option bindError :=
  let err1 := match ipv4 s with Some _ => err4 | None => None end in
  let err2 := match ipv6 s with Some _ => err6 | None => None end in
  (NewStdNetBind, match err1 with Some _ => err1 | None => err2 end).

Section Bind.
Context `{OS : Sys}.

(** ** Messages *)

(** A message of the pool: [putMessages] resets all but the buffer. *)
Definition resetMessage (m : Message) : Message :=
  mkMessage (m_buf m) (mkOob (o_mem (m_oob m)) 0) None 0 0.
Definition putMessages (msgs : list Message) : list Message := resetMessage <$> msgs.

Definition msgAt (msgs : list Message) (i : Z) : option Message :=
  if i <? 0 then None else msgs !! Z.to_nat i.
Definition setMsg (i : Z) (m : Message) (msgs : list Message) : list Message := <[Z.to_nat i := m]> msgs.

(** ** Sending *)

(** The variables of [coalesceMessages]. *)
Record batch := mkBatch {
  c_base : Z; c_gsoSize : nat; c_dgramCnt : nat; c_endBatch : bool;
  c_arrs : list bytes; c_msgs : list Message }.

(** The datagram of [buf] joins the message at [base], if it may. *)
Definition joinBase (maxPayloadLen : nat) (setGSO : oob -> Z -> oob) (last : bool) (buf : Slice) (c : batch)
    : option (option batch) :=
  m ← msgAt (c_msgs c) (c_base c);
  let msgLen := s_len buf in
  let baseLenBefore := s_len (m_buf m) in
  capacity ← capOf (c_arrs c) (m_buf m);
  if (msgLen + baseLenBefore <=? maxPayloadLen)%nat && (msgLen <=? c_gsoSize c)%nat &&
     (msgLen <=? capacity - baseLenBefore)%nat && (c_dgramCnt c <? udpSegmentMaxDatagrams)%nat && negb (c_endBatch c)
  then
    data ← dataOf (c_arrs c) buf;
    a ← c_arrs c !! s_arr (m_buf m);
    let arrs := <[s_arr (m_buf m) := copy_at a baseLenBefore data]> (c_arrs c) in
    let m := m <| m_buf := mkSlice (s_arr (m_buf m)) (baseLenBefore + msgLen) |> in
    let m := if last then m <| m_oob ::= fun o => setGSO o (u16 (Z.of_nat (c_gsoSize c))) |> else m in
    Some (Some (mkBatch (c_base c) (c_gsoSize c) (S (c_dgramCnt c)) (msgLen <? c_gsoSize c)%nat
      arrs (setMsg (c_base c) m (c_msgs c))))
  else Some None.

(** It starts a message of its own. *)
Definition startBase (addr : udpAddr) (src : bytes) (setGSO : oob -> Z -> oob) (buf : Slice) (c : batch) : option batch :=
  msgs ← (if (1 <? c_dgramCnt c)%nat then
            m ← msgAt (c_msgs c) (c_base c);
            Some (setMsg (c_base c) (m <| m_oob ::= fun o => setGSO o (u16 (Z.of_nat (c_gsoSize c))) |>) (c_msgs c))
          else Some (c_msgs c));
  let base := c_base c + 1 in
  m ← msgAt msgs base;
  let m := m <| m_oob ::= fun o => setSrcControl o src |> <| m_buf := buf |> <| m_addr := Some addr |> in
  Some (mkBatch base (s_len buf) 1 false (c_arrs c) (setMsg base m msgs)).

Fixpoint coalesceLoop (addr : udpAddr) (src : bytes) (maxPayloadLen : nat) (setGSO : oob -> Z -> oob) (first : bool)
    (bufs : list Slice) (c : batch) : option batch :=
  match bufs with
  | [] => Some c
  | buf :: bufs =>
      joined ← (if first then Some None else joinBase maxPayloadLen setGSO (bool_decide (bufs = [])) buf c);
      c ← (match joined with Some c => Some c | None => startBase addr src setGSO buf c end);
      coalesceLoop addr src maxPayloadLen setGSO false bufs c
  end.

Definition is6 (ep : Endpoint) : bool := (16 <=? length (DstIP ep))%nat.

(** The number of messages, and the store and the messages afterwards. *)
Definition coalesceMessages (addr : udpAddr) (ep : Endpoint) (bufs : list Slice) (arrs : list bytes) (msgs : list Message)
    (setGSO : oob -> Z -> oob) : option (nat * list bytes * list Message) :=
  let maxPayloadLen := if is6 ep then maxIPv6PayloadLen else maxIPv4PayloadLen in
  c ← coalesceLoop addr (ep_src ep) maxPayloadLen setGSO true bufs (mkBatch (-1) 0 0 false arrs msgs);
  Some (Z.to_nat (c_base c + 1), c_arrs c, c_msgs c).

(** What the kernel is given of a message. *)
Record wire := mkWire { w_data : bytes; w_control : bytes; w_addr : option udpAddr }.
Definition wireOf (arrs : list bytes) (m : Message) : option wire :=
  data ← dataOf arrs (m_buf m); Some (mkWire data (control (m_oob m)) (m_addr m)).

(** The answers of [WriteBatch], each the number of messages written, never
    more than it was given, and an error.  The messages written, the error and
    the answers that are left. *)
Fixpoint sendLoop (answers : list (nat * option bindError)) (msgs : list wire)
    : option (list wire * option bindError * list (nat * option bindError)) :=
  match answers with
  | [] => None
  | (n, err) :: answers =>
      let n := Nat.min n (length msgs) in
      match err with
      | Some e => Some (take n msgs, Some e, answers)
      | None =>
          if (n =? length msgs)%nat then Some (msgs, None, answers)
          else
            '(rest, err, answers) ← sendLoop answers (drop n msgs);
            Some (take n msgs ++ rest, err, answers)
      end
  end.

(** The message of a buffer, without offload. *)
Fixpoint plainMessages (addr : udpAddr) (src : bytes) (bufs : list Slice) (msgs : list Message) : option (list Message) :=
  match bufs, msgs with
  | [], _ => Some msgs
  | _ :: _, [] => None
  | buf :: bufs, m :: msgs =>
      msgs ← plainMessages addr src bufs msgs;
      Some (m <| m_addr := Some addr |> <| m_buf := buf |> <| m_oob ::= fun o => setSrcControl o src |> :: msgs)
  end.

(** The address of the pool becomes the destination of [ep]. *)
Definition setAddr (ua : UDPAddr) (ep : Endpoint) : option UDPAddr :=
  let assign (as_ : bytes) (len : nat) :=
    Some (mkUDPAddr (copy_at (ua_mem ua) 0 (take (ua_len ua) as_)) len (ep_port ep)) in
  if is6 ep then assign (take 16 (DstIP ep)) 16%nat
  else _ ← orElse (length (DstIP ep) =? 4)%nat; assign (DstIP ep) 4%nat.

Definition addrOf (ua : UDPAddr) : udpAddr := (take (ua_len ua) (ua_mem ua), ua_Port ua).

Record SendResult := mkSendResult {
  sr_err : option sendError; sr_bind : StdNetBind; sr_addr : option UDPAddr; sr_arrs : list bytes;
  sr_msgs : list Message; sr_wire : list (list wire) }.

(** [ua] and [msgs] are what the pools give, and [sr_addr] and [sr_msgs] what
    they get back; [sr_wire] is what each call of [send] has written. *)
Definition Send (answers : list (nat * option bindError)) (ua : UDPAddr) (msgs : list Message) (arrs : list bytes)
    (bufs : list Slice) (ep : Endpoint) (s : StdNetBind) : option SendResult :=
  let v6 := is6 ep in
  let blackhole := if v6 then blackhole6 s else blackhole4 s in
  let conn := if v6 then ipv6 s else ipv4 s in
  let offload := if v6 then ipv6TxOffload s else ipv4TxOffload s in
  if blackhole then Some (mkSendResult None s None arrs msgs [])
  else
    match conn with
    | None => Some (mkSendResult (Some (SendErr EAFNOSUPPORT)) s None arrs msgs [])
    | Some _ =>
        ua ← setAddr ua ep;
        let plain (answers : list (nat * option bindError)) (arrs : list bytes) (msgs : list Message) :=
          msgs ← plainMessages (addrOf ua) (ep_src ep) bufs msgs;
          batch ← mapM (wireOf arrs) (take (length bufs) msgs);
          '(written, err, _) ← sendLoop answers batch;
          Some (written, err, arrs, msgs) in
        let finish (err : option sendError) (s : StdNetBind) (arrs : list bytes) (msgs : list Message)
            (written : list (list wire)) :=
          Some (mkSendResult err s (Some ua) arrs (putMessages msgs) written) in
        if offload then
          '(n, arrs, msgs) ← coalesceMessages (addrOf ua) ep bufs arrs msgs setGSOSize;
          batch ← mapM (wireOf arrs) (take n msgs);
          '(written, err, answers) ← sendLoop answers batch;
          match err with
          | Some e =>
              if errShouldDisableUDPGSO e then
                let s := if v6 then s <| ipv6TxOffload := false |> else s <| ipv4TxOffload := false |> in
                '(written2, err2, arrs, msgs) ← plain answers arrs msgs;
                finish (Some (ErrUDPGSODisabled err2)) s arrs msgs [written; written2]
              else finish (Some (SendErr e)) s arrs msgs [written]
          | None => finish None s arrs msgs [written]
          end
        else
          '(written, err, arrs, msgs) ← plain answers arrs msgs;
          finish (SendErr <$> err) s arrs msgs [written]
    end.

(** ** Receiving *)

(** A datagram as [ReadBatch] gives it: data, control bytes and sender. *)
Record datagram := mkDatagram { dg_data : bytes; dg_control : bytes; dg_addr : udpAddr }.

(** [ReadBatch] puts one into the buffer and the control bytes of a message. *)
Definition readMessage (d : datagram) (arrs : list bytes) (m : Message) : option (list bytes * Message) :=
  arrs ← copyIn arrs (m_buf m) (dg_data d);
  let o := m_oob m in
  Some (arrs, mkMessage (m_buf m) (mkOob (copy_at (o_mem o) 0 (take (o_len o) (dg_control d))) (o_len o))
    (Some (dg_addr d)) (Nat.min (s_len (m_buf m)) (length (dg_data d))) (Nat.min (o_len o) (length (dg_control d)))).

(** At most as many as there are messages, into the first ones. *)
Fixpoint ReadBatch (ds : list datagram) (arrs : list bytes) (msgs : list Message) : option (list bytes * list Message) :=
  match ds, msgs with
  | d :: ds, m :: msgs =>
      '(arrs, m) ← readMessage d arrs m;
      '(arrs, msgs) ← ReadBatch ds arrs msgs;
      Some (arrs, m :: msgs)
  | _, _ => Some (arrs, msgs)
  end.

(** The variables of [splitCoalescedMessages]; [sp_err] when it returns early. *)
Record split := mkSplit { sp_n : nat; sp_arrs : list bytes; sp_msgs : list Message }.

(** The loop over [j], with [todo] turns left; [inr] is the overflow. *)
Fixpoint splitOne (i : nat) (gsoSize : nat) (todo start end_ : nat) (st : split) : option (split + split) :=
  match todo with
  | O => Some (inl st)
  | S todo =>
      if (i <? sp_n st)%nat then Some (inr st)
      else
        msg ← sp_msgs st !! i;
        data ← bytesOf (sp_arrs st) (m_buf msg) start end_;
        dst ← sp_msgs st !! sp_n st;
        arrs ← copyIn (sp_arrs st) (m_buf dst) data;
        let copied := Nat.min (s_len (m_buf dst)) (length data) in
        let msgs := <[sp_n st := dst <| m_N := copied |> <| m_addr := m_addr msg |>]> (sp_msgs st) in
        msg ← msgs !! i;
        splitOne i gsoSize todo end_ (Nat.min (end_ + gsoSize) (m_N msg)) (mkSplit (S (sp_n st)) arrs msgs)
  end.

(** The loop over [i], with [todo] messages left: the number of messages and
    the error it returns. *)
Fixpoint splitLoop (getGSO : bytes -> option (Z + unit)) (todo i : nat) (st : split) : option (split * option bindError) :=
  match todo with
  | O => Some (st, None)
  | S todo =>
      msg ← sp_msgs st !! i;
      if (m_N msg =? 0)%nat then Some (st, None)
      else
        size ← getGSO (take (m_NN msg) (control (m_oob msg)));
        match size with
        | inr _ => Some (st, Some ErrControl)
        | inl size =>
            let gsoSize := Z.to_nat size in
            let numToSplit := if (0 <? gsoSize)%nat then ((m_N msg + gsoSize - 1) / gsoSize)%nat else 1%nat in
            let end_ := if (0 <? gsoSize)%nat then gsoSize else m_N msg in
            r ← splitOne i gsoSize numToSplit 0 end_ st;
            match r with
            | inr st => Some (st, Some ErrSplitOverflow)
            | inl st =>
                msg ← sp_msgs st !! i;
                let msgs := if (S i =? sp_n st)%nat then sp_msgs st else <[i := msg <| m_N := 0%nat |>]> (sp_msgs st) in
                splitLoop getGSO todo (S i) (mkSplit (sp_n st) (sp_arrs st) msgs)
            end
        end
  end.

Definition splitCoalescedMessages (arrs : list bytes) (msgs : list Message) (firstMsgAt : nat)
    (getGSO : bytes -> option (Z + unit)) : option (split * option bindError) :=
  splitLoop getGSO (length msgs - firstMsgAt) firstMsgAt (mkSplit 0 arrs msgs).

(** The messages of the pool take the buffers, and all of their control bytes. *)
Fixpoint takeBuffers (bufs : list Slice) (msgs : list Message) : option (list Message) :=
  match bufs, msgs with
  | [], _ => Some msgs
  | _ :: _, [] => None
  | buf :: bufs, m :: msgs =>
      msgs ← takeBuffers bufs msgs;
      Some (m <| m_buf := buf |> <| m_oob ::= fun o => mkOob (o_mem o) (length (o_mem o)) |> :: msgs)
  end.

(** The messages read, and how many; [answer] is that of [ReadBatch]. *)
Definition readMessages (rxOffload : bool) (answer : list datagram + bindError) (arrs : list bytes) (msgs : list Message)
    : option (split * option bindError) :=
  match answer with
  | inr e => Some (mkSplit 0 arrs msgs, Some e)
  | inl ds =>
      if rxOffload then
        let readAt := (length msgs - IdealBatchSize / udpSegmentMaxDatagrams)%nat in
        '(arrs, back) ← ReadBatch ds arrs (drop readAt msgs);
        splitCoalescedMessages arrs (take readAt msgs ++ back) readAt getGSOSize
      else
        '(arrs, msgs) ← ReadBatch ds arrs msgs;
        Some (mkSplit (Nat.min (length ds) (length msgs)) arrs msgs, None)
  end.

(** The caller's slices, and the packets given to [OnStunPacket]. *)
Record received := mkReceived {
  rv_arrs : list bytes; rv_bufs : list Slice; rv_sizes : list nat; rv_eps : list (option Endpoint);
  rv_writeIdx : nat; rv_stun : list (bytes * udpAddr) }.

Definition isStun (data : bytes) : bool :=
  (20 <=? length data)%nat && ((nth 0 data 0 =? 0) || (nth 0 data 0 =? 1)) &&
  (nth 4 data 0 =? 0x21) && (nth 5 data 0 =? 0x12) && (nth 6 data 0 =? 0xA4) && (nth 7 data 0 =? 0x42).

(** [AddrPort()]: a zone comes after the bytes of the address, as in [ep_addr]. *)
Definition endpointOf (addr : udpAddr) (src : bytes) : Endpoint := mkEndpoint addr.1 addr.2 src.

(** Message [i]; [callback] is whether [OnStunPacket] is set. *)
Definition receiveOne (callback : bool) (i : nat) (msg : Message) (r : received) : option received :=
  data ← bytesOf (rv_arrs r) (m_buf msg) 0 (m_N msg);
  if isStun data then
    Some (match callback, m_addr msg with
          | true, Some addr =>
              mkReceived (rv_arrs r) (rv_bufs r) (rv_sizes r) (rv_eps r) (rv_writeIdx r) (rv_stun r ++ [(data, addr)])
          | _, _ => r
          end)
  else if (m_N msg =? 0)%nat then Some r
  else
    let k := rv_writeIdx r in
    '(bufs, arrs) ← (if (k =? i)%nat then Some (rv_bufs r, rv_arrs r)
                     else
                       buf ← rv_bufs r !! i;
                       _ ← rv_bufs r !! k;
                       arrs ← copyIn (rv_arrs r) buf data;
                       Some (<[k := buf]> (rv_bufs r), arrs));
    addr ← m_addr msg;
    _ ← rv_sizes r !! k;
    _ ← rv_eps r !! k;
    src ← getSrcFromControl (take (m_NN msg) (control (m_oob msg)));
    Some (mkReceived arrs bufs (<[k := m_N msg]> (rv_sizes r)) (<[k := Some (endpointOf addr src)]> (rv_eps r))
      (S k) (rv_stun r)).

Fixpoint receiveLoop (callback : bool) (i : nat) (msgs : list Message) (r : received) : option received :=
  match msgs with
  | [] => Some r
  | msg :: msgs => r ← receiveOne callback i msg r; receiveLoop callback (S i) msgs r
  end.

(** The number of packets or an error, the caller's slices, and what goes back
    to the pool. *)
Definition receiveIP (callback rxOffload : bool) (answer : list datagram + bindError) (arrs : list bytes)
    (msgs : list Message) (bufs : list Slice) (sizes : list nat) (eps : list (option Endpoint))
    : option (received * option bindError * list Message) :=
  msgs ← takeBuffers bufs msgs;
  '(st, err) ← readMessages rxOffload answer arrs msgs;
  let r := mkReceived (sp_arrs st) bufs sizes eps 0 [] in
  match err with
  | Some e => Some (r, Some e, putMessages (sp_msgs st))
  | None =>
      r ← receiveLoop callback 0 (take (sp_n st) (sp_msgs st)) r;
      Some (r, None, putMessages (sp_msgs st))
  end.

End Bind.
