(* ===== verification/BindSpec.v ===== *)
(** What the UDP bind sends: whatever is merged into one message the kernel
    parts again, so every datagram goes out once and as it was, also when the
    kernel refuses segmentation offload. *)
From S2P Require Import Prelude Replay Ratelimiter Checksum Messages NoiseHelpers Cookie AllowedIPs State.
From S2P Require Import Sockets Offload Gro BindStd.

(** ** Specification *)

(** A datagram on the wire: where to, from which source, and its payload. *)
Record sent := mkSent { st_dst : option udpAddr; st_src : bytes; st_data : bytes }.

Section BindSpec.
Context `{OS : Sys} `{SL : !SysLaws OS}.

(** The datagrams the kernel makes of a message: it cuts the payload by the
    size in a [UDP_SEGMENT] control message. *)
Definition datagrams (w : wire) : list sent :=
  let src := default [] (getSrcFromControl (w_control w)) in
  let payloads :=
    match scan (gsoData UDP_SEGMENT) (w_control w) with
    | Some (Found g) => if 0 <? g then pieces (Z.to_nat g) (w_data w) else [w_data w]
    | _ => [w_data w]
    end in
  mkSent (w_addr w) src <$> payloads.

(** A source is none, or the packet info that [getSrcFromControl] keeps. *)
Definition srcOk (src : bytes) : Prop :=
  src = [] \/
  exists v6 data,
    let l := if (v6 : bool) then IPPROTO_IPV6 else IPPROTO_IP in
    let t := if v6 then IPV6_PKTINFO else IP_PKTINFO in
    let pad := replicate (CmsgSpace (length data) - CmsgLen (length data)) 0 in
    length data = (if v6 then SizeofInet6Pktinfo else SizeofInet4Pktinfo) /\
    messageOk l t data pad /\ src = message l t data pad /\ (length src <= stickyControlSize)%nat.

(** The control bytes of a pooled message hold a source and a segment size. *)
Definition roomy (m : Message) : Prop := length (o_mem (m_oob m)) = (stickyControlSize + gsoControlSize)%nat.

(** ** Control messages *)

Lemma segmentMessage_ok g pad : length pad = (CmsgSpace sizeOfGSOData - CmsgLen sizeOfGSOData)%nat ->
  messageOk SOL_UDP UDP_SEGMENT (native_enc native sizeOfGSOData g) pad.
Proof. intros Hp. repeat split; rewrite ?length_native_enc; unfold SOL_UDP, UDP_SEGMENT, sizeOfGSOData in *; lia || done. Qed.

Lemma setGSOSize_control o g : (o_len o + gsoControlSize <= length (o_mem o))%nat ->
  exists pad, messageOk SOL_UDP UDP_SEGMENT (native_enc native sizeOfGSOData g) pad /\
    control (setGSOSize o g) = control o ++ message SOL_UDP UDP_SEGMENT (native_enc native sizeOfGSOData g) pad /\
    length (o_mem (setGSOSize o g)) = length (o_mem o).
Proof.
  intros Hr. unfold gsoControlSize in Hr. unfold setGSOSize, control. destruct o as [mem len]. cbn [o_mem o_len] in *.
  rewrite (proj2 (Nat.ltb_ge _ _)) by lia. cbn [o_mem o_len].
  set (hdr := cmsgBytes _). assert (Hh : length hdr = SizeofCmsghdr) by apply length_cmsgBytes.
  set (gs := native_enc native sizeOfGSOData g). assert (Hg : length gs = sizeOfGSOData) by apply length_native_enc.
  pose proof (CmsgLen_add 0) as H0. pose proof (CmsgLen_add sizeOfGSOData) as H2. pose proof (CmsgSpace_ge sizeOfGSOData) as Hs.
  unfold sizeOfGSOData in *. rewrite H0, Nat.add_0_r in *.
  rewrite (copy_at_fit mem) by lia. rewrite Hh.
  set (mem1 := take len mem ++ hdr ++ drop (len + SizeofCmsghdr) mem).
  assert (E1 : take (len + SizeofCmsghdr) mem1 = take len mem ++ hdr).
  { unfold mem1. rewrite (assoc_L app). apply take_app_length'. rewrite length_app, length_take. lia. }
  assert (E2 : drop (len + SizeofCmsghdr + 2) mem1 = drop (len + SizeofCmsghdr + 2) mem).
  { unfold mem1. rewrite (assoc_L app), drop_app_ge by (rewrite length_app, length_take; lia).
    rewrite drop_drop. f_equal. rewrite length_app, length_take. lia. }
  assert (L1 : length mem1 = length mem) by (unfold mem1; rewrite !length_app, length_take, length_drop; lia).
  rewrite (copy_at_fit mem1) by lia. rewrite Hg, E1, E2.
  exists (take (CmsgSpace 2 - CmsgLen 2) (drop (len + SizeofCmsghdr + 2) mem)). split_and!.
  - apply segmentMessage_ok. rewrite length_take, length_drop. unfold sizeOfGSOData. lia.
  - unfold message. fold gs. rewrite Hg. fold hdr.
    rewrite <- (assoc_L app), take_app_ge by (rewrite length_take; lia). f_equal.
    rewrite take_app_ge by (rewrite length_take; lia). f_equal.
    rewrite take_app_ge by (rewrite length_take; lia). f_equal. f_equal. rewrite length_take. lia.
  - rewrite !length_app, length_take, length_drop. lia.
Qed.

Lemma setSrcControl_control o src : (length src <= length (o_mem o))%nat ->
  control (setSrcControl o src) = src /\ length (o_mem (setSrcControl o src)) = length (o_mem o) /\
  o_len (setSrcControl o src) = length src.
Proof.
  intros Hl. unfold setSrcControl, control. rewrite (proj2 (Nat.ltb_ge _ _)) by lia. cbn [o_mem o_len].
  rewrite length_copy. split; [|done].
  rewrite copy_at_fit by lia.
  rewrite take_0. exact (take_app_length src _).
Qed.

(** A segment size after a source is found, and the source is. *)
Lemma scan_gso src g rest : srcOk src ->
  scan (gsoData g) (src ++ rest) = scan (gsoData g) rest.
Proof.
  intros [->|(v6 & data & Hd & Hm & -> & _)]; [done|]. rewrite scan_message by done.
  unfold gsoData, isMessage. cbn [h_Level h_Type]. by destruct v6.
Qed.

(** The slice that [getSrcFromControl] makes is the message itself. *)
Lemma keep_message h data n : length data = n ->
  copy_at (copy_at (replicate (CmsgSpace n) 0) 0 (cmsgBytes h)) (CmsgLen 0) data
  = cmsgBytes h ++ data ++ replicate (CmsgSpace n - CmsgLen n) 0.
Proof.
  intros <-. pose proof (CmsgLen_add 0) as H0. pose proof (CmsgLen_add (length data)) as H2.
  pose proof (CmsgSpace_ge (length data)) as Hs. rewrite H0, Nat.add_0_r.
  rewrite (copy_at_fit (replicate _ _)) by (rewrite length_cmsgBytes, length_replicate; lia).
  rewrite take_0, length_cmsgBytes, drop_replicate. cbn [app]. rewrite copy_at_fit.
  - rewrite (take_app_length' (cmsgBytes h)) by by rewrite length_cmsgBytes.
    rewrite drop_app_ge, length_cmsgBytes, drop_replicate by (rewrite length_cmsgBytes; lia). do 3 f_equal. lia.
  - rewrite length_app, length_cmsgBytes, length_replicate. lia.
Qed.

Lemma scan_src src rest : srcOk src -> src <> [] -> scan srcData (src ++ rest) = Some (Found src).
Proof.
  intros [->|(v6 & d & Hd & Hk & -> & _)] Hn; [done|]. rewrite scan_message by done. unfold message.
  rewrite <- keep_message by done. rewrite Hd. by destruct v6.
Qed.

Lemma getSrc_src src : srcOk src -> getSrcFromControl src = Some src.
Proof.
  intros Hs. unfold getSrcFromControl. destruct (decide (src = [])) as [->|Hn]; [by rewrite scan_nil|].
  rewrite <- (app_nil_r src) at 1. by rewrite scan_src.
Qed.

Lemma getSrc_message src g pad : srcOk src -> messageOk SOL_UDP UDP_SEGMENT g pad ->
  getSrcFromControl (src ++ message SOL_UDP UDP_SEGMENT g pad) = Some src.
Proof.
  intros Hs Hm. unfold getSrcFromControl. destruct (decide (src = [])) as [->|Hn]; [|by rewrite scan_src].
  cbn [app]. rewrite <- (app_nil_r (message _ _ _ _)), scan_message by done.
  unfold srcData, isMessage. cbn [h_Level h_Type]. change (SOL_UDP =? IPPROTO_IP) with false.
  change (SOL_UDP =? IPPROTO_IPV6) with false. cbn [andb]. by rewrite scan_nil.
Qed.

(** What the kernel sends for a message with a segment size, and without. *)
Lemma datagrams_whole addr src d : srcOk src -> datagrams (mkWire d src addr) = [mkSent addr src d].
Proof.
  intros Hs. unfold datagrams. cbn [w_control w_data w_addr]. rewrite getSrc_src by done.
  rewrite <- (app_nil_r src) at 2. by rewrite scan_gso, scan_nil.
Qed.

Lemma datagrams_merged addr src pad ds g : srcOk src ->
  messageOk SOL_UDP UDP_SEGMENT (native_enc native sizeOfGSOData (Z.of_nat g)) pad ->
  chunked g (length <$> ds) -> Z.of_nat g < 65536 ->
  datagrams (mkWire (concat ds) (src ++ message SOL_UDP UDP_SEGMENT (native_enc native sizeOfGSOData (Z.of_nat g)) pad) addr)
  = mkSent addr src <$> ds.
Proof.
  intros Hs Hm Hc Hg. unfold datagrams. cbn [w_control w_data w_addr]. rewrite getSrc_message by done. rewrite scan_gso by done.
  rewrite <- (app_nil_r (message _ _ _ _)), scan_message by done. unfold gsoData, isMessage. cbn [h_Level h_Type].
  rewrite length_native_enc, !Z.eqb_refl, Nat.leb_refl. cbn [andb].
  rewrite take_ge by (by rewrite length_native_enc). rewrite native_dec_enc by (unfold sizeOfGSOData; lia).
  pose proof (chunked_pos _ _ Hc). rewrite (proj2 (Z.ltb_lt _ _)) by lia. rewrite Nat2Z.id, pieces_concat by done. done.
Qed.

(** ** Coalescing *)

Lemma dataOf_some arrs b d : dataOf arrs b = Some d <->
  exists a, arrs !! s_arr b = Some a /\ (s_len b <= length a)%nat /\ d = take (s_len b) a.
Proof.
  unfold dataOf, bytesOf. destruct (arrs !! s_arr b) as [a|]; cbn [mbind option_bind]; [|naive_solver].
  unfold orElse. cbn [Nat.leb andb]. destruct (Nat.leb_spec (s_len b) (length a)); cbn [mbind option_bind].
  - unfold slice. rewrite Nat.sub_0_r, drop_0. naive_solver.
  - split; [done|]. intros (a' & [= <-] & ? & _). lia.
Qed.

Lemma dataOf_length arrs b d : dataOf arrs b = Some d -> length d = s_len b.
Proof. intros (a & _ & ? & ->)%dataOf_some. rewrite length_take. lia. Qed.

Lemma dataOf_other arrs i x b : s_arr b <> i -> dataOf (<[i := x]> arrs) b = dataOf arrs b.
Proof. intros. unfold dataOf, bytesOf. by rewrite list_lookup_insert_ne. Qed.

(** Appending within the capacity. *)
Lemma dataOf_append arrs b a d e : arrs !! s_arr b = Some a -> dataOf arrs b = Some d ->
  (length e <= length a - s_len b)%nat ->
  dataOf (<[s_arr b := copy_at a (s_len b) e]> arrs) (mkSlice (s_arr b) (s_len b + length e)) = Some (d ++ e).
Proof.
  intros Ea (a' & Ea' & Hl & ->)%dataOf_some He. rewrite Ea in Ea'. injection Ea' as <-.
  apply dataOf_some. exists (copy_at a (s_len b) e). cbn [s_arr s_len]. split_and!.
  - rewrite list_lookup_insert_eq; [done|]. by eapply lookup_lt_Some.
  - rewrite length_copy. lia.
  - rewrite copy_at_fit by lia. rewrite (assoc_L app), take_app_length'; [done|]. rewrite length_app, length_take. lia.
Qed.

Section Coalesce.
Context (addr : udpAddr) (src : bytes) (maxPayloadLen : nat).
Context (Hsrc : srcOk src).

(** A message that holds the datagrams [ds]; [flag] is whether its segment
    size is set. *)
Record holdsMsg (arrs : list bytes) (m : Message) (ds : list bytes) (flag : bool) : Prop := {
  hm_data : dataOf arrs (m_buf m) = Some (concat ds);
  hm_addr : m_addr m = Some addr;
  hm_room : roomy m;
  hm_chunks : chunked (length (hd [] ds)) (length <$> ds);
  hm_small : zlen (hd [] ds) < 65536;
  hm_control : if flag then
      exists pad, messageOk SOL_UDP UDP_SEGMENT (native_enc native sizeOfGSOData (zlen (hd [] ds))) pad /\
        control (m_oob m) = src ++ message SOL_UDP UDP_SEGMENT (native_enc native sizeOfGSOData (zlen (hd [] ds))) pad
    else control (m_oob m) = src /\ o_len (m_oob m) = length src;
  hm_bound : (length (concat ds) <= maxPayloadLen \/ length ds = 1)%nat;
  hm_count : (length ds <= udpSegmentMaxDatagrams)%nat }.

Record coalescing (pending : list Slice) (groups : list (list bytes)) (cur : list bytes) (flag : bool)
    (fin : list Message) (m : Message) (rest : list Message) (c : batch) : Prop := {
  co_msgs : c_msgs c = fin ++ m :: rest;
  co_base : c_base c = Z.of_nat (length fin);
  co_fin : Forall2 (fun m ds => holdsMsg (c_arrs c) m ds (bool_decide (1 < length ds)%nat)) fin groups;
  co_cur : holdsMsg (c_arrs c) m cur flag;
  co_gso : c_gsoSize c = length (hd [] cur);
  co_cnt : c_dgramCnt c = length cur;
  co_whole : c_endBatch c = false -> (sum_list (length <$> cur) mod length (hd [] cur) = 0)%nat;
  co_room : Forall roomy rest;
  co_rest : (length pending <= length rest)%nat;
  co_owner : NoDup ((s_arr ∘ m_buf <$> fin ++ [m]) ++ (s_arr <$> pending)) }.

Lemma srcOk_length : (length src <= stickyControlSize)%nat.
Proof. destruct Hsrc as [->|(v6 & d & _ & _ & _ & Hl)]; [cbn; lia|exact Hl]. Qed.

(** Setting the segment size of a message that has room for it. *)
Lemma holds_flag arrs m ds g : holdsMsg arrs m ds false -> g = length (hd [] ds) ->
  holdsMsg arrs (m <| m_oob ::= fun o => setGSOSize o (u16 (Z.of_nat g)) |>) ds true.
Proof.
  intros [Hd Ha Hr Hc Hs [Hk Hl] Hb Hn] ->. pose proof srcOk_length. unfold roomy in Hr.
  rewrite u16_small by lia.
  destruct (setGSOSize_control (m_oob m) (zlen (hd [] ds))) as (pad & Hp & Ep & El); [lia|].
  split; cbn; try done.
  - unfold roomy. cbn. by rewrite El.
  - exists pad. split; [done|]. by rewrite Ep, Hk.
Qed.

(** What the kernel makes of it. *)
Lemma holds_datagrams arrs m ds flag : holdsMsg arrs m ds flag -> flag = bool_decide (1 < length ds)%nat ->
  exists w, wireOf arrs m = Some w /\ datagrams w = mkSent (Some addr) src <$> ds.
Proof.
  intros [Hd Ha Hr Hc Hs Hk _ _] ->. unfold wireOf. rewrite Hd. cbn [mbind option_bind]. rewrite Ha. eexists. split; [done|].
  case_bool_decide as Hn.
  - destruct Hk as (pad & Hp & ->). by apply datagrams_merged.
  - destruct Hk as [-> _]. rewrite datagrams_whole by done. destruct ds as [|d [|]]; cbn [length] in Hn; [done| |lia].
    cbn. by rewrite app_nil_r.
Qed.

Lemma holds_ne arrs m ds flag : holdsMsg arrs m ds flag -> ds <> [].
Proof. intros [_ _ _ Hc _ _ _ _] ->. exact Hc. Qed.

Lemma holdsMsg_other arrs i x m ds flag : holdsMsg arrs m ds flag -> s_arr (m_buf m) <> i ->
  holdsMsg (<[i := x]> arrs) m ds flag.
Proof. intros [Hd Ha Hr Hc Hs Hk Hb Hn] Hi. split; try done. by rewrite dataOf_other. Qed.

Lemma msgAt_mid (fin : list Message) m rest : msgAt (fin ++ m :: rest) (Z.of_nat (length fin)) = Some m.
Proof. unfold msgAt. rewrite (proj2 (Z.ltb_ge _ _)) by lia. rewrite Nat2Z.id. by apply list_lookup_middle. Qed.

Lemma setMsg_mid (fin : list Message) m m' rest : setMsg (Z.of_nat (length fin)) m' (fin ++ m :: rest) = fin ++ m' :: rest.
Proof. unfold setMsg. rewrite Nat2Z.id, insert_app_r_alt, Nat.sub_diag by done. done. Qed.

Lemma Forall2_impl_l {A B} (P Q : A -> B -> Prop) l k :
  Forall2 P l k -> (forall x y, x ∈ l -> P x y -> Q x y) -> Forall2 Q l k.
Proof.
  induction 1 as [|x y l k Hp _ IH]; intros Hi; constructor; [apply Hi; [by left|done]|].
  apply IH. intros ? ? ?. apply Hi. by right.
Qed.

Lemma concat_snoc {A} (l : list (list A)) x : concat (l ++ [x]) = concat l ++ x.
Proof. rewrite concat_app. cbn. by rewrite app_nil_r. Qed.

Lemma hd_snoc (l : list bytes) x : l <> [] -> hd [] (l ++ [x]) = hd [] l.
Proof. by destruct l. Qed.

(** A datagram that joins the current message. *)
Lemma holds_snoc arrs m cur d a : holdsMsg arrs m cur false -> arrs !! s_arr (m_buf m) = Some a ->
  (sum_list (length <$> cur) mod length (hd [] cur) = 0)%nat ->
  (0 < length d <= length (hd [] cur))%nat -> (length d <= length a - s_len (m_buf m))%nat ->
  (length d + s_len (m_buf m) <= maxPayloadLen)%nat -> (length cur < udpSegmentMaxDatagrams)%nat ->
  holdsMsg (<[s_arr (m_buf m) := copy_at a (s_len (m_buf m)) d]> arrs)
    (m <| m_buf := mkSlice (s_arr (m_buf m)) (s_len (m_buf m) + length d) |>) (cur ++ [d]) false.
Proof.
  intros [Hd Ha Hr Hc Hs Hk Hb Hn] Ea Hm Hl Hcap Hp Hcount.
  pose proof (holds_ne _ _ _ _ (Build_holdsMsg _ _ _ false Hd Ha Hr Hc Hs Hk Hb Hn)) as Hne. pose proof (dataOf_length _ _ _ Hd) as El.
  split; cbn; rewrite ?hd_snoc by done; try done.
  - rewrite concat_snoc. by apply dataOf_append.
  - rewrite fmap_app. apply chunked_snoc; [done..|lia].
  - left. rewrite concat_snoc, length_app. lia.
  - rewrite length_app. cbn. lia.
Qed.

(** Whether another datagram may follow: the new one is as long as the first. *)
Lemma whole_snoc (cur : list bytes) d : cur <> [] -> (sum_list (length <$> cur) mod length (hd [] cur) = 0)%nat ->
  length d = length (hd [] cur) -> (sum_list (length <$> cur ++ [d]) mod length (hd [] (cur ++ [d])) = 0)%nat.
Proof.
  intros Hne Hm Hd. rewrite hd_snoc, fmap_app, sum_list_with_app by done. cbn. rewrite Hd, Nat.add_0_r.
  by rewrite Nat.Div0.add_mod, Nat.Div0.mod_same, Nat.add_0_r, Nat.Div0.mod_mod.
Qed.

Lemma joinBase_spec pending groups cur fin m rest c buf d last :
  coalescing (buf :: pending) groups cur false fin m rest c -> dataOf (c_arrs c) buf = Some d -> (0 < length d)%nat ->
  joinBase maxPayloadLen setGSOSize last buf c = Some None \/
  exists c' m', joinBase maxPayloadLen setGSOSize last buf c = Some (Some c') /\
    coalescing pending groups (cur ++ [d]) last fin m' rest c' /\
    forall b, b ∈ pending -> dataOf (c_arrs c') b = dataOf (c_arrs c) b.
Proof.
  intros [Em Eb Hf Hc Hg Hn Hw Hr Hl Ho] Ed Hd. pose proof (dataOf_length _ _ _ Ed) as El.
  pose proof (hm_data _ _ _ _ Hc) as Hdata. pose proof Hdata as (a & Ea & Hcap & _)%dataOf_some.
  unfold joinBase, capOf. rewrite Em, Eb, msgAt_mid. cbn [mbind option_bind]. rewrite Ea. cbn [mbind option_bind].
  destruct (_ && _) eqn:G; [right|by left]. rewrite Ed. cbn [mbind option_bind].
  apply andb_prop in G as [G Hend]. apply andb_prop in G as [G G4]. apply andb_prop in G as [G G3].
  apply andb_prop in G as [G1 G2]. apply Nat.leb_le in G1, G2, G3. apply Nat.ltb_lt in G4. apply negb_true_iff in Hend.
  rewrite <- El in *. rewrite Hn in G4. rewrite Hg in G2. specialize (Hw Hend).
  pose proof (holds_ne _ _ _ _ Hc) as Hne.
  pose proof (holds_snoc _ _ _ _ _ Hc Ea Hw (conj Hd G2) G3 G1 G4) as Hs.
  set (m' := m <| m_buf := _ |>) in *.
  set (arrs' := <[_ := _]> (c_arrs c)) in *.
  assert (Hoth : forall b, s_arr b ∈ (s_arr ∘ m_buf <$> fin) ++ (s_arr <$> pending) -> s_arr b <> s_arr (m_buf m)).
  { intros b Hb E. rewrite fmap_app, <- (assoc_L app) in Ho. apply NoDup_app in Ho as (_ & H1 & H2).
    change ((s_arr ∘ m_buf <$> [m]) ++ (s_arr <$> buf :: pending)) with (s_arr (m_buf m) :: s_arr buf :: (s_arr <$> pending)) in *.
    rewrite E in Hb. apply elem_of_app in Hb as [Hb|Hb].
    - apply (H1 _ Hb). by left.
    - apply NoDup_cons in H2 as [H2 _]. apply H2. by right. }
  exists (mkBatch (Z.of_nat (length fin)) (c_gsoSize c) (S (c_dgramCnt c)) (length d <? c_gsoSize c)%nat arrs'
    (fin ++ (if last then m' <| m_oob ::= fun o => setGSOSize o (u16 (Z.of_nat (c_gsoSize c))) |> else m') :: rest)).
  eexists. split; [by rewrite setMsg_mid|]. split; [split; cbn [c_msgs c_base c_arrs c_gsoSize c_dgramCnt c_endBatch]; try done|].
  - eapply Forall2_impl_l; [exact Hf|]. intros x ds Hx Hh. apply holdsMsg_other; [done|]. apply Hoth.
    apply elem_of_app. left. apply list_elem_of_fmap. eauto.
  - destruct last; [|exact Hs]. apply holds_flag; [exact Hs|]. by rewrite hd_snoc.
  - by rewrite hd_snoc.
  - rewrite length_app, Hn. cbn. lia.
  - intros Hb%Nat.ltb_ge. apply whole_snoc; [done..|lia].
  - cbn in Hl. lia.
  - replace (s_arr ∘ m_buf <$> fin ++ [_]) with (s_arr ∘ m_buf <$> fin ++ [m]) by (rewrite !fmap_app; by destruct last).
    apply NoDup_app in Ho as (H1 & H2 & H3). apply NoDup_app. cbn in H3. apply NoDup_cons in H3 as [_ H3].
    split_and!; [done| |done]. intros x Hx Hx'. apply (H2 x Hx). by right.
  - intros b Hb. apply dataOf_other, Hoth. apply elem_of_app. right. apply list_elem_of_fmap. eauto.
Qed.

(** A message of its own. *)
Lemma holdsMsg_new arrs m buf d : roomy m -> dataOf arrs buf = Some d -> 0 < zlen d < 65536 ->
  holdsMsg arrs (m <| m_oob ::= fun o => setSrcControl o src |> <| m_buf := buf |> <| m_addr := Some addr |>) [d] false.
Proof.
  intros Hr Hd Hl. pose proof srcOk_length. unfold roomy in Hr.
  destruct (setSrcControl_control (m_oob m) src) as (Hk & Hm & Hn); [lia|].
  split; cbn; rewrite ?app_nil_r; try done; try lia.
  - unfold roomy. cbn. by rewrite Hm.
  - unfold udpSegmentMaxDatagrams. lia.
Qed.

Lemma startBase_spec pending groups cur fin m rest c buf d :
  coalescing (buf :: pending) groups cur false fin m rest c -> dataOf (c_arrs c) buf = Some d -> 0 < zlen d < 65536 ->
  exists c' m' m2' rest', startBase addr src setGSOSize buf c = Some c' /\
    coalescing pending (groups ++ [cur]) [d] false (fin ++ [m']) m2' rest' c' /\ c_arrs c' = c_arrs c.
Proof.
  intros [Em Eb Hf Hc Hg Hn Hw Hr Hl Ho] Ed Hd. destruct rest as [|m2 rest]; [cbn in Hl; lia|].
  apply Forall_cons in Hr as [Hr2 Hr]. cbn [length] in Hl.
  unfold startBase. rewrite Em, Eb, Hn, msgAt_mid. cbn [mbind option_bind].
  set (m' := if (1 <? length cur)%nat then m <| m_oob ::= fun o => setGSOSize o (u16 (Z.of_nat (c_gsoSize c))) |> else m).
  assert (E : (if (1 <? length cur)%nat
      then Some (setMsg (zlen fin) (m <| m_oob ::= fun o => setGSOSize o (u16 (Z.of_nat (c_gsoSize c))) |>) (fin ++ m :: m2 :: rest))
      else Some (fin ++ m :: m2 :: rest)) = Some ((fin ++ [m']) ++ m2 :: rest)).
  { rewrite <- (assoc_L app). unfold m'. destruct (_ <? _)%nat; [|done]. by rewrite setMsg_mid. }
  rewrite E. cbn [mbind option_bind]. replace (zlen fin + 1) with (zlen (fin ++ [m'])) by (rewrite length_app; cbn; lia).
  rewrite msgAt_mid. cbn [mbind option_bind]. rewrite setMsg_mid. pose proof (dataOf_length _ _ _ Ed) as El.
  do 4 eexists. split; [done|]. split; [|done]. split; cbn [c_msgs c_base c_arrs c_gsoSize c_dgramCnt c_endBatch hd]; try done.
  - apply Forall2_app; [done|]. constructor; [|done]. unfold m'. destruct (Nat.ltb_spec 1 (length cur)).
    + rewrite bool_decide_eq_true_2 by done. by apply holds_flag.
    + rewrite bool_decide_eq_false_2 by lia. done.
  - by apply holdsMsg_new.
  - intros _. cbn. rewrite Nat.add_0_r. by rewrite Nat.Div0.mod_same.
  - lia.
  - rewrite !fmap_app in *. cbn [fmap list_fmap] in *. unfold compose in *. cbn.
    replace (s_arr (m_buf m')) with (s_arr (m_buf m)) by (unfold m'; by destruct (_ <? _)%nat).
    rewrite <- !(assoc_L app) in *. done.
Qed.

Lemma firstBase_spec pending arrs msgs buf d :
  dataOf arrs buf = Some d -> 0 < zlen d < 65536 -> Forall roomy msgs -> (length (buf :: pending) <= length msgs)%nat ->
  NoDup (s_arr <$> buf :: pending) ->
  exists c' m' rest', startBase addr src setGSOSize buf (mkBatch (-1) 0 0 false arrs msgs) = Some c' /\
    coalescing pending [] [d] false [] m' rest' c' /\ c_arrs c' = arrs.
Proof.
  intros Ed Hd Hr Hl Ho. destruct msgs as [|m rest]; [cbn in Hl; lia|]. apply Forall_cons in Hr as [Hr2 Hr]. cbn [length] in Hl.
  pose proof (dataOf_length _ _ _ Ed) as El.
  do 3 eexists. split; [reflexivity|]. split; [|done]. split; cbn [c_msgs c_base c_arrs c_gsoSize c_dgramCnt c_endBatch hd]; try done.
  - by apply holdsMsg_new.
  - intros _. cbn. rewrite Nat.add_0_r. by rewrite Nat.Div0.mod_same.
  - lia.
Qed.

Lemma coalesceLoop_spec pending : forall ds groups cur flag fin m rest c,
  coalescing pending groups cur flag fin m rest c -> flag = bool_decide (pending = [] /\ 1 < length cur)%nat ->
  Forall2 (fun b d => dataOf (c_arrs c) b = Some d) pending ds -> Forall (fun d => 0 < zlen d < 65536) ds ->
  exists c' msgs' rest' groups', coalesceLoop addr src maxPayloadLen setGSOSize false pending c = Some c' /\
    c_msgs c' = msgs' ++ rest' /\ Forall roomy rest' /\ c_base c' + 1 = zlen msgs' /\
    Forall2 (fun m ds => holdsMsg (c_arrs c') m ds (bool_decide (1 < length ds)%nat)) msgs' groups' /\
    concat groups' = concat groups ++ cur ++ ds.
Proof.
  induction pending as [|buf pending IH]; intros ds groups cur flag fin m rest c Hco -> Hds Hlen.
  - apply Forall2_nil_inv_l in Hds as ->. rewrite (bool_decide_ext _ (1 < length cur)%nat) in Hco by naive_solver.
    exists c, (fin ++ [m]), rest, (groups ++ [cur]). destruct Hco. split_and!.
    + done.
    + by rewrite <- (assoc_L app).
    + done.
    + rewrite length_app. cbn. lia.
    + apply Forall2_app; [done|]. by constructor.
    + by rewrite concat_snoc, app_nil_r.
  - apply Forall2_cons_inv_l in Hds as (d & ds' & Ed & Hds & ->). apply Forall_cons in Hlen as [Hd Hlen].
    cbn [coalesceLoop]. rewrite bool_decide_eq_false_2 in Hco by naive_solver.
    destruct (joinBase_spec _ _ _ _ _ _ _ _ _ (bool_decide (pending = [])) Hco Ed ltac:(lia)) as [->|(c' & m' & -> & Hco' & Hsame)];
      cbn [mbind option_bind].
    + destruct (startBase_spec _ _ _ _ _ _ _ _ _ Hco Ed Hd) as (c' & m' & m2' & rest' & -> & Hco' & Ha). cbn [mbind option_bind].
      destruct (IH ds' _ _ _ _ _ _ _ Hco') as (c2 & ms & re & gs & E & H1 & Hro & H2 & H3 & H4); [|by rewrite Ha|done|].
      * symmetry. apply bool_decide_eq_false_2. cbn. lia.
      * exists c2, ms, re, gs. split_and!; try done. rewrite H4, concat_snoc. by rewrite <- !(assoc_L app).
    + destruct (IH ds' _ _ _ _ _ _ _ Hco') as (c2 & ms & re & gs & E & H1 & Hro & H2 & H3 & H4); [| |done|].
      * apply bool_decide_ext. pose proof (holds_ne _ _ _ _ (co_cur _ _ _ _ _ _ _ _ Hco)). rewrite length_app.
        destruct cur; [done|]. cbn [length]. intuition lia.
      * eapply Forall2_impl_l; [exact Hds|]. intros b x Hb Hx. by rewrite Hsame.
      * exists c2, ms, re, gs. split_and!; try done. rewrite H4. by rewrite <- !(assoc_L app).
Qed.

End Coalesce.
(** ** What is left of the buffers *)

Lemma dataOf_write arrs i a off e b : arrs !! i = Some a -> (s_arr b = i -> (s_len b <= off)%nat) ->
  dataOf (<[i := copy_at a off e]> arrs) b = dataOf arrs b.
Proof.
  intros Ea Hi. destruct (decide (s_arr b = i)) as [E|E]; [|by apply dataOf_other]. specialize (Hi E). subst i.
  unfold dataOf, bytesOf. rewrite list_lookup_insert_eq, Ea by (by eapply lookup_lt_Some). cbn [mbind option_bind].
  rewrite length_copy. destruct (orElse _) eqn:Ho; [|done]. cbn [mbind option_bind]. f_equal. unfold slice.
  unfold orElse in Ho. destruct (Nat.leb_spec (s_len b) (length a)); [|done].
  rewrite !drop_0, Nat.sub_0_r. unfold copy_at. rewrite take_app_le by (rewrite length_take; lia).
  rewrite take_take. by rewrite Nat.min_l by lia.
Qed.

(** Writes go past the end of every buffer that was to be sent. *)
Record kept (bufs : list Slice) (arrs : list bytes) (n : nat) (c : batch) : Prop := {
  kp_data : forall b, b ∈ bufs -> dataOf (c_arrs c) b = dataOf arrs b;
  kp_past : forall m b, msgAt (c_msgs c) (c_base c) = Some m -> b ∈ bufs -> s_arr b = s_arr (m_buf m) ->
    (s_len b <= s_len (m_buf m))%nat;
  kp_msgs : length (c_msgs c) = n }.

Lemma length_setMsg i m msgs : length (setMsg i m msgs) = length msgs.
Proof. apply length_insert. Qed.

Lemma msgAt_set i m m' msgs : msgAt msgs i = Some m -> msgAt (setMsg i m' msgs) i = Some m'.
Proof.
  unfold msgAt, setMsg. destruct (i <? 0); [done|]. intros E. apply list_lookup_insert_eq. by eapply lookup_lt_Some.
Qed.

Lemma joinBase_kept bufs arrs n maxPayloadLen setGSO last buf c c' :
  kept bufs arrs n c -> joinBase maxPayloadLen setGSO last buf c = Some (Some c') -> kept bufs arrs n c'.
Proof.
  intros [Hd Hp Hm]. unfold joinBase. destruct (msgAt _ _) as [m|] eqn:Em; [|done]. cbn [mbind option_bind].
  destruct (capOf _ _) as [cap|]; [|done]. cbn [mbind option_bind]. destruct (_ && _); [|done].
  destruct (dataOf _ _) as [data|]; [|done]. cbn [mbind option_bind].
  destruct (c_arrs c !! s_arr (m_buf m)) as [a|] eqn:Ea; [|done]. cbn [mbind option_bind]. intros [= <-].
  split; cbn [c_arrs c_msgs c_base].
  - intros b Hb. rewrite (dataOf_write _ _ _ _ _ _ Ea); [by apply Hd|]. intros E. by apply (Hp m).
  - intros m' b E Hb Ha. rewrite (msgAt_set _ _ _ _ Em) in E. injection E as <-.
    assert (s_len b <= s_len (m_buf m))%nat as Hl; [|by destruct last; cbn; lia]. apply Hp; [done..|]. by destruct last.
  - by rewrite length_setMsg.
Qed.

Lemma startBase_kept bufs arrs n addr src setGSO buf c c' : NoDup (s_arr <$> bufs) -> buf ∈ bufs ->
  kept bufs arrs n c -> startBase addr src setGSO buf c = Some c' -> kept bufs arrs n c'.
Proof.
  intros Hn Hb [Hd Hp Hm]. unfold startBase. destruct (if (_ <? _)%nat then _ else _) as [msgs|] eqn:E1; [|done].
  cbn [mbind option_bind]. destruct (msgAt msgs _) as [m|] eqn:Em; [|done]. cbn [mbind option_bind]. intros [= <-].
  split; cbn [c_arrs c_msgs c_base]; [done| |].
  - intros m' b E Hb' Ha. rewrite (msgAt_set _ _ _ _ Em) in E. injection E as <-. cbn in *.
    apply list_elem_of_lookup_1 in Hb as [i Ei], Hb' as [j Ej].
    assert (i = j) as ->; [|rewrite Ei in Ej; by injection Ej as ->].
    eapply NoDup_lookup; [exact Hn|by rewrite list_lookup_fmap, Ei|]. by rewrite list_lookup_fmap, Ej, <- Ha.
  - rewrite length_setMsg. destruct (_ <? _)%nat; [|by injection E1 as <-].
    destruct (msgAt _ _); [|done]. injection E1 as <-. by rewrite length_setMsg.
Qed.

Lemma coalesceLoop_kept bufs arrs n addr src maxPayloadLen setGSO todo : forall first c c',
  NoDup (s_arr <$> bufs) -> todo ⊆ bufs -> kept bufs arrs n c ->
  coalesceLoop addr src maxPayloadLen setGSO first todo c = Some c' -> kept bufs arrs n c'.
Proof.
  induction todo as [|buf todo IH]; intros first c c' Hn Hs Hk; cbn [coalesceLoop]; [by intros [= <-]|].
  assert (buf ∈ bufs) as Hb by (apply Hs; by left). assert (todo ⊆ bufs) as Ht by set_solver.
  destruct (if first then _ else _) as [[c1|]|] eqn:E1; cbn [mbind option_bind]; [| |done].
  - apply IH; [done..|]. destruct first; [done|]. by eapply joinBase_kept.
  - destruct (startBase _ _ _ _ _) as [c2|] eqn:E2; [|done]. apply IH; [done..|]. by eapply startBase_kept.
Qed.

(** ** The loop over the answers of the kernel *)

(** Every answer writes something or is an error. *)
Definition progressing (answers : list (nat * option bindError)) : Prop :=
  Forall (fun a => (0 < a.1)%nat \/ a.2 <> None) answers.

Lemma sendLoop_spec answers : forall ws,
  progressing answers -> (Nat.max 1 (length ws) <= length answers)%nat ->
  exists out err rest, sendLoop answers ws = Some (out, err, rest) /\ out `prefix_of` ws /\
    (err = None -> out = ws) /\ rest `suffix_of` answers /\
    (length answers <= length rest + Nat.max 1 (length ws))%nat.
Proof.
  induction answers as [|[n err] answers IH]; intros ws Hp Hl; [cbn in Hl; lia|]. apply Forall_cons in Hp as [Hn Hp].
  cbn [sendLoop length fst snd] in *. destruct err as [e|].
  - exists (take (Nat.min n (length ws)) ws), (Some e), answers. split_and!; [done| |done|by exists [(n, Some e)]|lia].
    exists (drop (Nat.min n (length ws)) ws). by rewrite take_drop.
  - destruct Hn as [Hn|]; [|done]. destruct (Nat.eqb_spec (Nat.min n (length ws)) (length ws)) as [E|E].
    + exists ws, None, answers. split_and!; [done..|by exists [(n, None)]|lia].
    + rewrite Nat.min_l by lia. destruct (IH (drop n ws)) as (out & err & rest & -> & Ho & He & Hr & Hk);
        [done|rewrite length_drop; lia|]. cbn [mbind option_bind]. rewrite length_drop in Hk.
      exists (take n ws ++ out), err, rest. split_and!; [done| | | |lia].
      * rewrite <- (take_drop n ws) at 2. by apply prefix_app.
      * intros ->. rewrite He by done. apply take_drop.
      * by apply suffix_cons_r.
Qed.

Lemma progressing_suffix rest answers : rest `suffix_of` answers -> progressing answers -> progressing rest.
Proof. intros [k ->] H. by apply Forall_app in H as [_ H]. Qed.

(** ** Batches *)

Lemma mapM_cons {A B} (f : A -> option B) x l : mapM f (x :: l) = (y ← f x; ys ← mapM f l; Some (y :: ys)).
Proof. done. Qed.

(** [ws] puts exactly the datagrams [datas] on the wire. *)
Definition carries (addr : udpAddr) (src : bytes) (datas : list bytes) (ws : list wire) : Prop :=
  concat (datagrams <$> ws) = mkSent (Some addr) src <$> datas.

(** A message within the limits of the kernel. *)
Definition fits (maxPayloadLen : nat) (w : wire) : Prop :=
  (length (w_data w) <= maxPayloadLen \/ length (datagrams w) = 1)%nat /\
  (length (datagrams w) <= udpSegmentMaxDatagrams)%nat.

Record batchOk (src : bytes) (msgs : list Message) (arrs : list bytes) (bufs : list Slice) (datas : list bytes) : Prop := {
  bo_src : srcOk src;
  bo_room : Forall roomy msgs;
  bo_count : (length bufs <= length msgs)%nat;
  bo_data : Forall2 (fun b d => dataOf arrs b = Some d) bufs datas;
  bo_sizes : Forall (fun d => 0 < zlen d < 65536) datas;
  bo_arrays : NoDup (s_arr <$> bufs) }.

Lemma wires_of addr src maxPayloadLen arrs ms groups : srcOk src ->
  Forall2 (fun m ds => holdsMsg addr src maxPayloadLen arrs m ds (bool_decide (1 < length ds)%nat)) ms groups ->
  exists ws, mapM (wireOf arrs) ms = Some ws /\ carries addr src (concat groups) ws /\ Forall (fits maxPayloadLen) ws /\
    length ws = length ms.
Proof.
  intros Hs. induction 1 as [|m ds ms groups Hm _ (ws & Ew & Hc & Hf & Hl)]; [by exists []|].
  destruct (holds_datagrams _ _ _ Hs _ _ _ _ Hm eq_refl) as (w & E & Hd). exists (w :: ws). split_and!.
  - rewrite mapM_cons, E. cbn [mbind option_bind]. by rewrite Ew.
  - unfold carries in *. cbn [concat fmap list_fmap]. change (list_fmap _ _ datagrams ws) with (datagrams <$> ws).
    rewrite Hc, Hd. by rewrite fmap_app.
  - constructor; [|done]. unfold fits. rewrite Hd, length_fmap. split; [|apply (hm_count _ _ _ _ _ _ _ Hm)].
    unfold wireOf in E. rewrite (hm_data _ _ _ _ _ _ _ Hm) in E. injection E as <-. apply (hm_bound _ _ _ _ _ _ _ Hm).
  - cbn [length]. by rewrite Hl.
Qed.

Lemma coalesce_batch addr ep msgs arrs bufs datas : batchOk (ep_src ep) msgs arrs bufs datas ->
  exists n arrs' msgs' ws, coalesceMessages addr ep bufs arrs msgs setGSOSize = Some (n, arrs', msgs') /\
    mapM (wireOf arrs') (take n msgs') = Some ws /\ carries addr (ep_src ep) datas ws /\
    Forall (fits (if is6 ep then maxIPv6PayloadLen else maxIPv4PayloadLen)) ws /\ (length ws <= length msgs)%nat /\
    batchOk (ep_src ep) msgs' arrs' bufs datas /\ length msgs' = length msgs.
Proof.
  intros [Hs Hr Hc Hd Hz Ha]. unfold coalesceMessages. set (maxPayloadLen := if is6 ep then _ else _).
  destruct bufs as [|buf bufs].
  { apply Forall2_nil_inv_l in Hd as ->. cbn [coalesceLoop mbind option_bind]. do 4 eexists. split; [done|].
    split; [done|]. split_and!; [done..|cbn; lia| |done]. by split. }
  apply Forall2_cons_inv_l in Hd as (d & ds & Ed & Hds & ->). apply Forall_cons in Hz as [Hz Hzs].
  cbn [coalesceLoop mbind option_bind].
  destruct (firstBase_spec addr _ maxPayloadLen Hs bufs arrs msgs buf d Ed Hz Hr Hc Ha) as (c1 & m1 & rest1 & E1 & Hco & Harr).
  rewrite E1. cbn [mbind option_bind].
  destruct (coalesceLoop_spec addr _ maxPayloadLen Hs bufs ds [] [d] false [] m1 rest1 c1 Hco)
    as (c & ms & rest & gs & E & Hm & Hro & Hb & Hg & Hcat); [|by rewrite Harr|done|].
  { symmetry. apply bool_decide_eq_false_2. cbn. lia. }
  assert (Hk : kept (buf :: bufs) arrs (length msgs) c).
  { eapply coalesceLoop_kept; [exact Ha| |eapply startBase_kept; [exact Ha|by left| |exact E1]|exact E]; [set_solver|].
    split; [done| |done]. intros m b Hm'. discriminate Hm'. }
  rewrite E. cbn [mbind option_bind].
  destruct (wires_of addr _ maxPayloadLen (c_arrs c) ms gs Hs Hg) as (ws & Ew & Hw & Hf & Hl).
  pose proof (kp_msgs _ _ _ _ Hk) as Hn. rewrite Hm, length_app in Hn.
  do 4 eexists. split; [done|]. replace (Z.to_nat (c_base c + 1)) with (length ms) by lia. rewrite Hm, take_app_length.
  split_and!; [exact Ew|by rewrite Hcat in Hw|done|lia| |rewrite length_app; lia].
  split; try done.
  - apply Forall_app. split; [|done]. apply Forall_forall. intros x Hx. apply list_elem_of_lookup_1 in Hx as [i Ei].
    destruct (Forall2_lookup_l _ _ _ _ _ Hg Ei) as (y & _ & Hy). apply (hm_room _ _ _ _ _ _ _ Hy).
  - rewrite length_app. lia.
  - apply (Forall2_impl_l (fun b d => dataOf arrs b = Some d)); [by constructor|]. intros b x Hin Hx.
    by rewrite (kp_data _ _ _ _ Hk b Hin).
  - by constructor.
Qed.

Lemma plain_batch addr src msgs arrs bufs datas : batchOk src msgs arrs bufs datas ->
  exists msgs' ws, plainMessages addr src bufs msgs = Some msgs' /\
    mapM (wireOf arrs) (take (length bufs) msgs') = Some ws /\ carries addr src datas ws /\
    Forall (fun w => length (datagrams w) = 1%nat) ws /\ length ws = length bufs.
Proof.
  intros [Hs Hr Hc Hd Hz _]. revert msgs datas Hr Hc Hd Hz.
  induction bufs as [|buf bufs IH]; intros msgs datas Hr Hc Hd Hz.
  { apply Forall2_nil_inv_l in Hd as ->. exists msgs, []. by rewrite take_0. }
  destruct msgs as [|m msgs]; [cbn in Hc; lia|]. apply Forall_cons in Hr as [Hr1 Hr].
  apply Forall2_cons_inv_l in Hd as (d & ds & Ed & Hds & ->). apply Forall_cons in Hz as [Hz Hzs]. cbn [length] in Hc.
  destruct (IH msgs ds Hr ltac:(lia) Hds Hzs) as (ms & ws & E & Ew & Hw & Hf & Hl). cbn [plainMessages]. rewrite E.
  cbn [mbind option_bind length]. do 2 eexists. split; [done|]. cbn [firstn]. rewrite mapM_cons.
  assert (Hk : control (setSrcControl (m_oob m) src) = src).
  { apply setSrcControl_control. unfold roomy in Hr1. pose proof (srcOk_length src Hs). lia. }
  set (m' := _ <| m_oob ::= _ |>). assert (E' : wireOf arrs m' = Some (mkWire d src (Some addr))).
  { unfold wireOf, m'. cbn. by rewrite Ed, Hk. }
  rewrite E'. cbn [mbind option_bind]. rewrite Ew. cbn [mbind option_bind].
  split; [done|]. split_and!.
  - unfold carries in *. cbn [concat fmap list_fmap]. change (list_fmap _ _ datagrams ws) with (datagrams <$> ws).
    rewrite Hw, datagrams_whole by done. done.
  - constructor; [by rewrite datagrams_whole|done].
  - cbn. by rewrite Hl.
Qed.

End BindSpec.
