(* ===== verification/BindSend.v ===== *)
(** [Send] of the UDP bind, whole: every datagram reaches the kernel, in order
    and to the endpoint, also when the kernel gives up on segmentation; and the
    loop over the answers of the kernel ends when every answer makes progress. *)
From S2P Require Import Prelude Replay Ratelimiter Checksum Messages NoiseHelpers Cookie AllowedIPs State.
From S2P Require Import Sockets Offload Gro BindStd BindSpec.

(** ** Specification *)

(** Where the datagrams of an endpoint go. *)
Definition destination (ep : Endpoint) : udpAddr := (if is6 ep then take 16 (DstIP ep) else DstIP ep, ep_port ep).

(** The error, if any, still means that everything is sent. *)
Definition delivered (err : option sendError) : bool :=
  match err with None | Some (ErrUDPGSODisabled None) => true | _ => false end.

Definition withoutOffload (v6 : bool) (s : StdNetBind) : StdNetBind :=
  if v6 then s <| ipv6TxOffload := false |> else s <| ipv4TxOffload := false |>.

Section BindSend.
Context `{OS : Sys} `{SL : !SysLaws OS}.

(** The bind is open for the family, the pools give what they hold, and the
    buffers are a batch.  An address for IPv6 has not been one for IPv4. *)
Record sendable (ua : UDPAddr) (msgs : list Message) (arrs : list bytes) (bufs : list Slice) (datas : list bytes)
    (ep : Endpoint) (s : StdNetBind) : Prop := {
  sd_batch : batchOk (ep_src ep) msgs arrs bufs datas;
  sd_ip : length (DstIP ep) = 4%nat \/ (16 <= length (DstIP ep))%nat;
  sd_ua : length (ua_mem ua) = 16%nat /\ (4 <= ua_len ua)%nat /\ (is6 ep = true -> ua_len ua = 16%nat);
  sd_open : is_Some (if is6 ep then ipv6 s else ipv4 s);
  sd_hole : (if is6 ep then blackhole6 s else blackhole4 s) = false }.

(** ** Lemmas *)

Lemma setAddr_destination ua ep : length (ua_mem ua) = 16%nat -> (4 <= ua_len ua)%nat ->
  (is6 ep = true -> ua_len ua = 16%nat) -> length (DstIP ep) = 4%nat \/ (16 <= length (DstIP ep))%nat ->
  exists ua', setAddr ua ep = Some ua' /\ addrOf ua' = destination ep.
Proof.
  intros Hm H4 H6 Hip. unfold setAddr, destination, addrOf. destruct (is6 ep) eqn:E; unfold is6 in E.
  - apply Nat.leb_le in E. eexists. split; [done|]. cbn [ua_len ua_mem ua_Port]. rewrite H6 by done. f_equal.
    rewrite take_take, Nat.min_id, copy_at_fit by (rewrite length_take; lia).
    rewrite take_0. cbn [app]. apply take_app_length'. rewrite length_take. lia.
  - apply Nat.leb_gt in E. destruct Hip as [Hip|]; [|lia]. rewrite Hip. eexists. split; [done|].
    cbn [ua_len ua_mem ua_Port]. f_equal. rewrite (take_ge (DstIP ep)) by lia. rewrite copy_at_fit by lia.
    rewrite take_0. cbn [app]. by apply take_app_length'.
Qed.

Lemma prefix_datagrams (out ws : list wire) : out `prefix_of` ws ->
  concat (datagrams <$> out) `prefix_of` concat (datagrams <$> ws).
Proof. intros [k ->]. rewrite fmap_app, concat_app. by eexists. Qed.

Lemma prefix_Forall {A} (P : A -> Prop) l k : l `prefix_of` k -> Forall P k -> Forall P l.
Proof. intros [? ->] H. by apply Forall_app in H as [? _]. Qed.

(** What one call of [send] has put on the wire. *)
Definition partly (ep : Endpoint) (datas : list bytes) (ws : list wire) : Prop :=
  concat (datagrams <$> ws) `prefix_of` (mkSent (Some (destination ep)) (ep_src ep) <$> datas) /\
  Forall (fits (if is6 ep then maxIPv6PayloadLen else maxIPv4PayloadLen)) ws.

Lemma partly_prefix ep datas out ws : carries (destination ep) (ep_src ep) datas ws ->
  Forall (fits (if is6 ep then maxIPv6PayloadLen else maxIPv4PayloadLen)) ws -> out `prefix_of` ws -> partly ep datas out.
Proof. intros Hc Hf Hp. split; [unfold carries in Hc; rewrite <- Hc; by apply prefix_datagrams|by eapply prefix_Forall]. Qed.

(** One message for each datagram. *)
Lemma send_plain ep msgs arrs bufs datas answers : batchOk (ep_src ep) msgs arrs bufs datas -> progressing answers ->
  (1 + length msgs <= length answers)%nat ->
  exists msgs' batch out err rest, plainMessages (destination ep) (ep_src ep) bufs msgs = Some msgs' /\
    mapM (wireOf arrs) (take (length bufs) msgs') = Some batch /\ sendLoop answers batch = Some (out, err, rest) /\
    partly ep datas out /\ (err = None -> carries (destination ep) (ep_src ep) datas out).
Proof.
  intros Hb Hp Hl. destruct (plain_batch (destination ep) _ _ _ _ _ Hb) as (msgs' & ws & -> & Ew & Hc & Hone & Hlen).
  pose proof (bo_count _ _ _ _ _ Hb) as Hn. destruct (sendLoop_spec answers ws Hp) as (out & err & rest & E & Ho & He & _); [lia|].
  exists msgs', ws, out, err, rest. split_and!; try done.
  - eapply partly_prefix; [done| |done]. eapply Forall_impl; [exact Hone|]. intros w Hw. unfold fits. rewrite Hw.
    split; [by right|]. unfold udpSegmentMaxDatagrams. lia.
  - intros ->. by rewrite He.
Qed.

(** Merged messages. *)
Lemma send_offload ep msgs arrs bufs datas answers : batchOk (ep_src ep) msgs arrs bufs datas -> progressing answers ->
  (1 + length msgs <= length answers)%nat ->
  exists n arrs' msgs' batch out err rest,
    coalesceMessages (destination ep) ep bufs arrs msgs setGSOSize = Some (n, arrs', msgs') /\
    mapM (wireOf arrs') (take n msgs') = Some batch /\ sendLoop answers batch = Some (out, err, rest) /\
    partly ep datas out /\ (err = None -> carries (destination ep) (ep_src ep) datas out) /\
    batchOk (ep_src ep) msgs' arrs' bufs datas /\ length msgs' = length msgs /\ progressing rest /\
    (length answers <= length rest + (1 + length msgs))%nat.
Proof.
  intros Hb Hp Hl.
  destruct (coalesce_batch (destination ep) ep _ _ _ _ Hb) as (n & arrs' & msgs' & ws & -> & Ew & Hc & Hf & Hlen & Hb' & Hm).
  destruct (sendLoop_spec answers ws Hp) as (out & err & rest & E & Ho & He & Hs & Hk); [lia|].
  exists n, arrs', msgs', ws, out, err, rest. split_and!; try done; [by eapply partly_prefix|by intros ->; rewrite He| |lia].
  by eapply progressing_suffix.
Qed.

(** Answers that come later are not looked at. *)
Lemma sendLoop_more answers more : forall ws out err rest,
  sendLoop answers ws = Some (out, err, rest) -> sendLoop (answers ++ more) ws = Some (out, err, rest ++ more).
Proof.
  induction answers as [|[n [e|]] answers IH]; intros ws out err rest; [done|by intros [= <- <- <-]|].
  cbn [app sendLoop]. destruct (_ =? _)%nat; [by intros [= <- <- <-]|].
  destruct (sendLoop answers _) as [[[out' err'] rest']|] eqn:E; [|done]. rewrite (IH _ _ _ _ E). by intros [= <- <- <-].
Qed.

(** ** The theorems *)

(** C11: sending a batch through an open bind ends, and what it writes in each
    call is a prefix of the batch, message by message within the limits of the
    kernel: as datagrams to the endpoint, from its source, with the payloads as
    they are.  Without an error everything is written; and when the kernel
    refuses offload, the second call writes everything again without it, and
    offload is off for the family from then on. *)
Theorem Send_sends ua msgs arrs bufs datas ep s answers :
  sendable ua msgs arrs bufs datas ep s -> progressing answers -> (2 * (1 + length msgs) <= length answers)%nat ->
  exists r, Send answers ua msgs arrs bufs ep s = Some r /\
    Forall (partly ep datas) (sr_wire r) /\
    (delivered (sr_err r) = true ->
     exists ws, list.last (sr_wire r) = Some ws /\ carries (destination ep) (ep_src ep) datas ws) /\
    match sr_err r with
    | Some (ErrUDPGSODisabled _) => length (sr_wire r) = 2%nat /\ sr_bind r = withoutOffload (is6 ep) s
    | _ => length (sr_wire r) = 1%nat /\ sr_bind r = s
    end.
Proof.
  intros [Hb Hip (U1 & U2 & U3) [c Hopen] Hhole] Hp Hl. unfold Send. rewrite Hhole, Hopen.
  destruct (setAddr_destination ua ep U1 U2 U3 Hip) as (ua' & -> & Hua). cbn [mbind option_bind]. rewrite Hua.
  destruct (if is6 ep then ipv6TxOffload s else ipv4TxOffload s).
  - destruct (send_offload ep _ _ _ _ answers Hb Hp) as (n & arrs' & msgs' & batch & out & err & rest & -> & E2 & E3 & Ho & He & Hb' & Hm & Hpr & Hk);
      [lia|]. cbn [mbind option_bind]. rewrite E2. cbn [mbind option_bind]. rewrite E3. cbn [mbind option_bind].
    destruct err as [e|]; [|eexists; split; [done|]; cbn; split_and!; [by apply Forall_singleton|by eauto|done|done]].
    destruct (errShouldDisableUDPGSO e); [|eexists; split; [done|]; cbn; split_and!; [by apply Forall_singleton|done..]].
    destruct (send_plain ep _ _ _ _ rest Hb' Hpr) as (msgs2 & batch2 & out2 & err2 & rest2 & -> & F2 & F3 & Ho2 & He2); [lia|].
    cbn [mbind option_bind]. rewrite F2. cbn [mbind option_bind]. rewrite F3. cbn [mbind option_bind].
    eexists. split; [done|]. cbn. split_and!; [by apply Forall_cons; split; [|apply Forall_singleton]| |done|done].
    destruct err2; [done|]. eauto.
  - destruct (send_plain ep _ _ _ _ answers Hb Hp) as (msgs2 & batch2 & out2 & err2 & rest2 & -> & F2 & F3 & Ho2 & He2); [lia|].
    cbn [mbind option_bind]. rewrite F2. cbn [mbind option_bind]. rewrite F3. cbn [mbind option_bind].
    destruct err2 as [e|]; (eexists; split; [done|]; cbn; split_and!; [by apply Forall_singleton|by eauto|done|done]).
Qed.

(** C28: the loop that writes a batch ends after at most one call for each
    message (one for none at all) when every answer of the kernel writes a
    message or is an error, and without an error it has written all; a kernel
    that writes nothing and reports no error keeps it busy for ever. *)
Theorem send_terminates (answers : nat -> nat * option bindError) ws :
  (forall k, (0 < (answers k).1)%nat \/ (answers k).2 <> None) ->
  (exists out err, (forall n, (Nat.max 1 (length ws) <= n)%nat -> exists rest, sendLoop (answers <$> seq 0 n) ws = Some (out, err, rest)) /\
    out `prefix_of` ws /\ (err = None -> out = ws)) /\
  (ws <> [] -> forall n, sendLoop (replicate n (0%nat, None)) ws = None).
Proof.
  intros Hp. split.
  - assert (Hpr : forall n, progressing (answers <$> seq 0 n)).
    { intros n. apply Forall_fmap, Forall_true. intros k. apply Hp. }
    set (n0 := Nat.max 1 (length ws)).
    destruct (sendLoop_spec (answers <$> seq 0 n0) ws (Hpr n0)) as (out & err & rest & E & Ho & He & _);
      [rewrite length_fmap, length_seq; lia|].
    exists out, err. split; [|done]. intros n Hn. replace n with (n0 + (n - n0))%nat by lia.
    rewrite seq_app, fmap_app. eexists. by apply sendLoop_more.
  - intros Hne n. induction n as [|n IH]; [done|]. cbn [replicate sendLoop]. rewrite Nat.min_0_l. destruct ws as [|w ws]; [done|].
    cbn [Nat.eqb length]. rewrite drop_0, IH. done.
Qed.

End BindSend.

(** ** Witnesses *)

Definition sample_message : Message := mkMessage (mkSlice 0 0) (mkOob (replicate 64 0) 0) None 0 0.
Definition sample_msgs : list Message := replicate 4 sample_message.

(** Three datagrams of 3, 3 and 2 bytes, in arrays of 12. *)
Definition sample_arrs : list bytes := (fun i => seqZ (16 * i) 12) <$> [0; 1; 2].
Definition sample_bufs : list Slice := [mkSlice 0 3; mkSlice 1 3; mkSlice 2 2].
Definition sample_datas : list bytes := [[0; 1; 2]; [16; 17; 18]; [32; 33]].
Definition sample_ep : Endpoint := mkEndpoint [192; 0; 2; 1] 51820 [].
Definition sample_bind : StdNetBind := mkBind (Some 51820) (Some 51820) true true true true false false.

(** The three are one message; the device has no checksum offload, so they go
    out again one by one. *)
Definition sample_answers : list (nat * option bindError) :=
  (0%nat, Some EIO) :: (2%nat, None) :: replicate 9 (1%nat, None).

Lemma sample_sendable : @sendable linuxSys newUDPAddr sample_msgs sample_arrs sample_bufs sample_datas sample_ep sample_bind.
Proof.
  split; [split| | | |done].
  - by left.
  - by repeat constructor.
  - cbn. lia.
  - by repeat constructor.
  - by repeat constructor.
  - apply (bool_decide_unpack _). vm_compute. exact I.
  - by left.
  - split_and!; [done|cbn; lia|done].
  - by eexists.
Qed.

Lemma Send_sends_witness :
  @sendable linuxSys newUDPAddr sample_msgs sample_arrs sample_bufs sample_datas sample_ep sample_bind /\
  exists r, @Send linuxSys sample_answers newUDPAddr sample_msgs sample_arrs sample_bufs sample_ep sample_bind = Some r /\
    sr_err r = Some (ErrUDPGSODisabled None) /\
    exists ws, list.last (sr_wire r) = Some ws /\ @carries linuxSys (destination sample_ep) [] sample_datas ws.
Proof.
  pose proof sample_sendable as Hs. split; [exact Hs|].
  destruct (Send_sends _ _ _ _ _ _ _ sample_answers Hs) as (r & E & _ & Hd & _).
  - apply (bool_decide_unpack _). vm_compute. exact I.
  - vm_compute. lia.
  - exists r. split; [exact E|]. vm_compute in E. injection E as <-. split; [reflexivity|]. by apply Hd.
Defined.

Lemma send_terminates_witness :
  exists out err, (forall n, (2 <= n)%nat -> exists rest,
    sendLoop ((fun _ => (1%nat, None)) <$> seq 0 n) [mkWire [1] [] None; mkWire [2] [] None] = Some (out, err, rest)).
Proof.
  destruct (send_terminates (fun _ => (1%nat, None)) [mkWire [1] [] None; mkWire [2] [] None]) as [(out & err & H & _) _].
  - intros _. left. cbn. lia.
  - exists out, err. exact H.
Defined.

(** An address of the pool that was last one for IPv4 is four bytes long when
    the sixteen of an address for IPv6 are copied: the datagram goes to an
    address of which only the first four bytes are right. *)
Example stale_address :
  let used := mkUDPAddr ([192; 0; 2; 1] ++ replicate 12 0) 4 51820 in
  let ep := mkEndpoint ([32; 1; 13; 184] ++ replicate 11 0 ++ [1]) 51820 [] in
  match @Send linuxSys [(1%nat, None)] used sample_msgs sample_arrs [mkSlice 0 3] ep sample_bind with
  | Some r => Some (w_addr <$> concat (sr_wire r))
  | None => None
  end
  = Some [Some ([32; 1; 13; 184] ++ replicate 12 0, 51820)] /\
  destination ep <> ([32; 1; 13; 184] ++ replicate 12 0, 51820).
Proof. by vm_compute. Qed.
