(* ===== verification/BindRecv.v ===== *)
(** What the UDP bind receives: messages that the kernel has merged are parted
    in the buffers they came in, datagrams of STUN go to the callback, and the
    others to the caller with their size and sender. *)
From S2P Require Import Prelude Replay Ratelimiter Checksum Messages NoiseHelpers Cookie AllowedIPs State.
From S2P Require Import Sockets Offload Gro BindStd BindSpec.

(** ** Specification *)

(** The datagrams in what the kernel read at once: it says the size by which
    they are to be parted, or 0. *)
Definition parts (g : Z) (data : bytes) : list bytes := if 0 <? g then pieces (Z.to_nat g) data else [data].

(** Two stores with arrays of the same lengths. *)
Definition sameShape (arrs arrs' : list bytes) : Prop := length <$> arrs' = length <$> arrs.

(** A buffer with room for [K] bytes. *)
Definition bufOk (K : nat) (arrs : list bytes) (b : Slice) : Prop :=
  exists a, arrs !! s_arr b = Some a /\ (K <= s_len b <= length a)%nat.

(** Message [m] holds the datagram [data] of [addr]. *)
Definition holdsAt (arrs : list bytes) (m : Message) (data : bytes) (addr : udpAddr) : Prop :=
  m_N m = length data /\ bytesOf arrs (m_buf m) 0 (length data) = Some data /\ m_addr m = Some addr.

(** What receiving leaves of a message. *)
Definition fixedPart (m : Message) : Slice * oob * nat := (m_buf m, m_oob m, m_NN m).

(** ** Buffers *)

Lemma sameShape_lookup arrs arrs' i a : sameShape arrs arrs' -> arrs !! i = Some a ->
  exists a', arrs' !! i = Some a' /\ length a' = length a.
Proof.
  intros Hs E. unfold sameShape in Hs. assert (E' : (length <$> arrs') !! i = Some (length a)) by (by rewrite Hs, list_lookup_fmap, E).
  rewrite list_lookup_fmap in E'. destruct (arrs' !! i) as [a'|] eqn:E2; [|done]. injection E' as E'. eauto.
Qed.

Lemma bufOk_shape K arrs arrs' b : sameShape arrs arrs' -> bufOk K arrs b -> bufOk K arrs' b.
Proof.
  intros Hs (a & Ea & Hl). destruct (sameShape_lookup _ _ _ _ Hs Ea) as (a' & Ea' & Hl'). exists a'. split; [done|lia].
Qed.

Lemma sameShape_trans a b c : sameShape a b -> sameShape b c -> sameShape a c.
Proof. unfold sameShape. congruence. Qed.

Lemma bytesOf_other arrs i x b s e : s_arr b <> i -> bytesOf (<[i := x]> arrs) b s e = bytesOf arrs b s e.
Proof. intros. unfold bytesOf. by rewrite list_lookup_insert_ne. Qed.

Lemma bytesOf_some arrs b s e d : bytesOf arrs b s e = Some d <->
  exists a, arrs !! s_arr b = Some a /\ (s <= e <= length a)%nat /\ d = slice s e a.
Proof.
  unfold bytesOf. destruct (arrs !! s_arr b) as [a|]; cbn [mbind option_bind]; [|naive_solver].
  unfold orElse. destruct (Nat.leb_spec s e), (Nat.leb_spec e (length a)); cbn [andb mbind option_bind]; try naive_solver lia.
Qed.

(** A part of what a buffer holds. *)
Lemma bytesOf_part arrs b data s e : bytesOf arrs b 0 (length data) = Some data -> (s <= e <= length data)%nat ->
  bytesOf arrs b s e = Some (slice s e data).
Proof.
  intros (a & Ea & Hl & Hd)%bytesOf_some He. apply bytesOf_some. exists a. split; [done|]. split; [lia|].
  rewrite Hd. unfold slice. rewrite drop_0, Nat.sub_0_r, skipn_firstn_comm, take_take. f_equal. lia.
Qed.

Lemma copyIn_spec K arrs b data : bufOk K arrs b -> (length data <= K)%nat ->
  exists arrs', copyIn arrs b data = Some arrs' /\ sameShape arrs arrs' /\
    bytesOf arrs' b 0 (length data) = Some data /\
    forall b' s e, s_arr b' <> s_arr b -> bytesOf arrs' b' s e = bytesOf arrs b' s e.
Proof.
  intros (a & Ea & Hl) Hd. unfold copyIn. rewrite Ea. cbn [mbind option_bind]. rewrite take_ge by lia.
  eexists. split; [done|]. split_and!.
  - unfold sameShape. rewrite list_fmap_insert, length_copy. apply list_insert_id. by rewrite list_lookup_fmap, Ea.
  - apply bytesOf_some. exists (copy_at a 0 data). rewrite list_lookup_insert_eq by (by eapply lookup_lt_Some).
    rewrite length_copy. split; [done|]. split; [lia|]. rewrite copy_at_fit by lia. rewrite take_0.
    symmetry. exact (slice_app_first data _ 0 (length data) eq_refl eq_refl).
  - intros b' s e Hb. by apply bytesOf_other.
Qed.

(** Messages whose arrays are distinct do not disturb each other. *)
Definition apart (msgs : list Message) : Prop := NoDup (s_arr ∘ m_buf <$> msgs).

Lemma apart_ne (msgs : list Message) i j m m' : apart msgs -> msgs !! i = Some m -> msgs !! j = Some m' -> i <> j ->
  s_arr (m_buf m') <> s_arr (m_buf m).
Proof.
  intros Hn Ei Ej Hij E. apply Hij. eapply NoDup_lookup; [exact Hn|by rewrite list_lookup_fmap, Ei|].
  rewrite list_lookup_fmap, Ej. exact (f_equal Some E).
Qed.

Lemma fixed_lookup (msgs msgs' : list Message) i m : fixedPart <$> msgs' = fixedPart <$> msgs -> msgs !! i = Some m ->
  exists m', msgs' !! i = Some m' /\ fixedPart m' = fixedPart m.
Proof.
  intros Hf E. assert (E' : (fixedPart <$> msgs') !! i = Some (fixedPart m)) by (by rewrite Hf, list_lookup_fmap, E).
  rewrite list_lookup_fmap in E'. destruct (msgs' !! i) as [m'|]; [|done]. exists m'. split; [done|]. by apply Some_inj.
Qed.

Lemma fixed_apart (msgs msgs' : list Message) : fixedPart <$> msgs' = fixedPart <$> msgs -> apart msgs -> apart msgs'.
Proof.
  intros Hf. unfold apart. replace (s_arr ∘ m_buf <$> msgs') with ((fun x : Slice * oob * nat => s_arr x.1.1) <$> (fixedPart <$> msgs'))
    by (by rewrite <- list_fmap_compose).
  rewrite Hf. by rewrite <- list_fmap_compose.
Qed.

(** ** Parting *)

(** [cs] are the slices of [data] that the loop cuts, from [start] on. *)
Fixpoint chain (g : nat) (data : bytes) (start end_ : nat) (cs : list bytes) : Prop :=
  match cs with
  | [] => True
  | c :: cs => c = slice start end_ data /\ (start <= end_ <= length data)%nat /\
      chain g data end_ (Nat.min (end_ + g) (length data)) cs
  end.

Lemma chain_chunked g pre cs : chunked g (length <$> cs) ->
  chain g (pre ++ concat cs) (length pre) (Nat.min (length pre + g) (length (pre ++ concat cs))) cs.
Proof.
  revert pre. induction cs as [|c [|d cs] IH]; intros pre Hc; [done| |].
  - cbn in *. rewrite app_nil_r, length_app. rewrite Nat.min_r by lia. split_and!; try done; try lia.
    symmetry. by apply slice_app_last.
  - rewrite !fmap_cons in Hc. apply chunked_cons in Hc as [Hd Hc]; [|done]. specialize (IH (pre ++ c) Hc).
    change (concat (c :: d :: cs)) with (c ++ concat (d :: cs)). rewrite (assoc_L app).
    assert (Hl : length (pre ++ c) = (length pre + g)%nat) by (rewrite length_app; lia). rewrite Hl in IH.
    assert (Ht : (length pre + g <= length ((pre ++ c) ++ concat (d :: cs)))%nat) by (rewrite length_app; lia).
    rewrite (Nat.min_l (length pre + g)) by done. refine (conj _ (conj _ IH)); [|lia].
    rewrite <- (assoc_L app). symmetry. apply slice_app_mid; lia.
Qed.

(** Only the size and the sender of a message change. *)
Lemma fixed_insert (msgs : list Message) i m m' : msgs !! i = Some m -> fixedPart m' = fixedPart m ->
  fixedPart <$> <[i := m']> msgs = fixedPart <$> msgs.
Proof. intros E Hf. rewrite list_fmap_insert, Hf. apply list_insert_id. by rewrite list_lookup_fmap, E. Qed.

Lemma fixed_bufOk K arrs arrs' (msgs msgs' : list Message) : fixedPart <$> msgs' = fixedPart <$> msgs -> sameShape arrs arrs' ->
  Forall (fun m => bufOk K arrs (m_buf m)) msgs -> Forall (fun m => bufOk K arrs' (m_buf m)) msgs'.
Proof.
  intros Hf Hs Hok. apply Forall_lookup. intros i m' E'. destruct (fixed_lookup _ _ _ _ (eq_sym Hf) E') as (m & E & Hm).
  eapply Forall_lookup_1 in Hok; [|exact E]. injection Hm as <- _ _. by eapply bufOk_shape.
Qed.

(** One message is parted into itself and the messages before it. *)
Lemma splitOne_spec K i g data addr cs : forall start end_ st m,
  chain g data start end_ cs -> Forall (fun c => length c <= K)%nat cs ->
  (sp_n st + length cs <= S i)%nat -> apart (sp_msgs st) -> Forall (fun m => bufOk K (sp_arrs st) (m_buf m)) (sp_msgs st) ->
  sp_msgs st !! i = Some m -> holdsAt (sp_arrs st) m data addr ->
  exists st', splitOne i g (length cs) start end_ st = Some (inl st') /\ sp_n st' = (sp_n st + length cs)%nat /\
    fixedPart <$> sp_msgs st' = fixedPart <$> sp_msgs st /\ sameShape (sp_arrs st) (sp_arrs st') /\
    (forall j c, cs !! j = Some c -> exists m', sp_msgs st' !! (sp_n st + j)%nat = Some m' /\ holdsAt (sp_arrs st') m' c addr) /\
    (forall k m', (k < sp_n st \/ sp_n st + length cs <= k)%nat -> sp_msgs st !! k = Some m' ->
      sp_msgs st' !! k = Some m' /\ forall s e, bytesOf (sp_arrs st') (m_buf m') s e = bytesOf (sp_arrs st) (m_buf m') s e).
Proof.
  induction cs as [|c cs IH]; intros start end_ st m Hch Hsz Hfit Hap Hok Em Hm.
  { exists st. cbn. rewrite Nat.add_0_r. split_and!; done. }
  destruct Hch as (Hc & Hse & Hch). apply Forall_cons in Hsz as [Hcl Hsz]. cbn [length] in *. destruct Hm as (HN & Hb & Ha).
  cbn [splitOne]. rewrite (proj2 (Nat.ltb_ge _ _)) by lia. rewrite Em. cbn [mbind option_bind].
  rewrite (bytesOf_part _ _ _ _ _ Hb Hse), <- Hc. cbn [mbind option_bind].
  destruct (lookup_lt_is_Some_2 (sp_msgs st) (sp_n st)) as [dst Ed].
  { apply lookup_lt_Some in Em. lia. }
  rewrite Ed. cbn [mbind option_bind].
  destruct (copyIn_spec K (sp_arrs st) (m_buf dst) c) as (arrs' & -> & Hsh & Hnew & Hold); [|done|].
  { exact (Forall_lookup_1 _ _ _ _ Hok Ed). }
  cbn [mbind option_bind]. assert (Hbd : bufOk K (sp_arrs st) (m_buf dst)) by exact (Forall_lookup_1 _ _ _ _ Hok Ed).
  assert (Hmin : Nat.min (s_len (m_buf dst)) (length c) = length c) by (destruct Hbd as (? & _ & ?); lia). rewrite Hmin.
  set (dst' := dst <| m_N := length c |> <| m_addr := m_addr m |>). set (msgs1 := <[sp_n st := dst']> (sp_msgs st)).
  assert (Hlt : (sp_n st < length (sp_msgs st))%nat) by (by eapply lookup_lt_Some).
  assert (Hf1 : fixedPart <$> msgs1 = fixedPart <$> sp_msgs st) by (by eapply fixed_insert).
  assert (Hn : msgs1 !! sp_n st = Some dst') by (by apply list_lookup_insert_eq).
  assert (Hd' : holdsAt arrs' dst' c addr) by (split_and!; done).
  assert (Hkeep : forall k m', k <> sp_n st -> sp_msgs st !! k = Some m' ->
    msgs1 !! k = Some m' /\ forall s e, bytesOf arrs' (m_buf m') s e = bytesOf (sp_arrs st) (m_buf m') s e).
  { intros k m' Hk E. split; [unfold msgs1; by rewrite list_lookup_insert_ne|]. intros s e. apply Hold. by eapply apart_ne. }
  destruct (decide (sp_n st = i)) as [Hi|Hi].
  - assert (cs = []) as -> by (destruct cs; [done|cbn in Hfit; lia]). subst i. rewrite Hn. cbn [mbind option_bind splitOne length].
    eexists. split; [done|]. cbn [sp_n sp_arrs sp_msgs]. split_and!; [lia|done..| |].
    + intros [|j] c' E; [|done]. injection E as <-. rewrite Nat.add_0_r. eauto.
    + intros k m' Hk. apply Hkeep. lia.
  - destruct (Hkeep i m ltac:(done) Em) as [Em1 Hb1]. rewrite Em1. cbn [mbind option_bind]. rewrite HN.
    destruct (IH end_ (Nat.min (end_ + g) (length data)) (mkSplit (S (sp_n st)) arrs' msgs1) m)
      as (st' & -> & Hn' & Hf' & Hs' & Hnew' & Hold'); cbn [sp_n sp_arrs sp_msgs]; try done; [lia|by eapply fixed_apart|by eapply fixed_bufOk|by rewrite <- Hb1 in Hb|].
    cbn [sp_n sp_arrs sp_msgs] in *. exists st'. split_and!; [done|lia|congruence|by eapply sameShape_trans| |].
    + intros [|j] c' E.
      * injection E as <-. rewrite Nat.add_0_r. destruct (Hold' (sp_n st) dst' ltac:(lia) Hn) as [Hd1 Hd2].
        exists dst'. split; [done|]. destruct Hd' as (? & ? & ?). split_and!; [done| |done]. by rewrite Hd2.
      * rewrite <- Nat.add_succ_comm. by apply Hnew'.
    + intros k m' Hk E. destruct (Hkeep k m' ltac:(lia) E) as [E1 Hb2].
      destruct (Hold' k m' ltac:(lia) E1) as [E2 Hb3]. split; [done|]. intros s e. by rewrite Hb3.
Qed.

Lemma slice_full {A} (l : list A) : slice 0 (length l) l = l.
Proof. unfold slice. by rewrite Nat.sub_0_r, drop_0, take_ge. Qed.

Lemma parts_chain g data : data <> [] -> 0 <= g <= zlen data ->
  chain (Z.to_nat g) data 0 (if (0 <? Z.to_nat g)%nat then Z.to_nat g else length data) (parts g data) /\
  length (parts g data) = (if (0 <? Z.to_nat g)%nat then (length data + Z.to_nat g - 1) / Z.to_nat g else 1)%nat /\
  Forall (fun c => length c <= length data)%nat (parts g data).
Proof.
  intros Hd Hg. unfold parts. destruct (Z.ltb_spec 0 g) as [H|H].
  - rewrite (proj2 (Nat.ltb_lt _ _)) by lia. destruct (pieces_spec (Z.to_nat g) data) as [Hc Hcat]; [lia|done|].
    split_and!; [|apply length_pieces|].
    + pose proof (chain_chunked (Z.to_nat g) [] _ Hc) as Hch. cbn [app length] in Hch. rewrite Hcat, Nat.add_0_l in Hch.
      by rewrite Nat.min_l in Hch by lia.
    + apply Forall_forall. intros c Hin. rewrite <- Hcat at 1. rewrite length_concat.
      apply (sum_list_with_in _ id). apply list_elem_of_fmap. eauto.
  - assert (g = 0) as -> by lia. 
    change (chain 0 data 0 (length data) [data] /\ 1%nat = 1%nat /\ Forall (fun c => length c <= length data)%nat [data]).
    split_and!; [split; [by rewrite slice_full|split; [lia|done]]|done|by repeat constructor].
Qed.

(** ** All messages that were read *)

(** What was read, with the sizes by which to part it. *)
Abbreviation reads := (list (datagram * Z)).

Definition outOf (x : datagram * Z) : list (bytes * udpAddr) := (fun c => (c, dg_addr x.1)) <$> parts x.2 (dg_data x.1).

(** The datagrams fit into the messages up to the one they come from. *)
Fixpoint fitsIn (n i : nat) (rs : reads) : Prop :=
  match rs with
  | [] => True
  | x :: rs => (n + length (outOf x) <= S i)%nat /\ fitsIn (n + length (outOf x)) (S i) rs
  end.

Record readOk (K : nat) (x : datagram * Z) : Prop := {
  rd_data : dg_data x.1 <> [];
  rd_size : (length (dg_data x.1) <= K)%nat;
  rd_gso : 0 <= x.2 <= zlen (dg_data x.1) }.

Definition pending (getGSO : bytes -> option (Z + unit)) (arrs : list bytes) (msgs : list Message) (i : nat) (rs : reads) : Prop :=
  forall k x, rs !! k = Some x -> exists m, msgs !! (i + k)%nat = Some m /\
    holdsAt arrs m (dg_data x.1) (dg_addr x.1) /\ getGSO (take (m_NN m) (control (m_oob m))) = Some (inl x.2).

Definition results (arrs : list bytes) (msgs : list Message) (res : list (bytes * udpAddr)) : Prop :=
  forall j c a, res !! j = Some (c, a) -> exists m, msgs !! j = Some m /\ holdsAt arrs m c a.

(** After the last one, an empty message stops the loop. *)
Definition stops (msgs : list Message) (i : nat) : Prop := forall m, msgs !! i = Some m -> m_N m = 0%nat.

(** A turn of the loop: the read at [i] is parted into the next messages, and what
    is before them and after it stays as it is. *)
Lemma splitTurn getGSO K i st todo d g m : sp_msgs st !! i = Some m -> holdsAt (sp_arrs st) m (dg_data d) (dg_addr d) ->
  getGSO (take (m_NN m) (control (m_oob m))) = Some (inl g) -> readOk K (d, g) ->
  (sp_n st + length (outOf (d, g)) <= S i)%nat -> apart (sp_msgs st) ->
  Forall (fun m => bufOk K (sp_arrs st) (m_buf m)) (sp_msgs st) ->
  exists arrs' msgs', splitLoop getGSO (S todo) i st =
      splitLoop getGSO todo (S i) (mkSplit (sp_n st + length (outOf (d, g))) arrs' msgs') /\
    fixedPart <$> msgs' = fixedPart <$> sp_msgs st /\ sameShape (sp_arrs st) arrs' /\
    (forall j c a, outOf (d, g) !! j = Some (c, a) -> exists m', msgs' !! (sp_n st + j)%nat = Some m' /\ holdsAt arrs' m' c a) /\
    (forall j m', (j < sp_n st \/ i < j)%nat -> sp_msgs st !! j = Some m' -> msgs' !! j = Some m' /\
       forall s e, bytesOf arrs' (m_buf m') s e = bytesOf (sp_arrs st) (m_buf m') s e).
Proof.
  intros Em (HN & Hb & Ha) Hg [Hd HdK Hgd] Hfit Hap Hbuf. cbn [fst snd] in *. cbn [splitLoop].
  rewrite Em. cbn [mbind option_bind]. rewrite HN, (proj2 (Nat.eqb_neq _ _)) by (by destruct (dg_data d)).
  rewrite Hg. cbn [mbind option_bind]. destruct (parts_chain g (dg_data d) Hd Hgd) as (Hch & Hlen & Hsz).
  assert (Hlo : length (outOf (d, g)) = length (parts g (dg_data d))) by apply length_fmap.
  destruct (splitOne_spec K i (Z.to_nat g) (dg_data d) (dg_addr d) (parts g (dg_data d)) 0
    (if (0 <? Z.to_nat g)%nat then Z.to_nat g else length (dg_data d)) st m Hch)
    as (st1 & E1 & Hn1 & Hf1 & Hs1 & Hnew & Hold); [|lia|done..|].
  { eapply Forall_impl; [exact Hsz|]. cbn. lia. }
  rewrite <- Hlen, E1. cbn [mbind option_bind].
  destruct (fixed_lookup _ _ _ _ Hf1 Em) as (m1 & Em1 & Hfm1). rewrite Em1. cbn [mbind option_bind].
  set (msgs2 := if (S i =? sp_n st1)%nat then sp_msgs st1 else <[i := m1 <| m_N := 0%nat |>]> (sp_msgs st1)).
  assert (Hpos : (0 < length (parts g (dg_data d)))%nat).
  { rewrite Hlen. destruct (Nat.ltb_spec 0 (Z.to_nat g)); [|lia]. apply Nat.div_str_pos. destruct (dg_data d); [done|]. cbn in *. lia. }
  assert (Hkeep : forall j m', (j < sp_n st1 \/ j <> i)%nat -> sp_msgs st1 !! j = Some m' -> msgs2 !! j = Some m').
  { intros j m' Hj E. unfold msgs2. destruct (Nat.eqb_spec (S i) (sp_n st1)); [done|]. rewrite list_lookup_insert_ne by lia. done. }
  exists (sp_arrs st1), msgs2. rewrite Hlo, <- Hn1. split_and!; [done| |done| |].
  - unfold msgs2. destruct (_ =? _)%nat; [done|]. by rewrite (fixed_insert _ _ m1).
  - intros j c a E. unfold outOf in E. rewrite list_lookup_fmap in E. cbn [fst snd] in E.
    destruct (parts g (dg_data d) !! j) as [c'|] eqn:Ec; [|done]. injection E as -> <-.
    destruct (Hnew _ _ Ec) as (m' & Ej & Hh). pose proof (lookup_lt_Some _ _ _ Ec).
    exists m'. split; [|done]. apply Hkeep; [lia|done].
  - intros j m' Hj E. destruct (Hold j m' ltac:(lia) E) as [Ej Hbj]. split; [|done]. apply Hkeep; [lia|done].
Qed.

Lemma splitMessages_spec getGSO K rs : forall i st res todo,
  sp_n st = length res -> results (sp_arrs st) (sp_msgs st) res -> pending getGSO (sp_arrs st) (sp_msgs st) i rs ->
  fitsIn (length res) i rs -> Forall (readOk K) rs -> apart (sp_msgs st) ->
  Forall (fun m => bufOk K (sp_arrs st) (m_buf m)) (sp_msgs st) -> (i + todo = length (sp_msgs st))%nat ->
  stops (sp_msgs st) (i + length rs) ->
  exists st', splitLoop getGSO todo i st = Some (st', None) /\
    sp_n st' = length (res ++ concat (outOf <$> rs)) /\ results (sp_arrs st') (sp_msgs st') (res ++ concat (outOf <$> rs)) /\
    fixedPart <$> sp_msgs st' = fixedPart <$> sp_msgs st /\ sameShape (sp_arrs st) (sp_arrs st').
Proof.
  induction rs as [|[d g] rs IH]; intros i st res todo Hn Hres Hpend Hfit Hok Hap Hbuf Htodo Hstop.
  - exists st. cbn [fmap list_fmap concat length] in *. rewrite app_nil_r. split; [|done]. destruct todo as [|todo]; [done|]. cbn [splitLoop].
    destruct (lookup_lt_is_Some_2 (sp_msgs st) i) as [m Em]; [lia|]. rewrite Em. cbn [mbind option_bind].
    rewrite Nat.add_0_r in Hstop. by rewrite (Hstop m Em).
  - destruct (Hpend 0%nat (d, g) eq_refl) as (m & Em & Hm & Hg). rewrite Nat.add_0_r in Em. cbn [fst snd] in *.
    apply Forall_cons in Hok as [Hok1 Hok]. destruct Hfit as [Hfit1 Hfit].
    pose proof (lookup_lt_Some _ _ _ Em) as Hlt. destruct todo as [|todo]; [lia|].
    destruct (splitTurn getGSO K i st todo d g m Em Hm Hg Hok1) as (arrs' & msgs' & E1 & Hf & Hs & Hnew & Hold); [lia|done..|].
    assert (length msgs' = length (sp_msgs st)) as Hlen by (apply (f_equal length) in Hf; by rewrite !length_fmap in Hf).
    assert (forall m' c a, holdsAt (sp_arrs st) m' c a ->
      (forall s e, bytesOf arrs' (m_buf m') s e = bytesOf (sp_arrs st) (m_buf m') s e) -> holdsAt arrs' m' c a) as Hcarry.
    { intros m' c a (H1 & H2 & H3) H. split_and!; [done| |done]. by rewrite H. }
    destruct (IH (S i) (mkSplit (sp_n st + length (outOf (d, g))) arrs' msgs') (res ++ outOf (d, g)) todo) as (st' & E' & Hn' & Hr' & Hf' & Hs');
      cbn [sp_n sp_arrs sp_msgs]; try (by rewrite length_app; lia || done); try lia.
    + intros j c a E. destruct (decide (j < length res)%nat) as [Hj|Hj].
      * rewrite lookup_app_l in E by done. destruct (Hres _ _ _ E) as (m' & Ej & Hh).
        destruct (Hold j m' ltac:(lia) Ej). exists m'. auto.
      * rewrite lookup_app_r in E by lia. destruct (Hnew _ _ _ E) as (m' & Ej & Hh).
        exists m'. split; [|done]. by replace j with (sp_n st + (j - length res))%nat by lia.
    + intros k x Ek. destruct (Hpend (S k) x Ek) as (m' & Ej & Hh & Hg').
      destruct (Hold (i + S k)%nat m' ltac:(lia) Ej). exists m'. rewrite Nat.add_succ_comm. auto.
    + done.
    + by eapply fixed_apart.
    + by eapply fixed_bufOk.
    + intros m' Em'. destruct (lookup_lt_is_Some_2 (sp_msgs st) (S i + length rs)) as [m2 Em2]; [rewrite <- Hlen; by eapply lookup_lt_Some|].
      destruct (Hold (S i + length rs)%nat m2 ltac:(lia) Em2) as [Em3 _]. rewrite Em' in Em3. injection Em3 as ->. apply Hstop.
      cbn [length]. by rewrite <- Nat.add_succ_comm.
    + exists st'. rewrite E1, E'. cbn [fmap list_fmap concat]. rewrite (assoc_L app).
      split_and!; [done|done|done|by etrans; [exact Hf'|exact Hf]|by eapply sameShape_trans].
Qed.
