(* ===== verification/BindDeliver.v ===== *)
(** [receiveIP] of the UDP bind, whole: from the answer of the kernel to the
    slices of the caller. *)
From S2P Require Import Prelude Replay Ratelimiter Checksum Messages NoiseHelpers Cookie AllowedIPs State.
From S2P Require Import Sockets Offload Gro BindStd BindSpec BindRecv.

(** ** Specification *)

(** The packets to keep, with their positions among those received. *)
Definition isPacket (c : bytes) : bool := negb (isStun c) && negb (length c =? 0)%nat.
Fixpoint keptFrom (i : nat) (res : list (bytes * udpAddr)) : list (nat * (bytes * udpAddr)) :=
  match res with
  | [] => []
  | x :: res => if isPacket x.1 then (i, x) :: keptFrom (S i) res else keptFrom (S i) res
  end.
Definition stunOf (res : list (bytes * udpAddr)) : list (bytes * udpAddr) := filter (fun x => isStun x.1 = true) res.

Section BindDeliver.
Context `{OS : Sys} `{SL : !SysLaws OS}.

(** The source that the control bytes of message [i] give: those of a datagram
    that was parted stay with the message it was read into. *)
Definition sourceOf (rxOffload : bool) (readAt i : nat) (ds : list datagram) : bytes :=
  let d := if rxOffload then (if (i <? readAt)%nat then None else ds !! (i - readAt)%nat) else ds !! i in
  match d with Some d => default [] (getSrcFromControl (dg_control d)) | None => [] end.

(** ** Reading *)

(** What [ReadBatch] puts into one message. *)
Lemma readMessage_spec K d arrs m : bufOk K arrs (m_buf m) -> (length (dg_data d) <= K)%nat ->
  o_len (m_oob m) = length (o_mem (m_oob m)) -> (length (dg_control d) <= o_len (m_oob m))%nat ->
  exists arrs' m', readMessage d arrs m = Some (arrs', m') /\ m_buf m' = m_buf m /\ sameShape arrs arrs' /\
    holdsAt arrs' m' (dg_data d) (dg_addr d) /\ take (m_NN m') (control (m_oob m')) = dg_control d /\
    forall b s e, s_arr b <> s_arr (m_buf m) -> bytesOf arrs' b s e = bytesOf arrs b s e.
Proof.
  intros Hb Hd Ho Hc. destruct (copyIn_spec K arrs (m_buf m) (dg_data d) Hb Hd) as (arrs' & E & Hs & Hnew & Hold).
  unfold readMessage. rewrite E. cbn [mbind option_bind]. do 2 eexists. split; [done|]. destruct Hb as (a & _ & Hl).
  split_and!; [done|done| | |done].
  - split; [cbn; lia|done].
  - cbn [m_NN m_oob]. unfold control. cbn [o_mem o_len]. rewrite Nat.min_r by lia. rewrite (take_ge (dg_control d)) by lia.
    rewrite copy_at_fit by lia. rewrite take_0, take_take, Nat.min_l by lia. exact (take_app_length (dg_control d) _).
Qed.

Definition roomFor (d : datagram) (m : Message) : Prop :=
  o_len (m_oob m) = length (o_mem (m_oob m)) /\ (length (dg_control d) <= o_len (m_oob m))%nat.

Lemma ReadBatch_spec K ds : forall arrs msgs, (length ds <= length msgs)%nat -> apart msgs ->
  Forall (fun m => bufOk K arrs (m_buf m)) msgs -> Forall (fun d => (length (dg_data d) <= K)%nat) ds ->
  (forall d m, d ∈ ds -> m ∈ msgs -> roomFor d m) ->
  exists arrs' msgs', ReadBatch ds arrs msgs = Some (arrs', msgs') /\ m_buf <$> msgs' = m_buf <$> msgs /\
    sameShape arrs arrs' /\ drop (length ds) msgs' = drop (length ds) msgs /\
    (forall k d, ds !! k = Some d -> exists m, msgs' !! k = Some m /\ holdsAt arrs' m (dg_data d) (dg_addr d) /\
      take (m_NN m) (control (m_oob m)) = dg_control d) /\
    forall b s e, s_arr b ∉ s_arr ∘ m_buf <$> msgs -> bytesOf arrs' b s e = bytesOf arrs b s e.
Proof.
  induction ds as [|d ds IH]; intros arrs msgs Hl Hap Hok Hd Hroom.
  { exists arrs, msgs. split; [by destruct msgs|]. by split_and!. }
  destruct msgs as [|m msgs]; [cbn in Hl; lia|]. apply Forall_cons in Hok as [Hm Hok]. apply Forall_cons in Hd as [Hd1 Hd].
  destruct (Hroom d m) as [Hr1 Hr2]; [by left..|]. apply NoDup_cons in Hap as [Hnotin Hap]. cbn [length] in Hl.
  destruct (readMessage_spec K d arrs m Hm Hd1 Hr1 Hr2) as (arrs1 & m1 & E1 & Hb1 & Hs1 & Hh1 & Hc1 & Ho1).
  destruct (IH arrs1 msgs) as (arrs2 & msgs2 & E2 & Hb2 & Hs2 & Hdr & Hh2 & Ho2); [lia|done| |done| |].
  { eapply Forall_impl; [exact Hok|]. intros x. by apply bufOk_shape. }
  { intros d' m' Hd' Hm'. apply Hroom; by right. }
  cbn [ReadBatch]. rewrite E1. cbn [mbind option_bind]. rewrite E2. cbn [mbind option_bind].
  exists arrs2, (m1 :: msgs2). split; [done|]. rewrite !fmap_cons, Hb1, Hb2. split_and!; [done|by eapply sameShape_trans|done| |].
  - intros [|k] d' E; [|by apply Hh2]. injection E as <-. exists m1. split; [done|]. split; [|done].
    destruct Hh1 as (HN & Hb & Ha). split_and!; [done| |done]. rewrite Ho2; [done|]. by rewrite Hb1.
  - intros b s e Hnin. rewrite Ho2, Ho1; [done| |].
    + intros Eb. apply Hnin. rewrite Eb. by left.
    + intros Hin. apply Hnin. by right.
Qed.

(** The messages with the caller's buffers. *)
Lemma takeBuffers_spec cap bufs : forall msgs, length bufs = length msgs ->
  Forall (fun m => m_N m = 0%nat /\ m_NN m = 0%nat /\ length (o_mem (m_oob m)) = cap) msgs ->
  exists msgs', takeBuffers bufs msgs = Some msgs' /\ m_buf <$> msgs' = bufs /\
    Forall (fun m => m_N m = 0%nat /\ m_NN m = 0%nat /\ length (o_mem (m_oob m)) = cap /\ o_len (m_oob m) = cap) msgs'.
Proof.
  induction bufs as [|b bufs IH]; intros [|m msgs] Hl Hm; try done; [by exists []|].
  apply Forall_cons in Hm as [(H1 & H2 & H3) Hm]. injection Hl as Hl. destruct (IH msgs Hl Hm) as (msgs' & E & Hb & Hf).
  cbn [takeBuffers]. rewrite E. cbn [mbind option_bind]. eexists. split; [done|]. rewrite fmap_cons, Hb. split; [done|].
  constructor; [|done]. cbn. done.
Qed.

(** ** The caller's slices *)

Lemma copyIn_same arrs b d : bytesOf arrs b 0 (length d) = Some d -> (length d <= s_len b)%nat -> copyIn arrs b d = Some arrs.
Proof.
  intros (a & Ea & Hl & Hd)%bytesOf_some Hs. unfold copyIn. rewrite Ea. cbn [mbind option_bind]. f_equal.
  rewrite take_ge by done. rewrite copy_at_fit by lia. rewrite take_0. cbn [app]. rewrite Nat.add_0_l.
  apply list_insert_id. rewrite Ea. f_equal. rewrite <- (take_drop (length d) a) at 1. f_equal.
  rewrite Hd at 2. unfold slice. by rewrite drop_0, Nat.sub_0_r.
Qed.

Section Loop.
Context (callback : bool) (arrs : list bytes) (bufs : list Slice) (all : list Message).

(** The source that the control bytes of a message give. *)
Definition srcOfMsg (m : Message) : bytes := default [] (getSrcFromControl (take (m_NN m) (control (m_oob m)))).

(** The caller finds packet [k], the one at position [i] of those received. *)
Definition entryOf (r : received) (k : nat) (x : nat * (bytes * udpAddr)) : Prop :=
  rv_bufs r !! k = bufs !! x.1 /\ rv_sizes r !! k = Some (length x.2.1) /\
  exists m, all !! x.1 = Some m /\ rv_eps r !! k = Some (Some (endpointOf x.2.2 (srcOfMsg m))).

Record progress (i : nat) (kd : list (nat * (bytes * udpAddr))) (st : list (bytes * udpAddr)) (n : nat) (r : received) : Prop := {
  pr_arrs : rv_arrs r = arrs;
  pr_idx : rv_writeIdx r = length kd;
  pr_le : (length kd <= i)%nat;
  pr_kd : forall k x, kd !! k = Some x -> entryOf r k x;
  pr_tail : forall j, (i <= j)%nat -> rv_bufs r !! j = bufs !! j;
  pr_bufs : length (rv_bufs r) = length bufs;
  pr_sizes : (n <= length (rv_sizes r))%nat;
  pr_eps : (n <= length (rv_eps r))%nat;
  pr_stun : rv_stun r = st;
  pr_front : length kd = i -> rv_bufs r = bufs }.

(** Message [m] at position [i], with its datagram. *)
Definition arrived (i : nat) (x : bytes * udpAddr) : Prop :=
  exists m, all !! i = Some m /\ holdsAt arrs m x.1 x.2 /\ bufs !! i = Some (m_buf m) /\
    (length x.1 <= s_len (m_buf m))%nat.

Lemma receiveOne_skip i kd st n r x : progress i kd st n r -> arrived i x -> isPacket x.1 = false ->
  exists m, all !! i = Some m /\ exists r', receiveOne callback i m r = Some r' /\
    progress (S i) kd (st ++ (if callback then stunOf [x] else [])) n r'.
Proof.
  intros [Pa Pi Pl Pk Pt Pb Ps Pe Pst Pf] (m & Em & (HN & Hb & Ha) & Hbuf & Hlen) Hk. unfold receiveOne.
  exists m. split; [done|].
  rewrite Pa, HN, Hb. cbn [mbind option_bind]. unfold isPacket in Hk. unfold stunOf. rewrite filter_cons, filter_nil.
  destruct (isStun x.1) eqn:Es.
  - rewrite decide_True by done. rewrite Ha. eexists. split; [done|].
    destruct x as [c a]. destruct callback; split; cbn; try done; try lia; try (by rewrite Pst); try (by rewrite app_nil_r);
      intros; try (apply Pt; lia); lia.
  - cbn [negb andb] in Hk. apply negb_false_iff in Hk. rewrite Hk. rewrite decide_False by done. exists r.
    split; [done|]. replace (if callback then [] else []) with (@nil (bytes * udpAddr)) by (by destruct callback).
    rewrite app_nil_r. split; try done; try lia; intros; try (apply Pt; lia); lia.
Qed.

Lemma receiveOne_packet i kd st n r x : progress i kd st n r -> arrived i x -> isPacket x.1 = true -> (i < n)%nat ->
  exists m, all !! i = Some m /\ exists r', receiveOne callback i m r = Some r' /\ progress (S i) (kd ++ [(i, x)]) st n r'.
Proof.
  intros [Pa Pi Pl Pk Pt Pb Ps Pe Pst Pf] (m & Em & (HN & Hb & Ha) & Hbuf & Hlen) [Hk1 Hk2]%andb_prop Hin. unfold receiveOne.
  exists m. split; [done|].
  rewrite Pa, HN, Hb. cbn [mbind option_bind]. apply negb_true_iff in Hk1, Hk2. rewrite Hk1, Hk2, Pi, Ha.
  pose proof (lookup_lt_Some _ _ _ Hbuf) as Hib.
  set (bufs' := <[length kd := m_buf m]> (rv_bufs r)).
  assert (E : (if (length kd =? i)%nat then Some (rv_bufs r, arrs)
     else buf ← rv_bufs r !! i; _ ← rv_bufs r !! length kd; arrs' ← copyIn arrs buf x.1; Some (<[length kd := buf]> (rv_bufs r), arrs'))
     = Some (bufs', arrs)).
  { destruct (Nat.eqb_spec (length kd) i) as [Hi|Hi].
    - unfold bufs'. rewrite list_insert_id; [done|]. by rewrite Hi, (Pt i), Hbuf.
    - rewrite (Pt i), Hbuf by lia. cbn [mbind option_bind].
      destruct (lookup_lt_is_Some_2 (rv_bufs r) (length kd)) as [b0 ->]; [lia|]. cbn [mbind option_bind].
      by rewrite copyIn_same by done. }
  rewrite E. cbn [mbind option_bind].
  destruct (lookup_lt_is_Some_2 (rv_sizes r) (length kd)) as [z0 ->]; [lia|].
  destruct (lookup_lt_is_Some_2 (rv_eps r) (length kd)) as [e0 ->]; [lia|]. cbn [mbind option_bind].
  assert (is_Some (getSrcFromControl (take (m_NN m) (control (m_oob m))))) as [src Esrc].
  { unfold getSrcFromControl. destruct (scan_total srcData (take (m_NN m) (control (m_oob m)))) as [? ->]. by eexists. }
  rewrite Esrc. cbn [mbind option_bind]. eexists. split; [done|].
  split; cbn [rv_arrs rv_bufs rv_sizes rv_eps rv_writeIdx rv_stun]; rewrite ?length_app, ?length_insert; try done; try (cbn; lia).
  - intros k y Ey. apply lookup_app_Some in Ey as [Ey|[Hge Ey]].
    + pose proof (lookup_lt_Some _ _ _ Ey). destruct (Pk _ _ Ey) as (H1 & H2 & m' & H3 & H4).
      unfold entryOf, bufs'. cbn [rv_bufs rv_sizes rv_eps]. rewrite !list_lookup_insert_ne by lia. eauto.
    + destruct (k - length kd)%nat as [|] eqn:Ek; [|done]. injection Ey as <-. assert (k = length kd) as -> by lia.
      unfold entryOf, bufs'. cbn [rv_bufs rv_sizes rv_eps fst snd]. rewrite !list_lookup_insert_eq by lia.
      split_and!; [done|done|]. exists m. split; [done|]. unfold srcOfMsg. by rewrite Esrc.
  - intros j Hj. unfold bufs'. rewrite list_lookup_insert_ne by lia. apply Pt. lia.
  - unfold bufs'. by rewrite length_insert.
  - cbn [length]. intros Hi. unfold bufs'. rewrite Pf by lia. apply list_insert_id. by replace (length kd) with i by lia.
Qed.

Lemma receiveLoop_spec res : forall i kd st n r, progress i kd st n r -> (forall k x, res !! k = Some x -> arrived (i + k) x) ->
  (i + length res <= n)%nat ->
  exists r', receiveLoop callback i (take (length res) (drop i all)) r = Some r' /\
    progress (i + length res) (kd ++ keptFrom i res) (st ++ (if callback then stunOf res else [])) n r'.
Proof.
  induction res as [|x res IH]; intros i kd st n r Hp Hres Hn.
  { exists r. cbn. rewrite take_0, Nat.add_0_r, app_nil_r. replace (if callback then [] else []) with (@nil (bytes * udpAddr)) by (by destruct callback).
    by rewrite app_nil_r. }
  pose proof (Hres 0%nat x eq_refl) as Hx. rewrite Nat.add_0_r in Hx. cbn [length] in *.
  assert (Hres' : forall k y, res !! k = Some y -> arrived (S i + k) y).
  { intros k y E. rewrite Nat.add_succ_comm. by apply (Hres (S k)). }
  destruct (isPacket x.1) eqn:Hk.
  - destruct (receiveOne_packet _ _ _ _ _ _ Hp Hx Hk) as (m & Em & r1 & E1 & Hp1); [lia|].
    destruct (IH (S i) _ _ _ _ Hp1 Hres') as (r' & E' & Hp'); [lia|]. exists r'.
    rewrite (drop_S _ _ _ Em). cbn [firstn receiveLoop]. rewrite E1. cbn [mbind option_bind]. split; [done|].
    cbn [keptFrom]. rewrite Hk. rewrite <- (assoc_L app), Nat.add_succ_comm in Hp'.
    replace (stunOf (x :: res)) with (stunOf res); [done|]. unfold stunOf. rewrite filter_cons_False; [done|].
    apply andb_prop in Hk as [Hk%negb_true_iff _]. by rewrite Hk.
  - destruct (receiveOne_skip _ _ _ _ _ _ Hp Hx Hk) as (m & Em & r1 & E1 & Hp1).
    destruct (IH (S i) _ _ _ _ Hp1 Hres') as (r' & E' & Hp'); [lia|]. exists r'.
    rewrite (drop_S _ _ _ Em). cbn [firstn receiveLoop]. rewrite E1. cbn [mbind option_bind]. split; [done|].
    cbn [keptFrom]. rewrite Hk. rewrite <- (assoc_L app st), Nat.add_succ_comm in Hp'.
    replace ((if callback then stunOf [x] else []) ++ (if callback then stunOf res else []))
      with (if callback then stunOf (x :: res) else []) in Hp'; [done|]. destruct callback; [|done].
    apply (filter_app _ [x] res).
Qed.

End Loop.

(** ** From the answer of the kernel to messages *)

Definition controlCap : nat := stickyControlSize + gsoControlSize.

(** The pool gives reset messages, and the caller a buffer for each. *)
Record listening (K : nat) (msgs : list Message) (arrs : list bytes) (bufs : list Slice) : Prop := {
  ls_msgs : length msgs = IdealBatchSize;
  ls_reset : Forall (fun m => m_N m = 0%nat /\ m_NN m = 0%nat /\ length (o_mem (m_oob m)) = controlCap) msgs;
  ls_bufs : length bufs = length msgs;
  ls_room : Forall (bufOk K arrs) bufs;
  ls_apart : NoDup (s_arr <$> bufs) }.

(** The kernel merges at most 64 datagrams, and only some that are not empty. *)
Record answerOk (K : nat) (rxOffload : bool) (rs : reads) : Prop := {
  an_count : (length rs <= if rxOffload then IdealBatchSize / udpSegmentMaxDatagrams else IdealBatchSize)%nat;
  an_size : Forall (fun x => (length (dg_data x.1) <= K)%nat /\ (length (dg_control x.1) <= controlCap)%nat) rs;
  an_merged : rxOffload = true -> Forall (fun x => dg_data x.1 <> [] /\ 0 <= x.2 <= zlen (dg_data x.1) /\
    getGSOSize (dg_control x.1) = Some (inl x.2) /\ (length (outOf x) <= udpSegmentMaxDatagrams)%nat) rs }.

(** The datagrams that arrived. *)
Definition arrivals (rxOffload : bool) (rs : reads) : list (bytes * udpAddr) :=
  if rxOffload then concat (outOf <$> rs) else (fun x => (dg_data x.1, dg_addr x.1)) <$> rs.

Definition firstRead : nat := IdealBatchSize - IdealBatchSize / udpSegmentMaxDatagrams.

Lemma apart_bufs msgs bufs : m_buf <$> msgs = bufs -> NoDup (s_arr <$> bufs) -> apart msgs.
Proof. intros <-. unfold apart. by rewrite <- list_fmap_compose. Qed.

Lemma room_bufs K arrs msgs bufs : m_buf <$> msgs = bufs -> Forall (bufOk K arrs) bufs ->
  Forall (fun m => bufOk K arrs (m_buf m)) msgs.
Proof. intros <-. by rewrite Forall_fmap. Qed.

Lemma srcOfMsg_nil m : m_NN m = 0%nat -> srcOfMsg m = [].
Proof. intros H. unfold srcOfMsg, getSrcFromControl. by rewrite H, take_0, scan_nil. Qed.

Lemma srcOfMsg_read m d : take (m_NN m) (control (m_oob m)) = dg_control d ->
  srcOfMsg m = default [] (getSrcFromControl (dg_control d)).
Proof. unfold srcOfMsg. by intros ->. Qed.

Lemma srcOfMsg_fixed m m' : fixedPart m' = fixedPart m -> srcOfMsg m' = srcOfMsg m.
Proof. intros [= _ H1 H2]. unfold srcOfMsg. by rewrite H1, H2. Qed.

(** What [ReadBatch] leaves in messages with buffers of their own. *)
Lemma read_into K ds arrs msgs : (length ds <= length msgs)%nat -> apart msgs ->
  Forall (fun m => bufOk K arrs (m_buf m)) msgs ->
  Forall (fun d => (length (dg_data d) <= K)%nat /\ (length (dg_control d) <= controlCap)%nat) ds ->
  Forall (fun m => m_N m = 0%nat /\ m_NN m = 0%nat /\ length (o_mem (m_oob m)) = controlCap /\ o_len (m_oob m) = controlCap) msgs ->
  exists arrs' msgs', ReadBatch ds arrs msgs = Some (arrs', msgs') /\ m_buf <$> msgs' = m_buf <$> msgs /\
    sameShape arrs arrs' /\
    (forall k d, ds !! k = Some d -> exists m, msgs' !! k = Some m /\ holdsAt arrs' m (dg_data d) (dg_addr d) /\
      take (m_NN m) (control (m_oob m)) = dg_control d) /\
    (forall k m, (length ds <= k)%nat -> msgs' !! k = Some m -> m_N m = 0%nat /\ m_NN m = 0%nat) /\
    (forall k m, msgs' !! k = Some m -> srcOfMsg m = match ds !! k with Some d => default [] (getSrcFromControl (dg_control d)) | None => [] end).
Proof.
  intros Hl Hap Hok Hd Hm.
  destruct (ReadBatch_spec K ds arrs msgs Hl Hap Hok) as (arrs' & msgs' & E & Hb & Hs & Hdr & Hh & _).
  { eapply Forall_impl; [exact Hd|]. by intros d []. }
  { intros d m Hin Hin'. rewrite Forall_forall in Hd. rewrite Forall_forall in Hm. destruct (Hd d Hin) as [_ Hc]. destruct (Hm m Hin') as (_ & _ & H1 & H2).
    split; congruence || lia. }
  assert (Hrest : forall k m, (length ds <= k)%nat -> msgs' !! k = Some m -> m_N m = 0%nat /\ m_NN m = 0%nat).
  { intros k m Hk Ek. replace k with (length ds + (k - length ds))%nat in Ek by lia. rewrite <- lookup_drop, Hdr, lookup_drop in Ek.
    destruct (Forall_lookup_1 _ _ _ _ Hm Ek) as (H1 & H2 & _). done. }
  exists arrs', msgs'. split_and!; try done. intros k m Ek. destruct (ds !! k) as [d|] eqn:Ed.
  - destruct (Hh k d Ed) as (m' & Em & _ & Hc). rewrite Ek in Em. injection Em as <-. by apply srcOfMsg_read.
  - apply srcOfMsg_nil. apply (Hrest k); [by apply lookup_ge_None|done].
Qed.

Lemma fitsIn_two rs : (length rs <= 2)%nat -> Forall (fun x => length (outOf x) <= udpSegmentMaxDatagrams)%nat rs ->
  fitsIn 0 firstRead rs /\ (length (concat (outOf <$> rs)) <= IdealBatchSize)%nat.
Proof.
  unfold firstRead, IdealBatchSize, udpSegmentMaxDatagrams. change (128 - 128 / 64)%nat with 126%nat.
  intros Hl Hf. destruct rs as [|x [|y [|]]]; cbn [length] in Hl; try lia; rewrite ?Forall_cons in Hf; cbn [fitsIn fmap list_fmap concat];
    rewrite ?length_app; cbn [length]; destruct_and?; split_and?; lia.
Qed.

(** With offload the last messages are read into, and parted from the front on. *)
Lemma readMerged_spec K rs arrs msgs bufs : length msgs = IdealBatchSize -> m_buf <$> msgs = bufs ->
  Forall (fun m => m_N m = 0%nat /\ m_NN m = 0%nat /\ length (o_mem (m_oob m)) = controlCap /\ o_len (m_oob m) = controlCap) msgs ->
  Forall (bufOk K arrs) bufs -> NoDup (s_arr <$> bufs) -> (length rs <= 2)%nat ->
  Forall (fun d => (length (dg_data d) <= K)%nat /\ (length (dg_control d) <= controlCap)%nat) rs.*1 ->
  Forall (fun x => dg_data x.1 <> [] /\ 0 <= x.2 <= zlen (dg_data x.1) /\
    getGSOSize (dg_control x.1) = Some (inl x.2) /\ (length (outOf x) <= udpSegmentMaxDatagrams)%nat) rs ->
  exists st, readMessages true (inl rs.*1) arrs msgs = Some (st, None) /\ sp_n st = length (concat (outOf <$> rs)) /\
    results (sp_arrs st) (sp_msgs st) (concat (outOf <$> rs)) /\ m_buf <$> sp_msgs st = bufs /\ sameShape arrs (sp_arrs st) /\
    (length (concat (outOf <$> rs)) <= IdealBatchSize)%nat /\
    forall i m, sp_msgs st !! i = Some m -> srcOfMsg m = sourceOf true firstRead i rs.*1.
Proof.
  intros Hn Hb Hm Hok Hap Hc Hz Hmg. unfold readMessages. cbn zeta. rewrite Hn. fold firstRead.
  pose proof (apart_bufs _ _ Hb Hap) as Ham. pose proof (room_bufs _ _ _ _ Hb Hok) as Hroom.
  assert (Hfr : (firstRead + 2 = length msgs)%nat) by (by rewrite Hn).
  set (front := take firstRead msgs). rewrite <- (take_drop firstRead msgs) in Ham, Hroom, Hm. fold front in Ham, Hroom, Hm.
  assert (Hlf : length front = firstRead) by (unfold front; rewrite length_take; lia).
  apply Forall_app in Hroom as [Hroom1 Hroom2]. apply Forall_app in Hm as [Hm1 Hm2].
  destruct (read_into K rs.*1 arrs (drop firstRead msgs)) as (arrs1 & back & E & Hb1 & Hs1 & Hh & Hrest & Hsrc);
    [rewrite length_fmap, length_drop; lia| |done|done|done|].
  { unfold apart in Ham. rewrite fmap_app in Ham. by apply NoDup_app in Ham as (_ & _ & ?). }
  rewrite E. cbn [mbind option_bind]. unfold splitCoalescedMessages.
  assert (Hbuf1 : m_buf <$> front ++ back = bufs).
  { rewrite fmap_app, Hb1, <- fmap_app. unfold front. by rewrite take_drop. }
  assert (Hback : forall k, (front ++ back) !! (firstRead + k)%nat = back !! k).
  { intros k. rewrite lookup_app_r by lia. f_equal. lia. }
  assert (Hlen : length (front ++ back) = length msgs).
  { apply (f_equal length) in Hbuf1. rewrite length_fmap in Hbuf1. rewrite Hbuf1, <- Hb. by rewrite length_fmap. }
  destruct (fitsIn_two rs Hc) as [Hfit Htot]; [eapply Forall_impl; [exact Hmg|]; by intros x (_ & _ & _ & ?)|].
  destruct (splitMessages_spec getGSOSize K rs firstRead (mkSplit 0 arrs1 (front ++ back)) [] (length (front ++ back) - firstRead)%nat)
    as (st & -> & Hn' & Hr' & Hf' & Hs'); cbn [sp_n sp_arrs sp_msgs app length] in *; try done.
  - intros k x Ek. rewrite Hback. destruct (Hh k x.1) as (m & Em & Hm' & Hk); [by rewrite list_lookup_fmap, Ek|].
    exists m. split; [done|]. split; [done|]. rewrite Hk. by destruct (Forall_lookup_1 _ _ _ _ Hmg Ek) as (_ & _ & ? & _).
  - apply Forall_lookup. intros k x Ek. destruct (Forall_lookup_1 _ _ _ _ Hmg Ek) as (H1 & H2 & _).
    apply (Forall_fmap _ _ rs) in Hz. by destruct (Forall_lookup_1 _ _ _ _ Hz Ek) as [? _].
  - by eapply apart_bufs.
  - eapply room_bufs; [exact Hbuf1|]. eapply Forall_impl; [exact Hok|]. intros b. by apply bufOk_shape.
  - lia.
  - intros m Em. rewrite Hback in Em. eapply Hrest; [|exact Em]. by rewrite length_fmap.
  - exists st. split_and!; try done; [|by eapply sameShape_trans|].
    + assert (Hfst : forall l : list Message, m_buf <$> l = (fun x : Slice * oob * nat => x.1.1) <$> (fixedPart <$> l)) by (intros l; by rewrite <- list_fmap_compose).
      by rewrite Hfst, Hf', <- Hfst.
    + intros i m Em. destruct (fixed_lookup _ _ _ _ (eq_sym Hf') Em) as (m0 & Em0 & Hfm). cbn [sp_msgs] in Em0.
      rewrite <- (srcOfMsg_fixed _ _ Hfm). unfold sourceOf. destruct (Nat.ltb_spec i firstRead) as [Hi|Hi].
      * rewrite lookup_app_l in Em0 by lia. apply srcOfMsg_nil. by destruct (Forall_lookup_1 _ _ _ _ Hm1 Em0) as (_ & ? & _).
      * apply Hsrc. rewrite <- Hback. by replace (firstRead + (i - firstRead))%nat with i by lia.
Qed.

Lemma readMessages_spec K rxOffload rs arrs msgs bufs : length msgs = IdealBatchSize -> m_buf <$> msgs = bufs ->
  Forall (fun m => m_N m = 0%nat /\ m_NN m = 0%nat /\ length (o_mem (m_oob m)) = controlCap /\ o_len (m_oob m) = controlCap) msgs ->
  Forall (bufOk K arrs) bufs -> NoDup (s_arr <$> bufs) -> answerOk K rxOffload rs ->
  exists st, readMessages rxOffload (inl rs.*1) arrs msgs = Some (st, None) /\ sp_n st = length (arrivals rxOffload rs) /\
    results (sp_arrs st) (sp_msgs st) (arrivals rxOffload rs) /\ m_buf <$> sp_msgs st = bufs /\ sameShape arrs (sp_arrs st) /\
    (length (arrivals rxOffload rs) <= IdealBatchSize)%nat /\
    forall i m, sp_msgs st !! i = Some m -> srcOfMsg m = sourceOf rxOffload firstRead i rs.*1.
Proof.
  intros Hn Hb Hm Hok Hap [Hc Hz Hmg].
  assert (Hz' : Forall (fun d => (length (dg_data d) <= K)%nat /\ (length (dg_control d) <= controlCap)%nat) rs.*1) by (by apply Forall_fmap).
  destruct rxOffload.
  - apply (readMerged_spec K); auto.
  - unfold readMessages, arrivals, sourceOf.
    destruct (read_into K rs.*1 arrs msgs) as (arrs' & msgs' & E & Hb' & Hs & Hh & _ & Hsrc);
      [by rewrite length_fmap, Hn|by eapply apart_bufs|by eapply room_bufs|done|done|].
    rewrite E. cbn [mbind option_bind]. eexists. split; [done|]. cbn [sp_n sp_arrs sp_msgs].
    assert (Hn' : length msgs' = IdealBatchSize) by (apply (f_equal length) in Hb'; rewrite !length_fmap in Hb'; by rewrite Hb').
    rewrite !length_fmap, Hn', Nat.min_l by done. split_and!; [done| |by rewrite Hb'|done|done|done].
    intros j c a Ej. rewrite list_lookup_fmap in Ej. destruct (rs !! j) as [x|] eqn:Ex; [|done]. injection Ej as <- <-.
    destruct (Hh j x.1) as (m & Em & Hm' & _); [by rewrite list_lookup_fmap, Ex|]. eauto.
Qed.

Lemma arrivals_small K rxOffload rs : answerOk K rxOffload rs -> Forall (fun x => length x.1 <= K)%nat (arrivals rxOffload rs).
Proof.
  intros [_ Hz Hmg]. unfold arrivals. destruct rxOffload.
  - specialize (Hmg eq_refl). apply Forall_concat, Forall_fmap, Forall_lookup. intros k x Ek.
    destruct (Forall_lookup_1 _ _ _ _ Hmg Ek) as (H1 & H2 & _). destruct (Forall_lookup_1 _ _ _ _ Hz Ek) as [H3 _].
    destruct (parts_chain _ _ H1 H2) as (_ & _ & Hp). cbn. unfold outOf. apply Forall_fmap. eapply Forall_impl; [exact Hp|].
    cbn. lia.
  - apply Forall_fmap. eapply Forall_impl; [exact Hz|]. by intros x [].
Qed.

Lemma keptFrom_lookup res : forall i0 k i x, keptFrom i0 res !! k = Some (i, x) -> exists j, i = (i0 + j)%nat /\ res !! j = Some x.
Proof.
  induction res as [|y res IH]; intros i0 k i x; [done|]. cbn [keptFrom].
  assert (Hrec : forall k', keptFrom (S i0) res !! k' = Some (i, x) -> exists j, i = (i0 + j)%nat /\ (y :: res) !! j = Some x).
  { intros k' (j & -> & E)%IH. exists (S j). split; [lia|done]. }
  destruct (isPacket y.1); [|apply Hrec]. destruct k as [|k]; [|apply Hrec]. intros [= <- <-]. exists 0%nat. split; [lia|done].
Qed.

(** ** The theorem *)

(** C12: what the kernel reads is parted into the datagrams it merged, in order.
    Datagrams of STUN go to the callback, empty ones nowhere, and the caller is
    told of the others, in order: their number, and for each its size, its
    sender with the source that is known, and a slice that holds it.  That slice
    is the one that the caller passed for the position at which the datagram
    arrived; so only when nothing is left out are the caller's slices as they
    were. *)
Theorem receiveIP_delivers K callback rxOffload rs arrs msgs bufs sizes eps :
  listening K msgs arrs bufs -> answerOk K rxOffload rs ->
  (IdealBatchSize <= length sizes)%nat -> (IdealBatchSize <= length eps)%nat ->
  let res := arrivals rxOffload rs in
  exists r back, receiveIP callback rxOffload (inl rs.*1) arrs msgs bufs sizes eps = Some (r, None, back) /\
    rv_writeIdx r = length (keptFrom 0 res) /\
    (forall k i c a, keptFrom 0 res !! k = Some (i, (c, a)) ->
      exists b, rv_bufs r !! k = Some b /\ bufs !! i = Some b /\ bytesOf (rv_arrs r) b 0 (length c) = Some c /\
        rv_sizes r !! k = Some (length c) /\
        rv_eps r !! k = Some (Some (endpointOf a (sourceOf rxOffload firstRead i rs.*1)))) /\
    rv_stun r = (if callback then stunOf res else []) /\
    (length (keptFrom 0 res) = length res -> rv_bufs r = bufs).
Proof.
  intros [Hn Hm Hlb Hok Hap] Hans Hsz Hep res.
  destruct (takeBuffers_spec controlCap bufs msgs Hlb Hm) as (msgs1 & E1 & Hb1 & Hm1).
  assert (Hn1 : length msgs1 = IdealBatchSize) by (apply (f_equal length) in Hb1; rewrite length_fmap in Hb1; by rewrite Hb1, Hlb).
  destruct (readMessages_spec K rxOffload rs arrs msgs1 bufs Hn1 Hb1 Hm1 Hok Hap Hans)
    as (st & E2 & Hst & Hres & Hbst & Hsh & Htot & Hsrc). fold res in Hst, Hres, Htot.
  assert (Harr : forall k x, res !! k = Some x -> arrived (sp_arrs st) bufs (sp_msgs st) (0 + k) x).
  { intros k [c a] Ek. destruct (Hres _ _ _ Ek) as (m & Em & Hh). assert (Hbk : bufs !! k = Some (m_buf m)) by (by rewrite <- Hbst, list_lookup_fmap, Em).
    exists m. split_and!; [done..|]. cbn [fst].
    destruct (Forall_lookup_1 _ _ _ _ Hok Hbk) as (? & _ & ?).
    pose proof (Forall_lookup_1 _ _ _ _ (arrivals_small _ _ _ Hans) Ek). cbn [fst] in *. lia. }
  destruct (receiveLoop_spec callback (sp_arrs st) bufs (sp_msgs st) res 0 [] [] IdealBatchSize
    (mkReceived (sp_arrs st) bufs sizes eps 0 [])) as (r & E3 & [Pa Pi Pl Pk Pt Pb Ps Pe Pst Pf]); [|done|lia|].
  { by split. }
  unfold receiveIP. rewrite E1. cbn [mbind option_bind]. rewrite E2. cbn [mbind option_bind]. rewrite Hst.
  rewrite drop_0 in E3. rewrite E3. cbn [mbind option_bind]. do 2 eexists. split; [done|]. cbn [app] in *.
  split_and!; [done| |done|by rewrite Nat.add_0_l in Pf].
  intros k i c a Ek. destruct (Pk _ _ Ek) as (H1 & H2 & m & H3 & H4). cbn [fst snd] in *.
  destruct (keptFrom_lookup _ _ _ _ _ Ek) as (j & -> & Ej). destruct (Harr _ _ Ej) as (m' & Em & (_ & Hh & _) & Hbk & _).
  rewrite H3 in Em. injection Em as <-. cbn [fst] in *. exists (m_buf m). rewrite H1, Pa, <- (Hsrc _ _ H3). done.
Qed.

End BindDeliver.

(** ** Witnesses *)

Definition sample_pool : list Message := replicate 128 (mkMessage (mkSlice 0 0) (mkOob (replicate 64 0) 0) None 0 0).
Definition sample_store : list bytes := replicate 128 (replicate 64 0).
Definition sample_slices : list Slice := (fun i => mkSlice i 64) <$> seq 0 128.
Definition sample_from : udpAddr := ([192; 0; 2; 7], 3478).

Definition sample_stun : bytes := [1; 1; 0; 0; 0x21; 0x12; 0xA4; 0x42] ++ replicate 12 9.
Definition sample_packet : bytes := [4; 0; 0; 0] ++ seqZ 1 16.
Definition sample_tail : bytes := [4; 0; 0; 0; 77].

(** Three datagrams that the kernel has merged. *)
Definition sample_merged : reads :=
  [(mkDatagram (sample_stun ++ sample_packet ++ sample_tail)
      (@cmsgBytes linuxSys (mkCmsghdr 18 SOL_UDP UDP_GRO) ++ [20; 0] ++ replicate 6 0) sample_from, 20)].

Lemma sample_listening : @listening linuxSys 64 sample_pool sample_store sample_slices.
Proof.
  split; [done|apply Forall_replicate; done|done| |].
  - apply Forall_fmap, Forall_lookup. intros i x [-> Hi]%lookup_seq. exists (replicate 64 0). cbn [s_arr s_len compose].
    unfold sample_store. rewrite lookup_replicate_2 by lia. split; [done|]. rewrite length_replicate. lia.
  - apply (bool_decide_unpack _). vm_compute. exact I.
Qed.

Lemma sample_answer : @answerOk linuxSys 64 true sample_merged.
Proof.
  split; [apply (bool_decide_unpack _); vm_compute; exact I| |intros _]; apply Forall_singleton.
  - split; apply (bool_decide_unpack _); vm_compute; exact I.
  - split; [done|]. split; [vm_compute; split; discriminate|]. split; [by vm_compute|]. apply (bool_decide_unpack _). vm_compute. exact I.
Qed.

Lemma receiveIP_delivers_witness :
  @listening linuxSys 64 sample_pool sample_store sample_slices /\ @answerOk linuxSys 64 true sample_merged /\
  keptFrom 0 (arrivals true sample_merged) = [(1%nat, (sample_packet, sample_from)); (2%nat, (sample_tail, sample_from))] /\
  exists r back, @receiveIP linuxSys true true (inl sample_merged.*1) sample_store sample_pool sample_slices
    (replicate 128 0%nat) (replicate 128 None) = Some (r, None, back) /\ rv_writeIdx r = 2%nat /\
    rv_stun r = [(sample_stun, sample_from)] /\
    exists b, rv_bufs r !! 0%nat = Some b /\ bytesOf (rv_arrs r) b 0 20 = Some sample_packet.
Proof.
  pose proof sample_listening as H1. pose proof sample_answer as H2.
  assert (Hk : keptFrom 0 (arrivals true sample_merged) = [(1%nat, (sample_packet, sample_from)); (2%nat, (sample_tail, sample_from))]) by (by vm_compute).
  do 3 (split; [done|]).
  destruct (receiveIP_delivers 64 true true sample_merged sample_store sample_pool sample_slices (replicate 128 0%nat) (replicate 128 None) H1 H2)
    as (r & back & E & Hn & Hp & Hs & _); [by rewrite length_replicate..|].
  exists r, back. split; [exact E|]. rewrite Hk in Hn, Hp. split; [exact Hn|]. split; [rewrite Hs; by vm_compute|].
  destruct (Hp 0%nat 1%nat sample_packet sample_from eq_refl) as (b & Hb & _ & Hd & _). exists b. split; [exact Hb|exact Hd].
Defined.

(** After a datagram of STUN, the slice that holds a packet has moved, but its
    array has not: a caller that reads the first array, as
    [RoutineReceiveIncoming] does, finds the STUN datagram there, cut to the
    size of the packet. *)
Example stun_shifts_packets :
  match @receiveIP linuxSys true false (inl [mkDatagram sample_stun [] sample_from; mkDatagram sample_packet [] sample_from])
    sample_store sample_pool sample_slices (replicate 128 0%nat) (replicate 128 None) with
  | Some (r, None, _) =>
      rv_writeIdx r = 1%nat /\ rv_sizes r !! 0%nat = Some 20%nat /\
      bytesOf (rv_arrs r) (mkSlice 0 64) 0 20 = Some sample_stun /\ rv_bufs r !! 0%nat = Some (mkSlice 1 64)
  | _ => False
  end.
Proof. by vm_compute. Qed.

(** A datagram without data makes the kernel's next one disappear. *)
Example empty_hides_packet :
  match @receiveIP linuxSys true true (inl [mkDatagram [] [] sample_from; mkDatagram sample_packet [] sample_from])
    sample_store sample_pool sample_slices (replicate 128 0%nat) (replicate 128 None) with
  | Some (r, None, _) => rv_writeIdx r = 0%nat
  | _ => False
  end.
Proof. by vm_compute. Qed.

(** A handshake initiation whose sender index is the magic cookie. *)
Example initiation_taken_for_stun : isStun ([1; 0; 0; 0; 0x21; 0x12; 0xA4; 0x42] ++ replicate 140 0) = true.
Proof. reflexivity. Qed.
