(* ===== verification/BindOpen.v ===== *)
(** The life of the UDP bind: opening it on one port for both families, trying
    again when the second is taken, and closing it. *)
From S2P Require Import Prelude Messages NoiseHelpers Netip Sockets BindStd.

(** A kernel that gives the port it is asked for, or one of its own for port 0. *)
Definition honest (listen : bool -> nat -> Z -> listened) : Prop :=
  forall v6 t p q, listen v6 t p = inl q -> 0 < q < 65536 /\ (p <> 0 -> q = p).

(** At attempt [t], the port that IPv4 got is taken for IPv6. *)
Definition taken (listen : bool -> nat -> Z -> listened) (uport : Z) (t : nat) : Prop :=
  exists p, listen false t uport = inl p /\ listen true t p = inr EADDRINUSE.

(** One attempt that fails, and the others. *)
Lemma openSockets_taken listen more t : taken listen 0 t ->
  openSockets listen 0 (S more) t = openSockets listen 0 more (S t).
Proof.
  intros (p & H4 & H6). cbn [openSockets]. unfold socketOf at 1. rewrite H4, H6. by rewrite bool_decide_eq_true_2.
Qed.

Lemma openSockets_retries listen k : forall more t, (forall i, (i < k)%nat -> taken listen 0 (t + i)) ->
  openSockets listen 0 (k + more) t = openSockets listen 0 more (t + k).
Proof.
  induction k as [|k IH]; intros more t Hk; [by rewrite Nat.add_0_r|].
  cbn [Nat.add]. rewrite openSockets_taken by (specialize (Hk 0%nat ltac:(lia)); by rewrite Nat.add_0_r in Hk).
  rewrite IH; [by rewrite Nat.add_succ_comm|]. intros i Hi. rewrite Nat.add_succ_comm. apply Hk. lia.
Qed.

(** An attempt at which both families get a socket. *)
Lemma openSockets_both listen uport more t p q : listen false t uport = inl p -> listen true t p = inl q ->
  openSockets listen uport more t = inl (Some p, Some q, q).
Proof.
  intros H4 H6. destruct more; cbn [openSockets]; unfold socketOf; rewrite H4, H6; [done|].
  by rewrite bool_decide_eq_false_2, andb_false_r.
Qed.

(** C25: a closed bind opens both families on one port, the one it is asked for
    or, for port 0, one that the kernel has chosen; there it tries again while that
    port is taken for IPv6, a hundred times, and gives up with the error after that,
    still closed.  Open, it refuses to be opened; closed, it is as new. *)
Theorem Open_opens listen offload uport s err4 err6 : honest listen -> ipv4 s = None -> ipv6 s = None ->
  (uport = 0 -> (forall i, (i <= 100)%nat -> taken listen uport i) -> Open listen offload uport s = (s, inr EADDRINUSE))
  /\ forall k p q, (k <= 100)%nat -> (k <> 0%nat -> uport = 0) -> (forall i, (i < k)%nat -> taken listen uport i) ->
     listen false k uport = inl p -> listen true k p = inl q -> exists s',
     Open listen offload uport s = (s', inl ([(false, (offload false).2); (true, (offload true).2)], p))
     /\ ipv4 s' = Some p /\ ipv6 s' = Some p /\ 0 < p < 65536 /\ (uport <> 0 -> p = uport)
     /\ Open listen offload uport s' = (s', inr ErrBindAlreadyOpen) /\ (Close err4 err6 s').1 = NewStdNetBind.
Proof.
  intros Hk4 Hs4 Hs6. split.
  - intros -> Ht. unfold Open. rewrite Hs4, Hs6. pose proof (openSockets_retries listen 100 0 0) as Hr. rewrite Nat.add_0_r in Hr.
    rewrite Hr by (intros; apply Ht; lia). destruct (Ht 100%nat) as (p & H4 & H6); [lia|].
    cbn [openSockets Nat.add]. unfold socketOf. by rewrite H4, H6.
  - intros k p q Hk Hp0 Ht H4 H6. destruct (Hk4 _ _ _ _ H4) as [Hp Hasked]. destruct (Hk4 _ _ _ _ H6) as [_ Hq].
    rewrite (Hq ltac:(lia)) in H6. clear Hq q. unfold Open. rewrite Hs4, Hs6.
    assert (openSockets listen uport 100 0 = inl (Some p, Some p, p)) as ->.
    { destruct (decide (k = 0%nat)) as [->|Hne]; [by apply openSockets_both|]. rewrite (Hp0 Hne) in *.
      replace 100%nat with (k + (100 - k))%nat by lia. rewrite openSockets_retries by done. by apply openSockets_both. }
    destruct (offload false) as [tx4 rx4], (offload true) as [tx6 rx6]. cbn. rewrite u16_small by lia.
    eexists. split; [reflexivity|]. cbn. split_and!; try done; lia || auto.
Qed.

(** The first two ports that IPv4 gets are taken for IPv6. *)
Definition busyListen (v6 : bool) (t : nat) (p : Z) : listened :=
  if p =? 0 then inl (7000 + Z.of_nat t mod 1000) else if v6 && (t <? 2)%nat then inr EADDRINUSE
  else if (0 <? p) && (p <? 65536) then inl p else inr EIO.

Lemma busyListen_honest : honest busyListen.
Proof.
  intros v6 t p q H. unfold busyListen in H. pose proof (Z.mod_pos_bound (Z.of_nat t) 1000 ltac:(lia)).
  destruct (Z.eqb_spec p 0); [injection H as <-; split; lia|]. destruct (v6 && _); [done|].
  destruct ((0 <? p) && (p <? 65536)) eqn:E; [|done]. injection H as <-. split; lia.
Qed.

Lemma Open_opens_witness : exists s',
  Open busyListen (fun v6 => (true, v6)) 0 NewStdNetBind = (s', inl ([(false, false); (true, true)], 7002))
  /\ ipv4 s' = Some 7002 /\ ipv6 s' = Some 7002 /\ 0 < 7002 < 65536 /\ (0 <> 0 -> 7002 = 0)
  /\ Open busyListen (fun v6 => (true, v6)) 0 s' = (s', inr ErrBindAlreadyOpen) /\ (Close None None s').1 = NewStdNetBind.
Proof.
  apply (proj2 (Open_opens busyListen (fun v6 => (true, v6)) 0 NewStdNetBind None None busyListen_honest eq_refl eq_refl) 2%nat 7002 7002).
  - lia.
  - done.
  - intros [|[|i]] Hi; [by exists 7000|by exists 7001|lia].
  - done.
  - done.
Defined.

(** Without IPv6 the port that is reported is 0, not the one that is open. *)
Example port_lost : exists s', Open (fun v6 _ p => if v6 then inr EAFNOSUPPORT else inl p) (fun _ => (false, false)) 51820 NewStdNetBind
  = (s', inl ([(false, false)], 0)) /\ ipv4 s' = Some 51820.
Proof. eexists. by split. Qed.
