(* ===== verification/RouteListener.v ===== *)
(** The listener for changes of routes ([device/sticky_linux.go]): at a
    notification of the kernel it asks, peer by peer, by which interface the peer
    is reached, and forgets the cached source of those whose interface is no
    longer that of the source ([conn/sticky_linux.go] reads the source). *)
From S2P Require Import Prelude Checksum Sockets Replay Tai64n Ratelimiter Messages NoiseHelpers ToyCrypto Text Netip Cookie AllowedIPs.
From S2P Require Import TrieBits Trie Routing RoutingSpec State IndexTable Timers Handshake Session Send Receive Device.

(** ** Structs and numbers of rtnetlink *)

Definition SizeofNlMsghdr : nat := 16.
Definition SizeofRtMsg : nat := 12.
Definition SizeofRtAttr : nat := 4.
Definition RTM_NEWROUTE : Z := 24.
Definition RTM_DELROUTE : Z := 25.
Definition RTM_GETROUTE : Z := 26.
Definition RTA_DST : Z := 1.
Definition RTA_SRC : Z := 2.
Definition RTA_OIF : Z := 4.
Definition RTA_MARK : Z := 16.
Definition NLM_F_REQUEST : Z := 1.

Record NlMsghdr := mkNl { nl_Len : Z; nl_Type : Z; nl_Flags : Z; nl_Seq : Z; nl_Pid : Z }.

Section RouteListener.
Context `{OS : Sys}.

Definition u_dec : bytes -> Z := native_dec native.
Definition u_enc : nat -> Z -> bytes := native_enc native.

Definition nlBytes (h : NlMsghdr) : bytes :=
  u_enc 4 (nl_Len h) ++ u_enc 2 (nl_Type h) ++ u_enc 2 (nl_Flags h) ++ u_enc 4 (nl_Seq h) ++ u_enc 4 (nl_Pid h).
Definition nlRead (b : bytes) : NlMsghdr :=
  mkNl (u_dec (take 4 b)) (u_dec (slice 4 6 b)) (u_dec (slice 6 8 b)) (u_dec (slice 8 12 b)) (u_dec (slice 12 16 b)).

(** ** The cached source of an endpoint *)

(** [Inet4Pktinfo] is the index, the source and the address; [Inet6Pktinfo] the
    address and the index. *)
Definition pktinfo (off n : nat) (src : bytes) : bytes := slice (CmsgLen 0 + off) (CmsgLen 0 + off + n) src.
Definition SrcIP (e : Endpoint) : Addr :=
  if (length (ep_src e) =? CmsgSpace SizeofInet4Pktinfo)%nat then mkAddr (pktinfo 4 4 (ep_src e)) []
  else if (length (ep_src e) =? CmsgSpace SizeofInet6Pktinfo)%nat then mkAddr (pktinfo 0 16 (ep_src e)) []
  else mkAddr [] [].
Definition SrcIfidx (e : Endpoint) : Z :=
  if (length (ep_src e) =? CmsgSpace SizeofInet4Pktinfo)%nat then s32 (u_dec (pktinfo 0 4 (ep_src e)))
  else if (length (ep_src e) =? CmsgSpace SizeofInet6Pktinfo)%nat then s32 (u_dec (pktinfo 16 4 (ep_src e)))
  else 0.

(** [As4] of IPv4 and of IPv4 in IPv6; [None] is its panic. *)
Definition As4 (ip : bytes) : option bytes :=
  if (length ip =? 4)%nat then Some ip
  else if (length ip =? 16)%nat && bytes_eqb (take 12 ip) (replicate 10 0 ++ [255; 255]) then Some (drop 12 ip) else None.

(** ** Messages of the kernel *)

(** The peers that have been asked for, by the sequence number of the request. *)
Abbreviation requests := (gmap Z peer_id).

(** The attributes of an answer.  The comparison of [&peer.endpoint.val] with the
    pointer taken when the peer was asked for is one of a pointer with itself. *)
Fixpoint attrLoop (fuel : nat) (reqPeer : option requests) (seq : Z) (attr : bytes) : M unit :=
  match fuel with
  | O => panic
  | S fuel =>
      if (length attr <? SizeofRtAttr)%nat then ret tt
      else
        let len := u_dec (take 2 attr) in
        let type := u_dec (slice 2 4 attr) in
        if (len <? Z.of_nat SizeofRtAttr) || (zlen attr <? len) then ret tt
        else
          let next := attrLoop fuel reqPeer seq (drop (Z.to_nat len) attr) in
          if (type =? RTA_OIF) && (len =? Z.of_nat SizeofRtAttr + 4) then
            let ifidx := u_dec (slice 4 8 attr) in
            match (m ← reqPeer; m !! seq) with
            | None => ret tt
            | Some p =>
                let* x := getPeer p in
                match ep_val (endpoint x) with
                | None => panic
                | Some e =>
                    if u32 (SrcIfidx e) =? ifidx then ret tt
                    else modEndpoint p (fun ep => ep <| clearSrcOnTx := true |>);;; next
                end
            end
          else next
  end.

(** The messages of a datagram: the requests that are on their way, and how many
    times the peers are to be asked for; [None] if the loop does not end. *)
Fixpoint msgLoop (fuel : nat) (reqPeer : option requests) (asks : nat) (remain : bytes) : M (option (option requests * nat)) :=
  match fuel with
  | O => ret None
  | S fuel =>
      if (length remain <? SizeofNlMsghdr)%nat then ret (Some (reqPeer, asks))
      else
        let hdr := nlRead remain in
        if zlen remain <? nl_Len hdr then ret (Some (reqPeer, asks))
        else
          let rest := drop (Z.to_nat (nl_Len hdr)) remain in
          if (nl_Type hdr =? RTM_NEWROUTE) || (nl_Type hdr =? RTM_DELROUTE) then
            if (nl_Seq hdr <=? MaxPeers) && (0 <? nl_Seq hdr) then
              when (Z.of_nat (SizeofNlMsghdr + SizeofRtMsg) <? nl_Len hdr)
                (let attr := drop (SizeofNlMsghdr + SizeofRtMsg) remain in attrLoop (S (length attr)) reqPeer (nl_Seq hdr) attr);;;
              msgLoop fuel reqPeer asks rest
            else msgLoop fuel (Some ∅) (S asks) rest
          else msgLoop fuel reqPeer asks rest
  end.
Definition routeMessages (reqPeer : option requests) (msg : bytes) : M (option (option requests * nat)) :=
  msgLoop (S (length msg)) reqPeer 0 msg.

(** ** Requests *)

Definition rtAttr (type : Z) (data : bytes) : bytes := u_enc 2 (Z.of_nat SizeofRtAttr + zlen data) ++ u_enc 2 type ++ data.
Definition routeRequest (i : Z) (dst src : bytes) (mark : Z) : bytes :=
  let body := [2; 32; 32; 0; 0; 0; 0; 0] ++ u_enc 4 0 ++ rtAttr RTA_DST dst ++ rtAttr RTA_SRC src ++ rtAttr RTA_MARK (u_enc 4 mark) in
  nlBytes (mkNl (Z.of_nat SizeofNlMsghdr + zlen body) RTM_GETROUTE NLM_F_REQUEST i 0) ++ body.

(** The goroutine that asks, over the peers from number [i] on: [accepts] tells
    whether the socket takes a request. *)
Fixpoint askLoop (accepts : Z -> bool) (peers : list (bytes * peer_id)) (i : Z) (reqPeer : requests) : M (requests * list bytes) :=
  match peers with
  | [] => ret (reqPeer, [])
  | (_, p) :: peers =>
      let* x := getPeer p in
      match ep_val (endpoint x) with
      | None => askLoop accepts peers i reqPeer
      | Some e =>
          if (16 <=? length (DstIP e))%nat || (SrcIfidx e =? 0) then ret (reqPeer, [])
          else
            match As4 (DstIP e), As4 (a_bytes (SrcIP e)) with
            | Some dst, Some src =>
                let* d := getD in
                let reqPeer := <[i := p]> reqPeer in
                if accepts i then
                  let* '(reqPeer, out) := askLoop accepts peers (u32 (i + 1)) reqPeer in
                  ret (reqPeer, routeRequest i dst src (d_fwmark d) :: out)
                else ret (reqPeer, [])
            | _, _ => panic
            end
      end
  end.
Definition askPeers (accepts : Z -> bool) (reqPeer : requests) : M (requests * list bytes) :=
  let* peers := rangePeers in askLoop accepts peers 1 reqPeer.


(** ** Lemmas: what is encoded is read back *)

Lemma u_dec_enc n x : 0 <= x < 256 ^ Z.of_nat n -> u_dec (u_enc n x) = x.
Proof. apply native_dec_enc. Qed.
Lemma length_u_enc n x : length (u_enc n x) = n.
Proof. apply length_native_enc. Qed.

Definition attrsText (l : list (Z * bytes)) : bytes := concat ((fun '(t, d) => rtAttr t d) <$> l).
Definition attrOk (a : Z * bytes) : Prop := 0 <= a.1 < 65536 /\ zlen a.2 < 65532.

Lemma length_rtAttr t d : length (rtAttr t d) = (4 + length d)%nat.
Proof. unfold rtAttr. rewrite !length_app, !length_u_enc. lia. Qed.

Lemma attrLoop_step fuel rp seq t d rest w : attrOk (t, d) ->
  attrLoop (S fuel) rp seq (rtAttr t d ++ rest) w =
    if (t =? RTA_OIF) && (length d =? 4)%nat then
      match (m ← rp; m !! seq) with
      | None => Some (tt, w)
      | Some p =>
          (let* x := getPeer p in
           match ep_val (endpoint x) with
           | None => panic
           | Some e => if u32 (SrcIfidx e) =? u_dec d then ret tt
                       else modEndpoint p (fun ep => ep <| clearSrcOnTx := true |>);;; attrLoop fuel rp seq rest
           end) w
      end
    else attrLoop fuel rp seq rest w.
Proof.
  intros [Ht Hd]. cbn [fst snd] in *. cbn [attrLoop]. pose proof (length_rtAttr t d) as Hl.
  assert (u_dec (take 2 (rtAttr t d ++ rest)) = 4 + zlen d) as E1.
  { unfold rtAttr. rewrite <-app_assoc, take_app_le, take_ge by (rewrite length_u_enc; lia). apply u_dec_enc. unfold SizeofRtAttr. lia. }
  assert (u_dec (slice 2 4 (rtAttr t d ++ rest)) = t) as E2.
  { unfold rtAttr. rewrite <-!app_assoc. rewrite slice_app_mid by (rewrite ?length_u_enc; lia). apply u_dec_enc. lia. }
  assert (drop (Z.to_nat (4 + zlen d)) (rtAttr t d ++ rest) = rest) as E3 by (rewrite drop_app_length' by lia; done).
  rewrite E1, E2, E3. unfold SizeofRtAttr. destruct (Nat.ltb_spec (length (rtAttr t d ++ rest)) 4) as [H|_]; [rewrite length_app in H; lia|].
  destruct (Z.ltb_spec (4 + zlen d) (Z.of_nat 4)); [lia|]. destruct (Z.ltb_spec (zlen (rtAttr t d ++ rest)) (4 + zlen d)) as [H0|_]; [rewrite length_app in H0; lia|].
  cbn [orb]. replace (4 + zlen d =? Z.of_nat 4 + 4) with (length d =? 4)%nat.
  2:{ destruct (Nat.eqb_spec (length d) 4), (Z.eqb_spec (4 + zlen d) (Z.of_nat 4 + 4)); lia. }
  destruct ((t =? RTA_OIF) && (length d =? 4)%nat) eqn:E; [|done]. apply andb_true_iff in E as [_ H4%Nat.eqb_eq].
  assert (slice 4 8 (rtAttr t d ++ rest) = d) as ->; [|by destruct (rp ≫= _)].
  unfold rtAttr. rewrite <-!app_assoc, app_assoc. apply slice_app_mid; rewrite ?length_app, ?length_u_enc; lia.
Qed.

(** The source of a peer is to be cleared at its next transmission. *)
Definition raise (x : Peer) : Peer := x <| endpoint ::= fun ep => ep <| clearSrcOnTx := true |> |>.
Definition flagged (p : peer_id) (w : World) : World := w <| dev ::= fun d => d <| d_peers ::= alter raise p |> |>.

Lemma modEndpoint_flagged p x w : d_peers (dev w) !! p = Some x ->
  modEndpoint p (fun ep => ep <| clearSrcOnTx := true |>) w = Some (tt, flagged p w).
Proof.
  intros E. assert (<[p := raise x]> (d_peers (dev w)) = alter raise p (d_peers (dev w))) as Hm.
  { apply map_eq. intros q. destruct (decide (q = p)) as [->|Hne]; [by rewrite lookup_insert_eq, lookup_alter_eq, E|by rewrite lookup_insert_ne, lookup_alter_ne]. }
  unfold modEndpoint, modPeer. rewrite E. unfold flagged. cbn. by rewrite <-Hm.
Qed.

Lemma flagged_lookup p w x q : d_peers (dev w) !! q = Some x ->
  d_peers (dev (flagged p w)) !! q = Some (if decide (q = p) then raise x else x).
Proof. intros E. cbn. destruct (decide (q = p)) as [->|Hne]; [by rewrite lookup_alter_eq, E|by rewrite lookup_alter_ne]. Qed.

Lemma flagged_twice p w : flagged p (flagged p w) = flagged p w.
Proof.
  assert (alter raise p (alter raise p (d_peers (dev w))) = alter raise p (d_peers (dev w))) as Hm.
  { apply map_eq. intros q. destruct (decide (q = p)) as [->|Hne]; [|by rewrite !lookup_alter_ne]. rewrite !lookup_alter_eq. by destruct (d_peers (dev w) !! p). }
  unfold flagged. cbn. by rewrite Hm.
Qed.

(** The interface that an answer names first. *)
Fixpoint outgoing (l : list (Z * bytes)) : option Z :=
  match l with
  | [] => None
  | (t, d) :: l => if (t =? RTA_OIF) && (length d =? 4)%nat then Some (u_dec d) else outgoing l
  end.

(** What an answer that names [o] does to the peer it is about. *)
Definition answered (m : option requests) (seq : Z) (o : option Z) (w : World) : World :=
  match o, (m ← m; m !! seq) with
  | Some ifidx, Some p =>
      match d_peers (dev w) !! p with
      | Some x => match ep_val (endpoint x) with
                  | Some e => if u32 (SrcIfidx e) =? ifidx then w else flagged p w
                  | None => w
                  end
      | None => w
      end
  | _, _ => w
  end.

(** The peers that have been asked for are there, with an endpoint. *)
Definition requestsOk (m : option requests) (w : World) : Prop :=
  forall m' seq p, m = Some m' -> m' !! seq = Some p -> exists x e, d_peers (dev w) !! p = Some x /\ ep_val (endpoint x) = Some e.

Lemma requestsOk_flagged m p w : requestsOk m w -> requestsOk m (flagged p w).
Proof.
  intros H m' seq q E Eq. destruct (H m' seq q E Eq) as (x & e & Ex & Ee). rewrite (flagged_lookup p w x q Ex).
  destruct (decide (q = p)); eexists _, e; by split.
Qed.

Lemma requestsOk_answered m m' seq o w : requestsOk m w -> requestsOk m (answered m' seq o w).
Proof.
  intros H. unfold answered. destruct o; [|done]. destruct (m' ≫= _) as [p|]; [|done]. destruct (d_peers (dev w) !! p) as [x|]; [|done]. destruct (ep_val _); [|done].
  destruct (_ =? _); [done|]. by apply requestsOk_flagged.
Qed.

Lemma attrLoop_text l : Forall attrOk l -> forall fuel m seq w, (length l < fuel)%nat -> requestsOk m w ->
  attrLoop fuel m seq (attrsText l) w = Some (tt, answered m seq (outgoing l) w).
Proof.
  induction 1 as [|[t d] l Ha _ IH]; intros [|fuel] m seq w Hf Hm; cbn in Hf; try lia; [done|].
  change (attrsText ((t, d) :: l)) with (rtAttr t d ++ attrsText l). rewrite attrLoop_step by done. cbn [outgoing].
  destruct ((t =? RTA_OIF) && (length d =? 4)%nat); [|apply IH; [lia|done]]. unfold answered at 1.
  destruct m as [m|]; [|done]. cbn [mbind option_bind]. destruct (m !! seq) as [p|] eqn:Ep; [|done].
  destruct (Hm m seq p eq_refl Ep) as (x & e & Ex & Ee). rewrite bind_eq. unfold getPeer. rewrite Ex, Ee.
  destruct (u32 (SrcIfidx e) =? u_dec d) eqn:Ei; [done|]. rewrite bind_eq, (modEndpoint_flagged p x w Ex).
  rewrite IH by (lia || by apply requestsOk_flagged). do 2 f_equal. unfold answered. cbn [mbind option_bind]. rewrite Ep.
  destruct (outgoing l) as [o|]; [|done]. rewrite (flagged_lookup p w x p Ex). destruct (decide (p = p)) as [_|]; [|done].
  change (ep_val (endpoint (raise x))) with (ep_val (endpoint x)). rewrite Ee. destruct (u32 (SrcIfidx e) =? o); [done|apply flagged_twice].
Qed.

(** ** Messages with one route *)

Definition routeMessage (type seq : Z) (rtmsg : bytes) (attrs : list (Z * bytes)) : bytes :=
  nlBytes (mkNl (16 + zlen (rtmsg ++ attrsText attrs)) type 0 seq 0) ++ rtmsg ++ attrsText attrs.

Lemma length_nlBytes h : length (nlBytes h) = 16%nat.
Proof. unfold nlBytes. by rewrite !length_app, !length_u_enc. Qed.

Lemma nlRead_bytes h rest : 0 <= nl_Len h < 2 ^ 32 -> 0 <= nl_Type h < 65536 -> 0 <= nl_Flags h < 65536 -> 0 <= nl_Seq h < 2 ^ 32 ->
  0 <= nl_Pid h < 2 ^ 32 -> nlRead (nlBytes h ++ rest) = h.
Proof.
  destruct h as [len type flags seq pid]. cbn. intros. unfold nlRead, nlBytes. cbn [nl_Len nl_Type nl_Flags nl_Seq nl_Pid]. rewrite <-!app_assoc.
  set (a := u_enc 4 len). set (b := u_enc 2 type). set (c := u_enc 2 flags). set (d := u_enc 4 seq). set (e := u_enc 4 pid).
  assert (length a = 4%nat /\ length b = 2%nat /\ length c = 2%nat /\ length d = 4%nat /\ length e = 4%nat) as (La & Lb & Lc & Ld & Le)
    by (unfold a, b, c, d, e; by rewrite !length_u_enc).
  rewrite take_app_le, take_ge by lia. rewrite (slice_app_mid a b) by lia.
  assert (slice 6 8 (a ++ b ++ c ++ d ++ e ++ rest) = c) as -> by (rewrite (assoc_L app a b); apply slice_app_mid; rewrite ?length_app; lia).
  assert (slice 8 12 (a ++ b ++ c ++ d ++ e ++ rest) = d) as -> by (rewrite (assoc_L app a b), (assoc_L app (a ++ b)); apply slice_app_mid; rewrite ?length_app; lia).
  assert (slice 12 16 (a ++ b ++ c ++ d ++ e ++ rest) = e) as ->
    by (rewrite (assoc_L app a b), (assoc_L app (a ++ b)), (assoc_L app ((a ++ b) ++ c)); apply slice_app_mid; rewrite ?length_app; lia).
  unfold a, b, c, d, e. by rewrite !u_dec_enc by lia.
Qed.

Lemma length_attrsText l : (length l <= length (attrsText l))%nat.
Proof. induction l as [|[t d] l IH]; [done|]. change (attrsText ((t, d) :: l)) with (rtAttr t d ++ attrsText l). rewrite length_app, length_rtAttr. cbn. lia. Qed.

Lemma routeMessages_one m type seq rtmsg attrs w : type = RTM_NEWROUTE \/ type = RTM_DELROUTE -> length rtmsg = 12%nat ->
  Forall attrOk attrs -> zlen (attrsText attrs) < 65536 -> 0 <= seq < 2 ^ 32 -> requestsOk m w ->
  routeMessages m (routeMessage type seq rtmsg attrs) w =
    if (seq <=? MaxPeers) && (0 <? seq) then Some (Some (m, 0%nat), answered m seq (outgoing attrs) w) else Some (Some (Some ∅, 1%nat), w).
Proof.
  intros Ht Hr Ha Hz Hs Hm. unfold routeMessages, routeMessage. set (body := rtmsg ++ attrsText attrs). set (h := mkNl _ type 0 seq 0).
  assert (zlen body = 12 + zlen (attrsText attrs)) as Hb by (unfold body; rewrite length_app; lia).
  assert (zlen (nlBytes h ++ body) = 16 + zlen body) as Hlen by (rewrite length_app, length_nlBytes; lia).
  cbn [msgLoop]. rewrite nlRead_bytes by (unfold h, RTM_NEWROUTE, RTM_DELROUTE in *; cbn; lia). unfold SizeofNlMsghdr, SizeofRtMsg.
  destruct (Nat.ltb_spec (length (nlBytes h ++ body)) 16); [lia|]. change (nl_Len h) with (16 + zlen body).
  destruct (Z.ltb_spec (zlen (nlBytes h ++ body)) (16 + zlen body)); [lia|].
  assert ((nl_Type h =? RTM_NEWROUTE) || (nl_Type h =? RTM_DELROUTE) = true) as -> by (cbn; destruct Ht as [->| ->]; done).
  rewrite (drop_ge (nlBytes h ++ body) (Z.to_nat (16 + zlen body))) by lia. change (nl_Seq h) with seq.
  assert (forall r a w', msgLoop (length (nlBytes h ++ body)) r a [] w' = Some (Some (r, a), w')) as Hend.
  { intros r a w'. destruct (length (nlBytes h ++ body)) as [|n]; [lia|done]. }
  destruct ((seq <=? MaxPeers) && (0 <? seq)); [|apply Hend]. rewrite bind_eq.
  replace (drop (16 + 12) (nlBytes h ++ body)) with (attrsText attrs).
  2:{ unfold body. rewrite app_assoc. symmetry. apply drop_app_length'. rewrite length_app, length_nlBytes. lia. }
  destruct (Z.ltb_spec (Z.of_nat (16 + 12)) (16 + zlen body)) as [Hlt|Hge]; unfold when.
  - rewrite attrLoop_text by (done || pose proof (length_attrsText attrs); lia). apply Hend.
  - unfold ret at 1. rewrite Hend. do 2 f_equal. destruct attrs as [|[t d] attrs]; [done|].
    change (attrsText ((t, d) :: attrs)) with (rtAttr t d ++ attrsText attrs) in Hb. rewrite length_app, length_rtAttr in Hb. lia.
Qed.

(** ** Asking for the peers *)

(** A peer that is reached over IPv4 from a cached source. *)
Definition sticky (w : World) (p : peer_id) : Prop := exists x e, d_peers (dev w) !! p = Some x /\ ep_val (endpoint x) = Some e
  /\ length (DstIP e) = 4%nat /\ SrcIfidx e <> 0 /\ length (a_bytes (SrcIP e)) = 4%nat.

Fixpoint numbered (i : Z) (ps : list peer_id) (m : requests) : requests :=
  match ps with [] => m | p :: ps => numbered (i + 1) ps (<[i := p]> m) end.

Lemma numbered_lookup ps : forall i m j, numbered i ps m !! j =
  if decide (i <= j < i + zlen ps) then ps !! Z.to_nat (j - i) else m !! j.
Proof.
  induction ps as [|p ps IH]; intros i m j; cbn [numbered].
  { rewrite decide_False; [done|cbn; lia]. }
  rewrite IH. cbn [length]. destruct (decide (j = i)) as [->|Hne].
  - rewrite decide_False by lia. rewrite decide_True by lia. by rewrite lookup_insert_eq, Z.sub_diag.
  - rewrite lookup_insert_ne by done. destruct (decide (i + 1 <= j < i + 1 + zlen ps)).
    + rewrite decide_True by lia. by replace (Z.to_nat (j - i)) with (S (Z.to_nat (j - (i + 1)))) by lia.
    + by rewrite decide_False by lia.
Qed.

(** The request for a peer. *)
Definition requestFor (w : World) (i : Z) (p : peer_id) (b : bytes) : Prop := exists x e, d_peers (dev w) !! p = Some x
  /\ ep_val (endpoint x) = Some e /\ b = routeRequest i (DstIP e) (a_bytes (SrcIP e)) (d_fwmark (dev w)).

(** A peer of any kind: it has no endpoint, or one over IPv6 or without a cached
    source, or it is sticky. *)
Definition unsticky (e : Endpoint) : bool := (16 <=? length (DstIP e))%nat || (SrcIfidx e =? 0).
Definition anyPeer (w : World) (p : peer_id) : Prop := sticky w p \/ exists x, d_peers (dev w) !! p = Some x
  /\ forall e, ep_val (endpoint x) = Some e -> unsticky e = true.

(** The peers that are asked for: those without an endpoint are passed over, and the
    first that is not sticky ends the requests. *)
Fixpoint asked (w : World) (ps : list peer_id) : list peer_id :=
  match ps with
  | [] => []
  | p :: ps =>
      match d_peers (dev w) !! p with
      | None => []
      | Some x =>
          match ep_val (endpoint x) with
          | None => asked w ps
          | Some e => if unsticky e then [] else p :: asked w ps
          end
      end
  end.

Lemma asked_sublist w ps : asked w ps `sublist_of` ps.
Proof.
  induction ps as [|p ps IH]; cbn [asked]; [done|]. destruct (d_peers _ !! p) as [x|]; [|apply sublist_nil_l].
  destruct (ep_val _) as [e|]; [|by apply sublist_cons]. destruct (unsticky e); [apply sublist_nil_l|by apply sublist_skip].
Qed.

Lemma asked_endpoint w ps p : p ∈ asked w ps -> exists x e, d_peers (dev w) !! p = Some x /\ ep_val (endpoint x) = Some e.
Proof.
  induction ps as [|q ps IH]; cbn [asked]; [by intros ?%elem_of_nil|]. destruct (d_peers _ !! q) as [x|] eqn:Ex; [|by intros ?%elem_of_nil].
  destruct (ep_val _) as [e|] eqn:Ee; [|done]. destruct (unsticky e); [by intros ?%elem_of_nil|]. intros [->|?]%elem_of_cons; [by exists x, e|by apply IH].
Qed.

Lemma askLoop_asked ps : forall i m w, Forall (fun kp => anyPeer w kp.2) ps -> 0 < i -> i + zlen ps < 2 ^ 32 ->
  exists out, askLoop (fun _ => true) ps i m w = Some ((numbered i (asked w ps.*2) m, out), w)
  /\ Forall2 (fun kp b => requestFor w kp.1 kp.2 b) (imap (fun k p => (i + Z.of_nat k, p)) (asked w ps.*2)) out.
Proof.
  induction ps as [|[key p] ps IH]; intros i m w Hs Hi Hn; cbn [askLoop fmap list_fmap asked snd]; [exists []; by split|].
  apply Forall_cons in Hs as [Hp Hs]. cbn [snd] in *. cbn [length] in Hn.
  assert (exists x, d_peers (dev w) !! p = Some x) as [x Ex] by (destruct Hp as [(x & _ & ? & _)|(x & ? & _)]; by exists x).
  rewrite bind_eq. unfold getPeer. rewrite Ex. destruct (ep_val (endpoint x)) as [e|] eqn:Ee; [|apply IH; [done|lia|lia]].
  fold (unsticky e). destruct (unsticky e) eqn:Eu; [exists []; by split|].
  destruct Hp as [(x' & e' & Ex' & Ee' & Hd & Hidx & Hsrc)|(x' & Ex' & Hu)]; [|simplify_eq; by rewrite Hu in Eu].
  simplify_eq. unfold As4. rewrite Hd, Hsrc. cbn [Nat.eqb].
  rewrite bind_eq. unfold getD. rewrite bind_eq, u32_small by lia.
  destruct (IH (i + 1) (<[i := p]> m) w Hs) as (out & -> & Hout); [lia|lia|]. eexists. split; [reflexivity|].
  constructor; [exists x', e'; rewrite Z.add_0_r; by split_and!|].
  erewrite imap_ext; [exact Hout|]. intros k p' _. cbn. f_equal. lia.
Qed.

(** ** The whole round *)

(** The answers of the kernel, each in a datagram of its own. *)
Definition answers (m : requests) (ans : list (Z * list (Z * bytes))) : M unit :=
  forEach ans (fun '(seq, attrs) => routeMessages (Some m) (routeMessage RTM_NEWROUTE seq (replicate 12 0) attrs);;; ret tt).

(** An answer to request [i] that names another interface than that of the source. *)
Definition moves (i : Z) (e : Endpoint) (a : Z * list (Z * bytes)) : bool :=
  (a.1 =? i) && match outgoing a.2 with Some ifidx => negb (u32 (SrcIfidx e) =? ifidx) | None => false end.

Definition answerOk (a : Z * list (Z * bytes)) : Prop :=
  0 < a.1 <= MaxPeers /\ Forall attrOk a.2 /\ zlen (attrsText a.2) < 65536.

Lemma raise_twice x : raise (raise x) = raise x.
Proof. done. Qed.

(** What one answer does to each peer. *)
Lemma answered_lookup m i p x e a w : m !! i = Some p -> (forall j, m !! j = Some p -> j = i) ->
  d_peers (dev w) !! p = Some x -> ep_val (endpoint x) = Some e ->
  d_peers (dev (answered (Some m) a.1 (outgoing a.2) w)) !! p = Some (if moves i e a then raise x else x).
Proof.
  intros Hm Hinj Ex Ee. unfold answered, moves. cbn [mbind option_bind].
  destruct (Z.eqb_spec a.1 i) as [->|Hne]; cbn [andb].
  - rewrite Hm, Ex, Ee. destruct (outgoing a.2); [|done]. destruct (_ =? z); [done|]. cbn [negb]. rewrite (flagged_lookup p w x p Ex). by rewrite decide_True.
  - destruct (outgoing a.2); [|done]. destruct (m !! a.1) as [q|] eqn:Eq; [|done].
    destruct (d_peers (dev w) !! q) as [y|]; [|done]. destruct (ep_val (endpoint y)); [|done]. destruct (_ =? z); [done|].
    rewrite (flagged_lookup q w x p Ex). rewrite decide_False; [done|]. intros ->. by destruct Hne, (Hinj a.1 Eq).
Qed.

Lemma answers_run m ans : Forall answerOk ans -> forall w, requestsOk (Some m) w -> exists w', answers m ans w = Some (tt, w') 
  /\ forall i p x e, m !! i = Some p -> (forall j, m !! j = Some p -> j = i) -> d_peers (dev w) !! p = Some x -> ep_val (endpoint x) = Some e ->
     d_peers (dev w') !! p = Some (if existsb (moves i e) ans then raise x else x).
Proof.
  induction 1 as [|[seq attrs] ans (Hseq & Hattrs & Hz) _ IH]; intros w Hm; [by exists w|]. cbn [fst snd] in *.
  unfold answers. cbn [forEach]. rewrite !bind_eq. unfold MaxPeers in Hseq.
  rewrite routeMessages_one; [|by left|done|done|done|lia|done].
  assert ((seq <=? MaxPeers) && (0 <? seq) = true) as -> by (unfold MaxPeers; lia).
  destruct (IH (answered (Some m) seq (outgoing attrs) w)) as (w' & E & H); [by apply requestsOk_answered|]. exists w'. split; [exact E|].
  intros i p x e Hi Hinj Ex Ee. pose proof (answered_lookup m i p x e (seq, attrs) w Hi Hinj Ex Ee) as Ex'. cbn [fst snd] in Ex'. cbn [existsb].
  destruct (moves i e (seq, attrs)); cbn [orb].
  - rewrite (H i p (raise x) e Hi Hinj Ex' Ee). by destruct (existsb _ _).
  - exact (H i p x e Hi Hinj Ex' Ee).
Qed.

Lemma numbered_one ps i p : NoDup ps -> numbered 1 ps ∅ !! i = Some p <-> 1 <= i /\ ps !! Z.to_nat (i - 1) = Some p.
Proof.
  intros Hn. rewrite numbered_lookup. case_decide as H; [split; [intros E; split; [lia|done]|by intros [_ ?]]|].
  rewrite lookup_empty. split; [done|]. intros [H1 E]. apply lookup_lt_Some in E. lia.
Qed.

(** Peers that are not asked for stay as they are. *)
Lemma answers_others m ans p : (forall j, m !! j <> Some p) -> Forall answerOk ans -> forall w w', requestsOk (Some m) w ->
  answers m ans w = Some (tt, w') -> d_peers (dev w') !! p = d_peers (dev w) !! p.
Proof.
  intros Hp. induction 1 as [|[seq attrs] ans (Hseq & Hattrs & Hz) _ IH]; intros w w' Hm; [by intros [= <-]|]. cbn [fst snd] in *.
  unfold answers. cbn [forEach]. rewrite !bind_eq. unfold MaxPeers in Hseq.
  rewrite routeMessages_one; [|by left|done|done|done|lia|done].
  assert ((seq <=? MaxPeers) && (0 <? seq) = true) as -> by (unfold MaxPeers; lia). cbn [ret].
  intros E. rewrite (IH (answered (Some m) seq (outgoing attrs) w) w' (requestsOk_answered _ _ _ _ _ Hm) E).
  unfold answered. destruct (outgoing attrs) as [o|]; [|done]. cbn [mbind option_bind]. destruct (m !! seq) as [q|] eqn:Eq; [|done].
  destruct (d_peers (dev w) !! q) as [y|]; [|done]. destruct (ep_val _); [|done]. destruct (_ =? o); [done|].
  assert (q <> p) by (intros ->; by apply (Hp seq)). cbn. by rewrite lookup_alter_ne.
Qed.

(** C26: a notification that the routes have changed makes the listener ask, in requests
    numbered from 1, for the routes to peers from their cached sources: to the peers in
    the order of the map that have an endpoint, up to the first that is reached over IPv6
    or has no cached source; that one and those after it are not asked for (the socket
    takes the requests).  Whatever answers come, in any order, the peers whose source is
    cleared at their next transmission are those of the peers asked for for which an answer
    names another interface than that of the source, and nothing else changes in any
    peer. *)
Theorem route_change_clears w w0 ps rtmsg attrs ans : length rtmsg = 12%nat -> Forall attrOk attrs -> zlen (attrsText attrs) < 65536 ->
  rangePeers w = Some (ps, w0) -> dev w0 = dev w -> NoDup ps.*2 -> Forall (fun kp => anyPeer w kp.2) ps -> zlen ps <= MaxPeers ->
  Forall answerOk ans ->
  routeMessages None (routeMessage RTM_DELROUTE 0 rtmsg attrs) w = Some (Some (Some ∅, 1%nat), w)
  /\ exists m out w', askPeers (fun _ => true) ∅ w = Some ((m, out), w0)
     /\ Forall2 (fun kp b => requestFor w kp.1 kp.2 b) (imap (fun k p => (1 + Z.of_nat k, p)) (asked w ps.*2)) out
     /\ answers m ans w0 = Some (tt, w')
     /\ (forall k p x e, asked w ps.*2 !! k = Some p -> d_peers (dev w) !! p = Some x -> ep_val (endpoint x) = Some e ->
        d_peers (dev w') !! p = Some (if existsb (moves (1 + Z.of_nat k) e) ans then raise x else x))
     /\ forall p, p ∉ asked w ps.*2 -> d_peers (dev w') !! p = d_peers (dev w) !! p.
Proof.
  intros Hr Ha Hz Hps Hdev Hn Hs Hlen Hans. unfold MaxPeers in Hlen. split.
  - rewrite routeMessages_one; [done|by right|done|done|done|lia|]. intros m' seq p [=].
  - assert (forall l, asked w0 l = asked w l) as Eask by (intros l; induction l as [|q l IH]; cbn [asked]; [done|]; by rewrite Hdev, IH).
    destruct (askLoop_asked ps 1 ∅ w0) as (out & E & Hout); [by unfold anyPeer, sticky in *; rewrite Hdev|lia|lia|]. rewrite Eask in E, Hout.
    set (qs := asked w ps.*2) in *. assert (NoDup qs) as Hnq by (eapply sublist_NoDup; [exact Hn|apply asked_sublist]).
    assert (requestsOk (Some (numbered 1 qs ∅)) w0) as Hm.
    { intros m' seq p [= <-] Hp. apply numbered_one in Hp as [_ Hp]; [|done]. rewrite Hdev. by eapply asked_endpoint, list_elem_of_lookup_2. }
    destruct (answers_run _ ans Hans w0 Hm) as (w' & E' & H). exists (numbered 1 qs ∅), out, w'. split_and!; [|by unfold requestFor in *; rewrite Hdev in Hout|done| |].
    + unfold askPeers. by rewrite bind_eq, Hps.
    + intros k p x e Hk Ex Ee. apply (H (1 + Z.of_nat k) p x e); [|by intros j Hj; apply numbered_one in Hj as [Hj1 Hj]; [|done];
        pose proof (NoDup_lookup _ _ _ _ Hnq Hk Hj); lia|by rewrite Hdev|done].
      apply numbered_one; [done|]. split; [lia|]. by replace (Z.to_nat (1 + Z.of_nat k - 1)) with k by lia.
    + intros p Hp. rewrite (answers_others (numbered 1 qs ∅) ans p) with (w := w0) (w' := w'); [by rewrite Hdev| |done|done|done].
      intros j Hj. apply numbered_one in Hj as [_ Hj]; [|done]. apply Hp. by eapply list_elem_of_lookup_2.
Qed.
End RouteListener.

(** ** Two peers on 64-bit Linux *)

(** A peer that was last reached from this interface; 0 is none. *)
Definition routedPeer (ifidx : Z) : Peer :=
  sample_peer true <| endpoint := mkPeerEndpoint (Some (mkEndpoint [192; 0; 2; 1] 51820
    (if ifidx =? 0 then [] else replicate 16 0 ++ le_enc 4 ifidx ++ [10; 0; 0; 1; 10; 0; 0; 1] ++ replicate 4 0))) false false |>.
Definition routedWorld (a b : Z) : World :=
  sample_world 0 (sample_peer true) <| dev ::= fun d => d <| d_peers := <[1%positive := routedPeer a]> {[2%positive := routedPeer b]} |>
    <| d_keyMap := <[[1] := 1%positive]> {[[2] := 2%positive]} |> |>.

(** The answers say interface 3 for both; the first one's source is of it. *)
Definition sampleAnswers : list (Z * list (Z * bytes)) := [(2, [(1, [192; 0; 2; 1]); (4, le_enc 4 3)]); (1, [(4, le_enc 4 3)])].

Definition samplePeers : list (bytes * peer_id) := [([1], 1%positive); ([2], 2%positive)].
Lemma route_change_clears_witness : let w := routedWorld 3 7 in let w0 := w in let ps := samplePeers in
  routeMessages (OS := linuxSys) None (routeMessage (OS := linuxSys) RTM_DELROUTE 0 (replicate 12 0) []) w = Some (Some (Some ∅, 1%nat), w)
  /\ exists m out w', askPeers (OS := linuxSys) (fun _ => true) ∅ w = Some ((m, out), w0)
     /\ Forall2 (fun kp b => requestFor (OS := linuxSys) w kp.1 kp.2 b) (imap (fun k p => (1 + Z.of_nat k, p)) (asked (OS := linuxSys) w ps.*2)) out
     /\ answers (OS := linuxSys) m sampleAnswers w0 = Some (tt, w')
     /\ (forall k p x e, asked (OS := linuxSys) w ps.*2 !! k = Some p -> d_peers (dev w) !! p = Some x -> ep_val (endpoint x) = Some e ->
        d_peers (dev w') !! p = Some (if existsb (moves (OS := linuxSys) (1 + Z.of_nat k) e) sampleAnswers then raise x else x))
     /\ forall p, p ∉ asked (OS := linuxSys) w ps.*2 -> d_peers (dev w') !! p = d_peers (dev w) !! p.
Proof.
  apply (route_change_clears (OS := linuxSys) (routedWorld 3 7) (routedWorld 3 7) samplePeers (replicate 12 0) [] sampleAnswers).
  - reflexivity.
  - constructor.
  - vm_compute. reflexivity.
  - vm_compute. reflexivity.
  - reflexivity.
  - apply (bool_decide_unpack _). vm_compute. exact I.
  - repeat constructor; (eexists _, _; split; [reflexivity|]; split; [reflexivity|]; split; [reflexivity|]; split; [vm_compute; discriminate|reflexivity]).
  - vm_compute. discriminate.
  - repeat constructor; vm_compute; done.
Defined.

(** A peer without a cached source ends the requests: those after it are not
    asked for. *)
Example unsticky_peer_stops_requests :
  option_map (fun r => length r.1.2) (askPeers (OS := linuxSys) (fun _ => true) ∅ (routedWorld 3 7)) = Some 2%nat
  /\ option_map (fun r => length r.1.2) (askPeers (OS := linuxSys) (fun _ => true) ∅ (routedWorld 0 7)) = Some 0%nat.
Proof. by vm_compute. Qed.

(** A message whose header says that it has no length is read again and again. *)
Example zero_length_never_ends w :
  routeMessages (OS := linuxSys) None (replicate 16 0) w = Some (None, w).
Proof. reflexivity. Qed.
