(* ===== verification/TunDevices.v ===== *)
(** The TUN devices beside the offloads of Linux: reading and writing on macOS and
    the BSDs ([tun/tun_darwin.go], [tun_freebsd.go], [tun_openbsd.go]), with the
    header of four bytes before each packet, and the goroutines that report on
    every platform when the interface comes up, goes down or changes its MTU
    ([tun/tun_linux.go] among them). *)
From S2P Require Import Prelude Checksum Sockets Replay Tai64n Ratelimiter Messages NoiseHelpers ToyCrypto Text Netip Cookie AllowedIPs.
From S2P Require Import TrieBits Trie Routing RoutingSpec State IndexTable Timers Handshake Session Send Receive Device RouteListener.

(** ** Reading and writing on macOS and the BSDs *)

Inductive platform := darwin | freebsd | openbsd.
Definition AF_INET : Z := 2.
Definition AF_INET6 (os : platform) : Z := match os with darwin => 30 | freebsd => 28 | openbsd => 24 end.

Inductive tunError := ErrShortBuffer | EAFNOSUPPORT | FileError (errno : Z).

(** [Read] into a buffer: the error that a listener has left, or what the file
    gives, into the buffer from [offset - 4] on; [None] is the panic of that
    slice.  The buffer, how many packets and of which size, and the error. *)
Definition tunRead (pending : option tunError) (file : bytes * option tunError) (buf : bytes) (offset : nat)
    : option (bytes * option nat * option tunError) :=
  match pending with
  | Some err => Some (buf, None, Some err)
  | None =>
      if (offset <? 4)%nat || (length buf <? offset - 4)%nat then None
      else
        let data := take (length buf - (offset - 4)) file.1 in
        let buf := copy_at buf (offset - 4) data in
        let n := length data in
        if (n <? 4)%nat then Some (buf, None, file.2) else Some (buf, Some (n - 4)%nat, file.2)
  end.

(** What [Write] does to one buffer: what goes to the file, or the error; [None] is
    the panic of an index. *)
Definition framed (os : platform) (offset : nat) (buf : bytes) : option (bytes + tunError) :=
  if (length buf <? offset - 4)%nat then None
  else
    let buf := drop (offset - 4) buf in
    if (match os with freebsd => true | _ => false end) && (length buf <? 5)%nat then Some (inr ErrShortBuffer)
    else
      match buf with
      | _ :: _ :: _ :: _ :: ((b :: _) as packet) =>
          let version := Z.shiftr b 4 in
          if version =? 4 then Some (inl ([0; 0; 0; AF_INET] ++ packet))
          else if version =? 6 then Some (inl ([0; 0; 0; AF_INET6 os] ++ packet))
          else Some (inr EAFNOSUPPORT)
      | _ => None
      end.

(** The loop of [Write] from buffer [i] on: [refuse] is the answer of the file to
    the write of a buffer.  What has been written, the count and the error. *)
Fixpoint tunWriteLoop (os : platform) (refuse : nat -> option tunError) (offset : nat) (i : nat) (bufs : list bytes)
    : option (list bytes * nat * option tunError) :=
  match bufs with
  | [] => Some ([], i, None)
  | buf :: bufs =>
      r ← framed os offset buf;
      match r with
      | inr err => Some ([], i, Some err)
      | inl out =>
          match refuse i with
          | Some err => Some ([], i, Some err)
          | None => '(outs, n, err) ← tunWriteLoop os refuse offset (S i) bufs; Some (out :: outs, n, err)
          end
      end
  end.
Definition tunWrite (os : platform) (refuse : nat -> option tunError) (bufs : list bytes) (offset : nat)
    : option (list bytes * nat * option tunError) :=
  if (offset <? 4)%nat then Some ([], 0%nat, Some ErrShortBuffer) else tunWriteLoop os refuse offset 0 bufs.

(** ** The listeners of macOS and the BSDs *)

Inductive event := EventUp | EventDown | EventMTUUpdate.
#[export] Instance event_eq_dec : EqDecision event.
Proof. solve_decision. Defined.

Definition RTM_IFINFO : Z := 14.

(** [statusUp] and [statusMTU]. *)
Record status := mkStatus { statusUp : bool; statusMTU : Z }.
Definition status0 : status := mkStatus false 0.

(** The comparison of what an interface shows with the status. *)
Definition check (st : status) (up : bool) (mtu : Z) : status * list event :=
  (mkStatus up mtu,
   (if negb (Bool.eqb up (statusUp st)) && up then [EventUp] else []) ++
   (if negb (Bool.eqb up (statusUp st)) && negb up then [EventDown] else []) ++
   (if negb (mtu =? statusMTU st) then [EventMTUUpdate] else [])).

Section Listeners.
Context `{OS : Sys}.

(** What a message of the routing socket shows: nothing about this interface, its
    flag and MTU, or that they cannot be looked up.  [iface] is the answer to the
    look-up, which macOS does not make. *)
Inductive looked := Skipped | Shows (up : bool) (mtu : Z) | LookFails.
Definition lookUp (iface : option (bool * Z)) : looked := match iface with Some (up, mtu) => Shows up mtu | None => LookFails end.
Definition messageFor (size indexAt : nat) (tunIfindex : Z) (data : bytes) : bool :=
  negb (length data <? size)%nat && (nth 3 data 0 =? RTM_IFINFO) && (u_dec (slice indexAt (indexAt + 2) data) =? tunIfindex).
Definition lookAt (os : platform) (tunIfindex : Z) (data : bytes) (iface : option (bool * Z)) : looked :=
  match os with
  | darwin =>
      if messageFor 28 12 tunIfindex data
      then Shows (Z.odd (u_dec (slice 8 12 data))) (u_dec (slice 24 28 data)) else Skipped
  | freebsd => if messageFor 14 12 tunIfindex data then lookUp iface else Skipped
  | openbsd => if messageFor 8 6 tunIfindex data then lookUp iface else Skipped
  end.

(** What a read of the routing socket gives, with the answer to a look-up after it. *)
Inductive routeRead := Interrupted | ReadFails | Reads (data : bytes) (iface : option (bool * Z)).

(** The loop: the events, and whether it has ended, with an error. *)
Fixpoint listenLoop (os : platform) (tunIfindex : Z) (st : status) (reads : list routeRead) : list event * bool :=
  match reads with
  | [] => ([], false)
  | Interrupted :: reads => listenLoop os tunIfindex st reads
  | ReadFails :: _ => ([], true)
  | Reads data iface :: reads =>
      match lookAt os tunIfindex data iface with
      | Skipped => listenLoop os tunIfindex st reads
      | LookFails => ([], true)
      | Shows up mtu =>
          let '(st, evs) := check st up mtu in
          let '(rest, ended) := listenLoop os tunIfindex st reads in
          (evs ++ rest, ended)
      end
  end.
(** On OpenBSD the interface is looked at before the first message. *)
Definition routineRouteListener (os : platform) (tunIfindex : Z) (first : option (bool * Z)) (reads : list routeRead) : list event * bool :=
  match os with
  | openbsd =>
      match lookUp first with
      | Shows up mtu =>
          let '(st, evs) := check status0 up mtu in
          let '(rest, ended) := listenLoop os tunIfindex st reads in
          (evs ++ rest, ended)
      | _ => ([], true)
      end
  | _ => listenLoop os tunIfindex status0 reads
  end.

(** ** The listeners of Linux *)

Definition NLMSG_DONE : Z := 3.
Definition RTM_NEWLINK : Z := 16.

(** The messages of one datagram.  [old] is what the buffer held after it, into
    which the read of a message that is cut short runs; [None] is a panic, or a
    loop that does not end. *)
Fixpoint linkMessages (fuel : nat) (index : Z) (old : bytes) (wasEverUp : bool) (remain : bytes) : option (list event) :=
  match fuel with
  | O => None
  | S fuel =>
      if (length remain <? SizeofNlMsghdr)%nat then Some []
      else
        let hdr := nlRead remain in
        if zlen remain <? nl_Len hdr then Some []
        else if nl_Type hdr =? NLMSG_DONE then linkMessages fuel index old wasEverUp []
        else
          let rest := drop (Z.to_nat (nl_Len hdr)) remain in
          if nl_Type hdr =? RTM_NEWLINK then
            if (length remain =? SizeofNlMsghdr)%nat then None
            else
              let info := drop SizeofNlMsghdr (remain ++ old) in
              if negb (s32 (u_dec (slice 4 8 info)) =? index) then linkMessages fuel index old wasEverUp rest
              else
                let running := Z.testbit (u_dec (slice 8 12 info)) 6 in
                evs ← linkMessages fuel index old (wasEverUp || running) rest;
                Some ((if running then [EventUp] else if wasEverUp then [EventDown] else []) ++ EventMTUUpdate :: evs)
          else linkMessages fuel index old wasEverUp rest
  end.
(** The turns of [routineNetlinkListener]: [wasEverUp] starts anew with each datagram. *)
Definition netlinkTurn (index : Z) (old msg : bytes) : option (list event) := linkMessages (S (length msg)) index old false msg.

(** What the empty write of [routineHackListener] is answered. *)
Inductive polled := EINVAL | EIO | OtherErrno.
(** The loop: [last] is the status that was reported. *)
Fixpoint hackLoop (last : option bool) (polls : list polled) : list event :=
  match polls with
  | [] | OtherErrno :: _ => []
  | EINVAL :: polls => (if bool_decide (last = Some true) then [] else [EventUp]) ++ hackLoop (Some true) polls
  | EIO :: polls => (if bool_decide (last = Some false) then [] else [EventDown]) ++ hackLoop (Some false) polls
  end.
Definition routineHackListener (polls : list polled) : list event := hackLoop None polls.

End Listeners.

(** ** Packets with their headers *)

Definition versionOf (packet : bytes) : Z := Z.shiftr (nth 0 packet 0) 4.
Definition headerOf (os : platform) (packet : bytes) : bytes := [0; 0; 0; if versionOf packet =? 4 then AF_INET else AF_INET6 os].

Lemma framed_packet os offset buf : (4 <= offset < length buf)%nat -> versionOf (drop offset buf) = 4 \/ versionOf (drop offset buf) = 6 ->
  framed os offset buf = Some (inl (headerOf os (drop offset buf) ++ drop offset buf)).
Proof.
  intros Ho Hv. unfold framed. destruct (Nat.ltb_spec (length buf) (offset - 4)); [lia|].
  assert (drop offset buf = drop 4 (drop (offset - 4) buf)) as E by (rewrite drop_drop; f_equal; lia). rewrite E in *.
  pose proof (length_drop buf (offset - 4)) as Hl. set (b := drop (offset - 4) buf) in *.
  destruct (Nat.ltb_spec (length b) 5); [lia|]. rewrite andb_false_r.
  do 5 (destruct b as [|? b]; [cbn in *; lia|]). cbn [drop] in *. unfold headerOf, versionOf in *. cbn [nth] in *.
  destruct Hv as [-> | ->]; done.
Qed.

Lemma tunWriteLoop_all os offset refuse bufs : forall i, (forall j, refuse j = None) ->
  Forall (fun buf => (4 <= offset < length buf)%nat /\ (versionOf (drop offset buf) = 4 \/ versionOf (drop offset buf) = 6)) bufs ->
  tunWriteLoop os refuse offset i bufs =
    Some ((fun buf => headerOf os (drop offset buf) ++ drop offset buf) <$> bufs, (i + length bufs)%nat, None).
Proof.
  induction bufs as [|buf bufs IH]; intros i Hr Hb; cbn [tunWriteLoop fmap list_fmap length]; [by rewrite Nat.add_0_r|].
  apply Forall_cons in Hb as [[Ho Hv] Hb]. rewrite framed_packet by done. cbn [mbind option_bind]. rewrite Hr, IH by done.
  cbn [mbind option_bind]. do 3 f_equal. lia.
Qed.

Lemma tunRead_header h packet buf offset : length h = 4%nat -> (4 <= offset)%nat -> (offset + length packet <= length buf)%nat ->
  exists buf', tunRead None (h ++ packet, None) buf offset = Some (buf', Some (length packet), None)
  /\ slice offset (offset + length packet) buf' = packet /\ length buf' = length buf.
Proof.
  intros Hh Ho Hl. unfold tunRead. destruct (Nat.ltb_spec offset 4); [lia|]. destruct (Nat.ltb_spec (length buf) (offset - 4)); [lia|]. cbn [orb fst snd].
  rewrite take_ge by (rewrite length_app; lia). rewrite length_app, Hh. destruct (Nat.ltb_spec (4 + length packet) 4); [lia|].
  replace (4 + length packet - 4)%nat with (length packet) by lia. eexists. split; [reflexivity|]. rewrite length_copy. split; [|done].
  rewrite copy_at_fit by (rewrite length_app; lia). rewrite <-app_assoc, app_assoc. apply slice_app_mid; rewrite ?length_app, ?length_take; lia.
Qed.

(** On macOS and the BSDs packets of IPv4 and IPv6 are all written, in order,
    each after four bytes that name its family, and what is read back behind such
    bytes is the packet, at the offset that was asked for and of its own length. *)
Theorem framed_read_back os refuse offset bufs : (forall j, refuse j = None) -> (4 <= offset)%nat ->
  Forall (fun buf => (offset < length buf)%nat /\ (versionOf (drop offset buf) = 4 \/ versionOf (drop offset buf) = 6)) bufs ->
  exists outs, tunWrite os refuse bufs offset = Some (outs, length bufs, None)
  /\ Forall2 (fun buf out => out = headerOf os (drop offset buf) ++ drop offset buf
       /\ forall into, (length buf <= length into)%nat -> exists into', tunRead None (out, None) into offset = Some (into', Some (length (drop offset buf)), None)
            /\ slice offset (length buf) into' = drop offset buf) bufs outs.
Proof.
  intros Hr Ho Hb. assert (Forall (fun buf => (4 <= offset < length buf)%nat /\ (versionOf (drop offset buf) = 4 \/ versionOf (drop offset buf) = 6)) bufs) as Hb'
    by (eapply Forall_impl; [exact Hb|]; intros buf [? ?]; split; [lia|done]).
  unfold tunWrite. destruct (Nat.ltb_spec offset 4); [lia|]. rewrite (tunWriteLoop_all os offset refuse bufs 0 Hr Hb'). eexists. split; [reflexivity|].
  apply Forall2_fmap_r. apply Forall_Forall2_diag. eapply Forall_impl; [exact Hb|]. intros buf [Hl Hv]. split; [done|]. intros into Hi.
  pose proof (length_drop buf offset) as Hd.
  destruct (tunRead_header (headerOf os (drop offset buf)) (drop offset buf) into offset eq_refl Ho ltac:(lia)) as (into' & E & Es & _).
  exists into'. split; [exact E|]. replace (length buf) with (offset + length (drop offset buf))%nat by lia. exact Es.
Qed.

Lemma framed_read_back_witness : let bufs := [zeros 16 ++ [69; 1; 2]; zeros 16 ++ [96; 3]] in
  exists outs, tunWrite darwin (fun _ => None) bufs 16 = Some (outs, length bufs, None)
  /\ Forall2 (fun buf out => out = headerOf darwin (drop 16 buf) ++ drop 16 buf
       /\ forall into, (length buf <= length into)%nat -> exists into', tunRead None (out, None) into 16 = Some (into', Some (length (drop 16 buf)), None)
            /\ slice 16 (length buf) into' = drop 16 buf) bufs outs.
Proof.
  apply (framed_read_back darwin (fun _ => None) 16 [zeros 16 ++ [69; 1; 2]; zeros 16 ++ [96; 3]]); [done|lia|].
  constructor; [split; [cbn; lia|by left]|]. constructor; [split; [cbn; lia|by right]|constructor].
Defined.

(** Without the check that FreeBSD has, a buffer without a packet panics. *)
Example empty_packet_panics : framed darwin 16 (zeros 16) = None /\ framed freebsd 16 (zeros 16) = Some (inr ErrShortBuffer).
Proof. done. Qed.

(** ** What the listeners report *)

(** A listener's reader turns the interface up and down, starting from down. *)
Definition follow (up : bool) (e : event) : bool := match e with EventUp => true | EventDown => false | EventMTUUpdate => up end.
(** Up and down come in turns. *)
Fixpoint inTurns (up : bool) (evs : list event) : Prop :=
  match evs with
  | [] => True
  | EventUp :: evs => up = false /\ inTurns true evs
  | EventDown :: evs => up = true /\ inTurns false evs
  | EventMTUUpdate :: evs => inTurns up evs
  end.
Definition mtuEvents (evs : list event) : nat := length (filter (eq EventMTUUpdate) evs).
(** How often the values differ from the one before. *)
Fixpoint changes (old : Z) (l : list Z) : nat :=
  match l with [] => 0%nat | x :: l => ((if decide (x = old) then 0 else 1) + changes x l)%nat end.

Lemma inTurns_app evs evs' : forall up, inTurns up (evs ++ evs') <-> inTurns up evs /\ inTurns (foldl follow up evs) evs'.
Proof. induction evs as [|[] evs IH]; intros up; cbn [app inTurns foldl follow]; rewrite ?IH; tauto. Qed.

Lemma check_events st up mtu : let '(st', evs) := check st up mtu in
  st' = mkStatus up mtu /\ foldl follow (statusUp st) evs = up /\ inTurns (statusUp st) evs
  /\ mtuEvents evs = (if decide (mtu = statusMTU st) then 0 else 1)%nat.
Proof.
  unfold check. destruct st as [old mtu0]. cbn [statusUp statusMTU]. 
  destruct (Z.eqb_spec mtu mtu0), (decide (mtu = mtu0)); try done; destruct up, old; cbn; by split_and!.
Qed.

Lemma default_last_cons {A} (d x : A) l : default d (list.last (x :: l)) = default x (list.last l).
Proof. rewrite last_cons. by destruct (list.last l). Qed.

Section Reports.
Context `{OS : Sys}.

(** What the messages show until a look-up or a read fails. *)
Fixpoint shown (os : platform) (idx : Z) (reads : list routeRead) : list (bool * Z) :=
  match reads with
  | [] | ReadFails :: _ => []
  | Interrupted :: reads => shown os idx reads
  | Reads data iface :: reads =>
      match lookAt os idx data iface with
      | Skipped => shown os idx reads
      | Shows up mtu => (up, mtu) :: shown os idx reads
      | LookFails => []
      end
  end.

Lemma listenLoop_reports os idx reads : forall st, let evs := (listenLoop os idx st reads).1 in let s := shown os idx reads in
  foldl follow (statusUp st) evs = default (statusUp st) (list.last s.*1) /\ inTurns (statusUp st) evs
  /\ mtuEvents evs = changes (statusMTU st) s.*2.
Proof.
  induction reads as [|[| |data iface] reads IH]; intros st; cbn [listenLoop shown]; [done|apply IH|done|].
  destruct (lookAt os idx data iface) as [|up mtu|]; [apply IH| |done].
  pose proof (check_events st up mtu) as Hc. destruct (check st up mtu) as [st' evs]. destruct Hc as (-> & Hf & Ht & Hm).
  specialize (IH (mkStatus up mtu)). destruct (listenLoop os idx (mkStatus up mtu) reads) as [rest ended]. cbn [fst] in IH |- *.
  destruct IH as (IHf & IHt & IHm). cbn [statusUp statusMTU] in *. split_and!.
  - rewrite foldl_app, Hf, IHf. cbn [fmap list_fmap fst]. by rewrite default_last_cons.
  - rewrite inTurns_app, Hf. by split.
  - unfold mtuEvents in *. rewrite filter_app, length_app, Hm, IHm. done.
Qed.

(** What the polls show until one is answered otherwise. *)
Fixpoint polledUp (polls : list polled) : list bool :=
  match polls with [] | OtherErrno :: _ => [] | EINVAL :: polls => true :: polledUp polls | EIO :: polls => false :: polledUp polls end.

Lemma hackLoop_reports polls : forall up, foldl follow up (hackLoop (Some up) polls) = default up (list.last (polledUp polls))
  /\ inTurns up (hackLoop (Some up) polls).
Proof.
  induction polls as [|[| |] polls IH]; intros up; cbn [hackLoop polledUp]; [done| | |done].
  - destruct (IH true) as [Hf Ht]. rewrite default_last_cons, <-Hf. by destruct up.
  - destruct (IH false) as [Hf Ht]. rewrite default_last_cons, <-Hf. by destruct up.
Qed.

Lemma routineHackListener_reports polls : exists up, foldl follow up (routineHackListener polls) = default up (list.last (polledUp polls))
  /\ inTurns up (routineHackListener polls).
Proof.
  unfold routineHackListener. destruct polls as [|[| |] polls]; cbn [hackLoop polledUp]; [by exists true| | |by exists true].
  - exists false. destruct (hackLoop_reports polls true) as [Hf Ht]. rewrite default_last_cons, <-Hf. done.
  - exists true. destruct (hackLoop_reports polls false) as [Hf Ht]. rewrite default_last_cons, <-Hf. done.
Qed.

(** On macOS and the BSDs, whatever the routing socket gives, who follows the
    events is at any time where the interface was when it was last seen: up and
    down are reported in turns, starting with up, and the MTU is reported as often
    as it has changed.  On Linux the listener that polls the device reports what it
    has last seen, in turns too. *)
Theorem listeners_report os idx first reads polls :
  (let evs := (routineRouteListener os idx first reads).1 in
   let s := match os, first with openbsd, Some s => s :: shown os idx reads | openbsd, None => [] | _, _ => shown os idx reads end in
   foldl follow false evs = default false (list.last s.*1) /\ inTurns false evs /\ mtuEvents evs = changes 0 s.*2)
  /\ exists up, foldl follow up (routineHackListener polls) = default up (list.last (polledUp polls))
     /\ inTurns up (routineHackListener polls).
Proof.
  split; [|apply routineHackListener_reports]. unfold routineRouteListener. destruct os; [apply (listenLoop_reports _ _ _ status0)..|].
  destruct first as [[up mtu]|]; [|done]. cbn [lookUp].
  pose proof (check_events status0 up mtu) as Hc. destruct (check status0 up mtu) as [st' evs]. destruct Hc as (-> & Hf & Ht & Hm).
  pose proof (listenLoop_reports openbsd idx reads (mkStatus up mtu)) as (IHf & IHt & IHm). 
  destruct (listenLoop openbsd idx (mkStatus up mtu) reads) as [rest ended]. cbn [fst statusUp statusMTU status0] in *. split_and!.
  - rewrite foldl_app, Hf, IHf. cbn [fmap list_fmap fst]. by rewrite default_last_cons.
  - rewrite inTurns_app, Hf. by split.
  - unfold mtuEvents in *. rewrite filter_app, length_app, Hm, IHm. done.
Qed.
End Reports.

(** ** The netlink listener of Linux *)

Section Netlink.
Context `{OS : Sys}.

(** A message about the link of an interface, with its flags. *)
Definition linkMessage (m : Z * Z) : bytes :=
  nlBytes (mkNl 32 RTM_NEWLINK 0 0 0) ++ replicate 4 0 ++ u_enc 4 (u32 m.1) ++ u_enc 4 m.2 ++ replicate 4 0.
Definition linkOk (m : Z * Z) : Prop := - 2 ^ 31 <= m.1 < 2 ^ 31 /\ 0 <= m.2 < 2 ^ 32.

Fixpoint linkEvents (index : Z) (wasEverUp : bool) (ms : list (Z * Z)) : list event :=
  match ms with
  | [] => []
  | (i, flags) :: ms =>
      if i =? index then
        let running := Z.testbit flags 6 in
        (if running then [EventUp] else if wasEverUp then [EventDown] else []) ++ EventMTUUpdate :: linkEvents index (wasEverUp || running) ms
      else linkEvents index wasEverUp ms
  end.

Lemma s32_u32 i : - 2 ^ 31 <= i < 2 ^ 31 -> s32 (u32 i) = i.
Proof.
  intros H. unfold s32, u32, uwrap. rewrite Zplus_mod_idemp_l, Z.mod_small by lia. lia.
Qed.

Lemma length_linkMessage m : length (linkMessage m) = 32%nat.
Proof. unfold linkMessage. rewrite !length_app, length_nlBytes, !length_u_enc. done. Qed.

Lemma linkMessage_info m rest : linkOk m -> let info := drop SizeofNlMsghdr (linkMessage m ++ rest) in
  s32 (u_dec (slice 4 8 info)) = m.1 /\ u_dec (slice 8 12 info) = m.2.
Proof.
  intros [Hi Hf]. cbv zeta. unfold linkMessage. rewrite <-!app_assoc, drop_app_length' by (by rewrite length_nlBytes).
  set (z := replicate 4 0). assert (length z = 4%nat) as Lz by done.
  set (a := u_enc 4 (u32 m.1)). set (b := u_enc 4 m.2).
  assert (length a = 4%nat /\ length b = 4%nat) as [La Lb] by (unfold a, b; by rewrite !length_u_enc).
  rewrite (slice_app_mid z a) by lia.
  assert (slice 8 12 (z ++ a ++ b ++ z ++ rest) = b) as -> by (rewrite (assoc_L app z a); apply slice_app_mid; rewrite ?length_app; lia).
  unfold a, b. rewrite !u_dec_enc by (pose proof (u32_range m.1); lia). by rewrite s32_u32.
Qed.

(** What is reported of a datagram is what its messages say about the interface,
    except that down is reported only after up in the same datagram. *)
Lemma linkMessages_report index old ms : Forall linkOk ms -> forall fuel was, (length ms < fuel)%nat ->
  linkMessages fuel index old was (concat (linkMessage <$> ms)) = Some (linkEvents index was ms).
Proof.
  induction 1 as [|[i flags] ms Hm _ IH]; intros [|fuel] was Hf; cbn in Hf; try lia; cbn [linkMessages]; [done|].
  cbn [fmap list_fmap concat]. set (rest := concat _) in *. pose proof (length_linkMessage (i, flags)) as Hl.
  assert (nlRead (linkMessage (i, flags) ++ rest) = mkNl 32 RTM_NEWLINK 0 0 0) as ->
    by (unfold linkMessage; rewrite <-app_assoc; apply nlRead_bytes; unfold RTM_NEWLINK; cbn; lia).
  destruct (linkMessage_info (i, flags) (rest ++ old) Hm) as [Ei Ef]. cbn [fst snd] in Ei, Ef.
  destruct (Nat.ltb_spec (length (linkMessage (i, flags) ++ rest)) SizeofNlMsghdr) as [H|_]; [unfold SizeofNlMsghdr in H; rewrite length_app in H; lia|].
  cbn [nl_Len nl_Type]. destruct (Z.ltb_spec (zlen (linkMessage (i, flags) ++ rest)) 32) as [H|_]; [rewrite length_app in H; lia|].
  change (RTM_NEWLINK =? NLMSG_DONE) with false. change (RTM_NEWLINK =? RTM_NEWLINK) with true. cbn match.
  destruct (Nat.eqb_spec (length (linkMessage (i, flags) ++ rest)) SizeofNlMsghdr) as [H|_]; [unfold SizeofNlMsghdr in H; rewrite length_app in H; lia|].
  rewrite (drop_app_length' (linkMessage (i, flags)) rest) by (rewrite Hl; done). rewrite <-app_assoc, Ei, Ef. cbn [linkEvents].
  destruct (i =? index); cbn [negb]; [|apply IH; lia]. rewrite IH by lia. done.
Qed.
End Netlink.

(** That an interface goes down is a datagram of its own, which is never reported
    by this listener; the comment says that only a first down is not. *)
Example down_is_not_reported :
  netlinkTurn (OS := linuxSys) 7 [] (concat (linkMessage (OS := linuxSys) <$> [(7, 64)])) = Some [EventUp; EventMTUUpdate]
  /\ netlinkTurn (OS := linuxSys) 7 [] (concat (linkMessage (OS := linuxSys) <$> [(7, 0)])) = Some [EventMTUUpdate].
Proof. by vm_compute. Qed.

(** ** Windows: packets through the rings of Wintun *)

Definition rateMeasurementGranularity : Z := 500000000.
Definition spinloopRateThreshold : Z := 100000000.

Record rateJuggler := mkJuggler { rj_current : Z; nextByteCount : Z; nextStartTime : Z; changing : bool }.
(** [update] at the time [now]; another one may be changing the rate. *)
Definition rateUpdate (now packetLen : Z) (r : rateJuggler) : rateJuggler :=
  let total := u64 (nextByteCount r + packetLen) in
  let period := u64 (now - nextStartTime r) in
  if rateMeasurementGranularity <=? period then
    if changing r then mkJuggler (rj_current r) total (nextStartTime r) true
    else mkJuggler (u64 (total * 1000000000) / period) 0 now false
  else mkJuggler (rj_current r) total (nextStartTime r) (changing r).
Definition shouldSpin (start : Z) (r : rateJuggler) : bool :=
  (spinloopRateThreshold <=? rj_current r) && (u64 (start - nextStartTime r) <=? rateMeasurementGranularity * 2).

(** What a call of [ReceivePacket] gives, with the time; before each call the
    device is looked at.  Spinning, waiting and starting again are all a next call. *)
Inductive received := Packet (p : bytes) | NoMoreItems | RingClosed | RingCorrupt | ReceiveFails.
Inductive winTunError := WinClosed | WinCorrupt | WinFailed.
Fixpoint winRead (calls : list (bool * received)) (now : Z) (buf : bytes) (offset : nat) (r : rateJuggler)
    : option (bytes * rateJuggler * (nat + winTunError)) :=
  match calls with
  | [] => None
  | (true, _) :: _ => Some (buf, r, inr WinClosed)
  | (false, answer) :: calls =>
      match answer with
      | Packet p =>
          if (length buf <? offset)%nat then None
          else
            let n := Nat.min (length buf - offset) (length p) in
            Some (copy_at buf offset p, rateUpdate now (Z.of_nat n) r, inl n)
      | NoMoreItems => winRead calls now buf offset r
      | RingClosed => Some (buf, r, inr WinClosed)
      | RingCorrupt => Some (buf, r, inr WinCorrupt)
      | ReceiveFails => Some (buf, r, inr WinFailed)
      end
  end.

(** [Write]: what [AllocateSendPacket] says to each packet; a full ring drops it. *)
Inductive allocated := Allocated | RingFull | SendClosed | AllocateFails.
Fixpoint winWriteLoop (answer : nat -> allocated) (now : nat -> Z) (i : nat) (bufs : list bytes) (offset : nat) (r : rateJuggler)
    : list bytes * nat * option winTunError * rateJuggler :=
  match bufs with
  | [] => ([], i, None, r)
  | buf :: bufs =>
      let r := rateUpdate (now i) (zlen buf - Z.of_nat offset) r in
      match answer i with
      | Allocated =>
          let '(sent, n, err, r) := winWriteLoop answer now (S i) bufs offset r in (drop offset buf :: sent, n, err, r)
      | RingFull => winWriteLoop answer now (S i) bufs offset r
      | SendClosed => ([], i, Some WinClosed, r)
      | AllocateFails => ([], i, Some WinFailed, r)
      end
  end.
Definition winWrite (closed : bool) (answer : nat -> allocated) (now : nat -> Z) (bufs : list bytes) (offset : nat) (r : rateJuggler)
    : list bytes * nat * option winTunError * rateJuggler :=
  if closed then ([], 0%nat, Some WinClosed, r) else winWriteLoop answer now 0 bufs offset r.

(** [ForceMTU] of an open device: the MTU and the events. *)
Definition ForceMTU (closed : bool) (mtu forcedMTU : Z) : Z * list event :=
  if closed then (forcedMTU, []) else (mtu, if forcedMTU =? mtu then [] else [EventMTUUpdate]).

(** A measured rate is the bytes since the last measurement by the seconds since
    then, rounded down. *)
Lemma rateUpdate_measures now n r : changing r = false -> 0 <= nextByteCount r -> 0 <= n -> nextByteCount r + n < 2 ^ 34 ->
  rateMeasurementGranularity <= now - nextStartTime r < 2 ^ 63 ->
  rateUpdate now n r = mkJuggler ((nextByteCount r + n) * 1000000000 / (now - nextStartTime r)) 0 now false.
Proof.
  intros Hc H0 Hn Ht Hp. unfold rateUpdate, rateMeasurementGranularity in *. rewrite (u64_small (nextByteCount r + n)) by lia.
  rewrite (u64_small (now - nextStartTime r)) by lia. destruct (Z.leb_spec 500000000 (now - nextStartTime r)); [|lia].
  rewrite Hc. by rewrite u64_small by lia.
Qed.

(** A write counts every packet, those that a full ring drops too; the others go
    out in their order. *)
Lemma winWrite_drops answer now bufs offset r : (forall i, answer i = Allocated \/ answer i = RingFull) ->
  exists sent r', winWrite false answer now bufs offset r = (sent, length bufs, None, r')
  /\ sent `sublist_of` (drop offset <$> bufs) /\ ((forall i, answer i = Allocated) -> sent = drop offset <$> bufs).
Proof.
  intros Ha. unfold winWrite. change (length bufs) with (0 + length bufs)%nat. generalize 0%nat as i. revert r.
  induction bufs as [|buf bufs IH]; intros r i; cbn [winWriteLoop fmap list_fmap length]; [exists [], r; by rewrite Nat.add_0_r|].
  destruct (IH (rateUpdate (now i) (zlen buf - Z.of_nat offset) r) (S i)) as (sent & r' & E & Hs & Hall). rewrite E.
  replace (S i + length bufs)%nat with (i + S (length bufs))%nat by lia. destruct (Ha i) as [-> | Hi].
  - eexists _, _. split; [reflexivity|]. split; [by constructor|]. intros H. by rewrite Hall.
  - rewrite Hi. eexists _, _. split; [reflexivity|]. split; [by constructor|]. intros H. by rewrite H in Hi.
Qed.
