(* ===== verification/Resources.v ===== *)
(** Functions that make system calls and hold resources: which descriptors are open
    after a function whose calls may fail at any place. *)
From S2P Require Import Prelude.

(** The system calls are numbered; [refuse] tells which fail.  A function returns
    [None] for an error, and changes the resources that are open. *)
Section Sys.
Context {R : Type} `{EqDecision R}.
Variable refuse : nat -> bool.

Definition Sys (A : Type) : Type := nat * list R -> (nat * list R) * option A.
Definition nothing : Sys unit := fun s => (s, Some tt).
Definition fails {A} : Sys A := fun s => (s, None).
Definition call : Sys unit := fun '(n, rs) => if refuse n then ((S n, rs), None) else ((S n, rs), Some tt).
Definition opens (r : R) : Sys unit := fun '(n, rs) => if refuse n then ((S n, rs), None) else ((S n, r :: rs), Some tt).
(** One that cannot fail: a goroutine is started, a file is made of a descriptor. *)
Definition holds (r : R) : Sys unit := fun '(n, rs) => ((n, r :: rs), Some tt).
Definition remove1 (r : R) (rs : list R) : list R :=
  match list_find (eq r) rs with Some (i, _) => take i rs ++ drop (S i) rs | None => rs end.
Definition closes (r : R) : Sys unit := fun '(n, rs) => ((n, remove1 r rs), Some tt).

(** [a, err := m; if err != nil { cleanup; return err }; k(a)] *)
Definition orElse {A B} (m : Sys A) (cleanup : Sys unit) (k : A -> Sys B) : Sys B := fun s =>
  match m s with
  | (s, Some a) => k a s
  | (s, None) => ((cleanup s).1, None)
  end.
(** [defer] and a call whose error is not looked at. *)
Definition deferred {A} (m : Sys A) (d : Sys unit) : Sys A := fun s => let '(s, r) := m s in ((d s).1, r).
Definition ignoring {A B} (m : Sys A) (k : Sys B) : Sys B := fun s => k (m s).1.

(** After a function that fails, and after closing what one that does not has made,
    no more than [rest] is open. *)
Definition cleans {A} (m : Sys A) (close : Sys unit) (s : nat * list R) (made rest : list R) : Prop :=
  match m s with
  | (s, None) => s.2 ⊆+ rest
  | (s, Some _) => s.2 ≡ₚ made /\ (close s).1.2 ⊆+ rest
  end.
End Sys.
Arguments Sys R A : clear implicits.

Declare Scope sys_scope.
Delimit Scope sys_scope with sys.
Notation "m 'failing' c 'next' k" := (orElse m c (fun _ => k)) (at level 90, c at level 80, k at level 90, right associativity) : sys_scope.
Notation "m 'next' k" := (ignoring m k) (at level 90, k at level 90, right associativity) : sys_scope.

(** Runs a function call by call, and compares what is open. *)
Ltac calls := repeat (match goal with |- context [if ?refuse ?n then _ else _] => is_var refuse; destruct (refuse n); cbn end).
Ltac same := first [reflexivity | apply (bool_decide_unpack _); vm_compute; exact I].
Ltac compare := calls; try (split; calls); same.

