(* ===== verification/TunCreate.v ===== *)
(** How TUN devices are made and closed ([tun/tun_linux.go], [tun_darwin.go],
    [tun_freebsd.go], [tun_openbsd.go], [tun_windows.go]): which descriptors are open
    after a call, whatever system call fails on the way. *)
From S2P Require Import Prelude Resources.
#[local] Open Scope sys_scope.

(** ** System calls *)

(** What is open: the device, as a descriptor or a file made of it, sockets, the
    pipe of an rwcancel, an interface made by opening, a goroutine that listens. *)
Inductive resource := TunFd | TunFile | RouteSocket | NetlinkSocket | CancelPipe | ConfSocket | Interface | Listener | Adapter | Session.
#[export] Instance resource_eq_dec : EqDecision resource.
Proof. solve_decision. Defined.

(** Which system calls fail. *)
Section Create.
Variable refuse : nat -> bool.
Abbreviation Sys := (Sys resource).
Abbreviation call := (call refuse).
Abbreviation opens := (opens refuse).

(** An ioctl on a socket made for it: [setMTU], [MTU], [getIFIndex], [tunDestroy]. *)
Definition onSocket : Sys unit := opens ConfSocket failing nothing next deferred call (closes ConfSocket).

(** ** macOS *)

(** [Close] on the BSDs; the listener ends when its socket is shut down. *)
Definition bsdClose : Sys unit := closes TunFile next closes RouteSocket next closes Listener.
Definition darwinFromFile (mtu : Z) : Sys unit :=
  call failing closes TunFile next  (* Name *)
  call failing closes TunFile next  (* InterfaceByName *)
  opens RouteSocket failing closes TunFile next
  holds Listener failing nothing next
  if 0 <? mtu then (onSocket failing bsdClose next nothing) else nothing.
(** The descriptor becomes a file. *)
Definition asFile : Sys unit := closes TunFd next holds TunFile.
Definition darwinCreateTUN (nameOk : bool) (mtu : Z) : Sys unit :=
  if negb nameOk then fails
  else
    opens TunFd failing nothing next
    call failing closes TunFd next  (* IoctlCtlInfo *)
    call failing closes TunFd next  (* Connect *)
    call failing closes TunFd next  (* SetNonblock *)
    asFile next darwinFromFile mtu.

(** ** OpenBSD *)

Definition openbsdFromFile (currentMTU mtu : Z) : Sys unit :=
  call failing closes TunFile next  (* Name *)
  call failing closes TunFile next  (* InterfaceByName *)
  opens RouteSocket failing closes TunFile next
  holds Listener failing nothing next
  fun s =>
    let '(s, r) := onSocket s in  (* MTU *)
    (if bool_decide (r = None) || negb (currentMTU =? mtu) then (onSocket failing bsdClose next nothing) else nothing) s.
(** Without a number in the name, files are tried while they are busy, [tries] of them. *)
Fixpoint openAny (busy : nat -> bool) (tries : nat) : Sys unit :=
  match tries with
  | O => fails
  | S tries => fun s => match opens TunFile s with
                        | (s, Some _) => (s, Some tt)
                        | (s, None) => if busy s.1 then (match tries with O => fails s | _ => openAny busy tries s end) else (s, None)
                        end
  end.
Definition openbsdCreateTUN (nameOk numbered : bool) (busy : nat -> bool) (currentMTU mtu : Z) : Sys unit :=
  if negb nameOk then fails
  else (if numbered then opens TunFile else openAny busy 256) failing nothing next openbsdFromFile currentMTU mtu.

(** ** FreeBSD *)

(** Opening the device makes the interface. *)
Definition tunDestroy : Sys unit := onSocket failing nothing next closes Interface.
Definition freebsdClose : Sys unit := closes TunFile next tunDestroy next closes RouteSocket next closes Listener.
Definition freebsdFromFile : Sys unit :=
  call failing closes TunFile next  (* TUNSIFPID *)
  call failing closes TunFile next  (* Name *)
  call failing closes TunFile next  (* InterfaceByName *)
  opens RouteSocket failing closes TunFile next
  holds Listener failing nothing next
  onSocket failing freebsdClose next nothing.
Definition undo : Sys unit := closes TunFile next tunDestroy.
Definition freebsdCreateTUN (named nameOk exists_ : bool) : Sys unit :=
  if negb nameOk || exists_ then fails
  else
    opens TunFile failing nothing next
    holds Interface failing nothing next
    call failing closes TunFile next  (* tunName *)
    call failing undo next  (* TUNSIFHEAD *)
    call failing undo next  (* TUNSIFMODE *)
    opens ConfSocket failing undo next
    deferred
      (call failing undo next  (* SIOCGIFINFO_IN6 *)
       call failing undo next  (* SIOCSIFINFO_IN6 *)
       if named
       then opens ConfSocket failing undo next deferred (call failing undo next freebsdFromFile) (closes ConfSocket)
       else freebsdFromFile)
      (closes ConfSocket).

(** ** Linux *)

Definition createNetlinkSocket : Sys unit := opens NetlinkSocket failing nothing next call failing nothing next nothing.
(** Name, the flags, the index; the two listeners. *)
Definition linuxFromFile : Sys unit :=
  call failing nothing next  (* Name *)
  call failing nothing next  (* initFromFlags *)
  onSocket failing nothing next  (* getIFIndex *)
  createNetlinkSocket failing nothing next
  opens CancelPipe failing closes NetlinkSocket next
  holds Listener failing nothing next
  holds Listener failing nothing next
  onSocket failing closes NetlinkSocket next nothing.    (* setMTU *)
Definition linuxCreateTUN : Sys unit :=
  opens TunFd failing nothing next
  call failing nothing next  (* NewIfreq *)
  call failing nothing next  (* TUNSETIFF *)
  call failing closes TunFd next  (* SetNonblock *)
  asFile next linuxFromFile.
(** The listeners close the socket and the pipe when they end. *)
Definition linuxClose : Sys unit :=
  closes Listener next closes Listener next closes NetlinkSocket next closes CancelPipe next closes TunFile.
Definition CreateUnmonitoredTUNFromFD : Sys unit :=
  call failing nothing next asFile next call failing nothing next call failing nothing next nothing.

(** ** Windows *)

Definition windowsCreateTUN : Sys unit :=
  opens Adapter failing nothing next opens Session failing closes Adapter next nothing.
Definition windowsClose : Sys unit := closes Session next closes Adapter.

End Create.

(** ** What is open afterwards *)

Section Cleans.
Variable refuse : nat -> bool.

Lemma darwinFromFile_cleans mtu n : cleans (darwinFromFile refuse mtu) bsdClose (n, [TunFile]) [TunFile; RouteSocket; Listener] [].
Proof. unfold cleans, darwinFromFile, onSocket, orElse, deferred. destruct (0 <? mtu); cbn; compare. Qed.

Lemma darwinCreateTUN_cleans nameOk mtu n : cleans (darwinCreateTUN refuse nameOk mtu) bsdClose (n, []) [TunFile; RouteSocket; Listener] [].
Proof.
  unfold cleans, darwinCreateTUN, orElse, ignoring. destruct nameOk; cbn; calls; try same. apply darwinFromFile_cleans.
Qed.

(** The tries end with a file, or with nothing open. *)
Lemma openAny_ends busy tries : forall n, match openAny refuse busy tries (n, []) with (s, None) => s.2 = [] | (s, Some _) => s.2 = [TunFile] end.
Proof.
  induction tries as [|tries IH]; intros n; cbn; [done|]. destruct (refuse n); cbn; [|done].
  destruct (busy (S n)); [|done]. destruct tries as [|tries]; [done|]. apply IH.
Qed.

Lemma openbsdFromFile_cleans currentMTU mtu n :
  cleans (openbsdFromFile refuse currentMTU mtu) bsdClose (n, [TunFile]) [TunFile; RouteSocket; Listener] [].
Proof. unfold cleans, openbsdFromFile, onSocket, orElse, deferred. destruct (currentMTU =? mtu); cbn; compare. Qed.

Lemma openbsdCreateTUN_cleans nameOk numbered busy currentMTU mtu n :
  cleans (openbsdCreateTUN refuse nameOk numbered busy currentMTU mtu) bsdClose (n, []) [TunFile; RouteSocket; Listener] [].
Proof.
  unfold cleans, openbsdCreateTUN. destruct nameOk; [|cbn; same]. cbn [negb]. unfold orElse at 1. destruct numbered.
  - cbn. destruct (refuse n); [same|]. apply openbsdFromFile_cleans.
  - pose proof (openAny_ends busy 256 n) as H. destruct (openAny refuse busy 256 (n, [])) as [[k rs] [[]|]]; cbn in H; subst rs; [|same].
    apply openbsdFromFile_cleans.
Qed.

Lemma freebsdCreateTUN_cleans named nameOk exists_ n :
  cleans (freebsdCreateTUN refuse named nameOk exists_) (freebsdClose refuse) (n, []) [TunFile; RouteSocket; Listener; Interface] [Interface].
Proof.
  unfold cleans, freebsdCreateTUN, freebsdFromFile, freebsdClose, undo, tunDestroy, onSocket, orElse, deferred, ignoring.
  destruct nameOk, exists_, named; cbn; compare.
Qed.

Lemma windowsCreateTUN_cleans n : cleans (windowsCreateTUN refuse) windowsClose (n, []) [Adapter; Session] [].
Proof. unfold cleans, windowsCreateTUN, orElse. cbn. compare. Qed.

Lemma linuxFromFile_cleans n :
  cleans (linuxFromFile refuse) linuxClose (n, [TunFile]) [TunFile; NetlinkSocket; CancelPipe; Listener; Listener]
    [TunFile; NetlinkSocket; CancelPipe; Listener; Listener].
Proof. unfold cleans, linuxFromFile, createNetlinkSocket, onSocket, orElse, deferred. cbn. compare. Qed.

(** C27: whichever system calls fail, making a device on macOS, OpenBSD and
    Windows either leaves nothing open or makes the device, whose closing leaves
    nothing open; on FreeBSD no descriptor is left, but the interface may be.  On
    Linux the device that is made has one file, one socket, one pipe and two
    listeners, and closing it leaves nothing. *)
Theorem create_cleans n nameOk numbered named exists_ busy currentMTU mtu :
  cleans (darwinCreateTUN refuse nameOk mtu) bsdClose (n, []) [TunFile; RouteSocket; Listener] []
  /\ cleans (openbsdCreateTUN refuse nameOk numbered busy currentMTU mtu) bsdClose (n, []) [TunFile; RouteSocket; Listener] []
  /\ cleans (freebsdCreateTUN refuse named nameOk exists_) (freebsdClose refuse) (n, []) [TunFile; RouteSocket; Listener; Interface] [Interface]
  /\ cleans (windowsCreateTUN refuse) windowsClose (n, []) [Adapter; Session] []
  /\ match linuxCreateTUN refuse (n, []) with
     | (s, Some _) => s.2 ≡ₚ [TunFile; NetlinkSocket; CancelPipe; Listener; Listener] /\ (linuxClose s).1.2 = []
     | (_, None) => True
     end.
Proof.
  split_and!; [apply darwinCreateTUN_cleans|apply openbsdCreateTUN_cleans|apply freebsdCreateTUN_cleans|apply windowsCreateTUN_cleans|].
  unfold linuxCreateTUN, linuxFromFile, createNetlinkSocket, onSocket, orElse, deferred, ignoring. cbn. calls; try done. split; same.
Qed.
End Cleans.

(** On Linux a call that fails leaves the device, or its socket, open; a device
    whose MTU cannot be set is not closed, and its listeners run on a socket that is. *)
Definition failsAt (k n : nat) : bool := (n =? k)%nat.
Example linux_leaks :
  (linuxCreateTUN (failsAt 2) (0%nat, [])).1.2 = [TunFd]
  /\ (linuxCreateTUN (failsAt 9) (0%nat, [])).1.2 = [NetlinkSocket; TunFile]
  /\ (linuxCreateTUN (failsAt 12) (0%nat, [])).1.2 = [Listener; Listener; CancelPipe; TunFile].
Proof. done. Qed.

(** On FreeBSD the interface stays when a call fails after its options are set. *)
Example freebsd_leaves_interface :
  freebsdCreateTUN (failsAt 9) true true false (0%nat, []) = ((10%nat, [Interface]), None).
Proof. done. Qed.
