(* ===== verification/AsyncFile.v ===== *)
(** Files with asynchronous input and output ([ipc/namedpipe/file.go]): the
    deadlines of a file, whose timers run beside the calls that set them, and the
    closing of a file among the operations that are under way. *)
From S2P Require Import Prelude.

(** An invariant of the steps holds of what is reached. *)
Lemma rtc_keeps {A} (R : A -> A -> Prop) (P : A -> Prop) x y : (forall a b, P a -> R a b -> P b) -> P x -> rtc R x y -> P y.
Proof. intros HR Hx H. induction H; eauto. Qed.

(** ** Errors *)

(** The errors that the code tells apart, of the system and of Go, and any other. *)
Inductive werr := Success | IoPending | OperationAborted | BrokenPipe | MoreData | NoData | PipeConnected | PipeBusy
  | ErrClosed | ErrDeadlineExceeded | ErrEOF | ErrNetClosed | ErrClosedPipe | Other (code : Z).
#[export] Instance werr_eq_dec : EqDecision werr.
Proof. solve_decision. Defined.

(** ** Deadlines *)

(** A timer of the runtime: its callback has yet to run, to store the flag, to
    close the channel, or has returned. *)
Inductive timerAt := Armed | Fired | Stored | Over.
#[export] Instance timerAt_eq_dec : EqDecision timerAt.
Proof. solve_decision. Defined.

(** Where [set] is, which holds [setLock]; a deadline of [None] is the zero time. *)
Inductive setAt := Idle | Begun (d : option Z) | Waits (d : option Z) | Off (d : option Z) | Cleared (d : option Z)
  | Renewed (d : option Z) | Stores | Closes.
#[export] Instance setAt_eq_dec : EqDecision setAt.
Proof. solve_decision. Defined.

(** Every channel that was made, and whether it is closed; the last one is
    [d.channel].  [asked] is what the last call has asked for: nothing, a time to
    come or one that is past. *)
Inductive request := Never | Coming | Past.
Record deadlineHandler := mkHandler { channels : list bool; timer : option timerAt; timedout : bool; at_ : setAt; asked : request }.
#[export] Instance deadlineHandler_settable : Settable deadlineHandler :=
  fun d => mkHandler (channels d) (timer d) (timedout d) (at_ d) (asked d).

(** As [makeFile] leaves it. *)
Definition newHandler : deadlineHandler := mkHandler [false] None false Idle Never.

Definition channelClosed (d : deadlineHandler) : bool := default false (last (channels d)).
(** [close] of a channel that is closed panics. *)
Definition closeChannel (d : deadlineHandler) : option deadlineHandler :=
  if channelClosed d then None else Some (d <| channels ::= fun cs => take (pred (length cs)) cs ++ [true] |>).

(** A turn waits, panics or goes on. *)
Inductive turn (A : Type) := Blocks | Panics | Goes (a : A).
Arguments Blocks {A}. Arguments Panics {A}. Arguments Goes {A}.

(** The turns of [set], at the time [now] when it looks at the clock. *)
Definition setTurn (now : Z) (d : deadlineHandler) : turn deadlineHandler :=
  match at_ d with
  | Idle => Blocks
  | Begun x =>
      match timer d with
      | None => Goes (d <| at_ := Off x |>)
      | Some Armed => Goes (d <| timer := None |> <| at_ := Off x |>)   (* Stop returns true *)
      | Some _ => Goes (d <| at_ := Waits x |>)
      end
  | Waits x => if channelClosed d then Goes (d <| timer := None |> <| at_ := Off x |>) else Blocks
  | Off x => Goes (d <| timedout := false |> <| at_ := Cleared x |>)
  | Cleared x =>
      Goes (if channelClosed d then d <| channels ::= fun cs => cs ++ [false] |> <| at_ := Renewed x |> else d <| at_ := Renewed x |>)
  | Renewed None => Goes (d <| at_ := Idle |> <| asked := Never |>)
  | Renewed (Some t) =>
      if now <? t then Goes (d <| timer := Some Armed |> <| at_ := Idle |> <| asked := Coming |>)
      else Goes (d <| at_ := Stores |> <| asked := Past |>)
  | Stores => Goes (d <| timedout := true |> <| at_ := Closes |>)
  | Closes => match closeChannel d with Some d => Goes (d <| at_ := Idle |>) | None => Panics end
  end.

(** The turns of the callback, [timeoutIO], once its time has come. *)
Definition callbackTurn (d : deadlineHandler) : turn deadlineHandler :=
  match timer d with
  | Some Fired => Goes (d <| timedout := true |> <| timer := Some Stored |>)
  | Some Stored => match closeChannel d with Some d => Goes (d <| timer := Some Over |>) | None => Panics end
  | _ => Blocks
  end.

(** What goes on without a new call and without time passing. *)
Inductive settles : deadlineHandler -> deadlineHandler -> Prop :=
  | se_set now d d' : setTurn now d = Goes d' -> settles d d'
  | se_callback d d' : callbackTurn d = Goes d' -> settles d d'.
Inductive handles : deadlineHandler -> deadlineHandler -> Prop :=
  | h_settles d d' : settles d d' -> handles d d'
  | h_call d x : at_ d = Idle -> handles d (d <| at_ := Begun x |>)
  | h_fires d : timer d = Some Armed -> handles d (d <| timer := Some Fired |>).

(** *** The invariant *)

(** What flag and channel say while a timer is at a place, or while there is none
    and [set] is at one. *)
Definition timerShows (t : timerAt) (flag shut : bool) : Prop :=
  match t with
  | Armed | Fired => flag = false /\ shut = false
  | Stored => flag = true /\ shut = false
  | Over => flag = true /\ shut = true
  end.
Definition restShows (a : setAt) (q : request) (flag shut : bool) : Prop :=
  match a with
  | Idle => flag = shut /\ q <> Coming /\ (flag = true <-> q = Past)
  | Begun _ | Off _ => flag = shut
  | Waits _ => False
  | Cleared _ => flag = false
  | Renewed _ | Stores => flag = false /\ shut = false
  | Closes => flag = true /\ shut = false /\ q = Past
  end.
Record handler_ok (d : deadlineHandler) : Prop := {
  ho_old : exists olds, channels d = replicate olds true ++ [channelClosed d];
  ho_shows : match timer d with
             | Some t => timerShows t (timedout d) (channelClosed d) /\ 
                         match at_ d with Idle => asked d = Coming | Begun _ => True | Waits _ => t <> Armed | _ => False end
             | None => restShows (at_ d) (asked d) (timedout d) (channelClosed d) /\ (at_ d = Stores -> asked d = Past)
             end }.

Lemma channelClosed_snoc cs t b f a q : channelClosed (mkHandler (cs ++ [b]) t f a q) = b.
Proof. unfold channelClosed. cbn. by rewrite last_snoc. Qed.

Lemma closeChannel_ok d olds : channels d = replicate olds true ++ [false] -> channelClosed d = false ->
  closeChannel d = Some (d <| channels := replicate olds true ++ [true] |>).
Proof.
  intros E H. unfold closeChannel. rewrite H. destruct d; cbn in *. subst. do 2 f_equal.
  rewrite length_app, length_replicate. cbn. rewrite Nat.add_1_r. cbn. f_equal. by rewrite take_app_length' by by rewrite length_replicate.
Qed.

(** A handler by its last channel. *)
Definition handlerAt (olds : nat) (shut : bool) (t : option timerAt) (flag : bool) (a : setAt) (q : request) : deadlineHandler :=
  mkHandler (replicate olds true ++ [shut]) t flag a q.
Lemma handlerAt_closed olds shut t flag a q : channelClosed (handlerAt olds shut t flag a q) = shut.
Proof. apply channelClosed_snoc. Qed.
Definition shows (t : option timerAt) (a : setAt) (q : request) (flag shut : bool) : Prop :=
  match t with
  | Some t => timerShows t flag shut /\ match a with Idle => q = Coming | Begun _ => True | Waits _ => t <> Armed | _ => False end
  | None => restShows a q flag shut /\ (a = Stores -> q = Past)
  end.
Lemma handler_ok_at d : handler_ok d <-> exists olds shut t flag a q, d = handlerAt olds shut t flag a q /\ shows t a q flag shut.
Proof.
  split.
  - intros [[olds E] H]. exists olds, (channelClosed d), (timer d), (timedout d), (at_ d), (asked d). split; [|done].
    destruct d; cbn in *. unfold handlerAt. by f_equal.
  - intros (olds & shut & t & flag & a & q & -> & H). split; rewrite handlerAt_closed; [by exists olds|done].
Qed.

Lemma closeChannel_at olds shut t flag a q : closeChannel (handlerAt olds shut t flag a q) =
  if shut then None else Some (handlerAt olds true t flag a q).
Proof.
  destruct shut; [unfold closeChannel; by rewrite handlerAt_closed|]. by rewrite (closeChannel_ok _ olds) by first [done | apply handlerAt_closed].
Qed.

(** The turns on handlers of this form. *)
Lemma setTurn_at now olds shut t flag a q : setTurn now (handlerAt olds shut t flag a q) =
  match a with
  | Idle => Blocks
  | Begun x => match t with None => Goes (handlerAt olds shut None flag (Off x) q) | Some Armed => Goes (handlerAt olds shut None flag (Off x) q)
               | Some t => Goes (handlerAt olds shut (Some t) flag (Waits x) q) end
  | Waits x => if shut then Goes (handlerAt olds true None flag (Off x) q) else Blocks
  | Off x => Goes (handlerAt olds shut t false (Cleared x) q)
  | Cleared x => Goes (if shut then handlerAt (S olds) false t flag (Renewed x) q else handlerAt olds false t flag (Renewed x) q)
  | Renewed None => Goes (handlerAt olds shut t flag Idle Never)
  | Renewed (Some d) => if now <? d then Goes (handlerAt olds shut (Some Armed) flag Idle Coming) else Goes (handlerAt olds shut t flag Stores Past)
  | Stores => Goes (handlerAt olds shut t true Closes q)
  | Closes => if shut then Panics else Goes (handlerAt olds true t flag Idle q)
  end.
Proof.
  unfold setTurn. rewrite handlerAt_closed, closeChannel_at. cbn -[replicate]. destruct a as [|x|x|x|x|[x|]| |]; cbn -[replicate]; try done.
  all: destruct shut; cbn -[replicate]; try done; try (by destruct t as [[]|]); try (by destruct (now <? x)).
  unfold handlerAt. cbn -[replicate]. by rewrite (replicate_S_end olds).
Qed.
Lemma callbackTurn_at olds shut t flag a q : callbackTurn (handlerAt olds shut t flag a q) =
  match t with
  | Some Fired => Goes (handlerAt olds shut (Some Stored) true a q)
  | Some Stored => if shut then Panics else Goes (handlerAt olds true (Some Over) flag a q)
  | _ => Blocks
  end.
Proof. unfold callbackTurn. cbn -[replicate]. destruct t as [[]|]; try done. rewrite closeChannel_at. by destruct shut. Qed.

(** Turns keep the invariant and do not panic. *)
Lemma setTurn_ok now d : handler_ok d -> match setTurn now d with Blocks => True | Panics => False | Goes d' => handler_ok d' end.
Proof.
  intros (olds & shut & t & flag & a & q & -> & H)%handler_ok_at. rewrite setTurn_at. unfold shows in H.
  destruct a as [|x|x|x|x|[x|]| |], t as [[]|], shut; cbn in H; try tauto; try (destruct H as ((? & ?) & ?); done); try (destruct H as ((? & ? & ?) & ?); done);
    try destruct (now <? x); cbn -[replicate]; try done; apply handler_ok_at; do 6 eexists; (split; [reflexivity|]); cbn; intuition (try congruence).
Qed.
Lemma callbackTurn_ok d : handler_ok d -> match callbackTurn d with Blocks => True | Panics => False | Goes d' => handler_ok d' end.
Proof.
  intros (olds & shut & t & flag & a & q & -> & H)%handler_ok_at. rewrite callbackTurn_at. unfold shows in H.
  destruct t as [[]|]; try done; cbn in H; [|destruct shut; [by destruct H as ((_ & [=]) & _)|]]; apply handler_ok_at; do 6 eexists; (split; [reflexivity|]);
    cbn; destruct a; intuition congruence.
Qed.
Lemma handles_ok d d' : handler_ok d -> handles d d' -> handler_ok d'.
Proof.
  intros Hd Hh. destruct Hh as [e e' Hs|e x E|e E]; [destruct Hs as [now e e' E|e e' E]| |].
  - pose proof (setTurn_ok now e Hd) as H. by rewrite E in H.
  - pose proof (callbackTurn_ok e Hd) as H. by rewrite E in H.
  - apply handler_ok_at in Hd as (olds & shut & t & flag & a & q & -> & H). cbn in E. subst a. apply handler_ok_at.
    exists olds, shut, t, flag, (Begun x), q. split; [done|]. destruct t; cbn in *; intuition congruence.
  - apply handler_ok_at in Hd as (olds & shut & t & flag & a & q & -> & H). cbn in E. subst t. apply handler_ok_at.
    exists olds, shut, (Some Fired), flag, a, q. split; [done|]. cbn in *. destruct a; intuition congruence.
Qed.

Lemma newHandler_ok : handler_ok newHandler.
Proof. apply handler_ok_at. exists 0%nat, false, None, false, Idle, Never. split; [done|]. cbn. by split_and!. Qed.
Lemma handler_reach d : rtc handles newHandler d -> handler_ok d.
Proof. apply rtc_keeps; [apply handles_ok|apply newHandler_ok]. Qed.

(** *** A call ends *)

Definition setLeft (a : setAt) : nat :=
  match a with Idle => 0 | Begun _ => 9 | Waits _ => 8 | Off _ => 7 | Cleared _ => 6 | Renewed _ => 5 | Stores => 4 | Closes => 3 end.
Definition timerLeft (t : option timerAt) : nat := match t with Some Fired => 2 | Some Stored => 1 | _ => 0 end.
Definition handlerLeft (d : deadlineHandler) : nat := (setLeft (at_ d) + timerLeft (timer d))%nat.

Lemma settles_left d d' : handler_ok d -> settles d d' -> handler_ok d' /\ (handlerLeft d' < handlerLeft d)%nat.
Proof.
  intros Hd Hs. split; [by eapply handles_ok, h_settles|].
  apply handler_ok_at in Hd as (olds & shut & t & flag & a & q & -> & H). unfold handlerLeft. inv Hs as [now ? ? E|? ? E].
  - rewrite setTurn_at in E. destruct a as [|x|x|x|x|[x|]| |], t as [[]|], shut; cbn in H; try tauto; try destruct (now <? x); 
      cbn -[replicate] in E; injection E as <- || discriminate E; cbn; lia.
  - rewrite callbackTurn_at in E. destruct t as [[]|]; try done; [|destruct shut; [done|]]; injection E as <-; cbn; lia.
Qed.

Lemma settles_bound n d d' : nsteps settles n d d' -> handler_ok d -> handler_ok d' /\ (n + handlerLeft d' <= handlerLeft d)%nat.
Proof.
  induction 1 as [|n d1 d2 d3 H _ IH]; [done|]. intros Hd. destruct (settles_left _ _ Hd H) as [Hd2 ?]. destruct (IH Hd2). split; [done|lia].
Qed.

(** Where nothing goes on the call has returned. *)
Lemma settled d : handler_ok d -> (forall d', ~ settles d d') -> at_ d = Idle.
Proof.
  intros Hd Hst. pose proof Hd as (olds & shut & t & flag & a & q & -> & H)%handler_ok_at.
  pose proof (fun d' E => Hst d' (se_set 0 _ _ E)) as H1. pose proof (fun d' E => Hst d' (se_callback _ _ E)) as H2. clear Hst.
  rewrite setTurn_at in H1. rewrite callbackTurn_at in H2.
  destruct a as [|x|x|x|x|[x|]| |], t as [[]|], shut; cbn in H; try tauto; exfalso; try destruct (0 <? x);
    solve [exact (H1 _ eq_refl) | exact (H2 _ eq_refl) | intuition congruence].
Qed.

(** C23: however calls that set a deadline and the callback of its timer interleave, no
    channel is closed twice.  A channel is replaced only when it is closed, so an
    operation that waits for an earlier one has been released, and the others wait
    for the one that a later deadline will close.  Between calls flag and channel
    say what was asked for: with no deadline neither is set, with one that is past
    both are, and with one to come they follow its timer.  A call ends, by itself or
    with the callback that it waits for, after eleven turns at most. *)
Theorem deadlines_hold d : rtc handles newHandler d ->
  (forall now, setTurn now d <> Panics) /\ callbackTurn d <> Panics
  /\ (forall i, channels d !! i = Some false -> S i = length (channels d))
  /\ (at_ d = Idle -> match asked d with
       | Never => timer d = None /\ timedout d = false /\ channelClosed d = false
       | Coming => exists t, timer d = Some t /\ timerShows t (timedout d) (channelClosed d)
       | Past => timer d = None /\ timedout d = true /\ channelClosed d = true
       end)
  /\ forall n d', nsteps settles n d d' -> (n <= 11)%nat /\ ((forall d'', ~ settles d' d'') -> at_ d' = Idle).
Proof.
  intros Hd%handler_reach. split_and!.
  - intros now E. pose proof (setTurn_ok now d Hd) as H. by rewrite E in H.
  - intros E. pose proof (callbackTurn_ok d Hd) as H. by rewrite E in H.
  - destruct Hd as [[olds E] _]. intros i Hi. rewrite E in *. rewrite length_app, length_replicate. cbn.
    apply lookup_app_Some in Hi as [Hi|[Hge Hi]]; [by apply lookup_replicate in Hi as [? _]|].
    rewrite length_replicate in *. apply list_lookup_singleton_Some in Hi. lia.
  - intros E. destruct Hd as [_ H]. destruct (timer d) as [t|]; rewrite E in H.
    + destruct H as [H ->]. by exists t.
    + destruct H as [(H1 & H2 & H3) _]. rewrite <-H1. destruct (asked d), (timedout d); intuition congruence.
  - intros n d' Hn. destruct (settles_bound _ _ _ Hn Hd) as [Hd' Hb]. split; [|by apply settled].
    assert (handlerLeft d <= 11)%nat by (unfold handlerLeft, setLeft, timerLeft; destruct (at_ d), (timer d) as [[]|]; lia). lia.
Qed.

(** A deadline is set anew while the callback of the first is between its flag and
    its channel: the call waits, and makes a new channel. *)
Definition meetingCallback : deadlineHandler := mkHandler [false] (Some Stored) true (Waits (Some 9)) Coming.
Lemma deadlines_hold_witness : rtc handles newHandler meetingCallback /\ callbackTurn meetingCallback <> Panics
  /\ setTurn 0 meetingCallback = Blocks.
Proof.
  assert (rtc handles newHandler meetingCallback) as H.
  { eapply rtc_l; [apply (h_call _ (Some 5)); reflexivity|].
    do 4 (eapply rtc_l; [apply h_settles, (se_set 3); reflexivity|]). 
    eapply rtc_l; [apply h_fires; reflexivity|]. eapply rtc_l; [apply h_settles, se_callback; reflexivity|].
    eapply rtc_l; [apply (h_call _ (Some 9)); reflexivity|]. apply rtc_once, h_settles, (se_set 3). reflexivity. }
  split; [exact H|]. split; [|reflexivity]. exact (proj1 (proj2 (deadlines_hold meetingCallback H))).
Defined.

(** ** Operations *)

(** What the completion of an operation says: bytes and an error. *)
Definition ioResult : Type := Z * werr.
(** An operation: prepared, not yet begun; pending, before and at the select;
    waiting for the result that its cancellation gives; ended with a result. *)
Inductive phase := Prepared | Issued | Selecting | Late | Ended (r : ioResult).
Record ioOperation := mkOp { phaseOf : phase; cancelled : bool; completion : option ioResult }.
(** The calls of [Close]: before the lock, the two system calls after it, and back. *)
Inductive closerAt := Locking | Cancelling | Waiting | Returned.
#[export] Instance closerAt_eq_dec : EqDecision closerAt.
Proof. solve_decision. Defined.
(** [opened] is whether the handle is open, [released] how often it was closed. *)
Record file := mkFile { wg : Z; closing : bool; socket : bool; opened : bool; released : nat; operations : list ioOperation; closers : list closerAt }.
#[export] Instance file_settable : Settable file :=
  fun f => mkFile (wg f) (closing f) (socket f) (opened f) (released f) (operations f) (closers f).
Definition makeFile : file := mkFile 0 false false true 0 [] [].

Definition prepareIo (f : file) : option file :=
  if closing f then None else Some (f <| wg ::= Z.add 1 |> <| operations ::= fun os => os ++ [mkOp Prepared false None] |>).

(** What [asyncIo] makes of a completion; [wsa] is the answer of
    [WSAGetOverlappedResult]. *)
Definition asyncDone (closing socket : bool) (wsa : werr) (r : ioResult) : ioResult :=
  let '(bytes, err) := r in
  if bool_decide (err = OperationAborted) then (bytes, if closing then ErrClosed else err)
  else if negb (bool_decide (err = Success)) && socket then (bytes, wsa) else (bytes, err).
Definition asyncLate (r : ioResult) : ioResult :=
  let '(bytes, err) := r in (bytes, if bool_decide (err = OperationAborted) then ErrDeadlineExceeded else err).

(** The end of [Read], which turns a read of nothing into the end of the file. *)
Definition readEnd (want : Z) (r : ioResult) : ioResult :=
  let '(n, err) := r in
  if bool_decide (err = Success) && (n =? 0) && negb (want =? 0) then (0, ErrEOF)
  else if bool_decide (err = BrokenPipe) then (0, ErrEOF) else (n, err).

(** [CancelIoEx] of a handle reaches what the system has begun. *)
Definition cancelIo (o : ioOperation) : ioOperation :=
  match phaseOf o with Issued | Selecting | Late => mkOp (phaseOf o) true (completion o) | _ => o end.

(** The turns of an operation.  [late] is whether its deadline has passed, [answer]
    the system's to [ReadFile], [WriteFile] or [ConnectNamedPipe]; the result of
    the whole is put through [readEnd] by [Read].  The second component is
    [wg.Done]. *)
Definition opTurn (f : file) (late : bool) (answer wsa : werr) (bytes : Z) (o : ioOperation) : option (ioOperation * bool) :=
  match phaseOf o with
  | Prepared =>
      if late then Some (mkOp (Ended (0, ErrDeadlineExceeded)) (cancelled o) None, true)
      else if bool_decide (answer = IoPending) then Some (mkOp Issued (cancelled o) None, false)
      else Some (mkOp (Ended (bytes, answer)) (cancelled o) None, true)
  | Issued => Some (mkOp Selecting (cancelled o || closing f) (completion o), false)
  | Selecting =>
      match completion o with
      | Some r => Some (mkOp (Ended (asyncDone (closing f) (socket f) wsa r)) (cancelled o) (Some r), true)
      | None => if late then Some (mkOp Late true None, false) else None
      end
  | Late =>
      match completion o with Some r => Some (mkOp (Ended (asyncLate r)) (cancelled o) (Some r), true) | None => None end
  | Ended _ => None
  end.

(** The turns of [closeHandle]. *)
Definition closeTurn (f : file) (c : closerAt) : option (file * closerAt) :=
  match c with
  | Locking => Some (if closing f then (f, Returned) else (f <| closing := true |>, Cancelling))
  | Cancelling => Some (f <| operations ::= map cancelIo |>, Waiting)
  | Waiting => if wg f =? 0 then Some (f <| opened := false |> <| released ::= S |>, Returned) else None
  | Returned => None
  end.

Definition pending (o : ioOperation) : bool := match phaseOf o with Issued | Selecting | Late => true | _ => false end.
Definition complete (r : ioResult) (o : ioOperation) : ioOperation := mkOp (phaseOf o) (cancelled o) (Some r).

(** What goes on without new calls and without the other end: the system completes
    only what was cancelled. *)
Inductive winds : file -> file -> Prop :=
  | w_op f i o late answer wsa bytes o' ended : operations f !! i = Some o -> opTurn f late answer wsa bytes o = Some (o', ended) ->
      winds f (f <| operations ::= <[i := o']> |> <| wg := if ended then wg f - 1 else wg f |>)
  | w_aborted f i o r : operations f !! i = Some o -> pending o = true -> completion o = None -> cancelled o = true ->
      winds f (f <| operations ::= <[i := complete r o]> |>)
  | w_close f i c f' c' : closers f !! i = Some c -> closeTurn f c = Some (f', c') -> winds f (f' <| closers ::= <[i := c']> |>).
Inductive runs_ : file -> file -> Prop :=
  | r_winds f f' : winds f f' -> runs_ f f'
  | r_prepare f f' : prepareIo f = Some f' -> runs_ f f'
  | r_complete f i o r : operations f !! i = Some o -> pending o = true -> completion o = None ->
      runs_ f (f <| operations ::= <[i := complete r o]> |>)
  | r_close f : runs_ f (f <| closers ::= fun cs => cs ++ [Locking] |>).

(** *** The invariant *)

Definition live (o : ioOperation) : nat := match phaseOf o with Ended _ => 0 | _ => 1 end.
Definition active (c : closerAt) : nat := match c with Cancelling | Waiting => 1 | _ => 0 end.
(** An operation once [CancelIoEx] of the closing has been called. *)
Definition reached (o : ioOperation) : Prop :=
  match phaseOf o with Selecting => completion o = None -> cancelled o = true | _ => True end.
Definition op_ok (o : ioOperation) : Prop := match phaseOf o with Late => cancelled o = true | _ => True end.

Record file_ok (f : file) : Prop := {
  fi_wg : wg f = Z.of_nat (sum_list_with live (operations f));
  fi_active : sum_list_with active (closers f) = if closing f && opened f then 1%nat else 0%nat;
  fi_begun : forall c, c ∈ closers f -> c <> Locking -> closing f = true;
  fi_reached : Waiting ∈ closers f -> Forall reached (operations f);
  fi_ops : Forall op_ok (operations f);
  fi_opened : if opened f then released f = 0%nat
              else closing f = true /\ released f = 1%nat /\ sum_list_with live (operations f) = 0%nat }.

Lemma sum_insert {A} (w : A -> nat) l i x y : l !! i = Some x ->
  (sum_list_with w (<[i := y]> l) + w x = sum_list_with w l + w y)%nat.
Proof. revert i. induction l as [|z l IH]; intros [|i] E; simplify_eq/=; [lia|]. specialize (IH _ E). lia. Qed.
Lemma sum_lookup {A} (w : A -> nat) l i x : l !! i = Some x -> (w x <= sum_list_with w l)%nat.
Proof. intros H. pose proof (sum_insert w l i x x H). revert i H H0. induction l as [|z l IH]; intros [|i] E H; simplify_eq/=; [lia|]. specialize (IH _ E). lia. Qed.
Lemma sum_pos {A} (w : A -> nat) l : (0 < sum_list_with w l)%nat -> exists i x, l !! i = Some x /\ (0 < w x)%nat.
Proof.
  induction l as [|z l IH]; cbn; [lia|]. intros H. destruct (decide (0 < w z)%nat) as [Hz|Hz]; [by exists 0%nat, z|].
  destruct IH as (i & x & ? & ?); [lia|]. by exists (S i), x.
Qed.
Lemma elem_insert {A} (l : list A) i x y z : l !! i = Some x -> z ∈ <[i := y]> l -> z = y \/ z ∈ l.
Proof. intros _ Hz. apply list_elem_of_lookup in Hz as (j & Hj). apply list_lookup_insert_Some in Hj as [(_ & -> & _)|[_ Hj]]; [by left|]. right. by eapply list_elem_of_lookup_2. Qed.

(** A turn of an operation: what it counts, and that it keeps to what is known. *)
Lemma opTurn_ok f late answer wsa bytes o o' ended : opTurn f late answer wsa bytes o = Some (o', ended) ->
  live o = 1%nat /\ live o' = (if ended then 0%nat else 1%nat) /\ op_ok o' /\ (closing f = true -> reached o').
Proof.
  unfold opTurn, live, op_ok, reached. destruct o as [p c m]; cbn. destruct p as [| | | |r0], m as [r|]; cbn; intros H; repeat case_match; simplify_eq/=; try done;
    split_and!; auto; intros ->; by rewrite orb_true_r.
Qed.

Lemma complete_ok r o : pending o = true -> live (complete r o) = live o /\ op_ok (complete r o) = op_ok o /\ reached (complete r o).
Proof. intros _. unfold complete, live, op_ok, reached. destruct o as [[] c m]; cbn; by split_and!. Qed.

Lemma cancelIo_ok o : live (cancelIo o) = live o /\ (op_ok o -> op_ok (cancelIo o)) /\ reached (cancelIo o).
Proof. unfold cancelIo, live, op_ok, reached. destruct o as [[] c m]; cbn; by split_and!. Qed.

(** Changes of one operation. *)
Lemma op_changes f i o o' n : file_ok f -> operations f !! i = Some o -> op_ok o' -> (Waiting ∈ closers f -> reached o') ->
  live o = 1%nat -> n = wg f - 1 + Z.of_nat (live o') -> 
  file_ok (f <| operations ::= <[i := o']> |> <| wg := n |>).
Proof.
  intros [Hwg Ha Hb Hr Ho Hop] E Ho' Hr' Hl ->. pose proof (sum_insert live _ i o o' E) as Hsum. pose proof (sum_lookup live _ i o E).
  split; cbn; try done.
  - lia.
  - intros Hw. apply Forall_insert; auto.
  - by apply Forall_insert.
  - destruct (opened f); [done|]. destruct Hop as (? & ? & ?). lia.
Qed.
Lemma waiting_closes f : file_ok f -> Waiting ∈ closers f -> closing f = true.
Proof. intros H Hw. by apply (fi_begun _ H Waiting Hw). Qed.

Lemma winds_ok f f' : file_ok f -> winds f f' -> file_ok f'.
Proof.
  intros Hf Hw. destruct Hw as [f i o late answer wsa bytes o' ended E Et|f i o r E Ep Ec Ex|f i c f' c' E Et].
  - destruct (opTurn_ok _ _ _ _ _ _ _ _ Et) as (Hl & Hl' & Ho & Hr). eapply op_changes; eauto.
    + intros Hw. by apply Hr, waiting_closes.
    + rewrite Hl'. destruct ended; lia.
  - destruct (complete_ok r o Ep) as (Hl & Ho & Hr). assert (live o = 1%nat) as H1 by (unfold pending in Ep; unfold live; by destruct (phaseOf o)).
    change (file_ok (f <| operations ::= <[i := complete r o]> |>)). 
    replace (f <| operations ::= <[i := complete r o]> |>) with (f <| operations ::= <[i := complete r o]> |> <| wg := wg f |>) by (by destruct f).
    eapply op_changes; eauto; [|lia]. rewrite Ho. pose proof (fi_ops _ Hf) as Hall. by eapply Forall_lookup_1 in Hall.
  - pose proof Hf as [Hwg Ha Hb Hr Ho Hop]. pose proof (sum_insert active _ i c c' E) as Hsum.
    pose proof (sum_lookup active _ i c E) as Hle. pose proof (list_elem_of_lookup_2 _ _ _ E) as Hin.
    destruct c; cbn in Et.
    + destruct (closing f) eqn:Ecl; simplify_eq/=.
      * split; cbn; rewrite ?Ecl; try done; [cbn in *; lia|]. intros Hw. apply Hr. by destruct (elem_insert _ _ _ _ _ E Hw).
      * split; cbn; try done.
        -- cbn in *. destruct (opened f); [lia|]. by destruct Hop.
        -- intros Hw. destruct (elem_insert _ _ _ _ _ E Hw) as [|Hw']; [done|]. by apply Hr.
        -- destruct (opened f); [done|]. by destruct Hop.
    + simplify_eq/=. assert (sum_list_with live (map cancelIo (operations f)) = sum_list_with live (operations f)) as El.
      { clear. induction (operations f) as [|o os IH]; cbn; [done|]. rewrite IH. by rewrite (proj1 (cancelIo_ok o)). }
      split; cbn; rewrite ?El; try done.
      * cbn in *. lia.
      * intros c Hc Hn. apply (Hb Cancelling); done.
      * intros _. apply Forall_map, Forall_forall. intros o _. apply cancelIo_ok.
      * apply Forall_map. eapply Forall_impl; [exact Ho|]. intros o. apply cancelIo_ok.
    + destruct (wg f =? 0) eqn:Ew; simplify_eq/=. assert (closing f = true) as Ecl by by apply (Hb Waiting).
      rewrite Ecl in Ha. split; cbn; rewrite ?Ecl; try done.
      * cbn in *. destruct (opened f); lia.
      * intros Hw. apply Hr. by destruct (elem_insert _ _ _ _ _ E Hw).
      * cbn in *. destruct (opened f); [|lia]. split_and!; [done|by f_equal|lia].
    + done.
Qed.

Lemma makeFile_ok : file_ok makeFile.
Proof. split; cbn; try done; by intros ? ?%elem_of_nil. Qed.

Lemma runs_ok f f' : file_ok f -> runs_ f f' -> file_ok f'.
Proof.
  intros Hf Hst. destruct Hst as [f f' Hw|f f' E|f i o r E Ep Ec|f].
  - by eapply winds_ok.
  - unfold prepareIo in E. destruct (closing f) eqn:Ecl; simplify_eq/=. pose proof Hf as [Hwg Ha Hb Hr Ho Hop].
    assert (~ Waiting ∈ closers f) as Hnw by (intros Hw; by rewrite (waiting_closes _ Hf Hw) in Ecl).
    split; cbn; rewrite ?Ecl in *; try done.
    + rewrite sum_list_with_app. cbn. lia.
    + apply Forall_app. split; [done|]. by constructor.
    + destruct (opened f); [done|]. by destruct Hop.
  - destruct (complete_ok r o Ep) as (Hl & Ho & Hr). assert (live o = 1%nat) as H1 by (unfold pending in Ep; unfold live; by destruct (phaseOf o)).
    replace (f <| operations ::= <[i := complete r o]> |>) with (f <| operations ::= <[i := complete r o]> |> <| wg := wg f |>) by (by destruct f).
    eapply op_changes; eauto; [|lia]. rewrite Ho. pose proof (fi_ops _ Hf) as Hall. by eapply Forall_lookup_1 in Hall.
  - destruct Hf as [Hwg Ha Hb Hr Ho Hop]. split; cbn; try done.
    + rewrite sum_list_with_app. cbn. lia.
    + intros c [Hc|Hc]%elem_of_app Hn; [by apply (Hb c)|]. by apply list_elem_of_singleton in Hc.
    + intros [Hw|Hw]%elem_of_app; [auto|]. by apply list_elem_of_singleton in Hw.
Qed.
Lemma file_reach f : rtc runs_ makeFile f -> file_ok f.
Proof. apply rtc_keeps; [apply runs_ok|apply makeFile_ok]. Qed.

(** *** The closing ends *)

Definition opLeft (o : ioOperation) : nat :=
  match phaseOf o with
  | Prepared => 8 | Ended _ => 0
  | Issued => 6 + (match completion o with Some _ => 0 | None => 1 end) | Selecting => 4 + (match completion o with Some _ => 0 | None => 1 end) | Late => 2 + (match completion o with Some _ => 0 | None => 1 end)
  end.
Definition closerLeft (c : closerAt) : nat := match c with Locking => 3 | Cancelling => 2 | Waiting => 1 | Returned => 0 end.
Definition fileLeft (f : file) : nat := (sum_list_with opLeft (operations f) + sum_list_with closerLeft (closers f))%nat.

Lemma opTurn_left f late answer wsa bytes o o' ended : opTurn f late answer wsa bytes o = Some (o', ended) -> (opLeft o' < opLeft o)%nat.
Proof. unfold opTurn, opLeft. destruct o as [[| | | |r0] c [r|]]; cbn; intros H; repeat case_match; simplify_eq/=; lia. Qed.

Lemma winds_left f f' : winds f f' -> (fileLeft f' < fileLeft f)%nat.
Proof.
  unfold fileLeft. intros [g i o late answer wsa bytes o' ended E Et|g i o r E Ep Ec _|g i c g' c' E Et]; cbn.
  - pose proof (sum_insert opLeft _ i o o' E). pose proof (opTurn_left _ _ _ _ _ _ _ _ Et). lia.
  - pose proof (sum_insert opLeft _ i o (complete r o) E). 
    assert (opLeft (complete r o) < opLeft o)%nat by (unfold opLeft, complete, pending in *; rewrite Ec; destruct (phaseOf o); cbn; done || lia). lia.
  - pose proof (sum_insert closerLeft _ i c c' E). destruct c; cbn in Et.
    + destruct (closing g); simplify_eq/=; lia.
    + simplify_eq/=. assert (sum_list_with opLeft (map cancelIo (operations g)) = sum_list_with opLeft (operations g)) as ->; [|lia].
      clear. induction (operations g) as [|[[] ? ?] os IH]; cbn; rewrite ?IH; done.
    + destruct (wg g =? 0); simplify_eq/=. lia.
    + done.
Qed.
Lemma winds_bound n f f' : nsteps winds n f f' -> (n + fileLeft f' <= fileLeft f)%nat.
Proof. induction 1 as [|n f1 f2 f3 H _ IH]; [lia|]. apply winds_left in H. lia. Qed.

(** An operation that is under way goes on, once the closing waits for it. *)
Lemma op_goes_on f i o : Waiting ∈ closers f -> file_ok f -> operations f !! i = Some o -> (0 < live o)%nat -> exists f', winds f f'.
Proof.
  intros Hw Hf E Hl. pose proof (fi_reached _ Hf Hw) as Hr. pose proof (fi_ops _ Hf) as Ho.
  pose proof (Forall_lookup_1 _ _ _ _ Hr E) as Hro. pose proof (Forall_lookup_1 _ _ _ _ Ho E) as Hoo. clear Hr Ho.
  assert ((exists o' ended, opTurn f false Success Success 0 o = Some (o', ended)) \/ (pending o = true /\ completion o = None /\ cancelled o = true)) as H.
  { unfold opTurn, reached, op_ok, live, pending in *. destruct o as [[| | | |r0] c [r|]]; cbn in *; eauto; lia. }
  destruct H as [(o' & ended & H)|(H1 & H2 & H3)]; eexists; [by eapply w_op|by apply (w_aborted f i o (0, OperationAborted))].
Qed.

Lemma stuck_closed f : file_ok f -> closing f = true -> (forall f', ~ winds f f') ->
  opened f = false /\ sum_list_with live (operations f) = 0%nat /\ Forall (eq Returned) (closers f).
Proof.
  intros Hf Hc Hst. pose proof Hf as [Hwg Ha Hb Hr Ho Hop]. rewrite Hc in Ha. destruct (opened f) eqn:Eo; cbn in Ha.
  - exfalso. destruct (sum_pos active (closers f)) as (i & c & Ei & Hi); [lia|]. destruct c; cbn in Hi; try lia.
    + destruct (Hst _ (w_close f i Cancelling _ _ Ei eq_refl)).
    + destruct (sum_list_with live (operations f)) as [|k] eqn:El.
      * assert (closeTurn f Waiting = Some (f <| opened := false |> <| released ::= S |>, Returned)) as Et by (cbn; by rewrite Hwg).
        destruct (Hst _ (w_close f i Waiting _ _ Ei Et)).
      * destruct (sum_pos live (operations f)) as (j & o & Ej & Hj); [lia|].
        destruct (op_goes_on f j o (list_elem_of_lookup_2 _ _ _ Ei) Hf Ej Hj) as [f' H]. by destruct (Hst f').
  - destruct Hop as (_ & _ & El). split_and!; [done|done|]. apply Forall_lookup_2. intros i c Ei.
    pose proof (sum_lookup active _ i c Ei) as Hle. destruct c; cbn in Hle; try lia; [|done]. 
    destruct (closeTurn f Locking) as [[f' c']|] eqn:Et; [|by cbn in Et]. destruct (Hst _ (w_close f i Locking _ _ Ei Et)).
Qed.

Lemma winds_reach n f f' : nsteps winds n f f' -> file_ok f -> file_ok f' /\ (closing f = true -> closing f' = true).
Proof.
  induction 1 as [|n f1 f2 f3 H _ IH]; [done|]. intros Hf. destruct (IH (winds_ok _ _ Hf H)) as [H3 Hc]. split; [done|]. intros H1. apply Hc.
  destruct H as [f i o late answer wsa bytes o' ended E Et|f i o r E Ep Ec Ex|f i c f' c' E Et]; [done|done|].
  destruct c; cbn in Et; repeat case_match; by simplify_eq/=.
Qed.

Lemma none_live os : sum_list_with live os = 0%nat -> Forall (fun o => exists r, phaseOf o = Ended r) os.
Proof. induction os as [|o os IH]; cbn; [constructor|]. intros H. constructor; [unfold live in H; destruct (phaseOf o); eauto; lia|apply IH; lia]. Qed.

(** C22: whatever operations and calls of Close meet on a file, no operation is under way
    on a handle that is closed, the handle is closed once at most, and none is begun
    after the closing has.  Once it has, all goes on to its end without the other
    end of the pipe: what the closing does not cancel cancels itself, every
    operation ends, the handle is closed and every Close returns. *)
Theorem file_closes f : rtc runs_ makeFile f ->
  (forall i o, operations f !! i = Some o -> (forall r, phaseOf o <> Ended r) -> opened f = true)
  /\ released f = (if opened f then 0 else 1)%nat
  /\ (closing f = true -> prepareIo f = None)
  /\ forall n f', nsteps winds n f f' -> (n <= fileLeft f)%nat
     /\ (closing f = true -> (forall f'', ~ winds f' f'') ->
         opened f' = false /\ released f' = 1%nat /\ Forall (fun o => exists r, phaseOf o = Ended r) (operations f') /\ Forall (eq Returned) (closers f')).
Proof.
  intros Hf%file_reach. split_and!.
  - intros i o E Hn. pose proof (fi_opened _ Hf) as H. destruct (opened f); [done|]. destruct H as (_ & _ & H).
    pose proof (sum_lookup live _ _ _ E) as Hle. unfold live at 1 in Hle. destruct (phaseOf o) as [| | | |r]; [lia..|by destruct (Hn r)].
  - pose proof (fi_opened _ Hf) as H. destruct (opened f); tauto.
  - unfold prepareIo. by intros ->.
  - intros n f' Hn. destruct (winds_reach _ _ _ Hn Hf) as [Hf' Hc]. split; [apply winds_bound in Hn; lia|].
    intros Hcl Hst. destruct (stuck_closed f' Hf' (Hc Hcl) Hst) as (Ho & Hl & Hr). pose proof (fi_opened _ Hf') as H. rewrite Ho in H.
    split_and!; [done|tauto|by apply none_live|done].
Qed.

(** A read that the closing has overtaken: it is pending, not yet at its select, and
    the system was told to cancel before it had begun. *)
Definition overtaken : file := mkFile 1 true false true 0 [mkOp Issued false None] [Waiting].
Lemma file_closes_witness : rtc runs_ makeFile overtaken /\ prepareIo overtaken = None
  /\ nsteps winds 4 overtaken (mkFile 0 true false false 1 [mkOp (Ended (0, ErrClosed)) true (Some (0, OperationAborted))] [Returned]).
Proof.
  assert (rtc runs_ makeFile overtaken) as H.
  { eapply rtc_l; [apply r_prepare; reflexivity|]. eapply rtc_l; [apply r_close|].
    eapply rtc_l; [apply r_winds, (w_close _ 0 Locking); reflexivity|]. eapply rtc_l; [apply r_winds, (w_close _ 0 Cancelling); reflexivity|].
    apply rtc_once, r_winds. refine (w_op _ 0 (mkOp Prepared false None) false IoPending Success 0 (mkOp Issued false None) false _ _); reflexivity. }
  split; [exact H|]. split; [exact (proj1 (proj2 (proj2 (file_closes overtaken H))) eq_refl)|].
  eapply nsteps_l; [refine (w_op overtaken 0 _ false Success Success 0 (mkOp Selecting true None) false _ _); reflexivity|].
  eapply nsteps_l; [refine (w_aborted _ 0 _ (0, OperationAborted) _ _ _ _); reflexivity|].
  eapply nsteps_l; [refine (w_op _ 0 _ false Success Success 0 _ true _ _); reflexivity|].
  eapply nsteps_l; [refine (w_close _ 0 Waiting _ _ _ _); reflexivity|]. constructor.
Defined.

(** What is read and what becomes of errors. *)
Example ends_of_a_read : readEnd 5 (0, Success) = (0, ErrEOF) /\ readEnd 0 (0, Success) = (0, Success) /\ readEnd 5 (3, BrokenPipe) = (0, ErrEOF)
  /\ readEnd 5 (asyncLate (0, OperationAborted)) = (0, ErrDeadlineExceeded) /\ asyncDone false true (Other 10054) (0, BrokenPipe) = (0, Other 10054).
Proof. done. Qed.
