(* ===== verification/NamedPipe.v ===== *)
(** Named pipes ([ipc/namedpipe/namedpipe.go]): pipes of messages read as streams,
    what dialling and listening hold, and the goroutine of a listener among the
    calls of Accept and Close. *)
From S2P Require Import Prelude AsyncFile Resources.
#[local] Open Scope sys_scope.

(** ** Pipes of messages *)

Record messageBytePipe := mkPipe { writeClosed : bool; readEOF : bool }.
#[export] Instance messageBytePipe_settable : Settable messageBytePipe := fun p => mkPipe (writeClosed p) (readEOF p).
Definition newPipe : messageBytePipe := mkPipe false false.

(** What becomes of the pipe, what is returned, and what is written to the file, if
    anything is: [flush] and [write] are the answers of the file. *)
Definition CloseWrite (flush write : werr) (p : messageBytePipe) : messageBytePipe * werr * option (list Z) :=
  if writeClosed p then (p, ErrClosedPipe, None)
  else if negb (bool_decide (flush = Success)) then (p <| writeClosed := false |>, flush, None)
  else if negb (bool_decide (write = Success)) then (p <| writeClosed := false |>, write, Some [])
  else (p <| writeClosed := true |>, Success, Some []).
Definition pipeWrite (write : ioResult) (b : list Z) (p : messageBytePipe) : ioResult * option (list Z) :=
  if writeClosed p then ((0, ErrClosedPipe), None)
  else if zlen b =? 0 then ((0, Success), None) else (write, Some b).
(** The read of the file is made only when the end was not seen. *)
Definition pipeRead (read : unit -> ioResult) (p : messageBytePipe) : messageBytePipe * ioResult :=
  if readEOF p then (p, (0, ErrEOF))
  else
    let '(n, err) := read tt in
    if bool_decide (err = ErrEOF) then (p <| readEOF := true |>, (n, err))
    else if bool_decide (err = MoreData) then (p, (n, Success)) else (p, (n, err)).

(** ** Between the two ends *)

Section Stream.
(** [ReadFile] of a pipe of messages, as the system documents it: an empty message
    is taken as one, of another one some bytes are, from its beginning, with or
    without the word that there are more. *)
Variable ReadFile : nat -> list (list Z) -> list Z * werr * list (list Z).
Definition readsMessages : Prop :=
  (forall len q, ReadFile len ([] :: q) = ([], Success, q))
  /\ forall len m q, m <> [] -> (0 < len)%nat -> exists k e, (0 < k <= Nat.min len (length m))%nat
     /\ ReadFile len (m :: q) = (take k m, e, if (k <? length m)%nat then drop k m :: q else q) /\ (e = Success \/ (e = MoreData /\ (k < length m)%nat)).

(** Reads into buffers of the lengths [lens], one after the other: the bytes of each
    with its error, and what is left. *)
Fixpoint reads (lens : list nat) (p : messageBytePipe) (q : list (list Z)) : list (list Z * werr) * messageBytePipe * list (list Z) :=
  match lens with
  | [] => ([], p, q)
  | len :: lens =>
      let '(bytes, err, q') := ReadFile len q in
      let '(p', (n, e)) := pipeRead (fun _ => readEnd (Z.of_nat len) (zlen bytes, err)) p in
      let q'' := if readEOF p then q else q' in
      let '(out, p'', q''') := reads lens p' q'' in
      ((take (Z.to_nat n) bytes, e) :: out, p'', q''')
  end.

(** The other end: each write is a message, and so is the closing. *)
Fixpoint writes (bs : list (list Z)) (p : messageBytePipe) : list (list Z) :=
  match bs with
  | [] => match CloseWrite Success Success p with (_, _, Some m) => [m] | (_, _, None) => [] end
  | b :: bs => match pipeWrite (zlen b, Success) b p with (_, Some m) => m :: writes bs p | (_, None) => writes bs p end
  end.
End Stream.

(** ** What is open *)

Inductive held := NtPath | Acl | PipeHandle | FirstHandle | ClientHandle | ListenerRoutine.
#[export] Instance held_eq_dec : EqDecision held.
Proof. solve_decision. Defined.

Section Handles.
Variable refuse : nat -> bool.
Abbreviation Sys := (Sys held).
Abbreviation call := (call refuse).
Abbreviation opens := (opens refuse).

(** The calls that can fail, in their order; [h] is the handle that is made. *)
Definition makeServerPipeHandle (h : held) (isFirstPipe givenSd : bool) : Sys unit :=
  call failing nothing next  (* UTF16PtrFromString *)
  opens NtPath failing nothing next
  deferred
    (if isFirstPipe && negb givenSd then
       opens Acl failing nothing next
       deferred
         (call failing nothing next  (* NewSecurityDescriptor *)
          call failing nothing next  (* SetDACL *)
          opens h failing nothing next nothing)
         (closes Acl)
     else opens h failing nothing next nothing)
    (closes NtPath).
(** [makeFile] registers the handle. *)
Definition fileOf : Sys unit := call failing nothing next call failing nothing next nothing.
Definition makeServerPipe : Sys unit :=
  makeServerPipeHandle PipeHandle false false failing nothing next fileOf failing closes PipeHandle next nothing.
(** On Windows 7 and 8 a first connection is made and closed. *)
Definition synthesize : Sys unit :=
  call failing nothing next opens ClientHandle failing nothing next closes ClientHandle.
Definition Listen (givenSd old : bool) : Sys unit :=
  makeServerPipeHandle FirstHandle true givenSd failing nothing next
  (if old then synthesize else nothing) next holds ListenerRoutine.
(** The end of [listenerRoutine]. *)
Definition listenerEnds : Sys unit := closes FirstHandle next closes ListenerRoutine.

(** Dialling, once the pipe is open. *)
Definition DialContext (expectOwner ownerEquals : bool) : Sys unit :=
  opens ClientHandle failing nothing next  (* tryDialPipe *)
  fun s =>
    let '(s, r) := (if expectOwner then
        call failing closes ClientHandle next  (* GetSecurityInfo *)
        call failing closes ClientHandle next  (* Owner *)
        if ownerEquals then nothing else closes ClientHandle next fails
      else nothing) s in
    match r with
    | None => (s, None)
    | Some _ =>
        (call failing closes ClientHandle next  (* GetNamedPipeInfo *)
         fileOf failing closes ClientHandle next nothing) s
    end.
End Handles.

(** The tries of [tryDialPipe]: what the context says, whether the path can be
    encoded, and the answer of [CreateFile]; [None] if it is still at it. *)
Record try := mkTry { tryDone : option werr; tryPath : option werr; tryOpen : werr }.
Fixpoint tryDialPipe (tries : list try) : option werr :=
  match tries with
  | [] => None
  | t :: tries =>
      match tryDone t, tryPath t with
      | Some err, _ | None, Some err => Some err
      | None, None => if bool_decide (tryOpen t = PipeBusy) then tryDialPipe tries else Some (tryOpen t)
      end
  end.
(** [DialTimeout]: how long, and what the error is; [ctxDeadline] is the context's. *)
Definition dialTimeout (timeout : Z) : Z := if timeout =? 0 then 2 * 10 ^ 9 else timeout.
Definition dialError (ctxDeadline : bool) (err : werr) : werr := if ctxDeadline then ErrDeadlineExceeded else err.

(** ** The listener *)

(** [connectPipe], by what [asyncIo] says. *)
Definition connectPipe (prepared : bool) (err : werr) : werr :=
  if negb prepared then ErrClosed else if bool_decide (err = Success) || bool_decide (err = PipeConnected) then Success else err.

(** Where the goroutine is: at its select; about to make a pipe for the Accept that
    it serves; waiting for a client, with what [connectPipe] has returned; having
    closed the pipe, waiting for that; about to answer; ending; ended. *)
Inductive routineAt := Choosing | Making | Connecting (done : option werr) | Aborting (done : option werr) | Answering (err : werr) | Ending | Finished.

(** The calls of Accept and Close at their selects, the Close that the goroutine
    has heard, what it has answered, how many calls it has turned away, and how many
    calls of Close have returned. *)
Record listener := mkListener { routine : routineAt; accepting : nat; closing_ : nat; heard : nat; answers : list werr; turnedAway : nat; closed_ : nat }.
#[export] Instance listener_settable : Settable listener :=
  fun l => mkListener (routine l) (accepting l) (closing_ l) (heard l) (answers l) (turnedAway l) (closed_ l).
Definition newListener : listener := mkListener Choosing 0 0 0 [] 0 0.

(** The end of the inner loop, which begins again when the client has gone. *)
Definition connected (err : werr) : routineAt := if bool_decide (err = NoData) then Making else Answering err.
(** An aborted connection. *)
Definition abortedError (err : werr) : werr := if bool_decide (err = Success) || bool_decide (err = ErrClosed) then ErrNetClosed else err.

(** The steps; [aborts] is what [connectPipe] may return for a connection that the
    closing aborts, or that had returned when it did.  The first steps go on without
    new calls and without a client. *)
Section Listener.
Variable aborts : werr -> Prop.
Inductive ends : listener -> listener -> Prop :=
  | e_close l n : routine l = Choosing -> closing_ l = S n -> ends l (l <| routine := Ending |> <| closing_ := n |> <| heard ::= S |>)
  | e_abort l d n : routine l = Connecting d -> closing_ l = S n -> (forall e, d = Some e -> aborts e) -> ends l (l <| routine := Aborting d |> <| closing_ := n |> <| heard ::= S |>)
  | e_aborted l e : routine l = Aborting None -> aborts e -> ends l (l <| routine := Aborting (Some e) |>)
  | e_after l e : routine l = Aborting (Some e) -> ends l (l <| routine := connected (abortedError e) |>)
  | e_answer l e : routine l = Answering e ->
      ends l (l <| routine := if bool_decide (e = ErrNetClosed) then Ending else Choosing |> <| answers ::= cons e |>)
  | e_end l : routine l = Ending -> ends l (l <| routine := Finished |>)
  | e_away l n : routine l = Finished -> accepting l = S n -> ends l (l <| accepting := n |> <| turnedAway ::= S |>)
  | e_closed l n : routine l = Finished -> closing_ l = S n -> ends l (l <| closing_ := n |> <| closed_ ::= S |>)
  | e_heard l n : routine l = Finished -> heard l = S n -> ends l (l <| heard := n |> <| closed_ ::= S |>).
Inductive serves : listener -> listener -> Prop :=
  | sv_ends l l' : ends l l' -> serves l l'
  | sv_Accept l : serves l (l <| accepting ::= S |>)
  | sv_Close l : serves l (l <| closing_ ::= S |>)
  | sv_accept l n : routine l = Choosing -> accepting l = S n -> serves l (l <| routine := Making |> <| accepting := n |>)
  | sv_make l e : routine l = Making -> serves l (l <| routine := if bool_decide (e = Success) then Connecting None else connected e |>)
  | sv_connect l e : routine l = Connecting None -> serves l (l <| routine := Connecting (Some e) |>)
  | sv_connected l e : routine l = Connecting (Some e) -> serves l (l <| routine := connected e |>).
End Listener.

(** ** What is read is what was written *)

Section StreamFacts.
Context {ReadFile : nat -> list (list Z) -> list Z * werr * list (list Z)} (Hread : readsMessages ReadFile).

Lemma reads_eof lens p q : readEOF p = true -> reads ReadFile lens p q = (replicate (length lens) ([], ErrEOF), p, q).
Proof.
  intros Hp. induction lens as [|len lens IH]; cbn; [done|]. destruct (ReadFile len q) as [[bytes err] q']. unfold pipeRead. rewrite Hp. by rewrite IH.
Qed.

(** Through the file and the pipe, the end and something. *)
Lemma pipeRead_eof len : (0 < len)%nat -> pipeRead (fun _ => readEnd (Z.of_nat len) (0, Success)) newPipe = (mkPipe false true, (0, ErrEOF)).
Proof. intros Hl. unfold pipeRead, readEnd. cbn -[bool_decide]. destruct (Z.eqb_spec (Z.of_nat len) 0); [lia|]. by rewrite !bool_decide_true by done. Qed.
Lemma pipeRead_some want k e : (0 < k)%nat -> e = Success \/ e = MoreData -> 
  pipeRead (fun _ => readEnd want (Z.of_nat k, e)) newPipe = (newPipe, (Z.of_nat k, Success)).
Proof.
  intros Hk He. unfold pipeRead, readEnd. cbn -[bool_decide]. destruct (Z.eqb_spec (Z.of_nat k) 0); [lia|]. rewrite andb_false_r.
  destruct He as [-> | ->]; vm_compute; done.
Qed.

(** One read of the end, and one of some of a message. *)
Lemma read_end len lens rest : (0 < len)%nat ->
  reads ReadFile (len :: lens) newPipe ([] :: rest) = (replicate (S (length lens)) ([], ErrEOF), mkPipe false true, rest).
Proof. intros Hl. cbn -[pipeRead readEnd]. rewrite (proj1 Hread). change (zlen []) with 0. rewrite pipeRead_eof by done. cbn. by rewrite reads_eof. Qed.
Lemma read_some len lens m q : (0 < len)%nat -> m <> [] -> exists k, (0 < k <= length m)%nat
  /\ reads ReadFile (len :: lens) newPipe (m :: q) =
     let '(out, p, q') := reads ReadFile lens newPipe (if (k <? length m)%nat then drop k m :: q else q) in ((take k m, Success) :: out, p, q').
Proof.
  intros Hl Hm. destruct (proj2 Hread len m q Hm Hl) as (k & e & Hk & E & He). exists k. split; [lia|]. cbn -[pipeRead readEnd]. rewrite E.
  assert (zlen (take k m) = Z.of_nat k) as -> by (rewrite length_take_le by lia; done).
  rewrite pipeRead_some by (try lia; by destruct He as [->|[-> _]]; auto).
  cbn -[take]. destruct (reads ReadFile lens newPipe _) as [[out p'] q']. by rewrite Nat2Z.id, take_take, Nat.min_id.
Qed.

(** Messages with something in them, up to an empty one. *)
Lemma stream_read lens : forall ms rest, Forall (fun len => 0 < len)%nat lens -> Forall (fun m => m <> []) ms -> (length (concat ms) < length lens)%nat ->
  exists chunks n, reads ReadFile lens newPipe (ms ++ [] :: rest) = (map (fun c => (c, Success)) chunks ++ replicate (S n) ([], ErrEOF), mkPipe false true, rest)
  /\ concat chunks = concat ms.
Proof.
  induction lens as [|len lens IH]; intros ms rest Hlens Hms Hlen; [cbn in Hlen; lia|]. apply Forall_cons in Hlens as [Hl Hlens].
  destruct ms as [|m ms].
  - exists [], (length lens). split; [|done]. cbn [app]. by rewrite read_end.
  - apply Forall_cons in Hms as [Hm Hms]. cbn [app]. destruct (read_some len lens m (ms ++ [] :: rest) Hl Hm) as (k & Hk & ->).
    cbn in Hlen. rewrite length_app in Hlen. set (ms' := if (k <? length m)%nat then drop k m :: ms else ms).
    assert (take k m ++ concat ms' = concat (m :: ms)) as Hcat.
    { unfold ms'. destruct (Nat.ltb_spec k (length m)); cbn; [by rewrite app_assoc, take_drop|]. by rewrite take_ge by lia. }
    destruct (IH ms' rest Hlens) as (chunks & n & E & Ec).
    + unfold ms'. destruct (Nat.ltb_spec k (length m)); [|done]. constructor; [|done]. intros Hd%(f_equal length). rewrite length_drop in Hd. cbn in Hd. lia.
    + apply (f_equal length) in Hcat. cbn in Hcat. rewrite !length_app, length_take in Hcat. lia.
    + exists (take k m :: chunks), n. split; [|cbn [concat map]; by rewrite Ec, Hcat].
      replace (if (k <? length m)%nat then drop k m :: ms ++ [] :: rest else ms ++ [] :: rest) with (ms' ++ [] :: rest) by (unfold ms'; by destruct (_ <? _)%nat).
      by rewrite E.
Qed.
End StreamFacts.

Lemma writes_messages bs : writes bs newPipe = List.filter (fun b => negb (zlen b =? 0)) bs ++ [[]].
Proof. induction bs as [|b bs IH]; [done|]. cbn. destruct (zlen b =? 0); cbn; by rewrite IH. Qed.

(** What one end writes before it closes its side is what the other end reads, byte
    for byte, however long the writes and the buffers are and wherever the system
    parts a message; an empty write does not end the stream, and after its end all
    that is read is the end. *)
Theorem pipe_streams ReadFile bs lens rest : readsMessages ReadFile -> Forall (fun len => 0 < len)%nat lens -> (length (concat bs) < length lens)%nat ->
  exists chunks n, reads ReadFile lens newPipe (writes bs newPipe ++ rest)
    = (map (fun c => (c, Success)) chunks ++ replicate (S n) ([], ErrEOF), mkPipe false true, rest)
  /\ concat chunks = concat bs.
Proof.
  intros Hread Hlens Hlen. rewrite writes_messages, <-app_assoc. cbn [app].
  assert (concat (List.filter (fun b => negb (zlen b =? 0)) bs) = concat bs) as Ec.
  { clear. induction bs as [|b bs IH]; cbn; [done|]. destruct (Z.eqb_spec (zlen b) 0) as [E|E]; cbn; [|by f_equal]. by destruct b. }
  rewrite <-Ec in *. apply (stream_read Hread); [done| |done]. apply Forall_forall. intros m Hm%list_elem_of_In%filter_In. destruct Hm as [_ Hm].
  intros ->. by cbn in Hm.
Qed.

(** A system that gives two bytes at a time, and a stream with an empty write in it. *)
Definition twoAtATime (len : nat) (q : list (list Z)) : list Z * werr * list (list Z) :=
  match q with
  | [] => ([], IoPending, [])
  | m :: q => let k := Nat.min 2 (Nat.min len (length m)) in
              (take k m, if (k <? length m)%nat then MoreData else Success, if (k <? length m)%nat then drop k m :: q else q)
  end.
Lemma twoAtATime_reads : readsMessages twoAtATime.
Proof.
  split; [intros len q; cbn [twoAtATime length]; by rewrite Nat.min_0_r|].
  intros len m q Hm Hl. exists (Nat.min 2 (Nat.min len (length m))). eexists. split; [destruct m; [done|cbn [length]; lia]|].
  split; [reflexivity|]. destruct (Nat.ltb_spec (Nat.min 2 (Nat.min len (length m))) (length m)); auto.
Qed.
Lemma pipe_streams_witness : readsMessages twoAtATime /\ exists chunks n,
  reads twoAtATime (replicate 6 4%nat) newPipe (writes [[1; 2; 3]; []; [4; 5]] newPipe ++ [[9]]) 
    = (map (fun c => (c, Success)) chunks ++ replicate (S n) ([], ErrEOF), mkPipe false true, [[9]])
  /\ concat chunks = [1; 2; 3; 4; 5].
Proof.
  split; [apply twoAtATime_reads|]. apply (pipe_streams twoAtATime [[1; 2; 3]; []; [4; 5]] (replicate 6 4%nat) [[9]] twoAtATime_reads).
  - repeat constructor.
  - vm_compute. lia.
Defined.

(** ** Nothing is left open *)

Section Cleans.
Variable refuse : nat -> bool.

Lemma makeServerPipeHandle_cleans h first sd n rs : h <> NtPath -> h <> Acl ->
  match makeServerPipeHandle refuse h first sd (n, rs) with
  | ((_, rs'), Some _) => rs' = h :: rs
  | ((_, rs'), None) => rs' = rs
  end.
Proof.
  intros H1 H2. unfold makeServerPipeHandle, orElse, deferred, call, opens, nothing. destruct (refuse n); [done|]. destruct (refuse (S n)); [done|].
  assert (forall (r : held) l, remove1 r (r :: l) = l) as Hr by (intros r l; unfold remove1; cbn; by rewrite decide_True by done).
  assert (forall (r r' : held) l, r <> r' -> remove1 r (r' :: r :: l) = r' :: l) as Hr'.
  { intros r r' l Hn. unfold remove1. cbn. rewrite decide_False by done. cbn. by rewrite decide_True by done. }
  destruct (first && negb sd); unfold closes; cbn -[remove1].
  - repeat (destruct (refuse _); cbn -[remove1]; [by rewrite ?Hr|]). by rewrite !Hr' by done.
  - destruct (refuse _); cbn -[remove1]; [by rewrite Hr|]. by rewrite Hr' by done.
Qed.

(** Dialling and the two ways to make a pipe leave nothing open when they fail, and
    their own handle when they do not. *)
Lemma pipes_clean n old sd expect equals :
  match makeServerPipe refuse (n, []) with ((_, rs), Some _) => rs = [PipeHandle] | ((_, rs), None) => rs = [] end
  /\ match Listen refuse sd old (n, []) with
     | (s, Some _) => s.2 ≡ₚ [FirstHandle; ListenerRoutine] /\ (listenerEnds s).1.2 = []
     | ((_, rs), None) => rs = []
     end
  /\ match DialContext refuse expect equals (n, []) with
     | ((_, rs), Some _) => rs = [ClientHandle] /\ (expect = true -> equals = true)
     | ((_, rs), None) => rs = []
     end.
Proof.
  split_and!.
  - pose proof (makeServerPipeHandle_cleans PipeHandle false false n [] ltac:(done) ltac:(done)) as H.
    unfold makeServerPipe, orElse at 1. destruct (makeServerPipeHandle _ _ _ _ _) as [[k rs] [[]|]]; subst; [|done].
    unfold fileOf, orElse. cbn. calls; done.
  - pose proof (makeServerPipeHandle_cleans FirstHandle true sd n [] ltac:(done) ltac:(done)) as H.
    unfold Listen, orElse at 1. destruct (makeServerPipeHandle _ _ _ _ _) as [[k rs] [[]|]]; subst; [|done].
    unfold ignoring, synthesize, orElse. destruct old; cbn; calls; (split; [same|done]).
  - unfold DialContext, fileOf, orElse, ignoring. destruct expect, equals; cbn; calls; done.
Qed.
End Cleans.

(** ** A listener that is closed *)

(** What [connectPipe] may say of a connection that the closing aborts: that the
    file was closed, or that a client came just before. *)
Definition abortsCleanly (e : werr) : Prop := e = Success \/ e = ErrClosed.
(** The goroutine has heard of a Close and ends. *)
Definition leaving (r : routineAt) : Prop :=
  match r with Aborting _ | Ending | Finished => True | Answering e => e = ErrNetClosed | _ => False end.
Record listener_ok (l : listener) : Prop := {
  lo_heard : (0 < heard l)%nat -> leaving (routine l);
  lo_aborting : forall e, routine l = Aborting (Some e) -> abortsCleanly e }.

Lemma abortedError_clean e : abortsCleanly e -> connected (abortedError e) = Answering ErrNetClosed.
Proof. by intros [-> | ->]. Qed.

Lemma ends_ok l l' : listener_ok l -> ends abortsCleanly l l' -> listener_ok l'.
Proof.
  intros [Hh Ha] H. destruct H as [l n E En|l d n E En Hd|l e E He|l e E|l e E|l E|l n E En|l n E En|l n E En]; rewrite E in *; split; cbn; try done.
  - intros e [= ->]. by apply Hd.
  - by intros e' [= <-].
  - intros _. by rewrite abortedError_clean by by apply Ha.
  - intros e' He'. by rewrite abortedError_clean in He' by by apply Ha.
  - intros Hn. specialize (Hh Hn). cbn in Hh. by rewrite bool_decide_true by done.
  - intros e'. by case_bool_decide.
  - by rewrite E.
  - by rewrite E.
  - by rewrite E.
  - by rewrite E.
  - by rewrite E.
  - by rewrite E.
Qed.

Lemma serves_ok l l' : listener_ok l -> serves abortsCleanly l l' -> listener_ok l'.
Proof.
  intros Hl H. destruct H as [l l' H|l|l|l n E En|l e E|l e E|l e E]; [by eapply ends_ok|by destruct Hl|by destruct Hl|..];
    destruct Hl as [Hh Ha]; rewrite E in *; split; cbn; try done; intros; try (by destruct Hh); unfold connected in *; repeat case_match; try done; by destruct Hh.
Qed.
Lemma listener_reach l : rtc (serves abortsCleanly) newListener l -> listener_ok l.
Proof. apply rtc_keeps; [apply serves_ok|]. by split; cbn; [lia|]. Qed.

Definition routineLeft (r : routineAt) : nat :=
  match r with Making => 8 | Connecting _ => 7 | Aborting None => 6 | Aborting (Some _) => 5 | Answering _ => 4 | Choosing => 3 | Ending => 2 | Finished => 1 end.
Definition listenerLeft (l : listener) : nat := (routineLeft (routine l) + accepting l + 2 * closing_ l + heard l)%nat.
Lemma ends_left l l' : listener_ok l -> ends abortsCleanly l l' -> (listenerLeft l' < listenerLeft l)%nat.
Proof.
  intros [_ Ha] H. unfold listenerLeft. destruct H as [l n E En|l d n E En Hd|l e E He|l e E|l e E|l E|l n E En|l n E En|l n E En]; cbn; rewrite ?E in *; cbn; try lia.
  - destruct d; lia.
  - rewrite abortedError_clean by by apply Ha. cbn. lia.
  - case_bool_decide; cbn; lia.
Qed.

(** Where a goroutine that leaves is stuck, it has ended and no call waits for it. *)
Lemma left_behind l : leaving (routine l) -> (forall l', ~ ends abortsCleanly l l') ->
  routine l = Finished /\ accepting l = 0%nat /\ closing_ l = 0%nat /\ heard l = 0%nat.
Proof.
  intros Hl Hst. destruct (routine l) as [| | |[e|]|e| |] eqn:E; try done.
  - by destruct (Hst _ (e_after _ _ e E)).
  - by destruct (Hst _ (e_aborted _ _ Success E (or_introl eq_refl))).
  - by destruct (Hst _ (e_answer _ _ e E)).
  - by destruct (Hst _ (e_end _ _ E)).
  - destruct (accepting l) eqn:E1; [|by destruct (Hst _ (e_away _ _ _ E E1))]. destruct (closing_ l) eqn:E2; [|by destruct (Hst _ (e_closed _ _ _ E E2))].
    destruct (heard l) eqn:E3; [|by destruct (Hst _ (e_heard _ _ _ E E3))]. done.
Qed.
Lemma ends_leaving l l' : listener_ok l -> ends abortsCleanly l l' -> leaving (routine l) -> leaving (routine l').
Proof.
  intros [_ Ha] H Hl. destruct H as [l n E En|l d n E En Hd|l e E He|l e E|l e E|l E|l n E En|l n E En|l n E En]; cbn; rewrite ?E in *; try done.
  - by rewrite abortedError_clean by by apply Ha.
  - cbn in Hl. by rewrite bool_decide_true by done.
Qed.

(** If a connection that the closing aborts ends in one of the two ways that the code
    expects, a Close that the goroutine has heard is carried out: it never serves
    another call, and after so many steps at most as [listenerLeft] says, without a
    client, it has ended and every call of Accept and Close has returned. *)
Theorem listener_closes l : rtc (serves abortsCleanly) newListener l ->
  ((0 < heard l)%nat -> leaving (routine l))
  /\ forall n l', nsteps (ends abortsCleanly) n l l' -> (n <= listenerLeft l)%nat
     /\ (leaving (routine l) -> (forall l'', ~ ends abortsCleanly l' l'') ->
         routine l' = Finished /\ accepting l' = 0%nat /\ closing_ l' = 0%nat /\ heard l' = 0%nat).
Proof.
  intros Hl%listener_reach. split; [apply Hl|]. intros n l' Hn.
  assert ((n + listenerLeft l' <= listenerLeft l)%nat /\ (leaving (routine l) -> leaving (routine l'))) as [Hb Hlv].
  { induction Hn as [|n l1 l2 l3 H _ IH]; [done|]. pose proof (ends_left _ _ Hl H). pose proof (ends_leaving _ _ Hl H). 
    destruct (IH (ends_ok _ _ Hl H)) as [? ?]. split; [lia|auto]. }
  split; [lia|]. intros H Hst. by apply left_behind; auto.
Qed.

(** A Close while a client is waited for, and another call of Accept behind it. *)
Definition midway : listener := mkListener (Aborting None) 1 0 1 [] 0 0.
Lemma listener_closes_witness : rtc (serves abortsCleanly) newListener midway /\ leaving (routine midway).
Proof.
  assert (rtc (serves abortsCleanly) newListener midway) as H.
  { do 2 (eapply rtc_l; [apply sv_Accept|]). eapply rtc_l; [apply sv_Close|]. eapply rtc_l; [eapply sv_accept; reflexivity|].
    eapply rtc_l; [apply (sv_make _ _ Success); reflexivity|]. apply rtc_once, sv_ends. refine (e_abort _ _ None 0 _ _ _); [reflexivity..|by intros]. }
  split; [exact H|]. apply (listener_closes midway H). cbn. lia.
Defined.

(** When a client has come and gone at that moment, the closing is forgotten: the
    goroutine makes another pipe, and the Close waits for a client for ever. *)
Example close_is_forgotten : exists l, rtc (serves (fun _ => True)) newListener l /\ heard l = 1%nat /\ routine l = Connecting None
  /\ forall l', ~ ends (fun _ => True) l l'.
Proof.
  exists (mkListener (Connecting None) 0 0 1 [] 0 0). split_and!; [|done|done|].
  - eapply rtc_l; [apply sv_Accept|]. eapply rtc_l; [apply sv_Close|]. eapply rtc_l; [eapply sv_accept; reflexivity|].
    eapply rtc_l; [apply (sv_make _ _ Success); reflexivity|]. eapply rtc_l; [apply (sv_connect _ _ NoData); reflexivity|].
    eapply rtc_l; [apply sv_ends; refine (e_abort _ _ (Some NoData) 0 _ _ _); [reflexivity..|by intros]|].
    eapply rtc_l; [apply sv_ends; refine (e_after _ _ NoData _); reflexivity|]. apply rtc_once. exact (sv_make _ (mkListener Making 0 0 1 [] 0 0) Success eq_refl).
  - intros l' H. inversion H; simplify_eq/=.
Qed.
