(* ===== verification/UapiListen.v ===== *)
(** The sockets of the configuration protocol ([ipc/uapi_unix.go], [uapi_linux.go],
    [uapi_bsd.go], [uapi_windows.go]) and the reads that can be cancelled under them
    ([rwcancel/rwcancel.go]). *)
From S2P Require Import Prelude AsyncFile Resources.
#[local] Open Scope sys_scope.

(** ** Reads that can be cancelled *)

Inductive rwError := EAGAIN | EINTR | ErrnoOf (code : Z) | OsErrClosed | NotExist | KqueueEmpty.
#[export] Instance rwError_eq_dec : EqDecision rwError.
Proof. solve_decision. Defined.
Definition RetryAfterError (e : rwError) : bool := bool_decide (e = EAGAIN) || bool_decide (e = EINTR).

(** What a poll says: an error, or the events of the descriptor and of the pipe. *)
Inductive pollAnswer := PollError (e : rwError) | Polled (revents closing : Z).
(** [ReadyRead] and [ReadyWrite], on the answers of their polls; [None] when it waits. *)
Fixpoint ready (polls : list pollAnswer) : option (bool * list pollAnswer) :=
  match polls with
  | [] => None
  | PollError e :: polls => if RetryAfterError e then ready polls else Some (false, polls)
  | Polled r c :: polls => Some (if negb (c =? 0) then false else negb (r =? 0), polls)
  end.
Definition ReadyRead := ready.
Definition ReadyWrite := ready.

(** [Read] and [Write], on the answers of their system calls: a count, or an error. *)
Fixpoint rwLoop (rdy : list pollAnswer -> option (bool * list pollAnswer)) (answers : list (Z + rwError)) (polls : list pollAnswer)
    : option (Z * option rwError) :=
  match answers with
  | [] => None
  | inl n :: _ => Some (n, None)
  | inr e :: answers =>
      if RetryAfterError e then
        match rdy polls with
        | None => None
        | Some (false, _) => Some (0, Some OsErrClosed)
        | Some (true, polls) => rwLoop rdy answers polls
        end
      else Some (-1, Some e)
  end.
Definition rwRead := rwLoop ReadyRead.
Definition rwWrite := rwLoop ReadyWrite.

(** ** Watching for the socket's removal *)

(** Each turn of the goroutine: whether the socket is gone, and what the read of the
    events gives; the result is what is sent to [connErr]. *)
Fixpoint inotifyLoop (turns : list (bool * option rwError)) : option rwError :=
  match turns with
  | [] => None
  | (gone, err) :: turns => if gone then Some NotExist else match err with Some e => Some e | None => inotifyLoop turns end
  end.
(** On the BSDs: the number of events and the error of the last [Kevent]. *)
Fixpoint kqueueLoop (n : Z) (kerr : option rwError) (turns : list (bool * (Z * option rwError))) : option rwError :=
  match turns with
  | [] => None
  | (gone, (n', kerr')) :: turns =>
      if gone then Some NotExist
      else if (bool_decide (kerr <> None) || negb (n =? 1)) && negb (bool_decide (kerr = Some EINTR)) then
        Some (match kerr with Some e => e | None => KqueueEmpty end)
      else kqueueLoop n' kerr' turns
  end.
Definition kqueueWatch := kqueueLoop 1 None.

(** ** What is open *)

Inductive uapiHeld := Umask | UnixListener | SocketFile | TestConn | NetListener | Inotify | Kqueue | Kevent | CancelPipe | Watcher | Acceptor | PipeListener.
#[export] Instance uapiHeld_eq_dec : EqDecision uapiHeld.
Proof. solve_decision. Defined.

Section Uapi.
Variable refuse : nat -> bool.
Abbreviation Sys := (Sys uapiHeld).
Abbreviation call := (call refuse).
Abbreviation opens := (opens refuse).

(** The file of a listener; the listener itself is left to the collector. *)
Definition fileOfListener : Sys unit := opens SocketFile failing nothing next nothing.
(** A socket of that name is there: is it in use? *)
Definition openAgain : Sys unit := fun s =>
  match opens TestConn s with
  | (s, Some _) => (s, None)
  | (s, None) => (call failing nothing next opens UnixListener failing nothing next fileOfListener) s
  end.
Definition UAPIOpen : Sys unit :=
  call failing nothing next  (* MkdirAll *)
  call failing nothing next  (* ResolveUnixAddr *)
  holds Umask failing nothing next
  deferred
    (fun s => match opens UnixListener s with (s, Some _) => fileOfListener s | (s, None) => openAgain s end)
    (closes Umask).

Definition NewRWCancel : Sys unit := call failing nothing next opens CancelPipe failing nothing next nothing.
Definition linuxUAPIListen : Sys unit :=
  opens NetListener failing nothing next
  opens Inotify failing nothing next
  call failing nothing next  (* InotifyAddWatch *)
  NewRWCancel failing closes Inotify next
  holds Watcher failing nothing next
  holds Acceptor.
(** The watcher closes the pipe when it ends. *)
Definition linuxUAPIClose : Sys unit :=
  closes Inotify next ignoring call (closes NetListener) next closes Watcher next closes CancelPipe next closes Acceptor.
Definition bsdUAPIListen : Sys unit :=
  opens NetListener failing nothing next
  opens Kqueue failing nothing next
  opens Kevent failing closes Kqueue next
  holds Watcher failing nothing next
  holds Acceptor.
Definition bsdUAPIClose : Sys unit :=
  closes Kqueue next closes Kevent next closes NetListener next closes Watcher next closes Acceptor.
Definition windowsUAPIListen : Sys unit := opens PipeListener failing nothing next holds Acceptor.
Definition windowsUAPIClose : Sys unit := closes PipeListener next closes Acceptor.
End Uapi.

(** The error of [Close] is the first one of its calls. *)
Fixpoint firstError (errs : list (option rwError)) : option rwError :=
  match errs with [] => None | Some e :: _ => Some e | None :: errs => firstError errs end.

(** ** The goroutine that accepts, and Accept *)

(** The connection that the goroutine has and has yet to send, what is in [connNew]
    and [connErr], each with room for one, the errors that wait to be sent there, and
    what Accept has returned; [ended] is whether the goroutine has met an error. *)
Record uapi := mkUapi { holding : option nat; connNew : option nat; connErr : option rwError; sending : list rwError; ended : bool;
  accepted : list nat; returned : list nat; failed : list rwError }.
Definition newUapi : uapi := mkUapi None None None [] false [] [] [].
Inductive uapiStep : uapi -> uapi -> Prop :=
  | u_accept u c : holding u = None -> ended u = false ->
      uapiStep u (mkUapi (Some c) (connNew u) (connErr u) (sending u) false (accepted u ++ [c]) (returned u) (failed u))
  | u_error u e : holding u = None -> ended u = false ->
      uapiStep u (mkUapi None (connNew u) (connErr u) (e :: sending u) true (accepted u) (returned u) (failed u))
  | u_send u c : holding u = Some c -> connNew u = None ->
      uapiStep u (mkUapi None (Some c) (connErr u) (sending u) (ended u) (accepted u) (returned u) (failed u))
  | u_watch u e : uapiStep u (mkUapi (holding u) (connNew u) (connErr u) (e :: sending u) (ended u) (accepted u) (returned u) (failed u))
  | u_fail u l1 e l2 : sending u = l1 ++ e :: l2 -> connErr u = None ->
      uapiStep u (mkUapi (holding u) (connNew u) (Some e) (l1 ++ l2) (ended u) (accepted u) (returned u) (failed u))
  | u_Accept u c : connNew u = Some c ->
      uapiStep u (mkUapi (holding u) None (connErr u) (sending u) (ended u) (accepted u) (returned u ++ [c]) (failed u))
  | u_AcceptErr u e : connErr u = Some e ->
      uapiStep u (mkUapi (holding u) (connNew u) None (sending u) (ended u) (accepted u) (returned u) (failed u ++ [e])).

(** ** What holds *)

(** A read that must wait is ended by a cancellation, however often its poll is
    interrupted, and is said to be closed only when it was cancelled or its poll
    has failed. *)
Lemma ready_says polls b rest : ready polls = Some (b, rest) -> exists tries p, polls = map PollError tries ++ p :: rest
  /\ Forall (fun e => RetryAfterError e = true) tries
  /\ match p with PollError e => b = false /\ RetryAfterError e = false | Polled r c => b = (c =? 0) && negb (r =? 0) end.
Proof.
  induction polls as [|[e|r c] polls IH]; cbn; [done| |].
  - destruct (RetryAfterError e) eqn:E.
    + intros (tries & p & -> & Ht & Hp)%IH. exists (e :: tries), p. split_and!; [done|by constructor|done].
    + intros [= <- <-]. exists [], (PollError e). split_and!; done.
  - intros [= <- <-]. exists [], (Polled r c). split_and!; try done. by destruct (c =? 0).
Qed.
Lemma read_cancelled e answers tries r c rest : RetryAfterError e = true -> Forall (fun e => RetryAfterError e = true) tries -> c <> 0 ->
  rwRead (inr e :: answers) (map PollError tries ++ Polled r c :: rest) = Some (0, Some OsErrClosed).
Proof.
  intros He Ht Hc. unfold rwRead. cbn. rewrite He. assert (ReadyRead (map PollError tries ++ Polled r c :: rest) = Some (false, rest)) as ->; [|done].
  unfold ReadyRead. induction Ht as [|e' tries He' _ IH]; cbn; [by destruct (Z.eqb_spec c 0)|]. by rewrite He'.
Qed.

Section Cleans.
Variable refuse : nat -> bool.

(** However opening ends, the umask is as it was; one that succeeds has the file and
    no test connection.  On the BSDs and Windows a listen that fails leaves no more
    than a listener, which the collector closes; closing leaves nothing. *)
Lemma uapi_cleans n :
  match UAPIOpen refuse (n, []) with
  | (s, Some _) => s.2 ≡ₚ [SocketFile; UnixListener]
  | (s, None) => s.2 ⊆+ [UnixListener] \/ s.2 = [TestConn]
  end
  /\ cleans (linuxUAPIListen refuse) (linuxUAPIClose refuse) (n, []) [NetListener; Inotify; CancelPipe; Watcher; Acceptor] [Inotify; NetListener]
  /\ cleans (bsdUAPIListen refuse) bsdUAPIClose (n, []) [NetListener; Kqueue; Kevent; Watcher; Acceptor] [NetListener]
  /\ cleans (windowsUAPIListen refuse) windowsUAPIClose (n, []) [PipeListener; Acceptor] [].
Proof.
  unfold cleans, UAPIOpen, openAgain, fileOfListener, linuxUAPIListen, linuxUAPIClose, NewRWCancel, bsdUAPIListen, windowsUAPIListen, orElse, deferred, ignoring, opens.
  split_and!; cbn; calls; try (by right); try (left; same); try (split; calls); same.
Qed.
End Cleans.

(** The descriptor of inotify stays when the watch is refused. *)
Example inotify_leaks : linuxUAPIListen (fun n => (n =? 2)%nat) (0%nat, []) = ((3%nat, [Inotify; NetListener]), None).
Proof. done. Qed.

(** Accept returns the connections in the order in which they came, each once. *)
Lemma accepts_in_order u : rtc uapiStep newUapi u ->
  returned u ++ option_list (connNew u) ++ option_list (holding u) = accepted u.
Proof.
  apply (rtc_keeps _ (fun u => returned u ++ option_list (connNew u) ++ option_list (holding u) = accepted u)); [|done].
  intros a b H Hs. destruct Hs as [v c E1 E2|v e E1 E2|v c E1 E2|v e|v l1 e l2 E1 E2|v c E|v e E]; cbn; rewrite <-H; cbn; rewrite ?E, ?E1, ?E2; cbn;
    by rewrite <-?app_assoc.
Qed.
