(* ===== verification/Encodings.v ===== *)
(** The parts of Go's crypto/sha256 and encoding/base64 that the programs call, with
    the lemmas of encoding and decoding. *)
From S2P Require Import Prelude Messages NoiseHelpers Text.

(** ** Words of 32 bits *)

Definition rotr (n x : Z) : Z := u32 (Z.lor (Z.shiftr x n) (Z.shiftl x (32 - n))).
Definition xor3 (x y z : Z) : Z := Z.lxor x (Z.lxor y z).
Definition ch (x y z : Z) : Z := Z.lxor (Z.land x y) (Z.land (2 ^ 32 - 1 - x) z).
Definition maj (x y z : Z) : Z := xor3 (Z.land x y) (Z.land x z) (Z.land y z).
Definition bigSigma0 (x : Z) : Z := xor3 (rotr 2 x) (rotr 13 x) (rotr 22 x).
Definition bigSigma1 (x : Z) : Z := xor3 (rotr 6 x) (rotr 11 x) (rotr 25 x).
Definition smallSigma0 (x : Z) : Z := xor3 (rotr 7 x) (rotr 18 x) (Z.shiftr x 3).
Definition smallSigma1 (x : Z) : Z := xor3 (rotr 17 x) (rotr 19 x) (Z.shiftr x 10).

(** The constants are bits of roots of the first primes: the largest number whose
    power [e] is at most [n], bit by bit, and the 32 bits after the point. *)
Fixpoint rootBits (e : Z) (k : nat) (acc n : Z) : Z :=
  match k with
  | O => acc
  | S k => let x := acc + 2 ^ Z.of_nat k in rootBits e k (if x ^ e <=? n then x else acc) n
  end.
Definition fraction (e p : Z) : Z := u32 (rootBits e 40 0 (p * 2 ^ (32 * e))).

Definition isPrime (n : Z) : bool := forallb (fun d => negb (n mod d =? 0)) (seqZ 2 (n - 2)).
Definition primes : list Z := Eval vm_compute in List.filter isPrime (seqZ 2 310).

Definition roundConstants : list Z := Eval vm_compute in fraction 3 <$> primes.

(** The eight words of the state. *)
Record digest := mkDigest { va : Z; vb : Z; vc : Z; vd : Z; ve : Z; vf : Z; vg : Z; vh : Z }.

Definition initial : digest := Eval vm_compute in
  match fraction 2 <$> take 8 primes with
  | [a; b; c; d; e; f; g; h] => mkDigest a b c d e f g h
  | _ => mkDigest 0 0 0 0 0 0 0 0
  end.

(** ** Compression *)

(** The last 16 words of the schedule, newest last, and the [n] that follow. *)
Fixpoint schedule (n : nat) (ws : list Z) : list Z :=
  match n with
  | O => []
  | S n =>
      let w := u32 (smallSigma1 (nth 14 ws 0) + nth 9 ws 0 + smallSigma0 (nth 1 ws 0) + nth 0 ws 0) in
      w :: schedule n (tl ws ++ [w])
  end.

Definition round (s : digest) (kw : Z * Z) : digest :=
  let t1 := u32 (vh s + bigSigma1 (ve s) + ch (ve s) (vf s) (vg s) + kw.1 + kw.2) in
  let t2 := u32 (bigSigma0 (va s) + maj (va s) (vb s) (vc s)) in
  mkDigest (u32 (t1 + t2)) (va s) (vb s) (vc s) (u32 (vd s + t1)) (ve s) (vf s) (vg s).

(** Sixteen big-endian words of a block of 64 bytes. *)
Definition wordsOf (b : bytes) : list Z := (fun i => be_dec (slice (4 * i) (4 * i + 4) b)) <$> seq 0 16.

Definition block (s : digest) (b : bytes) : digest :=
  let ws := wordsOf b in
  let t := foldl round s (zip roundConstants (ws ++ schedule 48 ws)) in
  mkDigest (u32 (va s + va t)) (u32 (vb s + vb t)) (u32 (vc s + vc t)) (u32 (vd s + vd t))
    (u32 (ve s + ve t)) (u32 (vf s + vf t)) (u32 (vg s + vg t)) (u32 (vh s + vh t)).

(** ** The whole message *)

Definition paddedMessage (m : bytes) : bytes :=
  let used := ((length m + 9) mod 64)%nat in
  m ++ [0x80] ++ zeros ((64 - used) mod 64)%nat ++ be_enc 8 (8 * zlen m).

Fixpoint blocks (n : nat) (s : digest) (m : bytes) : digest :=
  match n with O => s | S n => blocks n (block s (take 64 m)) (drop 64 m) end.

(** [sha256.Sum256] *)
Definition Sum256 (m : bytes) : bytes :=
  let p := paddedMessage m in
  let s := blocks (length p / 64)%nat initial p in
  be_enc 4 (va s) ++ be_enc 4 (vb s) ++ be_enc 4 (vc s) ++ be_enc 4 (vd s) ++
  be_enc 4 (ve s) ++ be_enc 4 (vf s) ++ be_enc 4 (vg s) ++ be_enc 4 (vh s).

(** ** Lemmas *)

Lemma length_Sum256 m : length (Sum256 m) = 32%nat.
Proof. unfold Sum256. by rewrite !length_app, !length_be_enc. Qed.

Lemma Sum256_bytes m : all_bytes (Sum256 m).
Proof. unfold Sum256. repeat (apply Forall_app; split); apply be_enc_bytes. Qed.

Lemma length_paddedMessage m : (length (paddedMessage m) mod 64 = 0)%nat.
Proof.
  unfold paddedMessage, zeros. rewrite !length_app, length_replicate, length_be_enc. cbn [length].
  pose proof (Nat.div_mod_eq (length m + 9) 64) as E. set (q := ((length m + 9) / 64)%nat) in *.
  set (r := ((length m + 9) mod 64)%nat) in *. assert (r < 64)%nat by (apply Nat.mod_upper_bound; lia).
  destruct (decide (r = 0)%nat) as [Hr|Hr].
  - rewrite Hr. replace (length m + (1 + ((64 - 0) mod 64 + 8)))%nat with (q * 64)%nat by (change ((64 - 0) mod 64)%nat with 0%nat; lia).
    apply Nat.Div0.mod_mul.
  - rewrite (Nat.mod_small (64 - r)) by lia. replace (length m + (1 + (64 - r + 8)))%nat with ((q + 1) * 64)%nat by lia.
    apply Nat.Div0.mod_mul.
Qed.

(** The test vectors of FIPS 180-4. *)
Example Sum256_abc : Sum256 (of_string "abc") =
  be_enc 32 0xba7816bf8f01cfea414140de5dae2223b00361a396177a9cb410ff61f20015ad.
Proof. by vm_compute. Qed.
Example Sum256_two_blocks : Sum256 (of_string "abcdbcdecdefdefgefghfghighijhijkijkljklmklmnlmnomnopnopq") =
  be_enc 32 0x248d6a61d20638b8e5c026930c3e6039a33ce45964ff2167f6ecedd419db06c1.
Proof. by vm_compute. Qed.
Example Sum256_empty : Sum256 [] =
  be_enc 32 0xe3b0c44298fc1c149afbf4c8996fb92427ae41e4649b934ca495991b7852b855.
Proof. by vm_compute. Qed.

(** ** Printing *)

Definition encodeChar (n : Z) : Z :=
  if n <? 26 then 65 + n else if n <? 52 then 71 + n else if n <? 62 then n - 4 else if n =? 62 then 43 else 47.

(** Sextet [i] of 24 bits. *)
Definition sextet (v : Z) (i : Z) : Z := v / 2 ^ (18 - 6 * i) mod 64.

Definition quantum (n : nat) (v : Z) : bytes := (fun i => encodeChar (sextet v (Z.of_nat i))) <$> seq 0 n.

(** [EncodeToString] *)
Fixpoint EncodeToString (b : bytes) : bytes :=
  match b with
  | [] => []
  | [x] => quantum 2 (be_dec [x; 0; 0]) ++ [61; 61]
  | [x; y] => quantum 3 (be_dec [x; y; 0]) ++ [61]
  | x :: y :: z :: b => quantum 4 (be_dec [x; y; z]) ++ EncodeToString b
  end.

(** ** Reading *)

Definition decodeChar (c : Z) : option Z :=
  if (65 <=? c) && (c <=? 90) then Some (c - 65)
  else if (97 <=? c) && (c <=? 122) then Some (c - 71)
  else if (48 <=? c) && (c <=? 57) then Some (c + 4)
  else if c =? 43 then Some 62
  else if c =? 47 then Some 63
  else None.

(** The first [n] bytes of the 24 bits that four sextets are. *)
Definition unquantum (n : nat) (a b c d : Z) : bytes := take n (be_enc 3 (a * 2 ^ 18 + b * 2 ^ 12 + c * 2 ^ 6 + d)).

(** Quanta of four characters; padding only at the end. *)
Fixpoint decodeQuanta (s : bytes) : option bytes :=
  match s with
  | [] => Some []
  | a :: b :: c :: d :: s =>
      a ← decodeChar a;
      b ← decodeChar b;
      if c =? 61 then
        if (d =? 61) && bool_decide (s = []) then Some (unquantum 1 a b 0 0) else None
      else
        c ← decodeChar c;
        if d =? 61 then
          if bool_decide (s = []) then Some (unquantum 2 a b c 0) else None
        else
          d ← decodeChar d;
          rest ← decodeQuanta s;
          Some (unquantum 3 a b c d ++ rest)
  | _ => None
  end.

(** [DecodeString]: line breaks do not count. *)
Definition DecodeString (s : bytes) : option bytes :=
  decodeQuanta (filter (fun c => c <> 10 /\ c <> 13) s).

(** ** Lemmas *)

Lemma decode_encodeChar n : 0 <= n < 64 -> decodeChar (encodeChar n) = Some n.
Proof.
  intros Hn.
  pose proof (bounded_cases 64 (fun n => bool_decide (decodeChar (encodeChar n) = Some n)) eq_refl n Hn) as H.
  by apply bool_decide_eq_true in H.
Qed.

Lemma encodeChar_free n : 0 <= n < 64 -> encodeChar n <> 61 /\ encodeChar n <> 10 /\ encodeChar n <> 13.
Proof. intros Hn. unfold encodeChar. zbool; lia. Qed.

Lemma sextet_range v i : 0 <= sextet v i < 64.
Proof. apply Z.mod_pos_bound. lia. Qed.

Lemma sextets v : 0 <= v < 2 ^ 24 -> sextet v 0 * 2 ^ 18 + sextet v 1 * 2 ^ 12 + sextet v 2 * 2 ^ 6 + sextet v 3 = v.
Proof.
  intros Hv. unfold sextet. cbn. Z.to_euclidean_division_equations. lia.
Qed.

Lemma decodeQuanta_full v rest : 0 <= v < 2 ^ 24 ->
  decodeQuanta (quantum 4 v ++ rest) = r ← decodeQuanta rest; Some (be_enc 3 v ++ r).
Proof.
  intros Hv. unfold quantum. cbn [seq fmap list_fmap app decodeQuanta].
  rewrite !decode_encodeChar by apply sextet_range. cbn [mbind option_bind].
  pose proof (encodeChar_free _ (sextet_range v 2)) as (H2 & _). pose proof (encodeChar_free _ (sextet_range v 3)) as (H3 & _).
  apply Z.eqb_neq in H2, H3. change (Z.of_nat 2) with 2. change (Z.of_nat 3) with 3. rewrite H2, H3. cbn [mbind option_bind].
  destruct (decodeQuanta rest) as [r|]; [|done]. cbn [mbind option_bind]. unfold unquantum.
  change (Z.of_nat 0) with 0. change (Z.of_nat 1) with 1. rewrite sextets by done. by rewrite take_ge by (by rewrite length_be_enc).
Qed.

Lemma be_dec3 x y z : is_byte x -> is_byte y -> is_byte z ->
  be_enc 3 (be_dec [x; y; z]) = [x; y; z] /\ 0 <= be_dec [x; y; z] < 2 ^ 24.
Proof.
  intros Hx Hy Hz. assert (all_bytes [x; y; z]) as Hb by (rewrite !Forall_cons; auto).
  split; [apply (be_enc_dec [x; y; z] Hb)|apply (be_dec_range _ Hb)].
Qed.

Lemma decodeQuanta_last (s : bytes) : all_bytes s -> (length s < 3)%nat -> decodeQuanta (EncodeToString s) = Some s.
Proof.
  intros Hs Hl. destruct s as [|x [|y [|]]]; [done| | |cbn in Hl; lia].
  - apply Forall_cons in Hs as [Hs _]. destruct (be_dec3 x 0 0 Hs) as [E R]; [done..|].
    set (v := be_dec _) in *. assert (sextet v 2 = 0 /\ sextet v 3 = 0) as [E2 E3].
    { unfold v, be_dec, sextet. cbn. unfold is_byte in Hs. Z.to_euclidean_division_equations. lia. }
    cbn [EncodeToString]. fold v. unfold quantum. cbn [seq fmap list_fmap app decodeQuanta].
    rewrite !decode_encodeChar by apply sextet_range. cbn [mbind option_bind]. change (61 =? 61) with true. cbn [andb].
    rewrite bool_decide_true by done. unfold unquantum. pose proof (sextets v R) as Hv. rewrite E2, E3 in Hv.
    change (Z.of_nat 0) with 0. change (Z.of_nat 1) with 1. rewrite Hv, E. done.
  - apply Forall_cons in Hs as [Hx Hs]. apply Forall_cons in Hs as [Hy _]. destruct (be_dec3 x y 0 Hx Hy) as [E R]; [done|].
    set (v := be_dec _) in *. assert (sextet v 3 = 0) as E3.
    { unfold v, be_dec, sextet. cbn. unfold is_byte in *. Z.to_euclidean_division_equations. lia. }
    cbn [EncodeToString]. fold v. unfold quantum. cbn [seq fmap list_fmap app decodeQuanta].
    rewrite !decode_encodeChar by apply sextet_range. cbn [mbind option_bind].
    pose proof (encodeChar_free _ (sextet_range v 2)) as (H2 & _). apply Z.eqb_neq in H2.
    change (Z.of_nat 0) with 0. change (Z.of_nat 1) with 1. change (Z.of_nat 2) with 2. rewrite H2. change (61 =? 61) with true. cbn [andb].
    rewrite bool_decide_true by done. unfold unquantum. pose proof (sextets v R) as Hv. rewrite E3 in Hv. rewrite Hv, E. done.
Qed.

(** Induction by three elements. *)
Lemma three_ind (P : bytes -> Prop) : (forall s, (length s < 3)%nat -> P s) ->
  (forall x y z s, P s -> P (x :: y :: z :: s)) -> forall s, P s.
Proof.
  intros Hb Hs. fix IH 1. intros [|x [|y [|z s]]]; [apply Hb; cbn; lia..|]. apply Hs, IH.
Qed.

Lemma decodeQuanta_Encode s : all_bytes s -> decodeQuanta (EncodeToString s) = Some s.
Proof.
  induction s as [s Hl|x y z s IH] using three_ind; intros Hs; [by apply decodeQuanta_last|].
  apply Forall_cons in Hs as [Hx Hs]. apply Forall_cons in Hs as [Hy Hs]. apply Forall_cons in Hs as [Hz Hs].
  destruct (be_dec3 x y z Hx Hy Hz) as [E R]. cbn [EncodeToString]. rewrite decodeQuanta_full by done.
  rewrite IH by done. cbn [mbind option_bind]. by rewrite E.
Qed.

Lemma quantum_clean n v : Forall (fun c => c <> 10 /\ c <> 13) (quantum n v).
Proof. apply Forall_fmap, Forall_forall. intros i _. cbn. by apply encodeChar_free, sextet_range. Qed.

Lemma Encode_clean s : Forall (fun c => c <> 10 /\ c <> 13) (EncodeToString s).
Proof.
  induction s as [s Hl|x y z s IH] using three_ind.
  - destruct s as [|x [|y [|]]]; [constructor|..|cbn in Hl; lia]; cbn [EncodeToString]; apply Forall_app; split;
      try apply quantum_clean; by repeat constructor.
  - cbn [EncodeToString]. apply Forall_app. split; [apply quantum_clean|done].
Qed.

Lemma filter_clean (P : Z -> Prop) `{!forall x, Decision (P x)} s : Forall P s -> filter P s = s.
Proof. induction 1 as [|x s Hx _ IH]; [done|]. by rewrite filter_cons_True, IH. Qed.

Lemma Decode_Encode s : all_bytes s -> DecodeString (EncodeToString s) = Some s.
Proof.
  intros Hs. unfold DecodeString. rewrite filter_clean by apply Encode_clean. by apply decodeQuanta_Encode.
Qed.
