(* ===== verification/Stun.v ===== *)
(** STUN, which tells an end its public address: the client of
    [z/stun/client.go] and the parser of [vpnengine.go]. *)
From S2P Require Import Prelude Messages NoiseHelpers Checksum Text Netip TrieBits Offload.

(** ** Constants *)

Definition BindingRequest : Z := 0x0001.
Definition MagicCookie : Z := 0x2112A442.
Definition XorMappedAddress : Z := 0x0020.

Inductive stunError := ErrShortMessage | ErrShortXorAddress | ErrUnsupportedFamily | ErrNotFound.

(** ** Requests *)

(** [sendBindingRequest], [sendBindingRequestShared] and [requestStunBinding]
    build the same 20 bytes from a transaction id. *)
Definition bindingRequest (tid : bytes) : bytes :=
  let buf := zeros 20 in
  let buf := copy_at buf 0 (be_enc 2 BindingRequest) in
  let buf := copy_at buf 2 (be_enc 2 0) in
  let buf := copy_at buf 4 (be_enc 4 MagicCookie) in
  copy_at buf 8 tid.

(** ** Responses, in the client *)

Record StunResult := mkStunResult { sr_Address : bytes; sr_Port : Z }.

(** [for offset%4 != 0 { offset++ }] *)
Definition align4 (n : nat) : nat := ((n + 3) / 4 * 4)%nat.

(** Every turn goes at least 4 bytes on, so the length is enough fuel. *)
Fixpoint parseLoop (fuel : nat) (buf : bytes) (offset : nat) : option (StunResult + stunError) :=
  match fuel with
  | O => None
  | S fuel =>
      if (offset + 4 <=? length buf)%nat then
        attrType ← getBE 2 buf offset;
        attrLen ← getBE 2 buf (offset + 2);
        let attrLen := Z.to_nat attrLen in
        if (length buf <? offset + 4 + attrLen)%nat then Some (inr ErrNotFound)
        else if attrType =? XorMappedAddress then
          if (attrLen <? 8)%nat then Some (inr ErrShortXorAddress)
          else
            family ← buf !! (offset + 5)%nat;
            if negb (family =? 0x01) then Some (inr ErrUnsupportedFamily)
            else
              xPort ← getBE 2 buf (offset + 6);
              xAddr ← sliceOf buf (offset + 8) (offset + 12);
              cookie ← sliceOf buf 4 8;
              Some (inl (mkStunResult (zip_with Z.lxor xAddr cookie) (Z.lxor xPort 0x2112)))
        else parseLoop fuel buf (align4 (offset + 4 + attrLen))
      else Some (inr ErrNotFound)
  end.

(** [None] is a panic. *)
Definition parse (buf : bytes) : option (StunResult + stunError) :=
  if (length buf <? 20)%nat then Some (inr ErrShortMessage) else parseLoop (length buf) buf 20.

(** The client: whether it has a connection, a callback and a function to send
    with, its address as last told, and whether it has been stopped. *)
Record StunClient := mkStunClient {
  sc_conn : bool; publicAddress : option bytes; publicPort : Z; onEndpointChanged : bool;
  sendRequestFunc : bool; stopped : bool }.
#[export] Instance StunClient_settable : Settable StunClient := fun c =>
  mkStunClient (sc_conn c) (publicAddress c) (publicPort c) (onEndpointChanged c) (sendRequestFunc c) (stopped c).
Definition NewStunClient : StunClient := mkStunClient false None 0 false false false.

(** The client afterwards, and what its callback is told: address, port and
    whether the endpoint has changed. *)
Definition told : Type := option (bytes * Z * bool).
Definition ProcessPacket (buf : bytes) (c : StunClient) : option (StunClient * told) :=
  r ← parse buf;
  Some (match r with
        | inr _ => (c, None)
        | inl res =>
            let changed := negb (bool_decide (publicAddress c = Some (sr_Address res))) in
            (c <| publicAddress := Some (sr_Address res) |> <| publicPort := sr_Port res |>,
             if onEndpointChanged c then Some (sr_Address res, sr_Port res, changed) else None)
        end).

(** A turn of [listenLoop] with what the socket has for it; [None] inside ends
    the loop.  The buffer takes 1024 bytes of a datagram. *)
Definition listenTurn (read : option bytes) (c : StunClient) : option (option (StunClient * told)) :=
  if stopped c then Some None
  else match read with
       | None => Some (Some (c, None))
       | Some dgram => r ← ProcessPacket (take 1024 dgram) c; Some (Some r)
       end.

(** [sendBindingRequestShared]: the bytes for the send function; [rnd] is what
    the source of random bytes gives. *)
Definition sendBindingRequestShared (rnd : option bytes) (c : StunClient) : option bytes :=
  tid ← rnd; if sendRequestFunc c then Some (bindingRequest tid) else None.

(** [StartShared] up to the ticker: the request it sends, or nothing if the
    server's name, the random bytes or the send function fail it. *)
Definition StartShared (resolved : bool) (rnd : option bytes) (c : StunClient) : StunClient * option bytes :=
  if resolved then
    let c := c <| sendRequestFunc := true |> <| onEndpointChanged := true |> <| stopped := false |> in
    (c, sendBindingRequestShared rnd c)
  else (c, None).

(** [Start], with a connection. *)
Definition Start (resolved : bool) (rnd : option bytes) (c : StunClient) : StunClient * option bytes :=
  if resolved then
    (c <| sc_conn := true |> <| onEndpointChanged := true |> <| stopped := false |>, bindingRequest <$> rnd)
  else (c, None).

(** The client, and whether its connection is closed. *)
Definition Stop (c : StunClient) : StunClient * bool :=
  (c <| stopped := true |> <| sendRequestFunc := false |>, sc_conn c).

(** ** Responses, in the engine *)

(** The address as text, and the port. *)
Fixpoint stunResponseLoop (fuel : nat) (resp : bytes) (pos : nat) : option ((bytes * Z) + stunError) :=
  match fuel with
  | O => None
  | S fuel =>
      if (pos + 4 <=? length resp)%nat then
        atype ← getBE 2 resp pos;
        alen ← getBE 2 resp (pos + 2);
        let pos := (pos + 4)%nat in
        if (atype =? 0x0020) && (8 <=? alen) then
          xport ← getBE 2 resp (pos + 2);
          let port := Z.lxor xport 0x2112 in
          xaddr ← getBE 4 resp (pos + 4);
          let ipInt := Z.lxor xaddr 0x2112A442 in
          Some (inl (addrString (mkAddr (be_enc 4 ipInt) []), port))
        else stunResponseLoop fuel resp (pos + Z.to_nat (Z.ldiff (alen + 3) 3))
      else Some (inr ErrNotFound)
  end.

Definition parseStunResponse (resp : bytes) : option ((bytes * Z) + stunError) :=
  if (length resp <? 20)%nat then Some (inr ErrShortMessage) else stunResponseLoop (length resp) resp 20.

(** ** Specification: binding responses *)

(** An attribute with its padding. *)
Definition attribute (type : Z) (value : bytes) : bytes :=
  be_enc 2 type ++ be_enc 2 (zlen value) ++ value ++ zeros (align4 (length value) - length value).

Definition xorAddress (ip : bytes) (port : Z) : bytes :=
  attribute XorMappedAddress ([0; 1] ++ be_enc 2 (Z.lxor port 0x2112) ++ zip_with Z.lxor ip (be_enc 4 MagicCookie)).

(** A binding response: other attributes before and anything after the address. *)
Definition bindingResponse (len : Z) (tid : bytes) (others : list (Z * bytes)) (ip : bytes) (port : Z) (rest : bytes) : bytes :=
  be_enc 2 0x0101 ++ be_enc 2 len ++ be_enc 4 MagicCookie ++ tid ++
  concat ((fun a => attribute a.1 a.2) <$> others) ++ xorAddress ip port ++ rest.

Definition otherAttribute (a : Z * bytes) : Prop := 0 <= a.1 < 65536 /\ a.1 <> XorMappedAddress /\ zlen a.2 < 65536.

(** ** Lemmas *)

Lemma align4_spec n : (n <= align4 n < n + 4)%nat /\ (align4 n mod 4 = 0)%nat.
Proof.
  unfold align4. split; [|apply Nat.Div0.mod_mul].
  pose proof (Nat.div_mod_eq (n + 3) 4). pose proof (Nat.mod_upper_bound (n + 3) 4). lia.
Qed.

Lemma align4_add k n : (k mod 4 = 0)%nat -> align4 (k + n) = (k + align4 n)%nat.
Proof.
  intros Hk. apply Nat.Div0.div_exact in Hk. unfold align4. rewrite Hk at 1.
  replace (4 * (k / 4) + n + 3)%nat with (n + 3 + (k / 4) * 4)%nat by lia. rewrite Nat.div_add by lia. lia.
Qed.

Lemma be_dec2_range b off : all_bytes b -> 0 <= be_dec (slice off (off + 2) b) < 65536.
Proof.
  intros Hb. pose proof (be_dec_range _ (slice_bytes off (off + 2) b Hb)) as H.
  assert (length (slice off (off + 2) b) <= 2)%nat as Hl by (unfold slice; rewrite length_take; lia).
  pose proof (Z.pow_le_mono_r 256 (zlen (slice off (off + 2) b)) 2). lia.
Qed.

(** Safety of the client's parser. *)
Lemma parseLoop_safe fuel buf offset : all_bytes buf -> (20 <= length buf)%nat -> (length buf <= offset + fuel)%nat -> (0 < fuel)%nat ->
  exists r, parseLoop fuel buf offset = Some r.
Proof.
  intros Hb Hl. revert offset. induction fuel as [|fuel IH]; intros offset Hf Hp; [lia|]. cbn [parseLoop].
  destruct (Nat.leb_spec (offset + 4) (length buf)) as [H4|]; [|eauto].
  rewrite (getBE_some 2 buf offset), (getBE_some 2 buf (offset + 2)) by lia. cbn [mbind option_bind]. set (attrLen := Z.to_nat _).
  destruct (Nat.ltb_spec (length buf) (offset + 4 + attrLen)) as [|Hn]; [eauto|].
  destruct (_ =? XorMappedAddress).
  - destruct (Nat.ltb_spec attrLen 8) as [|H8]; [eauto|].
    destruct (lookup_lt_is_Some_2 buf (offset + 5)) as [f ->]; [lia|]. cbn [mbind option_bind].
    destruct (negb _); [eauto|]. rewrite (getBE_some 2 buf (offset + 6)), (sliceOf_some buf (offset + 8)), (sliceOf_some buf 4) by lia. cbn [mbind option_bind]. eauto.
  - pose proof (align4_spec (offset + 4 + attrLen)) as [Ha _]. destruct fuel as [|fuel]; [lia|]. apply IH; lia.
Qed.

Lemma parse_safe buf : all_bytes buf -> exists r, parse buf = Some r.
Proof.
  intros Hb. unfold parse. destruct (Nat.ltb_spec (length buf) 20); [eauto|]. apply parseLoop_safe; [done|lia..].
Qed.

(** Masks. *)
Lemma zip_lxor_twice (a b : bytes) : (length a <= length b)%nat -> zip_with Z.lxor (zip_with Z.lxor a b) b = a.
Proof.
  revert b. induction a as [|x a IH]; intros [|y b] H; cbn in *; [done..|lia|].
  rewrite IH by lia. by rewrite Z.lxor_assoc, Z.lxor_nilpotent, Z.lxor_0_r.
Qed.

Lemma high_low x r n : 0 <= n -> 0 <= r < 2 ^ n -> 2 ^ n * x + r = Z.lxor (Z.shiftl x n) r.
Proof.
  intros Hn Hr. rewrite Z.mul_comm, <- Z.shiftl_mul_pow2 by done. apply Z.add_nocarry_lxor.
  apply Z.bits_inj'. intros i Hi. rewrite Z.land_spec, Z.bits_0, Z.shiftl_spec by done.
  destruct (Z.ltb_spec i n); [by rewrite Z.testbit_neg_r by lia|].
  rewrite <- (Z.mod_small r (2 ^ n)), Z.mod_pow2_bits_high by lia. apply andb_false_r.
Qed.

Lemma be_dec_lxor a b : all_bytes a -> all_bytes b -> length a = length b ->
  be_dec (zip_with Z.lxor a b) = Z.lxor (be_dec a) (be_dec b).
Proof.
  intros Ha. revert b. induction Ha as [|x a Hx Ha IH]; intros b Hb Hl; destruct Hb as [|y b Hy Hb]; try done.
  injection Hl as Hl. cbn [zip_with]. rewrite !be_dec_cons, IH by done. rewrite length_zip_with, <- Hl, Nat.min_id.
  pose proof (be_dec_range a Ha) as Ra. pose proof (be_dec_range b Hb) as Rb. rewrite <- Hl in Rb.
  change 256 with (2 ^ 8) in *. rewrite <- Z.pow_mul_r in * by lia.
  rewrite !high_low; [|lia| |lia| |lia|]; [|done|done|apply lxor_range; lia || done].
  rewrite Z.shiftl_lxor. rewrite !Z.lxor_assoc. f_equal. rewrite <- !Z.lxor_assoc. f_equal. apply Z.lxor_comm.
Qed.

(** Reading numbers in the middle. *)
Lemma getBE_app n (pre suf : bytes) x off : off = length pre -> 0 <= x < 256 ^ Z.of_nat n ->
  getBE n (pre ++ be_enc n x ++ suf) off = Some x.
Proof.
  intros -> Hx. rewrite getBE_some by (rewrite !length_app, length_be_enc; lia).
  rewrite (slice_app_mid pre (be_enc n x)) by (by rewrite ?length_be_enc). by rewrite be_dec_enc.
Qed.

Lemma length_attribute type value : length (attribute type value) = (4 + align4 (length value))%nat.
Proof.
  unfold attribute, zeros. rewrite !length_app, !length_be_enc, length_replicate.
  pose proof (align4_spec (length value)). lia.
Qed.

Lemma attribute_header pre type value suf : 0 <= type < 65536 -> zlen value < 65536 ->
  getBE 2 (pre ++ attribute type value ++ suf) (length pre) = Some type /\
  getBE 2 (pre ++ attribute type value ++ suf) (length pre + 2) = Some (zlen value).
Proof.
  intros Ht Hv. unfold attribute. rewrite <- !app_assoc. split; [by apply getBE_app|].
  rewrite (app_assoc pre (be_enc 2 type)). apply getBE_app; [by rewrite length_app, length_be_enc|]. lia.
Qed.

(** A turn of either loop at an attribute of another type. *)
Lemma parseLoop_other fuel pre type value suf : otherAttribute (type, value) -> (length pre mod 4 = 0)%nat ->
  parseLoop (S fuel) (pre ++ attribute type value ++ suf) (length pre) =
  parseLoop fuel (pre ++ attribute type value ++ suf) (length (pre ++ attribute type value)).
Proof.
  intros (Ht & Hne & Hv) Hp. cbn in Ht, Hne, Hv. destruct (attribute_header pre type value suf Ht Hv) as [E1 E2].
  pose proof (length_attribute type value). pose proof (align4_spec (length value)). cbn [parseLoop].
  rewrite (proj2 (Nat.leb_le _ _)) by (rewrite !length_app; lia). rewrite E1, E2. cbn [mbind option_bind].
  rewrite Nat2Z.id, (proj2 (Nat.ltb_ge _ _)) by (rewrite !length_app; lia). rewrite (proj2 (Z.eqb_neq _ _) Hne).
  f_equal. rewrite align4_add by (by rewrite Nat.Div0.add_mod, Hp). rewrite length_app. lia.
Qed.

Lemma ldiff3 n : Z.ldiff (Z.of_nat n + 3) 3 = Z.of_nat (align4 n).
Proof.
  change 3 with (Z.ones 2). rewrite Z.ldiff_ones_r by lia. rewrite Z.shiftr_div_pow2, Z.shiftl_mul_pow2 by lia.
  unfold align4. rewrite Nat2Z.inj_mul, Nat2Z.inj_div, Nat2Z.inj_add. done.
Qed.

Lemma stunResponseLoop_other fuel pre type value suf : otherAttribute (type, value) ->
  stunResponseLoop (S fuel) (pre ++ attribute type value ++ suf) (length pre) =
  stunResponseLoop fuel (pre ++ attribute type value ++ suf) (length (pre ++ attribute type value)).
Proof.
  intros (Ht & Hne & Hv). cbn in Ht, Hne, Hv. destruct (attribute_header pre type value suf Ht Hv) as [E1 E2].
  pose proof (length_attribute type value). cbn [stunResponseLoop].
  rewrite (proj2 (Nat.leb_le _ _)) by (rewrite !length_app; lia). rewrite E1, E2. cbn [mbind option_bind].
  rewrite (proj2 (Z.eqb_neq type 0x0020)) by done. cbn [andb]. f_equal. rewrite ldiff3, Nat2Z.id, length_app. lia.
Qed.

(** A turn at the address. *)
Definition xored (ip : bytes) : bytes := zip_with Z.lxor ip (be_enc 4 MagicCookie).

Lemma length_xored ip : length ip = 4%nat -> length (xored ip) = 4%nat.
Proof. intros H. unfold xored. by rewrite length_zip_with, length_be_enc, H. Qed.

Lemma port_mask port : 0 <= port < 65536 ->
  0 <= Z.lxor port 0x2112 < 65536 /\ Z.lxor (Z.lxor port 0x2112) 0x2112 = port.
Proof.
  intros Hp. split; [by apply (lxor_range _ _ 16)|]. by rewrite Z.lxor_assoc, Z.lxor_nilpotent, Z.lxor_0_r.
Qed.

Lemma xorAddress_fields ip port pre suf : length ip = 4%nat -> 0 <= port < 65536 ->
  let buf := pre ++ xorAddress ip port ++ suf in let at' := length pre in
  (at' + 12 <= length buf)%nat /\ getBE 2 buf at' = Some XorMappedAddress /\ getBE 2 buf (at' + 2) = Some 8 /\
  buf !! (at' + 5)%nat = Some 1 /\ getBE 2 buf (at' + 6) = Some (Z.lxor port 0x2112) /\
  slice (at' + 8) (at' + 12) buf = xored ip.
Proof.
  intros Hi Hp. pose proof (length_xored ip Hi) as Hx. destruct (port_mask port Hp) as [Hm _].
  set (v := [0; 1] ++ be_enc 2 (Z.lxor port 0x2112) ++ xored ip).
  assert (length v = 8%nat) as Hv by (unfold v; rewrite !length_app, length_be_enc, Hx; done).
  cbv zeta. change (xorAddress ip port) with (attribute XorMappedAddress v).
  destruct (attribute_header pre XorMappedAddress v suf) as [E1 E2]; [done|by rewrite Hv|].
  rewrite Hv in E2. split_and!; [|exact E1|exact E2|..].
  - rewrite !length_app, length_attribute, Hv. change (align4 8) with 8%nat. lia.
  - unfold attribute. rewrite Hv. change (align4 8) with 8%nat. rewrite lookup_app_r by lia.
    replace (length pre + 5 - length pre)%nat with 5%nat by lia. rewrite <- !app_assoc.
    do 2 (rewrite lookup_app_r by (rewrite length_be_enc; lia); rewrite length_be_enc). done.
  - unfold attribute, v. rewrite <- !app_assoc.
    rewrite (app_assoc pre), (app_assoc (pre ++ _)), (app_assoc ((pre ++ _) ++ _)). apply getBE_app; [|done].
    rewrite !length_app, !length_be_enc. cbn [length]. lia.
  - unfold attribute. unfold v at 2. rewrite <- !app_assoc.
    rewrite (app_assoc pre), (app_assoc (pre ++ _)), (app_assoc ((pre ++ _) ++ _)), (app_assoc (((pre ++ _) ++ _) ++ _)).
    apply slice_app_mid; rewrite ?Hx, ?length_app, ?length_be_enc; cbn [length]; lia.
Qed.

Lemma parseLoop_address fuel ip port pre suf : length ip = 4%nat -> 0 <= port < 65536 ->
  slice 4 8 (pre ++ xorAddress ip port ++ suf) = be_enc 4 MagicCookie ->
  parseLoop (S fuel) (pre ++ xorAddress ip port ++ suf) (length pre) = Some (inl (mkStunResult ip port)).
Proof.
  intros Hi Hp Hc. destruct (xorAddress_fields ip port pre suf Hi Hp) as (Hl & E1 & E2 & E3 & E4 & E5). cbv zeta in *.
  cbn [parseLoop]. rewrite (proj2 (Nat.leb_le _ _)) by lia. rewrite E1, E2. cbn [mbind option_bind].
  change (Z.to_nat 8) with 8%nat. rewrite (proj2 (Nat.ltb_ge _ _)) by lia.
  change (XorMappedAddress =? XorMappedAddress) with true. cbv iota. change (8 <? 8)%nat with false. cbv iota.
  rewrite E3. cbn [mbind option_bind]. rewrite E4. cbn [mbind option_bind].
  rewrite !sliceOf_some by lia. cbn [mbind option_bind]. change (negb (1 =? 1)) with false. cbv iota.
  rewrite E5, Hc. unfold xored. rewrite zip_lxor_twice by (rewrite length_be_enc; lia). by rewrite (proj2 (port_mask port Hp)).
Qed.

Lemma stunResponseLoop_address fuel ip port pre suf : array 4 ip -> 0 <= port < 65536 ->
  stunResponseLoop (S fuel) (pre ++ xorAddress ip port ++ suf) (length pre) = Some (inl (string4 ip, port)).
Proof.
  intros [Hi Hb] Hp. destruct (xorAddress_fields ip port pre suf Hi Hp) as (Hl & E1 & E2 & E3 & E4 & E5). cbv zeta in *.
  cbn [stunResponseLoop]. rewrite (proj2 (Nat.leb_le _ _)) by lia. rewrite E1, E2. cbn [mbind option_bind].
  change ((XorMappedAddress =? 0x0020) && (8 <=? 8)) with true. cbv iota.
  replace (length pre + 4 + 2)%nat with (length pre + 6)%nat by lia. rewrite E4. cbn [mbind option_bind].
  rewrite getBE_some by lia. cbn [mbind option_bind].
  replace (length pre + 4 + 4)%nat with (length pre + 8)%nat by lia.
  replace (length pre + 8 + 4)%nat with (length pre + 12)%nat by lia. rewrite E5. unfold xored.
  rewrite be_dec_lxor by (done || apply be_enc_bytes || by rewrite length_be_enc).
  rewrite be_dec_enc by done. rewrite Z.lxor_assoc. change (Z.lxor MagicCookie 0x2112A442) with 0. rewrite Z.lxor_0_r.
  rewrite <- Hi. rewrite be_enc_dec by done. rewrite (proj2 (port_mask port Hp)). unfold addrString. cbn [a_bytes]. by rewrite Hi.
Qed.

(** The whole of a response. *)
Section Response.
Context (ip : bytes) (port : Z) (suf : bytes) (Hip : array 4 ip) (Hport : 0 <= port < 65536).

Definition attributes (others : list (Z * bytes)) : bytes := concat ((fun a => attribute a.1 a.2) <$> others).

Lemma attributes_cons a others : attributes (a :: others) = attribute a.1 a.2 ++ attributes others.
Proof. done. Qed.

Lemma attribute_aligned pre type value : (length pre mod 4 = 0)%nat -> (length (pre ++ attribute type value) mod 4 = 0)%nat.
Proof.
  intros Hp. rewrite length_app, length_attribute. destruct (align4_spec (length value)) as [_ Hv].
  by rewrite Nat.Div0.add_mod, Hp, (Nat.Div0.add_mod 4), Hv.
Qed.

Lemma parseLoop_response others : forall fuel pre, Forall otherAttribute others -> (length others < fuel)%nat ->
  (length pre mod 4 = 0)%nat -> slice 4 8 (pre ++ attributes others ++ xorAddress ip port ++ suf) = be_enc 4 MagicCookie ->
  parseLoop fuel (pre ++ attributes others ++ xorAddress ip port ++ suf) (length pre) = Some (inl (mkStunResult ip port)).
Proof.
  induction others as [|[type value] others IH]; intros [|fuel] pre Ho Hf Hp Hc; try (cbn in Hf; lia).
  - apply parseLoop_address; [apply Hip|done|done].
  - apply Forall_cons in Ho as [Ha Ho]. rewrite attributes_cons in Hc |- *. cbn [fst snd] in Hc |- *.
    rewrite <- app_assoc in Hc |- *. rewrite parseLoop_other by done. rewrite app_assoc in Hc |- *.
    apply IH; [done|cbn in Hf; lia|by apply attribute_aligned|done].
Qed.

Lemma stunResponseLoop_response others : forall fuel pre, Forall otherAttribute others -> (length others < fuel)%nat ->
  stunResponseLoop fuel (pre ++ attributes others ++ xorAddress ip port ++ suf) (length pre) = Some (inl (string4 ip, port)).
Proof.
  induction others as [|[type value] others IH]; intros [|fuel] pre Ho Hf; try (cbn in Hf; lia).
  - by apply stunResponseLoop_address.
  - apply Forall_cons in Ho as [Ha Ho]. rewrite attributes_cons. cbn [fst snd]. rewrite <- app_assoc.
    rewrite stunResponseLoop_other by done. rewrite app_assoc. apply IH; [done|cbn in Hf; lia].
Qed.

Lemma length_attributes others : (4 * length others <= length (attributes others))%nat.
Proof.
  induction others as [|a others IH]; [done|]. rewrite attributes_cons, length_app, length_attribute. cbn [length]. lia.
Qed.

End Response.

(** ** Properties *)

(** C29: what a STUN server says is what both parsers read.  A binding response
    carries the address and the port that the server saw, masked with the magic
    cookie, after any attributes of other types, each with its padding, and
    before any bytes at all; the client of the command-line tool reads the
    address and the port, and the engine the address's text and the port. *)
Theorem response_read (len : Z) (tid : bytes) (others : list (Z * bytes)) (ip : bytes) (port : Z) (rest : bytes) :
  length tid = 12%nat -> Forall otherAttribute others -> array 4 ip -> 0 <= port < 65536 ->
  parse (bindingResponse len tid others ip port rest) = Some (inl (mkStunResult ip port)) /\
  parseStunResponse (bindingResponse len tid others ip port rest) = Some (inl (string4 ip, port)).
Proof.
  intros Ht Ho Hip Hp. unfold bindingResponse. fold (attributes others).
  set (pre := be_enc 2 0x0101 ++ be_enc 2 len ++ be_enc 4 MagicCookie ++ tid).
  assert (length pre = 20%nat) as Hl by (unfold pre; rewrite !length_app, !length_be_enc, Ht; done).
  assert (forall x, be_enc 2 0x0101 ++ be_enc 2 len ++ be_enc 4 MagicCookie ++ tid ++ x = pre ++ x) as E
    by (intros; unfold pre; by rewrite <- !app_assoc).
  rewrite E. pose proof (length_attributes others) as Ha.
  unfold parse, parseStunResponse. rewrite (proj2 (Nat.ltb_ge _ _)) by (rewrite length_app; lia). rewrite <- Hl. split.
  - apply parseLoop_response; [done..|rewrite !length_app; lia|by rewrite Hl|].
    unfold pre. rewrite <- !app_assoc, (app_assoc (be_enc 2 _)).
    apply (slice_app_mid (be_enc 2 0x0101 ++ be_enc 2 len)); [by rewrite length_app, !length_be_enc|by rewrite length_be_enc].
  - apply stunResponseLoop_response; [done..|rewrite !length_app; lia].
Qed.

Lemma response_read_witness :
  let resp := bindingResponse 52 (zeros 12) [(0x8022, of_string "server"); (0x0001, [0; 1; 2; 3; 4])] [198; 51; 100; 7] 40000 [1; 2; 3] in
  parse resp = Some (inl (mkStunResult [198; 51; 100; 7] 40000)) /\
  parseStunResponse resp = Some (inl (of_string "198.51.100.7", 40000)).
Proof.
  apply (response_read 52 (zeros 12) [(0x8022, of_string "server"); (0x0001, [0; 1; 2; 3; 4])] [198; 51; 100; 7] 40000 [1; 2; 3]);
    apply (bool_decide_unpack _); vm_compute; exact I.
Defined.

(** ** What the parsers do with other packets *)

(** The engine takes the length of an attribute at its word: a packet of 24
    bytes that announces eight more makes it read past the end, which panics. *)
Definition truncatedResponse : bytes :=
  be_enc 2 0x0101 ++ be_enc 2 4 ++ be_enc 4 MagicCookie ++ zeros 12 ++ be_enc 2 0x0020 ++ be_enc 2 8.
Example truncated_response_panics :
  parseStunResponse truncatedResponse = None /\ parse truncatedResponse = Some (inr ErrNotFound).
Proof. by vm_compute. Qed.

(** The engine reads the first four bytes of an IPv6 address as an IPv4 address. *)
Definition response6 : bytes :=
  be_enc 2 0x0101 ++ be_enc 2 24 ++ be_enc 4 MagicCookie ++ zeros 12 ++
  attribute 0x0020 ([0; 2] ++ be_enc 2 (Z.lxor 40000 0x2112) ++ zip_with Z.lxor ([32; 1; 13; 184] ++ zeros 12) (be_enc 4 MagicCookie ++ zeros 12)).
Example family_is_not_looked_at :
  parse response6 = Some (inr ErrUnsupportedFamily) /\
  parseStunResponse response6 = Some (inl (of_string "32.1.13.184", 40000)).
Proof. by vm_compute. Qed.

(** A new port at the same address is not a change to the client. *)
Example port_is_not_a_change :
  let resp port := bindingResponse 12 (zeros 12) [] [198; 51; 100; 7] port [] in
  exists c1 c2, ProcessPacket (resp 40000) (StartShared true (Some (zeros 12)) NewStunClient).1 =
      Some (c1, Some ([198; 51; 100; 7], 40000, true)) /\
    ProcessPacket (resp 50000) c1 = Some (c2, Some ([198; 51; 100; 7], 50000, false)) /\ publicPort c2 = 50000.
Proof. do 2 eexists. by vm_compute. Qed.
