(* ===== verification/Config.v ===== *)
(** The identity of an end and the text that configures its device: what
    [z/utils/config.go] and [z/utils/key_utils.go] do for the command-line tool
    and [vpnengine.go] for the Android application. *)
From S2P Require Import Prelude Messages NoiseHelpers Text Netip Encodings Uapi.

#[local] Delimit Scope string_scope with string.

(** ** [strings.ToLower], [strings.Split], [strings.TrimSpace] *)

(** ASCII letters; no other character has one of the letters of a role in lower case. *)
Definition lower (c : Z) : Z := if (65 <=? c) && (c <=? 90) then c + 32 else c.
Definition ToLower (s : bytes) : bytes := lower <$> s.

Fixpoint Split (sep : Z) (s : bytes) : list bytes :=
  match s with
  | [] => [[]]
  | c :: s =>
      if c =? sep then [] :: Split sep s
      else match Split sep s with part :: parts => (c :: part) :: parts | [] => [[c]] end
  end.

(** The white space of Unicode in UTF-8. *)
Definition spaces : list bytes :=
  [[9]; [10]; [11]; [12]; [13]; [32]; [0xC2; 0x85]; [0xC2; 0xA0]; [0xE1; 0x9A; 0x80]] ++
  ((fun i => [0xE2; 0x80; 0x80 + Z.of_nat i]) <$> seq 0 11) ++
  [[0xE2; 0x80; 0xA8]; [0xE2; 0x80; 0xA9]; [0xE2; 0x80; 0xAF]; [0xE2; 0x81; 0x9F]; [0xE3; 0x80; 0x80]].

Definition HasPrefix (s prefix : bytes) : bool := bytes_eqb (take (length prefix) s) prefix.

(** The text without one of the leading [sps], as often as there is one. *)
Fixpoint trimLeft (fuel : nat) (sps : list bytes) (s : bytes) : bytes :=
  match fuel with
  | O => s
  | S fuel =>
      match list_find (fun sp => HasPrefix s sp = true) sps with
      | Some (_, sp) => trimLeft fuel sps (drop (length sp) s)
      | None => s
      end
  end.
Definition TrimSpace (s : bytes) : bytes :=
  let s := trimLeft (length s) spaces s in
  reverse (trimLeft (length s) (reverse <$> spaces) (reverse s)).

(** ** Roles *)

Definition master : bytes := of_string "master".
Definition slave : bytes := of_string "slave".

Definition normalizeRole (role : bytes) : bytes :=
  let r := ToLower role in
  if bytes_eqb r (of_string "host") || bytes_eqb r master then master else slave.

Definition oppositeRole (role : bytes) : bytes :=
  if bytes_eqb (normalizeRole role) master then slave else master.

(** ** Identities *)

Definition privatePrefix : bytes := of_string "orbitx/wireguard/private/".
Definition pskPrefix : bytes := of_string "orbitx/wireguard/psk/".

(** The private key of a role of a pair. *)
Definition privateSeed (pair role secret : bytes) : bytes :=
  Sum256 (privatePrefix ++ pair ++ [47] ++ role ++ [47] ++ secret).
Definition pskOf (pair secret : bytes) : bytes := Sum256 (pskPrefix ++ pair ++ [47] ++ secret).

(** The keys of [vpnengine.go]. *)
Record identity := mkIdentity { id_private : bytes; id_public : bytes; id_psk : bytes }.

(** [Config.derivePresharedKey] of the command-line tool: hexadecimal, or empty. *)
Definition derivePresharedKey (pair secret : bytes) : bytes :=
  match secret with [] => [] | _ => hexEncode (pskOf pair secret) end.

(** ** Configuration texts *)

Definition base64ToHex (s : bytes) : option bytes := hexEncode <$> DecodeString s.

Record WireGuardPeer := mkWireGuardPeer {
  EndpointIP : bytes; EndpointPort : Z; PeerPublicKey : bytes; MyPrivateKey : bytes; MyAddress : bytes }.

Definition entry (key : String.string) (value : bytes) : bytes := line (of_string key ++ [61] ++ value).
Arguments entry key%_string value.

(** The [dns] argument and the keepalive given do not come into the text. *)
Definition GenerateWithPresharedKey (peer : WireGuardPeer) (dns allowedIPs : bytes)
    (persistentKeepalive : Z) (psk : bytes) : bytes :=
  let allowedIPs := match allowedIPs with [] => of_string "0.0.0.0/0" | _ => allowedIPs end in
  let persistentKeepalive := if persistentKeepalive =? 0 then 5 else persistentKeepalive in
  match base64ToHex (MyPrivateKey peer), base64ToHex (PeerPublicKey peer) with
  | Some priv, Some pub =>
      entry "private_key" priv ++
      line (of_string "replace_peers=true") ++
      entry "public_key" pub ++
      match psk with [] => [] | _ => entry "preshared_key" psk end ++
      entry "endpoint" (EndpointIP peer ++ [58] ++ printInt (EndpointPort peer)) ++
      line (of_string "replace_allowed_ips=true") ++
      concat ((fun a => match TrimSpace a with [] => [] | ip => entry "allowed_ip" ip end) <$> Split 44 allowedIPs) ++
      entry "persistent_keepalive_interval" (printInt 15)
  | _, _ => []
  end.

Definition Generate (peer : WireGuardPeer) (dns allowedIPs : bytes) (persistentKeepalive : Z) : bytes :=
  GenerateWithPresharedKey peer dns allowedIPs persistentKeepalive [].

Section Config.
Context `{C : Crypto}.

(** [deriveIdentity] of [vpnengine.go]. *)
Definition deriveIdentity (pair role secret : bytes) : identity :=
  let sk := clamp (privateSeed pair (normalizeRole role) secret) in
  mkIdentity sk (scalarBaseMult sk) (pskOf pair secret).

(** The text of [applyWireGuardConfig], if the peer's key is one. *)
Definition engineText (i : identity) (ip : bytes) (port : Z) (pubKeyB64 : bytes) : option bytes :=
  pubKey ← DecodeString pubKeyB64;
  if negb (length pubKey =? 32)%nat then None
  else Some (
    entry "private_key" (hexEncode (id_private i)) ++
    line (of_string "replace_peers=true") ++
    entry "public_key" (hexEncode pubKey) ++
    entry "preshared_key" (hexEncode (id_psk i)) ++
    entry "endpoint" (ip ++ [58] ++ printInt port) ++
    line (of_string "replace_allowed_ips=true") ++
    line (of_string "allowed_ip=10.0.0.1/32") ++
    line (of_string "allowed_ip=10.0.0.2/32") ++
    line (of_string "persistent_keepalive_interval=15")).

End Config.

(** ** The arguments that make no difference *)

(** Whatever keepalive and name server the generator is given, the text has a
    keepalive of 15 seconds and no name server. *)
Example arguments_ignored peer dns dns' allowedIPs k k' psk :
  GenerateWithPresharedKey peer dns allowedIPs k psk = GenerateWithPresharedKey peer dns' allowedIPs k' psk.
Proof. reflexivity. Qed.

Example roles : normalizeRole (of_string "HOST") = master /\ normalizeRole (of_string "Master") = master /\
  normalizeRole (of_string "client") = slave /\ oppositeRole (of_string "host") = slave.
Proof. by vm_compute. Qed.

Example trimmed : TrimSpace (of_string "  10.0.0.1/32" ++ [0xE2; 0x80; 0x83; 10]) = of_string "10.0.0.1/32".
Proof. by vm_compute. Qed.
