(* ===== verification/KeyUtils.v ===== *)
(** The command-line tool's end of a pair, [z/utils/key_utils.go]: its keys, the
    records it publishes and reads, and the configuration it makes of them. *)
From S2P Require Import Prelude Messages NoiseHelpers Text Netip Encodings Uapi Stun Config.

#[local] Delimit Scope string_scope with string.

(** ** Values of any type *)

(** What an [interface{}] of the source holds: strings, booleans, numbers of Go,
    the [float64] a JSON number becomes ([m * 2 ^ e]), lists and maps. *)
Inductive value :=
  | VNil | VBool (b : bool) | VString (s : bytes) | VInt (n : Z) | VInt64 (n : Z)
  | VFloat (m e : Z) | VList (l : list value) | VMap (m : list (bytes * value)).

Definition lookupKey (m : list (bytes * value)) (key : bytes) : option value :=
  snd <$> (snd <$> list_find (fun kv => kv.1 = key) m).
Definition at_ (m : list (bytes * value)) (key : String.string) : option value := lookupKey m (of_string key).
Arguments at_ m key%_string.

(** [int(v)] of a [float64]: towards zero, and what amd64 gives out of range. *)
Definition floatToInt (m e : Z) : Z :=
  let n := if 0 <=? e then m * 2 ^ e else Z.quot m (2 ^ (- e)) in
  if (- 2 ^ 63 <=? n) && (n <? 2 ^ 63) then n else - 2 ^ 63.

Definition getString (m : list (bytes * value)) (key : String.string) : bytes :=
  match at_ m key with Some (VString s) => s | _ => [] end.
Definition getInt (m : list (bytes * value)) (key : String.string) : Z :=
  match at_ m key with Some (VFloat m e) => floatToInt m e | Some (VInt n) => n | _ => 0 end.
Definition getBool (m : list (bytes * value)) (key : String.string) : bool :=
  match at_ m key with Some (VBool b) => b | _ => false end.
Arguments getString m key%_string.
Arguments getInt m key%_string.
Arguments getBool m key%_string.

(** ** Records, [z/models/models.go] *)

Record SignalingPeer := mkSignalingPeer {
  UID : bytes; PublicIP : bytes; PublicPort : Z; WireguardPublicKey : bytes; DeviceName : bytes;
  Online : bool; NetworkType : bytes; UpdatedAt : Z; LastSeen : Z; ProtocolVersion : Z }.
Definition zeroSignalingPeer : SignalingPeer := mkSignalingPeer [] [] 0 [] [] false [] 0 0 0.

Definition ToMap (p : SignalingPeer) : list (bytes * value) :=
  [(of_string "uid", VString (UID p)); (of_string "publicIp", VString (PublicIP p));
   (of_string "publicPort", VInt (PublicPort p)); (of_string "wireguardPublicKey", VString (WireguardPublicKey p));
   (of_string "deviceName", VString (DeviceName p)); (of_string "online", VBool (Online p));
   (of_string "networkType", VString (NetworkType p)); (of_string "updatedAt", VInt64 (UpdatedAt p));
   (of_string "lastSeen", VInt64 (LastSeen p)); (of_string "protocolVersion", VInt (ProtocolVersion p));
   (of_string "hello", VString (of_string "world"))].

(** ** The state *)

Record KeyUtils := mkKeyUtils {
  isHost : bool; k_privateKey : bytes; k_publicKey : bytes; stunClient : StunClient; uuid : bytes; deviceName : bytes;
  k_peer : option SignalingPeer; k_current : option SignalingPeer; k_secret : bytes;
  (** whether [OnStartVPN] is set *)
  onStartVPN : bool }.
#[export] Instance KeyUtils_settable : Settable KeyUtils := fun k =>
  mkKeyUtils (isHost k) (k_privateKey k) (k_publicKey k) (stunClient k) (uuid k) (deviceName k)
    (k_peer k) (k_current k) (k_secret k) (onStartVPN k).

Definition NewKeyUtils (isHost : bool) (deviceName uuid : bytes) : KeyUtils :=
  mkKeyUtils isHost [] [] NewStunClient uuid deviceName None None [] false.
Definition SetPresharedSecret (secret : bytes) (k : KeyUtils) : KeyUtils := k <| k_secret := secret |>.

(** The key file: keys, or not there, or not a key file. *)
Definition keyFile : Type := option (bytes * bytes).

Definition roleOf (isHost : bool) : bytes := if isHost then master else slave.
(** The record an end writes, and the one it reads. *)
Definition pairingPath (id role : bytes) : bytes := of_string "pairings/" ++ id ++ [47] ++ role.

(** The mode of [cmd/orbitx/main_linux.go]: whether the end is the host. *)
Definition modeIsHost (mode : bytes) : option bool :=
  if bytes_eqb mode (of_string "server") then Some true
  else if bytes_eqb mode (of_string "client") then Some false
  else None.

Section KeyUtils.
Context `{C : Crypto}.

(** ** Keys *)

(** The keys, and what is written to the file. *)
Definition deriveAndSaveKey (k : KeyUtils) : KeyUtils * keyFile :=
  let seed := clamp (privateSeed (uuid k) (roleOf (isHost k)) (k_secret k)) in
  let k := k <| k_privateKey := EncodeToString seed |> <| k_publicKey := EncodeToString (scalarBaseMult seed) |> in
  (k, Some (k_privateKey k, k_publicKey k)).

Definition generateKey (rnd : option bytes) : option (bytes * bytes) :=
  priv ← rnd; Some (EncodeToString priv, EncodeToString (scalarBaseMult priv)).

(** Whether there was no error, and what the file then holds. *)
Definition saveOrGetKey (file : keyFile) (rnd : option bytes) (k : KeyUtils) : KeyUtils * keyFile * bool :=
  match file with
  | Some (priv, pub) => (k <| k_privateKey := priv |> <| k_publicKey := pub |>, file, true)
  | None =>
      match generateKey rnd with
      | Some (priv, pub) => (k <| k_privateKey := priv |> <| k_publicKey := pub |>, Some (priv, pub), true)
      | None => (k, file, false)
      end
  end.

(** [written]: whether the file can be written. *)
Definition Init (file : keyFile) (rnd : option bytes) (written : bool) (k : KeyUtils) : KeyUtils * keyFile * bool :=
  match k_secret k with
  | [] => let '(k, file', ok) := saveOrGetKey file rnd k in (k, if written then file' else file, ok)
  | _ => let '(k, file') := deriveAndSaveKey k in (k, if written then file' else file, written)
  end.

(** ** The configuration *)

(** What [OnStartVPN] is given, if it is called. *)
Definition Rerun (k : KeyUtils) : option bytes :=
  match k_peer k, k_current k with
  | Some p, Some _ =>
      if bytes_eqb (k_privateKey k) [] then None
      else if bytes_eqb (PublicIP p) [] || (PublicPort p <=? 0) || bytes_eqb (WireguardPublicKey p) [] then None
      else
        let internalIP := if isHost k then of_string "10.0.0.1" else of_string "10.0.0.2" in
        let config := GenerateWithPresharedKey
          (mkWireGuardPeer (PublicIP p) (PublicPort p) (WireguardPublicKey p) (k_privateKey k) (internalIP ++ of_string "/32"))
          (of_string "1.1.1.1") (of_string "10.0.0.1/32,10.0.0.2/32") 25 (derivePresharedKey (uuid k) (k_secret k)) in
        if bytes_eqb config [] then None
        else if onStartVPN k then Some config else None
  | _, _ => None
  end.

(** What an event makes the tool do: a record to publish under a path, and a
    configuration to start with. *)
Record effects := mkEffects { published : option (bytes * list (bytes * value)); started_ : option bytes }.
Definition noEffects : effects := mkEffects None None.

(** The callback of [StartVPNShared], at [now] milliseconds. *)
Definition endpointChanged (addr : bytes) (port : Z) (changed : bool) (now : Z) (k : KeyUtils) : KeyUtils * effects :=
  if changed then
    let cur := mkSignalingPeer (deviceName k) (string4 addr) port (k_publicKey k) (deviceName k) true
                 (of_string "Go-Client") now now 1 in
    let k := k <| k_current := Some cur |> in
    if bytes_eqb (uuid k) [] then (k, noEffects)
    else (k, mkEffects (Some (pairingPath (uuid k) (roleOf (isHost k)), ToMap cur)) (Rerun k))
  else (k, noEffects).

(** A packet the bind takes for STUN, as [StartVPNShared] registers it. *)
Definition onStunPacket (packet : bytes) (now : Z) (k : KeyUtils) : option (KeyUtils * effects) :=
  '(c, t) ← ProcessPacket packet (stunClient k);
  let k := k <| stunClient := c |> in
  Some (match t with
        | Some (addr, port, changed) => endpointChanged addr port changed now k
        | None => (k, noEffects)
        end).

Definition StartVPNShared (resolved : bool) (rnd : option bytes) (k : KeyUtils) : KeyUtils * option bytes :=
  let '(c, req) := StartShared resolved rnd (stunClient k) in (k <| stunClient := c |>, req).

(** The path [StartPeerListener] reads, and a turn of it with what is there. *)
Definition peerPath (k : KeyUtils) : bytes := pairingPath (uuid k) (roleOf (negb (isHost k))).

Definition peerOf (data : list (bytes * value)) : SignalingPeer :=
  mkSignalingPeer (getString data "uid") (getString data "publicIp") (getInt data "publicPort")
    (getString data "wireguardPublicKey") (getString data "deviceName") (getBool data "online")
    (getString data "networkType") 0 0 0.

Definition peerTick (data : option (list (bytes * value))) (k : KeyUtils) : KeyUtils * option bytes :=
  match data with
  | None => (k, None)
  | Some data =>
      let previous := default zeroSignalingPeer (k_peer k) in
      let peer := peerOf data in
      let k := k <| k_peer := Some peer |> in
      let changed := bytes_eqb (PublicIP previous) [] || negb (bytes_eqb (PublicIP peer) (PublicIP previous)) ||
        negb (PublicPort peer =? PublicPort previous) ||
        negb (bytes_eqb (WireguardPublicKey peer) (WireguardPublicKey previous)) in
      (k, if changed then Rerun k else None)
  end.

End KeyUtils.
