(* ===== verification/Engine.v ===== *)
(** The engine of the Android application, [vpnengine.go]: the status it shares
    under its mutex, the runs that [StartEngine] starts and [StopEngine] ends, and
    the turns of each run's goroutines, which any other turn may come between. *)
From S2P Require Import Prelude Messages NoiseHelpers Text Netip Encodings Uapi Stun Config KeyUtils.

#[local] Delimit Scope string_scope with string.

(** ** The shared state *)

(** A peer as the status has it: address, port, public key in base64. *)
Definition peerInfo : Type := bytes * Z * bytes.

(** Where the goroutine that configures the device stands: before its start, in its
    [select], after taking an update, with the peer it has read, with the peer it has configured. *)
Inductive applier := Starting | Waiting | Reading | Applying (p : peerInfo) | Applied (p : peerInfo) | Ended.
(** The listener: not yet started, between events, or about to tell the applier of a change. *)
Inductive listener := Off | Listening | Notifying.
#[export] Instance applier_eq_dec : EqDecision applier.
Proof. solve_decision. Defined.
#[export] Instance listener_eq_dec : EqDecision listener.
Proof. solve_decision. Defined.

(** One run of the engine: what [StartEngine] was given, and its goroutines. *)
Record run := mkRun {
  r_pair : bytes; r_role : bytes; r_cancelled : bool; r_restartOnce : bool;
  (** whether [OnStunPacket] is set *)
  r_stun : bool;
  r_applier : applier; r_listener : listener }.
#[export] Instance run_settable : Settable run := fun r =>
  mkRun (r_pair r) (r_role r) (r_cancelled r) (r_restartOnce r) (r_stun r) (r_applier r) (r_listener r).

Notation status_t := (gmap bytes value).

(** The variables of the package; the devices, binds and contexts of runs are
    named by the runs. *)
Record Engine := mkEngine {
  tunFd : Z; wgDevice : option nat; cancelFn : option nat; status : status_t;
  stunBind : option nat; stunAddr : bool; peerUpdateCh : bool; forceStunCh : bool;
  keys : identity; runs_ : gmap nat run;
  (** what the engine has done: texts given to devices, records published *)
  e_sets : list (nat * bytes); e_published : list (bytes * list (bytes * value)) }.
#[export] Instance Engine_settable : Settable Engine := fun e =>
  mkEngine (tunFd e) (wgDevice e) (cancelFn e) (status e) (stunBind e) (stunAddr e) (peerUpdateCh e) (forceStunCh e)
    (keys e) (runs_ e) (e_sets e) (e_published e).

Definition key (s : String.string) : bytes := of_string s.
Arguments key s%_string.
Definition vstr (s : String.string) : value := VString (of_string s).
Arguments vstr s%_string.

Definition disconnected : status_t := {[ key "state" := vstr "DISCONNECTED" ]}.
Definition initial : Engine :=
  mkEngine 0 None None disconnected None false false false (mkIdentity zeroKey zeroKey zeroKey) ∅ [] [].

(** [status[k].(string)] and [status[k].(int)], the zero value if it is not one. *)
Definition strAt (s : status_t) (k : String.string) : bytes :=
  match s !! key k with Some (VString v) => v | _ => [] end.
Definition intAt (s : status_t) (k : String.string) : Z :=
  match s !! key k with Some (VInt n) => n | _ => 0 end.
Arguments strAt s k%_string.
Arguments intAt s k%_string.

Definition updateStatus (m : list (bytes * value)) (e : Engine) : Engine :=
  e <| status ::= fun s => foldl (fun s kv => <[kv.1 := kv.2]> s) s m |>.

Definition modRun (g : nat) (f : run -> run) (e : Engine) : Engine := e <| runs_ ::= alter f g |>.

Definition statusPeer (s : status_t) : peerInfo := (strAt s "peerIp", intAt s "peerPort", strAt s "peerPublicKey").

(** ** Calls of the application *)

Definition SubmitTunFd (fd : Z) (e : Engine) : Engine :=
  updateStatus [(key "state", vstr "TUN_READY")] (e <| tunFd := fd |>).

Definition cancelRun (o : option nat) (e : Engine) : Engine :=
  match o with Some g => modRun g (fun r => r <| r_cancelled := true |>) e | None => e end.

(** What the rest of the system answers to [StartEngine]: the TUN device, the
    bind, the first configuration, the device's start, the STUN server's name. *)
Record startEnv := mkStartEnv { tunOk : bool; bindOk : bool; ipcOk : bool; upOk : bool; resolved : bool }.

Section Engine.
Context `{C : Crypto}.

(** [StartEngine] up to its first unlock: an error code or a new context. *)
Definition startFirst (pair role secret : bytes) (e : Engine) : Engine * (Z + nat) :=
  if bytes_eqb pair [] || bytes_eqb secret [] then (e, inl (-1))
  else
    let e := e <| keys := deriveIdentity pair role secret |> in
    if tunFd e <=? 0 then (e, inl (-2))
    else
      let e := cancelRun (cancelFn e) e in
      let g := fresh (dom (runs_ e)) in
      (e <| cancelFn := Some g |> <| runs_ ::= <[g := mkRun pair role false false false Starting Off]> |>, inr g).

(** The rest, for the run [g]; the goroutines start last. *)
Definition startSecond (g : nat) (env : startEnv) (e : Engine) : Engine * Z :=
  let e := modRun g (fun r => r <| r_applier := Ended |>) e in
  if negb (tunOk env) then (e, -3)
  else if negb (bindOk env) then (e, -4)
  else
    let e := updateStatus [(key "state", vstr "CONNECTING"); (key "restartRequested", VBool false)]
               (e <| wgDevice := Some g |> <| stunBind := Some g |>) in
    if negb (ipcOk env) then (e, -5)
    else if negb (upOk env) then (e, -6)
    else
      (modRun g (fun r => r <| r_applier := Waiting |> <| r_listener := Listening |> <| r_stun := true |>)
         (e <| stunAddr ::= orb (resolved env) |>), 0).

Definition StartEngine (pair role secret : bytes) (env : startEnv) (e : Engine) : Engine * Z :=
  match startFirst pair role secret e with
  | (e, inl code) => (e, code)
  | (e, inr g) => startSecond g env e
  end.

(** The status starts anew; the goroutines learn of it by their context. *)
Definition StopEngine (e : Engine) : Engine :=
  let e := cancelRun (cancelFn e) e in
  e <| wgDevice := None |> <| stunBind := None |> <| stunAddr := false |> <| status := disconnected |>.

Definition notifyNetworkChanged (e : Engine) : Engine := e <| forceStunCh := true |>.

(** ** The local end's address *)

(** [requestStunBinding]: the packet for the bind. *)
Definition requestStunBinding (tid : bytes) (e : Engine) : option bytes :=
  match stunBind e with
  | Some _ => if stunAddr e then Some (bindingRequest tid) else None
  | None => None
  end.

(** A turn of [heartbeatLoop]: the request, then the ticker or the channel. *)
Definition heartbeatTurn (tid : bytes) (forced : bool) (e : Engine) : option (Engine * option bytes) :=
  if forced && negb (forceStunCh e) then None
  else Some (if forced then e <| forceStunCh := false |> else e, requestStunBinding tid e).

Definition enginePath (hash role : bytes) : bytes := pairingPath hash (normalizeRole role).

Definition writeEndpoint (hash role ip : bytes) (port now : Z) (e : Engine) : Engine :=
  e <| e_published ::= fun l => l ++ [(enginePath hash role,
    [(key "publicIp", VString ip); (key "publicPort", VInt port);
     (key "wireguardPublicKey", VString (EncodeToString (id_public (keys e))));
     (key "updatedAt", VInt64 now); (key "online", VBool true)])] |>.

Definition updateLocalEndpoint (hash role ip : bytes) (port now : Z) (e : Engine) : Engine :=
  let previousIP := strAt (status e) "publicIp" in
  let previousPort := intAt (status e) "publicPort" in
  let e := updateStatus [(key "publicIp", VString ip); (key "publicPort", VInt port)] e in
  if negb (bytes_eqb previousIP ip) || negb (previousPort =? port)
  then writeEndpoint hash role ip port now e else e.

(** ** The peer's address *)

(** The map with the peer's data in an event of the stream. *)
Definition targetOf (event : list (bytes * value)) : list (bytes * value) :=
  match at_ event "data" with Some (VMap d) => d | _ => event end.

(** The peer of an event that names one in full. *)
Definition peerOfEvent (event : list (bytes * value)) : option peerInfo :=
  let target := targetOf event in
  let ip := getString target "publicIp" in
  let pubKey := getString target "wireguardPublicKey" in
  match at_ target "publicPort" with
  | Some (VFloat m e) =>
      if negb (bytes_eqb pubKey []) && negb (bytes_eqb ip []) && negb (bytes_eqb ip (of_string "0.0.0.0")) && (0 <? m)
      then Some (ip, floatToInt m e, pubKey) else None
  | _ => None
  end.

(** What the listener does with an event while it holds the mutex. *)
Definition peerEvent (g : nat) (event : list (bytes * value)) (e : Engine) : Engine :=
  match peerOfEvent event with
  | None => e
  | Some p =>
      let old := statusPeer (status e) in
      let '(ip, port, pubKey) := p in
      let e := updateStatus [(key "peerIp", VString ip); (key "peerPort", VInt port); (key "peerPublicKey", VString pubKey)] e in
      if negb (bytes_eqb (old.1).1 ip) || negb ((old.1).2 =? port) || negb (bytes_eqb old.2 pubKey)
      then modRun g (fun r => r <| r_listener := Notifying |>) e else e
  end.

Definition complete (p : peerInfo) : bool :=
  let '(ip, port, pubKey) := p in negb (bytes_eqb ip []) && (0 <? port) && negb (bytes_eqb pubKey []).

(** [applyWireGuardConfig]: [ok] is what [IpcSet] answers. *)
Definition applyConfig (g : nat) (p : peerInfo) (ok : bool) (e : Engine) : Engine :=
  let '(ip, port, pubKey) := p in
  match engineText (keys e) ip port pubKey with
  | None => modRun g (fun r => r <| r_applier := Waiting |>) e
  | Some text =>
      modRun g (fun r => r <| r_applier := if ok then Applied p else Waiting |>) (e <| e_sets ::= fun l => l ++ [(g, text)] |>)
  end.

(** ** Turns *)

(** What comes next: a call of the application, or a turn of a goroutine of a run. *)
Inductive event :=
  | Submit (fd : Z)
  | StartFirst (hash role secret : bytes)
  | StartSecond (g : nat) (env : startEnv)
  | StopNow
  | NetworkChanged
  | Heartbeat (g : nat) (tid : bytes) (forced : bool)
  | StunPacket (g : nat) (packet : bytes) (now : Z)
  | UnknownPacket (g : nat)
  | PeerEvent (g : nat) (data : list (bytes * value))
  | Hangup (g : nat)
  | Notify (g : nat)
  | Take (g : nat)
  | Finish (g : nat)
  | Read (g : nat)
  | Apply (g : nat) (ok : bool)
  | Update (g : nat).

Inductive outcome := Next (e : Engine) | Blocked | Panics.

Definition guarded (b : bool) (e : Engine) : outcome := if b then Next e else Blocked.

Definition step (ev : event) (e : Engine) : outcome :=
  match ev with
  | Submit fd => Next (SubmitTunFd fd e)
  | StartFirst hash role secret => Next (startFirst hash role secret e).1
  | StartSecond g env => guarded (bool_decide (r_applier <$> runs_ e !! g = Some Starting)) (startSecond g env e).1
  | StopNow => Next (StopEngine e)
  | NetworkChanged => Next (notifyNetworkChanged e)
  | Heartbeat g tid forced => match heartbeatTurn tid forced e with Some (e, _) => Next e | None => Blocked end
  | StunPacket g packet now =>
      match runs_ e !! g with
      | None => Blocked
      | Some r =>
          if negb (r_stun r) then Blocked
          else match parseStunResponse packet with
               | None => Panics
               | Some (inl (ip, port)) => Next (updateLocalEndpoint (r_pair r) (r_role r) ip port now e)
               | Some (inr _) => Next e
               end
      end
  | UnknownPacket g =>
      match runs_ e !! g with
      | None => Blocked
      | Some r =>
          if r_restartOnce r then Next e
          else Next (updateStatus [(key "restartRequested", VBool true)] (modRun g (fun r => r <| r_restartOnce := true |>) e))
      end
  | PeerEvent g data =>
      guarded (bool_decide (r_listener <$> runs_ e !! g = Some Listening)) (peerEvent g data e)
  | Hangup g =>
      guarded (bool_decide (r_listener <$> runs_ e !! g = Some Listening) && default false (r_cancelled <$> runs_ e !! g))
        (modRun g (fun r => r <| r_listener := Off |>) e)
  | Notify g =>
      guarded (bool_decide (r_listener <$> runs_ e !! g = Some Notifying))
        (modRun g (fun r => r <| r_listener := Listening |>) (e <| peerUpdateCh := true |>))
  | Take g =>
      guarded (bool_decide (r_applier <$> runs_ e !! g = Some Waiting) && peerUpdateCh e)
        (modRun g (fun r => r <| r_applier := Reading |>) (e <| peerUpdateCh := false |>))
  | Finish g =>
      guarded (bool_decide (r_applier <$> runs_ e !! g = Some Waiting) && default false (r_cancelled <$> runs_ e !! g))
        (modRun g (fun r => r <| r_applier := Ended |>) e)
  | Read g =>
      guarded (bool_decide (r_applier <$> runs_ e !! g = Some Reading))
        (let p := statusPeer (status e) in
         modRun g (fun r => r <| r_applier := if complete p then Applying p else Waiting |>) e)
  | Apply g ok =>
      match r_applier <$> runs_ e !! g with
      | Some (Applying p) => Next (applyConfig g p ok e)
      | _ => Blocked
      end
  | Update g =>
      match r_applier <$> runs_ e !! g with
      | Some (Applied p) =>
          Next (updateStatus [(key "state", vstr "CONNECTED"); (key "peerIp", VString p.1.1); (key "peerPort", VInt p.1.2)]
            (modRun g (fun r => r <| r_applier := Waiting |>) e))
      | _ => Blocked
      end
  end.

(** Turns one after the other; nothing, if one cannot be taken. *)
Fixpoint steps (evs : list event) (e : Engine) : option Engine :=
  match evs with
  | [] => Some e
  | ev :: evs => match step ev e with Next e => steps evs e | _ => None end
  end.

End Engine.
