(* ===== verification/EngineRuns.v ===== *)
(** What holds of the engine however its goroutines interleave: the types of the
    status, and that it comes to rest with its device configured for its peer. *)
From stdpp Require Import relations.
From S2P Require Import Prelude TrieBits Messages NoiseHelpers ToyCrypto Text Netip Encodings Uapi Offload Stun Config KeyUtils Engine.

#[local] Delimit Scope string_scope with string.

(** ** The types of the status *)

Definition stateNames : list bytes :=
  [key "DISCONNECTED"; key "TUN_READY"; key "CONNECTING"; key "CONNECTED"].

(** The type of the value under a key; a port of the local end is one of UDP. *)
Definition typeOk (k : bytes) (v : value) : Prop :=
  match v with
  | VString s => k = key "state" /\ s ∈ stateNames \/ k = key "peerIp" \/ k = key "peerPublicKey" \/ k = key "publicIp"
  | VInt n => k = key "peerPort" /\ - 2 ^ 63 <= n < 2 ^ 63 \/ k = key "publicPort" /\ 0 <= n < 65536
  | VBool _ => k = key "restartRequested"
  | _ => False
  end.

Definition typed (s : status_t) : Prop :=
  is_Some (s !! key "state") /\ forall k v, s !! k = Some v -> typeOk k v.

(** Packets are bytes. *)
Definition eventOk (ev : event) : Prop := match ev with StunPacket _ packet _ => all_bytes packet | _ => True end.
#[export] Instance eventOk_dec ev : Decision (eventOk ev).
Proof. destruct ev; apply _. Defined.

(** ** Rest *)

(** The turns that a run takes of its own accord. *)
Definition own (g : nat) (ev : event) : Prop :=
  match ev with
  | Notify g' | Take g' | Read g' | Apply g' _ | Update g' => g' = g
  | _ => False
  end.

Section Runs.
Context `{C : Crypto}.

Inductive turn (g : nat) (e e' : Engine) : Prop :=
  | turn_of ev : own g ev -> step ev e = Next e' -> turn g e e'.

(** The last text that a device was given configures it, the device of the run,
    for the peer of the status. *)
Definition settled (g : nat) (e : Engine) : Prop :=
  let p := statusPeer (status e) in
  forall text, complete p = true -> engineText (keys e) p.1.1 p.1.2 p.2 = Some text -> last (e_sets e) = Some (g, text).

(** Nothing but the run is left, and there is no peer yet. *)
Definition othersEnded (g : nat) (e : Engine) : Prop :=
  forall g' r, g' <> g -> runs_ e !! g' = Some r -> r_applier r = Ended /\ r_listener r = Off.
Definition begun (g : nat) (e : Engine) : Prop :=
  othersEnded g e /\ complete (statusPeer (status e)) = false /\
  exists r, runs_ e !! g = Some r /\ r_applier r = Waiting /\ r_listener r = Listening /\ r_cancelled r = false.

(** Everything but calls that start or stop a run. *)
Definition quiet (ev : event) : Prop :=
  match ev with StartFirst _ _ _ | StartSecond _ _ | StopNow => False | _ => True end.

(** ** Lemmas *)

Lemma strAt_other s k k' v : k' <> key k -> strAt (<[k' := v]> s) k = strAt s k.
Proof. intros H. unfold strAt. by rewrite lookup_insert_ne. Qed.
Lemma intAt_other s k k' v : k' <> key k -> intAt (<[k' := v]> s) k = intAt s k.
Proof. intros H. unfold intAt. by rewrite lookup_insert_ne. Qed.

Lemma updateStatus_status m e : status (updateStatus m e) = foldl (fun s kv => <[kv.1 := kv.2]> s) (status e) m.
Proof. done. Qed.

Lemma typed_insert s k v : typed s -> typeOk k v -> typed (<[k := v]> s).
Proof.
  intros [Hs Ht] Hk. split.
  - destruct (decide (k = key "state")) as [->|Hne]; [by rewrite lookup_insert_eq; eauto|by rewrite lookup_insert_ne].
  - intros k' v' [[<- <-]|[_ E]]%lookup_insert_Some; [done|by apply Ht].
Qed.

Lemma typed_update m e : typed (status e) -> Forall (fun kv => typeOk kv.1 kv.2) m -> typed (status (updateStatus m e)).
Proof.
  rewrite updateStatus_status. generalize (status e). induction m as [|[k v] m IH]; intros s Hs Hm; [done|].
  apply Forall_cons in Hm as [Hk Hm]. apply IH; [by apply typed_insert|done].
Qed.

Lemma typed_disconnected : typed disconnected.
Proof.
  split; [unfold disconnected; rewrite lookup_singleton_eq; eauto|].
  intros k v E. unfold disconnected in E. apply lookup_singleton_Some in E as [<- <-]. left. split; [done|]. apply (bool_decide_unpack _). by vm_compute.
Qed.

Lemma typed_port s : typed s -> - 2 ^ 63 <= intAt s "peerPort" < 2 ^ 63.
Proof.
  intros [_ Ht]. unfold intAt. destruct (s !! key "peerPort") as [v|] eqn:E; [|lia].
  apply Ht in E. destruct v; try lia. destruct E as [[_ H]|[E _]]; [lia|]. by vm_compute in E.
Qed.

Lemma floatToInt_range m e : - 2 ^ 63 <= floatToInt m e < 2 ^ 63.
Proof.
  unfold floatToInt. generalize (if 0 <=? e then m * 2 ^ e else Z.quot m (2 ^ (- e))) as n. intros n. cbv zeta.
  destruct (_ && _) eqn:E; [|lia]. apply andb_true_iff in E. lia.
Qed.

Lemma stunResponse_port fuel resp : all_bytes resp -> forall pos ip port,
  stunResponseLoop fuel resp pos = Some (inl (ip, port)) -> 0 <= port < 65536.
Proof.
  intros Hb. induction fuel as [|fuel IH]; intros pos ip port E; [done|]. cbn [stunResponseLoop] in E.
  destruct (_ <=? _)%nat; [|done]. destruct (getBE 2 resp pos); [|done]. destruct (getBE 2 resp (pos + 2)); [|done].
  cbn [mbind option_bind] in E. destruct (_ && _); [|by eapply IH].
  destruct (getBE 2 resp (pos + 4 + 2)) as [x|] eqn:Ex; [|done]. cbn [mbind option_bind] in E.
  destruct (getBE 4 resp _); [|done]. cbn [mbind option_bind] in E. injection E as <- <-.
  unfold getBE, orElse in Ex. destruct (_ <=? _)%nat; [|done]. cbn [mbind option_bind] in Ex. injection Ex as <-.
  apply (lxor_range _ _ 16); [lia|by apply be_dec2_range|lia].
Qed.

(** The status is typed, and so are the peers that goroutines have read. *)
Definition phaseOk (a : applier) : Prop :=
  match a with Applying p | Applied p => - 2 ^ 63 <= p.1.2 < 2 ^ 63 | _ => True end.
Definition good (e : Engine) : Prop :=
  typed (status e) /\ forall g r, runs_ e !! g = Some r -> phaseOk (r_applier r).

Lemma good_same e e' : status e' = status e -> runs_ e' = runs_ e -> good e -> good e'.
Proof. unfold good. by intros -> ->. Qed.

Lemma good_mod g f e : good e -> (forall r, phaseOk (r_applier r) -> phaseOk (r_applier (f r))) -> good (modRun g f e).
Proof.
  intros [Ht Hr] Hf. split; [done|]. intros g' r E. cbn in E. destruct (decide (g' = g)) as [->|Hne].
  - rewrite lookup_alter_eq in E. destruct (runs_ e !! g) as [r'|] eqn:E'; [|done]. injection E as <-. by eapply Hf, Hr.
  - rewrite lookup_alter_ne in E by done. by eapply Hr.
Qed.

Lemma good_update m e : good e -> Forall (fun kv => typeOk kv.1 kv.2) m -> good (updateStatus m e).
Proof. intros [Ht Hr] Hm. split; [by apply typed_update|exact Hr]. Qed.

Lemma good_cancel o e : good e -> good (cancelRun o e).
Proof. intros H. destruct o; [|done]. by apply good_mod. Qed.

Lemma good_insert g r e : good e -> phaseOk (r_applier r) -> good (e <| runs_ ::= <[g := r]> |>).
Proof.
  intros [Ht Hr] Hp. split; [done|]. intros g' r' E. cbn in E.
  apply lookup_insert_Some in E as [[_ <-]|[_ E]]; [done|by eapply Hr].
Qed.

(** The types of the values the code stores, by computation on the key. *)
Ltac types := repeat (apply Forall_cons; split); [..|apply Forall_nil; done]; cbn [fst snd typeOk];
  first [reflexivity
        | left; split; [reflexivity|eassumption] | right; split; [reflexivity|eassumption]
        | left; split; [reflexivity|apply (bool_decide_unpack _); vm_compute; exact I]
        | right; left; reflexivity | right; right; left; reflexivity | right; right; right; reflexivity].

Lemma good_startFirst hash role secret e : good e -> good (startFirst hash role secret e).1.
Proof.
  intros H. unfold startFirst. destruct (_ || _); [done|]. destruct (_ <=? 0); [by eapply good_same; [..|exact H]|].
  cbv zeta. cbn [fst]. set (e1 := cancelRun _ _). assert (good e1) as H1 by (apply good_cancel; by eapply good_same; [..|exact H]).
  apply (good_insert _ (mkRun hash role false false false Starting Off) (e1 <| cancelFn := _ |>)); [|done].
  by eapply good_same; [..|exact H1].
Qed.

Lemma good_startSecond g env e : good e -> good (startSecond g env e).1.
Proof.
  intros H. unfold startSecond. set (e1 := modRun g _ e). assert (good e1) as H1 by by apply good_mod.
  clearbody e1. cbv zeta. destruct (negb (tunOk env)); [done|]. destruct (negb (bindOk env)); [done|].
  set (e2 := updateStatus _ _).
  assert (good e2) as H2 by (apply good_update; [by eapply good_same; [..|exact H1]|types]). clearbody e2.
  destruct (negb (ipcOk env)); [done|]. destruct (negb (upOk env)); [done|]. cbn [fst].
  apply good_mod; [by eapply good_same; [..|exact H2]|done].
Qed.

Lemma good_local hash role ip port now e : good e -> 0 <= port < 65536 -> good (updateLocalEndpoint hash role ip port now e).
Proof.
  intros H Hp. unfold updateLocalEndpoint. set (e1 := updateStatus _ e).
  assert (good e1) as H1 by (apply good_update; [done|types]). clearbody e1. cbv zeta.
  destruct (_ || _); [by eapply good_same; [..|exact H1]|done].
Qed.

Lemma peerOfEvent_port data p : peerOfEvent data = Some p -> - 2 ^ 63 <= p.1.2 < 2 ^ 63.
Proof.
  unfold peerOfEvent. destruct (at_ _ _) as [[]|]; try done. destruct (_ && _); [|done]. intros [= <-]. apply floatToInt_range.
Qed.

Lemma good_peer g data e : good e -> good (peerEvent g data e).
Proof.
  intros H. unfold peerEvent. destruct (peerOfEvent data) as [[[ip port] pubKey]|] eqn:Ep; [|done].
  apply peerOfEvent_port in Ep. cbn in Ep. set (e1 := updateStatus _ e).
  assert (good e1) as H1 by (apply good_update; [done|types]). clearbody e1. cbv zeta.
  destruct (_ || _); [by apply good_mod|done].
Qed.

Lemma good_step ev e e' : eventOk ev -> good e -> step ev e = Next e' -> good e'.
Proof.
  intros Hev H E. pose proof H as [Ht Hr].
  assert (forall b x, guarded b x = Next e' -> good x -> good e') as Hg by (intros [] x [= <-]; done).
  destruct ev; cbn [step] in E;
    try (injection E as <-); try (eapply (Hg _ _ E)); try (by eapply good_same; [..|exact H]); try (by apply good_mod).
  - apply good_update; [by eapply good_same; [..|exact H]|types].
  - by apply good_startFirst.
  - by apply good_startSecond.
  - unfold StopEngine. set (e1 := cancelRun (cancelFn e) e). assert (good e1) as [H1 H2] by by apply good_cancel. split; [apply typed_disconnected|exact H2].
  - unfold heartbeatTurn in E. destruct (_ && _); [done|]. injection E as <-. destruct forced; [|done]. by eapply good_same; [..|exact H].
  - destruct (runs_ e !! g) as [r|]; [|done]. destruct (negb _); [done|]. unfold parseStunResponse in E.
    destruct (_ <? _)%nat; [by injection E as <-|]. destruct (stunResponseLoop _ _ _) as [[[ip port]|]|] eqn:Es; [|by injection E as <-|done].
    injection E as <-. apply good_local; [done|]. by eapply stunResponse_port.
  - destruct (runs_ e !! g) as [r|]; [|done]. destruct (r_restartOnce r); injection E as <-; [done|].
    apply good_update; [by apply good_mod|types].
  - by apply good_peer.
  - apply good_mod; [done|]. intros r _. destruct (complete (statusPeer (status e))); [exact (typed_port _ Ht)|exact I].
  - destruct (r_applier <$> _) as [[]|] eqn:Ea; try done. injection E as <-. destruct p as [[ip port] pk].
    assert (phaseOk (Applied (ip, port, pk))) as Hp.
    { destruct (runs_ e !! g) as [r|] eqn:Er; [|done]. injection Ea as Ea. specialize (Hr _ _ Er). by rewrite Ea in Hr. }
    unfold applyConfig. destruct (engineText _ _ _ _); [|by apply good_mod].
    apply good_mod; [by eapply good_same; [..|exact H]|]. by destruct ok.
  - destruct (r_applier <$> _) as [[]|] eqn:Ea; try done. injection E as <-.
    assert (phaseOk (Applied p)) as Hp.
    { destruct (runs_ e !! g) as [r|] eqn:Er; [|done]. injection Ea as Ea. specialize (Hr _ _ Er). by rewrite Ea in Hr. }
    apply good_update; [by apply good_mod|types].
Qed.

Lemma good_steps evs : forall e e', Forall eventOk evs -> good e -> steps evs e = Some e' -> good e'.
Proof.
  induction evs as [|ev evs IH]; intros e e' Hev H E; cbn [steps] in E; [by injection E as <-|].
  apply Forall_cons in Hev as [Hev1 Hev]. destruct (step ev e) as [e1| |] eqn:Es; [|done|done].
  eapply IH; [done| |done]. by eapply good_step.
Qed.

(** ** A run by itself *)

Definition textOf (e : Engine) (p : peerInfo) : option bytes := engineText (keys e) p.1.1 p.1.2 p.2.
Definition lastFor (g : nat) (e : Engine) (p : peerInfo) : Prop :=
  forall text, complete p = true -> textOf e p = Some text -> last (e_sets e) = Some (g, text).

(** Word of a change is on its way to the applier. *)
Definition awaited (e : Engine) (r : run) : Prop := peerUpdateCh e = true \/ r_listener r = Notifying.

Definition phase (g : nat) (e : Engine) (r : run) : Prop :=
  let p := statusPeer (status e) in
  match r_applier r with
  | Starting | Ended => False
  | Waiting => awaited e r \/ lastFor g e p
  | Reading => True
  | Applying q => awaited e r \/ q = p
  | Applied q => (awaited e r \/ q = p) /\ lastFor g e q
  end.

Record lively (g : nat) (e : Engine) (r : run) : Prop := {
  l_others : othersEnded g e;
  l_run : runs_ e !! g = Some r;
  l_goes : r_cancelled r = false;
  l_on : r_listener r <> Off;
  l_phase : phase g e r }.

Lemma others_mod g g' f e : othersEnded g e ->
  (g' = g \/ forall r, r_applier (f r) = r_applier r /\ r_listener (f r) = r_listener r) ->
  othersEnded g (modRun g' f e).
Proof.
  intros H Hf g2 r Hne E. cbn in E. destruct (decide (g2 = g')) as [->|].
  - rewrite lookup_alter_eq in E. destruct (runs_ e !! g') as [r'|] eqn:E'; [|done]. injection E as <-.
    destruct Hf as [->|Hf]; [done|]. destruct (Hf r') as [-> ->]. by apply (H g').
  - rewrite lookup_alter_ne in E by done. by apply (H g2).
Qed.

Lemma other_applier g g' e a : othersEnded g e -> r_applier <$> runs_ e !! g' = Some a -> a <> Ended -> g' = g.
Proof.
  intros H E Ha. destruct (decide (g' = g)) as [|Hne]; [done|]. destruct (runs_ e !! g') as [r|] eqn:Er; [|done].
  injection E as <-. by destruct (H g' r Hne Er).
Qed.

Lemma other_listener g g' e a : othersEnded g e -> r_listener <$> runs_ e !! g' = Some a -> a <> Off -> g' = g.
Proof.
  intros H E Ha. destruct (decide (g' = g)) as [|Hne]; [done|]. destruct (runs_ e !! g') as [r|] eqn:Er; [|done].
  injection E as <-. by destruct (H g' r Hne Er).
Qed.

(** What the invariant does not look at may change. *)
Lemma lively_same g e e' r : lively g e r -> runs_ e' = runs_ e -> keys e' = keys e -> e_sets e' = e_sets e ->
  peerUpdateCh e' = peerUpdateCh e -> statusPeer (status e') = statusPeer (status e) -> lively g e' r.
Proof.
  intros [H1 H2 H3 H4 H5] Er Ek Es Ep Ei. constructor; try done; [unfold othersEnded; by rewrite Er|by rewrite Er|].
  unfold phase, awaited, lastFor, textOf in *. by rewrite Ek, Es, Ep, Ei.
Qed.

(** The run itself changes. *)
Lemma lively_mod g f e r : lively g e r -> r_cancelled (f r) = false -> r_listener (f r) <> Off ->
  phase g e (f r) -> lively g (modRun g f e) (f r).
Proof.
  intros [H1 H2 H3 H4 H5] Hc Ho Hp. constructor; try done; [apply others_mod; auto|].
  cbn. by rewrite lookup_alter_eq, H2.
Qed.

Lemma statusPeer_skip s k v : k <> key "peerIp" -> k <> key "peerPort" -> k <> key "peerPublicKey" ->
  statusPeer (<[k := v]> s) = statusPeer s.
Proof. intros. unfold statusPeer. by rewrite !strAt_other, intAt_other. Qed.

Lemma statusPeer_set s ip port pk :
  statusPeer (<[key "peerPublicKey" := VString pk]> (<[key "peerPort" := VInt port]> (<[key "peerIp" := VString ip]> s))) =
  (ip, port, pk).
Proof.
  unfold statusPeer, strAt, intAt.
  rewrite (lookup_insert_ne _ (key "peerPublicKey") (key "peerIp")), (lookup_insert_ne _ (key "peerPort") (key "peerIp")) by done.
  rewrite (lookup_insert_ne _ (key "peerPublicKey") (key "peerPort")) by done. by rewrite !lookup_insert_eq.
Qed.

Lemma statusPeer_put s ip port :
  statusPeer (<[key "peerPort" := VInt port]> (<[key "peerIp" := VString ip]> s)) = (ip, port, strAt s "peerPublicKey").
Proof.
  unfold statusPeer, strAt, intAt.
  rewrite (lookup_insert_ne _ (key "peerPort") (key "peerIp")) by done.
  rewrite (lookup_insert_ne _ (key "peerPort") (key "peerPublicKey")), (lookup_insert_ne _ (key "peerIp") (key "peerPublicKey")) by done.
  by rewrite !lookup_insert_eq.
Qed.

(** A change that the invariant does not look at, of any run. *)
Lemma lively_aside g g' f e r : lively g e r ->
  (forall r, r_applier (f r) = r_applier r /\ r_listener (f r) = r_listener r /\ r_cancelled (f r) = r_cancelled r) ->
  exists r', lively g (modRun g' f e) r'.
Proof.
  intros H Hf. destruct (decide (g' = g)) as [->|Hne].
  - exists (f r). destruct (Hf r) as (E1 & E2 & E3). destruct H as [H1 H2 H3 H4 H5].
    apply lively_mod; [by constructor|by rewrite E3|by rewrite E2|]. unfold phase, awaited in *. by rewrite E1, E2.
  - exists r. destruct H as [H1 H2 H3 H4 H5]. constructor; try done; [|by cbn; rewrite lookup_alter_ne].
    apply others_mod; [done|]. right. intros r'. by destruct (Hf r') as (? & ? & _).
Qed.

Lemma peerInfo_same (old : peerInfo) ip port pk :
  negb (bytes_eqb old.1.1 ip) || negb (old.1.2 =? port) || negb (bytes_eqb old.2 pk) = false -> old = (ip, port, pk).
Proof.
  destruct old as [[ip' port'] pk']. cbn. intros [[E1 E2]%orb_false_iff E3]%orb_false_iff.
  apply negb_false_iff in E1, E2, E3. apply bytes_eqb_true in E1, E3. apply Z.eqb_eq in E2. congruence.
Qed.

Lemma lively_peer g data e r : lively g e r -> exists r', lively g (peerEvent g data e) r'.
Proof.
  intros H. unfold peerEvent. destruct (peerOfEvent data) as [[[ip port] pk]|]; [|eauto]. cbv zeta.
  set (e1 := updateStatus _ e).
  assert (statusPeer (status e1) = (ip, port, pk)) as Ep by apply statusPeer_set.
  destruct (_ || _) eqn:Ec.
  - exists (r <| r_listener := Notifying |>). destruct H as [H1 H2 H3 H4 H5]. constructor; try done.
    + apply others_mod; [exact H1|by left].
    + cbn. by rewrite lookup_alter_eq, H2.
    + unfold phase, awaited in *. cbn. destruct (r_applier r); try done; [by left; right|by left; right|].
      split; [by left; right|apply H5].
  - apply peerInfo_same in Ec. exists r. eapply lively_same; [exact H|done..|]. by rewrite Ep.
Qed.

Lemma last_for_here g e e' p text : textOf e p = Some text -> keys e' = keys e -> e_sets e' = e_sets e ++ [(g, text)] ->
  lastFor g e' p.
Proof. intros Et Ek Es t _ Et'. unfold textOf in *. rewrite Ek, Et in Et'. injection Et' as <-. by rewrite Es, last_snoc. Qed.

Lemma lively_apply g q ok e r : lively g e r -> r_applier r = Applying q -> exists r', lively g (applyConfig g q ok e) r'.
Proof.
  intros H Ea. pose proof (l_phase _ _ _ H) as Hp. unfold phase in Hp. rewrite Ea in Hp.
  pose proof (l_goes _ _ _ H) as Hc. pose proof (l_on _ _ _ H) as Ho. destruct q as [[ip port] pk]. cbn [applyConfig].
  destruct (engineText (keys e) ip port pk) as [text|] eqn:Et.
  - set (e1 := e <| e_sets ::= _ |>). set (f := fun r => r <| r_applier := _ |>). exists (f r).
    assert (lastFor g e1 (ip, port, pk)) as Hl by (by eapply (last_for_here g e)).
    destruct H as [H1 H2 H3 H4 H5]. constructor; try done; [apply others_mod; [exact H1|by left]|by cbn; rewrite lookup_alter_eq, H2|].
    unfold phase, awaited in *. cbn. destruct ok; [done|]. destruct Hp as [?|<-]; [by left|right; exact Hl].
  - eexists. apply lively_mod; [exact H|done..|]. unfold phase. cbn. destruct Hp as [?|<-]; [by left|].
    right. intros text _ Et'. change (engineText (keys e) ip port pk = Some text) in Et'. congruence.
Qed.

Lemma lively_update g q e r : lively g e r -> r_applier r = Applied q ->
  exists r', lively g (updateStatus [(key "state", vstr "CONNECTED"); (key "peerIp", VString q.1.1); (key "peerPort", VInt q.1.2)]
    (modRun g (fun r => r <| r_applier := Waiting |>) e)) r'.
Proof.
  intros H Ea. pose proof (l_phase _ _ _ H) as Hp. unfold phase in Hp. rewrite Ea in Hp. destruct Hp as [Hp Hl].
  set (e2 := updateStatus _ _). exists (r <| r_applier := Waiting |>).
  destruct H as [H1 H2 H3 H4 H5]. constructor; try done; [apply (others_mod g g _ e H1); by left|by cbn; rewrite lookup_alter_eq, H2|].
  unfold phase. cbn [r_applier]. destruct Hp as [?|Hq]; [by left|right].
  assert (statusPeer (status e2) = q) as ->; [|exact Hl].
  assert (status e2 = <[key "peerPort" := VInt q.1.2]> (<[key "peerIp" := VString q.1.1]> (<[key "state" := vstr "CONNECTED"]> (status e)))) as -> by done.
  rewrite statusPeer_put, strAt_other by done. rewrite Hq. done.
Qed.

Lemma lively_step g ev e e' r : quiet ev -> lively g e r -> step ev e = Next e' -> exists r', lively g e' r'.
Proof.
  intros Hq H E. pose proof H as [H1 H2 H3 H4 H5]. pose proof (fun g' a => other_applier g g' e a H1) as Ha.
  pose proof (fun g' a => other_listener g g' e a H1) as Hn.
  assert (forall (b : bool) x, guarded b x = Next e' -> b = true /\ x = e') as Hg by (by intros [] x [= <-]).
  destruct ev as [fd| | | | |g' tid forced|g' packet now|g'|g' data|g'|g'|g'|g'|g'|g' ok|g']; try done; cbn [step] in E.
  - injection E as <-. exists r. eapply lively_same; [exact H|done..|]. by apply (statusPeer_skip _ (key "state")).
  - injection E as <-. exists r. by eapply lively_same.
  - unfold heartbeatTurn in E. destruct (_ && _); [done|]. injection E as <-. exists r. destruct forced; [by eapply lively_same|done].
  - destruct (runs_ e !! g'); [|done]. destruct (negb _); [done|].
    destruct (parseStunResponse _) as [[[ip port]|]|]; [|injection E as <-; eauto|done]. injection E as <-. exists r.
    unfold updateLocalEndpoint. cbv zeta. set (e1 := updateStatus _ e).
    assert (lively g e1 r) as Hl.
    { eapply lively_same; [exact H|done..|]. unfold e1. rewrite updateStatus_status. cbn [foldl fst snd]. by rewrite !statusPeer_skip. }
    clearbody e1. destruct (_ || _); [by eapply lively_same|done].
  - destruct (runs_ e !! g'); [|done]. destruct (r_restartOnce _); injection E as <-; [eauto|].
    destruct (lively_aside g g' (fun r => r <| r_restartOnce := true |>) e r H) as [r' Hr]; [done|]. exists r'.
    eapply lively_same; [exact Hr|done..|]. by apply (statusPeer_skip _ (key "restartRequested")).
  - apply Hg in E as [E%bool_decide_eq_true <-]. rewrite (Hn _ _ E) by done. by eapply lively_peer.
  - apply Hg in E as [[E%bool_decide_eq_true Ec]%andb_true_iff <-]. rewrite (Hn _ _ E) in Ec by done. rewrite H2 in Ec. cbn in Ec. congruence.
  - apply Hg in E as [E%bool_decide_eq_true <-]. rewrite (Hn _ _ E) by done. exists (r <| r_listener := Listening |>).
    constructor; try done; [apply (others_mod g g _ e H1); by left|by cbn; rewrite lookup_alter_eq, H2|].
    unfold phase, awaited in *. cbn. destruct (r_applier r); try done; [by left; left|by left; left|].
    split; [by left; left|apply H5].
  - apply Hg in E as [[E%bool_decide_eq_true Ec]%andb_true_iff <-]. rewrite (Ha _ _ E) by done. exists (r <| r_applier := Reading |>).
    constructor; try done; [apply (others_mod g g _ e H1); by left|by cbn; rewrite lookup_alter_eq, H2].
  - apply Hg in E as [[E%bool_decide_eq_true Ec]%andb_true_iff <-]. rewrite (Ha _ _ E) in Ec by done. rewrite H2 in Ec. cbn in Ec. congruence.
  - apply Hg in E as [E%bool_decide_eq_true <-]. rewrite (Ha _ _ E) by done. eexists. apply lively_mod; [exact H|done..|].
    unfold phase. cbn [r_applier]. destruct (complete _) eqn:Ec; [by right|]. right. intros text Ht. congruence.
  - destruct (r_applier <$> _) as [[]|] eqn:Ea; try done. injection E as <-. pose proof (Ha _ _ Ea) as Hge. rewrite Hge in * by done.
    rewrite H2 in Ea. injection Ea as Ea. by eapply lively_apply.
  - destruct (r_applier <$> _) as [[]|] eqn:Ea; try done. injection E as <-. pose proof (Ha _ _ Ea) as Hge. rewrite Hge in * by done.
    rewrite H2 in Ea. injection Ea as Ea. by eapply lively_update.
Qed.

(** ** Coming to rest *)

Definition phaseWeight (a : applier) : nat :=
  match a with Reading => 4 | Applying _ => 2 | Applied _ => 1 | _ => 0 end.
Definition listenerWeight (l : listener) : nat := match l with Notifying => 6 | _ => 0 end.
(** How many turns a run can still take by itself. *)
Definition weight (g : nat) (e : Engine) : nat :=
  match runs_ e !! g with
  | Some r => listenerWeight (r_listener r) + phaseWeight (r_applier r)
  | None => 0
  end + if peerUpdateCh e then 5 else 0.

Lemma weight_bound g e : (weight g e <= 15)%nat.
Proof.
  unfold weight. destruct (runs_ e !! g) as [r|]; [|destruct (peerUpdateCh e); lia].
  destruct (r_listener r), (r_applier r), (peerUpdateCh e); cbn; lia.
Qed.

Lemma weight_mod g f e r : runs_ e !! g = Some r ->
  weight g (modRun g f e) = (listenerWeight (r_listener (f r)) + phaseWeight (r_applier (f r)) +
    if peerUpdateCh e then 5 else 0)%nat.
Proof. intros H. unfold weight. cbn. by rewrite lookup_alter_eq, H. Qed.

Lemma turn_lighter g e e' r : lively g e r -> turn g e e' -> (weight g e' < weight g e)%nat.
Proof.
  intros H [ev Ho E]. pose proof (l_run _ _ _ H) as Er. assert (weight g e = _) as -> by (unfold weight; rewrite Er; reflexivity).
  assert (forall (b : bool) x, guarded b x = Next e' -> b = true /\ x = e') as Hg by (by intros [] x [= <-]).
  destruct ev; try done; cbn in Ho; subst; cbn [step] in E; rewrite Er in E; cbn [fmap option_fmap option_map] in E.
  - apply Hg in E as [E%bool_decide_eq_true <-]. injection E as E.
    erewrite weight_mod by exact Er. cbn. rewrite E. cbn. destruct (peerUpdateCh e); lia.
  - apply Hg in E as [[E%bool_decide_eq_true Ep]%andb_true_iff <-]. injection E as E.
    erewrite weight_mod by exact Er. cbn. rewrite E, Ep. cbn. lia.
  - apply Hg in E as [E%bool_decide_eq_true <-]. injection E as E. rewrite E.
    erewrite weight_mod by exact Er. destruct (complete (statusPeer (status e))); cbn; lia.
  - destruct (r_applier r) as [| | |q| |] eqn:E2; try done. injection E as <-. destruct q as [[ip port] pk]. cbn [applyConfig].
    destruct (engineText _ _ _ _); erewrite weight_mod by exact Er; cbn.
    + destruct ok; cbn; lia.
    + lia.
  - destruct (r_applier r) as [| | | |q|] eqn:E2; try done. injection E as <-.
    unfold weight at 1. cbn [runs_ updateStatus]. cbn. rewrite lookup_alter_eq, Er. cbn. lia.
Qed.

Lemma turn_lively g e e' r : lively g e r -> turn g e e' -> exists r', lively g e' r'.
Proof. intros H [ev Ho E]. eapply lively_step; [|exact H|exact E]. by destruct ev. Qed.

Lemma turns_bounded g n e e' r : lively g e r -> nsteps (turn g) n e e' -> (n + weight g e' <= weight g e)%nat /\ exists r', lively g e' r'.
Proof.
  intros H Hn. revert r H. induction Hn as [e|n e e1 e2 Ht Hn IH]; intros r H; [split; [lia|eauto]|].
  pose proof (turn_lighter _ _ _ _ H Ht). destruct (turn_lively _ _ _ _ H Ht) as [r1 H1]. destruct (IH r1 H1) as [? ?]. split; [lia|done].
Qed.

(** Where no turn can be taken, the applier waits with nothing to do. *)
Lemma rest_settled g e r : lively g e r -> nf (turn g) e -> settled g e.
Proof.
  intros [H1 H2 H3 H4 H5] Hnf.
  assert (forall ev e', own g ev -> step ev e = Next e' -> False) as Hno by (intros ev e' Ho E; apply Hnf; exists e'; by econstructor).
  assert (r_listener r <> Notifying) as Hl.
  { intros El. eapply (Hno (Notify g)); [done|]. cbn [step]. rewrite H2. cbn. by rewrite El. }
  unfold phase in H5. destruct (r_applier r) as [| | |q|q|] eqn:Ea; try done.
  - destruct (peerUpdateCh e) eqn:Ep.
    + exfalso. eapply (Hno (Take g)); [done|]. cbn [step]. rewrite H2, Ep. cbn. by rewrite Ea.
    + destruct H5 as [[?|?]|H5]; [congruence|done|exact H5].
  - exfalso. eapply (Hno (Read g)); [done|]. cbn [step]. rewrite H2. cbn. by rewrite Ea.
  - exfalso. eapply (Hno (Apply g true)); [done|]. cbn [step]. rewrite H2. cbn. by rewrite Ea.
  - exfalso. eapply (Hno (Update g)); [done|]. cbn [step]. rewrite H2. cbn. by rewrite Ea.
Qed.

Lemma begun_lively g e : begun g e -> exists r, lively g e r.
Proof.
  intros (Ho & Hc & r & Er & Ea & El & Ec). exists r. constructor; try done; [by rewrite El|].
  unfold phase. rewrite Ea. right. intros text E. congruence.
Qed.

Lemma steps_lively g evs : forall e e' r, Forall quiet evs -> lively g e r -> steps evs e = Some e' -> exists r', lively g e' r'.
Proof.
  induction evs as [|ev evs IH]; intros e e' r Hq H E; cbn [steps] in E; [injection E as <-; eauto|].
  apply Forall_cons in Hq as [Hq1 Hq]. destruct (step ev e) as [e1| |] eqn:Es; [|done|done].
  destruct (lively_step _ _ _ _ _ Hq1 H Es) as [r1 H1]. by eapply IH.
Qed.

End Runs.

(** ** Properties *)

Section Properties.
Context `{C : Crypto}.

(** C14: the status is a map of values of any type, which its readers assert the
    types of.  Whatever calls the application makes and however the goroutines of
    its runs, old ones too, come between them, every key of the status has a value
    of its own type and there are no other keys: so no assertion on a key that is
    present ever fails.  The state is always there and one of its four names, and
    the port of the local end is a port. *)
Theorem status_typed (evs : list event) (e : Engine) :
  Forall eventOk evs -> steps evs initial = Some e -> typed (status e).
Proof.
  intros Hev E. apply (good_steps evs initial e Hev); [|done]. split; [apply typed_disconnected|].
  intros g r Er. cbn in Er. by rewrite lookup_empty in Er.
Qed.

(** C8: the engine comes to rest with its device configured for its peer.  From
    the start of a run, with no peer yet and the goroutines of runs before it
    ended, let anything happen, in any order: events of the peer, packets,
    changes of the network, turns of the goroutines.  From there the goroutines
    take at most fifteen turns by themselves; and where they can take none, the
    last text that a device was given is the one of this run's device for the
    peer the status names, if the status names one in full with a key that is
    one. *)
Theorem engine_settles (g : nat) (e0 e : Engine) (evs : list event) (n : nat) (e' : Engine) :
  begun g e0 -> Forall quiet evs -> steps evs e0 = Some e -> nsteps (turn g) n e e' ->
  (n <= 15)%nat /\ (nf (turn g) e' -> settled g e').
Proof.
  intros Hb Hq Es Hn. destruct (begun_lively _ _ Hb) as [r0 H0]. destruct (steps_lively _ _ _ _ _ Hq H0 Es) as [r H].
  destruct (turns_bounded _ _ _ _ _ H Hn) as [Hl [r' H']]. split; [pose proof (weight_bound g e); lia|]. by eapply rest_settled.
Qed.

(** A list of own turns. *)
Lemma turns_of g evs : forall e e', Forall (own g) evs -> steps evs e = Some e' -> nsteps (turn g) (length evs) e e'.
Proof.
  induction evs as [|ev evs IH]; intros e e' Ho E; cbn [steps] in E; [injection E as <-; constructor|].
  apply Forall_cons in Ho as [Ho1 Ho]. destruct (step ev e) as [e1| |] eqn:Es; [|done|done].
  eapply nsteps_l; [by econstructor|by apply IH].
Qed.

End Properties.

(** ** Witnesses *)

#[local] Instance runsCrypto : Crypto := toyCrypto.

Definition allWell : startEnv := mkStartEnv true true true true true.
Definition sampleKey : bytes := EncodeToString (replicate 32 9).
Definition peerData (ip : bytes) (port : Z) : list (bytes * value) :=
  [(key "path", vstr "/");
   (key "data", VMap [(key "publicIp", VString ip); (key "publicPort", VFloat port 0); (key "wireguardPublicKey", VString sampleKey)])].
Definition sampleStart : list event :=
  [Submit 5; StartFirst (of_string "pair") (of_string "Host") (of_string "secret"); StartSecond 0 allWell].
Definition ipA : bytes := of_string "198.51.100.7".
Definition ipB : bytes := of_string "203.0.113.9".
Definition localResponse : bytes := bindingResponse 12 (zeros 12) [] [192; 0; 2; 1] 40000 [].
Definition after (evs : list event) : Engine := default initial (steps evs initial).
Definition started : Engine := after sampleStart.
Definition ownTurns : list event := [Notify 0; Take 0; Read 0; Apply 0 true; Update 0].

Lemma status_typed_witness :
  typed (status (after (sampleStart ++ [StunPacket 0 localResponse 1; PeerEvent 0 (peerData ipA 51820)] ++ ownTurns ++ [UnknownPacket 0]))).
Proof.
  apply (status_typed (sampleStart ++ [StunPacket 0 localResponse 1; PeerEvent 0 (peerData ipA 51820)] ++ ownTurns ++ [UnknownPacket 0])).
  - apply (bool_decide_unpack _). vm_compute. exact I.
  - vm_compute. reflexivity.
Defined.

Lemma runs_started : runs_ started =
  {[ 0%nat := mkRun (of_string "pair") (of_string "Host") false false true Waiting Listening ]}.
Proof. by vm_compute. Qed.

Lemma begun_started : begun 0 started.
Proof.
  split; [|split].
  - intros g r Hne E. rewrite runs_started in E. by apply lookup_singleton_Some in E as [? _].
  - by vm_compute.
  - rewrite runs_started. eexists. by rewrite lookup_singleton_eq.
Qed.

Lemma engine_settles_witness :
  let e := default initial (steps [PeerEvent 0 (peerData ipA 51820); NetworkChanged] started) in
  let e' := default initial (steps ownTurns e) in
  (5 <= 15)%nat /\ (nf (turn 0) e' -> settled 0 e') /\ nf (turn 0) e'.
Proof.
  set (e := default initial (steps [PeerEvent 0 (peerData ipA 51820); NetworkChanged] started)).
  set (e' := default initial (steps ownTurns e)). cbv zeta.
  assert (nf (turn 0) e') as Hnf.
  { intros [x [ev Ho E]]. destruct ev; cbn [own] in Ho; try contradiction; rewrite Ho in E; vm_compute in E; discriminate E. }
  pose proof (engine_settles 0 started e [PeerEvent 0 (peerData ipA 51820); NetworkChanged] 5 e') as H.
  destruct H as [H1 H2].
  - exact begun_started.
  - repeat constructor.
  - vm_compute. reflexivity.
  - apply (turns_of 0 ownTurns); [repeat constructor|vm_compute; reflexivity].
  - split; [exact H1|]. split; [exact H2|exact Hnf].
Defined.

(** ** What interleavings do *)

(** An update that arrives while another is applied is lost: the peer is at [ipB]
    by the last event, but the end of the first configuration writes [ipA] back,
    and the engine comes to rest with the device configured for it. *)
Definition lostUpdate : Engine :=
  after (sampleStart ++ [PeerEvent 0 (peerData ipA 51820); Notify 0; Take 0; Read 0; Apply 0 true;
    PeerEvent 0 (peerData ipB 51821); Notify 0; Update 0; Take 0; Read 0; Apply 0 true; Update 0]).
Example update_lost :
  statusPeer (status lostUpdate) = (ipA, 51820, sampleKey) /\
  (fun text => Some (0%nat, text)) <$> engineText (keys lostUpdate) ipA 51820 sampleKey = Some (last (e_sets lostUpdate)).
Proof. by vm_compute. Qed.

(** A second start without a stop between keeps the status, so that the peer's
    next event changes nothing and the new device is never configured. *)
Definition restarted : Engine :=
  after (sampleStart ++ [PeerEvent 0 (peerData ipA 51820)] ++ ownTurns ++
    [StartFirst (of_string "pair") (of_string "Host") (of_string "secret"); StartSecond 1 allWell; Hangup 0; Finish 0;
     PeerEvent 1 (peerData ipA 51820)]).
Example restart_not_configured :
  wgDevice restarted = Some 1%nat /\ e_sets restarted ≫= (fun s => if (s.1 =? 1)%nat then [s] else []) = [] /\
  peerUpdateCh restarted = false /\ r_listener <$> runs_ restarted !! 1%nat = Some Listening.
Proof. by vm_compute. Qed.

(** A configuration that ends after [StopEngine] leaves the stopped engine
    connected. *)
Example connected_after_stop :
  let e := after (sampleStart ++ [PeerEvent 0 (peerData ipA 51820); Notify 0; Take 0; Read 0; Apply 0 true; StopNow; Update 0]) in
  wgDevice e = None /\ status e !! key "state" = Some (vstr "CONNECTED") /\ status e !! key "peerIp" = Some (VString ipA).
Proof. by vm_compute. Qed.

(** One datagram ends the process. *)
Example datagram_panics : step (StunPacket 0 truncatedResponse 1) started = Panics.
Proof. by vm_compute. Qed.
