(* ===== verification/EngineSpec.v ===== *)
(** What the two ends of a pair promise each other: the Android engine and the
    command-line tool make the same keys and the same configuration, and that
    configuration, given to a device, makes it a peer of the other end. *)
From S2P Require Import Prelude Replay Ratelimiter Messages NoiseHelpers ToyCrypto Text Netip Cookie AllowedIPs Trie RoutingSpec.
From S2P Require Import State IndexTable Timers Handshake Session Send Receive Device Uapi WellFormed Safety UapiSafety Machine UapiSpec.
From S2P Require Import Encodings Stun Config KeyUtils Engine.

#[local] Delimit Scope string_scope with string.

#[local] Opaque Sum256.

(** ** Specification *)

(** The commands of a configuration. *)
Definition pairCommands (psk pk ip : bytes) (port : Z) : list command :=
  [ReplacePeers; PublicKey pk; PresharedKey psk; SetEndpoint (mkAddr ip []) port; ReplaceAllowedIPs;
   AllowedIP true [10; 0; 0; 1] 32; AllowedIP true [10; 0; 0; 2] 32; Keepalive 15].

(** One peer, to which both addresses of the tunnel are routed. *)
Definition pairConfig (psk pk ip : bytes) (port : Z) : config :=
  mkConfig {[ pk := mkSettings psk (Some (mkEndpoint ip port [])) 15 ]}
    {[ keyOf [10; 0; 0; 1] 32 := pk; keyOf [10; 0; 0; 2] 32 := pk ]}.

(** A record of the database that names a peer in full. *)
Definition namesPeer (data : list (bytes * value)) : Prop :=
  getString data "publicIp" <> [] /\ 0 < getInt data "publicPort" /\
  exists pk, DecodeString (getString data "wireguardPublicKey") = Some pk /\ length pk = 32%nat.

(** Two records say the same of an end. *)
Definition sameRecord (r1 r2 : bytes * list (bytes * value)) : Prop :=
  r1.1 = r2.1 /\ Forall (fun k => lookupKey r1.2 k = lookupKey r2.2 k /\ is_Some (lookupKey r1.2 k))
    [of_string "publicIp"; of_string "publicPort"; of_string "wireguardPublicKey"; of_string "online"].

(** ** Lemmas *)

Lemma oppositeRole_host isHost : normalizeRole (roleOf isHost) = roleOf isHost.
Proof. by destruct isHost; vm_compute. Qed.

Section EngineSpec.
Context `{C : Crypto}.

Lemma roleOf_normal role isHost : normalizeRole role = roleOf isHost -> normalizeRole (oppositeRole role) = roleOf (negb isHost).
Proof. intros H. unfold oppositeRole. rewrite H. by destruct isHost; vm_compute. Qed.

Lemma clamp_array sk : array 32 sk -> array 32 (clamp sk).
Proof.
  intros [Hl Hb]. unfold clamp. split; [by rewrite !length_insert|].
  assert (all_bytes (<[0%nat:=Z.land (nth 0 sk 0) 248]> sk)) as H1 by (apply Forall_insert; [done|by apply clamp_first, nth_byte]).
  apply Forall_insert; [done|]. destruct (clamp_last _ (nth_byte 31 _ H1)). unfold is_byte. lia.
Qed.

Lemma clamp_twice sk : array 32 sk -> clamp (clamp sk) = clamp sk.
Proof.
  intros [Hl Hb]. unfold clamp. set (a := Z.land (nth 0 sk 0) 248). set (s1 := <[0%nat := a]> sk).
  set (b := Z.lor (Z.land (nth 31 s1 0) 127) 64). set (s2 := <[31%nat := b]> s1).
  assert (length s1 = 32%nat) as H1 by (unfold s1; by rewrite length_insert).
  assert (nth 0 s2 0 = a) as E0.
  { rewrite nth_lookup. unfold s2, s1. rewrite list_lookup_insert_ne, list_lookup_insert_eq by (done || lia). done. }
  rewrite E0. assert (Z.land a 248 = a) as -> by (unfold a; by rewrite <- Z.land_assoc).
  assert (<[0%nat := a]> s2 = s2) as ->.
  { apply list_insert_id. unfold s2, s1. rewrite list_lookup_insert_ne, list_lookup_insert_eq by (done || lia). done. }
  assert (nth 31 s2 0 = b) as -> by (rewrite nth_lookup; unfold s2; by rewrite list_lookup_insert_eq by lia).
  assert (Z.lor (Z.land b 127) 64 = b) as ->.
  { unfold b. rewrite Z.land_lor_distr_l, <- Z.land_assoc. change (Z.land 127 127) with 127. change (Z.land 64 127) with 64.
    by rewrite <- Z.lor_assoc. }
  apply list_insert_id. unfold s2. by rewrite list_lookup_insert_eq by lia.
Qed.

Lemma Sum256_array m : array 32 (Sum256 m).
Proof. split; [apply length_Sum256|apply Sum256_bytes]. Qed.

Lemma identity_private pair role secret : array 32 (id_private (deriveIdentity pair role secret)) /\
  clamped (id_private (deriveIdentity pair role secret)) /\
  clamp (id_private (deriveIdentity pair role secret)) = id_private (deriveIdentity pair role secret).
Proof.
  unfold deriveIdentity. cbv zeta. cbn [id_private]. split_and!; [apply clamp_array, Sum256_array|apply clamp_clamped, Sum256_array|apply clamp_twice, Sum256_array].
Qed.

(** ** The same configuration *)

Lemma Encode_nonempty s : all_bytes s -> s <> [] -> EncodeToString s <> [].
Proof. intros Hb Hs E. pose proof (Decode_Encode s Hb) as Hd. rewrite E in Hd. by injection Hd. Qed.

Lemma Decode_nonempty s b : DecodeString s = Some b -> b <> [] -> s <> [].
Proof. intros E Hb ->. injection E as <-. done. Qed.

Lemma eqb_nonempty (s : bytes) : s <> [] -> bytes_eqb s [] = false.
Proof. intros H. apply not_true_iff_false. by rewrite bytes_eqb_true. Qed.

(** The lines of both engines that do not depend on the peer. *)
Lemma tail_lines : concat ((fun a => match TrimSpace a with [] => [] | ip => entry "allowed_ip" ip end)
    <$> Split 44 (of_string "10.0.0.1/32,10.0.0.2/32")) ++ entry "persistent_keepalive_interval" (printInt 15) =
  line (of_string "allowed_ip=10.0.0.1/32") ++ line (of_string "allowed_ip=10.0.0.2/32") ++
  line (of_string "persistent_keepalive_interval=15").
Proof. by vm_compute. Qed.

Lemma derivePresharedKey_hex pair secret : secret <> [] ->
  derivePresharedKey pair secret = hexEncode (pskOf pair secret) /\ derivePresharedKey pair secret <> [].
Proof.
  intros Hs. assert (derivePresharedKey pair secret = hexEncode (pskOf pair secret)) as E by (by destruct secret).
  rewrite E. split; [done|]. intros H. apply (f_equal length) in H. rewrite length_hexEncode in H.
  unfold pskOf in H. rewrite length_Sum256 in H. done.
Qed.

Lemma generated i ip port key pk pair secret dns keepalive addr : secret <> [] -> all_bytes (id_private i) ->
  id_psk i = pskOf pair secret -> DecodeString key = Some pk -> length pk = 32%nat ->
  engineText i ip port key = Some (GenerateWithPresharedKey (mkWireGuardPeer ip port key (EncodeToString (id_private i)) addr)
    dns (of_string "10.0.0.1/32,10.0.0.2/32") keepalive (derivePresharedKey pair secret)).
Proof.
  intros Hs Hb Hpsk Hk Hl. destruct (derivePresharedKey_hex pair secret Hs) as [E Hne].
  unfold engineText. rewrite Hk. cbn [mbind option_bind]. rewrite Hl. change (negb (32 =? 32)%nat) with false. cbv iota. f_equal.
  unfold GenerateWithPresharedKey. cbv zeta. change (of_string "10.0.0.1/32,10.0.0.2/32") with (49 :: tail (of_string "10.0.0.1/32,10.0.0.2/32")) at 1.
  cbn [MyPrivateKey PeerPublicKey EndpointIP EndpointPort]. unfold base64ToHex. rewrite Decode_Encode, Hk by done. cbn [fmap option_fmap option_map].
  destruct (derivePresharedKey pair secret) as [|c l] eqn:Ep; [done|]. rewrite E. rewrite tail_lines, Hpsk. done.
Qed.

(** The keys of an end of a pair. *)
Definition hasIdentity (k : KeyUtils) (pair secret : bytes) (i : identity) : Prop :=
  uuid k = pair /\ k_secret k = secret /\ k_privateKey k = EncodeToString (id_private i) /\
  k_publicKey k = EncodeToString (id_public i) /\ onStartVPN k = true.

Lemma Rerun_text k i pair role secret p c : secret <> [] -> i = deriveIdentity pair role secret ->
  hasIdentity k pair secret i -> k_peer k = Some p -> k_current k = Some c ->
  PublicIP p <> [] -> 0 < PublicPort p ->
  (exists pk, DecodeString (WireguardPublicKey p) = Some pk /\ length pk = 32%nat) ->
  Rerun k = engineText i (PublicIP p) (PublicPort p) (WireguardPublicKey p).
Proof.
  intros Hs Hi (Hu & Hsec & Hpriv & _ & Hon) Hp Hc Hip Hport (pk & Hk & Hl).
  destruct (identity_private pair role secret) as ([Hil Hib] & _ & _). rewrite <- Hi in Hil, Hib.
  assert (id_private i <> []) as Hne by (by intros H; rewrite H in Hil).
  assert (pk <> []) as Hpk by (by intros ->).
  unfold Rerun. rewrite Hp, Hc, Hpriv, eqb_nonempty by by apply Encode_nonempty.
  rewrite (eqb_nonempty _ Hip), (eqb_nonempty _ (Decode_nonempty _ _ Hk Hpk)).
  rewrite (proj2 (Z.leb_gt _ _) Hport). cbn [orb]. cbv zeta. rewrite Hu, Hsec.
  erewrite (generated i); [|exact Hs|exact Hib|by rewrite Hi|exact Hk|exact Hl].
  rewrite eqb_nonempty; [by rewrite Hon|].
  unfold GenerateWithPresharedKey. cbn [MyPrivateKey PeerPublicKey]. unfold base64ToHex. rewrite Decode_Encode, Hk by done. done.
Qed.

(** The tool's keys once it has been started with a secret. *)
Lemma Init_identity isHost pair role secret name file rnd written : secret <> [] -> normalizeRole role = roleOf isHost ->
  let k := (Init file rnd written (SetPresharedSecret secret (NewKeyUtils isHost name pair) <| onStartVPN := true |>)).1.1 in
  hasIdentity k pair secret (deriveIdentity pair role secret) /\ k_peer k = None /\ k_current k = None /\
  KeyUtils.isHost k = isHost /\ stunClient k = NewStunClient.
Proof.
  intros Hs Hr. unfold Init, SetPresharedSecret. cbn [k_secret]. destruct secret as [|c secret]; [done|].
  cbn -[deriveIdentity privateSeed clamp EncodeToString]. unfold hasIdentity, deriveIdentity. by rewrite Hr.
Qed.

(** What the packet with the address does. *)
Lemma onStun_told packet addr port now k : parse packet = Some (inl (mkStunResult addr port)) ->
  publicAddress (stunClient k) = None -> onEndpointChanged (stunClient k) = true ->
  onStunPacket packet now k = Some (endpointChanged addr port true now (k <| stunClient :=
    stunClient k <| publicAddress := Some addr |> <| publicPort := port |> |>)).
Proof. intros E Hn Ho. unfold onStunPacket, ProcessPacket. rewrite E. cbn [mbind option_bind]. cbv beta zeta. cbn [sr_Address sr_Port]. rewrite Hn, Ho. done. Qed.

(** The two orders in which a tool learns its own address and its peer. *)
Section Orders.
Context (pair role secret : bytes) (k : KeyUtils) (addr : bytes) (port now : Z) (data : list (bytes * value)).
Let i := deriveIdentity pair role secret.
Context (Hs : secret <> []) (Hpair : pair <> []) (Hk : hasIdentity k pair secret i).
Context (Hp : k_peer k = None) (Hc : k_current k = None) (Hd : namesPeer data).

Lemma address_first :
  let '(k2, eff) := endpointChanged addr port true now k in
  started_ eff = None /\ (peerTick (Some data) k2).2 =
    engineText i (getString data "publicIp") (getInt data "publicPort") (getString data "wireguardPublicKey").
Proof.
  pose proof Hk as (Hu & H2 & H3 & H4 & H5). destruct Hd as (D1 & D2 & D3). unfold endpointChanged. cbv zeta iota.
  change (uuid (k <| k_current := _ |>)) with (uuid k). rewrite Hu, (eqb_nonempty _ Hpair). cbn [started_]. split.
  - unfold Rerun. change (k_peer (k <| k_current := _ |>)) with (k_peer k). by rewrite Hp.
  - unfold peerTick. cbv zeta. change (k_peer (k <| k_current := _ |>)) with (k_peer k). rewrite Hp.
    change (bytes_eqb (PublicIP (default zeroSignalingPeer None)) []) with true. cbn [orb snd].
    by apply (Rerun_text _ i pair role secret (peerOf data) (mkSignalingPeer (deviceName k) (string4 addr) port (k_publicKey k)
      (deviceName k) true (of_string "Go-Client") now now 1)).
Qed.

Lemma peer_first :
  (peerTick (Some data) k).2 = None /\
  started_ (endpointChanged addr port true now (peerTick (Some data) k).1).2 =
    engineText i (getString data "publicIp") (getInt data "publicPort") (getString data "wireguardPublicKey").
Proof.
  pose proof Hk as (Hu & H2 & H3 & H4 & H5). destruct Hd as (D1 & D2 & D3). unfold peerTick. cbv zeta. rewrite Hp.
  change (bytes_eqb (PublicIP (default zeroSignalingPeer None)) []) with true. cbn [orb fst snd]. split.
  - unfold Rerun. change (k_current (k <| k_peer := _ |>)) with (k_current k). rewrite Hc. done.
  - unfold endpointChanged. cbv zeta iota. change (uuid (k <| k_peer := _ |> <| k_current := _ |>)) with (uuid k).
    rewrite Hu, (eqb_nonempty _ Hpair). cbn [started_ snd].
    by apply (Rerun_text _ i pair role secret (peerOf data) (mkSignalingPeer (deviceName k) (string4 addr) port (k_publicKey k)
      (deviceName k) true (of_string "Go-Client") now now 1)).
Qed.

End Orders.

Lemma same_record k e pair role secret addr port now now' : hasIdentity k pair secret (keys e) -> pair <> [] ->
  normalizeRole role = roleOf (isHost k) ->
  exists r, published (endpointChanged addr port true now k).2 = Some r /\
    exists r', e_published (writeEndpoint pair role (string4 addr) port now' e) = e_published e ++ [r'] /\ sameRecord r r'.
Proof.
  intros (Hu & _ & _ & Hpub & _) Hpair Hr. unfold endpointChanged. cbv zeta iota.
  change (uuid (k <| k_current := _ |>)) with (uuid k). rewrite Hu, (eqb_nonempty _ Hpair). cbn [snd published].
  eexists. split; [done|]. eexists. split; [done|]. split; [cbn [fst]; unfold enginePath; by rewrite Hr|].
  rewrite !Forall_cons, Hpub. split_and!; try done; split; try done; eauto.
Qed.

(** ** The configuration of a device *)

Lemma engineText_commands pair role secret ip port pk : let i := deriveIdentity pair role secret in
  array 4 ip -> 0 < port < 65536 -> key32 pk ->
  engineText i (string4 ip) port (EncodeToString pk) =
  Some (line (of_string "private_key" ++ 61 :: hexEncode (id_private i)) ++ configText (pairCommands (id_psk i) pk ip port)).
Proof.
  cbv zeta. generalize (deriveIdentity pair role secret) as i. intros i [Hl Hb] Hp [Hk Hkb].
  unfold engineText. rewrite Decode_Encode by done. cbn [mbind option_bind]. rewrite Hk.
  change (negb (32 =? 32)%nat) with false. cbv iota. f_equal.
  assert (printInt port = Itoa port) as -> by (unfold printInt; by rewrite (proj2 (Z.ltb_ge _ _)) by lia).
  assert (addrPortString (mkAddr ip []) port = string4 ip ++ 58 :: Itoa port) as E.
  { unfold addrPortString, addrString. cbn [a_bytes]. by rewrite Hl. }
  unfold configText, pairCommands. cbn [fmap list_fmap concat compose].
  unfold commandText at 4. cbn [commandValue]. rewrite E, app_nil_r. done.
Qed.

Lemma length_Itoa n k : 0 < k -> 0 <= n < 2 ^ k -> (length (Itoa n) <= Z.to_nat k)%nat.
Proof.
  intros Hk Hn. assert (forall fuel n, (length (decimal fuel n) <= fuel)%nat) as Hd.
  { induction fuel as [|fuel IH]; intros m; cbn [decimal]; [done|]. destruct (_ <? _); [cbn; lia|].
    rewrite length_app. cbn [length]. pose proof (IH (m / 10)). lia. }
  unfold Itoa. etransitivity; [apply Hd|]. destruct (decide (n = 0)) as [->|]; [change (Z.log2 0) with 0; lia|].
  assert (Z.log2 n < k) by (apply Z.log2_lt_pow2; lia). lia.
Qed.

Lemma length_string4 ip : array 4 ip -> (length (string4 ip) <= 35)%nat.
Proof.
  intros [Hl Hb]. destruct ip as [|a [|b [|c [|d []]]]]; try done. rewrite !Forall_cons in Hb.
  assert (forall x, is_byte x -> (length (Itoa x) <= 8)%nat) as H by (intros x Hx; by apply (length_Itoa x 8)).
  destruct Hb as (H1 & H2 & H3 & H4 & _). apply H in H1, H2, H3, H4.
  rewrite string4_cons. repeat (rewrite length_app; cbn [length]). lia.
Qed.

Lemma pairCommands_valid psk pk ip port : key32 psk -> key32 pk -> array 4 ip -> 0 < port < 65536 ->
  Forall validCommand (pairCommands psk pk ip port).
Proof.
  intros Hpsk Hpk [Hl Hb] Hp.
  assert (forall k, key32 k -> zlen (hexEncode k) = 64) as Hh by (intros k [Hk _]; rewrite length_hexEncode, Hk; done).
  unfold pairCommands. rewrite !Forall_cons. split_and!; [by apply (bool_decide_unpack _); vm_compute|..].
  - split; [|done]. unfold commandText. cbn [commandKey commandValue]. rewrite length_app. cbn [length].
    pose proof (Hh pk Hpk). change (length (of_string "public_key")) with 10%nat. lia.
  - split; [|done]. unfold commandText. cbn [commandKey commandValue]. rewrite length_app. cbn [length].
    pose proof (Hh psk Hpsk). change (length (of_string "preshared_key")) with 13%nat. lia.
  - split; [|split_and!; [split; [by left|done]|done|lia..]]. unfold commandText. cbn [commandKey commandValue].
    pose proof (length_string4 ip (conj Hl Hb)). pose proof (length_Itoa port 16 ltac:(lia) ltac:(lia)). unfold addrPortString, addrString. cbn [a_bytes].
    rewrite Hl. change (4 =? 4)%nat with true. cbv iota. repeat (rewrite length_app; cbn [length]). change (length (of_string "endpoint")) with 8%nat. lia.
  - by apply (bool_decide_unpack _); vm_compute.
  - by apply (bool_decide_unpack _); vm_compute.
  - by apply (bool_decide_unpack _); vm_compute.
  - by apply (bool_decide_unpack _); vm_compute.
  - done.
Qed.

(** A device without peers takes a private key. *)
Lemma no_peers st own d : holdsIn st own d (mkConfig ∅ ∅) -> d_keyMap d = ∅.
Proof.
  intros H. apply map_eq. intros pk. rewrite lookup_empty. destruct (d_keyMap d !! pk) as [p|] eqn:E; [|done].
  destruct (h_peer _ _ _ H _ _ E) as (x & _ & _ & _ & _ & Hg). cbn in Hg. by rewrite lookup_empty in Hg.
Qed.

Lemma forNoPeers w (Q : list (bytes * peer_id) -> World -> Prop) :
  d_keyMap (dev w) = ∅ -> (forall o, Q [] (w <| w_order := o |>)) -> runs rangePeers w Q.
Proof.
  intros E HQ. unfold rangePeers. wstep. wstep. rewrite E, map_to_list_empty. unfold rangeOrder, runs. cbn. apply HQ.
Qed.

Lemma setKey_holds st own sk w : holdsIn st own (dev w) (mkConfig ∅ ∅) -> keyEquals sk (d_privateKey (dev w)) = false ->
  runs (SetPrivateKey sk) w (fun _ w' => holdsIn st (scalarBaseMult sk) (dev w') (mkConfig ∅ ∅)).
Proof.
  intros H Hk. pose proof (no_peers _ _ _ H) as E. unfold SetPrivateKey. wstep. wstep. rewrite Hk.
  cbv zeta. wstep. apply forNoPeers; [done|]. intros o. cbn [forEach]. do 5 wstep. apply forNoPeers; [done|]. intros o'.
  cbn [forEach]. repeat wstep. destruct H as [H1 H2 H3 H4 H5]. constructor; cbn; try done.
Qed.

Lemma private_line st own sk w : holdsIn st own (dev w) (mkConfig ∅ ∅) -> array 32 sk -> clamped sk -> clamp sk = sk ->
  d_privateKey (dev w) = zeroKey ->
  runs (setLine newSetPeer true (of_string "private_key" ++ 61 :: hexEncode sk)) w (fun v w' =>
    v = GoesOn newSetPeer true /\ holdsIn st (scalarBaseMult sk) (dev w') (mkConfig ∅ ∅)).
Proof.
  intros H Hk (_ & _ & Hc) Hcl Hz.
  assert (sk <> zeroKey) as Hne by (intros ->; vm_compute in Hc; by destruct Hc).
  assert (keyEquals sk zeroKey = false) as Hke by (apply not_true_iff_false; by unfold keyEquals; rewrite bytes_eqb_true).
  unfold setLine. destruct (of_string "private_key" ++ 61 :: hexEncode sk) as [|c l] eqn:El; [done|]. rewrite <- El. clear El c l.
  rewrite cutAt_app by (apply free_of_string; by repeat constructor).
  change (named (of_string "private_key") "public_key") with false. cbv iota. wstep.
  unfold handleDeviceLine. change (named (of_string "private_key") "private_key") with true. cbv iota.
  unfold privateKeyFromMaybeZeroHex. rewrite key_roundtrip by (done || by destruct Hk).
  unfold keyIsZero. rewrite Hke, Hcl. cbn [negb]. wstep.
  eapply runs_mono; [apply (setKey_holds st own); [exact H|by rewrite Hz]|]. intros ? w' H'. repeat wstep. done.
Qed.

Lemma pairConfig_made psk pk ip port :
  onSettings pk (fun s => mkSettings (s_psk s) (s_endpoint s) 15)
    (withRoute pk true (keyOf [10; 0; 0; 2] 32) (withRoute pk true (keyOf [10; 0; 0; 1] 32) (withoutRoutes pk
      (onSettings pk (fun s => mkSettings (s_psk s) (Some (mkEndpoint (ip ++ []) port [])) (s_keepalive s))
        (onSettings pk (fun s => mkSettings psk (s_endpoint s) (s_keepalive s))
          (mkConfig ∅ ∅ <| g_peers ::= <[pk := noSettings]> |>)))))) = pairConfig psk pk ip port.
Proof.
  unfold pairConfig, onSettings, withRoute, withoutRoutes. cbn -[keyOf]. f_equal.
  rewrite !alter_insert_eq. cbn. by rewrite app_nil_r, insert_empty.
Qed.

(** The commands one after the other, on a device that may be up. *)
Lemma pairCommands_run st own psk pk ip port sp w : st <> deviceStateClosed ->
  holdsIn st own (dev w) (mkConfig ∅ ∅) -> pointsAt (dev w) sp true Nobody -> own <> pk ->
  Forall validCommand (pairCommands psk pk ip port) ->
  runs (setLines (commandText <$> pairCommands psk pk ip port) sp true) w (fun v w' => exists sp',
    v = GoesOn sp' false /\ holdsIn st own (dev w') (pairConfig psk pk ip port) /\ pointsAt (dev w') sp' false (At pk true)).
Proof.
  intros Hst H Hp Hne Hv. unfold pairCommands in *. cbn [fmap list_fmap]. rewrite !Forall_cons in Hv.
  destruct Hv as (V1 & V2 & V3 & V4 & V5 & V6 & V7 & V8 & _).
  eapply (setLines_more st Hst own ReplacePeers _ _ _ Nobody Nobody); [exact H|exact Hp|exact V1|done|reflexivity|].
  clear sp w H Hp. intros sp dc w H Hp.
  eapply (setLines_more st Hst own (PublicKey pk) _ _ _ Nobody (At pk true)); [exact H|exact Hp|exact V2| | |].
  { intros _ _. right. apply Hp. }
  { cbn [specCommand g_peers]. rewrite decide_False by done. rewrite decide_False by (rewrite lookup_empty; by intros [? ?]).
    rewrite decide_False; [reflexivity|]. rewrite map_size_empty. unfold MaxPeers. lia. }
  clear sp dc w H Hp. intros sp dc w H Hp.
  do 5 (eapply (setLines_more st Hst own _ _ _ _ (At pk true) (At pk true)); [exact H|exact Hp|eassumption|done|reflexivity|];
    clear sp dc w H Hp; intros sp dc w H Hp).
  eapply (setLines_more st Hst own (Keepalive 15) _ _ _ (At pk true) (At pk true)); [exact H|exact Hp|exact V8|done|reflexivity|].
  clear sp dc w H Hp. intros sp dc w H Hp. cbn [setLines]. wstep. exists sp.
  pose proof Hp as (-> & _). split; [done|]. split; [|exact Hp].
  match type of H with holdsIn _ _ _ ?g => assert (g = pairConfig psk pk ip port) as <-; [|exact H] end.
  apply pairConfig_made.
Qed.

End EngineSpec.

(** ** Properties *)

Section Agreement.
Context `{C : Crypto}.

(** The tool started with a secret and its STUN requests. *)
Definition startedTool (host : bool) (name pair secret tid : bytes) (file : keyFile) (rnd : option bytes) (written : bool) : KeyUtils :=
  let k := (Init file rnd written (SetPresharedSecret secret (NewKeyUtils host name pair) <| onStartVPN := true |>)).1.1 in
  (StartVPNShared true (Some tid) k).1.

(** C13: the command-line tool and the Android engine are the same end of a pair.
    Given a pair, a role and a secret, the tool publishes under the same path a
    record with the same address, port, public key and presence as the engine,
    reads its peer where the engine does, and, in whichever order it learns its
    own address (from any packet its client can read) and its peer, starts the
    VPN, when it knows both and not before, with the text that the engine gives
    its device for that peer. *)
Theorem engines_agree (host : bool) (pair role secret name tid : bytes) (file : keyFile) (rnd : option bytes)
    (written : bool) (packet addr : bytes) (port now now' : Z) (data : list (bytes * value)) (e : Engine) :
  pair <> [] -> secret <> [] -> normalizeRole role = roleOf host ->
  parse packet = Some (inl (mkStunResult addr port)) -> namesPeer data ->
  keys e = deriveIdentity pair role secret ->
  let k := startedTool host name pair secret tid file rnd written in
  let text := engineText (keys e) (getString data "publicIp") (getInt data "publicPort") (getString data "wireguardPublicKey") in
  peerPath k = enginePath pair (oppositeRole role) /\
  (exists k1 eff, onStunPacket packet now k = Some (k1, eff) /\ started_ eff = None /\ (peerTick (Some data) k1).2 = text /\
     exists r r', published eff = Some r /\
       e_published (writeEndpoint pair role (string4 addr) port now' e) = e_published e ++ [r'] /\ sameRecord r r') /\
  (exists k2 eff, (peerTick (Some data) k).2 = None /\
     onStunPacket packet now (peerTick (Some data) k).1 = Some (k2, eff) /\ started_ eff = text).
Proof.
  intros Hp Hs Hr Hparse Hd He. cbv zeta. unfold startedTool.
  destruct (Init_identity host pair role secret name file rnd written Hs Hr) as (Hk & H1 & H2 & H3 & H4). cbv zeta in *.
  set (k0 := (Init _ _ _ _).1.1) in *. unfold StartVPNShared. rewrite H4. cbn [StartShared fst snd].
  set (k := k0 <| stunClient := _ |>). assert (hasIdentity k pair secret (deriveIdentity pair role secret)) as Hk' by exact Hk.
  rewrite He. split_and!.
  - unfold peerPath. destruct Hk' as (-> & _). change (isHost k) with (KeyUtils.isHost k0). rewrite H3. unfold enginePath.
    by rewrite (roleOf_normal _ _ Hr).
  - rewrite (onStun_told packet addr port now k Hparse) by done. set (k' := k <| stunClient := _ |>).
    assert (hasIdentity k' pair secret (deriveIdentity pair role secret)) as Hk2 by exact Hk.
    pose proof (address_first pair role secret k' addr port now data Hs Hp Hk2 H1 Hd) as Ha.
    destruct (same_record k' e pair role secret addr port now now') as (r & E1 & r' & E2 & E3); [by rewrite He|done|by rewrite Hr, <- H3|].
    destruct (endpointChanged addr port true now k') as [k1 eff] eqn:Ek. destruct Ha as [Ha1 Ha2].
    exists k1, eff. split_and!; [done..|]. by exists r, r'.
  - rewrite (onStun_told packet addr port now (peerTick (Some data) k).1 Hparse) by done.
    set (k' := k <| stunClient := stunClient k <| publicAddress := Some addr |> <| publicPort := port |> |>).
    assert (hasIdentity k' pair secret (deriveIdentity pair role secret)) as Hk2 by exact Hk.
    pose proof (peer_first pair role secret k' addr port now data Hs Hp Hk2 H1 H2 Hd) as [Ha1 Ha2].
    eexists _, _. split; [exact Ha1|]. split; [apply f_equal, surjective_pairing|exact Ha2].
Qed.

(** C7: the configuration of the engine makes two ends peers of each other.  A
    device, down or up, that has no peers and no key yet and is given the text the
    engine makes of a pair, a role, a secret and the record that the engine of the
    opposite role publishes, accepts all of it: it takes the engine's own key, and
    holds exactly one peer, with the other end's public key, the preshared key that
    the other end has too, its address, a keepalive of 15 seconds, and both
    addresses of the tunnel routed to it; then that peer, which is new, is finished
    as for any last peer, which starts it if the device is up. *)
Theorem engine_configures `{CL : !CryptoLaws C} (st : deviceState) (blank : bytes) (pair role secret ip : bytes) (port : Z) (w : World) :
  let me := deriveIdentity pair role secret in
  let other := deriveIdentity pair (oppositeRole role) secret in
  st <> deviceStateClosed -> wf [] [] (dev w) ->
  holdsIn st blank (dev w) (mkConfig ∅ ∅) -> d_privateKey (dev w) = zeroKey ->
  array 4 ip -> 0 < port < 65536 -> all_bytes (id_public other) -> id_public me <> id_public other ->
  exists text w1 sp p w2,
    engineText me (string4 ip) port (EncodeToString (id_public other)) = Some text /\
    IpcSet text w = Some (None, w2) /\
    holdsIn st (id_public me) (dev w1) (pairConfig (id_psk other) (id_public other) ip port) /\
    d_keyMap (dev w1) !! id_public other = Some p /\
    sp_peer sp = Some p /\ sp_created sp = true /\ dummy sp = false /\ handlePostConfig sp w1 = Some (tt, w2).
Proof.
  cbv zeta. intros Hst Hwf H Hz Hip Hport Hb Hne.
  set (me := deriveIdentity pair role secret) in *. set (other := deriveIdentity pair (oppositeRole role) secret) in *.
  destruct (identity_private pair role secret) as (Hk1 & Hk2 & Hk3). fold me in Hk1, Hk2, Hk3.
  assert (key32 (id_public other)) as Hpk by (split; [apply scalarBaseMult_length|done]).
  assert (key32 (id_psk other)) as Hpsk by apply Sum256_array.
  pose proof (pairCommands_valid (id_psk other) (id_public other) ip port Hpsk Hpk Hip Hport) as Hv.
  pose proof (engineText_commands pair role secret ip port (id_public other) Hip Hport Hpk) as Et. cbv zeta in Et. fold me in Et.
  change (id_psk me) with (id_psk other) in Et. set (l := of_string "private_key" ++ 61 :: hexEncode (id_private me)) in *.
  assert (runs (setLines (l :: (commandText <$> pairCommands (id_psk other) (id_public other) ip port)) newSetPeer true) w (fun v w' =>
    exists sp, v = GoesOn sp false /\ holdsIn st (id_public me) (dev w') (pairConfig (id_psk other) (id_public other) ip port) /\
      pointsAt (dev w') sp false (At (id_public other) true))) as Hr.
  { cbn [setLines]. wstep. eapply runs_mono; [by apply (private_line st blank)|]. intros v w' [-> H'].
    apply (pairCommands_run st (id_public me)); [done|exact H'|done|done|done]. }
  destruct (runs_exists _ _ _ Hr) as (v & w1 & E1 & sp & -> & H1 & Hd & Hdm & Hcr & p & Ep & Ek).
  set (text := line l ++ configText (pairCommands (id_psk other) (id_public other) ip port)) in *.
  assert (linesOf text = (l :: (commandText <$> pairCommands (id_psk other) (id_public other) ip port), false)) as El.
  { assert (forall c, hexDigit c = None -> c <> 61 -> c ∉ of_string "private_key" -> c ∉ l) as Hfree.
    { intros c Hc H61 Hp. apply free_app; [done|]. apply not_elem_of_cons. split; [done|]. apply hexEncode_free; [apply Hk1|done]. }
    apply linesOf_before; [|apply Hfree; [done..|apply free_of_string; repeat constructor; done]..|done].
    unfold l. rewrite length_app. cbn [length]. rewrite length_hexEncode, (proj1 Hk1). done. }
  destruct (runs_exists _ _ _ (grown_safe _ _ _ (ok_IpcSet text w Hwf))) as (err & w2 & E2 & _).
  exists text, w1, sp, p, w2. assert (IpcSet text w = Some (err, w2)) as E3 by exact E2.
  rewrite IpcSet_lines, El in E2. apply bind_some in E2 as (v & w1' & E4 & E5). rewrite E1 in E4. injection E4 as <- <-.
  cbn [finish] in E5. apply bind_some in E5 as ([] & w3 & E6 & E7). injection E7 as <- <-. done.
Qed.

End Agreement.

(** ** Witnesses *)

#[local] Instance pairCrypto : Crypto := toyCrypto.

Definition pairName : bytes := of_string "pair".
Definition pairSecret : bytes := of_string "secret".
Definition samplePeer : list (bytes * value) :=
  [(of_string "publicIp", VString (of_string "203.0.113.9")); (of_string "publicPort", VFloat 51820 0);
   (of_string "wireguardPublicKey", VString (EncodeToString (replicate 32 9)))].
Definition sampleResponse : bytes := bindingResponse 12 (zeros 12) [] [198; 51; 100; 7] 40000 [].
Definition sampleEngine : Engine := initial <| keys := deriveIdentity pairName (of_string "Host") pairSecret |>.

Lemma engines_agree_witness :
  let k := startedTool true (of_string "pi") pairName pairSecret (zeros 12) None None true in
  let text := engineText (keys sampleEngine) (of_string "203.0.113.9") 51820 (EncodeToString (replicate 32 9)) in
  peerPath k = enginePath pairName (of_string "slave") /\
  (exists k1 eff, onStunPacket sampleResponse 5 k = Some (k1, eff) /\ started_ eff = None /\ (peerTick (Some samplePeer) k1).2 = text).
Proof.
  destruct (engines_agree true pairName (of_string "Host") pairSecret (of_string "pi") (zeros 12) None None true
    sampleResponse [198; 51; 100; 7] 40000 5 6 samplePeer sampleEngine) as (H1 & (k1 & eff & H2 & H3 & H4 & _) & _).
  - done.
  - done.
  - vm_compute. reflexivity.
  - vm_compute. reflexivity.
  - split; [vm_compute; discriminate|]. split; [vm_compute; reflexivity|]. exists (replicate 32 9). by vm_compute.
  - reflexivity.
  - split; [exact H1|]. exists k1, eff. split; [exact H2|]. split; [exact H3|exact H4].
Defined.

(** A new device after [Up], as [StartEngine] leaves it. *)
Definition upWorld : World :=
  match changeState deviceStateUp fresh_world with Some (_, w) => w | None => fresh_world end.

Lemma wf_upWorld : wf [] [] (dev upWorld).
Proof.
  assert (wf [] [] (dev fresh_world)) as Hf by (apply (wf_NewDevice (Some 1420)); [reflexivity|by vm_compute]).
  unfold upWorld. destruct (runs_exists _ _ _ (grown_change deviceStateUp fresh_world Hf)) as (a & w & E & [[Hw _] _]). by rewrite E.
Qed.

Lemma engine_configures_witness :
  let me := deriveIdentity pairName (of_string "host") pairSecret in
  let other := deriveIdentity pairName (of_string "slave") pairSecret in
  exists text w1 sp p w2,
    engineText me (string4 [203; 0; 113; 9]) 51820 (EncodeToString (id_public other)) = Some text /\
    IpcSet text upWorld = Some (None, w2) /\
    holdsIn deviceStateUp (id_public me) (dev w1) (pairConfig (id_psk other) (id_public other) [203; 0; 113; 9] 51820) /\
    d_keyMap (dev w1) !! id_public other = Some p /\
    sp_peer sp = Some p /\ sp_created sp = true /\ dummy sp = false /\ handlePostConfig sp w1 = Some (tt, w2).
Proof.
  apply (engine_configures deviceStateUp (d_publicKey fresh_device) pairName (of_string "host") pairSecret [203; 0; 113; 9] 51820 upWorld).
  - discriminate.
  - exact wf_upWorld.
  - constructor; [vm_compute; reflexivity|vm_compute; reflexivity| | |].
    + intros pk p E. discriminate E.
    + intros pk E. reflexivity.
    + exists ∅. split; [apply represents_empty|]. split; [intros q p E; discriminate E|reflexivity].
  - vm_compute. reflexivity.
  - split; [reflexivity|]. apply (bool_decide_unpack _). vm_compute. exact I.
  - lia.
  - apply (bool_decide_unpack _). vm_compute. exact I.
  - vm_compute. discriminate.
Defined.

(** ** What the text lets in *)

(** An address that goes into the text as it is may hold lines of its own: this
    record routes every address to the peer it names. *)
Example record_adds_lines :
  let ip := of_string "203.0.113.9:51820" ++ [10] ++ of_string "allowed_ip=0.0.0.0/0" ++ [10] ++ of_string "endpoint=203.0.113.9" in
  exists text w2, engineText (deriveIdentity pairName (of_string "host") pairSecret) ip 51820 (EncodeToString (replicate 32 9)) = Some text /\
    of_string "allowed_ip=0.0.0.0/0" ∈ (linesOf text).1 /\ IpcSet text fresh_world = Some (None, w2).
Proof.
  eexists _, _. split; [vm_compute; reflexivity|]. split; [|vm_compute; reflexivity].
  apply (bool_decide_unpack _). vm_compute. exact I.
Qed.

(** The address of an IPv6 peer goes into the text without brackets, and the
    device refuses it. *)
Example address6_refused :
  exists text w2, engineText (deriveIdentity pairName (of_string "host") pairSecret) (of_string "2001:db8::7") 51820 (EncodeToString (replicate 32 9)) = Some text /\
    IpcSet text fresh_world = Some (Some IpcErrorInvalid, w2).
Proof. eexists _, _. split; [vm_compute; reflexivity|]. vm_compute. reflexivity. Qed.
