(* ===== verification/DomainName.v ===== *)
(** Domain names in the resolver of the user-space network stack
    ([tun/netstack/tun.go]): which texts are names, which names are the same, and
    which responses answer a question. *)
From S2P Require Import Prelude Messages NoiseHelpers Text Netip.

(** ** Which texts are names *)

Definition isLetter (c : Z) : bool := ((97 <=? c) && (c <=? 122)) || ((65 <=? c) && (c <=? 90)).

(** The loop of [isDomainName]: [last], [nonNumeric] and [partlen] at its end;
    [None] is its [return false]. *)
Fixpoint nameLoop (s : bytes) (last : Z) (nonNumeric : bool) (partlen : nat) : option (Z * bool * nat) :=
  match s with
  | [] => Some (last, nonNumeric, partlen)
  | c :: s =>
      if isLetter c || (c =? 95) then nameLoop s c true (S partlen)
      else if isDigit c then nameLoop s c nonNumeric (S partlen)
      else if c =? 45 then
        if last =? 46 then None else nameLoop s c true (S partlen)
      else if c =? 46 then
        if (last =? 46) || (last =? 45) then None
        else if (63 <? partlen)%nat || (partlen =? 0)%nat then None
        else nameLoop s c nonNumeric 0
      else None
  end.

Definition isDomainName (s : bytes) : bool :=
  let l := length s in
  if (l =? 0)%nat || (254 <? l)%nat || ((l =? 254)%nat && negb (default 0 (last s) =? 46)) then false
  else
    match nameLoop s 46 false 0 with
    | None => false
    | Some (last, nonNumeric, partlen) =>
        if (last =? 45) || (63 <? partlen)%nat then false else nonNumeric
    end.

(** ** Names, questions and headers, as [dnsmessage] has them *)

(** [Data[:Length]] of a name. *)
Definition Name : Type := bytes.

Record Question := mkQuestion { q_Name : Name; q_Type : Z; q_Class : Z }.
Record Header := mkHeader {
  h_ID : Z; h_Response : bool; h_Authoritative : bool; h_Truncated : bool;
  h_RecursionDesired : bool; h_RecursionAvailable : bool; h_RCode : Z }.

Definition TypeA : Z := 1.
Definition TypeAAAA : Z := 28.
Definition ClassINET : Z := 1.
Definition RCodeSuccess : Z := 0.
Definition RCodeServerFailure : Z := 2.
Definition RCodeNameError : Z := 3.

(** A byte in lower case, as [equalASCIIName] compares it. *)
Definition lowerASCII (a : Z) : Z := if (65 <=? a) && (a <=? 90) then u8 (a + 0x20) else a.

Fixpoint equalLoop (x y : bytes) : bool :=
  match x, y with
  | a :: x, b :: y => if negb (lowerASCII a =? lowerASCII b) then false else equalLoop x y
  | _, _ => true
  end.
Definition equalASCIIName (x y : Name) : bool :=
  if negb (length x =? length y)%nat then false else equalLoop x y.

Definition checkResponse (reqID : Z) (reqQues : Question) (respHdr : Header) (respQues : Question) : bool :=
  if negb (h_Response respHdr) then false
  else if negb (reqID =? h_ID respHdr) then false
  else if negb (q_Type reqQues =? q_Type respQues) || negb (q_Class reqQues =? q_Class respQues)
          || negb (equalASCIIName (q_Name reqQues) (q_Name respQues)) then false
  else true.

(** ** Reference *)

Definition labelChar (c : Z) : bool := isLetter c || isDigit c || (c =? 95) || (c =? 45).

(** A label: up to 63 letters, digits, underscores and hyphens, with no hyphen
    at either end. *)
Definition labelOk (l : bytes) : Prop :=
  (1 <= length l <= 63)%nat /\ Forall (fun c => labelChar c = true) l /\ head l <> Some 45 /\ last l <> Some 45.

(** Labels with dots between them and perhaps one at the end. *)
Definition dotted (s : bytes) (labels : list bytes) (dot : bool) : Prop :=
  s = joined [46] labels ++ (if dot then [46] else []) /\ labels <> [] /\ Forall labelOk labels.

(** A name: such labels, of at most 253 characters, not all of them digits. *)
Definition domainName (s : bytes) : Prop :=
  exists labels dot, dotted s labels dot /\ (length (joined [46%Z] labels) <= 253)%nat
  /\ exists c, c ∈ s /\ isDigit c = false /\ c <> 46.

(** ** Lemmas: characters *)

Lemma labelChar_dot : labelChar 46 = false.
Proof. done. Qed.

Lemma labelOk_free l : labelOk l -> 46 ∉ l.
Proof.
  intros (_ & Hl & _) Hin. rewrite Forall_forall in Hl. apply Hl in Hin. by rewrite labelChar_dot in Hin.
Qed.

(** The characters up to the first dot say which label is first. *)
Lemma cut_unique a b s t : 46 ∉ a -> 46 ∉ b -> a ++ 46 :: s = b ++ 46 :: t -> a = b /\ s = t.
Proof.
  revert b. induction a as [|x a IH]; intros [|y b] Ha Hb He; simpl in *; simplify_eq; try done.
  - exfalso. apply Hb. left.
  - exfalso. apply Ha. left.
  - rewrite not_elem_of_cons in Ha, Hb. by destruct (IH b) as [-> ->]; [apply Ha|apply Hb|..].
Qed.

Lemma joined_label l ls : joined [46] (l :: ls) = l ++ match ls with [] => [] | _ => 46 :: joined [46] ls end.
Proof. destruct ls; simpl; [by rewrite app_nil_r|done]. Qed.

(** ** Lemmas: what the loop reads *)

(** What the loop has read of the label it is in. *)
Definition partial (cur : bytes) : Prop := Forall (fun c => labelChar c = true) cur /\ head cur <> Some 45.

Definition lastOf (cur : bytes) : Z := default 46 (last cur).

Definition accepts (r : option (Z * bool * nat)) : bool :=
  match r with
  | Some (last, _, partlen) => negb ((last =? 45) || (63 <? partlen)%nat)
  | None => false
  end.

Definition good (s : bytes) : Prop := exists labels dot, dotted s labels dot.

Lemma partial_nil : partial [].
Proof. split; [by apply Forall_nil|done]. Qed.

Lemma partial_free cur : partial cur -> 46 ∉ cur.
Proof. intros [Hl _] Hin. rewrite Forall_forall in Hl. apply Hl in Hin. by rewrite labelChar_dot in Hin. Qed.

Lemma lastOf_snoc cur c : lastOf (cur ++ [c]) = c.
Proof. unfold lastOf. by rewrite last_snoc. Qed.

Lemma lastOf_char cur : partial cur -> cur <> [] -> labelChar (lastOf cur) = true /\ last cur = Some (lastOf cur).
Proof.
  intros [Hl _] Hne. unfold lastOf. destruct (last cur) as [x|] eqn:E; [|by apply last_None in E].
  apply last_Some in E as [l ->]. rewrite Forall_app, Forall_singleton in Hl. by destruct Hl.
Qed.

(** The label that ends here. *)
Lemma label_ends cur : partial cur -> cur <> [] ->
  labelOk cur <-> (lastOf cur =? 45) || (63 <? length cur)%nat = false.
Proof.
  intros Hp Hne. destruct (lastOf_char cur Hp Hne) as [_ Hlast]. destruct Hp as [Hc Hh].
  unfold labelOk. rewrite Hlast, orb_false_iff, Z.eqb_neq, Nat.ltb_ge.
  destruct cur; [done|]. simpl. split; [intros ((? & ?) & _ & _ & Hl)|intros [Hl ?]].
  - split; [congruence|lia].
  - repeat split; [lia|lia|done|done|congruence].
Qed.

Lemma good_end cur : partial cur -> cur <> [] -> good cur <-> labelOk cur.
Proof.
  intros Hp Hne. split.
  - intros (labels & dot & -> & Hl & Hok). pose proof (partial_free _ Hp) as Hfree.
    destruct labels as [|l ls]; [done|]. rewrite joined_label in Hfree |- *.
    destruct ls; [|exfalso; apply Hfree; set_solver]. destruct dot; [exfalso; apply Hfree; set_solver|].
    rewrite !app_nil_r. by inversion Hok.
  - intros Hok. exists [cur], false. split; [simpl; by rewrite app_nil_r|]. split; [done|by constructor].
Qed.

Lemma good_dot cur s : partial cur -> good (cur ++ 46 :: s) <-> labelOk cur /\ (good s \/ s = []).
Proof.
  intros Hp. pose proof (partial_free _ Hp) as Hfree. split.
  - intros (labels & dot & He & Hl & Hok). destruct labels as [|l ls]; [done|].
    inversion Hok as [|? ? Hlok Hls]; subst. pose proof (labelOk_free _ Hlok) as Hl46.
    rewrite joined_label, <- app_assoc in He. destruct ls as [|l2 ls]; [destruct dot|]; simpl in He.
    + destruct (cut_unique cur l s []) as [-> ->]; auto.
    + exfalso. apply Hl46. rewrite app_nil_r in He. rewrite <- He. set_solver.
    + destruct (cut_unique cur l s _ Hfree Hl46 He) as [-> ->]. split; [done|]. left.
      exists (l2 :: ls), dot. done.
  - intros [Hok [(labels & dot & -> & Hl & Hls)| ->]].
    + destruct labels as [|l2 ls]; [done|]. exists (cur :: l2 :: ls), dot. split; [by rewrite (joined_label cur), <- app_assoc|]. split; [done|by constructor].
    + exists [cur], true. split; [done|]. split; [done|by constructor].
Qed.

(** The characters of a good text. *)
Lemma good_chars s : good s -> Forall (fun c => labelChar c = true \/ c = 46) s.
Proof.
  intros (labels & dot & -> & _ & Hok). apply Forall_app. split.
  - apply joined_Forall; [by apply Forall_singleton; right|].
    eapply Forall_impl; [exact Hok|]. intros l (_ & Hl & _). eapply Forall_impl; [exact Hl|]. by left.
  - destruct dot; [|done]. by apply Forall_singleton; right.
Qed.

Lemma good_head s : good s -> head s <> Some 45.
Proof.
  intros (labels & dot & -> & Hl & Hok). destruct labels as [|l ls]; [done|].
  inversion Hok as [|? ? ((? & _) & _ & Hh & _)]; subst. rewrite joined_label.
  destruct l; [simpl in *; lia|done].
Qed.

Lemma partial_snoc cur c : partial cur -> labelChar c = true -> (cur = [] -> c <> 45) -> partial (cur ++ [c]).
Proof.
  intros [Hc Hh] Hl Hd. split; [by apply Forall_app; repeat constructor|].
  destruct cur; simpl in *; [|done]. intros [=]. by apply Hd.
Qed.

Ltac chars := unfold labelChar, isLetter, isDigit in *; lia.

(** The loop accepts what continues its label to a good text. *)
Lemma nameLoop_good s : forall cur nn, partial cur ->
  accepts (nameLoop s (lastOf cur) nn (length cur)) = true <-> good (cur ++ s) \/ (cur = [] /\ s = []).
Proof.
  induction s as [|c s IH]; intros cur nn Hp.
  - rewrite app_nil_r. simpl. destruct (decide (cur = [])) as [->|Hne]; [split; [by right|done]|].
    rewrite negb_true_iff, <- (label_ends cur) by done. rewrite good_end by done. naive_solver.
  - assert (forall nn, labelChar c = true -> (cur = [] -> c <> 45) ->
      accepts (nameLoop s c nn (S (length cur))) = true <-> good (cur ++ c :: s) \/ (cur = [] /\ c :: s = [])) as Hchar.
    { intros n Hc Hd. specialize (IH (cur ++ [c]) n (partial_snoc cur c Hp Hc Hd)).
      rewrite lastOf_snoc, length_app, Nat.add_1_r, <- app_assoc in IH. rewrite IH. simpl.
      split; (intros [?|[? ?]]; [by left|by destruct cur]). }
    cbn [nameLoop]. destruct (isLetter c || (c =? 95)) eqn:El; [apply Hchar; chars|].
    destruct (isDigit c) eqn:Ed; [apply Hchar; chars|]. destruct (Z.eqb_spec c 45) as [->|H45].
    { destruct (Z.eqb_spec (lastOf cur) 46) as [E46|E46].
      - split; [done|]. intros [Hg|[_ ?]]; [|done]. exfalso. destruct (decide (cur = [])) as [->|Hne]; [by apply good_head in Hg|].
        destruct (lastOf_char cur Hp Hne) as [Hlc _]. by rewrite E46 in Hlc.
      - apply Hchar; [done|]. by intros ->. }
    destruct (Z.eqb_spec c 46) as [->|H46].
    + rewrite good_dot by done. destruct (decide (cur = [])) as [->|Hne].
      { simpl. split; [done|]. intros [[((? & _) & _) _]|[_ ?]]; [simpl in *; lia|done]. }
      destruct (lastOf_char cur Hp Hne) as [Hlc _]. destruct (Z.eqb_spec (lastOf cur) 46) as [E46|_]; [by rewrite E46 in Hlc|].
      rewrite (label_ends cur) by done. cbn [orb]. destruct (lastOf cur =? 45); [split; [done|naive_solver]|].
      destruct (63 <? length cur)%nat; [split; [done|naive_solver]|].
      destruct (Nat.eqb_spec (length cur) 0) as [E0|_]; [by destruct cur|]. cbn [orb].
      specialize (IH [] nn). unfold lastOf in IH at 1. simpl in IH. rewrite IH by apply partial_nil. naive_solver.
    + split; [done|]. intros [Hg|[_ ?]]; [|done]. exfalso. apply good_chars, Forall_app in Hg as [_ Hg].
      inversion Hg as [|? ? [Hc| ->]]; subst; [chars|done].
Qed.

(** What the loop says of digits. *)
Lemma nameLoop_nonNumeric s : forall last nn partlen r, nameLoop s last nn partlen = Some r ->
  r.1.2 = true <-> nn = true \/ exists c, c ∈ s /\ isDigit c = false /\ c <> 46.
Proof.
  induction s as [|c s IH]; intros last nn partlen r H; cbn [nameLoop] in H.
  { simplify_eq. simpl. split; [by left|]. intros [?|(c & Hc & _)]; [done|by apply not_elem_of_nil in Hc]. }
  assert (isDigit c = false -> c <> 46 -> forall l n, nameLoop s l true n = Some r -> r.1.2 = true <->
    nn = true \/ exists c', c' ∈ c :: s /\ isDigit c' = false /\ c' <> 46) as Hyes.
  { intros Hd Hc l n Hr. rewrite (IH _ _ _ _ Hr). split; [intros _|by left]. right. exists c. set_solver. }
  assert (isDigit c = true \/ c = 46 -> forall l n, nameLoop s l nn n = Some r -> r.1.2 = true <->
    nn = true \/ exists c', c' ∈ c :: s /\ isDigit c' = false /\ c' <> 46) as Hno.
  { intros Hd l n Hr. rewrite (IH _ _ _ _ Hr). split; (intros [?|(c' & Hin & Hd' & Hc')]; [by left|right; exists c']).
    - split; [by right|done].
    - apply elem_of_cons in Hin as [->|?]; [destruct Hd; congruence|done]. }
  repeat case_match; try done; eauto; try (eapply Hyes; [..|done]; chars); eapply Hno; [|done]; chars.
Qed.

Lemma length_dotted s labels dot : dotted s labels dot ->
  length s = (length (joined [46%Z] labels) + if dot then 1 else 0)%nat /\ (0 < length (joined [46%Z] labels))%nat
  /\ (default 0 (last s) = 46 <-> dot = true).
Proof.
  intros (-> & Hl & Hok). rewrite length_app. split; [by destruct dot|].
  destruct labels as [|l ls] using rev_ind; [done|]. clear IHls Hl. apply Forall_app in Hok as [_ Hok].
  inversion Hok as [|? ? ((Hl & _) & Hc & _ & _)]; subst.
  assert (exists a, joined [46] (ls ++ [l]) = a ++ l) as [a ->].
  { clear. induction ls as [|x ls [a IH]]; [by exists []|]. simpl. rewrite IH. destruct (ls ++ [l]) eqn:E; [by destruct ls|].
    exists (x ++ 46 :: a). by rewrite <- app_assoc. }
  rewrite length_app. split; [lia|]. destruct dot; [by rewrite last_snoc|]. rewrite app_nil_r.
  destruct l as [|x l] using rev_ind; [simpl in Hl; lia|]. rewrite app_assoc, last_snoc. simpl.
  apply Forall_app in Hc as [_ Hc]. inversion Hc; subst. split; [|done]. intros ->. by rewrite labelChar_dot in *.
Qed.

(** The resolver takes a text for a domain name exactly if it is labels
    of 1 to 63 letters, digits, underscores and inner hyphens, with dots between
    them and perhaps one at the end, at most 253 characters without that one,
    not all of them digits. *)
Theorem isDomainName_spec s : isDomainName s = true <-> domainName s.
Proof.
  pose proof (nameLoop_good s [] false) as Hg. unfold lastOf in Hg. simpl in Hg.
  specialize (Hg partial_nil). pose proof (nameLoop_nonNumeric s 46 false 0) as Hn.
  assert ((exists labels dot, dotted s labels dot /\ (length (joined [46%Z] labels) <= 253)%nat) <->
    good s /\ (length s =? 0)%nat || (254 <? length s)%nat || ((length s =? 254)%nat && negb (default 0 (last s) =? 46)) = false) as Hlen.
  { split.
    - intros (labels & dot & Hd & Hl). split; [by exists labels, dot|]. destruct (length_dotted _ _ _ Hd) as (-> & ? & Hdot).
      rewrite (proj2 (Nat.eqb_neq _ _)), (proj2 (Nat.ltb_ge _ _)) by (destruct dot; lia). simpl.
      destruct dot; [rewrite (proj2 Hdot) by done; apply andb_false_r|]. by rewrite (proj2 (Nat.eqb_neq _ _)) by lia.
    - intros [(labels & dot & Hd) Hl]. exists labels, dot. split; [done|].
      destruct (length_dotted _ _ _ Hd) as (Es & ? & Hdot). apply orb_false_iff in Hl as [[_ Hl]%orb_false_iff Hd'].
      apply Nat.ltb_ge in Hl. destruct dot; [lia|].
      destruct (Z.eqb_spec (default 0 (last s)) 46) as [E|_]; [by apply Hdot in E|]. rewrite andb_true_r, Nat.eqb_neq in Hd'. lia. }
  transitivity ((exists labels dot, dotted s labels dot /\ (length (joined [46%Z] labels) <= 253)%nat) /\
    exists c, c ∈ s /\ isDigit c = false /\ c <> 46); [|unfold domainName; naive_solver].
  rewrite Hlen. unfold isDomainName. destruct (_ || _ && _) eqn:El; [naive_solver|].
  destruct (nameLoop s 46 false 0) as [[[lst nn] partlen]|]; simpl in Hg.
  - specialize (Hn _ eq_refl). simpl in Hn. destruct ((lst =? 45) || (63 <? partlen)%nat).
    + split; [done|]. intros [[Hgood _] _]. by pose proof (proj2 Hg (or_introl Hgood)).
    + rewrite Hn. assert (good s) by (destruct (proj1 Hg eq_refl) as [?|[_ ->]]; [done|done]). naive_solver.
  - split; [done|]. intros [[Hgood _] _]. by pose proof (proj2 Hg (or_introl Hgood)).
Qed.

(** ** Lemmas: which responses answer a question *)

Lemma equalLoop_spec x y : length x = length y -> equalLoop x y = true <-> lowerASCII <$> x = lowerASCII <$> y.
Proof.
  revert y. induction x as [|a x IH]; intros [|b y] Hl; try done. injection Hl as Hl.
  cbn [equalLoop]. rewrite !fmap_cons. destruct (Z.eqb_spec (lowerASCII a) (lowerASCII b)) as [->|E]; cbn [negb].
  - rewrite (IH _ Hl). split; [by intros ->|by intros [= ?]].
  - by split; [|intros [=]].
Qed.

(** Names are compared without regard to the case of ASCII letters. *)
Lemma equalASCIIName_spec x y : equalASCIIName x y = true <-> lowerASCII <$> x = lowerASCII <$> y.
Proof.
  unfold equalASCIIName. destruct (Nat.eqb_spec (length x) (length y)) as [E|E]; simpl; [by apply equalLoop_spec|].
  split; [done|]. intros H. apply (f_equal length) in H. by rewrite !length_fmap in H.
Qed.

(** A response answers a question: its id, and the question it repeats. *)
Definition responds (id : Z) (q : Question) (h : Header) (q' : Question) : Prop :=
  h_Response h = true /\ h_ID h = id /\ q_Type q' = q_Type q /\ q_Class q' = q_Class q
  /\ lowerASCII <$> q_Name q' = lowerASCII <$> q_Name q.

Lemma checkResponse_spec id q h q' : checkResponse id q h q' = true <-> responds id q h q'.
Proof.
  unfold checkResponse, responds. destruct (h_Response h); simpl; [|naive_solver].
  destruct (Z.eqb_spec id (h_ID h)); simpl; [|naive_solver].
  destruct (Z.eqb_spec (q_Type q) (q_Type q')); simpl; [|naive_solver].
  destruct (Z.eqb_spec (q_Class q) (q_Class q')); simpl; [|naive_solver].
  pose proof (equalASCIIName_spec (q_Name q) (q_Name q')). destruct (equalASCIIName _ _); simpl; naive_solver.
Qed.

Example names_read :
  isDomainName (of_string "orbitx.example") = true /\ isDomainName (of_string "a_b.c-d.") = true
  /\ isDomainName (of_string "1.2.3") = false /\ isDomainName (of_string "a..b") = false
  /\ isDomainName (of_string "-a.b") = false /\ isDomainName (of_string ".") = false.
Proof. by vm_compute. Qed.
