(* ===== verification/Resolver.v ===== *)
(** The resolver of the user-space network stack ([tun/netstack/tun.go]): its
    questions, the exchanges with the servers, and the lookup of a host.  DNS
    messages are those of golang.org/x/net/dns/dnsmessage, behind the class
    [Dnsmessage]; what the network does is an argument. *)
From S2P Require Import Prelude Messages NoiseHelpers Text Netip DomainName.

(** ** DNS messages *)

Inductive parseError := SectionDone | Malformed.

(** The parser goes through a message; an answer's header is its type. *)
Class Dnsmessage := {
  Parser : Type;
  noParser : Parser;
  Start : bytes -> option (Parser * Header);
  ParseQuestion : Parser -> option Question * Parser;
  SkipQuestion : Parser -> option parseError * Parser;
  AnswerHeader : Parser -> (Z + parseError) * Parser;
  SkipAnswer : Parser -> option parseError * Parser;
  AResource : Parser -> option bytes * Parser;
  AAAAResource : Parser -> option bytes * Parser;
  NewName : bytes -> option Name;
  Builder : Type;
  NewBuilder : bytes -> Header -> Builder;
  EnableCompression : Builder -> Builder;
  StartQuestions : Builder -> option Builder;
  AddQuestion : Question -> Builder -> option Builder;
  Finish : Builder -> option bytes }.

(** ** Errors *)

(** The errors of the file, those of package context and io, and any other of
    the network: whether it is a timeout, whether it is a [net.OpError]. *)
Inductive err :=
  | errNoSuchHost | errLameReferral | errCannotUnmarshalDNSMessage | errCannotMarshalDNSMessage
  | errServerMisbehaving | errInvalidDNSResponse | errNoAnswerFromDNSServer | errServerTemporarilyMisbehaving
  | errCanceled | errTimeout | errNumericPort | errNoSuitableAddress | errMissingAddress
  | Canceled | DeadlineExceeded | EOF | ErrUnexpectedEOF
  | NetError (timeout op : bool) (text : bytes).

Definition Error (e : err) : bytes :=
  match e with
  | errNoSuchHost => of_string "no such host"
  | errLameReferral => of_string "lame referral"
  | errCannotUnmarshalDNSMessage => of_string "cannot unmarshal DNS message"
  | errCannotMarshalDNSMessage => of_string "cannot marshal DNS message"
  | errServerMisbehaving => of_string "server misbehaving"
  | errInvalidDNSResponse => of_string "invalid DNS response"
  | errNoAnswerFromDNSServer => of_string "no answer from DNS server"
  | errServerTemporarilyMisbehaving => of_string "server misbehaving"
  | errCanceled => of_string "operation was canceled"
  | errTimeout => of_string "i/o timeout"
  | errNumericPort => of_string "port must be numeric"
  | errNoSuitableAddress => of_string "no suitable address found"
  | errMissingAddress => of_string "missing address"
  | Canceled => of_string "context canceled"
  | DeadlineExceeded => of_string "context deadline exceeded"
  | EOF => of_string "EOF"
  | ErrUnexpectedEOF => of_string "unexpected EOF"
  | NetError _ _ text => text
  end.

(** Whether it is a [net.Error] with [Timeout()], and whether a [net.OpError]. *)
Definition Timeout (e : err) : bool := match e with DeadlineExceeded => true | NetError t _ _ => t | _ => false end.
Definition isOpError (e : err) : bool := match e with NetError _ op _ => op | _ => false end.

(** What an error of a context is called. *)
Definition ctxError (e : err) : err :=
  match e with Canceled => errCanceled | DeadlineExceeded => errTimeout | _ => e end.

Record DNSError := mkDNSError {
  de_Err : bytes; de_Name : bytes; de_Server : bytes; de_IsTimeout : bool; de_IsTemporary : bool; de_IsNotFound : bool }.
Inductive lookupError := Plain (e : err) | DNS (e : DNSError).

(** ** The network *)

(** A connection: whether its deadline and its request are accepted, what arrives
    before the deadline, datagram by datagram or piece by piece, and the error of
    the read after that. *)
Record conn := mkConn { c_deadlineErr : option err; c_writeErr : option err; c_arrives : list bytes; c_last : err }.

Inductive action :=
  | Dialed (udp : bool) (server : Addr) (port : Z) | DeadlineSet (d : gotime) | Written (b : bytes) | Closed.

(** What one goroutine that looks up a name meets: random bytes, the clock and
    connections, in the order it asks for them, and what it has done. *)
Record World := mkWorld {
  w_rand : nat -> option (Z * Z); w_now : nat -> Z; w_dial : nat -> conn + err;
  n_rand : nat; n_now : nat; n_dial : nat; w_log : list action }.
#[export] Instance World_settable : Settable World := fun w =>
  mkWorld (w_rand w) (w_now w) (w_dial w) (n_rand w) (n_now w) (n_dial w) (w_log w).

Definition act (a : action) : ST World unit := fun w => Some (tt, w <| w_log ::= fun l => l ++ [a] |>).
Definition now : ST World Z := fun w => Some (w_now w (n_now w), w <| n_now ::= S |>).
Definition dial (udp : bool) (server : Addr) (port : Z) : ST World (conn + err) := fun w =>
  Some (w_dial w (n_dial w), w <| n_dial ::= S |> <| w_log ::= fun l => l ++ [Dialed udp server port] |>).

(** [context.WithDeadline]: the earlier of the two deadlines; [None] is a context
    without one. *)
Definition WithDeadline (ctx : option gotime) (d : Z) : gotime :=
  match ctx with
  | None => Some d
  | Some None => None
  | Some (Some c) => Some (if c <? d then c else d)
  end.

(** [io.ReadFull] on what arrives as a stream: the bytes and the rest of it. *)
Definition ReadFull (n : nat) (stream : bytes) (last : err) : bytes * bytes + err :=
  if (n <=? length stream)%nat then inl (take n stream, drop n stream)
  else inr match last, stream with EOF, _ :: _ => ErrUnexpectedEOF | _, _ => last end.

(** More answers than the count of a message's header can say. *)
Definition maxAnswers : nat := Z.to_nat 65536.

Section Resolver.
  Context `{Dnsmessage}.

(** ** Requests *)

Definition randU16 : ST World Z := fun w =>
  match w_rand w (n_rand w) with
  | Some (a, b) => Some (le_dec [a; b], w <| n_rand ::= S |>)
  | None => None
  end.

(** The id, the message, and the message with its length before it; [inr] is an error. *)
Definition newRequest (q : Question) : ST World (Z * bytes * bytes + unit) :=
  let* id := randU16 in
  let b := EnableCompression (NewBuilder (zeros 2) (mkHeader id false false false true false 0)) in
  match StartQuestions b with
  | None => ret (inr tt)
  | Some b =>
      match AddQuestion q b with
      | None => ret (inr tt)
      | Some b =>
          match Finish b with
          | Some (_ :: _ :: udpReq) =>
              let l := zlen udpReq in
              ret (inl (id, udpReq, u8 (Z.shiftr l 8) :: u8 l :: udpReq))
          | _ => panic
          end
      end
  end.

(** ** Round trips *)

(** The loop over datagrams: those that do not parse or do not answer are passed over. *)
Fixpoint packetLoop (id : Z) (query : Question) (arrives : list bytes) (last : err) : Parser * Header + err :=
  match arrives with
  | [] => inr last
  | d :: arrives =>
      match Start (take 512 d) with
      | None => packetLoop id query arrives last
      | Some (p, h) =>
          match ParseQuestion p with
          | (None, _) => packetLoop id query arrives last
          | (Some q, p) => if negb (checkResponse id query h q) then packetLoop id query arrives last else inl (p, h)
          end
      end
  end.

Definition dnsPacketRoundTrip (c : conn) (id : Z) (query : Question) (b : bytes) : ST World (Parser * Header + err) :=
  act (Written b);;;
  ret match c_writeErr c with
      | Some e => inr e
      | None => packetLoop id query (c_arrives c) (c_last c)
      end.

(** What [dnsStreamRoundTrip] reads once its request is written. *)
Definition streamResponse (id : Z) (query : Question) (stream : bytes) (last : err) : Parser * Header + err :=
  match ReadFull 2 stream last with
  | inr e => inr e
  | inl (b, stream) =>
      let l := Z.to_nat (Z.lor (Z.shiftl (nth 0 b 0) 8) (nth 1 b 0)) in
      match ReadFull l stream last with
      | inr e => inr e
      | inl (b, _) =>
          match Start b with
          | None => inr errCannotUnmarshalDNSMessage
          | Some (p, h) =>
              match ParseQuestion p with
              | (None, _) => inr errCannotUnmarshalDNSMessage
              | (Some q, p) => if negb (checkResponse id query h q) then inr errInvalidDNSResponse else inl (p, h)
              end
          end
      end
  end.

Definition dnsStreamRoundTrip (c : conn) (id : Z) (query : Question) (b : bytes) : ST World (Parser * Header + err) :=
  act (Written b);;;
  ret match c_writeErr c with
      | Some e => inr e
      | None => streamResponse id query (concat (c_arrives c)) (c_last c)
      end.

(** ** Exchanges *)

(** A turn of the loop of [exchange]; [None] is its [continue]. *)
Definition exchangeTurn (ctx : option gotime) (server : Addr) (q : Question) (timeout : Z) (id : Z)
    (udpReq tcpReq : bytes) (useUDP : bool) : ST World (option (Parser * Header + err)) :=
  let* t := now in
  let d := WithDeadline ctx (t + timeout) in
  let* r := dial useUDP server 53 in
  match r with
  | inr e => ret (Some (inr e))
  | inl c =>
      when (bool_decide (is_Some d)) (act (DeadlineSet d));;;
      match (if bool_decide (is_Some d) then c_deadlineErr c else None) with
      | Some e => ret (Some (inr e))
      | None =>
          let* r := (if useUDP then dnsPacketRoundTrip c id q udpReq else dnsStreamRoundTrip c id q tcpReq) in
          act Closed;;;
          match r with
          | inr e => ret (Some (inr (ctxError e)))
          | inl (p, h) =>
              match SkipQuestion p with
              | (Some SectionDone, p) => if h_Truncated h then ret None else ret (Some (inl (p, h)))
              | _ => ret (Some (inr errInvalidDNSResponse))
              end
          end
      end
  end.

Fixpoint exchangeLoop (turn : bool -> ST World (option (Parser * Header + err))) (useUDPs : list bool)
    : ST World (Parser * Header + err) :=
  match useUDPs with
  | [] => ret (inr errNoAnswerFromDNSServer)
  | useUDP :: useUDPs =>
      let* r := turn useUDP in
      match r with Some r => ret r | None => exchangeLoop turn useUDPs end
  end.

Definition exchange (ctx : option gotime) (server : Addr) (q : Question) (timeout : Z) : ST World (Parser * Header + err) :=
  let q := mkQuestion (q_Name q) (q_Type q) ClassINET in
  let* r := newRequest q in
  match r with
  | inr _ => ret (inr errCannotMarshalDNSMessage)
  | inl (id, udpReq, tcpReq) =>
      exchangeLoop (exchangeTurn ctx server q timeout id udpReq tcpReq) [true; false]
  end.

(** ** What a response says *)

Definition checkHeader (p : Parser) (h : Header) : option err * Parser :=
  if h_RCode h =? RCodeNameError then (Some errNoSuchHost, p)
  else
    let '(r, p) := AnswerHeader p in
    match r with
    | inr Malformed => (Some errCannotUnmarshalDNSMessage, p)
    | _ =>
        let done := match r with inr SectionDone => true | _ => false end in
        (if (h_RCode h =? RCodeSuccess) && negb (h_Authoritative h) && negb (h_RecursionAvailable h) && done
         then Some errLameReferral
         else if negb (h_RCode h =? RCodeSuccess) && negb (h_RCode h =? RCodeNameError) then
           if h_RCode h =? RCodeServerFailure then Some errServerTemporarilyMisbehaving else Some errServerMisbehaving
         else None, p)
    end.

(** Every turn passes an answer; [None] is fuel that has run out. *)
Fixpoint skipToAnswer (fuel : nat) (p : Parser) (qtype : Z) : option (option err * Parser) :=
  match fuel with
  | O => None
  | S fuel =>
      let '(r, p) := AnswerHeader p in
      match r with
      | inr SectionDone => Some (Some errNoSuchHost, p)
      | inr Malformed => Some (Some errCannotUnmarshalDNSMessage, p)
      | inl t =>
          if t =? qtype then Some (None, p)
          else
            let '(e, p) := SkipAnswer p in
            match e with
            | Some _ => Some (Some errCannotUnmarshalDNSMessage, p)
            | None => skipToAnswer fuel p qtype
            end
      end
  end.

(** ** One name *)

(** The parser at the answers, the server's address and the error. *)
Definition lane : Type := Parser * bytes * option lookupError.

Definition dnsError (e : err) (name : bytes) (server : Addr) (timeout temporary notFound : bool) : lookupError :=
  DNS (mkDNSError (Error e) name (addrString server) timeout temporary notFound).

(** One server of the inner loop: what [tryOneName] returns, or the error it goes on with. *)
Definition tryServer (ctx : option gotime) (name : bytes) (q : Question) (qtype : Z) (server : Addr)
    : ST World (lane + lookupError) :=
  let* r := exchange ctx server q (second * 5) in
  match r with
  | inr e => ret (inr (dnsError e name server (Timeout e) (isOpError e) false))
  | inl (p, h) =>
      let '(e, p) := checkHeader p h in
      match e with
      | Some errNoSuchHost =>
          ret (inl (p, addrString server, Some (dnsError errNoSuchHost name server false false true)))
      | Some e =>
          let temporary := match e with errServerTemporarilyMisbehaving => true | _ => false end in
          ret (inr (dnsError e name server false temporary false))
      | None =>
          match skipToAnswer maxAnswers p qtype with
          | None => panic
          | Some (None, p) => ret (inl (p, addrString server, None))
          | Some (Some errNoSuchHost, p) =>
              ret (inl (p, addrString server, Some (dnsError errNoSuchHost name server false false true)))
          | Some (Some e, p) => ret (inr (dnsError e name server false false false))
          end
      end
  end.

Fixpoint tryServers (try : Addr -> ST World (lane + lookupError)) (servers : list Addr) (lastErr : option lookupError)
    : ST World (lane + option lookupError) :=
  match servers with
  | [] => ret (inr lastErr)
  | server :: servers =>
      let* r := try server in
      match r with
      | inl r => ret (inl r)
      | inr e => tryServers try servers (Some e)
      end
  end.

Fixpoint tryRounds (rounds : nat) (try : Addr -> ST World (lane + lookupError)) (servers : list Addr)
    (lastErr : option lookupError) : ST World lane :=
  match rounds with
  | O => ret (noParser, [], lastErr)
  | S rounds =>
      let* r := tryServers try servers lastErr in
      match r with
      | inl r => ret r
      | inr lastErr => tryRounds rounds try servers lastErr
      end
  end.

Definition tryOneName (servers : list Addr) (ctx : option gotime) (name : bytes) (qtype : Z) : ST World lane :=
  match NewName name with
  | None => ret (noParser, [], Some (Plain errCannotMarshalDNSMessage))
  | Some n => tryRounds 2 (tryServer ctx name (mkQuestion n qtype ClassINET) qtype) servers None
  end.

(** ** Hosts *)

Record Net := mkNet { dnsServers : list Addr; hasV4 : bool; hasV6 : bool }.

(** The addresses of either family so far, and the last error. *)
Definition found : Type := list Addr * list Addr * option lookupError.

Definition hostError (e : err) (host server : bytes) : lookupError :=
  DNS (mkDNSError (Error e) host server false false false).

(** The loop over the answers of a lane. *)
Fixpoint answersLoop (fuel : nat) (p : Parser) (host server : bytes) (r : found) : option found :=
  match fuel with
  | O => None
  | S fuel =>
      let '(v4, v6, lastErr) := r in
      let bad := Some (v4, v6, Some (hostError errCannotMarshalDNSMessage host server)) in
      let '(hd, p) := AnswerHeader p in
      match hd with
      | inr Malformed => bad
      | inr SectionDone => Some r
      | inl t =>
          if t =? TypeA then
            match AResource p with
            | (None, _) => bad
            | (Some a, p) => answersLoop fuel p host server (v4 ++ [mkAddr a []], v6, lastErr)
            end
          else if t =? TypeAAAA then
            match AAAAResource p with
            | (None, _) => bad
            | (Some a, p) => answersLoop fuel p host server (v4, v6 ++ [mkAddr a []], lastErr)
            end
          else
            match SkipAnswer p with
            | (Some _, _) => bad
            | (None, p) => answersLoop fuel p host server r
            end
      end
  end.

(** The loop over the lanes, in the order in which they end. *)
Fixpoint lanesLoop (host : bytes) (lanes : list lane) (r : found) : option found :=
  match lanes with
  | [] => Some r
  | (p, server, None) :: lanes => r ← answersLoop maxAnswers p host server r; lanesLoop host lanes r
  | (_, _, Some e) :: lanes =>
      let '(v4, v6, lastErr) := r in
      lanesLoop host lanes (v4, v6, match lastErr with None => Some e | _ => lastErr end)
  end.

(** The host without a zone, when it may be an address. *)
Definition withoutZone (host : bytes) : bytes :=
  match cutAt 58 host with
  | Some _ => match cutLast 37 host with Some (h, _) => h | None => host end
  | None => host
  end.

Definition noSuchHost (host : bytes) : lookupError :=
  DNS (mkDNSError (Error errNoSuchHost) host [] false false true).

(** The addresses for what the lanes have found. *)
Definition collect (tnet : Net) (r : found) : list bytes + lookupError :=
  let '(v4, v6, lastErr) := r in
  let addrs := if hasV6 tnet then v6 ++ v4 else v4 ++ v6 in
  match addrs, lastErr with
  | [], Some e => inr e
  | _, _ => inl (addrString <$> addrs)
  end.

(** What a goroutine of one family puts into the channel, if there is one. *)
Definition startLane (has : bool) (tnet : Net) (ctx : option gotime) (host : bytes) (qtype : Z) (w : World)
    : option (list lane * World) :=
  if has then '(l, w) ← tryOneName (dnsServers tnet) ctx (host ++ [46]) qtype w; Some ([l], w) else Some ([], w).

(** The two lookups run on their own; [last4] says that the one for IPv4 ends last. *)
Definition LookupContextHost (tnet : Net) (ctx : option gotime) (host : bytes) (last4 : bool) (w4 w6 : World)
    : option ((list bytes + lookupError) * (World * World)) :=
  if match host with [] => true | _ => false end || (negb (hasV6 tnet) && negb (hasV4 tnet)) then
    Some (inr (noSuchHost host), (w4, w6))
  else
    match ParseAddr (withoutZone host) with
    | Some ip => Some (inl [addrString ip], (w4, w6))
    | None =>
        if negb (isDomainName host) then Some (inr (noSuchHost host), (w4, w6))
        else
          '(l4, w4) ← startLane (hasV4 tnet) tnet ctx host TypeA w4;
          '(l6, w6) ← startLane (hasV6 tnet) tnet ctx host TypeAAAA w6;
          r ← lanesLoop host (if last4 then l6 ++ l4 else l4 ++ l6) ([], [], None);
          Some (collect tnet r, (w4, w6))
    end.

Definition LookupHost (tnet : Net) (host : bytes) (last4 : bool) (w4 w6 : World)
    : option ((list bytes + lookupError) * (World * World)) := LookupContextHost tnet None host last4 w4 w6.
End Resolver.
