(* ===== verification/ResolverSpec.v ===== *)
(** What the resolver finds: it asks again until a server answers, takes only
    answers to its question, and gives the addresses of those; whatever comes
    back, it returns. *)
From S2P Require Import Prelude Messages NoiseHelpers Text Netip DomainName Resolver.

(** ** What dnsmessage promises *)

(** An answer of a message: whole, with a body that does not parse, or with not
    even a header. *)
Inductive answer := Good (type : Z) (data : bytes) | BadBody (type : Z) | BadHeader.

(** [rest] is what a parser has left of the answers, as many as the header
    counts; [encodes] that a message has a header, one question and answers. *)
Class DnsmessageLaws `(Dnsmessage) := {
  rest : Parser -> list answer;
  rest_bound p : (length (rest p) < maxAnswers)%nat;
  AnswerHeader_rest p : rest (AnswerHeader p).2 = rest p;
  AnswerHeader_spec p : (AnswerHeader p).1 =
    match rest p with [] => inr SectionDone | Good t _ :: _ | BadBody t :: _ => inl t | BadHeader :: _ => inr Malformed end;
  SkipAnswer_good p t d l : rest p = Good t d :: l ->
    exists p', SkipAnswer (AnswerHeader p).2 = (None, p') /\ rest p' = l;
  SkipAnswer_bad p t l : rest p = BadBody t :: l -> (SkipAnswer (AnswerHeader p).2).1 <> None;
  AResource_good p d l : rest p = Good TypeA d :: l ->
    exists p', AResource (AnswerHeader p).2 = (Some d, p') /\ rest p' = l;
  AResource_bad p l : rest p = BadBody TypeA :: l -> (AResource (AnswerHeader p).2).1 = None;
  AAAAResource_good p d l : rest p = Good TypeAAAA d :: l ->
    exists p', AAAAResource (AnswerHeader p).2 = (Some d, p') /\ rest p' = l;
  AAAAResource_bad p l : rest p = BadBody TypeAAAA :: l -> (AAAAResource (AnswerHeader p).2).1 = None;
  encodes : bytes -> Header -> Question -> list answer -> Prop;
  encodes_parse m h q l : encodes m h q l -> exists p p' p'',
    Start m = Some (p, h) /\ ParseQuestion p = (Some q, p') /\ SkipQuestion p' = (Some SectionDone, p'') /\ rest p'' = l;
  NewName_spec name : (length name <= 255)%nat -> NewName name = Some name;
  StartQuestions_spec buf h : is_Some (StartQuestions (EnableCompression (NewBuilder buf h)));
  Finish_spec buf h q b b' : StartQuestions (EnableCompression (NewBuilder buf h)) = Some b -> AddQuestion q b = Some b' ->
    0 <= h_ID h < 65536 -> 0 <= q_Type q < 65536 -> 0 <= q_Class q < 65536 ->
    exists m, Finish b' = Some (buf ++ m) /\ encodes m h q [];
  AddQuestion_spec q b labels : dotted (q_Name q) labels true -> (length (q_Name q) <= 254)%nat -> is_Some (AddQuestion q b);
  (** a name with an empty label is refused *)
  AddQuestion_empty q b s t : q_Name q = s ++ 46 :: 46 :: t -> AddQuestion q b = None }.

Section Spec.
  Context `{DnsmessageLaws}.

(** ** Lemmas: the answers *)

Definition isGood (a : answer) : bool := match a with Good _ _ => true | _ => false end.

(** The addresses of the answers of one type. *)
Definition addresses (type : Z) (l : list answer) : list Addr :=
  omap (fun a => match a with Good t d => if t =? type then Some (mkAddr d []) else None | _ => None end) l.

(** The answers from the first one of a type. *)
Fixpoint toAnswer (type : Z) (l : list answer) : list answer :=
  match l with
  | Good t d :: l' => if t =? type then l else toAnswer type l'
  | _ => l
  end.

(** The two sides of a header that was read. *)
Ltac header p :=
  let E := fresh "E" in let Hr := fresh "Hr" in let Hs := fresh "Hs" in
  pose proof (AnswerHeader_rest p) as Hr; pose proof (AnswerHeader_spec p) as Hs;
  pose proof (SkipAnswer_good p) as Hskip; pose proof (SkipAnswer_bad p) as Hskip';
  pose proof (AResource_good p) as HA; pose proof (AResource_bad p) as HA';
  pose proof (AAAAResource_good p) as HAAAA; pose proof (AAAAResource_bad p) as HAAAA';
  destruct (AnswerHeader p) as [hd p0] eqn:E; cbn [fst snd] in *; subst hd.

(** Nothing is said of answers that are not all good. *)
Ltac ungood :=
  first [eexists _, _; split; [reflexivity|] | eexists; split; [reflexivity|]];
  let Hall := fresh in intros Hall; by inversion Hall.

Lemma skipToAnswer_spec fuel : forall p qtype, (length (rest p) < fuel)%nat ->
  exists e p', skipToAnswer fuel p qtype = Some (e, p') /\
    (Forall (fun a => isGood a = true) (rest p) -> addresses qtype (rest p) <> [] ->
     e = None /\ rest p' = toAnswer qtype (rest p)).
Proof.
  induction fuel as [|fuel IH]; intros p qtype Hf; [lia|]. cbn [skipToAnswer]. header p.
  destruct (rest p) as [|[t d|t|] l] eqn:El.
  - by exists (Some errNoSuchHost), p0.
  - cbn [toAnswer addresses omap list_omap]. destruct (t =? qtype) eqn:Et.
    + exists None, p0. done.
    + destruct (Hskip _ _ _ eq_refl) as (p1 & -> & Hp1). simpl in Hf.
      destruct (IH p1 qtype) as (e & p' & -> & Hgood); [rewrite Hp1; lia|]. exists e, p'. split; [done|].
      rewrite Hp1 in Hgood. intros Hall Hne. inversion Hall; subst. by apply Hgood.
  - destruct (t =? qtype); [ungood|].
    specialize (Hskip' _ _ eq_refl). destruct (SkipAnswer p0) as [[|] p1]; [ungood|done].
  - ungood.
Qed.

Lemma answersLoop_spec fuel : forall p host server v4 v6 lastErr, (length (rest p) < fuel)%nat ->
  exists r, answersLoop fuel p host server (v4, v6, lastErr) = Some r /\
    (Forall (fun a => isGood a = true) (rest p) ->
     r = (v4 ++ addresses TypeA (rest p), v6 ++ addresses TypeAAAA (rest p), lastErr)).
Proof.
  induction fuel as [|fuel IH]; intros p host server v4 v6 lastErr Hf; [lia|]. cbn [answersLoop]. header p.
  destruct (rest p) as [|[t d|t|] l] eqn:El.
  - eexists. split; [done|]. intros _. simpl. by rewrite !app_nil_r.
  - cbn [addresses omap list_omap]. simpl in Hf.
    assert (forall p1 v4 v6, rest p1 = l -> exists r, answersLoop fuel p1 host server (v4, v6, lastErr) = Some r /\
      (Forall (fun a => isGood a = true) l -> r = (v4 ++ addresses TypeA l, v6 ++ addresses TypeAAAA l, lastErr))) as Hnext.
    { intros p1 a b Hp1. destruct (IH p1 host server a b lastErr) as (r & ? & Hg); [rewrite Hp1; lia|].
      rewrite Hp1 in Hg. eauto. }
    destruct (Z.eqb_spec t TypeA) as [->|HtA]; [|destruct (Z.eqb_spec t TypeAAAA) as [->|Ht]].
    + destruct (HA _ _ eq_refl) as (p1 & -> & Hp1). destruct (Hnext p1 (v4 ++ [mkAddr d []]) v6 Hp1) as (r & -> & Hg).
      exists r. split; [done|]. intros Hall. inversion Hall; subst. rewrite Hg, <- app_assoc by done. done.
    + destruct (HAAAA _ _ eq_refl) as (p1 & -> & Hp1). destruct (Hnext p1 v4 (v6 ++ [mkAddr d []]) Hp1) as (r & -> & Hg).
      exists r. split; [done|]. intros Hall. inversion Hall; subst. rewrite Hg, <- app_assoc by done. done.
    + destruct (Hskip _ _ _ eq_refl) as (p1 & -> & Hp1). destruct (Hnext p1 v4 v6 Hp1) as (r & -> & Hg).
      exists r. split; [done|]. intros Hall. inversion Hall; subst. by apply Hg.
  - destruct (Z.eqb_spec t TypeA) as [->|HtA]; [|destruct (Z.eqb_spec t TypeAAAA) as [->|Ht]].
    + specialize (HA' _ eq_refl). destruct (AResource p0) as [? ?]; simpl in HA'; subst.
      ungood.
    + specialize (HAAAA' _ eq_refl). destruct (AAAAResource p0) as [? ?]; simpl in HAAAA'; subst.
      ungood.
    + specialize (Hskip' _ _ eq_refl). destruct (SkipAnswer p0) as [[|] ?]; [|done].
      ungood.
  - ungood.
Qed.

(** ** Lemmas: what returns *)

(** The source of random bytes gives bytes. *)
Definition randOk (w : World) : Prop := forall i, exists a b, w_rand w i = Some (a, b) /\ is_byte a /\ is_byte b.

(** An operation that returns, whatever the network does. *)
Definition returns {A} (m : ST World A) : Prop := forall w, randOk w -> runs m w (fun _ => randOk).

Lemma returns_ret {A} (a : A) : returns (ret a).
Proof. by intros w Hw. Qed.

Lemma returns_bind {A B} (m : ST World A) (k : A -> ST World B) :
  returns m -> (forall a, returns (k a)) -> returns (bind m k).
Proof. intros Hm Hk w Hw. apply runs_bind. eapply runs_mono; [by apply Hm|]. intros a w'. apply Hk. Qed.

Lemma returns_when b (m : ST World unit) : returns m -> returns (when b m).
Proof. destruct b; [done|]. intros _. apply returns_ret. Qed.

Lemma returns_act a : returns (act a).
Proof. by intros w Hw. Qed.

Lemma returns_now : returns now.
Proof. by intros w Hw. Qed.

Lemma returns_dial udp server port : returns (dial udp server port).
Proof. by intros w Hw. Qed.

(** Go through an operation that returns. *)
Ltac returns :=
  repeat first
    [ apply returns_ret | apply returns_act | apply returns_now | apply returns_dial | apply returns_when
    | apply returns_bind; [|intros ?]
    | progress (repeat case_match) ].

Definition requestHeader (id : Z) : Header := mkHeader id false false false true false 0.

(** The id that the [i]th random bytes make, and that of the request made next. *)
Definition idAt (w : World) (i : nat) : Z := match w_rand w i with Some (a, b) => le_dec [a; b] | None => 0 end.
Definition nextId (w : World) : Z := idAt w (n_rand w).

Definition ask (name : bytes) (qtype : Z) : Question := mkQuestion name qtype ClassINET.

(** A name as messages have it. *)
Definition packs (name : bytes) : Prop := exists labels, dotted name labels true /\ (length name <= 254)%nat.

Lemma nextId_range w : randOk w -> 0 <= nextId w < 65536.
Proof. intros Hw. destruct (Hw (n_rand w)) as (a & b & E & Ha & Hb). unfold nextId, idAt, is_byte in *. rewrite E. simpl. lia. Qed.

(** A request is made from the next id, if its name can be packed. *)
Lemma newRequest_spec name qtype w : randOk w -> 0 <= qtype < 65536 ->
  runs (newRequest (ask name qtype)) w (fun r w' => w' = w <| n_rand ::= S |> /\
    match r with
    | inl (id, m, t) => id = nextId w /\ encodes m (requestHeader id) (ask name qtype) []
        /\ t = u8 (Z.shiftr (zlen m) 8) :: u8 (zlen m) :: m
    | inr _ => ~ packs name
    end /\ (forall s t, name = s ++ 46 :: 46 :: t -> exists u, r = inr u)).
Proof.
  intros Hw Hq. pose proof (nextId_range w Hw) as Hid. unfold nextId, idAt in *. destruct (Hw (n_rand w)) as (a & b & E & _ & _).
  unfold newRequest. apply runs_bind. unfold runs at 1, randU16. rewrite E in *.
  destruct (StartQuestions_spec (zeros 2) (requestHeader (le_dec [a; b]))) as [b1 Hb1].
  unfold requestHeader in Hb1. rewrite Hb1. destruct (AddQuestion (ask name qtype) b1) as [b2|] eqn:Hb2.
  - destruct (Finish_spec _ _ _ _ _ Hb1 Hb2) as (m & -> & Hm); [done|done|done|].
    change (zeros 2 ++ m) with (0 :: 0 :: m). split; [done|]. split; [done|].
    intros s t Hn. by rewrite (AddQuestion_empty _ _ s t) in Hb2.
  - split; [done|]. split; [|by eexists]. intros (labels & Hd & Hl).
    destruct (AddQuestion_spec (ask name qtype) b1 labels) as [? Hb3]; [done|done|]. by rewrite Hb3 in Hb2.
Qed.

Lemma returns_newRequest name qtype : 0 <= qtype < 65536 -> returns (newRequest (ask name qtype)).
Proof.
  intros Hq w Hw. eapply runs_mono; [by apply newRequest_spec|]. by intros r w' (-> & _).
Qed.

Lemma returns_exchange ctx server name qtype timeout : 0 <= qtype < 65536 ->
  returns (exchange ctx server (ask name qtype) timeout).
Proof.
  intros Hq. unfold exchange. apply returns_bind; [by apply (returns_newRequest name qtype)|]. intros [[[id m] t]|]; [|returns].
  cbn [exchangeLoop]. unfold exchangeTurn, dnsPacketRoundTrip, dnsStreamRoundTrip. returns.
Qed.

Lemma returns_tryServer ctx name n qtype server : 0 <= qtype < 65536 ->
  returns (tryServer ctx name (ask n qtype) qtype server).
Proof.
  intros Hq. unfold tryServer. apply returns_bind; [by apply returns_exchange|]. intros [[p h]|]; [|returns].
  destruct (checkHeader p h) as [e p1]. destruct e as [[]|]; try apply returns_ret.
  destruct (skipToAnswer_spec maxAnswers p1 qtype (rest_bound p1)) as (e & p' & -> & _). returns.
Qed.

Lemma returns_tryServers try servers : (forall server, returns (try server)) ->
  forall lastErr, returns (tryServers try servers lastErr).
Proof. intros Ht. induction servers; intros lastErr; cbn [tryServers]; returns; auto. Qed.

Lemma returns_tryRounds n try servers : (forall server, returns (try server)) ->
  forall lastErr, returns (tryRounds n try servers lastErr).
Proof. intros Ht. induction n; intros lastErr; cbn [tryRounds]; returns; auto using returns_tryServers. Qed.

Lemma returns_tryOneName servers ctx name qtype : 0 <= qtype < 65536 -> returns (tryOneName servers ctx name qtype).
Proof.
  intros Hq. unfold tryOneName. destruct (NewName name); [|returns].
  apply returns_tryRounds. intros. by apply returns_tryServer.
Qed.

Lemma lanesLoop_total host lanes : forall r, is_Some (lanesLoop host lanes r).
Proof.
  induction lanes as [|[[p server] [e|]] lanes IH]; intros [[v4 v6] lastErr]; cbn [lanesLoop]; [done|apply IH|].
  destruct (answersLoop_spec maxAnswers p host server v4 v6 lastErr (rest_bound p)) as (r & -> & _). apply IH.
Qed.

Lemma startLane_total b tnet ctx host qtype w : 0 <= qtype < 65536 -> randOk w ->
  exists l w', startLane b tnet ctx host qtype w = Some (l, w').
Proof.
  intros Hq Hw. unfold startLane. destruct b; [|by eauto].
  pose proof (returns_tryOneName (dnsServers tnet) ctx (host ++ [46]) qtype Hq w Hw) as Hr.
  unfold runs in Hr. destruct (tryOneName _ _ _ _ w) as [[l w']|]; [by eauto|done].
Qed.

End Spec.

(** ** A small format of DNS messages, at which the theorems are evaluated *)

(** The fields of a header and a question, the name after its length, then the
    answers: type, length and data of each. *)
Definition flag (b : bool) : Z := if b then 1 else 0.

Definition toyEncode (h : Header) (q : Question) (answers : bytes) : bytes :=
  [h_ID h; flag (h_Response h); flag (h_Authoritative h); flag (h_Truncated h); flag (h_RecursionDesired h);
   flag (h_RecursionAvailable h); h_RCode h; q_Type q; q_Class q; zlen (q_Name q)] ++ q_Name q ++ answers.

Fixpoint toyAnswers (fuel : nat) (s : bytes) : list answer :=
  match fuel, s with
  | S fuel, t :: n :: s =>
      let n := Z.to_nat n in
      if (length s <? n)%nat then [BadBody t] else Good t (take n s) :: toyAnswers fuel (drop n s)
  | _, [] => []
  | _, _ => [BadHeader]
  end.

(** Where a parser is: before its question, at it, past it. *)
Record toyParser := mkToy { t_question : option Question; t_answers : list answer }.

Definition most : nat := Z.to_nat 65535.
Definition toyRest (p : toyParser) : list answer := take most (t_answers p).

Definition toyStart (m : bytes) : option (toyParser * Header) :=
  match m with
  | id :: r :: aa :: tc :: rd :: ra :: rcode :: ty :: cl :: n :: s =>
      let n := Z.to_nat n in
      Some (mkToy (Some (mkQuestion (take n s) ty cl)) (toyAnswers (length s) (drop n s)),
            mkHeader id (r =? 1) (aa =? 1) (tc =? 1) (rd =? 1) (ra =? 1) rcode)
  | _ => None
  end.

Definition toyResource (type : Z) (p : toyParser) : option bytes * toyParser :=
  match toyRest p with
  | Good t d :: l => if t =? type then (Some d, mkToy None l) else (None, p)
  | _ => (None, p)
  end.

Definition hasEmptyLabel (s : bytes) : Prop := exists a b, s = a ++ 46 :: 46 :: b.

Fixpoint emptyLabel (s : bytes) : bool :=
  match s with
  | c :: s' => match s' with d :: _ => ((c =? 46) && (d =? 46)) || emptyLabel s' | [] => false end
  | [] => false
  end.

#[export] Instance ToyDnsmessage : Dnsmessage := {
  Parser := toyParser;
  noParser := mkToy None [BadHeader];
  Start := toyStart;
  ParseQuestion := fun p => (t_question p, mkToy None (t_answers p));
  SkipQuestion := fun p => (Some SectionDone, p);
  AnswerHeader := fun p =>
    (match toyRest p with [] => inr SectionDone | Good t _ :: _ | BadBody t :: _ => inl t | BadHeader :: _ => inr Malformed end, p);
  SkipAnswer := fun p => match toyRest p with Good _ _ :: l => (None, mkToy None l) | _ => (Some Malformed, p) end;
  AResource := toyResource TypeA;
  AAAAResource := toyResource TypeAAAA;
  NewName := fun s => if (length s <=? 255)%nat then Some s else None;
  Builder := bytes * Header * option Question;
  NewBuilder := fun buf h => (buf, h, None);
  EnableCompression := fun b => b;
  StartQuestions := fun b => Some b;
  AddQuestion := fun q b => if emptyLabel (q_Name q) then None else Some (b.1, Some q);
  Finish := fun b => match b with (buf, h, Some q) => Some (buf ++ toyEncode h q []) | (buf, _, None) => Some buf end }.

(** ** Its laws *)

Lemma take_tail (a : answer) l l' : take most l = a :: l' -> take most l' = l'.
Proof.
  intros E. apply take_ge. apply (f_equal length) in E. rewrite length_take in E. simpl length in E.
  pose proof (Nat.le_min_l most (length l)). lia.
Qed.

Lemma emptyLabel_spec s a b : s = a ++ 46 :: 46 :: b -> emptyLabel s = true.
Proof.
  revert s. induction a as [|x a IH]; intros s ->; [done|]. cbn [app emptyLabel].
  destruct (a ++ 46 :: 46 :: b) eqn:E; [by destruct a|]. rewrite (IH _ eq_refl). apply orb_true_r.
Qed.

(** Neighbours of a list in pairs. *)
Lemma emptyLabel_app s t : emptyLabel (s ++ t) = true -> emptyLabel s = true \/ emptyLabel t = true
  \/ (last s = Some 46 /\ head t = Some 46).
Proof.
  induction s as [|c s IH]; intros H; [auto|]. destruct s as [|d s].
  - destruct t as [|d t]; [auto|]. cbn [app emptyLabel] in H. apply orb_true_iff in H as [H|H]; [|auto].
    apply andb_true_iff in H as [->%Z.eqb_eq ->%Z.eqb_eq]. auto.
  - cbn [app emptyLabel] in *. apply orb_true_iff in H as [H|H]; [left; by rewrite H|].
    destruct (IH H) as [E|[E|[E1 E2]]]; [left; rewrite E; apply orb_true_r|auto|auto].
Qed.

Lemma free_emptyLabel s : 46 ∉ s -> emptyLabel s = false.
Proof.
  intros H. destruct (emptyLabel s) eqn:E; [|done]. exfalso. apply H. clear H.
  induction s as [|c s IH]; [done|]. destruct s as [|d s]; [done|]. cbn [emptyLabel] in E.
  apply orb_true_iff in E as [[->%Z.eqb_eq _]%andb_true_iff|E]; [by left|right; by apply IH].
Qed.

Lemma labelOk_ends l : labelOk l -> head l <> Some 46 /\ last l <> Some 46 /\ l <> [].
Proof.
  intros Hl. pose proof (labelOk_free l Hl) as Hf. destruct Hl as ((H1 & _) & _).
  split_and!; [intros E; apply Hf|intros E; apply Hf|intros ->; simpl in H1; lia].
  - destruct l; [done|]. injection E as ->. by left.
  - apply last_Some in E as [a ->]. set_solver.
Qed.

Lemma dotted_no_empty labels dot s : dotted s labels dot -> emptyLabel s = false /\ head s <> Some 46.
Proof.
  intros (-> & Hne & Hok). induction Hok as [|l ls Hl Hls IH]; [done|]. clear Hne.
  destruct (labelOk_ends l Hl) as (Hh & Ht & Hn). pose proof (free_emptyLabel l (labelOk_free l Hl)) as Hf.
  rewrite joined_label, <- app_assoc. split; [|by destruct l]. apply not_true_iff_false. intros E.
  apply emptyLabel_app in E as [E|[E|[E _]]]; [congruence| |done].
  destruct ls as [|l2 ls]; [by destruct dot|]. destruct IH as [IH1 IH2]; [done|].
  cbn [app] in E. cbn [emptyLabel] in E. destruct (joined [46] (l2 :: ls) ++ _) as [|c s] eqn:Es; [done|].
  rewrite IH1, orb_false_r in E. apply andb_true_iff in E as [_ ->%Z.eqb_eq]. done.
Qed.

#[export] Instance ToyDnsmessageLaws : DnsmessageLaws ToyDnsmessage.
Proof.
  refine {| rest := toyRest : @Parser ToyDnsmessage -> list answer;
    encodes := fun m h q l => exists p, toyStart m = Some (p, h) /\ t_question p = Some q /\ toyRest p = l |}.
  - intros p. unfold maxAnswers, toyRest. rewrite length_take. pose proof (Nat.le_min_l most (length (t_answers p))). unfold most in *. lia.
  - done.
  - done.
  - intros p t d l E. cbn in *. rewrite E. eexists. split; [done|]. by apply take_tail in E.
  - intros p t l E. cbn in *. by rewrite E.
  - intros p d l E. cbn in *. unfold toyResource. rewrite E. eexists. split; [done|]. by apply take_tail in E.
  - intros p l E. cbn in *. unfold toyResource. by rewrite E.
  - intros p d l E. cbn in *. unfold toyResource. rewrite E. eexists. split; [done|]. by apply take_tail in E.
  - intros p l E. cbn in *. unfold toyResource. by rewrite E.
  - intros m h q l (p & Hs & Hq & Hr). exists p, (mkToy None (t_answers p)), (mkToy None (t_answers p)). cbn. by rewrite Hq.
  - intros name Hn. cbn. by rewrite (proj2 (Nat.leb_le _ _)).
  - intros buf h. by eexists.
  - intros buf h q b b' [= <-] Hq _ _ _. cbn in Hq. destruct (emptyLabel _); [done|]. injection Hq as <-.
    exists (toyEncode h q []). split; [done|]. unfold toyEncode. cbn. rewrite app_nil_r, Nat2Z.id.
    rewrite take_ge, drop_ge by done. eexists. split; [|split].
    + by destruct h as [? [] [] [] [] [] ?].
    + by destruct q.
    + cbn. by destruct (length _).
  - intros q b labels Hd _. cbn. destruct (dotted_no_empty _ _ _ Hd) as [-> _]. by eexists.
  - intros q b s t E. cbn. by rewrite (emptyLabel_spec _ _ _ E).
Defined.
