(* ===== verification/ResolverLookup.v ===== *)
(** What a lookup finds: the addresses of the first answer to its question, after
    any number of servers that keep silent and among any datagrams that do not
    answer. *)
From S2P Require Import Prelude Messages NoiseHelpers Text Netip DomainName Resolver ResolverSpec.

(** Two bytes put together. *)
Lemma lor_join a b n : 0 <= n -> 0 <= b < 2 ^ n -> Z.lor (Z.shiftl a n) b = 2 ^ n * a + b.
Proof.
  intros Hn Hb. rewrite Z.mul_comm, <- Z.shiftl_mul_pow2, <- Z.add_lor_land by done.
  assert (Z.land (Z.shiftl a n) b = 0) as ->; [|lia].
  apply Z.bits_inj'. intros i Hi. rewrite Z.land_spec, Z.bits_0, Z.shiftl_spec by done.
  destruct (Z.ltb_spec i n); [by rewrite Z.testbit_neg_r by lia|].
  rewrite <- (Z.mod_small b (2 ^ n)), Z.mod_pow2_bits_high by lia. apply andb_false_r.
Qed.

Section Lookup.
  Context `{DnsmessageLaws}.

(** ** Answers on the network *)

(** What one datagram makes of the loop over them, if it ends it. *)
Definition reply (id : Z) (q : Question) (d : bytes) : option (Parser * Header) :=
  match Start (take 512 d) with
  | Some (p, h) => match ParseQuestion p with (Some q', p) => if checkResponse id q h q' then Some (p, h) else None | _ => None end
  | None => None
  end.

(** A message that answers a question with some answers. *)
Definition answerOf (id : Z) (q : Question) (truncated : bool) (l : list answer) (h : Header) (m : bytes) : Prop :=
  exists q', encodes m h q' l /\ responds id q h q' /\ h_Truncated h = truncated.

(** A connection that takes what is given to it. *)
Definition willing (c : conn) : Prop := c_deadlineErr c = None /\ c_writeErr c = None.

(** An answer in a datagram, after others that do not answer. *)
Definition udpAnswer (c : conn) (id : Z) (q : Question) (truncated : bool) (l : list answer) (h : Header) : Prop :=
  willing c /\ exists pre m post, c_arrives c = pre ++ m :: post /\ (length m <= 512)%nat
    /\ Forall (fun d => reply id q d = None) pre /\ answerOf id q truncated l h m.

(** An answer on a stream, with its length before it, in pieces of any size. *)
Definition tcpAnswer (c : conn) (id : Z) (q : Question) (l : list answer) (h : Header) : Prop :=
  willing c /\ exists m post, concat (c_arrives c) = be_enc 2 (zlen m) ++ m ++ post /\ zlen m < 65536
    /\ answerOf id q false l h m.

(** The connection of turn [i] does not answer. *)
Definition silent (w : World) (q : Question) (i : nat) (id : Z) : Prop :=
  match w_dial w i with
  | inr _ => True
  | inl c => c_deadlineErr c <> None \/ c_writeErr c <> None \/ Forall (fun d => reply id q d = None) (c_arrives c)
  end.

(** It answers, if need be over a stream. *)
Definition answered (w : World) (q : Question) (i : nat) (id : Z) (l : list answer) (h : Header) : Prop :=
  exists c, w_dial w i = inl c /\
    (udpAnswer c id q false l h \/
     exists c' l' h', udpAnswer c id q true l' h' /\ w_dial w (S i) = inl c' /\ tcpAnswer c' id q l h).

(** ** Lemmas: round trips *)

Lemma answerOf_reads id q truncated l h m : answerOf id q truncated l h m -> exists p p' q',
  Start m = Some (p, h) /\ ParseQuestion p = (Some q', p') /\ checkResponse id q h q' = true
  /\ exists p'', SkipQuestion p' = (Some SectionDone, p'') /\ rest p'' = l.
Proof.
  intros (q' & He & Hr & _). destruct (encodes_parse _ _ _ _ He) as (p & p' & p'' & Hs & Hq & Hk & Hl).
  apply checkResponse_spec in Hr. eauto 12.
Qed.

Lemma packetLoop_reply id q d arrives last :
  packetLoop id q (d :: arrives) last = match reply id q d with Some r => inl r | None => packetLoop id q arrives last end.
Proof.
  cbn [packetLoop]. unfold reply. destruct (Start _) as [[p h]|]; [|done].
  destruct (ParseQuestion p) as [[q'|] p']; [|done]. by destruct (checkResponse _ _ _ _).
Qed.

Lemma packetLoop_skips id q pre arrives last : Forall (fun d => reply id q d = None) pre ->
  packetLoop id q (pre ++ arrives) last = packetLoop id q arrives last.
Proof. induction 1 as [|d pre Hd _ IH]; [done|]. simpl app. by rewrite packetLoop_reply, Hd. Qed.

Lemma packetLoop_answer c id q truncated l h : udpAnswer c id q truncated l h ->
  h_Truncated h = truncated /\ exists p p'', packetLoop id q (c_arrives c) (c_last c) = inl (p, h)
    /\ SkipQuestion p = (Some SectionDone, p'') /\ rest p'' = l.
Proof.
  intros (_ & pre & m & post & -> & Hl & Hpre & Ha). rewrite packetLoop_skips, packetLoop_reply by done.
  destruct (answerOf_reads _ _ _ _ _ _ Ha) as (p & p' & q' & Hs & Hq & Hc & p'' & Hk & Hr).
  unfold reply. rewrite take_ge, Hs, Hq, Hc by done. destruct Ha as (_ & _ & _ & Ht). split; [done|]. eauto.
Qed.

Lemma streamResponse_answer c id q l h : tcpAnswer c id q l h ->
  h_Truncated h = false /\ exists p p'', streamResponse id q (concat (c_arrives c)) (c_last c) = inl (p, h)
    /\ SkipQuestion p = (Some SectionDone, p'') /\ rest p'' = l.
Proof.
  intros (_ & m & post & -> & Hm & Ha). destruct (answerOf_reads _ _ _ _ _ _ Ha) as (p & p' & q' & Hs & Hq & Hc & p'' & Hk & Hr).
  assert (Z.lor (Z.shiftl (nth 0 (be_enc 2 (zlen m)) 0) 8) (nth 1 (be_enc 2 (zlen m)) 0) = zlen m) as El.
  { change (be_enc 2 (zlen m)) with [zlen m / 256 mod 256; zlen m mod 256]. cbn [nth].
    pose proof (Z.div_lt_upper_bound (zlen m) 256 256). rewrite Z.mod_small by (pose proof (Z.div_pos (zlen m) 256); lia).
    pose proof (Z.mod_pos_bound (zlen m) 256). pose proof (Z.div_mod (zlen m) 256). rewrite (lor_join _ _ 8) by lia. lia. }
  unfold streamResponse, ReadFull. replace (2 <=? _)%nat with true by (symmetry; apply Nat.leb_le; rewrite !length_app; simpl; lia).
  rewrite take_app_length', drop_app_length' by done. rewrite El, Nat2Z.id.
  replace (length m <=? _)%nat with true by (symmetry; apply Nat.leb_le; rewrite length_app; lia).
  rewrite take_app_length, Hs, Hq, Hc. destruct Ha as (_ & _ & _ & Ht). split; [done|]. eauto.
Qed.

(** ** Exchanges *)

(** The source of randomness and the network are those of [w], one turn later. *)
Definition turned (w w' : World) : Prop :=
  w_rand w' = w_rand w /\ w_dial w' = w_dial w /\ n_rand w' = S (n_rand w) /\ n_dial w' = S (n_dial w).

Lemma WithDeadline_some ctx d : ctx <> Some None -> exists d', WithDeadline ctx d = Some d' /\ d' <= d
  /\ forall c, ctx = Some (Some c) -> d' <= c.
Proof.
  destruct ctx as [[c|]|]; intros Hc; [|done|exists d; repeat split; [lia|congruence]].
  cbn [WithDeadline]. eexists. split; [done|]. split; [zbool; lia|]. intros ? [= <-]. zbool; lia.
Qed.

(** The request of an exchange whose name packs. *)
Lemma newRequest_packs name qtype w : randOk w -> 0 <= qtype < 65536 -> packs name -> exists m,
  newRequest (ask name qtype) w
    = Some (inl (nextId w, m, u8 (Z.shiftr (zlen m) 8) :: u8 (zlen m) :: m), w <| n_rand ::= S |>)
  /\ encodes m (requestHeader (nextId w)) (ask name qtype) [].
Proof.
  intros Hw Hq Hp. destruct (runs_exists _ _ _ (newRequest_spec name qtype w Hw Hq)) as (r & w' & -> & -> & Hr & _).
  destruct r as [[[id m] t]|]; [|done]. destruct Hr as (-> & Hm & ->). eauto.
Qed.

(** What a turn of [exchange] makes of its connection, and what it does. *)
Definition turnResult (useUDP : bool) (r : conn + err) (id : Z) (q : Question) : option (Parser * Header + err) :=
  match r with
  | inr e => Some (inr e)
  | inl c =>
      match c_deadlineErr c, c_writeErr c with
      | Some e, _ => Some (inr e)
      | None, Some e => Some (inr (ctxError e))
      | None, None =>
          match (if useUDP then packetLoop id q (c_arrives c) (c_last c)
                 else streamResponse id q (concat (c_arrives c)) (c_last c)) with
          | inr e => Some (inr (ctxError e))
          | inl (p, h) =>
              match SkipQuestion p with
              | (Some SectionDone, p) => if h_Truncated h then None else Some (inl (p, h))
              | _ => Some (inr errInvalidDNSResponse)
              end
          end
      end
  end.

Definition turnActions (useUDP : bool) (server : Addr) (d : Z) (r : conn + err) (msg : bytes) : list action :=
  Dialed useUDP server 53 ::
  match r with
  | inr _ => []
  | inl c => DeadlineSet (Some d) :: match c_deadlineErr c with Some _ => [] | None => [Written msg; Closed] end
  end.

Lemma exchangeTurn_eq ctx server q timeout id u t useUDP w d : WithDeadline ctx (w_now w (n_now w) + timeout) = Some d ->
  exchangeTurn ctx server q timeout id u t useUDP w = Some (turnResult useUDP (w_dial w (n_dial w)) id q,
    w <| n_now ::= S |> <| n_dial ::= S |>
      <| w_log ::= fun l => l ++ turnActions useUDP server d (w_dial w (n_dial w)) (if useUDP then u else t) |>).
Proof.
  destruct w as [rand clock net nr nn nd log]. cbn [w_now n_now w_dial n_dial]. intros Hd.
  unfold exchangeTurn, turnResult, turnActions. rewrite bind_eq. cbn [now w_now n_now]. rewrite bind_eq. unfold dial. rsimpl.
  cbn [w_dial n_dial]. rewrite Hd. destruct (net nd) as [c|e]; [|done]. rewrite bool_decide_eq_true_2 by eauto.
  rewrite bind_eq. unfold when, act at 1. rsimpl. destruct (c_deadlineErr c); [cbn; by rewrite <- app_assoc|].
  rewrite bind_eq. destruct useUDP; unfold dnsPacketRoundTrip, dnsStreamRoundTrip; rewrite bind_eq; cbn; rewrite <- !app_assoc;
    (destruct (c_writeErr c); [done|]); by repeat case_match.
Qed.

(** A server that keeps silent costs one turn and is an error. *)
Lemma silent_turn w q i id : silent w q i id -> exists e, turnResult true (w_dial w i) id q = Some (inr e).
Proof.
  unfold silent, turnResult. destruct (w_dial w i) as [c|e]; [|eauto]. intros Hs.
  destruct (c_deadlineErr c); [eauto|]. destruct (c_writeErr c); [eauto|]. destruct Hs as [?|[?|Hs]]; [done|done|].
  rewrite <- (app_nil_r (c_arrives c)), packetLoop_skips by done. cbn. eauto.
Qed.

Lemma silent_exchange ctx server name qtype timeout w : randOk w -> 0 <= qtype < 65536 -> packs name ->
  ctx <> Some None -> silent w (ask name qtype) (n_dial w) (nextId w) ->
  runs (exchange ctx server (ask name qtype) timeout) w (fun r w' => (exists e, r = inr e) /\ turned w w').
Proof.
  intros Hw Hq Hp Hctx Hs. destruct (newRequest_packs name qtype w Hw Hq Hp) as (m & Hm & _).
  destruct (WithDeadline_some ctx (w_now w (n_now w) + timeout) Hctx) as (d & Hd & _).
  destruct (silent_turn _ _ _ _ Hs) as [e He].
  unfold exchange, runs. change (mkQuestion _ _ _) with (ask name qtype). rewrite bind_eq, Hm.
  cbn [exchangeLoop]. rewrite bind_eq, (exchangeTurn_eq _ _ _ _ _ _ _ _ _ d) by done. rsimpl.
  cbn [w_dial n_dial]. rewrite He. cbn. split; [by eexists|done].
Qed.

(** An exchange whose connection answers: its result, its request, its deadline
    and its actions. *)
Lemma exchange_run ctx server name qtype timeout w l h : randOk w -> 0 <= qtype < 65536 -> packs name ->
  ctx <> Some None -> answered w (ask name qtype) (n_dial w) (nextId w) l h ->
  runs (exchange ctx server (ask name qtype) timeout) w (fun r w' => exists p m d again,
    r = inl (p, h) /\ rest p = l /\ encodes m (requestHeader (nextId w)) (ask name qtype) []
    /\ WithDeadline ctx (w_now w (n_now w) + timeout) = Some d
    /\ w_log w' = w_log w ++ [Dialed true server 53; DeadlineSet (Some d); Written m; Closed] ++ again).
Proof.
  intros Hw Hq Hp Hctx (c & Hc & Ha). destruct (newRequest_packs name qtype w Hw Hq Hp) as (m & Hm & He).
  destruct (WithDeadline_some ctx (w_now w (n_now w) + timeout) Hctx) as (d & Hd & _).
  destruct (WithDeadline_some ctx (w_now w (S (n_now w)) + timeout) Hctx) as (d' & Hd' & _).
  unfold exchange, runs. change (mkQuestion _ _ _) with (ask name qtype). rewrite bind_eq, Hm.
  cbn [exchangeLoop]. rewrite bind_eq, (exchangeTurn_eq _ _ _ _ _ _ _ _ _ d) by done. rsimpl. cbn [w_dial n_dial w_log].
  rewrite Hc. destruct Ha as [Ha|(c' & l' & h' & Ha & Hc' & Ht)]; pose proof Ha as [[Hd0 Hw0] _];
    destruct (packetLoop_answer _ _ _ _ _ _ Ha) as (Htr & p & p'' & Hl & Hk & Hr);
    cbn [turnResult turnActions]; rewrite Hd0, Hw0, Hl, Hk, Htr.
  - exists p'', m, d, []. by split_and!; [..|cbn; unfold turnActions; rewrite Hd0].
  - rewrite bind_eq, (exchangeTurn_eq _ _ _ _ _ _ _ _ _ d') by done. rsimpl. cbn [w_dial n_dial w_log]. rewrite Hc'.
    pose proof Ht as [[Hd1' Hw1] _]. destruct (streamResponse_answer _ _ _ _ _ Ht) as (Htr' & q & q'' & Hl' & Hk' & Hr').
    cbn [turnResult turnActions]. rewrite Hd1', Hw1, Hl', Hk', Htr'. cbn. eexists q'', m, d, _.
    by split_and!; [..|cbn; unfold turnActions; rewrite Hd0, <- app_assoc].
Qed.

(** An exchange dials a server once, sends it one request with a fresh id
    before a deadline that is neither after the context's nor later than its own
    timeout, and takes the first datagram that answers the question under that id,
    whatever came before; when that one says that it is truncated, it asks again
    over a stream and takes the answer found there, in whichever pieces it comes. *)
Theorem exchange_answers ctx server name qtype timeout w l h : randOk w -> 0 <= qtype < 65536 -> packs name ->
  ctx <> Some None -> answered w (ask name qtype) (n_dial w) (nextId w) l h ->
  runs (exchange ctx server (ask name qtype) timeout) w (fun r w' => exists p m d again,
    r = inl (p, h) /\ rest p = l /\ encodes m (requestHeader (nextId w)) (ask name qtype) []
    /\ d <= w_now w (n_now w) + timeout /\ (forall c, ctx = Some (Some c) -> d <= c)
    /\ w_log w' = w_log w ++ [Dialed true server 53; DeadlineSet (Some d); Written m; Closed] ++ again).
Proof.
  intros Hw Hq Hp Hctx Ha. eapply runs_mono; [by apply exchange_run|]. intros r w' (p & m & d & again & -> & Hr & He & Hd & Hl).
  destruct (WithDeadline_some ctx (w_now w (n_now w) + timeout) Hctx) as (d' & Hd' & H1 & H2).
  rewrite Hd in Hd'. injection Hd' as <-. by exists p, m, d, again.
Qed.

(** ** Servers *)

(** Answers that are whole and have addresses of the type asked for and of no other. *)
Definition useful (qtype other : Z) (l : list answer) (h : Header) : Prop :=
  h_RCode h = RCodeSuccess /\ Forall (fun a => isGood a = true) l /\ addresses qtype l <> [] /\ addresses other l = [].

Lemma checkHeader_useful qtype other p h : useful qtype other (rest p) h ->
  exists p', checkHeader p h = (None, p') /\ rest p' = rest p.
Proof.
  intros (Hc & Hg & Hne & _). unfold checkHeader. rewrite Hc. cbn.
  pose proof (AnswerHeader_rest p) as Hr. pose proof (AnswerHeader_spec p) as Hs.
  destruct (AnswerHeader p) as [hd p']. cbn [fst snd] in *. subst hd.
  destruct (rest p) as [|[t d|t|] l]; [done|..]; inversion Hg; subst; [|done..].
  exists p'. by rewrite andb_false_r.
Qed.

Lemma answered_tryServer ctx server name qtype other w l h : randOk w -> 0 <= qtype < 65536 -> packs name ->
  ctx <> Some None -> answered w (ask name qtype) (n_dial w) (nextId w) l h -> useful qtype other l h ->
  runs (tryServer ctx name (ask name qtype) qtype server) w (fun r _ => exists p,
    r = inl (p, addrString server, None) /\ rest p = toAnswer qtype l).
Proof.
  intros Hw Hq Hp Hctx Ha Hu. unfold tryServer. apply runs_bind. eapply runs_mono; [by apply exchange_run|].
  intros r w' (p & _ & _ & _ & -> & <- & _). destruct (checkHeader_useful _ _ _ _ Hu) as (p1 & -> & Hp1).
  destruct (skipToAnswer_spec maxAnswers p1 qtype (rest_bound p1)) as (e & p' & -> & Hs). rewrite Hp1 in Hs.
  destruct Hu as (_ & Hg & Hne & _). destruct (Hs Hg Hne) as [-> Hp']. by exists p'.
Qed.

Lemma silent_tryServer ctx server name qtype w : randOk w -> 0 <= qtype < 65536 -> packs name ->
  ctx <> Some None -> silent w (ask name qtype) (n_dial w) (nextId w) ->
  runs (tryServer ctx name (ask name qtype) qtype server) w (fun r w' => (exists e, r = inr e) /\ turned w w').
Proof.
  intros. unfold tryServer. apply runs_bind. eapply runs_mono; [by apply silent_exchange|].
  intros r w' ([e ->] & Ht). by split; [eexists|].
Qed.

Lemma silent_turned w w' q i id : w_dial w' = w_dial w -> silent w q i id -> silent w' q i id.
Proof. intros E. unfold silent. by rewrite E. Qed.

Lemma answered_turned w w' q i id l h : w_dial w' = w_dial w -> answered w q i id l h -> answered w' q i id l h.
Proof. intros E. unfold answered. by rewrite E. Qed.

(** The first [k] servers are silent and the next one answers. *)
Lemma tryServers_answer ctx name qtype other l h : 0 <= qtype < 65536 -> packs name -> ctx <> Some None ->
  useful qtype other l h -> forall servers k w lastErr server, randOk w ->
  (forall i, (i < k)%nat -> silent w (ask name qtype) (n_dial w + i) (idAt w (n_rand w + i))) ->
  answered w (ask name qtype) (n_dial w + k) (idAt w (n_rand w + k)) l h -> servers !! k = Some server ->
  runs (tryServers (tryServer ctx name (ask name qtype) qtype) servers lastErr) w (fun r _ => exists p,
    r = inl (p, addrString server, None) /\ rest p = toAnswer qtype l).
Proof.
  intros Hq Hp Hctx Hu. induction servers as [|s servers IH]; intros k w lastErr server Hw Hs Ha Hk; [done|].
  cbn [tryServers]. apply runs_bind. destruct k as [|k].
  - injection Hk as ->. rewrite !Nat.add_0_r in Ha. eapply runs_mono; [by eapply answered_tryServer|].
    intros r w' (p & -> & Hr). by exists p.
  - pose proof (Hs 0%nat ltac:(lia)) as H0'. rewrite !Nat.add_0_r in H0'.
    eapply runs_mono; [by apply silent_tryServer|]. intros r w' ([e ->] & Hr & Hd & Hnr & Hnd).
    apply (IH k); [by unfold randOk in *; rewrite Hr| | |done].
    + intros i Hi. rewrite Hnr, Hnd. unfold idAt. rewrite Hr. apply (silent_turned w); [done|].
      specialize (Hs (S i) ltac:(lia)). by rewrite <- !plus_n_Sm in Hs.
    + rewrite Hnr, Hnd. unfold idAt. rewrite Hr. apply (answered_turned w); [done|]. by rewrite <- !plus_n_Sm in Ha.
Qed.

Lemma tryServers_app try a b : forall lastErr w, tryServers try (a ++ b) lastErr w =
  match tryServers try a lastErr w with
  | Some (inr e, w) => tryServers try b e w
  | r => r
  end.
Proof.
  induction a as [|s a IH]; intros lastErr w; [done|]. simpl app. cbn [tryServers]. rewrite !bind_eq.
  destruct (try s w) as [[[r|e] w']|]; [done|apply IH|done].
Qed.

(** The two rounds are one over the servers taken twice. *)
Lemma tryRounds_twice try servers lastErr w : tryRounds 2 try servers lastErr w =
  match tryServers try (servers ++ servers) lastErr w with
  | Some (inl r, w) => Some (r, w)
  | Some (inr e, w) => Some ((noParser, [], e), w)
  | None => None
  end.
Proof.
  cbn [tryRounds]. rewrite bind_eq, tryServers_app. destruct (tryServers try servers lastErr w) as [[[r|e] w']|]; [done| |done].
  rewrite bind_eq. by destruct (tryServers try servers e w') as [[[r|e'] w'']|].
Qed.

(** A world in which the name is asked for and, after fewer than twice as many
    silent connections as there are servers, a useful answer comes. *)
Definition serves (servers : list Addr) (w : World) (name : bytes) (qtype other : Z) (l : list answer) : Prop :=
  randOk w /\ n_rand w = 0%nat /\ n_dial w = 0%nat /\ exists k h, (k < 2 * length servers)%nat
  /\ (forall i, (i < k)%nat -> silent w (ask name qtype) i (idAt w i))
  /\ answered w (ask name qtype) k (idAt w k) l h /\ useful qtype other l h.

Lemma tryOneName_serves servers ctx name qtype other w l : 0 <= qtype < 65536 -> packs name -> ctx <> Some None ->
  serves servers w name qtype other l ->
  exists p server w', tryOneName servers ctx name qtype w = Some ((p, server, None), w') /\ rest p = toAnswer qtype l.
Proof.
  intros Hq Hp Hctx (Hw & Hnr & Hnd & k & h & Hk & Hs & Ha & Hu). unfold tryOneName.
  rewrite NewName_spec by (destruct Hp as (? & _ & ?); lia). rewrite tryRounds_twice.
  destruct (lookup_lt_is_Some_2 (servers ++ servers) k) as [server Hl]; [rewrite length_app; lia|].
  destruct (runs_exists _ _ _ (tryServers_answer ctx name qtype other l h Hq Hp Hctx Hu (servers ++ servers) k w None server Hw
    ltac:(by rewrite Hnr, Hnd) ltac:(by rewrite Hnr, Hnd) Hl)) as (r & w' & E & p & -> & Hr).
  unfold ask in E. rewrite E. eauto.
Qed.

(** ** Hosts *)

(** A domain name without the dot at its end. *)
Definition hostName (host : bytes) : Prop := domainName host /\ last host <> Some 46.

Lemma hostName_packs host : hostName host -> packs (host ++ [46]).
Proof.
  intros [(labels & dot & Hd & Hl & _) Hlast]. destruct (length_dotted _ _ _ Hd) as (Es & _ & Hdot).
  destruct dot; [|exists labels; split].
  - exfalso. apply Hlast. pose proof (proj2 Hdot eq_refl) as E. destruct (last host); [simpl in E; congruence|done].
  - destruct Hd as (-> & Hne & Hok). rewrite app_nil_r. done.
  - rewrite length_app. simpl. lia.
Qed.

Lemma ipv4Fields_bad c s : isDigit c = false -> c <> 46 -> c ∈ s -> forall fields val n start,
  ipv4Fields fields val n start s = None.
Proof.
  intros Hd Hc. induction s as [|x s IH]; intros Hin fields val n start; [by apply not_elem_of_nil in Hin|].
  cbn [ipv4Fields]. apply elem_of_cons in Hin as [->|Hin].
  - rewrite Hd. by destruct (Z.eqb_spec x 46).
  - by repeat (case_match; try done); apply IH.
Qed.

(** Names are not addresses. *)
Lemma domainName_no_address host : domainName host -> withoutZone host = host /\ ParseAddr host = None.
Proof.
  intros (labels & dot & Hd & _ & c & Hin & Hdig & Hc).
  assert (Forall (fun c => labelChar c = true \/ c = 46) host) as Hall by (apply good_chars; by exists labels, dot).
  assert (forall x, x ∈ host -> x <> 58 /\ x <> 37) as Hne.
  { intros x Hx. rewrite Forall_forall in Hall. destruct (Hall x Hx) as [Hl| ->]; [|done]. chars. }
  split.
  - unfold withoutZone. rewrite cutAt_none; [done|]. intros Hx. by apply Hne in Hx as [? _].
  - unfold ParseAddr. assert (family host = None \/ family host = Some 46) as [-> | ->]; [|done|].
    + clear - Hne. induction host as [|x host IH]; [by left|]. cbn [family].
      destruct (Hne x) as [H1 H2]; [by left|]. destruct (Z.eqb_spec x 46) as [->|]; [by right|].
      rewrite (proj2 (Z.eqb_neq x 58)), (proj2 (Z.eqb_neq x 37)) by done. apply IH. intros y Hy. apply Hne. by right.
    + unfold parseIPv4Fields. by rewrite (ipv4Fields_bad c).
Qed.

Lemma toAnswer_suffix qtype l : toAnswer qtype l `suffix_of` l.
Proof. induction l as [|[t d|t|] l IH]; cbn [toAnswer]; [done| |done|done]. case_match; [done|by apply suffix_cons_r]. Qed.

Lemma addresses_app t a b : addresses t (a ++ b) = addresses t a ++ addresses t b.
Proof. apply omap_app. Qed.

(** Nothing of the type asked for is skipped. *)
Lemma toAnswer_addresses qtype l : addresses qtype (toAnswer qtype l) = addresses qtype l.
Proof.
  induction l as [|[t d|t|] l IH]; cbn [toAnswer]; [done| |done|done].
  destruct (t =? qtype) eqn:E; [done|]. rewrite IH. cbn. by rewrite E.
Qed.

Lemma toAnswer_useful qtype other l h : useful qtype other l h ->
  Forall (fun a => isGood a = true) (toAnswer qtype l) /\ addresses qtype (toAnswer qtype l) = addresses qtype l
  /\ addresses other (toAnswer qtype l) = [].
Proof.
  intros (_ & Hg & _ & Ho). rewrite toAnswer_addresses. destruct (toAnswer_suffix qtype l) as [a E].
  rewrite E in Hg, Ho. apply Forall_app in Hg as [_ ?]. rewrite addresses_app in Ho. by apply app_nil in Ho as [_ ?].
Qed.

(** A lane whose answers are good. *)
Lemma lanesLoop_good host p server lanes v4 v6 lastErr : Forall (fun a => isGood a = true) (rest p) ->
  lanesLoop host ((p, server, None) :: lanes) (v4, v6, lastErr)
  = lanesLoop host lanes (v4 ++ addresses TypeA (rest p), v6 ++ addresses TypeAAAA (rest p), lastErr).
Proof.
  intros Hg. cbn [lanesLoop]. destruct (answersLoop_spec maxAnswers p host server v4 v6 lastErr (rest_bound p)) as (r & -> & Hr).
  by rewrite (Hr Hg).
Qed.

(** The lane of one type, if there is one. *)
Lemma lane_serves (b : bool) tnet ctx host qtype other w l : 0 <= qtype < 65536 -> hostName host -> ctx <> Some None ->
  (b = true -> serves (dnsServers tnet) w (host ++ [46]) qtype other l) -> exists lanes w',
  startLane b tnet ctx host qtype w = Some (lanes, w')
  /\ ((b = false /\ lanes = []) \/
      exists p server, b = true /\ lanes = [(p, server, None)] /\ Forall (fun a => isGood a = true) (rest p)
        /\ addresses qtype (rest p) = addresses qtype l /\ addresses other (rest p) = [] /\ addresses qtype l <> []).
Proof.
  intros Hq Hh Hctx Hs. unfold startLane. destruct b; [|exists [], w; split; [done|by left]]. specialize (Hs eq_refl).
  destruct (tryOneName_serves _ _ _ _ _ _ _ Hq (hostName_packs _ Hh) Hctx Hs) as (p & server & w' & -> & Hr).
  destruct Hs as (_ & _ & _ & k & h & _ & _ & _ & Hu). exists [(p, server, None)], w'. split; [done|].
  right. exists p, server. rewrite Hr. destruct (toAnswer_useful _ _ _ _ Hu) as (? & ? & ?). by destruct Hu as (_ & _ & ? & _).
Qed.

(** C15: the lookup of a name gives the addresses of the answers for it, those of
    IPv6 first, whichever of its two lookups ends first, if each of them meets a
    useful answer: in any of twice as many connections as there are servers,
    after ones that fail or keep silent, after datagrams that do not answer, over
    a stream if it does not fit in a datagram, and behind aliases. *)
Theorem lookup_resolves tnet ctx host last4 w4 w6 l4 l6 : hostName host -> ctx <> Some None ->
  hasV4 tnet || hasV6 tnet = true ->
  (hasV4 tnet = true -> serves (dnsServers tnet) w4 (host ++ [46]) TypeA TypeAAAA l4) ->
  (hasV6 tnet = true -> serves (dnsServers tnet) w6 (host ++ [46]) TypeAAAA TypeA l6) ->
  exists ws, LookupContextHost tnet ctx host last4 w4 w6 =
    Some (inl (addrString <$> (if hasV6 tnet then addresses TypeAAAA l6 else [])
                              ++ (if hasV4 tnet then addresses TypeA l4 else [])), ws).
Proof.
  intros Hh Hctx Hv Hs4 Hs6. unfold LookupContextHost. destruct (domainName_no_address host (proj1 Hh)) as [-> ->].
  rewrite (proj2 (isDomainName_spec host)) by apply Hh. cbn [negb].
  replace (match host with [] => true | _ => false end) with false by (destruct Hh as [(? & ? & _ & _ & c & Hc & _) _]; by destruct host; [apply not_elem_of_nil in Hc|]).
  replace (false || _) with false by (destruct (hasV4 tnet), (hasV6 tnet); done).
  destruct (lane_serves (hasV4 tnet) tnet ctx host TypeA TypeAAAA w4 l4) as (lanes4 & w4' & -> & H4); [done..|].
  destruct (lane_serves (hasV6 tnet) tnet ctx host TypeAAAA TypeA w6 l6) as (lanes6 & w6' & -> & H6); [done..|].
  clear Hs4 Hs6. cbn [option_bind mbind]. exists (w4', w6'). unfold collect.
  destruct H4 as [[E4 ->]|(p4 & s4 & E4 & -> & Hg4 & Ha4 & Ho4 & Hne4)]; rewrite E4 in *;
    (destruct H6 as [[E6 ->]|(p6 & s6 & E6 & -> & Hg6 & Ha6 & Ho6 & Hne6)]; rewrite E6 in *); [done|..];
    destruct last4; cbn [app]; rewrite ?lanesLoop_good by done; cbn [lanesLoop mbind option_bind];
    rewrite ?Ha4, ?Ha6, ?Ho4, ?Ho6, ?app_nil_r, ?app_nil_l; by case_match.
Qed.
(** C20: whatever the servers send, however the network fails and in whichever
    order the lookups end, the lookup of a host returns, with addresses or with an
    error; no message makes it panic or go round for ever. *)
Theorem lookup_returns tnet ctx host last4 w4 w6 : randOk w4 -> randOk w6 ->
  exists r w4' w6', LookupContextHost tnet ctx host last4 w4 w6 = Some (r, (w4', w6')).
Proof.
  intros H4 H6. unfold LookupContextHost. destruct (_ || _); [by eauto|].
  destruct (ParseAddr _); [by eauto|]. destruct (negb (isDomainName host)); [by eauto|].
  destruct (startLane_total (hasV4 tnet) tnet ctx host TypeA w4) as (l4 & w4' & ->); [done|done|].
  destruct (startLane_total (hasV6 tnet) tnet ctx host TypeAAAA w6) as (l6 & w6' & ->); [done|done|]. cbn [mbind option_bind].
  destruct (lanesLoop_total host (if last4 then l6 ++ l4 else l4 ++ l6) ([], [], None)) as [r ->]. simpl. eauto.
Qed.
(** ** Names with a dot at their end *)

Lemma tryServers_fails (P : World -> Prop) try servers lastErr w : P w ->
  (forall server w, P w -> runs (try server) w (fun r w' => (exists e, r = inr e) /\ P w')) ->
  servers <> [] \/ is_Some lastErr ->
  runs (tryServers try servers lastErr) w (fun r w' => (exists e, r = inr (Some e)) /\ P w').
Proof.
  intros Hw Ht. revert lastErr w Hw. induction servers as [|s servers IH]; intros lastErr w Hw Hs; cbn [tryServers].
  - destruct Hs as [?|[e ->]]; [done|]. cbn. eauto.
  - apply runs_bind. eapply runs_mono; [by apply Ht|]. intros r w' ([e ->] & Hw'). apply IH; [done|]. right. by eexists.
Qed.

(** A name that already ends with a dot is asked for with a second one, which no
    message can hold: its lookup fails whatever the servers know. *)
Lemma trailing_dot_fails tnet ctx host last4 w4 w6 : randOk w4 -> randOk w6 -> dnsServers tnet <> [] ->
  domainName host -> last host = Some 46 ->
  exists e ws, LookupContextHost tnet ctx host last4 w4 w6 = Some (inr e, ws).
Proof.
  intros H4 H6 Hne Hh Hdot. apply last_Some in Hdot as [s Hs].
  assert (forall b qtype w, 0 <= qtype < 65536 -> randOk w -> exists lanes w',
    startLane b tnet ctx host qtype w = Some (lanes, w') /\ if b then exists p server e, lanes = [(p, server, Some e)] else lanes = [])
    as Hlane.
  { intros [] qtype w Hq Hw; [|by eexists _, _]. unfold startLane, tryOneName.
    rewrite NewName_spec by (destruct Hh as (labels & dot & Hd & Hl & _); destruct (length_dotted _ _ _ Hd) as (El & _);
      rewrite length_app, El; simpl; destruct dot; lia).
    assert (forall lastErr w, randOk w -> runs (tryServers (tryServer ctx (host ++ [46]) (ask (host ++ [46]) qtype) qtype)
      (dnsServers tnet ++ dnsServers tnet) lastErr) w (fun r w' => (exists e, r = inr (Some e)) /\ randOk w')) as Hr.
    { clear w Hw. intros lastErr w Hw. apply tryServers_fails; [done| |left; by destruct (dnsServers tnet)].
      clear w Hw. intros server w Hw. unfold tryServer, exchange. apply runs_bind, runs_bind.
      change (mkQuestion _ _ _) with (ask (host ++ [46]) qtype).
      eapply runs_mono; [by apply newRequest_spec|]. intros r w' (-> & _ & Hr).
      destruct (Hr s []) as [u ->]; [by rewrite Hs, <- app_assoc|]. cbn. by split; [eexists|]. }
    rewrite tryRounds_twice. destruct (runs_exists _ _ _ (Hr None w Hw)) as (r & w' & E & [e ->] & _).
    unfold ask in E. rewrite E. eexists _, _. split; [done|]. by eexists _, _, _. }
  unfold LookupContextHost. destruct (_ || _) eqn:Ev; [by eexists _, _|].
  destruct (domainName_no_address host Hh) as [-> ->]. rewrite (proj2 (isDomainName_spec host)) by done. cbn [negb].
  destruct (Hlane (hasV4 tnet) TypeA w4) as (lanes4 & w4' & -> & E4); [done|done|].
  destruct (Hlane (hasV6 tnet) TypeAAAA w6) as (lanes6 & w6' & -> & E6); [done|done|]. cbn [mbind option_bind].
  apply orb_false_iff in Ev as [_ Ev]. destruct (hasV4 tnet), (hasV6 tnet); try done;
    repeat match goal with H : exists _, _ |- _ => destruct H end; subst; destruct last4; destruct tnet as [? ? []]; by eexists _, _.
Qed.
End Lookup.

(** ** A network with two servers *)

Definition toyNet : Net := mkNet [mkAddr [10; 0; 0; 1] []; mkAddr [10; 0; 0; 2] []] true true.
Definition toyHost : bytes := of_string "a.b".
Definition toyRand (i : nat) : option (Z * Z) := Some (Z.of_nat i mod 256, 7).

(** An alias, then an address. *)
Definition toyHeader (id : Z) (truncated : bool) : Header := mkHeader id true false truncated true true 0.
Definition reply4 : bytes := toyEncode (toyHeader 1793 false) (ask (of_string "A.b.") TypeA) [5; 1; 9; 1; 4; 1; 2; 3; 4].
Definition reply6 (truncated : bool) : bytes :=
  toyEncode (toyHeader 1792 truncated) (ask (of_string "a.b.") TypeAAAA)
    (if truncated then [] else [28; 16; 32; 1; 0; 0; 0; 0; 0; 0; 0; 0; 0; 0; 0; 0; 0; 9]).

(** The first connection for IPv4 fails, the second has a datagram of another's
    before the answer; that for IPv6 is truncated, and whole on a stream. *)
Definition toyConn (arrives : list bytes) : conn + err := inl (mkConn None None arrives EOF).
Definition toyWorld (net : nat -> conn + err) : World := mkWorld toyRand (fun i => Z.of_nat i) net 0 0 0 [].
Definition toy4 : World := toyWorld (fun i => if (i =? 0)%nat then inr (NetError true true []) else toyConn [[1; 2]; reply4]).
Definition toy6 : World := toyWorld (fun i => if (i =? 0)%nat then toyConn [reply6 true]
  else toyConn [be_enc 2 (zlen (reply6 false)) ++ take 7 (reply6 false); drop 7 (reply6 false)]).

Lemma toyRand_ok net : randOk (toyWorld net).
Proof.
  intros i. exists (Z.of_nat i mod 256), 7. split; [done|]. unfold is_byte. pose proof (Z.mod_pos_bound (Z.of_nat i) 256). lia.
Qed.

Lemma lookup_returns_witness : exists r w4' w6',
  LookupContextHost toyNet None toyHost false toy4 toy6 = Some (r, (w4', w6')).
Proof. apply (lookup_returns toyNet None toyHost false toy4 toy6); apply toyRand_ok. Defined.

Lemma toyHost_ok : hostName toyHost.
Proof. split; [by apply isDomainName_spec|done]. Qed.

Lemma toy4_serves : serves (dnsServers toyNet) toy4 (toyHost ++ [46]) TypeA TypeAAAA [Good 5 [9]; Good 1 [1; 2; 3; 4]].
Proof.
  split; [apply toyRand_ok|]. split; [done|]. split; [done|]. exists 1%nat, (toyHeader 1793 false). split; [simpl; lia|].
  split; [by intros [|i] Hi; [|lia]|]. split; [|by split_and!; [|repeat constructor| |]].
  eexists. split; [reflexivity|]. left. split; [done|]. exists [[1; 2]], reply4, []. split; [done|]. split; [vm_compute; lia|].
  split; [by apply Forall_singleton|]. exists (ask (of_string "A.b.") TypeA). split; [|by split].
  eexists. split; [vm_compute; reflexivity|]. by split.
Qed.

Lemma toy6_answered : answered toy6 (ask (toyHost ++ [46]) TypeAAAA) 0 (idAt toy6 0)
  [Good 28 [32; 1; 0; 0; 0; 0; 0; 0; 0; 0; 0; 0; 0; 0; 0; 9]] (toyHeader 1792 false).
Proof.
  eexists. split; [reflexivity|]. right. eexists _, [], (toyHeader 1792 true). split; [|split; [reflexivity|]].
  - split; [done|]. exists [], (reply6 true), []. split; [done|]. split; [vm_compute; lia|]. split; [by apply Forall_nil|].
    exists (ask (of_string "a.b.") TypeAAAA). split; [|by split]. eexists. split; [vm_compute; reflexivity|]. by split.
  - split; [done|]. exists (reply6 false), []. split; [by vm_compute|]. split; [by vm_compute|].
    exists (ask (of_string "a.b.") TypeAAAA). split; [|by split]. eexists. split; [vm_compute; reflexivity|]. by split.
Qed.

Lemma toy6_serves : serves (dnsServers toyNet) toy6 (toyHost ++ [46]) TypeAAAA TypeA
  [Good 28 [32; 1; 0; 0; 0; 0; 0; 0; 0; 0; 0; 0; 0; 0; 0; 9]].
Proof.
  split; [apply toyRand_ok|]. split; [done|]. split; [done|]. exists 0%nat, (toyHeader 1792 false). split; [simpl; lia|].
  split; [lia|]. split; [exact toy6_answered|]. by split_and!; [|repeat constructor| |].
Qed.

Lemma lookup_resolves_witness : exists ws,
  LookupContextHost toyNet (Some (Some 100)) toyHost true toy4 toy6 =
    Some (inl [of_string "2001::9"; of_string "1.2.3.4"], ws).
Proof.
  apply (lookup_resolves toyNet (Some (Some 100)) toyHost true toy4 toy6
    [Good 5 [9]; Good 1 [1; 2; 3; 4]] [Good 28 [32; 1; 0; 0; 0; 0; 0; 0; 0; 0; 0; 0; 0; 0; 0; 9]]).
  - exact toyHost_ok.
  - done.
  - done.
  - intros _. exact toy4_serves.
  - intros _. exact toy6_serves.
Defined.

Lemma exchange_answers_witness : runs (exchange None (mkAddr [10; 0; 0; 1] []) (ask (toyHost ++ [46]) TypeAAAA) (second * 5)) toy6
  (fun r w' => exists p m d again, r = inl (p, toyHeader 1792 false)
    /\ rest p = [Good 28 [32; 1; 0; 0; 0; 0; 0; 0; 0; 0; 0; 0; 0; 0; 0; 9]]
    /\ encodes m (requestHeader (nextId toy6)) (ask (toyHost ++ [46]) TypeAAAA) [] /\ d <= w_now toy6 (n_now toy6) + second * 5
    /\ (forall c, None = Some (Some c) -> d <= c)
    /\ w_log w' = w_log toy6 ++ [Dialed true (mkAddr [10; 0; 0; 1] []) 53; DeadlineSet (Some d); Written m; Closed] ++ again).
Proof.
  apply (exchange_answers None (mkAddr [10; 0; 0; 1] []) (toyHost ++ [46]) TypeAAAA (second * 5) toy6 _ (toyHeader 1792 false)).
  - apply toyRand_ok.
  - done.
  - apply hostName_packs, toyHost_ok.
  - done.
  - exact toy6_answered.
Defined.
