(* ===== verification/Netstack.v ===== *)
(** The user-space network stack ([tun/netstack/tun.go]): the device it gives to
    WireGuard, its ping connections, and dialling by name.  The stack itself is
    gVisor's: the calls made to it are recorded, its answers are arguments. *)
From S2P Require Import Prelude Messages NoiseHelpers Text Netip DomainName Resolver.

(** ** Addresses *)

(** The zero [netip.Addr]. *)
Definition noAddr : Addr := mkAddr [] [].
Definition Is4 (a : Addr) : bool := (length (a_bytes a) =? 4)%nat.
Definition Is6 (a : Addr) : bool := (length (a_bytes a) =? 16)%nat.
Definition IsValid (a : Addr) : bool := negb (length (a_bytes a) =? 0)%nat.

(** [netip.AddrFromSlice], the zero address if the length is wrong. *)
Definition AddrFromSlice (ip : bytes) : Addr :=
  if (length ip =? 4)%nat || (length ip =? 16)%nat then mkAddr ip [] else noAddr.

Inductive protocol := IPv4 | IPv6.
Record FullAddress := mkFull { fa_NIC : Z; fa_Addr : bytes; fa_Port : Z }.

Definition convertToFullAddr (endpoint : Addr * Z) : FullAddress * protocol :=
  (mkFull 1 (a_bytes endpoint.1) endpoint.2, if Is4 endpoint.1 then IPv4 else IPv6).

(** ** Connections of gonet *)

Inductive gonetCall :=
  | GoDialContextTCP (ctx : option gotime) (fa : FullAddress) (pn : protocol)
  | GoDialTCP (fa : FullAddress) (pn : protocol)
  | GoListenTCP (fa : FullAddress) (pn : protocol)
  | GoDialUDP (lfa rfa : option FullAddress) (pn : option protocol).

Definition DialContextTCPAddrPort (ctx : option gotime) (addr : Addr * Z) : gonetCall :=
  let '(fa, pn) := convertToFullAddr addr in GoDialContextTCP ctx fa pn.
Definition DialTCPAddrPort (addr : Addr * Z) : gonetCall :=
  let '(fa, pn) := convertToFullAddr addr in GoDialTCP fa pn.
Definition ListenTCPAddrPort (addr : Addr * Z) : gonetCall :=
  let '(fa, pn) := convertToFullAddr addr in GoListenTCP fa pn.

(** What is made of a [net.TCPAddr] or a [net.UDPAddr], its IP and port; [None] is nil. *)
Definition addrPort (addr : option (bytes * Z)) : Addr * Z :=
  match addr with None => (noAddr, 0) | Some (ip, port) => (AddrFromSlice ip, u16 port) end.

Definition DialContextTCP (ctx : option gotime) (addr : option (bytes * Z)) : gonetCall :=
  DialContextTCPAddrPort ctx (addrPort addr).
Definition DialTCP (addr : option (bytes * Z)) : gonetCall := DialTCPAddrPort (addrPort addr).
Definition ListenTCP (addr : option (bytes * Z)) : gonetCall := ListenTCPAddrPort (addrPort addr).

(** The protocol is that of the last address given. *)
Definition DialUDPAddrPort (laddr raddr : Addr * Z) : gonetCall :=
  let full (a : Addr * Z) (pn : option protocol) :=
    if IsValid a.1 || (0 <? a.2) then
      let '(fa, p) := convertToFullAddr a in (Some fa, Some p)
    else (None, pn) in
  let '(lfa, pn) := full laddr None in
  let '(rfa, pn) := full raddr pn in
  GoDialUDP lfa rfa pn.
Definition ListenUDPAddrPort (laddr : Addr * Z) : gonetCall := DialUDPAddrPort laddr (noAddr, 0).
Definition DialUDP (laddr raddr : option (bytes * Z)) : gonetCall := DialUDPAddrPort (addrPort laddr) (addrPort raddr).
Definition ListenUDP (laddr : option (bytes * Z)) : gonetCall := DialUDP laddr None.

(** ** The device *)

Inductive stackCall :=
  | EnableSACK | AddNotify | CreateNIC | AddProtocolAddress (p : option protocol) (ip : bytes)
  | AddRoute (p : protocol) | InjectInbound (p : protocol) (packet : bytes)
  | RemoveNIC | CloseStack | RemoveNotify | CloseEndpoint.

(** [incoming] are the packets whose notifications wait in a send on the channel,
    which has no buffer; [nt_closed] says that both channels are closed. *)
Record netTun := mkNetTun {
  nt_mtu : Z; nt_net : Net; nt_events : nat; incoming : list bytes; nt_closed : bool; nt_stack : list stackCall }.
#[export] Instance netTun_settable : Settable netTun := fun t =>
  mkNetTun (nt_mtu t) (nt_net t) (nt_events t) (incoming t) (nt_closed t) (nt_stack t).

Definition call (c : stackCall) (t : netTun) : netTun := t <| nt_stack ::= fun l => l ++ [c] |>.

Inductive createError := NoSACK | NoNIC | NoAddress (ip : Addr).

(** The loop over the local addresses; [refused] says which the stack refuses. *)
Fixpoint addAddresses (refused : Addr -> bool) (ips : list Addr) (t : netTun) : netTun + createError :=
  match ips with
  | [] => inl t
  | ip :: ips =>
      let proto := if Is4 ip then Some IPv4 else if Is6 ip then Some IPv6 else None in
      let t := call (AddProtocolAddress proto (a_bytes ip)) t in
      if refused ip then inr (NoAddress ip)
      else
        let n := nt_net t in
        addAddresses refused ips
          (if Is4 ip then t <| nt_net := mkNet (dnsServers n) true (hasV6 n) |>
           else if Is6 ip then t <| nt_net := mkNet (dnsServers n) (hasV4 n) true |> else t)
  end.

Definition CreateNetTUN (noSACK noNIC : bool) (refused : Addr -> bool) (localAddresses dnsServers : list Addr) (mtu : Z)
    : netTun + createError :=
  let dev := call EnableSACK (mkNetTun mtu (mkNet dnsServers false false) 0 [] false []) in
  if noSACK then inr NoSACK
  else
    let dev := call CreateNIC (call AddNotify dev) in
    if noNIC then inr NoNIC
    else
      match addAddresses refused localAddresses dev with
      | inr e => inr e
      | inl dev =>
          let dev := if hasV4 (nt_net dev) then call (AddRoute IPv4) dev else dev in
          let dev := if hasV6 (nt_net dev) then call (AddRoute IPv6) dev else dev in
          inl (dev <| nt_events ::= S |>)
      end.

Inductive tunError := ErrClosed | EAFNOSUPPORT | ViewError (e : err).

(** What [Read] does with the packet it is given. *)
Inductive readResult := ReadSome (n : nat) | ReadFails (e : tunError) | ReadWaits.

Section Device.
  (** the bytes that a view of gVisor copies into a buffer with so much room *)
  Variable viewRead : bytes -> nat -> bytes + err.

(** [None] is a panic; the buffers are of any number, only the first is used. *)
Definition Read (bufs : list bytes) (sizes : list Z) (offset : nat) (t : netTun)
    : option (list bytes * list Z * readResult * netTun) :=
  match incoming t with
  | [] => Some (bufs, sizes, if nt_closed t then ReadFails ErrClosed else ReadWaits, t)
  | view :: rest =>
      let t := t <| incoming := rest |> in
      buf ← head bufs;
      if (length buf <? offset)%nat then None
      else
        match viewRead view (length buf - offset) with
        | inr e => Some (bufs, sizes, ReadFails (ViewError e), t)
        | inl data =>
            match sizes with
            | [] => None
            | _ :: sizes' => Some (copy_at buf offset data :: tail bufs, zlen data :: sizes', ReadSome 1, t)
            end
        end
  end.
End Device.

(** The loop of [Write]; [inr] is a packet that is neither IPv4 nor IPv6. *)
Fixpoint writeLoop (bufs : list bytes) (offset : nat) (t : netTun) : option (unit + tunError) * netTun :=
  match bufs with
  | [] => (Some (inl tt), t)
  | buf :: bufs =>
      if (length buf <? offset)%nat then (None, t)
      else
        match drop offset buf with
        | [] => writeLoop bufs offset t
        | (b :: _) as packet =>
            if Z.shiftr b 4 =? 4 then writeLoop bufs offset (call (InjectInbound IPv4 packet) t)
            else if Z.shiftr b 4 =? 6 then writeLoop bufs offset (call (InjectInbound IPv6 packet) t)
            else (Some (inr EAFNOSUPPORT), t)
        end
  end.

Definition Write (bufs : list bytes) (offset : nat) (t : netTun) : option (Z * option tunError) * netTun :=
  match writeLoop bufs offset t with
  | (Some (inl _), t) => (Some (zlen bufs, None), t)
  | (Some (inr e), t) => (Some (0, Some e), t)
  | (None, t) => (None, t)
  end.

(** The endpoint's packet, if it has one, waits for a reader; sending on a closed
    channel panics. *)
Definition WriteNotify (pkt : option bytes) (t : netTun) : option netTun :=
  match pkt with
  | None => Some t
  | Some view => if nt_closed t then None else Some (t <| incoming ::= fun l => l ++ [view] |>)
  end.

(** Closing a channel twice panics, and so does every send that waits on it. *)
Definition Close (t : netTun) : option netTun :=
  let t := call CloseEndpoint (call RemoveNotify (call CloseStack (call RemoveNIC t))) in
  if nt_closed t then None
  else match incoming t with [] => Some (t <| nt_closed := true |>) | _ => None end.

Definition MTU (t : netTun) : Z := nt_mtu t.
Definition BatchSize : Z := 1.

(** ** Ping connections *)

(** A timer: stopped, running out at a time, or run out with its value still in
    its channel. *)
Inductive timer := Stopped | Armed (t : Z) | Fired.

Record PingConn := mkPing { laddr : Addr; raddr : Addr; pc_deadline : timer; pc_closed : bool }.
#[export] Instance PingConn_settable : Settable PingConn := fun pc =>
  mkPing (laddr pc) (raddr pc) (pc_deadline pc) (pc_closed pc).

Definition Network (ia : Addr) : bytes :=
  if Is4 ia then of_string "ping4" else if Is6 ia then of_string "ping6" else of_string "ping".

Inductive pingCall := NewEndpoint (p : protocol) | Bind (fa : FullAddress) | Connect (fa : FullAddress).
Inductive pingError := InvalidAddress | EndpointError | BindError | ConnectError.

(** [noEndpoint], [noBind] and [noConnect] say what the stack refuses. *)
Definition DialPingAddr (noEndpoint noBind noConnect : bool) (la ra : Addr) : (PingConn + pingError) * list pingCall :=
  if negb (IsValid la) && negb (IsValid ra) then (inr InvalidAddress, [])
  else
    let v6 := Is6 la || Is6 ra in
    let bind := IsValid la in
    let la := if bind then la else if v6 then mkAddr (zeros 16) [] else mkAddr (zeros 4) [] in
    let pc := mkPing la noAddr Stopped false in
    let calls := [NewEndpoint (if v6 then IPv6 else IPv4)] in
    if noEndpoint then (inr EndpointError, calls)
    else
      let calls := if bind then calls ++ [Bind (convertToFullAddr (la, 0)).1] else calls in
      if bind && noBind then (inr BindError, calls)
      else if IsValid ra then
        let calls := calls ++ [Connect (convertToFullAddr (ra, 0)).1] in
        if noConnect then (inr ConnectError, calls) else (inl (pc <| raddr := ra |>), calls)
      else (inl pc, calls).

Definition ListenPingAddr (noEndpoint noBind noConnect : bool) (la : Addr) : (PingConn + pingError) * list pingCall :=
  DialPingAddr noEndpoint noBind noConnect la noAddr.
Definition DialPing (noEndpoint noBind noConnect : bool) (la ra : option Addr) : (PingConn + pingError) * list pingCall :=
  DialPingAddr noEndpoint noBind noConnect (default noAddr la) (default noAddr ra).
Definition ListenPing (noEndpoint noBind noConnect : bool) (la : option Addr) : (PingConn + pingError) * list pingCall :=
  ListenPingAddr noEndpoint noBind noConnect (default noAddr la).

(** The address to write to: of a ping, an IP as package net has it, or another. *)
Inductive pingDest := ToPing (a : Addr) | ToIP (ip : bytes) | ToOther.
Inductive pingWriteError := WrongType | MismatchedProtocols | WriteError.

(** The address given to the endpoint, and the error; [written] is the endpoint's
    answer: how many bytes, and whether it failed. *)
Definition WriteTo (written : Z * bool) (addr : pingDest) (pc : PingConn)
    : Z * option pingWriteError * option FullAddress :=
  match addr with
  | ToOther => (0, Some WrongType, None)
  | _ =>
      let na := match addr with ToPing a => a | ToIP ip => AddrFromSlice ip | ToOther => noAddr end in
      if negb ((Is4 na && Is4 (laddr pc)) || (Is6 na && Is6 (laddr pc))) then (0, Some MismatchedProtocols, None)
      else
        let '(rfa, _) := convertToFullAddr (na, 0) in
        (written.1, if written.2 then Some WriteError else None, Some rfa)
  end.
Definition WritePing (written : Z * bool) (pc : PingConn) : Z * option pingWriteError * option FullAddress :=
  WriteTo written (ToPing (raddr pc)) pc.

Definition ClosePing (t : Z) (pc : PingConn) : PingConn := pc <| pc_deadline := Armed t |> <| pc_closed := true |>.
Definition SetReadDeadline (t : Z) (pc : PingConn) : PingConn := pc <| pc_deadline := Armed t |>.
Definition SetDeadline (t : Z) (pc : PingConn) : PingConn := SetReadDeadline t pc.

(** What the channel of a timer has at a time. *)
Definition ready (t : Z) (d : timer) : bool :=
  match d with Stopped => false | Armed u => u <=? t | Fired => true end.

Inductive pingReadError := ErrDeadlineExceeded | ReadError.

(** [ReadFrom] at time [t], when the endpoint has the answer [arrived] for it: the
    number of bytes and the sender, or a failure.  [None] waits; when both channels
    are ready, [late] takes the timer's value, which is then gone. *)
Definition ReadFrom (t : Z) (arrived : option (Z * bytes + unit)) (late : bool) (pc : PingConn)
    : option ((Z * option Addr * option pingReadError) * PingConn) :=
  let expire := Some ((0, None, Some ErrDeadlineExceeded), pc <| pc_deadline := Stopped |>) in
  let take r :=
    match r with
    | inr _ => Some ((0, None, Some ReadError), pc)
    | inl (n, ip) => Some ((n, Some (AddrFromSlice ip), None), pc)
    end in
  match arrived with
  | None => if ready t (pc_deadline pc) then expire else None
  | Some r => if ready t (pc_deadline pc) && late then expire else take r
  end.

(** ** Dialling by name *)

Definition partialDeadline (now : Z) (deadline : gotime) (addrsRemaining : Z) : option (gotime + err) :=
  match deadline with
  | None => Some (inl None)
  | Some d =>
      let timeRemaining := sat64 (d - now) in
      if timeRemaining <=? 0 then Some (inr errTimeout)
      else if addrsRemaining =? 0 then None
      else
        let timeout := Z.quot timeRemaining addrsRemaining in
        let saneMinimum := 2 * second in
        let timeout :=
          if timeout <? saneMinimum then
            if timeRemaining <? saneMinimum then timeRemaining else saneMinimum
          else timeout in
        Some (inl (Some (now + timeout)))
  end.

Inductive proto := TCP | UDP | Ping.

(** What follows a text, if it starts with another. *)
Fixpoint after (pre s : bytes) : option bytes :=
  match pre, s with
  | [], _ => Some s
  | a :: pre, b :: s => if a =? b then after pre s else None
  | _, [] => None
  end.

(** [^(tcp|udp|ping)(4|6)?$]: both groups, the second perhaps empty. *)
Definition protoSplitter (network : bytes) : option (proto * bytes) :=
  let tail p s := match s with [] => Some (p, []) | [c] => if (c =? 52) || (c =? 54) then Some (p, [c]) else None | _ => None end in
  match after (of_string "tcp") network with
  | Some s => tail TCP s
  | None =>
      match after (of_string "udp") network with
      | Some s => tail UDP s
      | None => match after (of_string "ping") network with Some s => tail Ping s | None => None end
      end
  end.

(** [net.SplitHostPort]; its errors are not told apart. *)
Definition SplitHostPort (hostport : bytes) : option (bytes * bytes) :=
  '(before, port) ← cutLast 58 hostport;
  let plain s := match cutAt 91 s, cutAt 93 s with None, None => true | _, _ => false end in
  match hostport with
  | 91 :: inside =>
      '(host, rest) ← cutAt 93 inside;
      if bytes_eqb rest (58 :: port) && negb (match cutAt 91 inside with Some _ => true | None => false end) && plain rest
      then Some (host, port) else None
  | _ =>
      match cutAt 58 before with
      | Some _ => None
      | None => if plain hostport then Some (before, port) else None
      end
  end.

(** The errors of dialling: an [OpError] around a cause, or as it comes. *)
Inductive dialCause := UnknownNetwork (network : bytes) | BadHostPort | Lookup (e : lookupError) | Cause (e : err).
Inductive dialError := OpError (c : dialCause) | Raw (e : err).

(** The addresses of the versions that the network accepts, with the port. *)
Definition suitable (acceptV4 acceptV6 : bool) (port : Z) (allAddr : list bytes) : list (Addr * Z) :=
  omap (fun addr =>
    match ParseAddr addr with
    | Some ip => if (Is4 ip && acceptV4) || (Is6 ip && acceptV6) then Some (ip, u16 port) else None
    | None => None
    end) allAddr.

(** A context: its deadline and whether it is done when asked for the [i]th time. *)
Record context := mkContext { cx_deadline : option gotime; cx_err : nat -> option err }.

(** One dial: the protocol, the address, and the deadline of its context. *)
Record dialled := mkDialled { dl_proto : proto; dl_addr : Addr * Z; dl_deadline : option gotime }.

(** The loop over the addresses.  [clock] is read and [answer] given for each of
    them in turn: a connection, or why there is none. *)
Fixpoint dialLoop (ctx : context) (clock : nat -> Z) (answer : nat -> Z + err) (p : proto) (i : nat)
    (addrs : list (Addr * Z)) (firstErr : option dialError) : option ((Z + option dialError) * list dialled) :=
  match addrs with
  | [] => Some (inr firstErr, [])
  | addr :: rest =>
      match cx_err ctx i with
      | Some e => Some (inr (Some (OpError (Cause (ctxError e)))), [])
      | None =>
          d ← match cx_deadline ctx with
              | None => Some (inl None)
              | Some deadline =>
                  r ← partialDeadline (clock i) deadline (zlen addrs);
                  Some (match r with
                        | inr e => inr e
                        | inl (Some t) =>
                            inl (Some (match deadline with
                                       | Some d => if t <? d then WithDeadline (Some deadline) t else deadline
                                       | None => deadline
                                       end))
                        | inl None => inl (Some deadline)
                        end)
              end;
          match d with
          | inr e => Some (inr (match firstErr with None => Some (OpError (Cause e)) | _ => firstErr end), [])
          | inl dialCtx =>
              let dl := mkDialled p addr dialCtx in
              match answer i with
              | inl c => Some (inl c, [dl])
              | inr e =>
                  '(r, l) ← dialLoop ctx clock answer p (S i) rest (match firstErr with None => Some (Raw e) | _ => firstErr end);
                  Some (r, dl :: l)
              end
          end
      end
  end.

Section Dial.
  Context `{Dnsmessage}.

(** [None] is a panic: of a nil context, or in the lookups, whose worlds are [w4]
    and [w6] and the order of whose ends is [last4]. *)
Definition DialContext (tnet : Net) (ctx : option context) (network address : bytes) (last4 : bool) (w4 w6 : World)
    (clock : nat -> Z) (answer : nat -> Z + err) : option ((Z + dialError) * list dialled) :=
  ctx ← ctx;
  match protoSplitter network with
  | None => Some (inr (OpError (UnknownNetwork network)), [])
  | Some (p, v) =>
      let acceptV4 := match v with [] => true | c :: _ => c =? 52 end in
      let acceptV6 := match v with [] => true | c :: _ => negb (c =? 52) end in
      let target :=
        match p with
        | Ping => inl (address, 0)
        | _ =>
            match SplitHostPort address with
            | None => inr (OpError BadHostPort)
            | Some (host, sport) =>
                match Atoi sport with
                | Some port => if (port <? 0) || (65535 <? port) then inr (OpError (Cause errNumericPort)) else inl (host, port)
                | None => inr (OpError (Cause errNumericPort))
                end
            end
        end in
      match target with
      | inr e => Some (inr e, [])
      | inl (host, port) =>
          '(r, _) ← LookupContextHost tnet (cx_deadline ctx) host last4 w4 w6;
          match r with
          | inr e => Some (inr (OpError (Lookup e)), [])
          | inl allAddr =>
              let addrs := suitable acceptV4 acceptV6 port allAddr in
              match addrs, allAddr with
              | [], _ :: _ => Some (inr (OpError (Cause errNoSuitableAddress)), [])
              | _, _ =>
                  '(r, l) ← dialLoop ctx clock answer p 0 addrs None;
                  Some (match r with
                        | inl c => inl c
                        | inr (Some e) => inr e
                        | inr None => inr (OpError (Cause errMissingAddress))
                        end, l)
              end
          end
      end
  end.

Definition background : context := mkContext None (fun _ => None).
Definition Dial (tnet : Net) (network address : bytes) (last4 : bool) (w4 w6 : World) (clock : nat -> Z)
    (answer : nat -> Z + err) : option ((Z + dialError) * list dialled) :=
  DialContext tnet (Some background) network address last4 w4 w6 clock answer.
End Dial.
