(* ===== verification/NetstackSpec.v ===== *)
(** What the user-space network stack gives: packets of WireGuard go to the stack
    of their version, and dialling a name connects to the first of its addresses
    that answers, each of them with its share of the time that is left. *)
From S2P Require Import Prelude Messages NoiseHelpers Text Netip DomainName Resolver ResolverSpec ResolverLookup Netstack.

(** ** Packets for the stack *)

(** What a buffer gives the stack; [None] is a packet of neither version. *)
Definition injection (packet : bytes) : option (list stackCall) :=
  match packet with
  | [] => Some []
  | b :: _ =>
      if Z.shiftr b 4 =? 4 then Some [InjectInbound IPv4 packet]
      else if Z.shiftr b 4 =? 6 then Some [InjectInbound IPv6 packet] else None
  end.

Lemma writeLoop_prefix offset pre post : forall t calls, Forall (fun buf => (offset <= length buf)%nat) pre ->
  Forall2 (fun buf c => injection (drop offset buf) = Some c) pre calls ->
  writeLoop (pre ++ post) offset t = writeLoop post offset (t <| nt_stack ::= fun l => l ++ concat calls |>).
Proof.
  induction pre as [|buf pre IH]; intros [mtu n ev inc cl stk] calls Hl Hc; inversion Hc as [|? c ? calls' Hb Hcs]; subst.
  - cbn. by rewrite app_nil_r.
  - inversion Hl as [|? ? Hbuf Hpre]; subst. cbn [app writeLoop]. rewrite (proj2 (Nat.ltb_ge _ _)) by done.
    unfold injection in Hb. destruct (drop offset buf) as [|b packet]; [injection Hb as <-; by rewrite (IH _ calls')|].
    destruct (Z.shiftr b 4 =? 4); [|destruct (Z.shiftr b 4 =? 6); [|done]]; injection Hb as <-;
      rewrite (IH _ calls') by done; cbn; by rewrite <- app_assoc.
Qed.

(** The packets of a batch go to the stack in order, each as what the version
    in its first byte says, empty ones left out, up to the first of neither version,
    at which the write stops and reports none of them written. *)
Theorem Write_injects offset pre post calls t :
  Forall (fun buf => (offset <= length buf)%nat) (pre ++ post) ->
  Forall2 (fun buf c => injection (drop offset buf) = Some c) pre calls ->
  match post with [] => True | buf :: _ => injection (drop offset buf) = None end ->
  Write (pre ++ post) offset t =
    (Some (match post with [] => (zlen pre, None) | _ => (0, Some EAFNOSUPPORT) end),
     t <| nt_stack ::= fun l => l ++ concat calls |>).
Proof.
  intros [Hpre Hpost]%Forall_app Hc Hbad. unfold Write. rewrite (writeLoop_prefix offset pre post t calls) by done.
  destruct post as [|buf post]; [by rewrite app_nil_r|]. inversion Hpost as [|? ? Hbuf _]; subst.
  cbn [writeLoop]. rewrite (proj2 (Nat.ltb_ge _ _)) by done. unfold injection in Hbad.
  destruct (drop offset buf) as [|b packet]; [done|]. by destruct (Z.shiftr b 4 =? 4), (Z.shiftr b 4 =? 6).
Qed.

Definition smallTun : netTun := mkNetTun 1420 (mkNet [] true true) 1 [] false [].

Lemma Write_injects_witness :
  Write ([[0; 69; 1]; [0]; [0; 96; 2]] ++ [[0; 16]; [0; 69]]) 1 smallTun =
    (Some (0, Some EAFNOSUPPORT), smallTun <| nt_stack ::= fun l => l ++ concat [[InjectInbound IPv4 [69; 1]]; []; [InjectInbound IPv6 [96; 2]]] |>).
Proof.
  apply (Write_injects 1 [[0; 69; 1]; [0]; [0; 96; 2]] [[0; 16]; [0; 69]]).
  - repeat apply List.Forall_cons; try apply List.Forall_nil; simpl; lia.
  - by repeat constructor.
  - done.
Defined.

(** Closing the device while a packet of the stack waits to be read panics. *)
Example close_panics : (t ← WriteNotify (Some [69]) smallTun; Close t) = None.
Proof. done. Qed.

(** An IPv4 address in the form of 16 bytes, as [net.ParseIP] gives it, is dialled
    as one of IPv6. *)
Example mapped_is_dialled_as_IPv6 : DialTCP (Some (zeros 10 ++ [255; 255; 1; 2; 3; 4], 80))
  = GoDialTCP (mkFull 1 (zeros 10 ++ [255; 255; 1; 2; 3; 4]) 80) IPv6.
Proof. done. Qed.

(** The first read after a deadline takes it away: the next one waits. *)
Example deadline_works_once : exists pc, ReadFrom 10 None true (SetReadDeadline 5 (mkPing noAddr noAddr Stopped false))
    = Some ((0, None, Some ErrDeadlineExceeded), pc) /\ ReadFrom 20 None true pc = None.
Proof. eexists. by split. Qed.

(** ** Deadlines *)

(** A dial's deadline: not after the whole one, its share of the time left or more,
    and at least two seconds if there are as many. *)
Definition share (now d n t : Z) : Prop :=
  now < t <= d /\ now + (d - now) / n <= t /\ (now + 2 * second <= t \/ t = d).

Lemma partialDeadline_share now d n : now < d -> d - now < 2 ^ 63 -> 0 < n ->
  exists t, partialDeadline now (Some d) n = Some (inl (Some t)) /\ share now d n t.
Proof.
  intros Hd Hb Hn. unfold partialDeadline, share. rewrite sat64_small by lia.
  destruct (Z.leb_spec (d - now) 0); [lia|]. destruct (Z.eqb_spec n 0); [lia|]. rewrite Z.quot_div_nonneg by lia.
  assert (0 <= (d - now) / n <= d - now) as Hq.
  { split; [apply Z.div_pos; lia|]. apply Z.div_le_upper_bound; nia. }
  eexists. split; [done|]. unfold second. zbool; lia.
Qed.

(** The time given to one of the addresses that are left ends after now and
    not after the deadline; it is at least that address's share of what is left,
    and at least two seconds unless the deadline comes sooner.  It fails exactly
    when no time is left, and a context without a deadline gives none. *)
Theorem partialDeadline_fair now deadline n : 0 < n ->
  match deadline with
  | None => partialDeadline now deadline n = Some (inl None)
  | Some d =>
      if d <=? now then partialDeadline now deadline n = Some (inr errTimeout)
      else d - now < 2 ^ 63 -> exists t, partialDeadline now deadline n = Some (inl (Some t)) /\ share now d n t
  end.
Proof.
  intros Hn. destruct deadline as [d|]; [|done]. destruct (Z.leb_spec d now).
  - unfold partialDeadline, sat64. by destruct (Z.leb_spec (Z.max (- 2 ^ 63) (Z.min (2 ^ 63 - 1) (d - now))) 0); [|lia].
  - intros Hb. by apply partialDeadline_share.
Qed.

Lemma partialDeadline_fair_witness : 0 < 3 /\
  exists t, partialDeadline 100 (Some 9000000100) 3 = Some (inl (Some t)) /\ share 100 9000000100 3 t.
Proof. split; [lia|]. apply (partialDeadline_fair 100 (Some 9000000100) 3); lia. Defined.

(** ** Dialling *)

(** The addresses that a network of a version accepts, in the order of the lookup. *)
Definition accepts4 (v : bytes) : bool := match v with [] => true | c :: _ => c =? 52 end.
Definition accepts6 (v : bytes) : bool := match v with [] => true | c :: _ => negb (c =? 52) end.
Definition accepted (v : bytes) (port : Z) (ips : list Addr) : list (Addr * Z) :=
  omap (fun ip => if (Is4 ip && accepts4 v) || (Is6 ip && accepts6 v) then Some (ip, port) else None) ips.

(** The deadline of a dial made at [now] with [n] addresses left. *)
Definition dialDeadline (ctx : option gotime) (now n : Z) (t : option gotime) : Prop :=
  match ctx with
  | Some (Some d) => exists u, t = Some (Some u) /\ share now d n u
  | _ => t = ctx
  end.

(** The context lets the first [n] addresses be dialled. *)
Definition timely (ctx : context) (clock : nat -> Z) (n : nat) : Prop :=
  forall j, (j < n)%nat -> cx_err ctx j = None /\
    match cx_deadline ctx with Some (Some d) => clock j < d /\ d - clock j < 2 ^ 63 | _ => True end.

(** One dial in time. *)
Lemma dialLoop_step ctx clock answer p i addr rest firstErr : cx_err ctx i = None ->
  match cx_deadline ctx with Some (Some d) => clock i < d /\ d - clock i < 2 ^ 63 | _ => True end ->
  exists t, dialDeadline (cx_deadline ctx) (clock i) (zlen (addr :: rest)) t /\
    dialLoop ctx clock answer p i (addr :: rest) firstErr =
      match answer i with
      | inl c => Some (inl c, [mkDialled p addr t])
      | inr e => '(r, l) ← dialLoop ctx clock answer p (S i) rest (match firstErr with None => Some (Raw e) | _ => firstErr end);
          Some (r, mkDialled p addr t :: l)
      end.
Proof.
  intros He Ht. cbn [dialLoop]. rewrite He. unfold dialDeadline. destruct (cx_deadline ctx) as [[d|]|].
  - destruct (partialDeadline_share (clock i) d (zlen (addr :: rest))) as (t & -> & Hs); [lia|lia|simpl; lia|].
    cbn [mbind option_bind WithDeadline]. pose proof Hs as [Hr _]. exists (Some (Some t)). split; [by exists t|].
    destruct (Z.ltb_spec t d); [by rewrite (proj2 (Z.ltb_ge d t)) by lia|].
    by replace d with t by lia.
  - exists (Some None). by split.
  - exists None. by split.
Qed.

(** The first [k] addresses do not answer, and the next one does. *)
Lemma dialLoop_connects ctx clock answer p c : forall k i addrs a firstErr, addrs !! k = Some a ->
  (forall j, (j <= k)%nat -> cx_err ctx (i + j) = None /\
    match cx_deadline ctx with Some (Some d) => clock (i + j)%nat < d /\ d - clock (i + j)%nat < 2 ^ 63 | _ => True end) ->
  (forall j, (j < k)%nat -> exists e, answer (i + j)%nat = inr e) -> answer (i + k)%nat = inl c ->
  exists l, dialLoop ctx clock answer p i addrs firstErr = Some (inl c, l)
    /\ dl_addr <$> l = take (S k) addrs /\ Forall (fun dl => dl_proto dl = p) l
    /\ forall j dl, l !! j = Some dl ->
         dialDeadline (cx_deadline ctx) (clock (i + j)%nat) (zlen addrs - Z.of_nat j) (dl_deadline dl).
Proof.
  induction k as [|k IH]; intros i [|addr addrs] a firstErr Hk Ht He Hc; try done.
  all: destruct (dialLoop_step ctx clock answer p i addr addrs firstErr) as (t & Hd & ->);
    [by rewrite <- (Nat.add_0_r i); apply (Ht 0%nat); lia|by rewrite <- (Nat.add_0_r i); apply (Ht 0%nat); lia|].
  - rewrite Nat.add_0_r in Hc. rewrite Hc. eexists. split; [done|]. split; [by destruct addrs|]. split; [by repeat constructor|].
    intros [|j] dl Hj; [|done]. injection Hj as <-. by rewrite Nat.add_0_r, Z.sub_0_r.
  - destruct (He 0%nat) as [e He0]; [lia|]. rewrite Nat.add_0_r in He0. rewrite He0.
    destruct (IH (S i) addrs a (match firstErr with None => Some (Raw e) | _ => firstErr end)) as (l & -> & Hl & Hp & Hdl); [done| | | |].
    + intros j Hj. rewrite Nat.add_succ_comm. apply Ht. lia.
    + intros j Hj. rewrite Nat.add_succ_comm. apply He. lia.
    + by rewrite Nat.add_succ_comm.
    + cbn [mbind option_bind]. eexists. split; [done|]. split; [by rewrite fmap_cons, Hl|]. split; [by constructor|].
      intros [|j] dl Hj; [injection Hj as <-; by rewrite Nat.add_0_r, Z.sub_0_r|].
      cbn in Hj. rewrite <- Nat.add_succ_comm. replace (zlen (addr :: addrs) - Z.of_nat (S j)) with (zlen addrs - Z.of_nat j) by (simpl; lia).
      by apply Hdl.
Qed.

(** A name and a port as one text. *)
Lemma SplitHostPort_name host port : hostName host -> 0 <= port ->
  SplitHostPort (host ++ 58 :: Itoa port) = Some (host, Itoa port).
Proof.
  intros [(labels & dot & Hd & Hl & _) _] Hp. pose proof (good_chars host (ex_intro _ labels (ex_intro _ dot Hd))) as Hall.
  destruct (length_dotted _ _ _ Hd) as (Hlen & Hpos & _).
  assert (forall c, c = 58 \/ c = 91 \/ c = 93 -> c ∉ host) as Hfree.
  { intros c Hc Hin. rewrite Forall_forall in Hall. destruct (Hall c Hin) as [Hx|Hx]; [|lia].
    destruct Hc as [->|[-> | ->]]; done. }
  assert (forall c, isDigit c = false -> c ∉ Itoa port) as Hdig.
  { intros c Hc. apply digits_free; [|done]. apply Itoa_spec. lia. }
  assert (forall c, c = 91 \/ c = 93 -> cutAt c (host ++ 58 :: Itoa port) = None) as Hcut.
  { intros c Hc. apply cutAt_none. rewrite not_elem_of_app, not_elem_of_cons. split_and!; [apply Hfree; lia|lia|].
    apply Hdig. destruct Hc as [-> | ->]; done. }
  unfold SplitHostPort. rewrite cutLast_app by (by apply Hdig). cbn [mbind option_bind].
  destruct host as [|c host]; [simpl in Hlen; lia|]. destruct (Z.eqb_spec c 91) as [->|Hc]; [exfalso; apply (Hfree 91); [lia|by left]|].
  rewrite (cutAt_none 58 (c :: host)) by (apply Hfree; lia).
  pose proof (Hcut 91 ltac:(lia)) as E1. pose proof (Hcut 93 ltac:(lia)) as E2. cbn [app] in E1, E2 |- *. rewrite E1, E2.
  destruct c as [|c|c]; try done. do 7 (destruct c as [c|c|]; try done).
Qed.

(** What was printed is read back, and filtered by version. *)
Lemma suitable_printed v port ips : Forall addrOk ips -> 0 <= port < 65536 ->
  suitable (accepts4 v) (accepts6 v) port (addrString <$> ips) = accepted v port ips.
Proof.
  intros Hips Hport. induction Hips as [|ip ips Hip _ IH]; [done|]. rewrite fmap_cons. unfold accepted, suitable, omap in *. cbn [list_omap].
  by rewrite ParseAddr_addrString, IH, u16_small by done.
Qed.

(** C18: dialling a name and a port connects to the first address, in the order of
    the lookup and of a version the network accepts, whose dial succeeds; every
    address before it has been tried, once and in order, and every dial had its
    fair share of the time up to the context's deadline. *)
Theorem dial_connects `{DnsmessageLaws} tnet ctx network p v host port last4 w4 w6 ws ips clock answer k a c :
  protoSplitter network = Some (p, v) -> p <> Ping -> hostName host -> 0 <= port < 65536 ->
  LookupContextHost tnet (cx_deadline ctx) host last4 w4 w6 = Some (inl (addrString <$> ips), ws) -> Forall addrOk ips ->
  accepted v port ips !! k = Some a -> timely ctx clock (S k) ->
  (forall j, (j < k)%nat -> exists e, answer j = inr e) -> answer k = inl c ->
  exists l, DialContext tnet (Some ctx) network (host ++ 58 :: Itoa port) last4 w4 w6 clock answer = Some (inl c, l)
    /\ dl_addr <$> l = take (S k) (accepted v port ips) /\ Forall (fun dl => dl_proto dl = p) l
    /\ forall j dl, l !! j = Some dl ->
         dialDeadline (cx_deadline ctx) (clock j) (zlen (accepted v port ips) - Z.of_nat j) (dl_deadline dl).
Proof.
  intros Hn Hping Hh Hport Hlook Hips Hk Ht He Hc. unfold DialContext. cbn [mbind option_bind]. rewrite Hn.
  rewrite SplitHostPort_name, Atoi_Itoa by (done || lia).
  replace ((port <? 0) || (65535 <? port)) with false by lia.
  destruct (dialLoop_connects ctx clock answer p c k 0 (accepted v port ips) a None Hk) as (l & Hl & Hrest); [|done|done|].
  { intros j Hj. apply Ht. lia. }
  exists l. split; [|done].
  pose proof (suitable_printed v port ips Hips Hport) as Hs. unfold accepts4, accepts6 in Hs.
  destruct p; [| |done]; rewrite Hlook; cbn [mbind option_bind]; rewrite Hs, Hl; by destruct (accepted v port ips).
Qed.

(** The host of the sample network, dialled at its second address. *)
Definition toyClock (i : nat) : Z := 10 * Z.of_nat i.
Definition toyAnswer (i : nat) : Z + err := if (i =? 0)%nat then inr (NetError true true []) else inl 7.
Definition toyCtx : context := mkContext (Some (Some 9000000000)) (fun _ => None).
Definition toyIps : list Addr := [mkAddr [32; 1; 0; 0; 0; 0; 0; 0; 0; 0; 0; 0; 0; 0; 0; 9] []; mkAddr [1; 2; 3; 4] []].

Lemma dial_connects_witness : exists l, DialContext toyNet (Some toyCtx) (of_string "tcp") (toyHost ++ 58 :: Itoa 80) true toy4 toy6
    toyClock toyAnswer = Some (inl 7, l)
  /\ dl_addr <$> l = take 2 (accepted [] 80 toyIps) /\ Forall (fun dl => dl_proto dl = TCP) l
  /\ forall j dl, l !! j = Some dl ->
       dialDeadline (cx_deadline toyCtx) (toyClock j) (zlen (accepted [] 80 toyIps) - Z.of_nat j) (dl_deadline dl).
Proof.
  destruct (LookupContextHost toyNet (cx_deadline toyCtx) toyHost true toy4 toy6) as [[r ws]|] eqn:E; vm_compute in E; [|done].
  injection E as <- <-. eapply (dial_connects toyNet toyCtx (of_string "tcp") TCP [] toyHost 80 true toy4 toy6 _ toyIps toyClock toyAnswer 1).
  - done.
  - done.
  - exact toyHost_ok.
  - lia.
  - by vm_compute.
  - repeat (apply List.Forall_cons; [split; [auto|prove_bytes]|]). apply List.Forall_nil.
  - done.
  - intros j Hj. split; [done|]. unfold toyClock. simpl. lia.
  - intros [|j] Hj; [by eexists|lia].
  - done.
Defined.
