(* ===== verification/WinRing.v ===== *)
(** The UDP bind on Windows, over registered I/O ([conn/bind_windows.go]): rings
    of packets that the kernel fills and empties, and sockets of both families.

    The packets of a ring are memory that is shared with the kernel.  The answers
    of the system calls are arguments; what the kernel has written into the memory
    shows in the packets that an operation is given. *)
From S2P Require Import Prelude Messages NoiseHelpers Text Netip DomainName Resolver Netstack.

(** ** Data *)

Definition packetsPerRing : Z := 1024.
Definition bytesPerPacket : nat := Z.to_nat (2048 - 32).
Definition receiveSpins : nat := 15.

Definition AF_INET : Z := 2.
Definition AF_INET6 : Z := 23.

(** A socket address in 32 bytes: the family and the rest. *)
Record WinRingEndpoint := mkWin { family : Z; e_data : bytes }.

Record ringPacket := mkPacket { p_addr : WinRingEndpoint; p_data : bytes }.
(** [unsafe.Sizeof] of an address and of a packet. *)
Definition sizeofAddr : Z := 32.
Definition sizeofPacket : Z := 2048.

(** [packets] is the memory, [None] before it is allocated and after it is freed. *)
Record ringBuffer := mkRing {
  packets : option (list ringPacket); rb_head : Z; rb_tail : Z; rb_id : bool; rb_iocp : bool; isFull : bool; rb_cq : bool }.
#[export] Instance ringBuffer_settable : Settable ringBuffer := fun rb =>
  mkRing (packets rb) (rb_head rb) (rb_tail rb) (rb_id rb) (rb_iocp rb) (isFull rb) (rb_cq rb).
Definition zeroRing : ringBuffer := mkRing None 0 0 false false false false.

Record afWinRingBind := mkAf { af_sock : bool; rx : ringBuffer; tx : ringBuffer; blackhole : bool }.
#[export] Instance afWinRingBind_settable : Settable afWinRingBind := fun b => mkAf (af_sock b) (rx b) (tx b) (blackhole b).
Definition zeroAf : afWinRingBind := mkAf false zeroRing zeroRing false.

(** [isOpen] is 0, 1, or 2 while it closes. *)
Record WinRingBind := mkWinBind { wv4 : afWinRingBind; wv6 : afWinRingBind; isOpen : Z }.
#[export] Instance WinRingBind_settable : Settable WinRingBind := fun b => mkWinBind (wv4 b) (wv6 b) (isOpen b).
Definition NewWinRingBind : WinRingBind := mkWinBind zeroAf zeroAf 0.

(** Errors: of the file, of package net and io, and those of the system by number. *)
Inductive winError := ErrClosed | ErrNoProgress | ErrShortBuffer | WinAlreadyOpen | ErrWrongEndpointType | Errno (n : Z).
Definition WSAEMSGSIZE : Z := 10040.

(** ** The ring *)

(** The slot of the next packet; [None] is the panic that the ring is full. *)
Definition Push (rb : ringBuffer) : option (nat * ringBuffer) :=
  if isFull rb then None
  else
    let slot := Z.to_nat (rb_tail rb mod packetsPerRing) in
    let rb := rb <| rb_tail := u32 (rb_tail rb + 1) |> in
    Some (slot, if rb_tail rb mod packetsPerRing =? rb_head rb mod packetsPerRing then rb <| isFull := true |> else rb).

Definition Return (count : Z) (rb : ringBuffer) : ringBuffer :=
  if (rb_head rb mod packetsPerRing =? rb_tail rb mod packetsPerRing) && negb (isFull rb) then rb
  else rb <| rb_head := u32 (rb_head rb + count) |> <| isFull := false |>.

(** A packet's data and address as parts of the ring's memory: offset and length. *)
Record Buffer := mkBuffer { b_Offset : Z; b_Length : Z }.
Definition addressBuffer (slot : nat) : Buffer := mkBuffer (Z.of_nat slot * sizeofPacket) sizeofAddr.
Definition dataBuffer (slot : nat) (length : Z) : Buffer := mkBuffer (Z.of_nat slot * sizeofPacket + sizeofAddr) length.

(** A request to the kernel: the slot is the context of a receive. *)
Record request := mkRequest { rq_slot : nat; rq_data : Buffer; rq_addr : Buffer }.

(** ** Opening and closing *)

Definition zeroPacket : ringPacket := mkPacket (mkWin 0 (replicate 30 0)) (replicate bytesPerPacket 0).

(** The system calls of an [Open] are numbered; [refuse] gives their errors. *)
Definition ringOpen (refuse : nat -> option winError) (i : nat) (ring : ringBuffer) : ringBuffer * option winError :=
  match refuse i with
  | Some e => (ring, Some e)
  | None =>
      let ring := ring <| packets := Some (replicate (Z.to_nat packetsPerRing) zeroPacket) |> in
      match refuse (1 + i)%nat with
      | Some e => (ring, Some e)
      | None =>
          let ring := ring <| rb_id := true |> in
          match refuse (2 + i)%nat with
          | Some e => (ring, Some e)
          | None =>
              let ring := ring <| rb_iocp := true |> in
              match refuse (3 + i)%nat with
              | Some e => (ring, Some e)
              | None => (ring <| rb_cq := true |>, None)
              end
          end
      end
  end.

(** [CloseAndZero] of a ring, of a family and of the bind: what they leave. *)
Definition ringCloseAndZero (ring : ringBuffer) : ringBuffer :=
  ring <| rb_cq := false |> <| rb_iocp := false |> <| rb_id := false |> <| packets := None |>
       <| rb_head := 0 |> <| rb_tail := 0 |> <| isFull := false |>.
Definition afCloseAndZero (b : afWinRingBind) : afWinRingBind :=
  mkAf false (ringCloseAndZero (rx b)) (ringCloseAndZero (tx b)) false.
Definition closeAndZero (b : WinRingBind) : WinRingBind :=
  mkWinBind (afCloseAndZero (wv4 b)) (afCloseAndZero (wv6 b)) 0.

(** The socket, both rings, the request queue, the address.  [bound] is the port
    of the socket for the one asked for. *)
Definition afOpen (refuse : nat -> option winError) (bound : Z -> Z) (port : Z) (b : afWinRingBind)
    : afWinRingBind * (Z + winError) :=
  match refuse 0%nat with
  | Some e => (b, inr e)
  | None =>
      let b := b <| af_sock := true |> in
      let '(r, e) := ringOpen refuse 1 (rx b) in
      let b := b <| rx := r |> in
      match e with
      | Some e => (b, inr e)
      | None =>
          let '(t, e) := ringOpen refuse 5 (tx b) in
          let b := b <| tx := t |> in
          match e, refuse 9%nat, refuse 10%nat, refuse 11%nat with
          | Some e, _, _, _ | None, Some e, _, _ | None, None, Some e, _ | None, None, None, Some e => (b, inr e)
          | None, None, None, None => (b, inl (bound port))
          end
      end
  end.

(** A slot for the kernel to receive into; [answer] is what [ReceiveEx] says. *)
Definition InsertReceiveRequest (answer : option winError) (b : afWinRingBind)
    : option (afWinRingBind * request * option winError) :=
  '(slot, r) ← Push (rx b);
  Some (b <| rx := r |>, mkRequest slot (dataBuffer slot (Z.of_nat bytesPerPacket)) (addressBuffer slot), answer).

(** The loop of [Open] over both rings: [n] turns are left, [i] are done. *)
Fixpoint insertLoop (answer : bool -> nat -> option winError) (n i : nat) (b : WinRingBind)
    : option (WinRingBind * option winError) :=
  match n with
  | O => Some (b, None)
  | S n =>
      '(v4, _, e) ← InsertReceiveRequest (answer false i) (wv4 b);
      let b := b <| wv4 := v4 |> in
      match e with
      | Some e => Some (b, Some e)
      | None =>
          '(v6, _, e) ← InsertReceiveRequest (answer true i) (wv6 b);
          let b := b <| wv6 := v6 |> in
          match e with
          | Some e => Some (b, Some e)
          | None => insertLoop answer n (S i) b
          end
      end
  end.

(** [refuse], [bound] and [answer] are told the family.  Every error closes the
    bind, that it is open already among them. *)
Definition WinOpen (refuse : bool -> nat -> option winError) (bound : bool -> Z -> Z) (answer : bool -> nat -> option winError)
    (port : Z) (b : WinRingBind) : option (WinRingBind * (Z + winError)) :=
  if negb (isOpen b =? 0) then Some (closeAndZero b, inr WinAlreadyOpen)
  else
    let '(v4, r) := afOpen (refuse false) (bound false) port (wv4 b) in
    let b := b <| wv4 := v4 |> in
    match r with
    | inr e => Some (closeAndZero b, inr e)
    | inl port4 =>
        let '(v6, r) := afOpen (refuse true) (bound true) port4 (wv6 b) in
        let b := b <| wv6 := v6 |> in
        match r with
        | inr e => Some (closeAndZero b, inr e)
        | inl port6 =>
            '(b, e) ← insertLoop answer (Z.to_nat packetsPerRing) 0 b;
            match e with
            | Some e => Some (closeAndZero b, inr e)
            | None => Some (b <| isOpen := 1 |>, inl (u16 port6))
            end
        end
    end.

(** [Close]: the bind while those who wait in it are woken, and after. *)
Definition WinClose (b : WinRingBind) : option WinRingBind * WinRingBind :=
  if negb (isOpen b =? 1) then (None, b) else (Some (b <| isOpen := 2 |>), closeAndZero b).

(** ** Receiving *)

(** A completion: its status, how many bytes, and the slot. *)
Record Result := mkResult { rs_Status : Z; rs_Bytes : nat; rs_slot : nat }.

(** What a turn from [retry] on meets: the completions that spinning, one call
    after another, and waiting find, the errors of [Notify] and the wait, whether
    the bind is open at each look, and the answer of [ReceiveEx]. *)
Record turn := mkTurn {
  t_spin : nat -> option Result; t_notify : option winError; t_wait : option winError; t_waited : option Result;
  t_open : nat -> Z; t_insert : option winError }.

(** The spinning: [n] tries are left, [i] are done; the error is that the bind is closed. *)
Fixpoint spin (t : turn) (n i : nat) : option Result + winError :=
  match n with
  | O => inl None
  | S n =>
      if (0 <? i)%nat && negb (t_open t i =? 1) then inr ErrClosed
      else match t_spin t i with Some r => inl (Some r) | None => spin t n (S i) end
  end.

Definition nextCompletion (t : turn) : Result + winError :=
  match spin t receiveSpins 0 with
  | inr e => inr e
  | inl (Some r) => inl r
  | inl None =>
      match t_notify t, t_wait t with
      | Some e, _ => inr e
      | None, Some e => inr e
      | None, None =>
          if negb (t_open t receiveSpins =? 1) then inr ErrClosed
          else match t_waited t with Some r => inl r | None => inr ErrNoProgress end
      end
  end.

(** [copy(buf, packet.data[:n])], what is copied; a length beyond the packet panics. *)
Definition copyOut (mem : list ringPacket) (r : Result) (room : nat) : option (bytes * WinRingEndpoint) :=
  p ← mem !! rs_slot r;
  if (length (p_data p) <? rs_Bytes r)%nat then None else Some (take room (take (rs_Bytes r) (p_data p)), p_addr p).

(** The turns of [Receive] after its first look at [isOpen].  [mem] is the memory
    when the packet is copied, after a request for its slot has been made; [None]
    is a panic, or turns that have run out. *)
Fixpoint receiveLoop (turns : list turn) (mem : list ringPacket) (room : nat) (b : afWinRingBind)
    : option (afWinRingBind * list request * ((bytes * WinRingEndpoint) + winError)) :=
  match turns with
  | [] => None
  | t :: turns =>
      match nextCompletion t with
      | inr e => Some (b, [], inr e)
      | inl r =>
          '(b, rq, e) ← InsertReceiveRequest (t_insert t) (b <| rx ::= Return 1 |>);
          match e with
          | Some e => Some (b, [rq], inr e)
          | None =>
              if rs_Status r =? WSAEMSGSIZE then
                if negb (t_open t (S receiveSpins) =? 1) then Some (b, [rq], inr ErrClosed)
                else '(b, rqs, res) ← receiveLoop turns mem room b; Some (b, rq :: rqs, res)
              else if negb (rs_Status r =? 0) then Some (b, [rq], inr (Errno (rs_Status r)))
              else res ← copyOut mem r room; Some (b, [rq], inl res)
          end
      end
  end.

Definition Receive (openNow : Z) (turns : list turn) (mem : list ringPacket) (room : nat) (b : afWinRingBind)
    : option (afWinRingBind * list request * ((bytes * WinRingEndpoint) + winError)) :=
  if negb (openNow =? 1) then Some (b, [], inr ErrClosed) else receiveLoop turns mem room b.

(** ** Sending *)

(** What one send meets: the completions that were there, the errors of [Notify]
    and the wait, the completions after it, whether the bind is open at either
    look, and the answer of [SendEx]. *)
Record sendAnswers := mkSendAnswers {
  s_count : nat; s_notify : option winError; s_wait : option winError; s_waited : nat;
  s_open1 : Z; s_open2 : Z; s_sent : option winError }.

(** The slots that have come back, or an error. *)
Definition completions (a : sendAnswers) (full : bool) : nat + winError :=
  if (s_count a =? 0)%nat && full then
    match s_notify a, s_wait a with
    | Some e, _ => inr e
    | None, Some e => inr e
    | None, None =>
        if negb (s_open2 a =? 1) then inr ErrClosed
        else if (s_waited a =? 0)%nat then inr ErrNoProgress else inl (s_waited a)
    end
  else inl (s_count a).

(** The ring afterwards, the request, and what is returned. *)
Definition afSend (a : sendAnswers) (buf : bytes) (nend : WinRingEndpoint) (b : afWinRingBind)
    : option (afWinRingBind * option request * option winError) :=
  if negb (s_open1 a =? 1) then Some (b, None, Some ErrClosed)
  else if (bytesPerPacket <? length buf)%nat then Some (b, None, Some ErrShortBuffer)
  else
    match completions a (isFull (tx b)) with
    | inr e => Some (b, None, Some e)
    | inl count =>
        let r := if (0 <? count)%nat then Return (Z.of_nat count) (tx b) else tx b in
        '(slot, r) ← Push r;
        mem ← packets r;
        packet ← mem !! slot;
        let packet := mkPacket nend (copy_at (p_data packet) 0 buf) in
        Some (b <| tx := r <| packets := Some (<[slot := packet]> mem) |> |>,
              Some (mkRequest slot (dataBuffer slot (zlen buf)) (addressBuffer slot)), s_sent a)
    end.

(** [Send]: one answer for each buffer that is sent; [None] for the endpoint is one
    of another bind. *)
Fixpoint winSendLoop (answers : list sendAnswers) (bufs : list bytes) (nend : WinRingEndpoint) (b : WinRingBind)
    : option (WinRingBind * option winError) :=
  match bufs with
  | [] => Some (b, None)
  | buf :: bufs =>
      let one (v : afWinRingBind) (set : afWinRingBind -> WinRingBind) :=
        if blackhole v then winSendLoop answers bufs nend b
        else
          match answers with
          | [] => None
          | a :: answers =>
              '(v, _, e) ← afSend a buf nend v;
              match e with
              | Some e => Some (set v, Some e)
              | None => winSendLoop answers bufs nend (set v)
              end
          end in
      if family nend =? AF_INET then one (wv4 b) (fun v => b <| wv4 := v |>)
      else if family nend =? AF_INET6 then one (wv6 b) (fun v => b <| wv6 := v |>)
      else winSendLoop answers bufs nend b
  end.
Definition WinSend (answers : list sendAnswers) (bufs : list bytes) (endpoint : option WinRingEndpoint) (b : WinRingBind)
    : option (WinRingBind * option winError) :=
  match endpoint with
  | None => Some (b, Some ErrWrongEndpointType)
  | Some nend => winSendLoop answers bufs nend b
  end.

(** [BindSocketToInterface4] and [6]: [refused] is the answer of the system. *)
Definition bindToInterface (v6 : bool) (refused : option winError) (hole : bool) (b : WinRingBind) : WinRingBind * option winError :=
  if negb (isOpen b =? 1) then (b, Some ErrClosed)
  else
    match refused with
    | Some e => (b, Some e)
    | None => (if v6 then b <| wv6 ::= fun v => v <| blackhole := hole |> |>
               else b <| wv4 ::= fun v => v <| blackhole := hole |> |>, None)
    end.

(** The index of the interface as [SetsockoptInt] is given it: in network order for IPv4. *)
Definition interfaceOption4 (interfaceIndex : Z) : Z := le_dec (be_enc 4 interfaceIndex).
Definition interfaceOption6 (interfaceIndex : Z) : Z := interfaceIndex.

(** ** Endpoints *)

(** [GetAddrInfoW] of a host and a port: the address as the system writes it. *)
Definition WinParseEndpoint (GetAddrInfoW : bytes -> bytes -> option (Z * bytes)) (s : bytes) : option WinRingEndpoint :=
  '(host, port) ← SplitHostPort s;
  if bool_decide (0 ∈ host) || bool_decide (0 ∈ port) then None
  else
    '(fam, addr) ← GetAddrInfoW host port;
    if (negb (fam =? AF_INET) && negb (fam =? AF_INET6)) || (sizeofAddr <? zlen addr) then None
    else
      let dst := copy_at (replicate (Z.to_nat sizeofAddr) 0) 0 addr in
      Some (mkWin (le_dec (take 2 dst)) (drop 2 dst)).

Definition WinDstIP (e : WinRingEndpoint) : Addr :=
  if family e =? AF_INET then mkAddr (slice 2 6 (e_data e)) []
  else if family e =? AF_INET6 then mkAddr (slice 6 22 (e_data e)) [] else noAddr.

Definition WinDstToBytes (e : WinRingEndpoint) : bytes :=
  let port := [nth 1 (e_data e) 0; nth 0 (e_data e) 0] in
  if family e =? AF_INET then slice 2 6 (e_data e) ++ port
  else if family e =? AF_INET6 then slice 6 22 (e_data e) ++ port else [].

Definition WinDstToString (e : WinRingEndpoint) : bytes :=
  let port := be_dec (take 2 (e_data e)) in
  if family e =? AF_INET then addrPortString (mkAddr (slice 2 6 (e_data e)) []) port
  else if family e =? AF_INET6 then
    let scope := le_dec (slice 22 26 (e_data e)) in
    addrPortString (mkAddr (slice 6 22 (e_data e)) (if 0 <? scope then Itoa scope else [])) port
  else [].
