(* ===== verification/WinRingSpec.v ===== *)
(** The rings of the bind on Windows are queues of slots: what is in flight is
    never written, and the datagrams come out in the order and as they came in. *)
From S2P Require Import Prelude Messages NoiseHelpers Text Netip DomainName Resolver Netstack WinRing.

(** ** The window of a ring *)

(** [n] slots from the head on are out. *)
Definition ring_ok (r : ringBuffer) (n : nat) : Prop :=
  0 <= rb_head r < 2 ^ 32 /\ rb_tail r = u32 (rb_head r + Z.of_nat n) /\ (n <= 1024)%nat /\ isFull r = bool_decide (n = 1024%nat).
Definition slotAt (r : ringBuffer) (i : nat) : nat := Z.to_nat ((rb_head r + Z.of_nat i) mod packetsPerRing).
Definition window (r : ringBuffer) (n : nat) : list nat := slotAt r <$> seq 0 n.

Lemma u32_mod x : u32 x mod packetsPerRing = x mod packetsPerRing.
Proof. unfold u32, uwrap, packetsPerRing. rewrite (Z.mod_eq x (2 ^ 32)) by lia. 
  replace (x - 2 ^ 32 * (x / 2 ^ 32)) with (x + (- (4194304 * (x / 2 ^ 32))) * 1024) by lia. apply Z_mod_plus_full. Qed.

Lemma slotAt_lt r i : (slotAt r i < 1024)%nat.
Proof. unfold slotAt, packetsPerRing. pose proof (Z.mod_pos_bound (rb_head r + Z.of_nat i) 1024). lia. Qed.

(** Two slots that are less than a ring apart differ. *)
Lemma mod_apart a d : 0 < d < packetsPerRing -> (a + d) mod packetsPerRing <> a mod packetsPerRing.
Proof. unfold packetsPerRing. intros Hd. pose proof (Z.div_mod a 1024). pose proof (Z.div_mod (a + d) 1024).
  pose proof (Z.mod_pos_bound a 1024). intros E. nia. Qed.

Lemma slotAt_inj r i j : (i < j)%nat -> (j - i < 1024)%nat -> slotAt r i <> slotAt r j.
Proof.
  intros Hij Hd E. apply (mod_apart (rb_head r + Z.of_nat i) (Z.of_nat (j - i))); [unfold packetsPerRing; lia|].
  replace (rb_head r + Z.of_nat i + Z.of_nat (j - i)) with (rb_head r + Z.of_nat j) by lia.
  unfold slotAt in E. pose proof (Z.mod_pos_bound (rb_head r + Z.of_nat i) packetsPerRing eq_refl).
  pose proof (Z.mod_pos_bound (rb_head r + Z.of_nat j) packetsPerRing eq_refl). lia.
Qed.

Lemma window_slot r n s : s ∈ window r n <-> exists i, (i < n)%nat /\ s = slotAt r i.
Proof. unfold window. rewrite list_elem_of_fmap. setoid_rewrite elem_of_seq. firstorder lia. Qed.

Lemma window_fresh r n : (n < 1024)%nat -> slotAt r n ∉ window r n.
Proof. intros Hn (i & Hi & E)%window_slot. apply (slotAt_inj r i n); lia || done. Qed.

Lemma window_succ r n : window r (S n) = window r n ++ [slotAt r n].
Proof. unfold window. by rewrite seq_S, fmap_app. Qed.

Lemma window_NoDup r n : (n <= 1024)%nat -> NoDup (window r n).
Proof.
  induction n as [|n IH]; intros Hn; [constructor|]. rewrite window_succ. apply NoDup_app. split_and!; [apply IH; lia| |apply NoDup_singleton].
  intros s Hs ->%list_elem_of_singleton. by apply (window_fresh r n).
Qed.

Lemma length_window r n : length (window r n) = n.
Proof. unfold window. by rewrite length_fmap, length_seq. Qed.

(** [Push] takes the slot after the window, unless the window is all of the ring. *)
Lemma Push_full r : ring_ok r 1024 -> Push r = None.
Proof. intros (_ & _ & _ & E). unfold Push. by rewrite E. Qed.

Lemma Push_ok r n : ring_ok r n -> (n < 1024)%nat -> exists r', Push r = Some (slotAt r n, r')
  /\ ring_ok r' (S n) /\ packets r' = packets r /\ window r' (S n) = window r n ++ [slotAt r n].
Proof.
  intros (Hh & Ht & Hn & Hf) Hlt. unfold Push. rewrite Hf, bool_decide_eq_false_2 by lia.
  assert (Z.to_nat (rb_tail r mod packetsPerRing) = slotAt r n) as -> by (unfold slotAt; by rewrite Ht, u32_mod).
  assert (u32 (rb_tail r + 1) = u32 (rb_head r + Z.of_nat (S n))) as Et.
  { rewrite Ht. unfold u32, uwrap. rewrite Zplus_mod_idemp_l. f_equal. lia. }
  cbv zeta. cbn -[u32 Z.modulo Z.eqb packetsPerRing]. rewrite Et, u32_mod. eexists. split; [reflexivity|].
  destruct (Z.eqb_spec ((rb_head r + Z.of_nat (S n)) mod packetsPerRing) (rb_head r mod packetsPerRing)) as [E|E];
    cbn; (split; [|split; [done|exact (window_succ r n)]]); unfold ring_ok; cbn; split_and!; try done; try lia.
  - symmetry. apply bool_decide_eq_true_2. destruct (decide (S n = 1024%nat)) as [|Hne]; [done|]. destruct (mod_apart (rb_head r) (Z.of_nat (S n))); [unfold packetsPerRing; lia|done].
  - rewrite Hf, !bool_decide_eq_false_2; [done| |lia]. intros E'. destruct E. unfold packetsPerRing.
    rewrite E'. change (Z.of_nat 1024) with (1 * 1024). apply Z_mod_plus_full.
Qed.

(** [Return] takes the oldest slots out of the window. *)
Lemma Return_ok r n c : ring_ok r n -> (0 < c <= n)%nat ->
  ring_ok (Return (Z.of_nat c) r) (n - c) /\ packets (Return (Z.of_nat c) r) = packets r
  /\ window (Return (Z.of_nat c) r) (n - c) = drop c (window r n).
Proof.
  intros (Hh & Ht & Hn & Hf) Hc. unfold Return.
  assert ((rb_head r mod packetsPerRing =? rb_tail r mod packetsPerRing) && negb (isFull r) = false) as ->.
  { rewrite Ht, u32_mod, Hf. case_bool_decide; [apply andb_false_r|]. rewrite andb_true_r.
    apply Z.eqb_neq. intros E. apply (mod_apart (rb_head r) (Z.of_nat n)); [unfold packetsPerRing; lia|done]. }
  split_and!; [|done|].
  - unfold ring_ok. cbn -[u32 Nat.sub]. split; [apply u32_range|]. split_and!; [|lia|rewrite bool_decide_eq_false_2; [done|lia]].
    rewrite Ht. unfold u32, uwrap. rewrite Zplus_mod_idemp_l. f_equal. lia.
  - unfold window. rewrite <-fmap_drop, drop_seq. apply list_eq. intros i. rewrite !list_lookup_fmap.
    destruct (decide (i < n - c)%nat) as [Hi|Hi].
    + rewrite !lookup_seq_lt by lia. cbn. f_equal. unfold slotAt. cbn. f_equal.
      unfold u32. rewrite <-Zplus_mod_idemp_l. fold (u32 (rb_head r + Z.of_nat c)). rewrite u32_mod, Zplus_mod_idemp_l. f_equal. lia.
    + rewrite !lookup_seq_ge by lia. done.
Qed.

(** ** What is in flight *)

(** A slot with the endpoint and the bytes that have been put there. *)
Abbreviation inFlight := (nat * (WinRingEndpoint * bytes))%type.
Definition holds (mem : list ringPacket) (f : inFlight) : Prop :=
  exists p, mem !! f.1 = Some p /\ p_addr p = f.2.1 /\ take (length f.2.2) (p_data p) = f.2.2.
Definition allocated (r : ringBuffer) (mem : list ringPacket) : Prop :=
  packets r = Some mem /\ length mem = 1024%nat /\ Forall (fun p => length (p_data p) = bytesPerPacket) mem.

(** Slots of requests that were refused are in the window and not in flight. *)
Definition tx_ok (r : ringBuffer) (flight : list inFlight) : Prop :=
  exists n mem, ring_ok r n /\ allocated r mem /\ flight.*1 `sublist_of` window r n /\ Forall (holds mem) flight.

Lemma sublist_drop_le {A} (l : list A) c d : (c <= d)%nat -> drop d l `sublist_of` drop c l.
Proof. intros H. replace d with (c + (d - c))%nat by lia. rewrite <-drop_drop. apply sublist_drop. Qed.

Lemma sublist_drop_both {A} (l k : list A) : l `sublist_of` k -> forall c, drop c l `sublist_of` drop c k.
Proof.
  induction 1 as [|x l k H IH|x l k H IH]; intros [|c]; cbn; try done.
  - by constructor.
  - by constructor.
  - etrans; [apply (sublist_drop_le l c (S c)); lia|apply IH].
Qed.

(** The kernel has sent [c] of the oldest requests by the time of a send, no more
    than are in flight; it sends them in their order. *)
Definition honestSend (a : sendAnswers) (flight : list inFlight) : Prop :=
  (s_count a <= length flight)%nat /\ (s_waited a <= length flight)%nat.
Definition answered (a : sendAnswers) (full : bool) : nat := if (s_count a =? 0)%nat && full then s_waited a else s_count a.
Definition leftInFlight (a : sendAnswers) (b : afWinRingBind) (flight : list inFlight) : list inFlight :=
  drop (answered a (isFull (tx b))) flight.
Definition flightAfter (a : sendAnswers) (buf : bytes) (nend : WinRingEndpoint) (b : afWinRingBind)
    (rq : option request) (e : option winError) (flight : list inFlight) : list inFlight :=
  match rq, e with
  | None, _ => flight
  | Some rq, Some _ => leftInFlight a b flight
  | Some rq, None => leftInFlight a b flight ++ [(rq_slot rq, (nend, buf))]
  end.

(** The sends of a bind that has been opened. *)
Inductive txReach : afWinRingBind -> list inFlight -> Prop :=
  | tx_opened refuse bound port b0 p b : afOpen refuse bound port zeroAf = (b0, inl p) -> tx b = tx b0 -> txReach b []
  | tx_sends b flight a buf nend b' rq e : txReach b flight -> honestSend a flight ->
      afSend a buf nend b = Some (b', rq, e) -> txReach b' (flightAfter a buf nend b rq e flight).

(** A send waits for a slot only when the ring is full. *)
Definition finds (a : sendAnswers) (full : bool) : Prop :=
  s_open1 a = 1 /\ (s_count a = 0%nat -> full = true ->
    s_notify a = None /\ s_wait a = None /\ s_open2 a = 1 /\ (0 < s_waited a)%nat).

Lemma completions_ok a b flight count : honestSend a flight -> completions a (isFull (tx b)) = inl count ->
  count = answered a (isFull (tx b)) /\ (count <= length flight)%nat /\ (isFull (tx b) = true -> (0 < count)%nat).
Proof.
  unfold completions, answered. intros [H1 H2]. destruct (Nat.eqb_spec (s_count a) 0), (isFull (tx b)); cbn; try (intros [= <-]; split_and!; done || lia).
  destruct (s_notify a), (s_wait a); try done. destruct (s_open2 a =? 1); [cbn|done]. destruct (Nat.eqb_spec (s_waited a) 0); [done|].
  intros [= <-]. split_and!; done || lia.
Qed.

Lemma completions_finds a full : finds a full -> exists count, completions a full = inl count.
Proof.
  intros [_ H]. unfold completions. destruct (Nat.eqb_spec (s_count a) 0), full; cbn; try by eexists.
  destruct H as (-> & -> & -> & Hw); try done. cbn. destruct (Nat.eqb_spec (s_waited a) 0); [lia|]. by eexists.
Qed.

(** The ring when its completions have been given back. *)
Lemma Return_flight r (flight : list inFlight) n c : ring_ok r n -> flight.*1 `sublist_of` window r n -> (c <= length flight)%nat ->
  (isFull r = true -> (0 < c)%nat) ->
  let r' := if (0 <? c)%nat then Return (Z.of_nat c) r else r in
  exists n', ring_ok r' n' /\ (n' < 1024)%nat /\ packets r' = packets r /\ (drop c flight).*1 `sublist_of` window r' n'.
Proof.
  intros Hr Hs Hc Hf. cbv zeta. pose proof (sublist_length _ _ Hs) as Hl. rewrite length_fmap, length_window in Hl.
  pose proof Hr as (_ & _ & Hn & Hfull). rewrite fmap_drop. destruct (Nat.ltb_spec 0 c).
  - destruct (Return_ok r n c) as (Hr' & Hp & Hw); [done|lia|]. exists (n - c)%nat. split_and!; [done|lia|done|]. 
    rewrite Hw. by apply sublist_drop_both.
  - assert (c = 0%nat) as -> by lia. exists n. split_and!; [done| |done|by rewrite drop_0].
    destruct (decide (n = 1024%nat)) as [->|]; [|lia]. rewrite Hfull in Hf. specialize (Hf eq_refl). lia.
Qed.

Lemma length_written (p : ringPacket) buf : length (copy_at (p_data p) 0 buf) = length (p_data p).
Proof. apply length_copy. Qed.

(** What is held in other slots stays. *)
Lemma holds_insert mem s q f : f.1 <> s -> holds mem f -> holds (<[s := q]> mem) f.
Proof. intros Hne (p & Hp & H). exists p. by rewrite list_lookup_insert_ne. Qed.

Lemma take_copy_at (d s : bytes) : (length s <= length d)%nat -> take (length s) (copy_at d 0 s) = s.
Proof. intros H. rewrite copy_at_fit by done. rewrite take_0. cbn [app]. apply take_app_length. Qed.

Lemma fresh_sub (fl : list inFlight) w s : fl.*1 `sublist_of` w -> s ∉ w -> Forall (fun f => f.1 <> s) fl.
Proof.
  intros Hs Hn. apply Forall_forall. intros f Hf E. apply Hn. rewrite <-E.
  eapply elem_of_submseteq, sublist_submseteq; [|done]. by apply list_elem_of_fmap_2.
Qed.

(** A send that gets as far as a request. *)
Lemma send_steps a buf nend b flight count : tx_ok (tx b) flight -> honestSend a flight ->
  completions a (isFull (tx b)) = inl count -> s_open1 a = 1 -> (length buf <= bytesPerPacket)%nat ->
  exists b' slot mem, afSend a buf nend b
    = Some (b', Some (mkRequest slot (dataBuffer slot (zlen buf)) (addressBuffer slot)), s_sent a)
  /\ packets (tx b') = Some mem /\ Forall (fun f => f.1 <> slot) (leftInFlight a b flight)
  /\ Forall (holds mem) (leftInFlight a b flight ++ [(slot, (nend, buf))])
  /\ tx_ok (tx b') (leftInFlight a b flight) /\ tx_ok (tx b') (leftInFlight a b flight ++ [(slot, (nend, buf))]).
Proof.
  intros (n & mem & Hr & (Hp & Hl & Hd) & Hs & Hh) Ha Hc Ho Hb.
  destruct (completions_ok _ _ _ _ Ha Hc) as (-> & Hle & Hfull). unfold afSend, leftInFlight. rewrite Ho, Hc.
  destruct (Return_flight _ _ _ _ Hr Hs Hle Hfull) as (n' & Hr' & Hn' & Hp' & Hs').
  set (c := answered a (isFull (tx b))) in *. set (r := if (0 <? c)%nat then _ else _) in *.
  destruct (Push_ok r n' Hr' Hn') as (r2 & -> & Hr2 & Hp2 & Hw2). cbn [negb Z.eqb Pos.eqb mbind option_bind].
  destruct (Nat.ltb_spec bytesPerPacket (length buf)); [lia|]. cbn [fst snd]. set (s := slotAt r n') in *.
  rewrite Hp2, Hp', Hp. cbn [mbind option_bind].
  destruct (lookup_lt_is_Some_2 mem s) as [p Es]; [rewrite Hl; apply slotAt_lt|]. rewrite Es. cbn [mbind option_bind].
  set (mem' := <[s := _]> mem). pose proof (fresh_sub _ _ _ Hs' (window_fresh r n' Hn')) as Hfresh.
  pose proof (proj1 (Forall_lookup _ _) Hd s p Es) as Hpl. cbn in Hpl.
  assert (allocated (r2 <| packets := Some mem' |>) mem') as Hal.
  { split_and!; [done|by unfold mem'; rewrite length_insert|]. apply Forall_insert; [done|]. cbn. by rewrite length_written. }
  assert (Forall (holds mem') (drop c flight)) as Hold.
  { apply Forall_forall. intros f Hf. apply holds_insert; [by apply (proj1 (Forall_forall _ _) Hfresh)|].
    apply (proj1 (Forall_forall _ _) Hh). eapply elem_of_submseteq; [exact Hf|]. apply sublist_submseteq, sublist_drop. }
  assert (Forall (holds mem') (drop c flight ++ [(s, (nend, buf))])) as Hall.
  { apply Forall_app. split; [done|]. apply Forall_singleton. eexists. split; [apply list_lookup_insert_eq; rewrite Hl; apply slotAt_lt|].
    cbn. split; [done|]. apply take_copy_at. lia. }
  eexists _, s, mem'. split; [reflexivity|]. split_and!; try done.
  - exists (S n'), mem'. split_and!; try done. change (window _ _) with (window r2 (S n')). rewrite Hw2. by apply sublist_inserts_r.
  - exists (S n'), mem'. split_and!; try done. change (window _ _) with (window r2 (S n')). rewrite Hw2, fmap_app. by apply sublist_app.
Qed.

Lemma opened_ring refuse i r r' : ringOpen refuse i r = (r', None) -> ring_ok r 0 ->
  ring_ok r' 0 /\ allocated r' (replicate (Z.to_nat packetsPerRing) zeroPacket).
Proof.
  unfold ringOpen. intros H Hr. repeat (destruct (refuse _); [done|]). injection H as <-. split; [done|].
  split_and!; [done|by rewrite length_replicate|]. apply Forall_replicate. unfold zeroPacket. cbn -[bytesPerPacket]. apply length_replicate.
Qed.

Lemma zeroRing_ok : ring_ok zeroRing 0.
Proof. split; [cbn; lia|]. split_and!; [done|lia|done]. Qed.

Lemma afOpen_rings refuse bound port b p : afOpen refuse bound port zeroAf = (b, inl p) ->
  ring_ok (rx b) 0 /\ allocated (rx b) (replicate (Z.to_nat packetsPerRing) zeroPacket)
  /\ ring_ok (tx b) 0 /\ allocated (tx b) (replicate (Z.to_nat packetsPerRing) zeroPacket) /\ p = bound port.
Proof.
  unfold afOpen. destruct (refuse 0%nat); [done|]. cbn [rx tx set_field].
  destruct (ringOpen refuse 1 _) as [r1 [e1|]] eqn:E1; [done|]. destruct (ringOpen refuse 5 _) as [r2 [e2|]] eqn:E2; [done|].
  destruct (refuse 9%nat), (refuse 10%nat), (refuse 11%nat); try done. intros [= <- <-].
  destruct (opened_ring _ _ _ _ E1 zeroRing_ok), (opened_ring _ _ _ _ E2 zeroRing_ok). by split_and!.
Qed.

(** A send that gets no further. *)
Lemma send_refused a buf nend b b' rq e : afSend a buf nend b = Some (b', rq, e) -> 
  rq = None /\ b' = b \/ exists count, completions a (isFull (tx b)) = inl count /\ s_open1 a = 1 /\ (length buf <= bytesPerPacket)%nat.
Proof.
  unfold afSend. destruct (Z.eqb_spec (s_open1 a) 1); cbn [negb]; [|intros [= <- <- <-]; by left].
  destruct (Nat.ltb_spec bytesPerPacket (length buf)); [intros [= <- <- <-]; by left|].
  destruct (completions a (isFull (tx b))) as [count|e'] eqn:E; [|intros [= <- <- <-]; by left]. intros _. right. by exists count.
Qed.

Lemma txReach_ok b flight : txReach b flight -> tx_ok (tx b) flight.
Proof.
  induction 1 as [refuse bound port b0 p b H ->|b flight a buf nend b' rq e _ IH Ha H].
  - destruct (afOpen_rings _ _ _ _ _ H) as (_ & _ & Hr & Hal & _). eexists 0%nat, _. split_and!; [done|exact Hal|apply sublist_nil_l|constructor].
  - destruct (send_refused _ _ _ _ _ _ _ H) as [[-> ->]|(count & Hc & Ho & Hb)]; [done|].
    destruct (send_steps a buf nend b flight count) as (b2 & slot & mem & E & _ & _ & _ & Hleft & Hall); try done.
    rewrite E in H. injection H as <- <- <-. cbn. by destruct (s_sent a).
Qed.

(** C17: whatever has been sent since the bind was opened, refused requests and a
    ring that has been around among it, a send finds a slot without a panic.  It is
    none of those that the kernel has yet to send: these keep their bytes and
    their endpoints, and the new one has its own. *)
Theorem afSend_keeps_flight a buf nend b flight : txReach b flight -> honestSend a flight -> exists b' rq e,
  afSend a buf nend b = Some (b', rq, e)
  /\ (finds a (isFull (tx b)) -> (length buf <= bytesPerPacket)%nat -> is_Some rq /\ e = s_sent a)
  /\ match rq with
     | None => b' = b
     | Some rq => exists mem, packets (tx b') = Some mem /\ Forall (fun f => f.1 <> rq_slot rq) (leftInFlight a b flight)
         /\ Forall (holds mem) (leftInFlight a b flight ++ [(rq_slot rq, (nend, buf))])
         /\ rq = mkRequest (rq_slot rq) (dataBuffer (rq_slot rq) (zlen buf)) (addressBuffer (rq_slot rq))
     end.
Proof.
  intros Hb%txReach_ok Ha. 
  destruct (decide (s_open1 a = 1)) as [Ho|Ho]; [destruct (decide (length buf <= bytesPerPacket)%nat) as [Hl|Hl];
    [destruct (completions a (isFull (tx b))) as [count|e] eqn:Hc|]|].
  - destruct (send_steps a buf nend b flight count) as (b2 & slot & mem & E & Hm & Hf & Hh & _); try done.
    eexists _, _, _. split; [exact E|]. split; [done|]. by exists mem.
  - eexists b, None, (Some e). split_and!; [|intros [c Hf]%completions_finds; congruence|done].
    unfold afSend. rewrite Ho, Hc. cbn [negb Z.eqb Pos.eqb]. destruct (Nat.ltb_spec bytesPerPacket (length buf)); [lia|done].
  - eexists b, None, _. split_and!; [|done|done]. unfold afSend. rewrite Ho. cbn [negb Z.eqb Pos.eqb]. destruct (Nat.ltb_spec bytesPerPacket (length buf)); [done|lia].
  - eexists b, None, _. split_and!; [|by intros []|done]. unfold afSend. by destruct (Z.eqb_spec (s_open1 a) 1).
Qed.

(** Three packets, the second one refused; the kernel has sent the first. *)
Definition plainSend (count : nat) (sent : option winError) : sendAnswers := mkSendAnswers count None None 0 1 1 sent.
Definition someEndpoint : WinRingEndpoint := mkWin 2 (replicate 30 7).
Definition openedAf : afWinRingBind := (afOpen (fun _ => None) (fun _ => 4000) 0 zeroAf).1.
Definition sentFrom (a : sendAnswers) (buf : bytes) (b : afWinRingBind) : afWinRingBind :=
  match afSend a buf someEndpoint b with Some (b, _, _) => b | None => b end.
Definition threeSent : afWinRingBind :=
  sentFrom (plainSend 1 None) [3] (sentFrom (plainSend 0 (Some (Errno 5))) [2] (sentFrom (plainSend 0 None) [1] openedAf)).

Definition flightFrom (a : sendAnswers) (buf : bytes) (b : afWinRingBind) (flight : list inFlight) : list inFlight :=
  match afSend a buf someEndpoint b with Some (_, rq, e) => flightAfter a buf someEndpoint b rq e flight | None => flight end.
Lemma sentFrom_reach a buf b flight : txReach b flight -> honestSend a flight -> txReach (sentFrom a buf b) (flightFrom a buf b flight).
Proof.
  intros Hb Ha. unfold sentFrom, flightFrom. destruct (afSend a buf someEndpoint b) as [[[b' rq] e]|] eqn:E; [|done]. by eapply tx_sends.
Qed.

Lemma threeSent_reach : txReach threeSent [(2%nat, (someEndpoint, [3]))].
Proof.
  assert (txReach openedAf []) as H0 by (eapply (tx_opened (fun _ => None) (fun _ => 4000) 0); reflexivity).
  pose proof (sentFrom_reach (plainSend 0 None) [1] _ _ H0 ltac:(split; cbn; lia)) as H1.
  change (flightFrom _ _ _ _) with [(0%nat, (someEndpoint, [1]))] in H1.
  pose proof (sentFrom_reach (plainSend 0 (Some (Errno 5))) [2] _ _ H1 ltac:(split; cbn; lia)) as H2.
  change (flightFrom _ _ _ _) with [(0%nat, (someEndpoint, [1]))] in H2.
  exact (sentFrom_reach (plainSend 1 None) [3] _ _ H2 ltac:(split; cbn; lia)).
Qed.

Lemma afSend_keeps_flight_witness : exists b' rq e, afSend (plainSend 0 None) [4] someEndpoint threeSent = Some (b', rq, e)
  /\ (finds (plainSend 0 None) (isFull (tx threeSent)) -> (length [4] <= bytesPerPacket)%nat -> is_Some rq /\ e = s_sent (plainSend 0 None))
  /\ match rq with
     | None => b' = threeSent
     | Some rq => exists mem, packets (tx b') = Some mem
         /\ Forall (fun f => f.1 <> rq_slot rq) (leftInFlight (plainSend 0 None) threeSent [(2%nat, (someEndpoint, [3]))])
         /\ Forall (holds mem) (leftInFlight (plainSend 0 None) threeSent [(2%nat, (someEndpoint, [3]))] ++ [(rq_slot rq, (someEndpoint, [4]))])
         /\ rq = mkRequest (rq_slot rq) (dataBuffer (rq_slot rq) (zlen [4])) (addressBuffer (rq_slot rq))
     end.
Proof.
  apply (afSend_keeps_flight (plainSend 0 None) [4] someEndpoint threeSent [(2%nat, (someEndpoint, [3]))] threeSent_reach).
  split; cbn; lia.
Defined.

(** A request that the kernel refuses keeps its slot.  After as many as there are
    slots the ring is full and nothing is in flight, so that a send waits for a
    completion which never comes. *)
Example refused_requests_fill_the_ring :
  let b := Nat.iter 1024 (sentFrom (plainSend 0 (Some (Errno 5))) [1]) openedAf in
  isFull (tx b) = true /\ completions (plainSend 0 None) (isFull (tx b)) = inr ErrNoProgress.
Proof. vm_compute. by split. Qed.

(** ** What arrives *)

(** A datagram; the requests that the kernel has, and the completions of those that
    it has filled. *)
Abbreviation datagram := (bytes * WinRingEndpoint)%type.
Record rxState := mkRx { x_af : afWinRingBind; x_posted : list nat; x_done : list Result }.
Definition rxMemory (st : rxState) : list ringPacket := default [] (packets (rx (x_af st))).
Definition tooLong (d : datagram) : Prop := (bytesPerPacket < length d.1)%nat.
#[export] Instance tooLong_dec d : Decision (tooLong d).
Proof. unfold tooLong. apply _. Defined.

(** The kernel fills the oldest request, and drops the datagram if it has none. *)
Definition resultOf (d : datagram) (slot : nat) : Result :=
  mkResult (if decide (tooLong d) then WSAEMSGSIZE else 0) (Nat.min (length d.1) bytesPerPacket) slot.
Definition fillPacket (d : datagram) (p : ringPacket) : ringPacket := mkPacket d.2 (copy_at (p_data p) 0 d.1).
Definition kernelPut (st : rxState) (d : datagram) : rxState :=
  match x_posted st with
  | [] => st
  | slot :: posted =>
      let mem := alter (fillPacket d) slot (rxMemory st) in
      mkRx (x_af st <| rx ::= fun r => r <| packets := Some mem |> |>) posted (x_done st ++ [resultOf d slot])
  end.

(** The request that [Open] makes, and the one of a turn of [Receive]. *)
Definition rxPost (st : rxState) : rxState :=
  match InsertReceiveRequest None (x_af st) with
  | Some (b, rq, _) => mkRx b (x_posted st ++ [rq_slot rq]) (x_done st)
  | None => st
  end.
Definition rxTaken (st : rxState) (answer : option winError) : rxState :=
  match InsertReceiveRequest answer (x_af st <| rx ::= Return 1 |>) with
  | Some (b, rq, e) => mkRx b (x_posted st ++ (if e is None then [rq_slot rq] else [])) (tail (x_done st))
  | None => st
  end.

(** The states of a bind that has been opened, with what waits to be received. *)
Inductive rxReach : rxState -> list datagram -> Prop :=
  | rx_opened refuse bound port b p : afOpen refuse bound port zeroAf = (b, inl p) ->
      rxReach (Nat.iter (Z.to_nat packetsPerRing) rxPost (mkRx b [] [])) []
  | rx_arrives st q d : rxReach st q -> rxReach (kernelPut st d) (if x_posted st is [] then q else q ++ [d])
  | rx_taken st d q answer : rxReach st (d :: q) -> rxReach (rxTaken st answer) q.

(** A completion with its datagram in memory. *)
Definition filled (mem : list ringPacket) (r : Result) (d : datagram) : Prop :=
  r = resultOf d (rs_slot r) /\ exists p, mem !! rs_slot r = Some p /\ p_addr p = d.2
    /\ take (rs_Bytes r) (p_data p) = take (rs_Bytes r) d.1.

Definition rx_ok (st : rxState) (q : list datagram) : Prop :=
  ring_ok (rx (x_af st)) 1024 /\ allocated (rx (x_af st)) (rxMemory st)
  /\ (rs_slot <$> x_done st) ++ x_posted st `sublist_of` window (rx (x_af st)) 1024
  /\ Forall2 (filled (rxMemory st)) (x_done st) q.

(** A request pushes a slot. *)
Lemma Insert_ok answer b n : ring_ok (rx b) n -> (n < 1024)%nat -> exists b' rq,
  InsertReceiveRequest answer b = Some (b', rq, answer) /\ rq_slot rq = slotAt (rx b) n /\ ring_ok (rx b') (S n)
  /\ packets (rx b') = packets (rx b) /\ window (rx b') (S n) = window (rx b) n ++ [slotAt (rx b) n] /\ tx b' = tx b.
Proof.
  intros Hr Hn. unfold InsertReceiveRequest. destruct (Push_ok _ _ Hr Hn) as (r & -> & Hr' & Hp & Hw). cbn [mbind option_bind fst snd].
  eexists _, _. split; [reflexivity|]. by split_and!.
Qed.

(** [Open] hands every slot to the kernel. *)
Lemma posts_ok n st : (n <= 1024)%nat -> ring_ok (rx (x_af st)) 0 -> x_posted st = [] -> 
  let st' := Nat.iter n rxPost st in
  ring_ok (rx (x_af st')) n /\ packets (rx (x_af st')) = packets (rx (x_af st)) /\ x_posted st' = window (rx (x_af st')) n
  /\ x_done st' = x_done st /\ tx (x_af st') = tx (x_af st).
Proof.
  intros Hn Hr Hp. induction n as [|n IH]; [by cbn; rewrite Hp|]. cbn [Nat.iter nat_rect]. cbv zeta in IH.
  destruct IH as (Hr' & Hm & Hw & Hd & Ht); [lia|]. change (nat_rect _ _ _ n) with (Nat.iter n rxPost st). set (s := Nat.iter n rxPost st) in *.
  destruct (Insert_ok None _ _ Hr' Hn) as (b & rq & E & Es & Hr2 & Hm2 & Hw2 & Ht2). unfold rxPost. rewrite E. cbn [x_af x_posted x_done].
  split_and!; [done|congruence|by rewrite Hw2, Hw, Es|done|congruence].
Qed.

(** The steps keep the correspondence. *)
Lemma filled_alter mem r d slot d' : rs_slot r <> slot -> filled mem r d -> filled (alter (fillPacket d') slot mem) r d.
Proof. intros Hne [Hr (p & Hp & H)]. split; [done|]. exists p. by rewrite list_lookup_alter_ne. Qed.

Lemma fillPacket_length d p : length (p_data (fillPacket d p)) = length (p_data p).
Proof. apply length_copy. Qed.

Lemma take_copy_some (d s : bytes) n : (n <= length s)%nat -> (n <= length d)%nat -> take n (copy_at d 0 s) = take n s.
Proof.
  intros H1 H2. unfold copy_at. rewrite take_0, Nat.sub_0_r. cbn [app]. rewrite take_app_le by (rewrite length_take; lia).
  rewrite take_take. f_equal. lia.
Qed.

Lemma kernelPut_window st d : window (rx (x_af (kernelPut st d))) = window (rx (x_af st)).
Proof. unfold kernelPut. by destruct (x_posted st). Qed.

Lemma filled_others mem slot d l k : Forall2 (filled mem) l k -> slot ∉ rs_slot <$> l ->
  Forall2 (filled (alter (fillPacket d) slot mem)) l k.
Proof. induction 1; intros Hn; constructor; [apply filled_alter; set_solver|set_solver]. Qed.

Lemma window_bound r n s : s ∈ window r n -> (s < 1024)%nat.
Proof. intros (i & _ & ->)%window_slot. apply slotAt_lt. Qed.

Lemma sublist_window l r n : l `sublist_of` window r n -> (n <= 1024)%nat -> NoDup l /\ Forall (fun s => s < 1024)%nat l.
Proof.
  intros Hs Hn. split; [eapply sublist_NoDup; [by apply (window_NoDup r n)|done]|].
  apply Forall_forall. intros s Hin. eapply window_bound, elem_of_submseteq; [done|by apply sublist_submseteq].
Qed.

Lemma kernelPut_ok st q d : rx_ok st q -> rx_ok (kernelPut st d) (if x_posted st is [] then q else q ++ [d]).
Proof.
  intros (Hr & (Hp & Hl & Hd) & Hs & Hq). unfold rx_ok. rewrite kernelPut_window. unfold kernelPut.
  destruct (sublist_window _ _ _ Hs) as [Hnd Hlt]; [lia|].
  destruct (x_posted st) as [|slot posted] eqn:Ep; [rewrite Ep; exact (conj Hr (conj (conj Hp (conj Hl Hd)) (conj Hs Hq)))|].
  unfold rxMemory. cbn [x_af x_posted x_done rx packets set_field default from_option id].
  set (mem := rxMemory st) in *. apply NoDup_app in Hnd as (_ & Hnot & _). apply Forall_app in Hlt as [_ [Hslot _]%Forall_cons].
  destruct (lookup_lt_is_Some_2 mem slot) as [p Es]; [lia|]. pose proof (proj1 (Forall_lookup _ _) Hd _ _ Es) as Hpl. cbn in Hpl.
  split_and!; [exact Hr|..].
  - split_and!; [done|by rewrite length_alter|]. apply Forall_alter; [done|]. intros p' _ Hp'. by rewrite fillPacket_length.
  - rewrite fmap_app, <-app_assoc. done.
  - apply Forall2_app; [apply filled_others; [done|set_solver]|]. constructor; [|constructor]. split; [done|].
    exists (fillPacket d p). cbn [rs_slot rs_Bytes resultOf fillPacket p_addr p_data]. change (default [] _) with mem. rewrite list_lookup_alter_eq, Es. split_and!; [done..|].
    apply take_copy_some; lia.
Qed.

Lemma rxTaken_step st d q answer : rx_ok st (d :: q) -> exists b rq,
  InsertReceiveRequest answer (x_af st <| rx ::= Return 1 |>) = Some (b, rq, answer)
  /\ rxTaken st answer = mkRx b (x_posted st ++ (if answer is None then [rq_slot rq] else [])) (tail (x_done st))
  /\ rxMemory (rxTaken st answer) = rxMemory st /\ rx_ok (rxTaken st answer) q.
Proof.
  intros (Hr & (Hp & Hl & Hd) & Hs & Hq). destruct (Return_ok _ _ 1 Hr) as (Hr1 & Hp1 & Hw1); [lia|].
  change (Z.of_nat 1) with 1 in *. change (1024 - 1)%nat with 1023%nat in *.
  destruct (Insert_ok answer (x_af st <| rx ::= Return 1 |>) 1023) as (b & rq & E & Es & Hr2 & Hp2 & Hw2 & _); [exact Hr1|lia|].
  change (rx (x_af st <| rx ::= Return 1 |>)) with (Return 1 (rx (x_af st))) in *. rewrite Hp1 in Hp2.
  assert (rxMemory (rxTaken st answer) = rxMemory st) as Hm by (unfold rxMemory, rxTaken; rewrite E; cbn [x_af]; by rewrite Hp2).
  exists b, rq. unfold rx_ok. rewrite Hm. unfold rxTaken. rewrite E. cbn [x_af x_posted x_done].
  apply Forall2_cons_inv_r in Hq as (r & done' & _ & Hq' & Ed). rewrite Ed in *. cbn [tail].
  split_and!; [done..|exact Hr2| | |done].
  - split_and!; [by rewrite Hp2|done|done].
  - rewrite Hw2, Hw1, app_assoc. apply sublist_app; [|rewrite <-Es; destruct answer; [apply sublist_nil_l|done]].
    exact (sublist_drop_both _ _ Hs 1).
Qed.

Lemma rxReach_ok st q : rxReach st q -> rx_ok st q.
Proof.
  induction 1 as [refuse bound port b p H|st q d _ IH|st d q answer _ IH].
  - destruct (afOpen_rings _ _ _ _ _ H) as (Hr & Hal & _). change (Z.to_nat packetsPerRing) with 1024%nat.
    destruct (posts_ok 1024 (mkRx b [] [])) as (Hr' & Hp & Hw & Hd & _); [lia|done|done|].
    set (st := Nat.iter 1024 rxPost _) in *. unfold rx_ok. rewrite Hd, Hw. cbn [x_done].
    assert (rxMemory st = replicate (Z.to_nat packetsPerRing) zeroPacket) as -> by (unfold rxMemory; rewrite Hp; cbn [x_af]; by rewrite (proj1 Hal)).
    split_and!; [exact Hr'| |done|constructor]. split; [by rewrite Hp; apply Hal|apply Hal].
  - by apply kernelPut_ok.
  - by destruct (rxTaken_step _ _ _ answer IH) as (b & rq & _ & _ & _ & Hok).
Qed.

(** Datagrams that arrive while there are requests for them. *)
Lemma kernelPuts_reach late : forall st q, rxReach st q -> (length late <= length (x_posted st))%nat ->
  rxReach (foldl kernelPut st late) (q ++ late).
Proof.
  induction late as [|d late IH]; intros st q Hst Hl; [by rewrite app_nil_r|]. cbn [foldl]. cbn in Hl.
  rewrite (cons_middle d q late), app_assoc. pose proof (rx_arrives st q d Hst) as Hd.
  destruct (x_posted st) as [|slot posted] eqn:E; cbn in Hl; [lia|]. apply IH; [done|]. unfold kernelPut. rewrite E. cbn. lia.
Qed.

Lemma kernelPuts_keep late slot : forall st pre post, x_posted st = pre ++ post -> (length late <= length pre)%nat -> slot ∉ pre ->
  rxMemory (foldl kernelPut st late) !! slot = rxMemory st !! slot.
Proof.
  induction late as [|d late IH]; intros st pre post E Hl Hn; [done|]. destruct pre as [|s pre]; [cbn in Hl; lia|].
  cbn [foldl]. rewrite (IH (kernelPut st d) pre post); [|unfold kernelPut; by rewrite E|cbn in Hl; lia|set_solver].
  unfold kernelPut. rewrite E. apply list_lookup_alter_ne. set_solver.
Qed.

(** The turns of a call find these completions. *)
Definition answering (turns : list turn) (rs : list Result) : Prop :=
  Forall2 (fun t r => nextCompletion t = inl r /\ t_insert t = None /\ t_open t (S receiveSpins) = 1) turns rs.

(** A turn that finds a completion. *)
Lemma receive_turn st d q turns t r mem room : rx_ok st (d :: q) -> nextCompletion t = inl r -> t_insert t = None ->
  t_open t (S receiveSpins) = 1 -> head (x_done st) = Some r ->
  exists rq, receiveLoop (t :: turns) mem room (x_af st) =
    if decide (tooLong d) then '(b, rqs, res) ← receiveLoop turns mem room (x_af (rxTaken st None)); Some (b, rq :: rqs, res)
    else res ← copyOut mem r room; Some (x_af (rxTaken st None), [rq], inl res).
Proof.
  intros Hok Hn Hi Ho Hr. destruct (rxTaken_step st d q None Hok) as (b & rq & E & Et & _ & _). exists rq.
  cbn [receiveLoop]. rewrite Hn, Hi, E. cbn [mbind option_bind]. rewrite Et. cbn [x_af].
  destruct Hok as (_ & _ & _ & Hq). apply Forall2_cons_inv_r in Hq as (r' & done' & [Hf _] & _ & Ed). rewrite Ed in Hr. injection Hr as ->.
  rewrite Hf, Ho. unfold resultOf. cbn [rs_Status rs_slot]. by destruct (decide (tooLong d)).
Qed.

(** C16: datagrams are delivered in the order in which they have come, each with
    its own bytes and source, and those that are longer than a packet are passed
    over; the slots of the packets that are taken go back to the kernel, so that it
    can receive others.  This is under two conditions.  The system refuses none of
    the call's requests ([answering]).  And between the handing back of the slot
    and the copy of its bytes no more datagrams come ([late]) than there were
    requests outstanding before the call, so the system does not yet get to the
    slot that is being copied; when every slot holds a datagram that waits, there
    are no such requests, and the next datagram overwrites the one that is being
    delivered ([copied_after_handed_out]). *)
Theorem Receive_delivers bad d q late room : forall st turns, rxReach st (bad ++ d :: q) -> Forall tooLong bad -> ~ tooLong d ->
  answering turns (take (S (length bad)) (x_done st)) -> (length late <= length (x_posted st))%nat ->
  let st' := foldl rxTaken st (replicate (S (length bad)) None) in
  rxReach (foldl kernelPut st' late) (q ++ late)
  /\ exists rqs, length rqs = S (length bad)
     /\ Receive 1 turns (rxMemory (foldl kernelPut st' late)) room (x_af st) = Some (x_af st', rqs, inl (take room d.1, d.2)).
Proof.
  unfold Receive. cbn [negb Z.eqb Pos.eqb]. induction bad as [|x bad IH]; intros st turns Hst Hb Hd Ht Hl.
  - pose proof (rxReach_ok _ _ Hst) as Hok. destruct (rxTaken_step st d q None Hok) as (b & rq & E & Et & Hm & _).
    cbn [length replicate foldl app] in *. split; [apply kernelPuts_reach; [by eapply rx_taken|rewrite Et; cbn; rewrite length_app; lia]|].
    pose proof Hok as (_ & (_ & _ & Hlen) & Hs & Hq). apply Forall2_cons_inv_r in Hq as (r & done' & (Hr & p & Ep & Hpa & Hpd) & _ & Ed).
    rewrite Ed in Ht, Hs. cbn in Ht. apply Forall2_cons_inv_r in Ht as (t & ? & (Ht1 & Ht2 & Ht3) & ->%Forall2_nil_inv_r & ->).
    destruct (receive_turn st d q [] t r (rxMemory (foldl kernelPut (rxTaken st None) late)) room) as [rq' ->]; try done; [by rewrite Ed|].
    rewrite decide_False by done. exists [rq']. split; [done|]. unfold copyOut.
    apply sublist_window in Hs as [Hnd _]; [|lia]. apply NoDup_app in Hnd as (_ & Hnot & _).
    rewrite (kernelPuts_keep late (rs_slot r) _ (x_posted st) [rq_slot rq]); [|by rewrite Et|done|apply Hnot; set_solver].
    rewrite Hm, Ep. cbn [mbind option_bind]. pose proof (proj1 (Forall_lookup _ _) Hlen _ _ Ep) as Hpl. cbn in Hpl.
    assert (rs_Bytes r = length d.1) as Eb by (rewrite Hr; unfold resultOf, tooLong in *; cbn [rs_Bytes]; lia).
    destruct (Nat.ltb_spec (length (p_data p)) (rs_Bytes r)); [unfold tooLong in Hd; lia|]. rewrite Hpd, Hpa, Eb. cbn.
    by rewrite firstn_all.
  - pose proof (rxReach_ok _ _ Hst) as Hok. cbn [app length replicate foldl] in *. apply Forall_cons in Hb as [Hx Hb].
    destruct (rxTaken_step st x (bad ++ d :: q) None Hok) as (b & rq & _ & Et & _ & _).
    pose proof Hok as (_ & _ & _ & Hq). apply Forall2_cons_inv_r in Hq as (r & done' & _ & _ & Ed).
    rewrite Ed in Ht. apply Forall2_cons_inv_r in Ht as (t & ts & (Ht1 & Ht2 & Ht3) & Ht & ->).
    destruct (IH (rxTaken st None) ts) as [Hreach (rqs & Hn & E)]; try done; [by eapply rx_taken|by rewrite Et, Ed|rewrite Et; cbn; rewrite length_app; lia|].
    split; [exact Hreach|]. destruct (receive_turn st x (bad ++ d :: q) ts t r 
      (rxMemory (foldl kernelPut (foldl rxTaken (rxTaken (rxTaken st None) None) (replicate (length bad) None)) late)) room) as [rq' E']; try done; [by rewrite Ed|].
    exists (rq' :: rqs). split; [cbn; lia|]. etrans; [exact E'|]. rewrite decide_True by done. by rewrite E.
Qed.

(** A datagram that is too long, two that are not, and one that comes during the call. *)
Definition openedRx : rxState := Nat.iter (Z.to_nat packetsPerRing) rxPost (mkRx openedAf [] []).
Definition longDatagram : datagram := (replicate (S bytesPerPacket) 9, someEndpoint).
Definition arrivedRx : rxState := foldl kernelPut openedRx [longDatagram; ([1; 2], someEndpoint); ([3], someEndpoint)].
Definition turnOf (d : datagram) (slot : nat) : turn :=
  mkTurn (fun i => if (i =? 3)%nat then Some (resultOf d slot) else None) None None None (fun _ => 1) None.

Lemma openedRx_reach : rxReach openedRx [].
Proof. by apply (rx_opened (fun _ => None) (fun _ => 4000) 0 openedAf 4000). Qed.
Lemma openedRx_posted : length (x_posted openedRx) = 1024%nat.
Proof. vm_compute. done. Qed.
Lemma arrivedRx_reach : rxReach arrivedRx [longDatagram; ([1; 2], someEndpoint); ([3], someEndpoint)].
Proof. apply (kernelPuts_reach _ _ [] openedRx_reach). rewrite openedRx_posted. cbn. lia. Qed.

Lemma Receive_delivers_witness :
  let st' := foldl rxTaken arrivedRx [None; None] in
  rxReach (foldl kernelPut st' [([4], someEndpoint)]) [([3], someEndpoint); ([4], someEndpoint)]
  /\ exists rqs, length rqs = 2%nat
     /\ Receive 1 [turnOf longDatagram 0; turnOf ([1; 2], someEndpoint) 1] (rxMemory (foldl kernelPut st' [([4], someEndpoint)])) 1500
          (x_af arrivedRx) = Some (x_af st', rqs, inl (take 1500 [1; 2], someEndpoint)).
Proof.
  apply (Receive_delivers [longDatagram] ([1; 2], someEndpoint) [([3], someEndpoint)] [([4], someEndpoint)] 1500 arrivedRx
    [turnOf longDatagram 0; turnOf ([1; 2], someEndpoint) 1]).
  - exact arrivedRx_reach.
  - apply Forall_singleton. unfold tooLong, longDatagram. cbn [fst]. rewrite length_replicate. lia.
  - apply Nat.nlt_ge, Nat.leb_le. vm_compute. done.
  - vm_compute. repeat constructor.
  - apply Nat.leb_le. vm_compute. done.
Defined.

(** With a completion in every slot, the first packet is handed out before it is
    copied, and the next datagram is written over it: that one is delivered twice
    and the first not at all. *)
Definition everySlot : rxState := foldl kernelPut openedRx (replicate 1024 ([1], someEndpoint)).
Example copied_after_handed_out :
  let st' := kernelPut (rxTaken everySlot None) ([2], someEndpoint) in
  option_map fst (copyOut (rxMemory everySlot) (resultOf ([1], someEndpoint) 0) 10) = Some [1]
  /\ option_map fst (copyOut (rxMemory st') (resultOf ([1], someEndpoint) 0) 10) = Some [2]
  /\ last (x_done st') = Some (resultOf ([2], someEndpoint) 0).
Proof. vm_compute. done. Qed.

(** ** Opening and closing *)

(** A family that sends and receives, with a request in every slot and nothing sent. *)
Definition ready (v : afWinRingBind) : Prop :=
  txReach v [] /\ exists st, rxReach st [] /\ x_af st = v /\ x_posted st ≡ₚ seq 0 1024 /\ x_done st = [].

Lemma window_all r : window r 1024 ≡ₚ seq 0 1024.
Proof.
  apply submseteq_length_Permutation; [|by rewrite length_window, length_seq].
  apply NoDup_submseteq; [by apply window_NoDup|]. intros s Hs%window_bound. apply elem_of_seq. lia.
Qed.

Lemma posts_ready refuse bound port b p : afOpen refuse bound port zeroAf = (b, inl p) ->
  ready (x_af (Nat.iter (Z.to_nat packetsPerRing) rxPost (mkRx b [] []))).
Proof.
  intros H. pose proof (afOpen_rings _ _ _ _ _ H) as (Hr & _). 
  destruct (posts_ok 1024 (mkRx b [] [])) as (_ & _ & Hw & Hd & Ht); [lia|done|done|]. split; [by eapply tx_opened|].
  eexists. split; [by eapply rx_opened|]. split_and!; [done| |done]. change (Z.to_nat packetsPerRing) with 1024%nat. rewrite Hw. apply window_all.
Qed.

Lemma insertLoop_ok answer n : forall i b st4 st6, (i + n = 1024)%nat -> wv4 b = x_af st4 -> wv6 b = x_af st6 ->
  ring_ok (rx (x_af st4)) i -> ring_ok (rx (x_af st6)) i -> exists b' e, insertLoop answer n i b = Some (b', e)
  /\ (e = None -> wv4 b' = x_af (Nat.iter n rxPost st4) /\ wv6 b' = x_af (Nat.iter n rxPost st6))
  /\ ((forall v6 i, answer v6 i = None) -> e = None).
Proof.
  induction n as [|n IH]; intros i b st4 st6 Hi E4 E6 H4 H6; cbn [insertLoop]; [by exists b, None|].
  destruct (Insert_ok None _ _ H4) as (b4 & rq4 & I4 & _ & H4' & _); [lia|]. destruct (Insert_ok None _ _ H6) as (b6 & rq6 & I6 & _ & H6' & _); [lia|].
  destruct (Insert_ok (answer false i) _ _ H4) as (b4' & rq4' & I4' & _); [lia|]. destruct (Insert_ok (answer true i) _ _ H6) as (b6' & rq6' & I6' & _); [lia|].
  rewrite E4, I4'. cbn [mbind option_bind]. destruct (answer false i) as [e|] eqn:A4; [eexists _, _; split; [reflexivity|split; [done|intros Ha; by rewrite Ha in A4]]|].
  cbn [wv6 set_field]. rewrite E6, I6'. cbn [mbind option_bind]. destruct (answer true i) as [e|] eqn:A6; [eexists _, _; split; [reflexivity|split; [done|intros Ha; by rewrite Ha in A6]]|].
  rewrite I4 in I4'. rewrite I6 in I6'. injection I4' as <- <-. injection I6' as <- <-.
  rewrite !Nat.iter_succ_r. apply IH; [lia|..]; unfold rxPost; rewrite ?I4, ?I6; done.
Qed.

Lemma closeAndZero_new b : closeAndZero b = NewWinRingBind.
Proof. done. Qed.

(** Opening a bind that is closed ends without a panic, whatever the system
    refuses: either it is open, both families can send and every slot of both is
    with the kernel to be received into, or it is as new.  Closing makes it as new.
    Opening it once more refuses, and closes what was open. *)
Theorem WinOpen_opens refuse bound answer port : exists b r, WinOpen refuse bound answer port NewWinRingBind = Some (b, r)
  /\ ((forall v6 i, refuse v6 i = None) -> (forall v6 i, answer v6 i = None) -> exists p, r = inl p)
  /\ match r with
     | inr _ => b = NewWinRingBind
     | inl p => p = u16 (bound true (bound false port)) /\ isOpen b = 1 /\ ready (wv4 b) /\ ready (wv6 b)
         /\ (WinClose b).2 = NewWinRingBind
         /\ WinOpen refuse bound answer port b = Some (NewWinRingBind, inr WinAlreadyOpen)
     end.
Proof.
  unfold WinOpen at 1. cbn [isOpen NewWinRingBind negb Z.eqb wv4].
  destruct (afOpen (refuse false) (bound false) port zeroAf) as [v4 [port4|e4]] eqn:E4;
    [|eexists _, _; split; [reflexivity|]; split; [|apply closeAndZero_new]; intros Ha _; unfold afOpen, ringOpen in E4; by rewrite !Ha in E4].
  change (afOpen (refuse true) (bound true) port4 _) with (afOpen (refuse true) (bound true) port4 zeroAf).
  destruct (afOpen (refuse true) (bound true) port4 zeroAf) as [v6 [port6|e6]] eqn:E6;
    [|eexists _, _; split; [reflexivity|]; split; [|apply closeAndZero_new]; intros Ha _; unfold afOpen, ringOpen in E6; by rewrite !Ha in E6].
  pose proof (afOpen_rings _ _ _ _ _ E4) as (H4 & _ & _ & _ & ->). pose proof (afOpen_rings _ _ _ _ _ E6) as (H6 & _ & _ & _ & ->).
  set (b := mkWinBind v4 v6 0).
  destruct (insertLoop_ok answer (Z.to_nat packetsPerRing) 0 b (mkRx v4 [] []) (mkRx v6 [] [])) as (b' & e & E & He & Ha); try done.
  change (insertLoop _ _ _ _) with (insertLoop answer (Z.to_nat packetsPerRing) 0 b). rewrite E. cbn [mbind option_bind].
  destruct e as [e|]; [eexists _, _; split; [reflexivity|split; [|apply closeAndZero_new]]; intros _ Hn; by specialize (Ha Hn)|].
  destruct He as [Ev4 Ev6]; [done|]. eexists _, _. split; [reflexivity|]. split; [by eexists|]. split; [done|]. split; [done|].
  cbn [wv4 wv6 set_field]. rewrite Ev4, Ev6. split; [by eapply posts_ready|]. split; [by eapply posts_ready|]. split; done.
Qed.

(** ** Endpoints *)

(** The socket address that the system makes of an address, a port and a scope. *)
Definition sockaddr (ip : bytes) (port flow scope : Z) : Z * bytes :=
  if (length ip =? 4)%nat then (AF_INET, le_enc 2 AF_INET ++ be_enc 2 port ++ ip ++ replicate 8 0)
  else (AF_INET6, le_enc 2 AF_INET6 ++ be_enc 2 port ++ le_enc 4 flow ++ ip ++ le_enc 4 scope).

(** An endpoint that is parsed has the address and the port that the system
    has read; its binary form is that of an endpoint of the other bind, the address
    and the port in little-endian order, and its text names the scope of an
    IPv6 address as the zone. *)
Theorem WinParseEndpoint_reads G s host port ip p flow scope : SplitHostPort s = Some (host, port) -> 0 ∉ host -> 0 ∉ port ->
  G host port = Some (sockaddr ip p flow scope) -> length ip = 4%nat \/ length ip = 16%nat -> 0 <= p < 65536 -> 0 <= scope < 2 ^ 32 ->
  exists e, WinParseEndpoint G s = Some e /\ WinDstIP e = mkAddr ip [] /\ WinDstToBytes e = ip ++ le_enc 2 p
    /\ WinDstToString e = addrPortString (mkAddr ip (if (length ip =? 16)%nat && (0 <? scope) then Itoa scope else [])) p.
Proof.
  intros Hs Hh Hp HG Hip Hport Hscope. unfold WinParseEndpoint. rewrite Hs. cbn [mbind option_bind]. rewrite !bool_decide_eq_false_2 by done.
  cbn [orb]. rewrite HG. unfold sockaddr. pose proof (be_dec_enc 2 p ltac:(lia)) as Ep. pose proof (le_dec_enc 4 scope ltac:(lia)) as Es. destruct Hip as [H|H]; rewrite H; cbn [Nat.eqb mbind option_bind andb].
  - do 5 (destruct ip as [|? ip]; try done). eexists. split; [reflexivity|]. do 2 (split; [reflexivity|]).
    etrans; [|exact (f_equal (addrPortString _) Ep)]. reflexivity.
  - do 17 (destruct ip as [|? ip]; try done). eexists. split; [reflexivity|]. do 2 (split; [reflexivity|]).
    etrans; [|exact (f_equal2 (fun s q => addrPortString (mkAddr _ (if 0 <? s then Itoa s else [])) q) Es Ep)]. reflexivity.
Qed.

Lemma WinParseEndpoint_reads_witness : exists e, 
  WinParseEndpoint (fun _ _ => Some (sockaddr (replicate 16 254) 51820 0 3)) [91; 58; 58; 49; 93; 58; 53] = Some e
  /\ WinDstIP e = mkAddr (replicate 16 254) [] /\ WinDstToBytes e = replicate 16 254 ++ le_enc 2 51820
  /\ WinDstToString e = addrPortString (mkAddr (replicate 16 254) (Itoa 3)) 51820.
Proof.
  apply (WinParseEndpoint_reads (fun _ _ => Some (sockaddr (replicate 16 254) 51820 0 3)) [91; 58; 58; 49; 93; 58; 53] [58; 58; 49] [53]
    (replicate 16 254) 51820 0 3); try done; try lia.
  - set_solver by lia.
  - set_solver by lia.
  - by right.
Defined.
