(* ===== verification/VpnEngine.v ===== *)
(** The engine as a package for other platforms ([vpnengine/vpnengine.go]) and the
    program for Linux ([cmd/orbitx/main_linux.go]): which devices, contexts and STUN
    clients run after the calls of an application, and what the program sets up. *)
From S2P Require Import Prelude Messages NoiseHelpers Text Encodings Stun Config KeyUtils.

Section VpnEngine.
Context `{C : Crypto}.

(** ** The variables of the package *)

(** Devices, contexts and [KeyUtils] are pointers: every one that was made, with
    whether a device is open and a context not cancelled.  Of the variables that
    [Init] only stores nothing is read. *)
Record engine := mkEngine { devices : list bool; contexts : list bool; utilities : list KeyUtils;
  wgDevice : option nat; cancelCtx : option nat; keyUtils : option nat }.
#[export] Instance engine_settable : Settable engine :=
  fun e => mkEngine (devices e) (contexts e) (utilities e) (wgDevice e) (cancelCtx e) (keyUtils e).
Definition newEngine : engine := mkEngine [] [] [] None None None.

(** [Init]: [app] and [database] are whether the database is reached; [written]
    whether the key file can be.  The result is whether there was no error. *)
Definition Init (app database : bool) (file : keyFile) (rnd : option bytes) (written : bool) (isHost : bool) (deviceName uuid : bytes)
    (e : engine) : engine * bool :=
  if negb app then (e, false)
  else if negb database then (e, false)
  else
    let '(ku, _, ok) := KeyUtils.Init file rnd written (NewKeyUtils isHost deviceName uuid) in
    if negb ok then (e, false)
    else (e <| utilities ::= fun us => us ++ [ku] |> <| keyUtils := Some (length (utilities e)) |>, true).

(** *** Stop *)

(** Under the lock: what was there, and the variables without it. *)
Definition stopTake (e : engine) : engine * (option nat * option nat * option nat) :=
  (e <| wgDevice := None |> <| cancelCtx := None |>, (wgDevice e, cancelCtx e, keyUtils e)).
(** [GetStunClient().Stop()] *)
Definition stunStop (k : KeyUtils) : KeyUtils := k <| stunClient := (Stun.Stop (stunClient k)).1 |>.
Definition stopRest (taken : option nat * option nat * option nat) (e : engine) : engine :=
  let '(dev, cancel, ku) := taken in
  let e := match cancel with Some c => e <| contexts ::= <[c := false]> |> | None => e end in
  let e := match ku with Some u => e <| utilities ::= alter stunStop u |> | None => e end in
  match dev with Some d => e <| devices ::= <[d := false]> |> | None => e end.
Definition Stop (e : engine) : engine := let '(e, taken) := stopTake e in stopRest taken e.
Definition Exit (e : engine) : engine := Stop e <| keyUtils := None |>.

(** *** Start *)

(** What the calls on the way answer: the TUN device of the descriptor, the type of
    the bind, [Up], the name of the STUN server here and in the client, and the
    random bytes of the first request. *)
Record startAnswers := mkAnswers { tunMade : bool; isStd : bool; upDone : bool; resolved : bool; clientResolved : bool; random : option bytes }.

(** From the context to [ResolveUDPAddr]: the device and the context that were made,
    if there was no error. *)
Definition startMake (a : startAnswers) (u : nat) (e : engine) : engine * option (nat * nat) :=
  let c := length (contexts e) in
  let d := length (devices e) in
  let live b := e <| contexts ::= fun cs => cs ++ [b] |> in
  if negb (tunMade a) then (live false, None)
  else if negb (isStd a) then (live false, None)
  else if negb (upDone a) then (live false <| devices ::= fun ds => ds ++ [false] |>, None)
  else
    let e := live true <| devices ::= fun ds => ds ++ [true] |> <| utilities ::= alter (fun k => k <| onStartVPN := true |>) u |> in
    if negb (resolved a) then (e <| contexts ::= <[c := false]> |> <| devices ::= <[d := false]> |>, None)
    else (e, Some (d, c)).
(** The variables, under the lock, and the goroutines. *)
Definition startPublish (a : startAnswers) (u : nat) (made : nat * nat) (e : engine) : engine :=
  e <| wgDevice := Some made.1 |> <| cancelCtx := Some made.2 |>
    <| utilities ::= alter (fun k => (KeyUtils.StartVPNShared (clientResolved a) (random a) k).1) u |>.
Definition Start (a : startAnswers) (e : engine) : engine * bool :=
  match keyUtils e with
  | None => (e, false)
  | Some u =>
      let e := Stop e in
      match startMake a u e with
      | (e, None) => (e, false)
      | (e, Some made) => (startPublish a u made e, true)
      end
  end.

(** What [OnStartVPN] does with a configuration: the device it is given to. *)
Definition onStart (e : engine) : option nat := wgDevice e.

(** ** Calls one after the other *)

Inductive appCall :=
  | CInit (app database : bool) (file : keyFile) (rnd : option bytes) (written isHost : bool) (deviceName uuid : bytes)
  | CStart (a : startAnswers) | CStop | CExit.
Definition runCall (c : appCall) (e : engine) : engine :=
  match c with
  | CInit app database file rnd written isHost deviceName uuid => (Init app database file rnd written isHost deviceName uuid e).1
  | CStart a => (Start a e).1
  | CStop => Stop e
  | CExit => Exit e
  end.
Definition runCalls (cs : list appCall) : engine := foldl (fun e c => runCall c e) newEngine cs.

(** The one device and the one context that may run are those of the variables. *)
Record engine_ok (e : engine) : Prop := {
  eo_devices : forall d, devices e !! d = Some true <-> wgDevice e = Some d;
  eo_contexts : forall c, contexts e !! c = Some true <-> cancelCtx e = Some c;
  eo_both : wgDevice e = None <-> cancelCtx e = None;
  eo_utilities : forall u, keyUtils e = Some u -> is_Some (utilities e !! u) }.

(** A list of flags of which one is cleared, and one that is made longer. *)
Lemma clear_flag (l : list bool) (cur : option nat) : (forall i, l !! i = Some true <-> cur = Some i) ->
  forall i, match cur with Some c => <[c := false]> l | None => l end !! i <> Some true.
Proof.
  intros H i. destruct cur as [c|]; [|by intros E%H]. destruct (decide (i = c)) as [->|Hn].
  - assert (l !! c = Some true) as E%lookup_lt_Some by by apply H. by rewrite list_lookup_insert_eq.
  - rewrite list_lookup_insert_ne by done. intros E%H. congruence.
Qed.
Lemma snoc_flag (l : list bool) (b : bool) i : (forall i, l !! i <> Some true) -> (l ++ [b]) !! i = Some true <-> b = true /\ i = length l.
Proof.
  intros H. rewrite lookup_app_Some. rewrite list_lookup_singleton_Some. split.
  - intros [E|(Hle & E & ->)]; [by destruct (H i)|]. split; [done|lia].
  - intros [-> ->]. right. split; [lia|]. split; [lia|done].
Qed.

Lemma stop_quiet e : engine_ok e ->
  (forall d, devices (Stop e) !! d <> Some true) /\ (forall c, contexts (Stop e) !! c <> Some true)
  /\ wgDevice (Stop e) = None /\ cancelCtx (Stop e) = None /\ keyUtils (Stop e) = keyUtils e /\ length (utilities (Stop e)) = length (utilities e).
Proof.
  intros [Hd Hc _ _]. pose proof (clear_flag _ _ Hd) as H1. pose proof (clear_flag _ _ Hc) as H2. unfold Stop, stopTake, stopRest.
  destruct (wgDevice e) eqn:E1, (cancelCtx e) eqn:E2, (keyUtils e) eqn:E3; cbn in *; rewrite ?length_alter; by split_and!.
Qed.

(** One step of [Start] after [Stop]: what it makes is all that runs, or nothing does. *)
Lemma startMake_runs a u e : (forall d, devices e !! d <> Some true) -> (forall c, contexts e !! c <> Some true) ->
  let '(e', made) := startMake a u e in
  length (utilities e') = length (utilities e) /\ keyUtils e' = keyUtils e /\ wgDevice e' = wgDevice e /\ cancelCtx e' = cancelCtx e
  /\ match made with
     | Some (d, c) => (forall i, devices e' !! i = Some true <-> d = i) /\ (forall i, contexts e' !! i = Some true <-> c = i)
                      /\ tunMade a && isStd a && upDone a && resolved a = true
     | None => (forall i, devices e' !! i <> Some true) /\ (forall i, contexts e' !! i <> Some true)
               /\ tunMade a && isStd a && upDone a && resolved a = false
     end.
Proof.
  intros Hd Hc.
  assert (forall (l : list bool) i, (forall i, l !! i <> Some true) -> (l ++ [false]) !! i <> Some true) as Hno
    by (intros l i Hl E; by apply (snoc_flag _ _ _ Hl) in E as [? _]).
  assert (forall (l : list bool) i, (forall i, l !! i <> Some true) -> (l ++ [true]) !! i = Some true <-> length l = i) as Hyes
    by (intros l i Hl; rewrite snoc_flag by done; naive_solver).
  unfold startMake. destruct (tunMade a), (isStd a), (upDone a); cbn; [destruct (resolved a)|..]; cbn; rewrite ?length_alter; split_and!; auto.
  - intros i. rewrite insert_app_r_alt by lia. rewrite Nat.sub_diag. cbn. auto.
  - intros i. rewrite insert_app_r_alt by lia. rewrite Nat.sub_diag. cbn. auto.
Qed.

Lemma vpnStart_ok a e : engine_ok e -> engine_ok (Start a e).1
  /\ ((Start a e).2 = true <-> is_Some (keyUtils e) /\ tunMade a && isStd a && upDone a && resolved a = true)
  /\ ((Start a e).2 = true -> is_Some (wgDevice (Start a e).1))
  /\ (is_Some (keyUtils e) -> (Start a e).2 = false -> wgDevice (Start a e).1 = None).
Proof.
  intros He. unfold Start. destruct (keyUtils e) as [u|] eqn:Eu; [|split_and!; try done; split; [done|by intros [[? ?] _]]].
  destruct (stop_quiet e He) as (Hd & Hc & Hw & Hcc & Hk & Hl). pose proof (startMake_runs a u (Stop e) Hd Hc) as H.
  assert (forall v, keyUtils (Stop e) = Some v -> is_Some (utilities (Stop e) !! v)) as Hv.
  { intros v E. apply lookup_lt_is_Some_2. rewrite Hl. apply lookup_lt_is_Some_1, (eo_utilities _ He). congruence. }
  destruct (startMake a u (Stop e)) as [e' [[d c]|]]; destruct H as (Hl' & Hk' & Hw' & Hc' & H1 & H2 & H3).
  - cbn. split; [|by split_and!].
    split; cbn; [intros i; rewrite H1; naive_solver|intros i; rewrite H2; naive_solver|done|].
    intros v E. apply lookup_lt_is_Some_2. rewrite length_alter, Hl'. apply lookup_lt_is_Some_1, Hv. congruence.
  - cbn. rewrite Hw', Hw, H3. split; [|split_and!; try done; naive_solver].
    split; rewrite ?Hw', ?Hw, ?Hc', ?Hcc; try done; [intros i; split; [by intros ?%H1|done]|intros i; split; [by intros ?%H2|done]|].
    intros v E. apply lookup_lt_is_Some_2. rewrite Hl'. apply lookup_lt_is_Some_1, Hv. congruence.
Qed.

Lemma stop_ok e : engine_ok e -> engine_ok (Stop e).
Proof.
  intros He. destruct (stop_quiet e He) as (Hd & Hc & Hw & Hcc & Hk & Hl). split; rewrite ?Hw, ?Hcc; try done.
  - intros i. split; [by intros ?%Hd|done].
  - intros i. split; [by intros ?%Hc|done].
  - intros v E. apply lookup_lt_is_Some_2. rewrite Hl. apply lookup_lt_is_Some_1, (eo_utilities _ He). congruence.
Qed.

Lemma runCall_ok c e : engine_ok e -> engine_ok (runCall c e).
Proof.
  intros He. destruct c as [app database file rnd written isHost deviceName uuid|a| |]; cbn.
  - unfold Init. destruct app, database; cbn -[KeyUtils.Init]; try done. destruct (KeyUtils.Init file rnd written (NewKeyUtils isHost deviceName uuid)) as [[ku f] []]; cbn; [|done]. destruct He as [H1 H2 H3 H4].
    split; cbn; try done. intros u [= <-]. rewrite lookup_app_r, Nat.sub_diag by lia. by eexists.
  - by apply vpnStart_ok.
  - by apply stop_ok.
  - destruct (stop_ok e He) as [H1 H2 H3 H4]. by split.
Qed.

(** Whatever an application calls, one call after the other, the only device that is
    open and the only context that is not cancelled are those of the variables, so
    there is one of each at most.  A start succeeds exactly when it is initialized and
    every call on the way does, and leaves its device open; one that fails leaves
    nothing open, and so does a stop, which ends the STUN client. *)
Theorem calls_run cs : let e := runCalls cs in
  (forall d, devices e !! d = Some true <-> wgDevice e = Some d) /\ (forall c, contexts e !! c = Some true <-> cancelCtx e = Some c)
  /\ (wgDevice e = None <-> cancelCtx e = None)
  /\ (forall a, (Start a e).2 = true <-> is_Some (keyUtils e) /\ tunMade a && isStd a && upDone a && resolved a = true)
  /\ (forall a, is_Some (keyUtils e) -> (is_Some (wgDevice (Start a e).1) <-> (Start a e).2 = true))
  /\ (forall d, devices (Stop e) !! d <> Some true)
  /\ (forall u k, keyUtils e = Some u -> utilities (Stop e) !! u = Some k -> stopped (stunClient k) = true).
Proof.
  assert (engine_ok (runCalls cs)) as He.
  { unfold runCalls. assert (engine_ok newEngine) as H by by split. revert H. generalize newEngine. induction cs as [|c cs IH]; intros e H; [done|].
    cbn. by apply IH, runCall_ok. }
  cbn. split_and!; try apply He.
  - intros a. by destruct (vpnStart_ok a _ He) as (_ & H & _).
  - intros a Hk. destruct (vpnStart_ok a _ He) as (_ & _ & H1 & H2). split; [|auto]. intros [d Hd]. destruct (Start a _).2; [done|]. by rewrite H2 in Hd.
  - apply (stop_quiet _ He).
  - intros u k Hu. unfold Stop, stopTake, stopRest. rewrite Hu.
    destruct (cancelCtx _), (wgDevice _); cbn; rewrite list_lookup_alter, decide_True by done; intros (k' & _ & ->)%fmap_Some; done.
Qed.

(** What is initialized anew while it runs leaves the first STUN client running: a stop
    ends the second one. *)
Definition noKeys : bytes := [].
Definition initCall : appCall := CInit true true (Some (noKeys, noKeys)) None true true noKeys noKeys.
Definition allWell : startAnswers := mkAnswers true true true true true (Some (repeat 0 12)).
Example older_client_runs : exists k, utilities (runCalls [initCall; CStart allWell; initCall; CStop]) !! 0%nat = Some k
  /\ stopped (stunClient k) = false /\ sendRequestFunc (stunClient k) = true.
Proof. vm_compute. by eexists. Qed.

(** Two starts at once: both have stopped what ran before either publishes, and the
    device of the first stays open, in no variable. *)
Example starts_at_once :
  let e := runCalls [initCall] in
  let '(e, madeA) := startMake allWell 0 (Stop e) in
  let '(e, madeB) := startMake allWell 0 (Stop e) in
  match madeA, madeB with
  | Some a, Some b => let e := startPublish allWell 0 b (startPublish allWell 0 a e) in devices e = [true; true] /\ wgDevice e = Some 1%nat
  | _, _ => False
  end.
Proof. done. Qed.

(** ** The program for Linux *)

Definition envOrDefault (env : bytes -> bytes) (name fallback : bytes) : bytes := match env name with [] => fallback | v => v end.
Definition userHome (home : option bytes) : bytes := default (of_string ".") home.

(** What the program is told by its environment, but for the address of the database
    and the directory of its files. *)
Record settings := mkSettings { s_uuid : bytes; s_deviceName : bytes; s_secret : bytes; s_interface : bytes }.
Definition settingsOf (env : bytes -> bytes) : settings :=
  mkSettings (envOrDefault env (of_string "ORBITX_UUID") (of_string "test123"))
    (envOrDefault env (of_string "ORBITX_DEVICE_NAME") (of_string "orbitx-ubuntu"))
    (envOrDefault env (of_string "ORBITX_PRESHARED_SECRET") (of_string "orbitx_p2p_default_secret"))
    (envOrDefault env (of_string "ORBITX_INTERFACE") (of_string "wg0")).

Definition internalIP (isHost : bool) : bytes := if isHost then of_string "10.0.0.1" else of_string "10.0.0.2".

(** The arguments of [ip], and its calls up to one that fails. *)
Definition commands (interfaceName ip : bytes) : list (list bytes) :=
  [[of_string "addr"; of_string "replace"; ip ++ of_string "/24"; of_string "dev"; interfaceName];
   [of_string "link"; of_string "set"; of_string "dev"; interfaceName; of_string "up"];
   [of_string "route"; of_string "replace"; of_string "10.0.0.0/24"; of_string "dev"; interfaceName]].
Fixpoint runAll (works : list bytes -> bool) (cs : list (list bytes)) : list (list bytes) * bool :=
  match cs with
  | [] => ([], true)
  | c :: cs => if works c then let '(done, ok) := runAll works cs in (c :: done, ok) else ([c], false)
  end.
Definition configureLinuxInterface (works : list bytes -> bool) (interfaceName ip : bytes) : list (list bytes) * bool :=
  runAll works (commands interfaceName ip).

(** Where the program gives up, or that it runs: its keys, and the calls it made. *)
Inductive stage := BadMode | NoDirectory | NoDatabase | NoKeys | NoTun | NoInterface | NoBind | NoDevice | NoServer.
Definition main (mode : bytes) (env : bytes -> bytes) (directory database : bool) (file : keyFile) (rnd : option bytes) (written : bool)
    (works : list bytes -> bool) (a : startAnswers) : stage + (KeyUtils * list (list bytes)) :=
  match modeIsHost mode with
  | None => inl BadMode
  | Some isHost =>
      let st := settingsOf env in
      if negb directory then inl NoDirectory
      else if negb database then inl NoDatabase
      else
        let '(keys, _, ok) := KeyUtils.Init file rnd written (SetPresharedSecret (s_secret st) (NewKeyUtils isHost (s_deviceName st) (s_uuid st))) in
        if negb ok then inl NoKeys
        else if negb (tunMade a) then inl NoTun
        else
          let '(done, ok) := configureLinuxInterface works (s_interface st) (internalIP isHost) in
          if negb ok then inl NoInterface
          else if negb (isStd a) then inl NoBind
          else if negb (upDone a) then inl NoDevice
          else if negb (resolved a) then inl NoServer
          else inr ((KeyUtils.StartVPNShared (clientResolved a) (random a) (keys <| onStartVPN := true |>)).1, done)
  end.

(** A packet that the device does not know: whether it has the program restarted,
    which only the first one has, and whether that has been asked for. *)
Definition unknownPacket (restarted : bool) : bool * bool := (true, negb restarted).

Lemma runAll_all works cs : (runAll works cs).2 = true -> (runAll works cs).1 = cs.
Proof. induction cs as [|c cs IH]; cbn; [done|]. destruct (works c); [|done]. destruct (runAll works cs) as [done_ []]; cbn in *; [|done]. intros _. by rewrite IH. Qed.

Lemma Init_derives file rnd written k : k_secret k <> [] -> KeyUtils.Init file rnd written k =
  ((deriveAndSaveKey k).1, if written then (deriveAndSaveKey k).2 else file, written).
Proof. intros H. unfold KeyUtils.Init. destruct (k_secret k); [by destruct H|]. by rewrite (surjective_pairing (deriveAndSaveKey k)). Qed.
Lemma secret_set env : s_secret (settingsOf env) <> [].
Proof. unfold settingsOf, envOrDefault. cbn [s_secret]. by destruct (env (of_string "ORBITX_PRESHARED_SECRET")). Qed.

(** The default secret is never empty, so the keys of the program are derived from
    the secret and the pair; the address it gives its interface is that of its role. *)
Lemma main_derives mode env directory database file rnd written works a keys done_ :
  main mode env directory database file rnd written works a = inr (keys, done_) ->
  exists isHost, modeIsHost mode = Some isHost /\ written = true
  /\ let st := settingsOf env in
     let seed := clamp (privateSeed (s_uuid st) (roleOf isHost) (s_secret st)) in
     k_privateKey keys = EncodeToString seed /\ k_publicKey keys = EncodeToString (scalarBaseMult seed)
     /\ done_ = commands (s_interface st) (internalIP isHost) /\ onStartVPN keys = true.
Proof.
  unfold main. destruct (modeIsHost mode) as [isHost|]; [|discriminate]. destruct directory; [|discriminate]. destruct database; [|discriminate]. lazy zeta. cbn [negb].
  pose proof (secret_set env) as Hs. revert Hs. generalize (settingsOf env) as st. intros st Hs. rewrite Init_derives by exact Hs.
  destruct written; cbn [negb]; [|discriminate]. destruct (tunMade a); cbn [negb]; [|discriminate].
  destruct (configureLinuxInterface _ _ _) as [ds ok] eqn:Ec. destruct ok; cbn [negb]; [|discriminate].
  destruct (isStd a); cbn [negb]; [|discriminate]. destruct (upDone a); cbn [negb]; [|discriminate]. destruct (resolved a); cbn [negb]; [|discriminate].
  intros E. injection E as E1 E2. exists isHost. split; [reflexivity|]. split; [reflexivity|].
  unfold KeyUtils.StartVPNShared in E1. rewrite (surjective_pairing (StartShared _ _ _)) in E1. subst keys done_. split; [reflexivity|]. split; [reflexivity|]. split; [|reflexivity].
  pose proof (runAll_all works (commands (s_interface st) (internalIP isHost))) as H. unfold configureLinuxInterface in Ec. rewrite Ec in H. by apply H.
Qed.
End VpnEngine.
