(* ===== verification/Frp.v ===== *)
(** The wrapper that starts and stops the two services of a reverse proxy
    ([frp/frpwrapper.go]).  Both have the same variables and the same life, so
    there is one state of a service; only what comes before it runs differs. *)
From S2P Require Import Prelude.

(** ** A service and its runs *)

(** Where a call of [StartFrps] or [StartFrpc] stands once it has the service: it
    prepares it, has it but has not published it, runs it, is past it and before
    its deferred function, has cleared the variables and released the mutex in it, is
    no longer waited for. *)
Inductive phase := Preparing | Prepared | Serving | Leaving | Cleared | Left.
#[export] Instance phase_eq_dec : EqDecision phase.
Proof. solve_decision. Defined.

(** Whether the run's context has been cancelled and its service closed. *)
Record frpRun := mkFrpRun { fr_phase : phase; fr_cancelled : bool; fr_closed : bool }.
#[export] Instance frpRun_settable : Settable frpRun := fun r => mkFrpRun (fr_phase r) (fr_cancelled r) (fr_closed r).

(** The variables of one service; runs are named by their place in [sv_runs]. *)
Record service := mkService {
  frpCancel : option nat; frpRunning : bool; frpSvr : option nat; frpWG : nat; sv_runs : list frpRun }.
#[export] Instance service_settable : Settable service := fun s =>
  mkService (frpCancel s) (frpRunning s) (frpSvr s) (frpWG s) (sv_runs s).
Definition initial : service := mkService None false None 0 [].

Definition setPhase (i : nat) (p : phase) (s : service) : service :=
  s <| sv_runs ::= alter (fun r => r <| fr_phase := p |>) i |>.

(** The start under the mutex; [None] is the error that it is already running. *)
Definition begin (s : service) : option service :=
  match frpCancel s with
  | Some _ => None
  | None =>
      Some (s <| frpCancel := Some (length (sv_runs s)) |> <| frpRunning := true |> <| frpWG ::= S |>
              <| sv_runs ::= fun l => l ++ [mkFrpRun Preparing false false] |>)
  end.

(** What comes before a service: the working directory, the file, its contents,
    the sources of the client's configuration, the service itself. *)
Definition prepareFrps (workDir : bytes) (written loaded created : bool) : bool :=
  if bool_decide (workDir = []) then false
  else if negb written then false else if negb loaded then false else created.
Definition prepareFrpc (workDir : bytes) (written loaded replaced created : bool) : bool :=
  if bool_decide (workDir = []) then false
  else if negb written then false else if negb loaded then false else if negb replaced then false else created.

Definition prepare (i : nat) (ok : bool) (s : service) : service := setPhase i (if ok then Prepared else Leaving) s.
Definition publish (i : nat) (s : service) : service := setPhase i Serving (s <| frpSvr := Some i |>).
(** [Run] returns. *)
Definition return_ (i : nat) (s : service) : service := setPhase i Leaving s.
(** The deferred function: what it does under the mutex, and [Done] after that. *)
Definition leave (i : nat) (s : service) : service :=
  setPhase i Cleared (s <| frpCancel := None |> <| frpRunning := false |> <| frpSvr := None |>).
Definition done_ (i : nat) (s : service) : service := setPhase i Left (s <| frpWG ::= pred |>).

(** The stop up to its [Wait], which goes on when no run is left. *)
Definition stop (s : service) : service :=
  let s := match frpCancel s with
           | Some i => s <| sv_runs ::= alter (fun r => r <| fr_cancelled := true |>) i |> <| frpCancel := None |>
           | None => s
           end in
  match frpSvr s with
  | Some i => s <| sv_runs ::= alter (fun r => r <| fr_closed := true |>) i |>
  | None => s
  end.
Definition waitDone (s : service) : bool := (frpWG s =? 0)%nat.

Definition isRunning (s : service) : bool := frpRunning s.

(** ** Events *)

Inductive event := Begin | Prepare (i : nat) (ok : bool) | Publish (i : nat) | Return (i : nat) | Leave (i : nat) | Done (i : nat) | Stop.

Definition inPhase (s : service) (i : nat) (p : phase) : bool :=
  match sv_runs s !! i with Some r => bool_decide (fr_phase r = p) | None => false end.

(** An event that can happen: a run takes its phases in order. *)
Definition step (e : event) (s : service) : option service :=
  match e with
  | Begin => Some (default s (begin s))
  | Prepare i ok => if inPhase s i Preparing then Some (prepare i ok s) else None
  | Publish i => if inPhase s i Prepared then Some (publish i s) else None
  | Return i => if inPhase s i Serving then Some (return_ i s) else None
  | Leave i => if inPhase s i Leaving then Some (leave i s) else None
  | Done i => if inPhase s i Cleared then Some (done_ i s) else None
  | Stop => Some (stop s)
  end.

Fixpoint steps (es : list event) (s : service) : option service :=
  match es with [] => Some s | e :: es => s ← step e s; steps es s end.

(** ** Serial use *)

(** Nothing is started while a stopped run has not yet left. *)
Definition serial (e : event) (s : service) : Prop :=
  match e with Begin => frpCancel s = None -> waitDone s = true | _ => True end.

Fixpoint serially (es : list event) (s : service) : Prop :=
  match es with
  | [] => True
  | e :: es => serial e s /\ match step e s with Some s => serially es s | None => True end
  end.

(** A run that is waited for, and one that is the service's. *)
Definition awaited (r : frpRun) : Prop := fr_phase r <> Left.
Definition live (r : frpRun) : Prop := fr_phase r <> Cleared /\ fr_phase r <> Left.

(** The run at number [n] has the variables, until it clears them. *)
Definition owner (s : service) (n : nat) (r : frpRun) : Prop :=
  frpWG s = 1%nat /\
  if decide (fr_phase r = Cleared) then frpRunning s = false /\ frpCancel s = None /\ frpSvr s = None
  else frpRunning s = true /\ frpCancel s = (if fr_cancelled r then None else Some n)
    /\ (frpSvr s = None \/ frpSvr s = Some n) /\ (fr_phase r = Serving -> frpSvr s = Some n).

(** The one run that is not over, if any, is the last: the variables are its own. *)
Definition owned (s : service) : Prop :=
  (s = mkService None false None 0 (sv_runs s) /\ Forall (fun r => fr_phase r = Left) (sv_runs s)) \/
  exists old r, sv_runs s = old ++ [r] /\ Forall (fun r => fr_phase r = Left) old /\ awaited r /\ owner s (length old) r.

Lemma alter_last {A} (f : A -> A) l x : alter f (length l) (l ++ [x]) = l ++ [f x].
Proof. induction l as [|y l IH]; [done|]. cbn. by f_equal. Qed.

(** Only the last run can be in a phase that is not the end. *)
Lemma at_last old r i x : Forall (fun r => fr_phase r = Left) old -> (old ++ [r]) !! i = Some x -> fr_phase x <> Left ->
  i = length old /\ x = r.
Proof.
  intros Hold Hi Hx. apply lookup_app_Some in Hi as [Hi|[Hi1 Hi2]].
  - rewrite Forall_lookup in Hold. by apply Hold in Hi.
  - apply list_lookup_singleton_Some in Hi2 as [Hi2 ->]. split; [lia|done].
Qed.

(** A run that is in a phase before the end is the last. *)
Lemma owned_at s i p : owned s -> p <> Left -> inPhase s i p = true ->
  exists old r, i = length old /\ sv_runs s = old ++ [r] /\ Forall (fun r => fr_phase r = Left) old /\ fr_phase r = p /\ owner s (length old) r.
Proof.
  intros Ho Hp Hi. unfold inPhase in Hi. destruct (sv_runs s !! i) as [x|] eqn:Ex; [|done]. apply bool_decide_eq_true in Hi as <-.
  destruct Ho as [[_ Hall]|(old & r & Es & Hold & _ & Hrest)].
  - rewrite Forall_lookup in Hall. by apply Hall in Ex.
  - rewrite Es in Ex. destruct (at_last _ _ _ _ Hold Ex Hp) as [-> ->]. by exists old, r.
Qed.

Lemma owned_begin s : owned s -> serial Begin s -> owned (default s (begin s)).
Proof.
  intros Ho Hs. unfold begin. destruct (frpCancel s) eqn:Ec; [done|]. specialize (Hs Ec).
  destruct Ho as [[-> Hall]|(old & r & _ & _ & _ & Hw & _)]; [|by unfold waitDone in Hs; rewrite Hw in Hs].
  right. exists (sv_runs s), (mkFrpRun Preparing false false). cbn.
  split; [done|]. split; [done|]. split; [done|]. split; [done|]. rewrite decide_False by done. cbn. split_and!; auto; done.
Qed.

Lemma owned_stop s : owned s -> owned (stop s).
Proof.
  intros [[Hs Hall]|(old & r & Es & Hold & Hl & Hw & Ho)].
  - left. rewrite Hs. done.
  - right. destruct s as [c run v wg rs]. cbn in *. subst rs. destruct (decide (fr_phase r = Cleared)) as [Hc|Hc].
    + destruct Ho as (-> & -> & ->). exists old, r. cbn. split_and!; try done. split; [done|]. by rewrite decide_True.
    + destruct Ho as (Hr & Hcan & Hv & Hsv).
      exists old, (r <| fr_cancelled := true |> <| fr_closed := match v with Some _ => true | None => fr_closed r end |>).
      unfold stop. destruct r as [p [] cl]; cbn in *; subst c; cbn; rewrite ?alter_last;
        destruct Hv as [->|Ev]; rewrite ?Ev in *; cbn; rewrite ?alter_last; (split; [done|]; split; [done|]; split; [done|]; split; [done|]; rewrite decide_False by done; cbn; split_and!; auto).
Qed.

(** A run of the service that takes its next phase, before it clears the variables. *)
Lemma owned_next s old r p s' : owner s (length old) r -> fr_phase r <> Cleared -> sv_runs s = old ++ [r] ->
  Forall (fun r => fr_phase r = Left) old -> p <> Cleared -> p <> Left ->
  s' = setPhase (length old) p s \/ s' = setPhase (length old) p (s <| frpSvr := Some (length old) |>) ->
  (p = Serving -> frpSvr s' = Some (length old)) -> owned s'.
Proof.
  intros [Hw Ho] Hr Es Hold Hc Hl Hs Hsv. rewrite decide_False in Ho by done. destruct Ho as (Hrun & Hcan & Hv & _).
  right. exists old, (r <| fr_phase := p |>).
  assert (sv_runs s' = old ++ [r <| fr_phase := p |>]) as -> by (destruct Hs as [-> | ->]; cbn; by rewrite Es, alter_last).
  split_and!; [done..|]. destruct Hs as [-> | ->]; (split; [done|]); rewrite decide_False by done; cbn; split_and!; auto.
Qed.

Lemma owned_step e s s' : owned s -> serial e s -> step e s = Some s' -> owned s'.
Proof.
  intros Ho Hs. destruct e as [|i ok|i|i|i|i|]; cbn [step]; intros E; try (destruct (inPhase s i _) eqn:Ea; [|done]); injection E as <-.
  - by apply owned_begin.
  - destruct (owned_at s i Preparing Ho ltac:(done) Ea) as (old & r & -> & Es & Hold & Hp & Hr).
    eapply (owned_next s old r); [done|by rewrite Hp|done|done| | |by left|]; by destruct ok.
  - destruct (owned_at s i Prepared Ho ltac:(done) Ea) as (old & r & -> & Es & Hold & Hp & Hr).
    eapply (owned_next s old r Serving); [done|by rewrite Hp|done..|by right|done].
  - destruct (owned_at s i Serving Ho ltac:(done) Ea) as (old & r & -> & Es & Hold & Hp & Hr).
    eapply (owned_next s old r Leaving); [done|by rewrite Hp|done..|by left|done].
  - destruct (owned_at s i Leaving Ho ltac:(done) Ea) as (old & r & -> & Es & Hold & Hp & Hw & _).
    right. exists old, (r <| fr_phase := Cleared |>). cbn. rewrite Es, alter_last. split_and!; [done..|]. by split.
  - destruct (owned_at s i Cleared Ho ltac:(done) Ea) as (old & r & -> & Es & Hold & Hp & Hw & Hc).
    rewrite decide_True in Hc by done. destruct Hc as (Hrun & Hcan & Hsv). left. destruct s as [c run v wg rs]. cbn in *. subst.
    unfold done_, setPhase. cbn. rewrite alter_last. split; [done|]. apply Forall_app. split; [done|]. by apply Forall_singleton.
  - by apply owned_stop.
Qed.

Lemma owned_steps es : forall s s', owned s -> serially es s -> steps es s = Some s' -> owned s'.
Proof.
  induction es as [|e es IH]; intros s s' Ho Hs E; cbn [steps serially] in *; [by injection E as <-|].
  destruct Hs as [He Hes]. destruct (step e s) as [s1|] eqn:E1; [|done]. eapply IH; [|done|exact E]. by eapply owned_step.
Qed.

(** C19: as long as nothing is started between a stop and the end of the run it stops, a
    service is reported to run exactly while a run of it lives, that is until its deferred
    function clears the variables; at most one run is not over; a stop tells the one that
    lives to end, and its wait ends exactly when no run is left, of which the last may
    have been reported stopped shortly before. *)
Theorem frp_serial es s : serially es initial -> steps es initial = Some s ->
  (isRunning s = true <-> exists r, r ∈ sv_runs s /\ live r)
  /\ (forall i j r r', sv_runs s !! i = Some r -> sv_runs s !! j = Some r' -> awaited r -> awaited r' -> i = j)
  /\ (forall r, r ∈ sv_runs (stop s) -> live r -> fr_cancelled r = true)
  /\ (waitDone s = true <-> forall r, r ∈ sv_runs s -> ~ awaited r)
  /\ (waitDone s = true -> isRunning s = false)
  /\ (isRunning s = false -> waitDone s = true \/ exists r, r ∈ sv_runs s /\ fr_phase r = Cleared).
Proof.
  intros Hes E. assert (owned initial) as Hi by (left; by split; [|apply List.Forall_nil]).
  pose proof (owned_steps es _ _ Hi Hes E) as Ho. pose proof (owned_stop s Ho) as Hstop.
  unfold isRunning, waitDone. destruct Ho as [[Hs Hall]|(old & x & Es & Hold & Hx & Hw & Ho)].
  - rewrite Forall_forall in Hall. assert (forall r, r ∈ sv_runs s -> ~ awaited r) as Hno by (intros r Hr Ha; by apply Ha, Hall).
    split_and!.
    + rewrite Hs. cbn. split; [done|]. intros (r & Hr & _ & Hl). by destruct (Hno r Hr).
    + intros i j r r' Hr _ Ha _. by destruct (Hno r (list_elem_of_lookup_2 _ _ _ Hr)).
    + intros r Hr [_ Hl]. rewrite Hs in Hr. by destruct (Hno r Hr).
    + rewrite Hs. by split.
    + by rewrite Hs.
    + rewrite Hs. by left.
  - assert (x ∈ sv_runs s) as Hin by (rewrite Es; set_solver).
    assert (forall r, r ∈ sv_runs s -> awaited r -> r = x) as Hlast.
    { intros r Hr Ha. rewrite Es in Hr. apply elem_of_app in Hr as [Hr|Hr%list_elem_of_singleton]; [|done]. rewrite Forall_forall in Hold. by apply Hold in Hr. }
    rewrite Hw. split_and!.
    + destruct (decide (fr_phase x = Cleared)) as [Hc|Hc]; destruct Ho as (-> & _).
      * split; [done|]. intros (r & Hr & Hl). rewrite (Hlast r Hr (proj2 Hl)) in Hl. by destruct Hl.
      * split; [|done]. intros _. by exists x.
    + intros i j r r' Hr Hr' Hl Hl'. rewrite Es in Hr, Hr'. destruct (at_last _ _ _ _ Hold Hr Hl) as [-> _]. by destruct (at_last _ _ _ _ Hold Hr' Hl').
    + intros r Hr [Hc Hl]. destruct Hstop as [[_ Hall]|(old' & x' & Es' & Hold' & _ & _ & Ho')].
      { rewrite Forall_forall in Hall. by apply Hall in Hr. }
      rewrite Es' in Hr. apply elem_of_app in Hr as [Hr| ->%list_elem_of_singleton]; [rewrite Forall_forall in Hold'; by apply Hold' in Hr|].
      rewrite decide_False in Ho' by done. destruct Ho' as (_ & Hcan & _). destruct (fr_cancelled x'); [done|]. exfalso. revert Hcan. clear. by destruct s as [[] ? [] ? ?].
    + split; [done|]. intros H. by destruct (H x Hin).
    + done.
    + intros Hf. right. exists x. split; [done|]. destruct (decide (fr_phase x = Cleared)); [done|]. destruct Ho as [Ht _]. congruence.
Qed.

Definition sampleEvents : list event := [Begin; Prepare 0 true; Begin; Publish 0; Stop; Return 0; Leave 0; Done 0; Begin].
Lemma frp_serial_witness : exists s, steps sampleEvents initial = Some s /\ isRunning s = true.
Proof.
  assert (serially sampleEvents initial) as Hs by (cbn; by split_and!).
  eexists. split; [reflexivity|].
  apply (proj1 (frp_serial _ _ Hs eq_refl)). eexists. split; [apply list_elem_of_lookup; by exists 1%nat|done].
Defined.

(** A start before the run that was stopped has left loses the new run: the old
    one clears its variables, so it lives while it is reported not to run, a stop
    does not end it, and waits for ever. *)
Example restart_loses_run :
  match steps [Begin; Prepare 0 true; Publish 0; Stop; Begin; Prepare 1 true; Publish 1; Return 0; Leave 0; Done 0] initial with
  | Some s => isRunning s = false /\ waitDone s = false /\ sv_runs s !! 1%nat = Some (mkFrpRun Serving false false) /\ stop s = s
  | None => False
  end.
Proof. vm_compute. by split_and!. Qed.
